(* ===== verification/_CoqProject ===== *)
-Q . S2P
Prelude.v
GoText.v
Encodings.v
Programs.v
JobState.v
Manifest.v
Scheduler.v
Callback.v
Sandbox.v
BatchPipeline.v
BatchContract.v
Runner.v
JudgeWitness.v
Store.v
JobWorker.v
JobRepository.v
StoreInvariant.v
StoreSteps.v
StoreClaim.v
StoreReach.v
StoreFrame.v
StoreProperties.v
Idempotency.v
StoreQuota.v
StoreRefine.v
StoreProgress.v
StoreWorker.v
Submission.v
RequestIdentity.v
JobListing.v
SubmissionSafety.v
StoreExample.v
StoreWitness.v
SourceRetention.v
RetentionWorker.v
RetentionSafety.v
RetentionProperties.v
RetentionWitness.v
Webhook.v
WebhookSafety.v
CallbackTransport.v
WebhookDelivery.v
WebhookWorker.v
WebhookWorkerSafety.v
WebhookRepository.v
Ciphers.v
BundleArchive.v
ArchiveSafety.v
BundleCache.v
CacheSafety.v
Bundles.v
BundleService.v
BundleWorld.v
BundleSafety.v
BundleEffects.v
BundleProofs.v
BundleThreads.v
BundleProperties.v
BundleWitness.v
SubmissionEvents.v
TaskRegistry.v
LegacyJudge.v
LegacyContract.v
LegacyPipelines.v
Credentials.v
ApiQuota.v
HttpServer.v
HttpJobs.v
HttpBundles.v
HttpSafety.v
HttpStore.v
SandboxClient.v
Discovery.v
Migrations.v
AppRuntime.v
Shutdown.v
LegacyWitness.v
ApiWitness.v
WebhookWitness.v
ListingWitness.v
