(* ===== verification/Prelude.v ===== *)
(** * Verification of the CodeRushOJ judging server

    The judging server takes submissions of external tenants over HTTP, stores
    them in MySQL with their encrypted source in an object store, lets workers
    claim and execute them on gRPC sandboxes against immutable test bundles, which
    tenants upload and the server publishes in an object store, delivers the
    outcome through a webhook outbox, and deletes sources when their retention is
    over. Beside it runs the first API: events from a queue name submissions of
    the platform's own database, which are judged with the same pipeline and
    answered through a callback. This library models that program (the Go files
    under [src/internal] and [src/cmd]) as Rocq functions and step relations, and
    proves what makes its parts correct. Paths below are relative to [src/internal],
    those that start with [cmd] to [src].

    ** How the program is modelled

    - A Go function is a Gallina function of its name. [(T, error)] becomes
      [result E T] with an error type per component, or [option T] where callers
      cannot tell errors apart. Methods that mutate their receiver return it.
    - Integers are [Z]; where the code relies on a width the wrap-around is written
      out ([wrap_int64], [wrap_uint32], ...). Strings and byte slices are [string]
      whose characters are bytes ([GoText]). Instants and durations are
      nanoseconds; the zero [time.Time] is [zero_time].
    - A SQL transaction is one function from the tables to a result and new
      tables; an error rolls back. The clock readings it makes, the random tokens
      it draws and the set of rows that other transactions have locked (what
      [SKIP LOCKED] passes over) are arguments.
    - Concurrency is interleaving of transactions, or, where a protocol spans
      several statements and an object store, of single statements as steps of
      threads ([Submission], [RetentionSafety], [BundleCache]) or of the calls of
      a program tree ([Programs], used by [BundleService]), proved by
      rely-guarantee. Theorems quantify over all runs.
    - What is not code of the repository is a parameter with its documented
      behaviour as a named hypothesis or class of laws: SHA-256, HMAC, AES-GCM
      ([AEADLaws]), JSON decoding, [net/url], [net/netip], DNS, HTTP, gRPC.

    ** The files, in dependency order

    Foundations.
    - [Prelude]: results, the width of integers, sums over lists and maps, the
      first element of an order, byte strings, automation ([bool_to_prop]).
    - [GoText]: UTF-8, UTF-16, decimal, base32, big-endian and JSON string
      encodings; [callback/text.go]. [Encodings]: base64 and hexadecimal.
    - [Programs]: programs of calls, their execution by a handler, systems of
      threads, and the rely-guarantee logic over them.

    Judging one submission.
    - [JobState]: [external/job_state.go], the methods of [DurableJob] and the
      validation of results.
    - [Manifest]: [judgecontract/registry.go] and [bundle/manifest.go].
    - [Scheduler]: [scheduler/]; [Callback]: [callback/client.go].
    - [Sandbox], [BatchPipeline]: [service/bundle_batch_pipeline.go] with the
      helpers it shares with the older pipelines; [BatchContract] proves the verdict
      rules and the contract of a result.
    - [Runner]: [worker/runner.go], against the interface [Repository] and the laws
      [RepositoryLaws]; [JudgeWitness] instantiates the theorems of this group.

    The job store.
    - [Store]: the tables, transactions, row readers, tenant policies and terminal
      events ([external/webhook_event.go], [mysql_webhook_event.go]).
    - [JobWorker]: [external/mysql_job_worker.go]; [JobRepository]:
      [external/mysql_job_repository.go] ([Get], [Cancel], [Submit]) and the
      statements of [source_reservation.go].
    - [StoreInvariant], [StoreSteps], [StoreClaim], [StoreReach]: the invariant of
      the tables, its preservation, the step relation [store_step];
      [StoreProperties], [StoreQuota], [StoreRefine], [StoreProgress],
      [StoreWorker]: what follows. [StoreRefine] proves that the
      tables implement [DurableJob]; [StoreWorker] that the MySQL repository is an
      instance of [RepositoryLaws], which closes the loop with [Runner].
    - [StoreFrame]: which tables a transaction leaves alone. [Idempotency]: one job
      per key. [RequestIdentity]: [external/job_request.go].
      [JobListing]: [MySQLJobRepository.List] and its cursors.
    - [Submission], [SubmissionSafety]: [Submit] around its transaction, crashes,
      the object store and the reservation sweeper.
    - [StoreExample], [StoreWitness], [ListingWitness]: a
      worked history.

    Retention.
    - [SourceRetention]: the transactions of [external/source_retention.go];
      [RetentionWorker]: [source_retention_worker.go] and
      [idempotency_retention_worker.go]; [RetentionSafety], [RetentionProperties]:
      several workers, statement by statement, beside the
      transactions of the job store; [RetentionWitness].

    Webhooks and secrets.
    - [Webhook]: [external/mysql_webhook_outbox.go]; [WebhookSafety] its step
      relation, invariant, fencing, bounded attempts, termination and which row a
      claim selects; [WebhookRepository] the instance
      of the worker's interface.
    - [CallbackTransport]: [external/safe_transport.go]; [WebhookDelivery]:
      [external/webhook.go]; [WebhookWorker], [WebhookWorkerSafety]:
      [external/webhook_worker.go].
    - [Ciphers]: [external/source_crypto.go] and
      [callback_crypto.go]. [WebhookWitness] instantiates the theorems of the
      group.

    Bundles.
    - [BundleArchive]: [bundle/archive.go] and [pack.go]; [ArchiveSafety] what an
      accepted archive guarantees. [BundleCache]: [bundle/cache.go] and the opening
      of [provider.go]; [CacheSafety] its invariant under concurrent calls.
    - [Bundles]: the transactions of [external/bundle_repository.go];
      [BundleService]: [bundle_service.go], [bundle_reconciler.go],
      [bundle_staging_gc.go] and [object_store.go] as programs; [BundleWorld]: what
      their calls may do to the database, the object store and the clock.
    - [BundleSafety] (the invariant, what threads guarantee and rely on),
      [BundleEffects] (every call), [BundleProofs], [BundleThreads] (every
      program), [BundleProperties] (what follows),
      [BundleWitness] (a bundle packed, uploaded, published and resolved).

    The first API.
    - [SubmissionEvents]: [consumer/event.go], the consumption of a batch of
      messages of [consumer/rocketmq.go], [service/problem_version.go] and the rows
      of [pkg/model]. [TaskRegistry]: [service/task_registry.go]
      under concurrent calls.
    - [LegacyJudge]: [service/judge_service.go], [hidden_test_executor.go],
      [ExecuteArtifact] of [bundle_batch_pipeline.go] and [bundle/provider.go];
      [LegacyContract] what a verdict means, and the service over its registry and
      the consumer before it.
    - [LegacyPipelines]: the sequential pipeline
      ([service/bundle_pipeline.go]) and the single-case one
      ([execution_pipeline.go]).
    - [Discovery]: [discovery/kubernetes.go] and the name servers of
      [consumer/rocketmq.go]. [SandboxClient]: [sandbox/client.go], the guard of a batch
      stream and the cache of connections under concurrent calls. [LegacyWitness]
      instantiates the theorems of the group.

    The external API.
    - [Credentials]: [external/api_key.go], [credential.go],
      [provision.go] and [httpapi/auth.go]. [ApiQuota]: [external/quota.go] and
      [redis_quota.go] with the script it runs.
    - [HttpServer]: [net/url.ParseQuery], [httpapi/problem.go],
      [capabilities.go] and the construction of [server.go]; [HttpJobs]: [jobs.go]
      and [mysql_job_service.go]; [HttpBundles]: [bundles.go] and [ServeHTTP].
      The handlers run on the interfaces [JobService], [DurableJobRepository] and
      [BundleApplication].
    - [HttpSafety] (whom a request acts for and what every response carries),
      [HttpStore] (the instance over the job repository, whose jobs are
      shown, admissions and the limit of a request). [ApiWitness] instantiates the
      theorems of the group.
    - [Migrations]: [external/migrate.go], the migrations of the schema by several
      processes that may fail at any call.
    - [AppRuntime]: [app/runtime.go] up to [Run], with the timeouts of
      [cmd/external_runtime.go]; [Shutdown]: [Run], [cmd/legacy_runtime.go] and the end
      of [cmd/main.go] as steps that interleave.

    ** What the theorems show

    - Judging: [Validate_iff] characterises the accepted manifests, whose paths are
      safe unless one is the lone "..", which the code lets pass;
      [executeBatch_spec] bounds retries, calls the sandboxes the selector answers
      (distinct ones when it skips those called before, as the selector of the
      scheduler does and [Target] does not) and admits validated streams only;
      [ExecuteCanonical_contract] is what every result meets and
      [durableResult_defined] that the worker can store it, with one exception.
    - Life of a job: every committed transaction moves a row as a method of
      [DurableJob], up to the time of the next attempt and the instant of the
      completion, which are given exactly ([repository_refines_durable_job]);
      terminal rows are frozen,
      cancellation is final, superseded claims are fenced, a live claim can
      always be settled, and the runner never abandons a claim it reports as
      done.
    - Resources: the execution ledger is conserved, the daily and running quotas
      are never exceeded, the reserved time is the exact worst case; source
      objects neither dangle nor leak over all interleavings with the sweeper.
    - Webhooks: one event per terminal job with a callback; deliveries are fenced,
      bounded and terminate, claims starve no tenant; callbacks reach public
      addresses only and signatures are unambiguous; the worker never hands its
      repository a malformed settlement; transports are closed exactly once.
    - Retention: a source is deleted only when nothing needs it, by the worker that
      holds its lease, and one that is due is deleted; records of keys that have
      not expired name jobs that can still be read.
    - Bundles: an archive accepted at upload is safe to decompress and can be
      judged later; an answered upload is published with the bytes that were sent,
      whatever else runs; the collector never removes an object that is needed; the
      reconciler publishes what is due; the cache hands out authentic files within
      its capacity and downloads a digest once at a time.
    - Secrets: encryption round trips across key rotation, and a ciphertext is
      bound to the object it was made for.
    - The first API: a verdict is that of a run of the submission's code on the
      published version and the archive of the bundle's digest; a task has one owner
      at a time and its result is kept until it is delivered; an acknowledged event
      is settled, by what its services answered in its own execution; a batch stream
      is received in bounded memory and handed on only when complete; connections
      are closed once and not under a call; sandboxes are selected among the ready
      endpoints and name servers are never forgotten.
    - The external API: an issued key opens its tenant until it expires; the rate
      of requests is bounded; a request acts only for the tenant of its credential
      and within its scopes, gives back the slots it takes, is charged once and is
      shown its own tenant's jobs only; every response carries the headers its
      status asks for; every job within the limits fits its request.
    - Migrations: under crashes and concurrent runs the migrations are carried out in
      order, one process at a time, and the history is exactly theirs; a run on its
      own applies all of them.
    - The process: its deadlines fit each other; it closes its databases after both
      runtimes have ended, and can be stopped whatever its workers do.

    ** Fuel and bounds

    Loops of the code are structural recursions on the data or on a counter the
    code itself bounds: the retry loop of [executeBatch] on [maxInfraAttempts],
    [ClaimNext] on its budget of 64 maintenance rounds, [ClaimNextWebhook]
    likewise, the sweep on its budget of 100 batches, the event ids on the eight
    the code draws. Decoders recurse over the text. [run_turns] takes a turn per
    environment it is given: the loop of [Run] itself does not end. The eviction of
    the cache gets as much fuel as there are entries, since a round removes one. A batch
    stream is received with fuel for three messages more than there are cases,
    which [received_batch_exact] shows to be enough: the guard ends it before.
    [executeCase] recurses on [maxInfraAttempts].

    ** Not modelled, and why

    - Transactions are atomic; the isolation level (READ COMMITTED with the row
      locks the code takes) is relied on, not modelled, except for [SKIP LOCKED].
      A commit whose outcome is unknown to the client is not modelled.
    - [store_step] has no step for administrative changes (policies, bundles) or
      deliveries in the outbox; the outbox has its own transition system, which
      receives the events of the store. Retention has its own system around
      [store_step].
    - An object [Put] of a submission is assumed to take effect before its
      deadline. [RowsAffected] counts changed rows, as the driver is configured. In
      [Store] columns keep instants exactly; the outbox and the bundles take the
      rounding of [DATETIME(3)] as a parameter.
    - For bundles ([bundle_assumptions]): a commit takes effect at most [grace]
      after the deadline of its upload and the clock of the object store is off by
      at most [drift], together at most twenty minutes; other calls take effect
      before they return, or not at all; the database reads an arbitrary clock;
      the column of the manifest keeps its text; no code sets [deleted_at]; digests
      of uploads of different sizes differ.
    - The floating point of the Redis script is a rounding [fl] with the laws
      [rounding]; the decimal text a bucket is stored as is part of it.
    - A request of the HTTP layer is what [net/http] makes of it, with the outcomes
      of its deadlines and the part a multipart reader finds as fields; the JSON
      decoder and [mime.ParseMediaType] are parameters, the header [http.MaxBytesReader]
      may set is left out, and the random request id is an argument. Handlers run
      one at a time, from a world in which others hold slots; deadlines that cancel
      a handler's work are errors of the services it calls.
    - [Run] is called once; a connection that the server takes while it shuts down is
      refused by the handler. Calls of [Start] and [Shutdown] of a consumer return.
    - Pure I/O and glue: configuration, the construction of clients, the MinIO, Redis,
      RocketMQ, Kubernetes and gRPC clients, the generated stubs. The SQL of the migrations and of their
      postconditions is a parameter; a session that lost its connection has ended.
*)
From stdpp Require Import prelude gmap strings.

Open Scope Z_scope.

(** ** Fallible computations

    A Go function that returns [(T, error)] is a [result E T]: the error is a
    constructor of the component's own error type. *)
Inductive result (E A : Type) : Type :=
| Ok (a : A)
| Err (e : E).
Arguments Ok {E A} a.
Arguments Err {E A} e.

#[export] Instance result_ret {E} : MRet (result E) := λ A a, Ok a.
#[export] Instance result_bind {E} : MBind (result E) := λ A B f m,
  match m with
  | Ok a => f a
  | Err e => Err e
  end.
#[export] Instance result_fmap {E} : FMap (result E) := λ A B f m,
  match m with
  | Ok a => Ok (f a)
  | Err e => Err e
  end.

#[export] Instance result_eq_dec {E A} `{EqDecision E, EqDecision A} :
  EqDecision (result E A).
Proof. solve_decision. Defined.

Definition is_ok {E A} (r : result E A) : bool :=
  match r with
  | Ok _ => true
  | Err _ => false
  end.

(** [guard_err b e]: Go's [if !b { return e }]. *)
Definition guard_err {E} (b : bool) (e : E) : result E unit :=
  if b then Ok tt else Err e.

(** The pointer-dereference pattern [if p == nil { return e }]. *)
Definition from_option {E A} (o : option A) (e : E) : result E A :=
  match o with
  | Some a => Ok a
  | None => Err e
  end.

Definition is_some {A} (o : option A) : bool :=
  match o with
  | Some _ => true
  | None => false
  end.

Lemma bind_ok {E A B} (f : A → result E B) (m : result E A) b :
  (m ≫= f) = Ok b ↔ ∃ a, m = Ok a ∧ f a = Ok b.
Proof. destruct m; naive_solver. Qed.

Lemma guard_err_ok {E} (b : bool) (e : E) u : guard_err b e = Ok u ↔ b = true.
Proof. destruct b, u; simpl; naive_solver. Qed.

Lemma from_option_ok {E A} (o : option A) (e : E) a : from_option o e = Ok a ↔ o = Some a.
Proof. destruct o; simpl; naive_solver. Qed.

Lemma is_some_true {A} (o : option A) : is_some o = true ↔ is_Some o.
Proof. destruct o; simpl; split; naive_solver eauto. Qed.

(** ** Machine integers

    Go's sized integers are kept as [Z]; an operation whose overflow matters is
    written with the wrap-around of its width. *)
Definition max_int32 : Z := 2147483647.
Definition max_uint32 : Z := 4294967295.
Definition max_uint64 : Z := 18446744073709551615.
Definition max_int64 : Z := 9223372036854775807.
Definition min_int64 : Z := -9223372036854775808.

Definition wrap_int64 (z : Z) : Z :=
  (z + 9223372036854775808) `mod` 18446744073709551616 - 9223372036854775808.
Definition wrap_uint64 (z : Z) : Z := z `mod` 18446744073709551616.
Definition wrap_uint32 (z : Z) : Z := z `mod` 4294967296.

Lemma wrap_int64_id z : min_int64 ≤ z ≤ max_int64 → wrap_int64 z = z.
Proof. unfold wrap_int64, min_int64, max_int64. intros. rewrite Z.mod_small; lia. Qed.

Lemma wrap_uint64_id z : 0 ≤ z < 18446744073709551616 → wrap_uint64 z = z.
Proof. apply Z.mod_small. Qed.

Lemma wrap_uint32_id z : 0 ≤ z ≤ max_uint32 → wrap_uint32 z = z.
Proof. unfold wrap_uint32, max_uint32. intros. apply Z.mod_small; lia. Qed.

Lemma wrap_int64_range z : min_int64 ≤ wrap_int64 z ≤ max_int64.
Proof.
  unfold wrap_int64, min_int64, max_int64.
  pose proof (Z.mod_pos_bound (z + 9223372036854775808) 18446744073709551616). lia.
Qed.

(** ** Sums over lists *)
Fixpoint sumZ {A} (f : A → Z) (l : list A) : Z :=
  match l with
  | [] => 0
  | x :: l => f x + sumZ f l
  end.

Lemma sumZ_app {A} (f : A → Z) l1 l2 : sumZ f (l1 ++ l2) = sumZ f l1 + sumZ f l2.
Proof. induction l1; simpl; lia. Qed.

Lemma sumZ_nonneg {A} (f : A → Z) l : Forall (λ x, 0 ≤ f x) l → 0 ≤ sumZ f l.
Proof. induction 1; simpl; lia. Qed.

Lemma sumZ_le {A} (f g : A → Z) l :
  Forall (λ x, f x ≤ g x) l → sumZ f l ≤ sumZ g l.
Proof. induction 1; simpl; lia. Qed.

Lemma sumZ_bound {A} (f : A → Z) b l :
  Forall (λ x, f x ≤ b) l → sumZ f l ≤ b * Z.of_nat (length l).
Proof. induction 1; simpl; lia. Qed.

Lemma sumZ_ext {A} (f g : A → Z) l :
  Forall (λ x, f x = g x) l → sumZ f l = sumZ g l.
Proof. induction 1; simpl; lia. Qed.

Lemma sumZ_perm {A} (f : A → Z) l1 l2 : l1 ≡ₚ l2 → sumZ f l1 = sumZ f l2.
Proof. induction 1; simpl; lia. Qed.

(** Equality of two pointwise dominated sums forces pointwise equality. *)
Lemma sumZ_eq_pointwise {A} (f g : A → Z) l :
  Forall (λ x, f x ≤ g x) l → sumZ f l = sumZ g l → Forall (λ x, f x = g x) l.
Proof.
  induction 1 as [|x l Hx Hl IH]; simpl; intros Heq; [constructor|].
  pose proof (sumZ_le f g l Hl). constructor; [lia|]. apply IH; lia.
Qed.

Lemma sumZ_submseteq {A} (f : A → Z) l1 l2 : l1 ⊆+ l2 → Forall (λ x, 0 ≤ f x) l2 → sumZ f l1 ≤ sumZ f l2.
Proof.
  intros [k Hp]%submseteq_Permutation Hf. rewrite (sumZ_perm f _ _ Hp), sumZ_app.
  rewrite Hp, Forall_app in Hf. pose proof (sumZ_nonneg f k). naive_solver lia.
Qed.

(** Sums over the rows of a table. *)
Definition map_sumZ {K A} `{Countable K} (f : A → Z) (m : gmap K A) : Z :=
  sumZ (λ p, f p.2) (map_to_list m).

Section MapSum.
Context {K A : Type} `{Countable K} (f : A → Z).
Implicit Types m : gmap K A.

Lemma map_sumZ_insert_new m i x : m !! i = None → map_sumZ f (<[i := x]> m) = f x + map_sumZ f m.
Proof. intros Hi. unfold map_sumZ. by rewrite (sumZ_perm _ _ _ (map_to_list_insert m i x Hi)). Qed.

Lemma map_sumZ_delete m i x : m !! i = Some x → map_sumZ f m = f x + map_sumZ f (delete i m).
Proof.
  intros Hi. rewrite <-(map_sumZ_insert_new (delete i m) i x) by apply lookup_delete_eq. by rewrite insert_delete_id.
Qed.

Lemma map_sumZ_insert_old m i x y :
  m !! i = Some x → map_sumZ f (<[i := y]> m) = map_sumZ f m - f x + f y.
Proof.
  intros Hi. rewrite <-insert_delete_eq, map_sumZ_insert_new by apply lookup_delete_eq.
  rewrite (map_sumZ_delete m i x Hi). lia.
Qed.

Lemma map_sumZ_nonneg m : (∀ i x, m !! i = Some x → 0 ≤ f x) → 0 ≤ map_sumZ f m.
Proof. intros Hf. apply sumZ_nonneg, Forall_forall. intros [i x] Hp%elem_of_map_to_list. by eapply Hf. Qed.

Lemma map_sumZ_subseteq m1 m2 : m1 ⊆ m2 → (∀ i x, m2 !! i = Some x → 0 ≤ f x) → map_sumZ f m1 ≤ map_sumZ f m2.
Proof.
  intros Hs Hf. apply sumZ_submseteq; [by apply map_to_list_submseteq|].
  apply Forall_forall. intros [i x] Hp%elem_of_map_to_list. by eapply Hf.
Qed.
End MapSum.

(** Filters that keep everything or nothing. *)
Lemma filter_all {A} (P : A → Prop) `{∀ x, Decision (P x)} (l : list A) : (∀ x, x ∈ l → P x) → filter P l = l.
Proof.
  induction l as [|x l IH]; intros Hl; [done|]. rewrite filter_cons_True by (apply Hl; by left).
  f_equal. apply IH. intros y Hy. apply Hl. by right.
Qed.

Lemma filter_none {A} (P : A → Prop) `{∀ x, Decision (P x)} (l : list A) : (∀ x, x ∈ l → ¬ P x) → filter P l = [].
Proof.
  induction l as [|x l IH]; intros Hl; [done|]. rewrite filter_cons_False by (apply Hl; by left).
  apply IH. intros y Hy. apply Hl. by right.
Qed.

(** ** The first element of a list in an order

    What a query with an [ORDER BY] and [LIMIT 1] selects. *)
Definition first_by {A} (before : A → A → bool) (l : list A) : option A :=
  foldr (λ a best, match best with Some b => if before b a then Some b else Some a | None => Some a end) None l.

Lemma first_by_elem {A} (before : A → A → bool) l x : first_by before l = Some x → x ∈ l.
Proof.
  induction l as [|a l IH]; simpl; [done|]. destruct (first_by before l) as [b|] eqn:E.
  - destruct (before b a); intros [= <-]; [right; by apply IH|left].
  - intros [= <-]. left.
Qed.

Lemma first_by_None {A} (before : A → A → bool) l : first_by before l = None → l = [].
Proof. destruct l as [|a l]; simpl; [done|]. destruct (first_by before l) as [b|]; [by destruct (before b a)|done]. Qed.

(** In an asymmetric, negatively transitive order nothing precedes the first. *)
Lemma first_by_least {A} (before : A → A → bool) l x :
  (∀ a b, before a b = true → before b a = false) →
  (∀ a b c, before a b = false → before b c = false → before a c = false) →
  first_by before l = Some x → ∀ y, y ∈ l → before y x = false.
Proof.
  intros Hasym Htrans. assert (Hirr : ∀ a, before a a = false).
  { intros a. destruct (before a a) eqn:E; [|done]. by rewrite (Hasym _ _ E) in E. }
  revert x. induction l as [|a l IH]; simpl; [done|]. intros x Hx y.
  rewrite elem_of_cons. destruct (first_by before l) as [b|] eqn:E.
  - destruct (before b a) eqn:Hb; injection Hx as <-.
    + intros [->|Hy]; [by apply Hasym|by apply (IH b)].
    + intros [->|Hy]; [done|]. by eapply Htrans; [apply (IH b)|].
  - injection Hx as <-. apply first_by_None in E as ->. intros [->|[]%not_elem_of_nil]. done.
Qed.

(** ** Go strings

    A Go string is a byte sequence, here [string] whose characters are bytes;
    [len] is its length in bytes. *)
#[global] Arguments String.append : simpl nomatch.

Definition len (s : string) : Z := Z.of_nat (String.length s).

Lemma len_nonneg s : 0 ≤ len s.
Proof. unfold len. lia. Qed.

Lemma string_length_append s1 s2 :
  String.length (s1 +:+ s2) = (String.length s1 + String.length s2)%nat.
Proof. induction s1; simpl; lia. Qed.

Lemma len_append s1 s2 : len (s1 +:+ s2) = len s1 + len s2.
Proof. unfold len. rewrite string_length_append. lia. Qed.

Lemma string_append_nil_r s : s +:+ "" = s.
Proof. induction s; simpl; congruence. Qed.

Lemma string_append_assoc s1 s2 s3 : (s1 +:+ s2) +:+ s3 = s1 +:+ (s2 +:+ s3).
Proof. induction s1; simpl; congruence. Qed.

Lemma len_zero s : len s = 0 ↔ s = "".
Proof. unfold len. destruct s as [|a s]; cbn [String.length]; split; intros H; [done|done|lia|done]. Qed.

(** Byte value of a character and membership of a byte in a range. *)
Definition byte_of (a : Ascii.ascii) : Z := Z.of_N (Ascii.N_of_ascii a).

Definition in_range (lo hi b : Z) : bool := (lo <=? b) && (b <=? hi).

Lemma in_range_true lo hi b : in_range lo hi b = true ↔ lo ≤ b ≤ hi.
Proof. unfold in_range. rewrite andb_true_iff, !Z.leb_le. done. Qed.

Lemma byte_of_range a : 0 ≤ byte_of a ≤ 255.
Proof.
  unfold byte_of. pose proof (Ascii.N_ascii_bounded a). lia.
Qed.

Fixpoint string_forallb (p : Ascii.ascii → bool) (s : string) : bool :=
  match s with
  | EmptyString => true
  | String a s => p a && string_forallb p s
  end.

(** ** Instants and durations

    An instant is the number of nanoseconds since 0001-01-01T00:00:00Z, so that
    Go's zero [time.Time{}] is [0]; a duration is a number of nanoseconds. *)
Definition zero_time : Z := 0.
Definition millisecond : Z := 1000000.
Definition second : Z := 1000000000.
Definition minute : Z := 60 * second.
Definition hour : Z := 60 * minute.

(** Seconds from year 1 to the Unix epoch; [time.Unix] and [time.UnixMilli]. *)
Definition unix_epoch : Z := 62135596800.
Definition unix_seconds (t : Z) : Z := t / second - unix_epoch.
Definition unix_millis (t : Z) : Z := t / millisecond - 1000 * unix_epoch.
Definition from_unix_millis (ms : Z) : Z := (ms + 1000 * unix_epoch) * millisecond.

Lemma from_unix_millis_of t : t `mod` millisecond = 0 → from_unix_millis (unix_millis t) = t.
Proof. unfold from_unix_millis, unix_millis, unix_epoch, millisecond. Z.div_mod_to_equations. lia. Qed.
Definition day : Z := 24 * hour.

(** A configuration field left zero takes its default. *)
Definition or_default (value fallback : Z) : Z := if value =? 0 then fallback else value.

(** ** Automation *)

(** Turn every boolean test in the context into the proposition it decides. *)
Ltac bool_to_prop :=
  repeat match goal with
  | H : _ && _ = true |- _ => apply andb_true_iff in H; destruct H
  | H : _ || _ = false |- _ => apply orb_false_iff in H; destruct H
  | H : negb _ = true |- _ => apply negb_true_iff in H
  | H : negb _ = false |- _ => apply negb_false_iff in H
  | H : (_ <=? _) = true |- _ => apply Z.leb_le in H
  | H : (_ <=? _) = false |- _ => apply Z.leb_gt in H
  | H : (_ <? _) = true |- _ => apply Z.ltb_lt in H
  | H : (_ <? _) = false |- _ => apply Z.ltb_ge in H
  | H : (_ =? _) = true |- _ => apply Z.eqb_eq in H
  | H : (_ =? _) = false |- _ => apply Z.eqb_neq in H
  | H : bool_decide _ = true |- _ => apply bool_decide_eq_true in H
  | H : bool_decide _ = false |- _ => apply bool_decide_eq_false in H
  | H : in_range _ _ _ = true |- _ => apply in_range_true in H
  end.

(** Invert the hypotheses that say a computation succeeded. *)
Ltac inv_ok :=
  repeat match goal with
  | H : Ok _ = Ok _ |- _ => injection H as H
  | H : Err _ = Ok _ |- _ => discriminate H
  | H : Ok _ = Err _ |- _ => discriminate H
  | H : (_ ≫= _) = Ok _ |- _ => apply bind_ok in H as (? & ? & ?)
  | H : guard_err _ _ = Ok _ |- _ => apply guard_err_ok in H
  | H : from_option _ _ = Ok _ |- _ => apply from_option_ok in H
  end.

(** Follow every branch of the computation in hypothesis [H]. *)
Ltac case_branches H :=
  repeat (case_match; simplify_eq/=; try discriminate H).

Create HintDb judge.
#[export] Hint Resolve sumZ_nonneg sumZ_le len_nonneg byte_of_range : judge.

(** An invariant of the steps holds wherever they lead. *)
Lemma rtc_preserves {A} (R : A → A → Prop) (P : A → Prop) x y :
  (∀ a b, P a → R a b → P b) → P x → rtc R x y → P y.
Proof. intros Hstep Hx H. induction H; eauto. Qed.
