(* ===== verification/GoText.v ===== *)
(** * Text: Go strings as UTF-8, and [internal/callback/text.go]

    The parts of Go's [unicode/utf8], [unicode/utf16], [strings] and
    [encoding/json] string encoding that the judging server relies on, on byte
    strings, and the two functions of [internal/callback/text.go]. *)
From stdpp Require Import prelude strings pretty.
From S2P Require Import Prelude.

Open Scope Z_scope.

(** ** Bytes *)
Definition ascii_of_byte (b : Z) : Ascii.ascii := Ascii.ascii_of_N (Z.to_N b).

Lemma byte_of_ascii_of_byte b : 0 ≤ b ≤ 255 → byte_of (ascii_of_byte b) = b.
Proof.
  intros. unfold byte_of, ascii_of_byte.
  rewrite Ascii.N_ascii_embedding; lia.
Qed.

Lemma ascii_of_byte_of a : ascii_of_byte (byte_of a) = a.
Proof.
  unfold byte_of, ascii_of_byte. rewrite N2Z.id. apply Ascii.ascii_N_embedding.
Qed.

Fixpoint stake (n : nat) (s : string) : string :=
  match n, s with
  | S n, String a s => String a (stake n s)
  | _, _ => ""
  end.

Fixpoint sdrop (n : nat) (s : string) : string :=
  match n, s with
  | S n, String _ s => sdrop n s
  | _, _ => s
  end.

Lemma stake_sdrop n s : stake n s +:+ sdrop n s = s.
Proof. revert s. induction n; intros [|a s]; simpl; [done..|]. by rewrite IHn. Qed.

(** ** UTF-8 *)

(** [utf8.RuneError]. *)
Definition rune_error : Z := 65533.

(** The accepted range of the second byte of a sequence led by [b0]. *)
Definition second_byte_ok (b0 b1 : Z) : bool :=
  in_range (if b0 =? 224 then 160 else if b0 =? 240 then 144 else 128)
           (if b0 =? 237 then 159 else if b0 =? 244 then 143 else 191) b1.
Definition continuation (b : Z) : bool := in_range 128 191 b.

(** [utf8.DecodeRuneInString]: the first rune and its width in bytes; an
    invalid encoding is [RuneError] of width 1, the empty string has width 0. *)
Definition decode_rune (s : string) : Z * nat :=
  match s with
  | "" => (rune_error, 0%nat)
  | String a0 s1 =>
      let b0 := byte_of a0 in
      if b0 <? 128 then (b0, 1%nat)
      else if in_range 194 223 b0 then
        match s1 with
        | String a1 _ =>
            let b1 := byte_of a1 in
            if continuation b1 then ((b0 - 192) * 64 + (b1 - 128), 2%nat) else (rune_error, 1%nat)
        | _ => (rune_error, 1%nat)
        end
      else if in_range 224 239 b0 then
        match s1 with
        | String a1 (String a2 _) =>
            let b1 := byte_of a1 in
            let b2 := byte_of a2 in
            if second_byte_ok b0 b1 && continuation b2
            then ((b0 - 224) * 4096 + (b1 - 128) * 64 + (b2 - 128), 3%nat)
            else (rune_error, 1%nat)
        | _ => (rune_error, 1%nat)
        end
      else if in_range 240 244 b0 then
        match s1 with
        | String a1 (String a2 (String a3 _)) =>
            let b1 := byte_of a1 in
            let b2 := byte_of a2 in
            let b3 := byte_of a3 in
            if second_byte_ok b0 b1 && continuation b2 && continuation b3
            then ((b0 - 240) * 262144 + (b1 - 128) * 4096 + (b2 - 128) * 64 + (b3 - 128), 4%nat)
            else (rune_error, 1%nat)
        | _ => (rune_error, 1%nat)
        end
      else (rune_error, 1%nat)
  end.

(** [for _, r := range s]: the runes of [s] with the bytes each one occupies.
    [skip] counts the bytes of the current rune still to be passed over. *)
Fixpoint runes_from (skip : nat) (s : string) : list (Z * string) :=
  match s with
  | "" => []
  | String a s' =>
      match skip with
      | S k => runes_from k s'
      | O => let d := decode_rune s in (d.1, stake d.2 s) :: runes_from (pred d.2) s'
      end
  end.

Definition runes (s : string) : list (Z * string) := runes_from 0 s.

(** A rune read as [RuneError] from a single byte is an invalid encoding. *)
Definition bad_rune (r : Z * string) : bool :=
  (r.1 =? rune_error) && (len r.2 =? 1).

(** [utf8.ValidString]. *)
Definition valid_string (s : string) : bool := forallb (λ r, negb (bad_rune r)) (runes s).

(** The Unicode scalar values. *)
Definition scalar (r : Z) : Prop := 0 ≤ r < 55296 ∨ 57344 ≤ r ≤ 1114111.
#[export] Instance scalar_dec r : Decision (scalar r).
Proof. unfold scalar. apply _. Defined.

(** [utf8.AppendRune], as used by [strings.Builder.WriteRune]; a value that is
    not a scalar is written as [RuneError]. *)
Definition encode_scalar (r : Z) : string :=
  if r <? 128 then String (ascii_of_byte r) ""
  else if r <? 2048 then
    String (ascii_of_byte (192 + r / 64)) (String (ascii_of_byte (128 + r `mod` 64)) "")
  else if r <? 65536 then
    String (ascii_of_byte (224 + r / 4096))
      (String (ascii_of_byte (128 + (r / 64) `mod` 64))
        (String (ascii_of_byte (128 + r `mod` 64)) ""))
  else
    String (ascii_of_byte (240 + r / 262144))
      (String (ascii_of_byte (128 + (r / 4096) `mod` 64))
        (String (ascii_of_byte (128 + (r / 64) `mod` 64))
          (String (ascii_of_byte (128 + r `mod` 64)) ""))).

Definition encode_rune (r : Z) : string :=
  if decide (scalar r) then encode_scalar r else encode_scalar rune_error.

(** ** [unicode.IsSpace], [strings.TrimSpace], [strings.Fields] *)
Definition is_space (r : Z) : bool :=
  in_range 9 13 r || (r =? 32) || (r =? 133) || (r =? 160) || (r =? 5760) ||
  in_range 8192 8202 r || (r =? 8232) || (r =? 8233) || (r =? 8239) || (r =? 8287) || (r =? 12288).

Fixpoint drop_spaces (rs : list (Z * string)) : list (Z * string) :=
  match rs with
  | r :: rs' => if is_space r.1 then drop_spaces rs' else rs
  | [] => []
  end.

Fixpoint rune_bytes (rs : list (Z * string)) : string :=
  match rs with
  | r :: rs => r.2 +:+ rune_bytes rs
  | [] => ""
  end.

Definition trim_space (s : string) : string :=
  rune_bytes (reverse (drop_spaces (reverse (drop_spaces (runes s))))).

(** The test [strings.TrimSpace(s) == ""] of many validators. *)
Definition blank (s : string) : bool := bool_decide (trim_space s = "").

(** [strings.Fields]: maximal runs of runes that are not spaces. [cur] is the
    field being read, [None] between fields. *)
Fixpoint fields_from (cur : option string) (rs : list (Z * string)) : list string :=
  match rs with
  | [] => match cur with Some f => [f] | None => [] end
  | r :: rs =>
      if is_space r.1 then
        match cur with
        | Some f => f :: fields_from None rs
        | None => fields_from None rs
        end
      else
        match cur with
        | Some f => fields_from (Some (f +:+ r.2)) rs
        | None => fields_from (Some r.2) rs
        end
  end.

Definition fields (s : string) : list string := fields_from None (runes s).

(** ** [internal/callback/text.go] *)

(** [utf16.RuneLen]. *)
Definition utf16_rune_len (r : Z) : Z :=
  if in_range 0 55295 r || in_range 57344 65535 r then 1
  else if in_range 65536 1114111 r then 2
  else -1.

Definition UTF16Len (value : string) : Z := sumZ (λ r, utf16_rune_len r.1) (runes value).

Fixpoint truncate_loop (limit used : Z) (rs : list (Z * string)) : string :=
  match rs with
  | [] => ""
  | r :: rs =>
      let units := utf16_rune_len r.1 in
      if limit <? used + units then ""
      else encode_rune r.1 +:+ truncate_loop limit (used + units) rs
  end.

Definition TruncateUTF16 (value : string) (limit : Z) : string :=
  if limit <=? 0 then ""
  else if UTF16Len value <=? limit then value
  else truncate_loop limit 0 (runes value).

(** ** String encoding of [encoding/json] (with HTML escaping)

    Every rune of the string contributes the bytes of [json_escape_rune]. *)
Definition hex_digit (n : Z) : Ascii.ascii :=
  ascii_of_byte (if n <? 10 then 48 + n else 87 + n).

Definition backslash : Ascii.ascii := ascii_of_byte 92.

Definition escape_short (c : Z) : string := String backslash (String (ascii_of_byte c) "").
Definition escape_long (r : Z) : string :=
  String backslash (String (ascii_of_byte 117)
    (String (hex_digit ((r / 4096) `mod` 16)) (String (hex_digit ((r / 256) `mod` 16))
      (String (hex_digit ((r / 16) `mod` 16)) (String (hex_digit (r `mod` 16)) ""))))).

Definition json_escape_rune (r : Z * string) : string :=
  let c := r.1 in
  if bad_rune r then escape_long rune_error
  else if c <? 128 then
    if (c =? 34) || (c =? 92) then escape_short c
    else if c =? 8 then escape_short 98
    else if c =? 12 then escape_short 102
    else if c =? 10 then escape_short 110
    else if c =? 13 then escape_short 114
    else if c =? 9 then escape_short 116
    else if (c <? 32) || (c =? 60) || (c =? 62) || (c =? 38) then escape_long c
    else r.2
  else if (c =? 8232) || (c =? 8233) then escape_long c
  else r.2.

Fixpoint json_escape_runes (rs : list (Z * string)) : string :=
  match rs with
  | r :: rs => json_escape_rune r +:+ json_escape_runes rs
  | [] => ""
  end.

Definition quote : string := String (ascii_of_byte 34) "".
Definition json_string (s : string) : string := quote +:+ json_escape_runes (runes s) +:+ quote.

(** ** Facts about the decoding *)
Lemma stake_length n s : (n ≤ String.length s)%nat → String.length (stake n s) = n.
Proof.
  revert s. induction n as [|n IH]; intros [|a s] H; cbn in *; [done|done|lia|].
  rewrite IH; lia.
Qed.

Lemma sdrop_length n s : String.length (sdrop n s) = (String.length s - n)%nat.
Proof. revert s. induction n as [|n IH]; intros [|a s]; cbn; [done..|]. by rewrite IH. Qed.

Lemma stake_all n s : (String.length s ≤ n)%nat → stake n s = s.
Proof. revert s. induction n as [|n IH]; intros [|a s] Hs; simpl in *; [done|lia|done|]. by rewrite IH by lia. Qed.

Lemma stake_append n s t : String.length s = n → stake n (s +:+ t) = s.
Proof. intros <-. induction s; simpl; [done|]. by rewrite IHs. Qed.

Lemma sdrop_append n s t : String.length s = n → sdrop n (s +:+ t) = t.
Proof. intros <-. induction s; simpl; [done|]. by rewrite IHs. Qed.

(** A decoded rune has at least one byte and lies within the string. *)
Lemma decode_rune_width s :
  s ≠ "" → (1 ≤ (decode_rune s).2 ≤ String.length s)%nat.
Proof.
  destruct s as [|a [|b [|c [|d s]]]]; [done|..]; intros _; cbn -[byte_of in_range second_byte_ok];
    repeat case_match; cbn; lia.
Qed.

Lemma runes_from_skip k s : runes_from k s = runes (sdrop k s).
Proof.
  revert k. induction s as [|a s IH]; intros [|k]; [done..|]. cbn [sdrop]. by rewrite <-IH.
Qed.

Lemma runes_cons s :
  s ≠ "" →
  runes s = ((decode_rune s).1, stake (decode_rune s).2 s) :: runes (sdrop (decode_rune s).2 s).
Proof.
  destruct s as [|a s]; [done|]. intros Hne.
  pose proof (decode_rune_width (String a s) Hne) as Hw.
  unfold runes at 1. cbn [runes_from]. rewrite runes_from_skip.
  destruct (decode_rune (String a s)) as [r [|w]]; cbn in *; [lia|done].
Qed.

(** Induction that follows the decoding of a string rune by rune. *)
Lemma runes_ind (P : string → Prop) :
  P "" → (∀ s, s ≠ "" → P (sdrop (decode_rune s).2 s) → P s) → ∀ s, P s.
Proof.
  intros H0 Hs s. remember (String.length s) as n eqn:Hn. revert s Hn.
  induction (lt_wf n) as [n _ IH]; intros s ->.
  destruct (decide (s = "")) as [->|Hne]; [done|]. apply Hs; [done|].
  pose proof (decode_rune_width s Hne).
  eapply IH; [|done]. rewrite sdrop_length. lia.
Qed.

(** Decoding loses no byte. *)
Lemma rune_bytes_runes s : rune_bytes (runes s) = s.
Proof.
  induction s as [|s Hne IH] using runes_ind; [done|].
  rewrite runes_cons by done. simpl. rewrite IH. apply stake_sdrop.
Qed.

Lemma runes_len_pos s r : r ∈ runes s → 1 ≤ len r.2.
Proof.
  induction s as [|s Hne IH] using runes_ind; [by intros ?%elem_of_nil|].
  rewrite runes_cons by done. intros [->|Hin]%elem_of_cons; [|auto].
  simpl. unfold len. pose proof (decode_rune_width s Hne). rewrite stake_length; lia.
Qed.

(** Encoding a scalar and decoding it again. *)
Lemma encode_scalar_length r : (1 ≤ String.length (encode_scalar r))%nat.
Proof. unfold encode_scalar. repeat case_match; cbn; lia. Qed.

(** Evaluate the byte tests of the decoder on concrete lead bytes. *)
Ltac solve_bytes :=
  repeat match goal with
  | |- context [byte_of (ascii_of_byte ?b)] =>
      rewrite (byte_of_ascii_of_byte b) by (Z.div_mod_to_equations; lia)
  end.

Ltac decide_test t b :=
  let H := fresh in
  assert (t = b) as H by
    (unfold second_byte_ok, continuation, in_range;
     repeat match goal with
     | |- context [?x =? ?y] => destruct (Z.eqb_spec x y)
     | |- context [?x <? ?y] => destruct (Z.ltb_spec x y)
     | |- context [?x <=? ?y] => destruct (Z.leb_spec x y)
     end; try reflexivity; exfalso; Z.div_mod_to_equations; lia);
  rewrite H; clear H.

Lemma decode_encode_scalar r t :
  scalar r → decode_rune (encode_scalar r +:+ t) = (r, String.length (encode_scalar r)).
Proof.
  intros Hr. unfold scalar in Hr. unfold encode_scalar.
  destruct (Z.ltb_spec r 128); [|destruct (Z.ltb_spec r 2048); [|destruct (Z.ltb_spec r 65536)]];
    cbn [String.append decode_rune String.length]; solve_bytes.
  - decide_test (r <? 128) true. done.
  - decide_test (192 + r / 64 <? 128) false.
    decide_test (in_range 194 223 (192 + r / 64)) true.
    decide_test (continuation (128 + r `mod` 64)) true.
    f_equal. Z.div_mod_to_equations; lia.
  - decide_test (224 + r / 4096 <? 128) false.
    decide_test (in_range 194 223 (224 + r / 4096)) false.
    decide_test (in_range 224 239 (224 + r / 4096)) true.
    decide_test (second_byte_ok (224 + r / 4096) (128 + (r / 64) `mod` 64)) true.
    decide_test (continuation (128 + r `mod` 64)) true.
    cbn [andb]. f_equal. Z.div_mod_to_equations; lia.
  - decide_test (240 + r / 262144 <? 128) false.
    decide_test (in_range 194 223 (240 + r / 262144)) false.
    decide_test (in_range 224 239 (240 + r / 262144)) false.
    decide_test (in_range 240 244 (240 + r / 262144)) true.
    decide_test (second_byte_ok (240 + r / 262144) (128 + (r / 4096) `mod` 64)) true.
    decide_test (continuation (128 + (r / 64) `mod` 64)) true.
    decide_test (continuation (128 + r `mod` 64)) true.
    cbn [andb]. f_equal. Z.div_mod_to_equations; lia.
Qed.

Lemma runes_encode_scalar r t :
  scalar r → runes (encode_scalar r +:+ t) = (r, encode_scalar r) :: runes t.
Proof.
  intros Hr. pose proof (encode_scalar_length r).
  rewrite runes_cons.
  - rewrite decode_encode_scalar by done. simpl. by rewrite stake_append, sdrop_append.
  - intros Heq. apply (f_equal String.length) in Heq.
    rewrite string_length_append in Heq. cbn in Heq. lia.
Qed.

(** Case analysis on the shape of a decoded rune. *)
Ltac destruct_decode :=
  repeat match goal with
  | |- context [if ?b then _ else _] => destruct b eqn:?
  | |- context [match ?s with "" => _ | String _ _ => _ end] => destruct s
  end.

Lemma decode_rune_scalar s : scalar (decode_rune s).1.
Proof.
  destruct s as [|a s]; [by right|].
  unfold decode_rune. cbv zeta. destruct_decode; cbn [fst];
    try (right; unfold rune_error; lia);
    unfold second_byte_ok, continuation in *; bool_to_prop;
    pose proof (byte_of_range a); unfold scalar;
    repeat match goal with H : context [if ?x =? ?y then _ else _] |- _ =>
      destruct (Z.eqb_spec x y) end; lia.
Qed.

(** Re-encoding a validly decoded rune gives back its bytes. *)
Lemma encode_decode_rune s :
  s ≠ "" → bad_rune ((decode_rune s).1, stake (decode_rune s).2 s) = false →
  encode_scalar (decode_rune s).1 = stake (decode_rune s).2 s.
Proof.
  destruct s as [|a s]; [done|]. intros _. unfold decode_rune. cbv zeta.
  destruct_decode; cbn [fst snd stake]; try done; intros _;
    unfold second_byte_ok, continuation in *; bool_to_prop; unfold encode_scalar;
    repeat match goal with H : context [if ?x =? ?y then _ else _] |- _ =>
      destruct (Z.eqb_spec x y) end;
    repeat match goal with |- context [?x <? ?y] =>
      destruct (Z.ltb_spec x y); try (exfalso; pose proof (byte_of_range a); lia) end;
    repeat match goal with |- String _ _ = String _ _ => f_equal end;
    match goal with |- ascii_of_byte _ = ?c =>
      transitivity (ascii_of_byte (byte_of c));
        [f_equal; Z.div_mod_to_equations; lia | apply ascii_of_byte_of] end.
Qed.

Lemma runes_scalar s r : r ∈ runes s → scalar r.1.
Proof.
  induction s as [|s Hne IH] using runes_ind; [by intros ?%elem_of_nil|].
  rewrite runes_cons by done. intros [->|Hin]%elem_of_cons; [|auto]. apply decode_rune_scalar.
Qed.

Lemma runes_encode s r :
  r ∈ runes s → bad_rune r = false → encode_scalar r.1 = r.2.
Proof.
  induction s as [|s Hne IH] using runes_ind; [by intros ?%elem_of_nil|].
  rewrite runes_cons by done. intros [->|Hin]%elem_of_cons; [|auto]. by apply encode_decode_rune.
Qed.

Lemma encode_rune_scalar r : scalar r → encode_rune r = encode_scalar r.
Proof. intros. unfold encode_rune. by rewrite decide_True. Qed.

Lemma utf16_rune_len_scalar r : scalar r → 1 ≤ utf16_rune_len r ≤ 2.
Proof.
  intros Hr. unfold utf16_rune_len, in_range, scalar in *.
  repeat match goal with |- context [?x <=? ?y] => destruct (Z.leb_spec x y) end; simpl; lia.
Qed.

Lemma UTF16Len_nonneg s : 0 ≤ UTF16Len s.
Proof.
  apply sumZ_nonneg, Forall_forall. intros r Hr.
  pose proof (utf16_rune_len_scalar r.1 (runes_scalar s r Hr)). lia.
Qed.

Lemma UTF16Len_encode r t :
  scalar r → UTF16Len (encode_scalar r +:+ t) = utf16_rune_len r + UTF16Len t.
Proof. intros. unfold UTF16Len. by rewrite runes_encode_scalar. Qed.

Lemma truncate_loop_bound limit used rs :
  Forall (λ r, scalar r.1) rs → used ≤ limit →
  used + UTF16Len (truncate_loop limit used rs) ≤ limit.
Proof.
  intros Hrs. revert used. induction Hrs as [|r rs Hr Hrs IH]; intros used Hle; simpl.
  - unfold UTF16Len; simpl; lia.
  - destruct (Z.ltb_spec limit (used + utf16_rune_len r.1)); [unfold UTF16Len; simpl; lia|].
    rewrite encode_rune_scalar, UTF16Len_encode by done.
    specialize (IH (used + utf16_rune_len r.1)). lia.
Qed.

(** What [truncate_loop] keeps of runes that re-encode to their own bytes. *)
Lemma truncate_loop_prefix limit used rs :
  Forall (λ r, encode_rune r.1 = r.2) rs →
  ∃ kept rest, rs = kept ++ rest ∧
    truncate_loop limit used rs = rune_bytes kept ∧
    match rest with
    | [] => True
    | r :: _ => limit < used + sumZ (λ r, utf16_rune_len r.1) kept + utf16_rune_len r.1
    end.
Proof.
  intros Hrs. revert used. induction Hrs as [|r rs Hr Hrs IH]; intros used; simpl.
  - exists [], []. done.
  - destruct (Z.ltb_spec limit (used + utf16_rune_len r.1)).
    + exists [], (r :: rs). split_and!; [done..|]. simpl. lia.
    + destruct (IH (used + utf16_rune_len r.1)) as (kept & rest & -> & -> & Hrest).
      exists (r :: kept), rest. split_and!; [done| |].
      * simpl. by rewrite Hr.
      * destruct rest; [done|]. simpl. lia.
Qed.

Lemma TruncateUTF16_bound value limit :
  UTF16Len (TruncateUTF16 value limit) ≤ Z.max 0 limit.
Proof.
  unfold TruncateUTF16. destruct (Z.leb_spec limit 0); [unfold UTF16Len; simpl; lia|].
  destruct (Z.leb_spec (UTF16Len value) limit); [lia|].
  pose proof (truncate_loop_bound limit 0 (runes value)) as Hb.
  enough (0 + UTF16Len (truncate_loop limit 0 (runes value)) ≤ limit) by lia.
  apply Hb; [|lia]. apply Forall_forall, runes_scalar.
Qed.

Lemma valid_string_encode s :
  valid_string s = true → Forall (λ r, encode_rune r.1 = r.2) (runes s).
Proof.
  unfold valid_string. intros Hv. rewrite forallb_forall in Hv. apply Forall_forall. intros r Hr.
  rewrite encode_rune_scalar by (by eapply runes_scalar).
  eapply runes_encode; [done|]. apply negb_true_iff, Hv. by apply list_elem_of_In.
Qed.

(** [TruncateUTF16] keeps the longest prefix of whole runes whose UTF-16
    length fits the limit. *)
Lemma TruncateUTF16_longest_prefix value limit :
  valid_string value = true → 0 < limit →
  UTF16Len (TruncateUTF16 value limit) ≤ limit ∧
  ∃ kept rest, runes value = kept ++ rest ∧
    TruncateUTF16 value limit = rune_bytes kept ∧
    match rest with
    | [] => True
    | r :: _ => limit < sumZ (λ r, utf16_rune_len r.1) kept + utf16_rune_len r.1
    end.
Proof.
  intros Hv Hl. split; [pose proof (TruncateUTF16_bound value limit); lia|].
  unfold TruncateUTF16. destruct (Z.leb_spec limit 0); [lia|].
  destruct (Z.leb_spec (UTF16Len value) limit).
  - exists (runes value), []. split_and!; [by rewrite app_nil_r| |done].
    by rewrite rune_bytes_runes.
  - destruct (truncate_loop_prefix limit 0 (runes value)) as (k & r & ? & ? & ?);
      [by apply valid_string_encode|].
    exists k, r. split_and!; [done..|]. by destruct r.
Qed.

(** ** Facts about trimming and fields *)
Lemma drop_spaces_nil rs : drop_spaces rs = [] ↔ Forall (λ r, is_space r.1 = true) rs.
Proof.
  induction rs as [|r rs IH]; simpl; [done|].
  rewrite Forall_cons. destruct (is_space r.1); [rewrite IH; naive_solver|naive_solver].
Qed.

Lemma rune_bytes_nil s rs :
  Forall (λ r, r ∈ runes s) rs → rune_bytes rs = "" → rs = [].
Proof.
  intros Hrs. destruct rs as [|r rs]; [done|]. apply Forall_cons in Hrs as [Hr _].
  pose proof (runes_len_pos s r Hr). simpl. intros Heq.
  apply (f_equal len) in Heq. rewrite len_append in Heq.
  pose proof (len_nonneg (rune_bytes rs)). unfold len in Heq at 3. cbn in Heq. lia.
Qed.

Lemma drop_spaces_suffix rs : ∃ pre, rs = pre ++ drop_spaces rs.
Proof.
  induction rs as [|r rs [pre IH]]; simpl; [by exists []|].
  destruct (is_space r.1); [exists (r :: pre); simpl; by rewrite <-IH|by exists []].
Qed.

(** [blank] holds exactly of the strings made of white space. *)
Lemma blank_spec s : blank s = true ↔ Forall (λ r, is_space r.1 = true) (runes s).
Proof.
  unfold blank, trim_space. rewrite bool_decide_eq_true.
  destruct (drop_spaces_suffix (runes s)) as [pre Hpre].
  destruct (drop_spaces_suffix (reverse (drop_spaces (runes s)))) as [post Hpost].
  rewrite <-drop_spaces_nil. split.
  - intros Hnil. apply (rune_bytes_nil s) in Hnil.
    + destruct (drop_spaces (runes s)) as [|r rs] eqn:Hd; [done|]. exfalso.
      apply (f_equal reverse) in Hnil. rewrite reverse_involutive in Hnil. simpl in Hnil.
      apply drop_spaces_nil in Hnil. rewrite Forall_reverse in Hnil.
      rewrite <-Hd in Hnil. assert (drop_spaces (drop_spaces (runes s)) = []) as Hdd
        by by apply drop_spaces_nil.
      rewrite Hd in Hdd. simpl in Hdd.
      assert (is_space r.1 = false) as Hr.
      { clear -Hd. induction (runes s) as [|r' rs' IH]; simpl in Hd; [done|].
        destruct (is_space r'.1) eqn:E; [auto|]. by simplify_eq. }
      by rewrite Hr in Hdd.
    + apply Forall_forall. intros r Hr. rewrite elem_of_reverse in Hr.
      rewrite Hpre. apply elem_of_app. right.
      apply elem_of_reverse. rewrite Hpost. apply elem_of_app. by right.
  - intros ->. done.
Qed.

(** A string that starts with a visible ASCII character is not blank. *)
Lemma visible_not_blank a s : 33 ≤ byte_of a ≤ 126 → blank (String a s) = false.
Proof.
  intros Ha. destruct (blank (String a s)) eqn:Hb; [|done]. apply blank_spec in Hb.
  rewrite runes_cons in Hb by done. apply Forall_cons in Hb as [Hb _]. exfalso.
  unfold decode_rune in Hb. rewrite (proj2 (Z.ltb_lt (byte_of a) 128)) in Hb by lia. simpl in Hb.
  unfold is_space in Hb. rewrite !orb_true_iff, !in_range_true, !Z.eqb_eq in Hb. lia.
Qed.

(** Cutting a string after a rune does not change how the rune is decoded. *)
Lemma decode_rune_prefix p t :
  p ≠ "" → ((decode_rune (p +:+ t)).2 ≤ String.length p)%nat → decode_rune p = decode_rune (p +:+ t).
Proof.
  destruct p as [|a [|b [|c [|d p]]]]; [done|..]; intros _;
  destruct t as [|e [|f [|g t]]]; cbn -[byte_of in_range second_byte_ok continuation]; try done; repeat case_match; cbn; (done || lia).
Qed.

Lemma rune_bytes_app l1 l2 : rune_bytes (l1 ++ l2) = rune_bytes l1 +:+ rune_bytes l2.
Proof. induction l1 as [|r l1 IH]; [done|]. cbn. by rewrite IH, string_append_assoc. Qed.

Lemma runes_suffix s pre l : runes s = pre ++ l → runes (rune_bytes l) = l.
Proof.
  revert pre. induction s as [|s Hne IH] using runes_ind; intros [|r pre] E.
  - cbn in E. by rewrite <-E.
  - done.
  - cbn [app] in E. by rewrite <-E, rune_bytes_runes.
  - rewrite runes_cons in E by done. injection E as _ E. by eapply IH.
Qed.

Lemma drop_spaces_head rs r rs' : drop_spaces rs = r :: rs' → is_space r.1 = false.
Proof. induction rs as [|q rs IH]; simpl; [done|]. destruct (is_space q.1) eqn:E; [done|]. by intros [= <- <-]. Qed.

(** A string that starts with a rune that is not white space. *)
Definition visible (s : string) : Prop := s ≠ "" ∧ is_space (decode_rune s).1 = false.

Lemma visible_blank s : visible s → blank s = false.
Proof.
  intros [Hne Hs]. apply not_true_is_false. intros Hb. apply blank_spec in Hb. rewrite (runes_cons s Hne) in Hb.
  apply Forall_cons in Hb as [Hb _]. cbn [fst] in Hb. congruence.
Qed.

(** Trimming leaves such a string, or nothing. *)
Lemma trim_space_visible s : trim_space s ≠ "" → visible (trim_space s).
Proof.
  intros Hne. unfold trim_space in *. set (l := drop_spaces (runes s)) in *. set (kept := reverse (drop_spaces (reverse l))) in *.
  destruct (drop_spaces_suffix (runes s)) as [pre Hpre]. destruct (drop_spaces_suffix (reverse l)) as [post Hpost].
  assert (Hl : l = kept ++ reverse post).
  { unfold kept. by rewrite <-reverse_app, <-Hpost, reverse_involutive. }
  destruct kept as [|r kept'] eqn:Ek; [done|]. pose proof (drop_spaces_head (runes s) r (kept' ++ reverse post) Hl) as Hr.
  pose proof (runes_suffix s pre l Hpre) as Hruns. clear Hpre.
  set (p := rune_bytes (r :: kept')) in *. rewrite Hl, rune_bytes_app in Hruns. fold p in Hruns.
  assert (Hp : p +:+ rune_bytes (reverse post) ≠ "").
  { intros E. apply Hne. apply (f_equal len) in E. rewrite len_append in E. apply len_zero.
    pose proof (len_nonneg p). pose proof (len_nonneg (rune_bytes (reverse post))). change (len "") with 0 in E. lia. }
  rewrite (runes_cons _ Hp) in Hruns. cbn [app] in Hruns. injection Hruns as Er _.
  pose proof (decode_rune_width _ Hp) as Hw.
  assert (Hdec : decode_rune p = decode_rune (p +:+ rune_bytes (reverse post))).
  { apply decode_rune_prefix; [done|].
    assert (String.length r.2 ≤ String.length p)%nat as Hlen by (unfold p; cbn [rune_bytes]; rewrite string_length_append; lia).
    rewrite <-Er in Hlen. cbn [snd] in Hlen. rewrite stake_length in Hlen; lia. }
  split; [done|]. rewrite Hdec. rewrite <-Er in Hr. done.
Qed.

Lemma trim_space_not_blank s : trim_space s ≠ "" → blank (trim_space s) = false.
Proof. intros. by apply visible_blank, trim_space_visible. Qed.

(** Cutting at a byte or at a UTF-16 length keeps it visible. *)
Lemma stake_visible n s : (4 ≤ n)%nat → visible s → visible (stake n s).
Proof.
  intros Hn [Hne Hs]. pose proof (decode_rune_width s Hne) as Hw.
  assert (H4 : ((decode_rune s).2 ≤ 4)%nat).
  { destruct s as [|a s]; [done|]. unfold decode_rune. cbv zeta. destruct_decode; cbn [snd]; lia. }
  assert (Hl : (1 ≤ String.length (stake n s))%nat ∧ ((decode_rune s).2 ≤ String.length (stake n s))%nat).
  { destruct (le_lt_dec n (String.length s)); [rewrite stake_length by done; lia|].
    assert (stake n s = s) as ->; [|lia]. clear -l. revert n l. induction s as [|a s IH]; intros [|n] Hl; cbn in *; [done..|lia|].
    rewrite IH by lia. done. }
  assert (stake n s ≠ "") by (intros E; rewrite E in Hl; cbn in Hl; lia).
  split; [done|]. rewrite (decode_rune_prefix (stake n s) (sdrop n s)); [|done|]; rewrite stake_sdrop; [done|lia].
Qed.

Lemma TruncateUTF16_visible s limit : 2 ≤ limit → visible s → visible (TruncateUTF16 s limit).
Proof.
  intros Hl Hv. pose proof Hv as [Hne Hs]. unfold TruncateUTF16. destruct (Z.leb_spec limit 0); [lia|].
  destruct (_ <=? _); [done|]. rewrite (runes_cons s Hne). cbn [truncate_loop fst snd].
  pose proof (decode_rune_scalar s) as Hsc. pose proof (utf16_rune_len_scalar _ Hsc).
  destruct (Z.ltb_spec limit (0 + utf16_rune_len (decode_rune s).1)); [lia|].
  rewrite encode_rune_scalar by done. split.
  - intros E. apply (f_equal String.length) in E. rewrite string_length_append in E.
    pose proof (encode_scalar_length (decode_rune s).1). cbn in E. lia.
  - by rewrite decode_encode_scalar.
Qed.

(** ** Big-endian integers

    [binary.BigEndian]: the [n] low bytes of [z], most significant first. *)
Fixpoint big_endian (n : nat) (z : Z) : string :=
  match n with
  | O => ""
  | S n => String (ascii_of_byte ((z / 256 ^ Z.of_nat n) `mod` 256)) (big_endian n z)
  end.

Lemma big_endian_length n z : String.length (big_endian n z) = n.
Proof. induction n; simpl; congruence. Qed.

(** Reading a big-endian integer back. *)
Fixpoint from_big_endian (s : string) : Z :=
  match s with
  | "" => 0
  | String a s => byte_of a * 256 ^ len s + from_big_endian s
  end.

Lemma from_big_endian_spec n z : from_big_endian (big_endian n z) = z `mod` 256 ^ Z.of_nat n.
Proof.
  induction n as [|n IH]; [by rewrite Z.mod_1_r|]. cbn [big_endian from_big_endian].
  rewrite IH. unfold len. rewrite big_endian_length, Nat2Z.inj_succ, Z.pow_succ_r by lia.
  pose proof (Z.pow_pos_nonneg 256 (Z.of_nat n)).
  rewrite byte_of_ascii_of_byte by (pose proof (Z.mod_pos_bound (z / 256 ^ Z.of_nat n) 256); lia).
  rewrite (Z.mul_comm 256), Z.rem_mul_r by lia. lia.
Qed.

Lemma big_endian_inj n x y :
  0 ≤ x < 256 ^ Z.of_nat n → 0 ≤ y < 256 ^ Z.of_nat n → big_endian n x = big_endian n y → x = y.
Proof.
  intros Hx Hy Heq. apply (f_equal from_big_endian) in Heq.
  by rewrite !from_big_endian_spec, !Z.mod_small in Heq.
Qed.

Lemma append_inj s1 s2 t1 t2 :
  String.length s1 = String.length s2 → s1 +:+ t1 = s2 +:+ t2 → s1 = s2 ∧ t1 = t2.
Proof.
  revert s2. induction s1 as [|a s1 IH]; intros [|b s2] Hl Heq; simpl in *; try done.
  injection Heq as -> Heq. apply IH in Heq as [-> ->]; [done|lia].
Qed.

(** ** Text encodings *)

(** [hex.EncodeToString] *)
Fixpoint hex_encode (s : string) : string :=
  match s with
  | EmptyString => EmptyString
  | String a s => String (hex_digit (byte_of a / 16)) (String (hex_digit (byte_of a `mod` 16)) (hex_encode s))
  end.

Definition base32_digit (n : Z) : Ascii.ascii := ascii_of_byte (if n <? 26 then 97 + n else 24 + n).

Fixpoint base32_digits (count : nat) (v : Z) : string :=
  match count with
  | O => ""
  | S count => String (base32_digit ((v / 32 ^ Z.of_nat count) `mod` 32)) (base32_digits count v)
  end.

(** The lower-cased unpadded [base32.StdEncoding]: the bytes are read as one
    number, padded with zero bits to whole digits. *)
Definition base32_encode (s : string) : string :=
  let count := (8 * len s + 4) / 5 in
  base32_digits (Z.to_nat count) (from_big_endian s * 2 ^ (5 * count - 8 * len s)).

Lemma base32_digits_length count v : String.length (base32_digits count v) = count.
Proof. induction count; simpl; congruence. Qed.

(** ** ASCII text *)
Lemma runes_ascii_cons a s : byte_of a < 128 → runes (String a s) = (byte_of a, String a "") :: runes s.
Proof.
  intros Ha. rewrite runes_cons by done. unfold decode_rune. rewrite (proj2 (Z.ltb_lt _ _) Ha). simpl. done.
Qed.

Lemma decode_rune_high a s : 128 ≤ byte_of a → 128 ≤ (decode_rune (String a s)).1.
Proof.
  intros Ha. pose proof (byte_of_range a). unfold decode_rune. rewrite (proj2 (Z.ltb_ge _ _) Ha).
  unfold rune_error, second_byte_ok, continuation.
  repeat case_match; simpl; try lia; bool_to_prop; lia.
Qed.

Lemma string_forallb_impl (p q : Ascii.ascii → bool) s :
  (∀ a, p a = true → q a = true) → string_forallb p s = true → string_forallb q s = true.
Proof. intros H. induction s; simpl; [done|]. rewrite !andb_true_iff. naive_solver. Qed.

(** [strings.Split(s, sep)] for a one-byte separator. *)
Fixpoint split_on (sep : Z) (s : string) : list string :=
  match s with
  | EmptyString => [""]
  | String a s =>
      if byte_of a =? sep then "" :: split_on sep s
      else match split_on sep s with
           | part :: parts => String a part :: parts
           | [] => [String a ""]
           end
  end.

Lemma split_on_one sep s : string_forallb (λ a, negb (byte_of a =? sep)) s = true → split_on sep s = [s].
Proof.
  induction s as [|a s IH]; [done|]. cbn [string_forallb split_on]. intros [Ha Hs]%andb_true_iff.
  apply negb_true_iff in Ha. rewrite Ha. by rewrite IH.
Qed.

Lemma split_on_two sep c s t :
  byte_of c = sep → string_forallb (λ a, negb (byte_of a =? sep)) s = true →
  split_on sep (s +:+ String c t) = s :: split_on sep t.
Proof.
  intros Hc. induction s as [|a s IH]; cbn [String.append string_forallb split_on].
  - by rewrite Hc, Z.eqb_refl.
  - intros [Ha Hs]%andb_true_iff. apply negb_true_iff in Ha. rewrite Ha. by rewrite IH.
Qed.

(** Text up to the first byte that is not one of [p]. *)
Lemma span_inj (p : Ascii.ascii → bool) c x y r r' :
  p c = false → string_forallb p x = true → string_forallb p y = true →
  x +:+ String c r = y +:+ String c r' → x = y ∧ r = r'.
Proof.
  intros Hc. revert y. induction x as [|a x IH]; intros [|b y]; simpl.
  - intros _ _ [= ->]. done.
  - intros _ Hy [= <- _]. by rewrite Hc in Hy.
  - intros Hx _ [= -> _]. by rewrite Hc in Hx.
  - intros [_ Hx]%andb_true_iff [_ Hy]%andb_true_iff [= <- E]. destruct (IH y Hx Hy E) as [-> ->]. done.
Qed.

(** The same from the end. *)
Lemma span_inj_r (p : Ascii.ascii → bool) c x y r r' :
  p c = false → string_forallb p r = true → string_forallb p r' = true →
  x +:+ String c r = y +:+ String c r' → x = y ∧ r = r'.
Proof.
  intros Hc Hr Hr'. assert (Hno : ∀ z t, string_forallb p (z +:+ String c t) = true → False).
  { intros z t. induction z as [|a z IH]; cbn; [by rewrite Hc|]. by intros [_ ?]%andb_true_iff. }
  revert y. induction x as [|a x IH]; intros [|b y]; cbn.
  - by intros [= ->].
  - intros [= _ ->]. exfalso. by eapply Hno.
  - intros [= _ <-]. exfalso. by eapply Hno.
  - intros [= <- E]. destruct (IH y E) as [-> ->]. done.
Qed.

(** [strconv.Itoa] and its kin print decimal digits and a sign. *)
Definition decimal_byte (a : Ascii.ascii) : bool := in_range 48 57 (byte_of a) || (byte_of a =? 45).

Lemma pretty_N_go_bytes n s :
  string_forallb decimal_byte s = true → string_forallb decimal_byte (pretty_N_go n s) = true.
Proof.
  revert s. induction (N.lt_wf_0 n) as [n _ IH]; intros s Hs.
  destruct (decide (n = 0)%N) as [->|Hn]; [by rewrite pretty_N_go_0|]. rewrite pretty_N_go_step by lia.
  apply IH; [apply N.div_lt; lia|]. cbn [string_forallb]. rewrite Hs, andb_true_r.
  unfold pretty_N_char. by repeat case_match.
Qed.

Lemma pretty_Z_bytes (z : Z) : string_forallb decimal_byte (pretty z) = true.
Proof.
  assert (Hp : ∀ n : N, string_forallb decimal_byte (pretty n) = true).
  { intros n. unfold pretty, pretty_N. case_decide; [done|]. by apply pretty_N_go_bytes. }
  destruct z as [|p|p]; [done|apply (Hp (N.pos p))|].
  change (decimal_byte (ascii_of_byte 45) && string_forallb decimal_byte (pretty (N.pos p)) = true). by rewrite Hp.
Qed.

Lemma pretty_N_go_long n s : (String.length s ≤ String.length (pretty_N_go n s))%nat.
Proof.
  revert s. induction (N.lt_wf_0 n) as [n _ IH]; intros s.
  destruct (decide (n = 0)%N) as [->|Hn]; [by rewrite pretty_N_go_0|]. rewrite pretty_N_go_step by lia.
  etransitivity; [|apply IH, N.div_lt; lia]. simpl. lia.
Qed.

Lemma pretty_Z_nonempty (z : Z) : pretty z ≠ "".
Proof.
  assert (Hp : ∀ n : N, pretty n ≠ "").
  { intros n. unfold pretty, pretty_N. case_decide; [done|]. rewrite pretty_N_go_step by lia.
    pose proof (pretty_N_go_long (n `div` 10)%N (String (pretty_N_char (n `mod` 10)) "")) as Hl.
    intros E. rewrite E in Hl. simpl in Hl. lia. }
  destruct z as [|p|p]; [done|apply (Hp (N.pos p))|done].
Qed.

Lemma pretty_N_go_length k n s :
  (n < 10 ^ N.of_nat k)%N → (String.length (pretty_N_go n s) ≤ k + String.length s)%nat.
Proof.
  revert n s. induction k as [|k IH]; intros n s Hn.
  - assert (n = 0%N) as -> by (simpl in Hn; lia). by rewrite pretty_N_go_0.
  - destruct (decide (n = 0)%N) as [->|Hz]; [rewrite pretty_N_go_0; lia|]. rewrite pretty_N_go_step by lia.
    rewrite Nat2N.inj_succ, N.pow_succ_r' in Hn.
    pose proof (IH (n `div` 10)%N (String (pretty_N_char (n `mod` 10)) s)) as H. simpl in *.
    etransitivity; [apply H; apply N.Div0.div_lt_upper_bound; lia|lia].
Qed.

(** A 64-bit integer takes at most 20 bytes. *)
Lemma pretty_Z_length (z : Z) : - 10 ^ 19 < z < 10 ^ 20 → len (pretty z) ≤ 20.
Proof.
  assert (Hp : ∀ k (n : N), (0 < k)%nat → (n < 10 ^ N.of_nat k)%N → (String.length (pretty n) ≤ k)%nat).
  { intros k n Hk Hn. unfold pretty, pretty_N. case_decide; [simpl; lia|].
    pose proof (pretty_N_go_length k n "" Hn). simpl in *. lia. }
  intros Hz. unfold len. destruct z as [|p|p]; [simpl; lia| |].
  - change (Z.of_nat (String.length (pretty (N.pos p))) ≤ 20). pose proof (Hp 20%nat (N.pos p) ltac:(lia)). lia.
  - change (Z.of_nat (S (String.length (pretty (N.pos p)))) ≤ 20). pose proof (Hp 19%nat (N.pos p) ltac:(lia)). lia.
Qed.

(** Bytes that JSON text holds as they are. *)
Definition json_plain (a : Ascii.ascii) : bool :=
  in_range 32 127 (byte_of a) && negb ((byte_of a =? 34) || (byte_of a =? 92) || (byte_of a =? 60) ||
                                       (byte_of a =? 62) || (byte_of a =? 38)).

Lemma json_string_plain s : string_forallb json_plain s = true → json_string s = quote +:+ s +:+ quote.
Proof.
  intros H. unfold json_string. f_equal. f_equal. induction s as [|a s IH]; [done|]. simpl in H.
  apply andb_true_iff in H as [Ha H]. unfold json_plain in Ha. bool_to_prop.
  rewrite runes_ascii_cons by lia. simpl. rewrite IH by done. unfold json_escape_rune, bad_rune, rune_error. cbn [fst snd].
  repeat case_match; try done; repeat match goal with H : _ || _ = true |- _ => apply orb_true_iff in H as [H|H] end;
    bool_to_prop; lia.
Qed.
