(* ===== verification/Encodings.v ===== *)
(** * Text encodings: base64 and hexadecimal

    First [base64.RawURLEncoding]: the encoder, the decoder, which skips line breaks
    and ignores unused bits, and their round trip; then [hex.DecodeString] and
    [strings.ToLower] on ASCII text. *)
From stdpp Require Import prelude strings.
From S2P Require Import Prelude.
From S2P Require Import GoText.

Open Scope Z_scope.

Definition base64_digit (n : Z) : Ascii.ascii :=
  ascii_of_byte (if n <? 26 then 65 + n else if n <? 52 then 71 + n else if n <? 62 then n - 4
                 else if n =? 62 then 45 else 95).

Definition base64_value (a : Ascii.ascii) : option Z :=
  let b := byte_of a in
  if in_range 65 90 b then Some (b - 65)
  else if in_range 97 122 b then Some (b - 71)
  else if in_range 48 57 b then Some (b + 4)
  else if b =? 45 then Some 62
  else if b =? 95 then Some 63
  else None.

Definition digit_of (v : Z) (place : Z) : Ascii.ascii := base64_digit ((v / place) `mod` 64).

Fixpoint base64_encode (s : string) : string :=
  match s with
  | "" => ""
  | String a "" =>
      let v := byte_of a * 65536 in
      String (digit_of v 262144) (String (digit_of v 4096) "")
  | String a (String b "") =>
      let v := byte_of a * 65536 + byte_of b * 256 in
      String (digit_of v 262144) (String (digit_of v 4096) (String (digit_of v 64) ""))
  | String a (String b (String c s)) =>
      let v := byte_of a * 65536 + byte_of b * 256 + byte_of c in
      String (digit_of v 262144) (String (digit_of v 4096) (String (digit_of v 64) (String (digit_of v 1)
        (base64_encode s))))
  end.

Definition line_break (a : Ascii.ascii) : bool := (byte_of a =? 10) || (byte_of a =? 13).

Fixpoint drop_line_breaks (s : string) : string :=
  match s with
  | "" => ""
  | String a s => if line_break a then drop_line_breaks s else String a (drop_line_breaks s)
  end.

Definition byte_at (v place : Z) : Ascii.ascii := ascii_of_byte ((v / place) `mod` 256).

Fixpoint base64_groups (s : string) : option string :=
  match s with
  | "" => Some ""
  | String _ "" => None
  | String a (String b "") =>
      a ← base64_value a; b ← base64_value b;
      Some (String (byte_at (a * 262144 + b * 4096) 65536) "")
  | String a (String b (String c "")) =>
      a ← base64_value a; b ← base64_value b; c ← base64_value c;
      let v := a * 262144 + b * 4096 + c * 64 in
      Some (String (byte_at v 65536) (String (byte_at v 256) ""))
  | String a (String b (String c (String d s))) =>
      a ← base64_value a; b ← base64_value b; c ← base64_value c; d ← base64_value d;
      rest ← base64_groups s;
      let v := a * 262144 + b * 4096 + c * 64 + d in
      Some (String (byte_at v 65536) (String (byte_at v 256) (String (byte_at v 1) rest)))
  end.

Definition base64_decode (s : string) : option string := base64_groups (drop_line_breaks s).

(** ** Facts *)
Definition base64_char (a : Ascii.ascii) : bool := is_some (base64_value a).

Lemma base64_value_digit n : 0 ≤ n < 64 → base64_value (base64_digit n) = Some n.
Proof.
  intros Hn. unfold base64_value, base64_digit, in_range.
  destruct (Z.ltb_spec n 26); [|destruct (Z.ltb_spec n 52); [|destruct (Z.ltb_spec n 62); [|destruct (Z.eqb_spec n 62)]]];
    rewrite byte_of_ascii_of_byte by lia; repeat case_match; bool_to_prop; try (f_equal; lia);
    repeat match goal with H : _ && _ = false |- _ => apply andb_false_iff in H as [H|H] end; bool_to_prop; lia.
Qed.

Lemma digit_of_value v place : base64_value (digit_of v place) = Some ((v / place) `mod` 64).
Proof. apply base64_value_digit, Z.mod_pos_bound. lia. Qed.

(** Three bytes at a time. *)
Lemma string_ind3 (P : string → Prop) :
  P "" → (∀ a, P (String a "")) → (∀ a b, P (String a (String b ""))) →
  (∀ a b c s, P s → P (String a (String b (String c s)))) → ∀ s, P s.
Proof.
  intros H0 H1 H2 H3. assert (H : ∀ n s, (String.length s < n)%nat → P s).
  { induction n as [|n IH]; [lia|]. intros [|a [|b [|c s]]] Hs; auto. apply H3, IH. simpl in Hs. lia. }
  intros s. eapply H. apply Nat.lt_succ_diag_r.
Qed.

Lemma base64_encode_chars s : string_forallb base64_char (base64_encode s) = true.
Proof.
  assert (Hd : ∀ v p, base64_char (digit_of v p) = true) by (intros v p; unfold base64_char; by rewrite digit_of_value).
  induction s using string_ind3; cbn [base64_encode string_forallb]; by rewrite ?Hd.
Qed.

Lemma drop_line_breaks_none s : string_forallb (λ a, negb (line_break a)) s = true → drop_line_breaks s = s.
Proof.
  induction s as [|a s IH]; [done|]. cbn [string_forallb drop_line_breaks]. intros [Ha Hs]%andb_true_iff.
  apply negb_true_iff in Ha. rewrite Ha. by rewrite IH.
Qed.

Lemma base64_char_plain a : base64_char a = true → line_break a = false ∧ (byte_of a =? 46) = false.
Proof.
  unfold base64_char, base64_value, line_break, in_range.
  destruct (byte_of a =? 10) eqn:E1, (byte_of a =? 13) eqn:E2, (byte_of a =? 46) eqn:E3; bool_to_prop;
    try done; match goal with H : byte_of a = _ |- _ => rewrite H; discriminate end.
Qed.

Lemma byte_at_of v place a : (v / place) `mod` 256 = byte_of a → byte_at v place = a.
Proof. unfold byte_at. intros ->. apply ascii_of_byte_of. Qed.

Lemma base64_groups_encode s : base64_groups (base64_encode s) = Some s.
Proof.
  induction s as [|a|a b|a b c s IH] using string_ind3; cbn [base64_encode base64_groups]; rewrite ?digit_of_value;
    cbn [mbind option_bind]; [done|..];
    pose proof (byte_of_range a); try pose proof (byte_of_range b); try pose proof (byte_of_range c).
  - f_equal. f_equal. apply byte_at_of. Z.div_mod_to_equations. lia.
  - f_equal. f_equal; [|f_equal]; apply byte_at_of; Z.div_mod_to_equations; lia.
  - rewrite IH. cbn [mbind option_bind]. f_equal. f_equal; [|f_equal; [|f_equal]]; apply byte_at_of; Z.div_mod_to_equations; lia.
Qed.

Lemma base64_roundtrip s : base64_decode (base64_encode s) = Some s.
Proof.
  unfold base64_decode. rewrite drop_line_breaks_none; [apply base64_groups_encode|].
  eapply string_forallb_impl; [|apply base64_encode_chars]. intros a Ha. by destruct (base64_char_plain a Ha) as [-> _].
Qed.

Lemma base64_encode_length s : len (base64_encode s) ≤ 2 * len s.
Proof.
  unfold len. induction s using string_ind3; cbn [base64_encode String.length]; lia.
Qed.

(** * Hexadecimal text

    [encoding/hex.DecodeString] and [strings.ToLower] on ASCII text. *)
Definition hex_value (a : Ascii.ascii) : option Z :=
  let b := byte_of a in
  if in_range 48 57 b then Some (b - 48)
  else if in_range 97 102 b then Some (b - 87)
  else if in_range 65 70 b then Some (b - 55)
  else None.

(** [hex.DecodeString]: an odd length or a foreign character is an error. *)
Fixpoint hex_decode (s : string) : option string :=
  match s with
  | "" => Some ""
  | String a "" => None
  | String a (String b s) =>
      high ← hex_value a; low ← hex_value b; rest ← hex_decode s;
      Some (String (ascii_of_byte (16 * high + low)) rest)
  end.

Definition lower_char (a : Ascii.ascii) : Ascii.ascii :=
  if in_range 65 90 (byte_of a) then ascii_of_byte (byte_of a + 32) else a.

Fixpoint to_lower (s : string) : string :=
  match s with "" => "" | String a s => String (lower_char a) (to_lower s) end.

Lemma string_ind2 (P : string → Prop) :
  P "" → (∀ a, P (String a "")) → (∀ a b s, P s → P (String a (String b s))) → ∀ s, P s.
Proof.
  intros H0 H1 H2. fix IH 1. intros [|a [|b s]]; [exact H0|exact (H1 a)|]. apply H2, IH.
Qed.

(** The digits, by enumeration. *)
Lemma hex_value_table :
  forallb (λ n, let a := ascii_of_byte (Z.of_nat n) in
     match hex_value a with
     | Some v => in_range 0 15 v && bool_decide (hex_digit v = lower_char a)
     | None => true
     end) (seq 0 256) = true.
Proof. vm_compute. reflexivity. Qed.

Lemma hex_value_lower a v : hex_value a = Some v → 0 ≤ v ≤ 15 ∧ hex_digit v = lower_char a.
Proof.
  intros H. pose proof hex_value_table as T. rewrite forallb_forall in T. pose proof (byte_of_range a) as R.
  specialize (T (Z.to_nat (byte_of a))). cbn zeta in T. rewrite Z2Nat.id, ascii_of_byte_of, H in T by lia.
  rewrite andb_true_iff, in_range_true, bool_decide_eq_true in T. apply T, in_seq. lia.
Qed.

Lemma hex_digit_table :
  forallb (λ n, bool_decide (hex_value (hex_digit (Z.of_nat n)) = Some (Z.of_nat n)) &&
                bool_decide (lower_char (hex_digit (Z.of_nat n)) = hex_digit (Z.of_nat n))) (seq 0 16) = true.
Proof. vm_compute. reflexivity. Qed.

Lemma hex_digit_value n : 0 ≤ n ≤ 15 → hex_value (hex_digit n) = Some n ∧ lower_char (hex_digit n) = hex_digit n.
Proof.
  intros R. pose proof hex_digit_table as T. rewrite forallb_forall in T. specialize (T (Z.to_nat n)).
  cbn beta in T. rewrite Z2Nat.id, andb_true_iff, !bool_decide_eq_true in T by lia. apply T, in_seq. lia.
Qed.

Lemma hex_decode_encode s : hex_decode (hex_encode s) = Some s.
Proof.
  induction s as [|a s IH]; [done|]. cbn [hex_encode hex_decode]. pose proof (byte_of_range a).
  pose proof (Z.div_mod (byte_of a) 16 ltac:(lia)). pose proof (Z.mod_pos_bound (byte_of a) 16 ltac:(lia)).
  assert (0 ≤ byte_of a / 16 ≤ 15) by (split; [apply Z.div_pos; lia|apply Z.lt_succ_r, Z.div_lt_upper_bound; lia]).
  rewrite (proj1 (hex_digit_value (byte_of a / 16) ltac:(lia))), (proj1 (hex_digit_value (byte_of a `mod` 16) ltac:(lia))).
  cbn [mbind option_bind]. rewrite IH. cbn [mbind option_bind].
  replace (16 * (byte_of a / 16) + byte_of a `mod` 16) with (byte_of a) by lia. by rewrite ascii_of_byte_of.
Qed.

Lemma hex_encode_decode s t : hex_decode s = Some t → hex_encode t = to_lower s.
Proof.
  revert t. induction s as [|a|a b s IH] using string_ind2; intros t H; cbn [hex_decode to_lower] in *.
  - by injection H as <-.
  - done.
  - destruct (hex_value a) as [h|] eqn:Ha; [|done]. destruct (hex_value b) as [l|] eqn:Hb; [|done].
    cbn [mbind option_bind] in H. destruct (hex_decode s) as [r|] eqn:Hs; [|done]. injection H as <-.
    apply hex_value_lower in Ha as [Rh Eh]. apply hex_value_lower in Hb as [Rl El]. cbn [hex_encode].
    rewrite (IH r eq_refl), byte_of_ascii_of_byte by lia.
    replace ((16 * h + l) / 16) with h by (apply (Z.div_unique _ _ _ l); lia).
    replace ((16 * h + l) `mod` 16) with l by (apply (Z.mod_unique _ _ h); lia).
    by rewrite Eh, El.
Qed.

Lemma hex_encode_length s : len (hex_encode s) = 2 * len s.
Proof. induction s as [|a s IH]; [done|]. unfold len in *. cbn [hex_encode String.length]. lia. Qed.

Lemma hex_encode_inj s t : hex_encode s = hex_encode t → s = t.
Proof. intros H. apply (f_equal hex_decode) in H. rewrite !hex_decode_encode in H. by injection H. Qed.

Lemma to_lower_hex_encode s : to_lower (hex_encode s) = hex_encode s.
Proof. symmetry. apply hex_encode_decode, hex_decode_encode. Qed.

Lemma hex_decode_length s t : hex_decode s = Some t → len s = 2 * len t.
Proof.
  revert t. induction s as [|a|a b s IH] using string_ind2; intros t H; cbn [hex_decode] in *; [by injection H as <-|done|].
  destruct (hex_value a); [|done]. destruct (hex_value b); [|done]. cbn [mbind option_bind] in H.
  destruct (hex_decode s) as [r|]; [|done]. injection H as <-. specialize (IH r eq_refl). unfold len in *. cbn [String.length]. lia.
Qed.
