(* ===== verification/Programs.v ===== *)
(** * Programs of calls, and a logic for many of them

    A Go function that talks to a database, an object store and a clock is a
    program: a tree whose nodes are the calls it makes, each with a continuation
    for every answer. [run] executes one against a handler; a [threads] system
    interleaves many, call by call.

    The logic is rely-guarantee: [safe i p P Q] says that program [p], run by
    thread [i] from worlds where [P] holds, preserves the invariant, changes the
    world only as [guarantee i] allows, and ends where [Q] holds, whatever the
    other threads do within their guarantees. *)
From stdpp Require Import prelude gmap.
From S2P Require Import Prelude.

(** ** Programs *)
Inductive prog {C : Type} (R : C → Type) (A : Type) : Type :=
| Done (a : A)
| Call (c : C) (k : R c → prog R A).
Arguments Done {C R A} a.
Arguments Call {C R A} c k.

Section Prog.
Context {C : Type} {R : C → Type}.

#[export] Instance prog_ret : MRet (prog R) := λ A a, Done a.

Fixpoint prog_bind {A B} (f : A → prog R B) (p : prog R A) : prog R B :=
  match p with Done a => f a | Call c k => Call c (λ r, prog_bind f (k r)) end.

#[export] Instance prog_mbind : MBind (prog R) := λ A B, prog_bind.

Definition call (c : C) : prog R (R c) := Call c Done.

(** One program, alone, over a handler of its calls. *)
Fixpoint run {S A} (handler : ∀ c, S → R c * S) (p : prog R A) (s : S) : A * S :=
  match p with Done a => (a, s) | Call c k => let '(r, s') := handler c s in run handler (k r) s' end.

Lemma run_bind {S A B} (handler : ∀ c, S → R c * S) (f : A → prog R B) p s :
  run handler (p ≫= f) s = let '(a, s') := run handler p s in run handler (f a) s'.
Proof.
  revert s. induction p as [a|c k IH]; intros s; [done|]. cbn. destruct (handler c s) as [r s']. apply IH.
Qed.
End Prog.

(** ** Threads over a shared world *)
Section Threads.
Context {C : Type} {R : C → Type} {W A : Type}.

(** What a call of a thread may do to the world, what the environment may do, and
    which programs may be started. *)
Context (exec : nat → ∀ c : C, W → R c → W → Prop) (environment : W → W → Prop) (starts : nat → prog R A → W → W → Prop).

Record threads : Type := mkThreads { th_World : W; th_Threads : gmap nat (prog R A) }.

Inductive thread_step (y : threads) : threads → Prop :=
| step_environment w : environment (th_World y) w → thread_step y (mkThreads w (th_Threads y))
| step_start i p w : th_Threads y !! i = None → starts i p (th_World y) w → thread_step y (mkThreads w (<[i := p]> (th_Threads y)))
| step_call i c k r w : th_Threads y !! i = Some (Call c k) → exec i c (th_World y) r w →
    thread_step y (mkThreads w (<[i := k r]> (th_Threads y))).

(** A run of a handler that the world admits is a run of the thread. *)
Lemma run_reaches handler i p w th :
  (∀ c w, exec i c w (handler c w).1 (handler c w).2) → th !! i = Some p →
  let '(a, w') := run handler p w in rtc thread_step (mkThreads w th) (mkThreads w' (<[i := Done a]> th)).
Proof.
  intros Hx. revert w th. induction p as [a|c k IH]; intros w th Hi; cbn [run].
  - by rewrite insert_id.
  - pose proof (Hx c w) as H. destruct (handler c w) as [r w1]. specialize (IH r w1 (<[i := k r]> th) ltac:(apply lookup_insert_eq)).
    destruct (run handler (k r) w1) as [a w']. rewrite insert_insert_eq in IH. eapply rtc_l; [|exact IH]. by apply (step_call (mkThreads w th) i c k r w1).
Qed.

(** ** Rely and guarantee *)
Context (inv : W → Prop) (guarantee : nat → W → W → Prop).

Definition rely (i : nat) (w w' : W) : Prop := environment w w' ∨ ∃ j, j ≠ i ∧ guarantee j w w'.

Definition stable (i : nat) (P : W → Prop) : Prop := ∀ w w', inv w → inv w' → rely i w w' → P w → P w'.

Fixpoint safe {B} (i : nat) (p : prog R B) (P : W → Prop) (Q : B → W → Prop) : Prop :=
  match p with
  | Done a => ∀ w, inv w → P w → Q a w
  | Call c k => ∀ w r w', inv w → P w → exec i c w r w' →
      inv w' ∧ guarantee i w w' ∧ ∃ P', stable i P' ∧ P' w' ∧ safe i (k r) P' Q
  end.

Lemma safe_weaken {B} i (p : prog R B) (P P' : W → Prop) (Q Q' : B → W → Prop) :
  (∀ w, inv w → P' w → P w) → (∀ a w, inv w → Q a w → Q' a w) → safe i p P Q → safe i p P' Q'.
Proof.
  revert P P'. induction p as [a|c k IH]; intros P P' HP HQ Hs; cbn [safe] in *.
  - intros w Hw HP'. eauto.
  - intros w r w' Hw HP' Hx. destruct (Hs w r w' Hw (HP _ Hw HP') Hx) as (? & ? & P1 & ? & ? & Hk).
    split_and!; try done. exists P1. split_and!; try done. by eapply IH; [| |exact Hk].
Qed.

Lemma safe_pre {B} i (p : prog R B) (P P' : W → Prop) (Q : B → W → Prop) :
  (∀ w, inv w → P' w → P w) → safe i p P Q → safe i p P' Q.
Proof. intros HP. by apply safe_weaken. Qed.

Lemma safe_exists {B X} i (p : prog R B) (P : X → W → Prop) (Q : B → W → Prop) :
  (∀ x, safe i p (P x) Q) → safe i p (λ w, ∃ x, P x w) Q.
Proof.
  intros H. destruct p as [a|c k]; cbn [safe] in *.
  - intros w Hw [x Hx]. by apply (H x).
  - intros w r w' Hw [x Hx]. by apply (H x).
Qed.

Lemma safe_pure {B} i (p : prog R B) (φ : Prop) (P : W → Prop) (Q : B → W → Prop) :
  (φ → safe i p P Q) → safe i p (λ w, φ ∧ P w) Q.
Proof.
  intros H. destruct p as [a|c k]; cbn [safe] in *.
  - intros w Hw [Hφ HP]. by apply H.
  - intros w r w' Hw [Hφ HP]. by apply H.
Qed.

Lemma safe_bind {B D} i (p : prog R B) (f : B → prog R D) P Q Q' :
  safe i p P Q → (∀ a, safe i (f a) (Q a) Q') → safe i (p ≫= f) P Q'.
Proof.
  intros Hp Hf. revert P Hp. induction p as [a|c k IH]; intros P Hp; cbn [mbind prog_mbind prog_bind safe] in *.
  - eapply safe_weaken; [|done|apply Hf]. done.
  - intros w r w' Hw HP Hx. destruct (Hp w r w' Hw HP Hx) as (? & ? & P1 & ? & ? & Hk).
    split_and!; try done. exists P1. split_and!; try done. by apply IH.
Qed.

Lemma safe_call i (c : C) P Q :
  (∀ r, stable i (Q r)) →
  (∀ w r w', inv w → P w → exec i c w r w' → inv w' ∧ guarantee i w w' ∧ Q r w') → safe i (call c) P Q.
Proof.
  intros HQ H w r w' Hw HP Hx. destruct (H w r w' Hw HP Hx) as (? & ? & ?). split_and!; try done.
  exists (Q r). split; [apply HQ|]. split; [done|]. by intros v _ ?.
Qed.

Lemma safe_ret {B} i (a : B) (P : W → Prop) (Q : B → W → Prop) : (∀ w, inv w → P w → Q a w) → safe i (mret a) P Q.
Proof. done. Qed.

(** A fact that keeps under the steps of every thread frames. *)
Definition steady (F : W → Prop) : Prop := ∀ i, stable i F.

Lemma steady_own F i w w' : steady F → inv w → inv w' → guarantee i w w' → F w → F w'.
Proof. intros HF Hw Hw' Hg. apply (HF (S i)); [done..|]. right. exists i. split; [lia|done]. Qed.

Lemma safe_frame {B} i (p : prog R B) (P F : W → Prop) (Q : B → W → Prop) :
  steady F → safe i p P Q → safe i p (λ w, P w ∧ F w) (λ a w, Q a w ∧ F w).
Proof.
  intros HF. revert P. induction p as [a|c k IH]; intros P Hp; cbn [safe] in *.
  - intros w Hw [HP ?]. auto.
  - intros w r w' Hw [HP HFw] Hx. destruct (Hp w r w' Hw HP Hx) as (Hw' & Hg & P1 & HP1 & HPw & Hk). split_and!; try done.
    exists (λ w, P1 w ∧ F w). split; [|split; [exact (conj HPw (steady_own F i w w' HF Hw Hw' Hg HFw))|exact (IH r P1 Hk)]].
    intros v v' Hv Hv' Hr [H1 H2]. split; [exact (HP1 _ _ Hv Hv' Hr H1)|exact (HF i _ _ Hv Hv' Hr H2)].
Qed.

Lemma safe_keep {B} i (p : prog R B) (P0 P F : W → Prop) (Q : B → W → Prop) :
  steady F → safe i p P Q → (∀ w, inv w → P0 w → P w ∧ F w) → safe i p P0 (λ a w, Q a w ∧ F w).
Proof. intros HF Hp HP. eapply safe_pre; [exact HP|]. by apply safe_frame. Qed.

Lemma stable_and i P P' : stable i P → stable i P' → stable i (λ w, P w ∧ P' w).
Proof. intros H H' w w' Hw Hw' Hr [HP HP']. split; [exact (H w w' Hw Hw' Hr HP)|exact (H' w w' Hw Hw' Hr HP')]. Qed.

Lemma stable_or i P P' : stable i P → stable i P' → stable i (λ w, P w ∨ P' w).
Proof. intros H H' w w' Hw Hw' Hr [HP|HP']; [left; exact (H w w' Hw Hw' Hr HP)|right; exact (H' w w' Hw Hw' Hr HP')]. Qed.

Lemma stable_pure i (P : Prop) : stable i (λ _, P).
Proof. by intros w w' _ _ _ ?. Qed.

(** What the parts have to prove: the environment and the starting of threads
    keep the invariant, and threads start safe. *)
Context (post : nat → A → W → Prop).
Context (environment_ok : ∀ w w', inv w → environment w w' → inv w')
        (starts_ok : ∀ i p w w', inv w → starts i p w w' →
           inv w' ∧ environment w w' ∧ ∃ P, stable i P ∧ P w' ∧ safe i p P (post i)).

Definition threads_ok (y : threads) : Prop :=
  inv (th_World y) ∧ ∀ i p, th_Threads y !! i = Some p → ∃ P, stable i P ∧ P (th_World y) ∧ safe i p P (post i).

Lemma thread_step_ok y y' : threads_ok y → thread_step y y' → threads_ok y'.
Proof.
  intros [Hw Ht] [w He|i p w Hn Hs|i c k r w Hi Hx].
  - pose proof (environment_ok _ _ Hw He) as Hw'. split; [done|]. intros i p Hi. destruct (Ht i p Hi) as (P & HP & HPw & Hp).
    exists P. split_and!; try done. eapply HP; [exact Hw|done| |done]. by left.
  - destruct (starts_ok _ _ _ _ Hw Hs) as (Hw' & He & Hp). split; [done|]. cbn [th_Threads th_World]. intros j q [[<- <-]|[Hne Hj]]%lookup_insert_Some; [done|].
    destruct (Ht j q Hj) as (P & HP & HPw & Hq). exists P. split_and!; try done. eapply HP; [exact Hw|done| |done]. by left.
  - destruct (Ht i _ Hi) as (P & HP & HPw & Hp). destruct (Hp _ r w Hw HPw Hx) as (Hw' & Hg & P' & HP' & HPw' & Hk).
    split; [done|]. cbn [th_Threads th_World]. intros j q [[<- <-]|[Hne Hj]]%lookup_insert_Some; [by exists P'|].
    destruct (Ht j q Hj) as (Pj & HPj & HPwj & Hq). exists Pj. split_and!; try done.
    eapply HPj; [exact Hw|done| |done]. right. exists i. done.
Qed.

(** Wherever the threads get to, the invariant holds, and a thread that has ended
    has met its postcondition. *)
Lemma threads_safe y y' : threads_ok y → rtc thread_step y y' →
  inv (th_World y') ∧ ∀ i a, th_Threads y' !! i = Some (Done a) → ∃ P, stable i P ∧ P (th_World y') ∧ post i a (th_World y').
Proof.
  intros Hok Hs. assert (threads_ok y') as [Hw Ht] by (eapply rtc_preserves; [exact thread_step_ok|exact Hok|exact Hs]).
  split; [done|]. intros i a Hi. destruct (Ht i _ Hi) as (P & HP & HPw & Hp). exists P. split_and!; try done. by apply Hp.
Qed.
End Threads.
