(* ===== verification/JobState.v ===== *)
(** * The durable job state machine, [internal/external/job_state.go]

    A judge job of an external tenant is claimed by a worker under a lease,
    heartbeated, and completed, failed, retried or cancelled. Every method of
    [DurableJob] either returns an error before it has written a field or
    performs all its writes, so a method is a function from the old job to a
    [result] that carries the new job. A [nil] receiver is [None]. *)
From stdpp Require Import prelude gmap strings.
From S2P Require Import Prelude.
From S2P Require Import GoText.

Open Scope Z_scope.

(** The sentinel errors of [internal/external]. *)
Inductive external_error : Type :=
| ErrJobNotClaimable
| ErrStaleJobClaim
| ErrInvalidJobState
| ErrExternalJobNotFound
| ErrExternalJobConflict
| ErrExternalJobInvalid
| ErrExternalJobUnavailable
| ErrQueuedQuotaExceeded
| ErrInvalidJobCursor
| ErrSourceObjectExists
| ErrSourceEncryption.

#[export] Instance external_error_eq_dec : EqDecision external_error.
Proof. solve_decision. Defined.

(** [JobStatus] is a Go string type: a value read from storage may be outside
    the five constants. *)
Inductive JobStatus : Type :=
| JobStatusQueued
| JobStatusRunning
| JobStatusSucceeded
| JobStatusFailed
| JobStatusCancelled
| JobStatusUnknown (raw : string).

#[export] Instance JobStatus_eq_dec : EqDecision JobStatus.
Proof. solve_decision. Defined.

Definition terminal (s : JobStatus) : bool :=
  match s with
  | JobStatusSucceeded | JobStatusFailed | JobStatusCancelled => true
  | _ => false
  end.

Record JobClaim : Type := mkJobClaim {
  claim_WorkerID : string;
  claim_AttemptNo : Z
}.

Record DurableCaseResult : Type := mkDurableCaseResult {
  dc_CaseID : string;
  dc_Verdict : string;
  dc_TimeMillis : Z;
  dc_MemoryBytes : Z;
  dc_Score : option Z;
  dc_MaxScore : option Z
}.

Record DurableJobResult : Type := mkDurableJobResult {
  dr_Verdict : string;
  dr_CompileStatus : string;
  dr_TimeMillis : Z;
  dr_MemoryBytes : Z;
  dr_Score : option Z;
  dr_TotalScore : option Z;
  dr_Cases : list DurableCaseResult
}.

#[export] Instance DurableCaseResult_eq_dec : EqDecision DurableCaseResult.
Proof. solve_decision. Defined.
#[export] Instance DurableJobResult_eq_dec : EqDecision DurableJobResult.
Proof. solve_decision. Defined.

Record DurableJob : Type := mkDurableJob {
  ExternalID : string;
  Status : JobStatus;
  AttemptNo : Z;
  WorkerID : string;
  LeaseUntil : Z;
  NextAttemptAt : Z;
  CancelRequestedAt : option Z;
  Result : option DurableJobResult;
  FailureCode : string;
  StartedAt : option Z;
  CompletedAt : option Z
}.

(** The failure a worker reports for a claim. *)
Record InfrastructureFailure : Type := mkInfraFailure {
  inf_Code : string;
  inf_RetryDelay : Z;
  inf_ChargeFullReservation : bool;
  inf_Permanent : bool
}.

(** ** Scores *)
Definition validScorePair (score maximum : option Z) : bool :=
  match score, maximum with
  | None, None => true
  | Some s, Some m => (0 <? m) && (m <=? 1000000000) && (0 <=? s) && (s <=? m)
  | _, _ => false
  end.

(** The loop of [validateDurableJobResult] over the cases, with the identifiers
    seen so far and the two running [int64] sums. *)
Fixpoint validateCases (scored : bool) (caseIDs : gset string)
    (caseScoreSum caseMaximumSum : Z) (cases : list DurableCaseResult) : option (Z * Z) :=
  match cases with
  | [] => Some (caseScoreSum, caseMaximumSum)
  | item :: cases =>
      if blank (dc_CaseID item) || (128 <? len (dc_CaseID item)) ||
         blank (dc_Verdict item) || (64 <? len (dc_Verdict item)) ||
         (dc_TimeMillis item <? 0) || (dc_MemoryBytes item <? 0) then None
      else if negb (validScorePair (dc_Score item) (dc_MaxScore item)) then None
      else
        match scored, dc_Score item, dc_MaxScore item with
        | false, None, _ =>
            if bool_decide (dc_CaseID item ∈ caseIDs) then None
            else validateCases scored ({[dc_CaseID item]} ∪ caseIDs) caseScoreSum caseMaximumSum cases
        | true, Some s, Some m =>
            if (bool_decide (dc_Verdict item = "ACCEPTED") && negb (s =? m)) ||
               (negb (bool_decide (dc_Verdict item = "ACCEPTED")) && negb (s =? 0)) then None
            else if bool_decide (dc_CaseID item ∈ caseIDs) then None
            else validateCases scored ({[dc_CaseID item]} ∪ caseIDs)
                   (wrap_int64 (caseScoreSum + s)) (wrap_int64 (caseMaximumSum + m)) cases
        | _, _, _ => None
        end
  end.

Definition validateDurableJobResult (result : DurableJobResult) : bool :=
  if blank (dr_Verdict result) || (64 <? len (dr_Verdict result)) ||
     blank (dr_CompileStatus result) || (64 <? len (dr_CompileStatus result)) ||
     (dr_TimeMillis result <? 0) || (dr_MemoryBytes result <? 0) ||
     (256 <? Z.of_nat (length (dr_Cases result))) then false
  else if negb (validScorePair (dr_Score result) (dr_TotalScore result)) then false
  else
    match validateCases (is_some (dr_Score result)) ∅ 0 0 (dr_Cases result) with
    | None => false
    | Some (caseScoreSum, caseMaximumSum) =>
        match dr_Score result, dr_TotalScore result with
        | Some score, Some total =>
            if bool_decide (dr_CompileStatus result = "FAILED") then
              bool_decide (dr_Verdict result = "COMPILE_ERROR") && (score =? 0) &&
              (Z.of_nat (length (dr_Cases result)) =? 0)
            else if negb (bool_decide (dr_CompileStatus result = "SUCCEEDED")) ||
                    negb (caseScoreSum =? score) || negb (caseMaximumSum =? total) then false
            else negb (((score =? total) && negb (bool_decide (dr_Verdict result = "ACCEPTED"))) ||
                       ((score <? total) && negb (bool_decide (dr_Verdict result = "WRONG_ANSWER"))))
        | _, _ => true
        end
    end.

(** ** The methods of [DurableJob] *)
Definition clearLease (job : DurableJob) : DurableJob :=
  {| ExternalID := ExternalID job; Status := Status job; AttemptNo := AttemptNo job;
     WorkerID := ""; LeaseUntil := zero_time; NextAttemptAt := NextAttemptAt job;
     CancelRequestedAt := CancelRequestedAt job; Result := Result job;
     FailureCode := FailureCode job; StartedAt := StartedAt job; CompletedAt := CompletedAt job |}.

Definition ownsActiveClaim (job : option DurableJob) (claim : JobClaim) (now : Z) : bool :=
  match job with
  | None => false
  | Some job =>
      bool_decide (Status job = JobStatusRunning) && (0 <? claim_AttemptNo claim) &&
      (AttemptNo job =? claim_AttemptNo claim) &&
      bool_decide (WorkerID job = claim_WorkerID claim) &&
      negb (bool_decide (claim_WorkerID claim = "")) && (now <? LeaseUntil job)
  end.

Definition Claim (job : option DurableJob) (workerID : string) (now leaseDuration : Z) :
    result external_error (DurableJob * JobClaim) :=
  match job with
  | None => Err ErrInvalidJobState
  | Some job =>
      if blank workerID || (128 <? len workerID) || (leaseDuration <=? 0) then Err ErrInvalidJobState
      else
        let claimable :=
          (bool_decide (Status job = JobStatusQueued) && negb (now <? NextAttemptAt job)) ||
          (bool_decide (Status job = JobStatusRunning) && negb (now <? LeaseUntil job)) in
        if negb claimable ||
           (bool_decide (Status job = JobStatusQueued) && is_some (CancelRequestedAt job)) ||
           (AttemptNo job =? max_uint32) then Err ErrJobNotClaimable
        else
          let attemptNo := wrap_uint32 (AttemptNo job + 1) in
          Ok ({| ExternalID := ExternalID job; Status := JobStatusRunning; AttemptNo := attemptNo;
                 WorkerID := workerID; LeaseUntil := now + leaseDuration;
                 NextAttemptAt := zero_time; CancelRequestedAt := CancelRequestedAt job;
                 Result := Result job; FailureCode := "";
                 StartedAt := match StartedAt job with None => Some now | Some t => Some t end;
                 CompletedAt := CompletedAt job |},
              mkJobClaim workerID attemptNo)
  end.

Definition Heartbeat (job : option DurableJob) (claim : JobClaim) (now leaseDuration : Z) :
    result external_error DurableJob :=
  match job with
  | None => Err ErrStaleJobClaim
  | Some j =>
      if (leaseDuration <=? 0) || negb (ownsActiveClaim job claim now) then Err ErrStaleJobClaim
      else
        Ok {| ExternalID := ExternalID j; Status := Status j; AttemptNo := AttemptNo j;
              WorkerID := WorkerID j; LeaseUntil := now + leaseDuration;
              NextAttemptAt := NextAttemptAt j; CancelRequestedAt := CancelRequestedAt j;
              Result := Result j; FailureCode := FailureCode j; StartedAt := StartedAt j;
              CompletedAt := CompletedAt j |}
  end.

Definition RequestCancel (job : option DurableJob) (now : Z) :
    result external_error (DurableJob * bool) :=
  match job with
  | None => Err ErrInvalidJobState
  | Some j =>
      match Status j with
      | JobStatusQueued =>
          Ok (clearLease
                {| ExternalID := ExternalID j; Status := JobStatusCancelled; AttemptNo := AttemptNo j;
                   WorkerID := WorkerID j; LeaseUntil := LeaseUntil j;
                   NextAttemptAt := NextAttemptAt j; CancelRequestedAt := Some now;
                   Result := Result j; FailureCode := FailureCode j; StartedAt := StartedAt j;
                   CompletedAt := Some now |}, true)
      | JobStatusRunning =>
          if is_some (CancelRequestedAt j) then Ok (j, false)
          else
            Ok ({| ExternalID := ExternalID j; Status := Status j; AttemptNo := AttemptNo j;
                   WorkerID := WorkerID j; LeaseUntil := LeaseUntil j;
                   NextAttemptAt := NextAttemptAt j; CancelRequestedAt := Some now;
                   Result := Result j; FailureCode := FailureCode j; StartedAt := StartedAt j;
                   CompletedAt := CompletedAt j |}, true)
      | JobStatusSucceeded | JobStatusFailed | JobStatusCancelled => Ok (j, false)
      | JobStatusUnknown _ => Err ErrInvalidJobState
      end
  end.

Definition Complete (job : option DurableJob) (claim : JobClaim) (r : DurableJobResult) (now : Z) :
    result external_error DurableJob :=
  match job with
  | None => Err ErrStaleJobClaim
  | Some j =>
      if negb (ownsActiveClaim job claim now) then Err ErrStaleJobClaim
      else
        let finish status res :=
          clearLease
            {| ExternalID := ExternalID j; Status := status; AttemptNo := AttemptNo j;
               WorkerID := WorkerID j; LeaseUntil := LeaseUntil j;
               NextAttemptAt := NextAttemptAt j; CancelRequestedAt := CancelRequestedAt j;
               Result := res; FailureCode := ""; StartedAt := StartedAt j;
               CompletedAt := Some now |} in
        if is_some (CancelRequestedAt j) then Ok (finish JobStatusCancelled None)
        else if validateDurableJobResult r then Ok (finish JobStatusSucceeded (Some r))
        else Err ErrInvalidJobState
  end.

Definition FailInfrastructure (job : option DurableJob) (claim : JobClaim) (failureCode : string)
    (maximumAttempts now retryDelay : Z) : result external_error (DurableJob * bool) :=
  match job with
  | None => Err ErrStaleJobClaim
  | Some j =>
      if negb (ownsActiveClaim job claim now) then Err ErrStaleJobClaim
      else if blank failureCode || (64 <? len failureCode) || (maximumAttempts =? 0) ||
              (retryDelay <? 0) then Err ErrInvalidJobState
      else
        let finish status next code completed :=
          clearLease
            {| ExternalID := ExternalID j; Status := status; AttemptNo := AttemptNo j;
               WorkerID := WorkerID j; LeaseUntil := LeaseUntil j; NextAttemptAt := next;
               CancelRequestedAt := CancelRequestedAt j; Result := Result j; FailureCode := code;
               StartedAt := StartedAt j; CompletedAt := completed |} in
        if is_some (CancelRequestedAt j) then
          Ok (finish JobStatusCancelled (NextAttemptAt j) (FailureCode j) (Some now), true)
        else if AttemptNo j <? maximumAttempts then
          Ok (finish JobStatusQueued (now + retryDelay) (FailureCode j) (CompletedAt j), false)
        else
          Ok (finish JobStatusFailed (NextAttemptAt j) failureCode (Some now), true)
  end.

(** ** What [validateDurableJobResult] decides *)

Definition opt_score (o : option Z) : Z := default 0 o.

Record case_wf (scored : bool) (item : DurableCaseResult) : Prop := {
  cwf_id : blank (dc_CaseID item) = false ∧ len (dc_CaseID item) ≤ 128;
  cwf_verdict : blank (dc_Verdict item) = false ∧ len (dc_Verdict item) ≤ 64;
  cwf_metrics : 0 ≤ dc_TimeMillis item ∧ 0 ≤ dc_MemoryBytes item;
  cwf_score :
    if scored then
      ∃ m, 0 < m ≤ 1000000000 ∧ dc_MaxScore item = Some m ∧
           dc_Score item = Some (if decide (dc_Verdict item = "ACCEPTED") then m else 0)
    else dc_Score item = None ∧ dc_MaxScore item = None
}.

(** The persistence contract of a terminal result, with unbounded sums. *)
Record result_wf (r : DurableJobResult) : Prop := {
  rwf_verdict : blank (dr_Verdict r) = false ∧ len (dr_Verdict r) ≤ 64;
  rwf_compile : blank (dr_CompileStatus r) = false ∧ len (dr_CompileStatus r) ≤ 64;
  rwf_metrics : 0 ≤ dr_TimeMillis r ∧ 0 ≤ dr_MemoryBytes r;
  rwf_size : (length (dr_Cases r) ≤ 256)%nat;
  rwf_ids : NoDup (dc_CaseID <$> dr_Cases r);
  rwf_cases : Forall (case_wf (is_some (dr_Score r))) (dr_Cases r);
  rwf_score :
    match dr_Score r, dr_TotalScore r with
    | None, None => True
    | Some s, Some t =>
        0 < t ≤ 1000000000 ∧ 0 ≤ s ≤ t ∧
        if decide (dr_CompileStatus r = "FAILED") then
          dr_Verdict r = "COMPILE_ERROR" ∧ s = 0 ∧ dr_Cases r = []
        else
          dr_CompileStatus r = "SUCCEEDED" ∧
          s = sumZ (λ c, opt_score (dc_Score c)) (dr_Cases r) ∧
          t = sumZ (λ c, opt_score (dc_MaxScore c)) (dr_Cases r) ∧
          dr_Verdict r = (if decide (s = t) then "ACCEPTED" else "WRONG_ANSWER")
    | _, _ => False
    end
}.

Lemma validScorePair_true s m :
  validScorePair s m = true ↔
  match s, m with
  | None, None => True
  | Some s, Some m => 0 < m ≤ 1000000000 ∧ 0 ≤ s ≤ m
  | _, _ => False
  end.
Proof. destruct s, m; simpl; rewrite ?andb_true_iff, ?Z.ltb_lt, ?Z.leb_le; naive_solver lia. Qed.

(** The per-case test of the loop, apart from the duplicate check. *)
Definition case_ok (scored : bool) (item : DurableCaseResult) : bool :=
  negb (blank (dc_CaseID item) || (128 <? len (dc_CaseID item)) ||
        blank (dc_Verdict item) || (64 <? len (dc_Verdict item)) ||
        (dc_TimeMillis item <? 0) || (dc_MemoryBytes item <? 0)) &&
  validScorePair (dc_Score item) (dc_MaxScore item) &&
  match scored, dc_Score item, dc_MaxScore item with
  | false, None, _ => true
  | true, Some s, Some m =>
      negb ((bool_decide (dc_Verdict item = "ACCEPTED") && negb (s =? m)) ||
            (negb (bool_decide (dc_Verdict item = "ACCEPTED")) && negb (s =? 0)))
  | _, _, _ => false
  end.

Lemma validateCases_cons scored ids s m item cases :
  validateCases scored ids s m (item :: cases) =
  if case_ok scored item && negb (bool_decide (dc_CaseID item ∈ ids)) then
    validateCases scored ({[dc_CaseID item]} ∪ ids)
      (if scored then wrap_int64 (s + opt_score (dc_Score item)) else s)
      (if scored then wrap_int64 (m + opt_score (dc_MaxScore item)) else m) cases
  else None.
Proof.
  unfold case_ok. cbn [validateCases].
  destruct (blank (dc_CaseID item) || _ || _ || _ || _ || _); [done|].
  destruct (validScorePair _ _) eqn:Hpair; [|done]. cbn [negb andb].
  destruct scored, (dc_Score item), (dc_MaxScore item); try done; cbn [opt_score default];
    repeat match goal with |- context [if ?b then _ else _] => destruct b eqn:?; cbn [negb andb] in *; try done end.
Qed.

Lemma case_ok_wf scored item : case_ok scored item = true ↔ case_wf scored item.
Proof.
  unfold case_ok. rewrite !andb_true_iff, negb_true_iff, !orb_false_iff, !Z.ltb_ge,
    validScorePair_true.
  split.
  - intros [[H Hp] Hm]. split; [tauto|tauto|tauto|].
    destruct scored, (dc_Score item) as [s|], (dc_MaxScore item) as [m|]; try done.
    rewrite negb_true_iff, orb_false_iff in Hm. exists m. split_and!; [lia|lia|done|].
    destruct (decide (dc_Verdict item = "ACCEPTED")) as [E|E];
      [rewrite !bool_decide_eq_true_2 in Hm by done|rewrite !bool_decide_eq_false_2 in Hm by done];
      simpl in Hm; destruct Hm as [H1 H2]; bool_to_prop; congruence.
  - intros [H1 H2 H3 H4]. destruct scored.
    + destruct H4 as (m & Hm & -> & ->). split_and!; try tauto.
      * case_decide; lia.
      * case_decide; lia.
      * rewrite negb_true_iff, orb_false_iff. case_decide.
        -- rewrite bool_decide_eq_true_2 by done. by rewrite Z.eqb_refl.
        -- rewrite bool_decide_eq_false_2 by done. done.
    + destruct H4 as [-> ->]. split_and!; tauto.
Qed.

Lemma case_wf_bounds scored item :
  case_wf scored item →
  0 ≤ opt_score (dc_Score item) ≤ opt_score (dc_MaxScore item) ∧
  opt_score (dc_MaxScore item) ≤ 1000000000.
Proof.
  intros [_ _ _ H]. destruct scored.
  - destruct H as (m & Hm & -> & ->). simpl. case_decide; lia.
  - destruct H as [-> ->]. simpl. lia.
Qed.

(** The loop succeeds exactly on well-formed, pairwise distinct cases, and its
    [int64] sums are the true sums: 256 scores of at most 10^9 cannot overflow. *)
Lemma validateCases_spec (scored : bool) ids s m cases a b :
  0 ≤ s → 0 ≤ m →
  s + 1000000000 * Z.of_nat (length cases) ≤ max_int64 →
  m + 1000000000 * Z.of_nat (length cases) ≤ max_int64 →
  validateCases scored ids s m cases = Some (a, b) ↔
  Forall (case_wf scored) cases ∧ NoDup (dc_CaseID <$> cases) ∧
  Forall (λ c, dc_CaseID c ∉ ids) cases ∧
  (if scored then
     a = s + sumZ (λ c, opt_score (dc_Score c)) cases ∧
     b = m + sumZ (λ c, opt_score (dc_MaxScore c)) cases
   else a = s ∧ b = m).
Proof.
  revert ids s m. induction cases as [|item cases IH]; intros ids s m Hs Hm Hbs Hbm.
  - cbn. rewrite !Z.add_0_r. split.
    + intros [= -> ->]. destruct scored; split_and!; done || constructor.
    + intros (_ & _ & _ & H). by destruct scored; destruct H as [-> ->].
  - rewrite validateCases_cons. rewrite fmap_cons, NoDup_cons, !Forall_cons.
    cbn [length sumZ] in *.
    destruct (case_ok scored item) eqn:Hok; cbn [andb].
    2:{ split; [done|]. intros ((Hw & _) & _). apply case_ok_wf in Hw. congruence. }
    apply case_ok_wf in Hok. pose proof (case_wf_bounds _ _ Hok).
    destruct (bool_decide (dc_CaseID item ∈ ids)) eqn:Hin; cbn [negb];
      [apply bool_decide_eq_true in Hin|apply bool_decide_eq_false in Hin].
    { split; [done|]. naive_solver. }
    assert (Hdisj : Forall (λ c, dc_CaseID c ∉ {[dc_CaseID item]} ∪ ids) cases ↔
      dc_CaseID item ∉ (dc_CaseID <$> cases) ∧ Forall (λ c, dc_CaseID c ∉ ids) cases).
    { rewrite list_elem_of_fmap, !Forall_forall. split.
      - intros Hall. split.
        + intros (c & Heq & Hc). specialize (Hall c Hc). rewrite Heq in Hall. set_solver.
        + intros c Hc. specialize (Hall c Hc). set_solver.
      - intros [Hne Hall] c Hc [Heq%elem_of_singleton|Hi]%elem_of_union; [|by eapply Hall].
        apply Hne. exists c. done. }
    destruct scored.
    + rewrite !wrap_int64_id by (unfold min_int64; lia).
      rewrite IH by lia. rewrite Hdisj.
      clear IH Hdisj. naive_solver lia.
    + rewrite IH by lia. rewrite Hdisj. clear IH Hdisj. naive_solver.
Qed.

Lemma validateCases_empty (scored : bool) cases :
  (length cases ≤ 256)%nat →
  match validateCases scored ∅ 0 0 cases with
  | Some (a, b) =>
      Forall (case_wf scored) cases ∧ NoDup (dc_CaseID <$> cases) ∧
      (scored = true → a = sumZ (λ c, opt_score (dc_Score c)) cases ∧
                       b = sumZ (λ c, opt_score (dc_MaxScore c)) cases)
  | None => ¬ (Forall (case_wf scored) cases ∧ NoDup (dc_CaseID <$> cases))
  end.
Proof.
  intros Hl.
  assert (Hspec : ∀ a b, validateCases scored ∅ 0 0 cases = Some (a, b) ↔ _) by
    (intros a b; apply (validateCases_spec scored ∅ 0 0 cases a b); unfold max_int64; lia).
  destruct (validateCases scored ∅ 0 0 cases) as [[a b]|].
  - destruct (proj1 (Hspec a b) eq_refl) as (? & ? & _ & Hsum). split_and!; [done..|].
    intros ->. simpl in Hsum. lia.
  - intros [Hw Hd].
    set (a := if scored then sumZ (λ c, opt_score (dc_Score c)) cases else 0).
    set (b := if scored then sumZ (λ c, opt_score (dc_MaxScore c)) cases else 0).
    enough (None = Some (a, b)) by done. apply Hspec. split_and!; [done..| |].
    + apply Forall_forall. set_solver.
    + unfold a, b. by destruct scored.
Qed.

(** The tests that precede the score relation. *)
Definition basic_ok (r : DurableJobResult) : bool :=
  negb (blank (dr_Verdict r) || (64 <? len (dr_Verdict r)) ||
        blank (dr_CompileStatus r) || (64 <? len (dr_CompileStatus r)) ||
        (dr_TimeMillis r <? 0) || (dr_MemoryBytes r <? 0) ||
        (256 <? Z.of_nat (length (dr_Cases r)))).

Lemma basic_ok_true r :
  basic_ok r = true ↔
  (blank (dr_Verdict r) = false ∧ len (dr_Verdict r) ≤ 64) ∧
  (blank (dr_CompileStatus r) = false ∧ len (dr_CompileStatus r) ≤ 64) ∧
  (0 ≤ dr_TimeMillis r ∧ 0 ≤ dr_MemoryBytes r) ∧ (length (dr_Cases r) ≤ 256)%nat.
Proof.
  unfold basic_ok. rewrite negb_true_iff, !orb_false_iff, !Z.ltb_ge. split; intros; destruct_and!; split_and!; done || lia.
Qed.

Lemma validateDurableJobResult_sound r : validateDurableJobResult r = true → result_wf r.
Proof.
  unfold validateDurableJobResult. destruct (_ || _ || _ || _ || _ || _ || _) eqn:Hb; [done|].
  apply negb_true_iff in Hb. fold (basic_ok r) in Hb. apply basic_ok_true in Hb as (? & ? & ? & ?).
  pose proof (validScorePair_true (dr_Score r) (dr_TotalScore r)) as Hpair.
  destruct (validScorePair (dr_Score r) (dr_TotalScore r)); [|done]. simpl.
  apply proj1 in Hpair. specialize (Hpair eq_refl).
  pose proof (validateCases_empty (is_some (dr_Score r)) (dr_Cases r)) as Hcases.
  destruct (validateCases _ _ _ _ _) as [[a b]|]; [|done].
  destruct Hcases as (Hc & Hd & Hsum); [lia|]. intros Hv.
  split; try tauto. clear Hc Hd.
  destruct (dr_Score r) as [s|] eqn:Es, (dr_TotalScore r) as [t|] eqn:Et; try done.
  destruct (Hsum eq_refl) as [-> ->]. split_and!; try lia. case_decide as Hf.
  - rewrite bool_decide_eq_true_2 in Hv by done. bool_to_prop.
    split_and!; [done|lia|]. apply length_zero_iff_nil. lia.
  - rewrite bool_decide_eq_false_2 in Hv by done.
    destruct (negb _ || _ || _) eqn:Hv2; [done|]. bool_to_prop.
    split_and!; [done|lia..|].
    destruct (decide (s = t)) as [Hst|Hst];
      repeat match goal with H : _ && _ = false |- _ => apply andb_false_iff in H; destruct H end;
      bool_to_prop; done || lia.
Qed.

Lemma validateDurableJobResult_complete r : result_wf r → validateDurableJobResult r = true.
Proof.
  intros [? ? ? ? Hd Hc Hs]. unfold validateDurableJobResult.
  assert (basic_ok r = true) as Hb%negb_true_iff by (apply basic_ok_true; tauto). rewrite Hb.
  assert (validScorePair (dr_Score r) (dr_TotalScore r) = true) as ->.
  { apply validScorePair_true. destruct (dr_Score r), (dr_TotalScore r); naive_solver. }
  simpl. pose proof (validateCases_empty (is_some (dr_Score r)) (dr_Cases r)) as Hcases.
  destruct (validateCases _ _ _ _ _) as [[a b]|]; [|exfalso; by apply Hcases].
  destruct Hcases as (_ & _ & Hsum); [lia|].
  destruct (dr_Score r) as [s|] eqn:Es, (dr_TotalScore r) as [t|] eqn:Et; try done.
  destruct (Hsum eq_refl) as [-> ->]. destruct Hs as (_ & Hs & Hr).
  case_decide as Hf; destruct_and!.
  - rewrite bool_decide_eq_true_2 by done.
    repeat match goal with H : _ = [] |- _ => rewrite H end.
    rewrite bool_decide_eq_true_2 by done. rewrite !andb_true_iff, !Z.eqb_eq. split_and!; done || lia.
  - rewrite bool_decide_eq_false_2 by done. rewrite bool_decide_eq_true_2 by done.
    rewrite !(proj2 (Z.eqb_eq _ _)) by done. simpl.
    rewrite negb_true_iff, orb_false_iff, !andb_false_iff, !negb_false_iff, !bool_decide_eq_true.
    case_decide; [|split; [left; by apply Z.eqb_neq|by right]].
    split; [by right|left; apply Z.ltb_ge; lia].
Qed.

(** [validateDurableJobResult] accepts exactly the well-formed results:
    bounded non-blank texts, distinct cases, and scores that are absent
    everywhere or agree with the verdicts and add up. *)
Lemma validateDurableJobResult_iff r : validateDurableJobResult r = true ↔ result_wf r.
Proof. split; [apply validateDurableJobResult_sound|apply validateDurableJobResult_complete]. Qed.

(** The verdict of a valid scored result that compiled is ACCEPTED exactly
    when every case is. *)
Lemma scored_result_all_or_nothing r s t :
  validateDurableJobResult r = true →
  dr_Score r = Some s → dr_TotalScore r = Some t → dr_CompileStatus r = "SUCCEEDED" →
  (dr_Verdict r = "ACCEPTED" ↔ Forall (λ c, dc_Verdict c = "ACCEPTED") (dr_Cases r)).
Proof.
  intros Hv Hs Ht Hcs. apply validateDurableJobResult_sound in Hv as [_ _ _ _ _ Hcases Hscore].
  rewrite Hs, Ht in Hscore. rewrite Hs in Hcases. simpl in Hcases.
  destruct Hscore as (Ht0 & Hle & Hr). rewrite decide_False in Hr by (rewrite Hcs; done).
  destruct Hr as (_ & Hsum & Htot & Hverdict).
  assert (Hpt : Forall (λ c, opt_score (dc_Score c) ≤ opt_score (dc_MaxScore c)) (dr_Cases r)).
  { eapply Forall_impl; [done|]. intros c Hc. apply case_wf_bounds in Hc. lia. }
  split.
  - intros Hacc. rewrite Hacc in Hverdict. case_decide as Heq; [|done].
    assert (Hall := sumZ_eq_pointwise _ _ _ Hpt ltac:(lia)).
    rewrite Forall_forall in *. intros c Hc.
    destruct (Hcases c Hc) as [_ _ _ (m & Hm & HM & HS)].
    specialize (Hall c Hc). simpl in Hall. rewrite HM, HS in Hall. simpl in Hall.
    case_decide; [done|lia].
  - intros Hacc. rewrite Hverdict. rewrite decide_True; [done|]. rewrite Hsum, Htot.
    apply sumZ_ext. rewrite Forall_forall in *. intros c Hc.
    destruct (Hcases c Hc) as [_ _ _ (m & Hm & -> & ->)]. by rewrite decide_True by auto.
Qed.

(** ** Steps of a job *)
Inductive job_step : DurableJob → DurableJob → Prop :=
| step_claim j w now d j' c : Claim (Some j) w now d = Ok (j', c) → job_step j j'
| step_heartbeat j c now d j' : Heartbeat (Some j) c now d = Ok j' → job_step j j'
| step_cancel j now j' b : RequestCancel (Some j) now = Ok (j', b) → job_step j j'
| step_complete j c r now j' : Complete (Some j) c r now = Ok j' → job_step j j'
| step_fail j c code m now d j' b : FailInfrastructure (Some j) c code m now d = Ok (j', b) → job_step j j'.

(** A job as [Submit] inserts it: queued, never attempted. *)
Definition fresh_job (id : string) (next : Z) : DurableJob :=
  {| ExternalID := id; Status := JobStatusQueued; AttemptNo := 0; WorkerID := "";
     LeaseUntil := zero_time; NextAttemptAt := next; CancelRequestedAt := None; Result := None;
     FailureCode := ""; StartedAt := None; CompletedAt := None |}.

Record job_wf (j : DurableJob) : Prop := {
  jwf_attempt : 0 ≤ AttemptNo j ≤ max_uint32;
  jwf_status :
    match Status j with
    | JobStatusQueued =>
        WorkerID j = "" ∧ LeaseUntil j = zero_time ∧ CancelRequestedAt j = None ∧
        Result j = None ∧ FailureCode j = "" ∧ CompletedAt j = None
    | JobStatusRunning =>
        WorkerID j ≠ "" ∧ 1 ≤ AttemptNo j ∧ is_Some (StartedAt j) ∧
        Result j = None ∧ FailureCode j = "" ∧ CompletedAt j = None
    | JobStatusSucceeded =>
        WorkerID j = "" ∧ LeaseUntil j = zero_time ∧ 1 ≤ AttemptNo j ∧ CancelRequestedAt j = None ∧
        (∃ r, Result j = Some r ∧ result_wf r) ∧ FailureCode j = "" ∧ is_Some (CompletedAt j)
    | JobStatusFailed =>
        WorkerID j = "" ∧ LeaseUntil j = zero_time ∧ 1 ≤ AttemptNo j ∧ CancelRequestedAt j = None ∧
        Result j = None ∧ FailureCode j ≠ "" ∧ is_Some (CompletedAt j)
    | JobStatusCancelled =>
        WorkerID j = "" ∧ LeaseUntil j = zero_time ∧ is_Some (CancelRequestedAt j) ∧
        Result j = None ∧ FailureCode j = "" ∧ is_Some (CompletedAt j)
    | JobStatusUnknown _ => False
    end
}.

Lemma fresh_job_wf id next : job_wf (fresh_job id next).
Proof. split; [unfold max_uint32; simpl; lia|done]. Qed.

Lemma ownsActiveClaim_true j c now :
  ownsActiveClaim (Some j) c now = true ↔
  Status j = JobStatusRunning ∧ 0 < claim_AttemptNo c ∧ AttemptNo j = claim_AttemptNo c ∧
  WorkerID j = claim_WorkerID c ∧ claim_WorkerID c ≠ "" ∧ now < LeaseUntil j.
Proof.
  simpl. rewrite !andb_true_iff, !bool_decide_eq_true, negb_true_iff, bool_decide_eq_false,
    !Z.ltb_lt, Z.eqb_eq. tauto.
Qed.

Lemma blank_empty : blank "" = true.
Proof. done. Qed.

(** Inversion of each operation: when it succeeds and what it writes. *)
Lemma Claim_ok j w now d j' c :
  Claim (Some j) w now d = Ok (j', c) →
  w ≠ "" ∧ 0 < d ∧ AttemptNo j ≠ max_uint32 ∧
  (Status j = JobStatusQueued ∧ CancelRequestedAt j = None ∧ NextAttemptAt j ≤ now ∨
   Status j = JobStatusRunning ∧ LeaseUntil j ≤ now) ∧
  c = mkJobClaim w (wrap_uint32 (AttemptNo j + 1)) ∧
  Status j' = JobStatusRunning ∧ AttemptNo j' = wrap_uint32 (AttemptNo j + 1) ∧ WorkerID j' = w ∧
  LeaseUntil j' = now + d ∧ CancelRequestedAt j' = CancelRequestedAt j ∧ Result j' = Result j ∧
  FailureCode j' = "" ∧ is_Some (StartedAt j') ∧ CompletedAt j' = CompletedAt j.
Proof.
  simpl. destruct (blank w || _ || _) eqn:Hargs; [done|].
  destruct (negb _ || _ || _) eqn:Hcl; [done|]. intros H. inv_ok. simplify_eq. simpl.
  bool_to_prop. split_and!; try done; try lia.
  - intros ->. by rewrite blank_empty in *.
  - match goal with H : _ || _ = true |- _ => apply orb_true_iff in H; destruct H end; bool_to_prop.
    + left. match goal with H : _ && is_some _ = false |- _ => apply andb_false_iff in H; destruct H end;
        [bool_to_prop; done|]. destruct (CancelRequestedAt j); [done|]. done.
    + by right.
  - destruct (StartedAt j); eauto.
Qed.

Lemma Heartbeat_ok j c now d j' :
  Heartbeat (Some j) c now d = Ok j' →
  0 < d ∧ ownsActiveClaim (Some j) c now = true ∧
  j' = {| ExternalID := ExternalID j; Status := Status j; AttemptNo := AttemptNo j;
          WorkerID := WorkerID j; LeaseUntil := now + d;
          NextAttemptAt := NextAttemptAt j; CancelRequestedAt := CancelRequestedAt j;
          Result := Result j; FailureCode := FailureCode j; StartedAt := StartedAt j;
          CompletedAt := CompletedAt j |}.
Proof.
  unfold Heartbeat. destruct (_ || _) eqn:H; [done|]. intros ?. inv_ok. simplify_eq.
  apply orb_false_iff in H as [H1 H2]. apply negb_false_iff in H2. bool_to_prop. done.
Qed.

Lemma Complete_ok j c r now j' :
  Complete (Some j) c r now = Ok j' →
  ownsActiveClaim (Some j) c now = true ∧
  WorkerID j' = "" ∧ LeaseUntil j' = zero_time ∧ AttemptNo j' = AttemptNo j ∧
  CancelRequestedAt j' = CancelRequestedAt j ∧ FailureCode j' = "" ∧ CompletedAt j' = Some now ∧
  (is_Some (CancelRequestedAt j) ∧ Status j' = JobStatusCancelled ∧ Result j' = None ∨
   CancelRequestedAt j = None ∧ validateDurableJobResult r = true ∧
     Status j' = JobStatusSucceeded ∧ Result j' = Some r).
Proof.
  unfold Complete. destruct (ownsActiveClaim _ _ _) eqn:Ho; [|done]. cbn [negb].
  destruct (CancelRequestedAt j) eqn:Hc; simpl.
  - intros ?. inv_ok. simplify_eq. simpl. rewrite ?Hc. naive_solver.
  - destruct (validateDurableJobResult r) eqn:Hv; intros ?; inv_ok; simplify_eq; simpl. naive_solver.
Qed.

Lemma FailInfrastructure_ok j c code m now d j' b :
  FailInfrastructure (Some j) c code m now d = Ok (j', b) →
  ownsActiveClaim (Some j) c now = true ∧ code ≠ "" ∧
  WorkerID j' = "" ∧ LeaseUntil j' = zero_time ∧ AttemptNo j' = AttemptNo j ∧
  CancelRequestedAt j' = CancelRequestedAt j ∧ Result j' = Result j ∧
  (is_Some (CancelRequestedAt j) ∧ Status j' = JobStatusCancelled ∧ FailureCode j' = FailureCode j ∧
     CompletedAt j' = Some now ∧ b = true ∨
   CancelRequestedAt j = None ∧ AttemptNo j < m ∧ Status j' = JobStatusQueued ∧
     FailureCode j' = FailureCode j ∧ CompletedAt j' = CompletedAt j ∧
     NextAttemptAt j' = now + d ∧ b = false ∨
   CancelRequestedAt j = None ∧ m ≤ AttemptNo j ∧ Status j' = JobStatusFailed ∧
     FailureCode j' = code ∧ CompletedAt j' = Some now ∧ b = true).
Proof.
  unfold FailInfrastructure. destruct (ownsActiveClaim _ _ _) eqn:Ho; [|done]. cbn [negb].
  destruct (blank code || _ || _ || _) eqn:Hargs; [done|]. bool_to_prop.
  assert (code ≠ "") by (intros ->; by rewrite blank_empty in *).
  destruct (CancelRequestedAt j) eqn:Hc; simpl.
  - intros ?. inv_ok. simplify_eq. simpl. rewrite ?Hc. naive_solver.
  - destruct (Z.ltb_spec (AttemptNo j) m); intros ?; inv_ok; simplify_eq; simpl; naive_solver.
Qed.

Lemma RequestCancel_ok j now j' b :
  RequestCancel (Some j) now = Ok (j', b) →
  j' = j ∧ (terminal (Status j) = true ∨ is_Some (CancelRequestedAt j)) ∧ b = false ∨
  b = true ∧ CancelRequestedAt j' = Some now ∧ AttemptNo j' = AttemptNo j ∧
  Result j' = Result j ∧ FailureCode j' = FailureCode j ∧ StartedAt j' = StartedAt j ∧
  (Status j = JobStatusQueued ∧ Status j' = JobStatusCancelled ∧ WorkerID j' = "" ∧
     LeaseUntil j' = zero_time ∧ CompletedAt j' = Some now ∨
   Status j = JobStatusRunning ∧ Status j' = JobStatusRunning ∧ CancelRequestedAt j = None ∧
     WorkerID j' = WorkerID j ∧ LeaseUntil j' = LeaseUntil j ∧ CompletedAt j' = CompletedAt j).
Proof.
  unfold RequestCancel. destruct (Status j) eqn:Hs; intros H; inv_ok; simplify_eq/=; try naive_solver.
  destruct (CancelRequestedAt j) eqn:Hc; simpl in *; inv_ok; simplify_eq/=; rewrite ?Hs;
    [left; naive_solver|right; naive_solver].
Qed.

Lemma job_step_wf j j' : job_wf j → job_step j j' → job_wf j'.
Proof.
  intros [Ha Hw] Hstep. destruct Hstep as [j w now d j' c H|j c now d j' H|j now j' b H|j c r now j' H|
    j c code m now d j' b H].
  - apply Claim_ok in H. destruct H as (? & ? & ? & Hst & ? & Hs & Ha' & Hwk & ? & Hcr & Hr & Hf & Hst' & Hco).
    split; [rewrite Ha'; rewrite wrap_uint32_id; lia|]. rewrite Hs, Hwk, Ha', Hr, Hf, Hco.
    rewrite wrap_uint32_id by lia.
    destruct Hst as [(E & _)|(E & _)]; rewrite E in Hw; naive_solver lia.
  - apply Heartbeat_ok in H as (? & Ho & ->). apply ownsActiveClaim_true in Ho as (E & _).
    split; simpl; [done|]. by rewrite E in *.
  - apply RequestCancel_ok in H as [(-> & _)|(_ & Hc & Ha' & Hr & Hf & Hst & [H|H])]; [done|..];
      split; try (rewrite Ha'; done); destruct H as (E & E' & H); rewrite E in Hw; rewrite E'.
    + destruct_and!. rewrite Hr, Hf. split_and!; eauto.
    + destruct_and!. rewrite Hr, Hf, Hst, Ha'. split_and!; congruence || eauto.
  - apply Complete_ok in H as (Ho & Hwk & Hl & Ha' & Hc & Hf & Hco & H).
    apply ownsActiveClaim_true in Ho as (E & Hpos & _). rewrite E in Hw.
    split; [by rewrite Ha'|].
    destruct H as [(? & -> & Hr)|(Hn & Hv & -> & Hr)].
    + rewrite Hc. split_and!; eauto.
    + apply validateDurableJobResult_iff in Hv. rewrite Hc, Hr, Ha'. naive_solver eauto.
  - apply FailInfrastructure_ok in H as (Ho & Hcode & Hwk & Hl & Ha' & Hc & Hr & H).
    apply ownsActiveClaim_true in Ho as (E & _). rewrite E in Hw.
    split; [by rewrite Ha'|]. destruct Hw as (? & ? & ? & HR & HF & HC).
    destruct H as [(? & -> & Hf & Hco & _)|[(? & ? & -> & Hf & Hco & _)|(? & ? & -> & Hf & Hco & _)]];
      rewrite ?Hc, ?Ha'; split_and!; eauto; congruence.
Qed.

(** Attempt numbers never decrease, and a claim raises them by exactly one. *)
Lemma job_step_attempt j j' :
  0 ≤ AttemptNo j ≤ max_uint32 → job_step j j' →
  0 ≤ AttemptNo j' ≤ max_uint32 ∧ AttemptNo j ≤ AttemptNo j'.
Proof.
  intros Ha Hstep. destruct Hstep as [j w now d j' c H|j c now d j' H|j now j' b H|j c r now j' H|
    j c code m now d j' b H].
  - apply Claim_ok in H. destruct H as (? & ? & ? & _ & _ & _ & -> & _).
    rewrite wrap_uint32_id by lia. lia.
  - apply Heartbeat_ok in H as (_ & _ & ->). simpl. lia.
  - apply RequestCancel_ok in H as [(-> & _)|(_ & _ & -> & _)]; lia.
  - apply Complete_ok in H as (_ & _ & _ & -> & _). lia.
  - apply FailInfrastructure_ok in H as (_ & _ & _ & _ & -> & _). lia.
Qed.

Lemma job_steps_attempt j j' :
  0 ≤ AttemptNo j ≤ max_uint32 → rtc job_step j j' →
  0 ≤ AttemptNo j' ≤ max_uint32 ∧ AttemptNo j ≤ AttemptNo j'.
Proof.
  intros Ha Hsteps. induction Hsteps as [|j1 j2 j3 Hstep Hsteps IH]; [lia|].
  destruct (job_step_attempt _ _ Ha Hstep). destruct IH; lia.
Qed.

(** Every job the methods of [DurableJob] can reach from a fresh one has
    the shape its status demands. *)
Lemma reachable_job_wf id next j :
  rtc job_step (fresh_job id next) j → job_wf j.
Proof.
  intros Hsteps. assert (Hwf := fresh_job_wf id next). revert Hwf.
  induction Hsteps; eauto using job_step_wf.
Qed.

(** A terminal job is left exactly as it is by every sequence of calls. *)
Lemma terminal_absorbing j j' :
  terminal (Status j) = true → rtc job_step j j' → j' = j.
Proof.
  intros Ht Hsteps. induction Hsteps as [|j1 j2 j3 Hstep Hsteps IH]; [done|].
  enough (j2 = j1) as -> by auto. clear IH Hsteps.
  destruct Hstep as [? ? ? ? ? ? H|? ? ? ? ? H|? ? ? ? H|? ? ? ? ? H|? ? ? ? ? ? ? ? H].
  - apply Claim_ok in H as (_ & _ & _ & [(E & _)|(E & _)] & _); by rewrite E in Ht.
  - apply Heartbeat_ok in H as (_ & Ho & _). apply ownsActiveClaim_true in Ho as (E & _). by rewrite E in Ht.
  - apply RequestCancel_ok in H as [(-> & _)|(_ & _ & _ & _ & _ & _ & [(E & _)|(E & _)])];
      [done|by rewrite E in Ht..].
  - apply Complete_ok in H as (Ho & _). apply ownsActiveClaim_true in Ho as (E & _). by rewrite E in Ht.
  - apply FailInfrastructure_ok in H as (Ho & _). apply ownsActiveClaim_true in Ho as (E & _). by rewrite E in Ht.
Qed.

(** An operation under a claim the job does not hold is refused. *)
Lemma not_owner_stale j c now :
  ownsActiveClaim (Some j) c now = false →
  (∀ d, Heartbeat (Some j) c now d = Err ErrStaleJobClaim) ∧
  (∀ r, Complete (Some j) c r now = Err ErrStaleJobClaim) ∧
  (∀ code m d, FailInfrastructure (Some j) c code m now d = Err ErrStaleJobClaim).
Proof.
  intros Ho. unfold Heartbeat, Complete, FailInfrastructure. rewrite Ho. simpl.
  split_and!; intros; by rewrite ?orb_true_r.
Qed.

(** Once a job was claimed again, the earlier claim is stale for ever:
    heartbeats, completions and failures under it are refused. *)
Lemma superseded_claim_stale j w1 t1 d1 j1 c1 j2 w2 t2 d2 j3 c2 j4 now :
  0 ≤ AttemptNo j ≤ max_uint32 →
  Claim (Some j) w1 t1 d1 = Ok (j1, c1) → rtc job_step j1 j2 →
  Claim (Some j2) w2 t2 d2 = Ok (j3, c2) → rtc job_step j3 j4 →
  (∀ d, Heartbeat (Some j4) c1 now d = Err ErrStaleJobClaim) ∧
  (∀ r, Complete (Some j4) c1 r now = Err ErrStaleJobClaim) ∧
  (∀ code m d, FailInfrastructure (Some j4) c1 code m now d = Err ErrStaleJobClaim).
Proof.
  intros Ha Hc1 Hs1 Hc2 Hs2. apply not_owner_stale.
  destruct (job_step_attempt j j1 Ha (step_claim _ _ _ _ _ _ Hc1)) as [Ha1 _].
  destruct (job_steps_attempt _ _ Ha1 Hs1) as [Ha2 Hle1].
  destruct (job_step_attempt j2 j3 Ha2 (step_claim _ _ _ _ _ _ Hc2)) as [Ha3 _].
  destruct (job_steps_attempt _ _ Ha3 Hs2) as [_ Hle2].
  apply Claim_ok in Hc1. destruct Hc1 as (_ & _ & _ & _ & -> & _ & E1 & _).
  apply Claim_ok in Hc2. destruct Hc2 as (_ & _ & Hmax & _ & _ & _ & E2 & _).
  rewrite wrap_uint32_id in E2 by lia.
  destruct (ownsActiveClaim _ _ _) eqn:Ho; [|done].
  apply ownsActiveClaim_true in Ho as (_ & _ & Heq & _). simpl in Heq. lia.
Qed.

(** A running job with a cancellation request keeps it, never has a result
    and ends nowhere but in CANCELLED. *)
Lemma cancellation_never_lost j j' :
  Status j = JobStatusRunning → is_Some (CancelRequestedAt j) → Result j = None →
  rtc job_step j j' →
  is_Some (CancelRequestedAt j') ∧ Result j' = None ∧
  (Status j' = JobStatusRunning ∨ Status j' = JobStatusCancelled).
Proof.
  intros Hs Hc Hr Hsteps. assert (Hs' : Status j = JobStatusRunning ∨ Status j = JobStatusCancelled) by auto.
  clear Hs. induction Hsteps as [|j1 j2 j3 Hstep Hsteps IH]; [done|].
  enough (is_Some (CancelRequestedAt j2) ∧ Result j2 = None ∧
    (Status j2 = JobStatusRunning ∨ Status j2 = JobStatusCancelled)) by (destruct_and!; auto).
  clear IH Hsteps. destruct Hstep as [? ? ? ? ? ? H|? ? ? ? ? H|? ? ? ? H|? ? ? ? ? H|? ? ? ? ? ? ? ? H].
  - apply Claim_ok in H. destruct H as (_ & _ & _ & _ & _ & -> & _ & _ & _ & -> & -> & _). auto.
  - apply Heartbeat_ok in H as (_ & _ & ->). auto.
  - apply RequestCancel_ok in H as [(-> & _)|(_ & -> & _ & -> & _ & _ & [(_ & -> & _)|(_ & -> & _)])]; eauto.
  - apply Complete_ok in H as (_ & _ & _ & _ & -> & _ & _ & [(_ & -> & ->)|(E & _)]); [auto|].
    rewrite E in Hc. by destruct Hc.
  - apply FailInfrastructure_ok in H as (_ & _ & _ & _ & _ & -> & -> & [(_ & -> & _)|[(E & _)|(E & _)]]);
      [auto|rewrite E in Hc; by destruct Hc..].
Qed.

(** Two claims that own the lease at once are the same claim. *)
Lemma active_claim_unique j c1 c2 t1 t2 :
  ownsActiveClaim (Some j) c1 t1 = true → ownsActiveClaim (Some j) c2 t2 = true → c1 = c2.
Proof.
  rewrite !ownsActiveClaim_true. destruct c1, c2; simpl. intros; destruct_and!. congruence.
Qed.
