(* ===== verification/Manifest.v ===== *)
(** * Judge contract and bundle manifests

    [internal/judgecontract/registry.go] (the shared language and checker
    identifiers) and [internal/bundle/manifest.go] (the description of an
    immutable test bundle and its validation). *)
From stdpp Require Import prelude gmap strings.
From S2P Require Import Prelude.
From S2P Require Import GoText.

Open Scope Z_scope.

(** ** [judgecontract] *)
Record LanguageDefinition : Type := mkLanguage {
  PublicID : string;
  SandboxID : string;
  DisplayName : string;
  Runtime : string
}.

#[export] Instance LanguageDefinition_eq_dec : EqDecision LanguageDefinition.
Proof. solve_decision. Defined.

Inductive Checker : Type :=
| CheckerExact
| CheckerToken
| CheckerSpecial
| CheckerOther (raw : string).

#[export] Instance Checker_eq_dec : EqDecision Checker.
Proof. solve_decision. Defined.

Definition canonicalLanguages : list LanguageDefinition := [
  mkLanguage "go" "go" "Go" "go";
  mkLanguage "cpp" "cpp" "C++ 17" "gcc";
  mkLanguage "python" "python" "Python 3" "python3";
  mkLanguage "java" "java" "Java" "java";
  mkLanguage "javascript" "javascript" "JavaScript" "node"
].

Definition canonicalCheckers : list Checker := [CheckerExact; CheckerToken; CheckerSpecial].

Fixpoint find_language (publicID : string) (ls : list LanguageDefinition) : option LanguageDefinition :=
  match ls with
  | [] => None
  | l :: ls => if bool_decide (PublicID l = publicID) then Some l else find_language publicID ls
  end.

Definition ResolveLanguage (publicID : string) : option LanguageDefinition :=
  find_language publicID canonicalLanguages.

Definition IsCanonicalChecker (value : Checker) : bool :=
  existsb (λ checker, bool_decide (checker = value)) canonicalCheckers.

(** ** Manifest data *)
Inductive JudgeMode : Type :=
| JudgeModeACM
| JudgeModeOI
| JudgeModeOther (raw : string).

#[export] Instance JudgeMode_eq_dec : EqDecision JudgeMode.
Proof. solve_decision. Defined.

Definition maxCases : Z := 10000.
Definition maxTotalScore : Z := 1000000000.
Definition maxExecutionMillis : Z := 86400000.
Definition maxMemoryMiB : Z := 2147483647.

Record Limits : Type := mkLimits {
  TimeLimitMillis : Z;
  MemoryLimitMiB : Z
}.

Record SpecialJudge : Type := mkSpecialJudge {
  sj_Language : string;
  sj_Source : string;
  sj_SourceSHA256 : string;
  sj_TimeLimitMillis : Z;
  sj_MemoryLimitMiB : Z
}.

Record Case : Type := mkCase {
  case_ID : string;
  case_Input : string;
  case_Output : string;
  case_Weight : Z
}.

Record Manifest : Type := mkManifest {
  m_SchemaVersion : Z;
  m_JudgeMode : JudgeMode;
  m_Checker : Checker;
  m_Limits : Limits;
  m_TotalScore : option Z;
  m_SpecialJudge : option SpecialJudge;
  m_Cases : list Case
}.

#[export] Instance Limits_eq_dec : EqDecision Limits.
Proof. solve_decision. Defined.
#[export] Instance SpecialJudge_eq_dec : EqDecision SpecialJudge.
Proof. solve_decision. Defined.
#[export] Instance Case_eq_dec : EqDecision Case.
Proof. solve_decision. Defined.
#[export] Instance Manifest_eq_dec : EqDecision Manifest.
Proof. solve_decision. Defined.

(** ** Patterns *)
Definition digit (a : Ascii.ascii) : bool := in_range 48 57 (byte_of a).
Definition lower (a : Ascii.ascii) : bool := in_range 97 122 (byte_of a).
Definition upper (a : Ascii.ascii) : bool := in_range 65 90 (byte_of a).
Definition is_char (c : Z) (a : Ascii.ascii) : bool := byte_of a =? c.

Definition case_id_tail (a : Ascii.ascii) : bool :=
  lower a || upper a || digit a || is_char 46 a || is_char 95 a || is_char 45 a.

(** [^[A-Za-z0-9][A-Za-z0-9._-]{0,63}$] *)
Definition caseIDPattern (s : string) : bool :=
  match s with
  | "" => false
  | String a s =>
      (lower a || upper a || digit a) && string_forallb case_id_tail s && (len s <=? 63)
  end.

(** [^[0-9a-f]{64}$] *)
Definition lowerSHA256Pattern (s : string) : bool :=
  string_forallb (λ a, digit a || in_range 97 102 (byte_of a)) s && (len s =? 64).

(** ** Slash-separated paths *)
Definition slash : Ascii.ascii := ascii_of_byte 47.

(** [strings.Split(s, "/")]. *)
Fixpoint split_slash (s : string) : list string :=
  match s with
  | "" => [""]
  | String a s =>
      if bool_decide (a = slash) then "" :: split_slash s
      else
        match split_slash s with
        | c :: cs => String a c :: cs
        | [] => [String a ""]
        end
  end.

Fixpoint join_slash (cs : list string) : string :=
  match cs with
  | [] => ""
  | [c] => c
  | c :: cs => c +:+ String slash (join_slash cs)
  end.

(** The component loop of [path.Clean]; [out] holds the kept components, last
    one first. A [..] that cannot backtrack is kept in a relative path. *)
Fixpoint clean_loop (rooted : bool) (out : list string) (cs : list string) : list string :=
  match cs with
  | [] => out
  | c :: cs =>
      if bool_decide (c = "") || bool_decide (c = ".") then clean_loop rooted out cs
      else if bool_decide (c = "..") then
        match out with
        | top :: out' =>
            if bool_decide (top = "..") then clean_loop rooted (".." :: out) cs
            else clean_loop rooted out' cs
        | [] => if rooted then clean_loop rooted [] cs else clean_loop rooted [".."] cs
        end
      else clean_loop rooted (c :: out) cs
  end.

Definition has_prefix_slash (s : string) : bool :=
  match s with
  | "" => false
  | String a _ => bool_decide (a = slash)
  end.

(** [path.Clean]. *)
Definition path_Clean (name : string) : string :=
  let out := reverse (clean_loop (has_prefix_slash name) [] (split_slash name)) in
  if has_prefix_slash name then String slash (join_slash out)
  else match out with
       | [] => "."
       | _ => join_slash out
       end.

Definition has_prefix (p s : string) : bool := bool_decide (stake (String.length p) s = p).

Definition validateArtifactPath (name : string) : bool :=
  if bool_decide (name = "") || (512 <? len name) || negb (valid_string name) ||
     negb (string_forallb (λ a, negb (is_char 0 a)) name) ||
     negb (string_forallb (λ a, negb (is_char 92 a)) name) || has_prefix_slash name then false
  else
    let cleaned := path_Clean name in
    negb (bool_decide (cleaned = ".") || negb (bool_decide (cleaned = name)) || has_prefix "../" cleaned).

(** ** [Manifest.Validate] *)
Inductive manifest_error : Type :=
| ErrSchemaVersion
| ErrExecutionLimits
| ErrV1Contract
| ErrJudgeMode
| ErrChecker
| ErrSpecialJudgeMissing
| ErrSpecialJudgeLanguage
| ErrSpecialJudgePath
| ErrSpecialJudgeDigest
| ErrSpecialJudgeLimits
| ErrSpecialJudgeUnexpected
| ErrCaseCount
| ErrCaseID (index : nat)
| ErrDuplicateCaseID
| ErrACMWeight
| ErrOIWeight
| ErrWeightTotal
| ErrCasePath
| ErrReservedPath
| ErrDuplicatePath
| ErrOITotalScore
| ErrUnexpectedTotalScore
| ErrManifestEncoding
| ErrManifestJSON.

Definition within_limits (time memory : Z) : bool :=
  negb ((time <=? 0) || (maxExecutionMillis <? time) || (memory <=? 0) || (maxMemoryMiB <? memory)).

Definition reserved_name : string := "manifest.json".

(** The body of the inner loop over the two files of a case. *)
Definition validateCasePath (paths : gset string) (name : string) : result manifest_error (gset string) :=
  if negb (validateArtifactPath name) then Err ErrCasePath
  else if bool_decide (name = reserved_name) then Err ErrReservedPath
  else if bool_decide (name ∈ paths) then Err ErrDuplicatePath
  else Ok ({[name]} ∪ paths).

(** The loop over the cases; the result is the [int64] sum of the weights. *)
Fixpoint validateCaseList (mode : JudgeMode) (index : nat) (ids paths : gset string)
    (weightSum : Z) (cases : list Case) : result manifest_error Z :=
  match cases with
  | [] => Ok weightSum
  | c :: cases =>
      if negb (caseIDPattern (case_ID c)) then Err (ErrCaseID index)
      else if bool_decide (case_ID c ∈ ids) then Err ErrDuplicateCaseID
      else if bool_decide (mode = JudgeModeACM) && negb (case_Weight c =? 1) then Err ErrACMWeight
      else if bool_decide (mode = JudgeModeOI) &&
              ((case_Weight c <=? 0) || (maxTotalScore <? case_Weight c)) then Err ErrOIWeight
      else
        let weightSum := wrap_int64 (weightSum + case_Weight c) in
        if maxTotalScore <? weightSum then Err ErrWeightTotal
        else
          paths ← validateCasePath paths (case_Input c);
          paths ← validateCasePath paths (case_Output c);
          validateCaseList mode (S index) ({[case_ID c]} ∪ ids) paths weightSum cases
  end.

Definition validateContract (m : Manifest) : result manifest_error unit :=
  if m_SchemaVersion m =? 1 then
    if negb (bool_decide (m_JudgeMode m = JudgeModeACM)) || negb (IsCanonicalChecker (m_Checker m)) ||
       is_some (m_TotalScore m) || is_some (m_SpecialJudge m) then Err ErrV1Contract else Ok tt
  else if negb (bool_decide (m_JudgeMode m = JudgeModeACM)) &&
          negb (bool_decide (m_JudgeMode m = JudgeModeOI)) then Err ErrJudgeMode
  else if negb (IsCanonicalChecker (m_Checker m)) && negb (bool_decide (m_Checker m = CheckerSpecial))
  then Err ErrChecker
  else Ok tt.

Definition validateSpecialJudge (m : Manifest) : result manifest_error unit :=
  if bool_decide (m_Checker m = CheckerSpecial) then
    match m_SpecialJudge m with
    | None => Err ErrSpecialJudgeMissing
    | Some sj =>
        if negb (is_some (ResolveLanguage (sj_Language sj))) then Err ErrSpecialJudgeLanguage
        else if negb (validateArtifactPath (sj_Source sj)) || bool_decide (sj_Source sj = reserved_name)
        then Err ErrSpecialJudgePath
        else if negb (lowerSHA256Pattern (sj_SourceSHA256 sj)) then Err ErrSpecialJudgeDigest
        else if negb (within_limits (sj_TimeLimitMillis sj) (sj_MemoryLimitMiB sj))
        then Err ErrSpecialJudgeLimits
        else Ok tt
    end
  else if is_some (m_SpecialJudge m) then Err ErrSpecialJudgeUnexpected
  else Ok tt.

Definition Validate (m : Manifest) : result manifest_error unit :=
  if negb (m_SchemaVersion m =? 1) && negb (m_SchemaVersion m =? 2) then Err ErrSchemaVersion
  else if negb (within_limits (TimeLimitMillis (m_Limits m)) (MemoryLimitMiB (m_Limits m)))
  then Err ErrExecutionLimits
  else
    _ ← validateContract m;
    _ ← validateSpecialJudge m;
    let count := Z.of_nat (length (m_Cases m)) in
    if (count =? 0) || (maxCases <? count) then Err ErrCaseCount
    else
      let paths := match m_SpecialJudge m with Some sj => {[sj_Source sj]} | None => ∅ end in
      weightSum ← validateCaseList (m_JudgeMode m) 0 ∅ paths 0 (m_Cases m);
      if bool_decide (m_JudgeMode m = JudgeModeOI) then
        match m_TotalScore m with
        | Some t =>
            if (t <=? 0) || (maxTotalScore <? t) || negb (t =? weightSum) then Err ErrOITotalScore else Ok tt
        | None => Err ErrOITotalScore
        end
      else if is_some (m_TotalScore m) then Err ErrUnexpectedTotalScore
      else Ok tt.

Section Parse.
(** Strict decoding by [encoding/json] of data that holds exactly one JSON
    document with no unknown fields. *)
Context (json_manifest : string → option Manifest).

Definition ParseManifest (data : string) : result manifest_error Manifest :=
  if negb (valid_string data) then Err ErrManifestEncoding
  else
    match json_manifest data with
    | None => Err ErrManifestJSON
    | Some m => _ ← Validate m; Ok m
    end.
End Parse.

(** ** Paths: facts *)
Definition slash_free (s : string) : bool := string_forallb (λ a, negb (bool_decide (a = slash))) s.

(** A component that names an entry below the bundle root. *)
Definition plain_component (c : string) : Prop := c ≠ "" ∧ c ≠ "." ∧ c ≠ "..".

Lemma split_slash_nonempty s : split_slash s ≠ [].
Proof. induction s as [|a s IH]; simpl; [done|]. repeat case_match; done. Qed.

Lemma split_slash_free s : Forall (λ c, slash_free c = true) (split_slash s).
Proof.
  induction s as [|a s IH]; simpl; [by repeat constructor|].
  case_bool_decide as Ha; [by constructor|].
  destruct (split_slash s) as [|c cs]; [by repeat constructor; unfold slash_free; simpl; rewrite bool_decide_eq_false_2|].
  apply Forall_cons in IH as [Hc Hcs]. constructor; [|done].
  unfold slash_free in *. simpl. by rewrite bool_decide_eq_false_2.
Qed.

Lemma join_split s : join_slash (split_slash s) = s.
Proof.
  induction s as [|a s IH]; simpl; [done|].
  pose proof (split_slash_nonempty s).
  case_bool_decide as Ha; [subst; destruct (split_slash s); [done|]; simpl in *; by rewrite IH|].
  destruct (split_slash s) as [|c [|c' cs]]; [done|..]; simpl in *; by rewrite <-IH.
Qed.

Lemma split_join cs :
  cs ≠ [] → Forall (λ c, slash_free c = true) cs → split_slash (join_slash cs) = cs.
Proof.
  intros Hne Hcs. induction Hcs as [|c cs Hc Hcs IH]; [done|].
  assert (Hsingle : ∀ t, slash_free t = true → split_slash t = [t]).
  { induction t as [|a t IHt]; intros Ht; [done|]. unfold slash_free in Ht. simpl in *. bool_to_prop.
    rewrite bool_decide_eq_false_2 by done. by rewrite IHt. }
  destruct cs as [|c' cs]; [by apply Hsingle|].
  specialize (IH ltac:(done)).
  change (join_slash (c :: c' :: cs)) with (c +:+ String slash (join_slash (c' :: cs))).
  clear Hsingle. induction c as [|a c IHc].
  - transitivity ("" :: split_slash (join_slash (c' :: cs))); [done|by rewrite IH].
  - unfold slash_free in Hc. simpl in Hc. bool_to_prop.
    change (String a c +:+ ?t) with (String a (c +:+ t)). cbn [split_slash].
    rewrite bool_decide_eq_false_2 by done. by rewrite IHc.
Qed.

(** The shape of what [clean_loop] keeps of a relative path: plain components on
    top of a run of unmatched [..]. *)
Definition clean_shape (out : list string) : Prop :=
  ∃ names k, out = names ++ replicate k ".." ∧ Forall plain_component names.

Lemma clean_loop_shape out cs : clean_shape out → clean_shape (clean_loop false out cs).
Proof.
  revert out. induction cs as [|c cs IH]; intros out Hout; [done|]. simpl.
  case_bool_decide as H1; [by apply IH|]. case_bool_decide as H2; [by apply IH|]. simpl.
  case_bool_decide as H3.
  - destruct Hout as (names & k & -> & Hn). destruct names as [|n names]; simpl.
    + destruct k as [|k]; simpl; [by apply IH; exists [], 1%nat|].
      apply IH. by exists [], (S (S k)).
    + apply Forall_cons in Hn as [[? [? ?]] Hn]. rewrite bool_decide_eq_false_2 by done.
      apply IH. by exists names, k.
  - apply IH. destruct Hout as (names & k & -> & Hn). exists (c :: names), k. split; [done|].
    constructor; [done|done].
Qed.

Lemma clean_loop_slash_free r out cs :
  Forall (λ c, slash_free c = true) out → Forall (λ c, slash_free c = true) cs →
  Forall (λ c, slash_free c = true) (clean_loop r out cs).
Proof.
  intros Hout Hcs. revert out Hout. induction Hcs as [|c cs Hc Hcs IH]; intros out Hout; [done|]. simpl.
  repeat case_match; apply IH; subst; rewrite ?Forall_cons in *; naive_solver.
Qed.

Lemma clean_loop_plain r out cs :
  Forall plain_component cs → clean_loop r out cs = reverse cs ++ out.
Proof.
  intros Hcs. revert out. induction Hcs as [|c cs (H1 & H2 & H3) Hcs IH]; intros out; [done|].
  simpl. rewrite !bool_decide_eq_false_2 by done. simpl. rewrite IH, reverse_cons.
  by rewrite <-app_assoc.
Qed.

Lemma has_prefix_slash_split name :
  has_prefix_slash name = true → ∃ cs, split_slash name = "" :: cs.
Proof. destruct name as [|a s]; [done|]. simpl. intros ->. eauto. Qed.

Lemma plain_not_absolute name :
  Forall plain_component (split_slash name) → has_prefix_slash name = false.
Proof.
  intros Hp. destruct (has_prefix_slash name) eqn:E; [|done].
  apply has_prefix_slash_split in E as [cs E]. rewrite E in Hp.
  apply Forall_cons in Hp as [(? & _) _]. done.
Qed.

(** A relative name that [path.Clean] leaves alone and that does not start with
    [../] is [.], [..], or made of plain components. *)
Lemma path_Clean_fixpoint name :
  has_prefix_slash name = false →
  path_Clean name = name ∧ name ≠ "." ∧ has_prefix "../" name = false ↔
  name = ".." ∨ Forall plain_component (split_slash name).
Proof.
  intros Hrel. unfold path_Clean. rewrite Hrel. split.
  - intros (Hclean & Hdot & Hpre).
    pose proof (clean_loop_shape [] (split_slash name) ltac:(by exists [], 0%nat)) as (names & k & Hout & Hn).
    pose proof (clean_loop_slash_free false [] (split_slash name) ltac:(constructor) (split_slash_free name)) as Hsf.
    rewrite Hout in Hclean, Hsf. rewrite reverse_app, reverse_replicate in Hclean.
    destruct (replicate k ".." ++ reverse names) as [|c cs] eqn:Ecs; [congruence|].
    assert (Hsplit : split_slash name = replicate k ".." ++ reverse names).
    { rewrite <-Hclean, Ecs. apply split_join; [done|]. rewrite <-Ecs.
      apply Forall_app in Hsf as [H1 H2]. apply Forall_app. by rewrite Forall_reverse. }
    destruct k as [|k]; simpl in *.
    + right. by rewrite Hsplit, Forall_reverse.
    + left. simplify_eq Ecs. intros <- <-.
      destruct (replicate k ".." ++ reverse names) as [|c' cs'] eqn:E2; [done|].
      exfalso. rewrite <-Hclean in Hpre.
      change (join_slash (".." :: c' :: cs')) with (".." +:+ String slash (join_slash (c' :: cs'))) in Hpre.
      done.
  - intros [->|Hp]; [done|].
    rewrite clean_loop_plain, app_nil_r, reverse_involutive by done.
    pose proof (split_slash_nonempty name). destruct (split_slash name) as [|c cs] eqn:E; [done|].
    rewrite <-E. rewrite join_split. split_and!; [done| |].
    + intros ->. simpl in E. simplify_eq. apply Forall_cons in Hp as [(_ & ? & _) _]. done.
    + destruct (has_prefix "../" name) eqn:Hpre; [|done]. exfalso.
      unfold has_prefix in Hpre. apply bool_decide_eq_true in Hpre.
      destruct name as [|a [|b [|d name]]]; try done. simpl in Hpre. simplify_eq.
      simpl in E. simplify_eq. apply Forall_cons in Hp as [(_ & _ & ?) _]. done.
Qed.

(** [validateArtifactPath] accepts exactly the relative paths of at most
    512 bytes of valid UTF-8, free of NUL and backslash, whose components are all
    plain names, and besides them the parent directory itself. *)
Lemma validateArtifactPath_iff name :
  validateArtifactPath name = true ↔
  len name ≤ 512 ∧ valid_string name = true ∧
  string_forallb (λ a, negb (is_char 0 a)) name = true ∧
  string_forallb (λ a, negb (is_char 92 a)) name = true ∧
  (name = ".." ∨ Forall plain_component (split_slash name)).
Proof.
  unfold validateArtifactPath.
  destruct (has_prefix_slash name) eqn:Hrel.
  { rewrite orb_true_r. split; [done|]. intros (_ & _ & _ & _ & [->|Hp]); [done|].
    by rewrite plain_not_absolute in Hrel. }
  rewrite orb_false_r. pose proof (path_Clean_fixpoint name Hrel) as Hfix.
  destruct (_ || _ || _ || _ || _) eqn:Hg.
  - split; [done|]. intros (Hlen & Hv & H0 & Hb & Hp). exfalso.
    rewrite !orb_true_iff, !negb_true_iff, Z.ltb_lt, bool_decide_eq_true in Hg.
    destruct_or!; try congruence; try lia. subst.
    by apply Forall_cons in Hp as [(? & _) _].
  - rewrite !orb_false_iff, !negb_false_iff, Z.ltb_ge, bool_decide_eq_false in Hg.
    rewrite <-Hfix, negb_true_iff, !orb_false_iff, negb_false_iff, bool_decide_eq_false, bool_decide_eq_true.
    split; [intros [[? Heq] ?]; rewrite Heq in *; naive_solver|].
    intros (_ & _ & _ & _ & Heq & ? & ?). rewrite Heq. done.
Qed.

(** ** What [Validate] decides *)
Definition case_paths (cs : list Case) : list string :=
  concat (map (λ c, [case_Input c; case_Output c]) cs).

Definition special_paths (m : Manifest) : list string :=
  match m_SpecialJudge m with Some sj => [sj_Source sj] | None => [] end.

Definition weight_ok (mode : JudgeMode) (c : Case) : Prop :=
  match mode with
  | JudgeModeACM => case_Weight c = 1
  | JudgeModeOI => 0 < case_Weight c ≤ maxTotalScore
  | JudgeModeOther _ => True
  end.

(** A relative path that stays inside the archive: every component is a plain name,
    so it is not absolute, has no empty component and never goes to a parent. *)
Definition safe_path (p : string) : Prop :=
  len p ≤ 512 ∧ valid_string p = true ∧
  string_forallb (λ a, negb (byte_of a =? 0)) p = true ∧ string_forallb (λ a, negb (byte_of a =? 92)) p = true ∧
  Forall plain_component (split_slash p).

(** The paths a manifest may name: the safe ones, and besides them the parent
    directory itself, which the check of the code lets through. *)
Definition path_ok (p : string) : Prop := (safe_path p ∨ p = "..") ∧ p ≠ reserved_name.

Lemma path_ok_iff p : path_ok p ↔ validateArtifactPath p = true ∧ p ≠ reserved_name.
Proof.
  unfold path_ok, safe_path. rewrite validateArtifactPath_iff.
  assert (Hparent : p = ".." → len p ≤ 512 ∧ valid_string p = true ∧ string_forallb (λ a, negb (is_char 0 a)) p = true ∧
    string_forallb (λ a, negb (is_char 92 a)) p = true) by by intros ->.
  unfold is_char in *. tauto.
Qed.

Definition limits_ok (time memory : Z) : Prop :=
  0 < time ≤ maxExecutionMillis ∧ 0 < memory ≤ maxMemoryMiB.

Record special_wf (sj : SpecialJudge) : Prop := {
  sj_wf_language : is_Some (ResolveLanguage (sj_Language sj));
  sj_wf_path : path_ok (sj_Source sj);
  sj_wf_digest : lowerSHA256Pattern (sj_SourceSHA256 sj) = true;
  sj_wf_limits : limits_ok (sj_TimeLimitMillis sj) (sj_MemoryLimitMiB sj)
}.

(** The bundle contract: what a reader of a validated manifest may rely on. *)
Record manifest_wf (m : Manifest) : Prop := {
  mwf_schema : m_SchemaVersion m = 1 ∧ m_JudgeMode m = JudgeModeACM ∧
                 (m_Checker m = CheckerExact ∨ m_Checker m = CheckerToken) ∨
               m_SchemaVersion m = 2 ∧ (m_JudgeMode m = JudgeModeACM ∨ m_JudgeMode m = JudgeModeOI);
  mwf_limits : limits_ok (TimeLimitMillis (m_Limits m)) (MemoryLimitMiB (m_Limits m));
  mwf_checker : match m_Checker m, m_SpecialJudge m with
                | CheckerExact, None | CheckerToken, None => True
                | CheckerSpecial, Some sj => special_wf sj
                | _, _ => False
                end;
  mwf_count : 1 ≤ Z.of_nat (length (m_Cases m)) ≤ maxCases;
  mwf_ids : NoDup (case_ID <$> m_Cases m) ∧ Forall (λ c, caseIDPattern (case_ID c) = true) (m_Cases m);
  mwf_paths : NoDup (special_paths m ++ case_paths (m_Cases m)) ∧ Forall path_ok (case_paths (m_Cases m));
  mwf_weights : Forall (weight_ok (m_JudgeMode m)) (m_Cases m);
  mwf_total : if decide (m_JudgeMode m = JudgeModeOI)
              then m_TotalScore m = Some (sumZ case_Weight (m_Cases m)) ∧
                   sumZ case_Weight (m_Cases m) ≤ maxTotalScore
              else m_TotalScore m = None
}.

Lemma within_limits_true t mem : within_limits t mem = true ↔ limits_ok t mem.
Proof.
  unfold within_limits, limits_ok. rewrite negb_true_iff, !orb_false_iff, !Z.leb_gt, !Z.ltb_ge. lia.
Qed.

Lemma validateCasePath_ok paths name paths' :
  validateCasePath paths name = Ok paths' ↔
  path_ok name ∧ name ∉ paths ∧ paths' = {[name]} ∪ paths.
Proof.
  rewrite path_ok_iff. unfold validateCasePath.
  destruct (validateArtifactPath name); simpl; [|naive_solver].
  case_bool_decide; [naive_solver|]. case_bool_decide; naive_solver.
Qed.

(** The two path checks of one case. *)
Lemma case_paths_fresh (a b : string) (paths : gset string) l :
  (a ∉ paths ∧ b ∉ {[a]} ∪ paths ∧ NoDup l ∧ Forall (λ p, p ∉ {[b]} ∪ ({[a]} ∪ paths)) l) ↔
  NoDup (a :: b :: l) ∧ Forall (λ p, p ∉ paths) (a :: b :: l).
Proof.
  rewrite !NoDup_cons, !Forall_cons, !Forall_forall. set_solver.
Qed.

Lemma fresh_id (x : string) (ids : gset string) l :
  (x ∉ ids ∧ NoDup l ∧ Forall (λ y, y ∉ {[x]} ∪ ids) l) ↔
  NoDup (x :: l) ∧ Forall (λ y, y ∉ ids) (x :: l).
Proof. rewrite NoDup_cons, Forall_cons, !Forall_forall. set_solver. Qed.

Lemma weight_ok_bounds mode c :
  mode = JudgeModeACM ∨ mode = JudgeModeOI → weight_ok mode c → 0 < case_Weight c ≤ maxTotalScore.
Proof. unfold maxTotalScore. intros [->| ->]; simpl; unfold maxTotalScore; lia. Qed.

Lemma validateCaseList_ok mode index ids paths weightSum cases w :
  mode = JudgeModeACM ∨ mode = JudgeModeOI → 0 ≤ weightSum ≤ maxTotalScore →
  validateCaseList mode index ids paths weightSum cases = Ok w ↔
  Forall (λ c, caseIDPattern (case_ID c) = true) cases ∧
  (NoDup (case_ID <$> cases) ∧ Forall (λ y, y ∉ ids) (case_ID <$> cases)) ∧
  Forall (weight_ok mode) cases ∧ w = weightSum + sumZ case_Weight cases ∧ w ≤ maxTotalScore ∧
  Forall path_ok (case_paths cases) ∧
  (NoDup (case_paths cases) ∧ Forall (λ p, p ∉ paths) (case_paths cases)).
Proof.
  intros Hmode. revert index ids paths weightSum.
  induction cases as [|c cases IH]; intros index ids paths ws Hws.
  { simpl. rewrite !Z.add_0_r. split; [intros ?; inv_ok; subst|naive_solver].
    split_and!; try done; try constructor; lia. }
  cbn [validateCaseList sumZ]. rewrite fmap_cons. unfold case_paths. cbn [map concat app].
  fold (case_paths cases). rewrite <-fresh_id, <-case_paths_fresh. rewrite !Forall_cons.
  destruct (caseIDPattern (case_ID c)) eqn:Hid; cbn [negb]; [|naive_solver].
  case_bool_decide as Hdup; [naive_solver|].
  assert (Hweight : (bool_decide (mode = JudgeModeACM) && negb (case_Weight c =? 1) = false ∧
    bool_decide (mode = JudgeModeOI) && ((case_Weight c <=? 0) || (maxTotalScore <? case_Weight c)) = false)
    ↔ weight_ok mode c).
  { destruct Hmode as [-> | ->]; simpl; rewrite ?negb_false_iff, ?orb_false_iff, ?Z.eqb_eq, ?Z.leb_gt, ?Z.ltb_ge; lia. }
  destruct (bool_decide (mode = JudgeModeACM) && _); [naive_solver|].
  destruct (bool_decide (mode = JudgeModeOI) && _); [naive_solver|].
  apply proj1 in Hweight. specialize (Hweight ltac:(done)).
  pose proof (weight_ok_bounds mode c Hmode Hweight) as Hb.
  rewrite wrap_int64_id by (unfold min_int64, max_int64, maxTotalScore in *; lia).
  assert (Hpos : Forall (weight_ok mode) cases → 0 ≤ sumZ case_Weight cases).
  { intros Hall. apply sumZ_nonneg. eapply Forall_impl; [done|]. intros x Hx.
    pose proof (weight_ok_bounds mode x Hmode Hx). lia. }
  destruct (Z.ltb_spec maxTotalScore (ws + case_Weight c)).
  { split; [done|]. intros (_ & _ & (_ & Hall) & -> & Hle & _). specialize (Hpos Hall). lia. }
  rewrite bind_ok. setoid_rewrite bind_ok. setoid_rewrite validateCasePath_ok.
  split.
  - intros (p1 & (Hp1 & Hn1 & ->) & p2 & (Hp2 & Hn2 & ->) & Hrec).
    apply IH in Hrec; [|lia]. destruct_and!. split_and!; try done. lia.
  - intros; destruct_and!. eexists. split; [done|]. eexists. split; [done|].
    apply IH; [lia|]. split_and!; try done. lia.
Qed.

Lemma IsCanonicalChecker_true c :
  IsCanonicalChecker c = true ↔ c = CheckerExact ∨ c = CheckerToken ∨ c = CheckerSpecial.
Proof. destruct c; naive_solver. Qed.

(** The version contract and the special-judge check together. *)
Lemma validateContract_special m :
  m_SchemaVersion m = 1 ∨ m_SchemaVersion m = 2 →
  (validateContract m = Ok tt ∧ validateSpecialJudge m = Ok tt) ↔
  (m_SchemaVersion m = 1 ∧ m_JudgeMode m = JudgeModeACM ∧ m_TotalScore m = None ∧
     (m_Checker m = CheckerExact ∨ m_Checker m = CheckerToken) ∨
   m_SchemaVersion m = 2 ∧ (m_JudgeMode m = JudgeModeACM ∨ m_JudgeMode m = JudgeModeOI)) ∧
  match m_Checker m, m_SpecialJudge m with
  | CheckerExact, None | CheckerToken, None => True
  | CheckerSpecial, Some sj => special_wf sj
  | _, _ => False
  end.
Proof.
  intros Hv.
  assert (Hsp : ∀ sj,
    (if negb (is_some (ResolveLanguage (sj_Language sj))) then Err ErrSpecialJudgeLanguage
     else if negb (validateArtifactPath (sj_Source sj)) || bool_decide (sj_Source sj = reserved_name)
     then Err ErrSpecialJudgePath
     else if negb (lowerSHA256Pattern (sj_SourceSHA256 sj)) then Err ErrSpecialJudgeDigest
     else if negb (within_limits (sj_TimeLimitMillis sj) (sj_MemoryLimitMiB sj))
     then Err ErrSpecialJudgeLimits else Ok tt) = Ok tt ↔ special_wf sj).
  { intros sj. split.
    - intros H. repeat case_match; try done. bool_to_prop.
      split; [by apply is_some_true|by apply path_ok_iff|done|by apply within_limits_true].
    - intros [H1 [H2 H2']%path_ok_iff H3 H4]. apply is_some_true in H1. apply within_limits_true in H4.
      rewrite H1, H2, H3, H4. simpl. by rewrite bool_decide_eq_false_2. }
  unfold validateContract, validateSpecialJudge.
  destruct Hv as [Hv|Hv]; rewrite Hv; simpl.
  - destruct (m_Checker m), (m_SpecialJudge m), (m_JudgeMode m), (m_TotalScore m);
      simpl; naive_solver.
  - destruct (m_Checker m), (m_SpecialJudge m); simpl;
      [..|rewrite Hsp| | |]; destruct (m_JudgeMode m); simpl; naive_solver.
Qed.

(** The paths seen before the case loop. *)
Lemma special_paths_fresh m :
  ∀ l, NoDup (special_paths m ++ l) ↔
  NoDup l ∧ Forall (λ p, p ∉ match m_SpecialJudge m with
    | Some sj => {[sj_Source sj]} | None => (∅ : gset string) end) l.
Proof.
  intros l. unfold special_paths. rewrite Forall_forall.
  destruct (m_SpecialJudge m); simpl; [rewrite NoDup_cons|]; set_solver.
Qed.

(** The score check at the end of [Validate], in both modes. *)
Lemma positive_weights cases :
  cases ≠ [] → Forall (weight_ok JudgeModeOI) cases → 0 < sumZ case_Weight cases.
Proof.
  intros Hne Hw. destruct cases as [|c cs]; [done|]. apply Forall_cons in Hw as [Hc Hcs].
  assert (0 ≤ sumZ case_Weight cs); [|destruct Hc; simpl; lia].
  apply sumZ_nonneg. eapply Forall_impl; [exact Hcs|]. intros x [? ?]. lia.
Qed.

Lemma weights_within_total m :
  manifest_wf m → sumZ case_Weight (m_Cases m) ≤ maxTotalScore.
Proof.
  intros [Hc _ _ Hcount _ _ Hw Ht].
  assert (m_JudgeMode m = JudgeModeACM ∨ m_JudgeMode m = JudgeModeOI) as [E|E] by naive_solver;
    rewrite E in Ht, Hw; [|naive_solver].
  assert (sumZ case_Weight (m_Cases m) ≤ 1 * Z.of_nat (length (m_Cases m))).
  { apply sumZ_bound. eapply Forall_impl; [exact Hw|]. simpl. lia. }
  unfold maxTotalScore, maxCases in *. lia.
Qed.

Lemma manifest_wf_mode m :
  manifest_wf m → m_JudgeMode m = JudgeModeACM ∨ m_JudgeMode m = JudgeModeOI.
Proof. intros [Hc _ _ _ _ _ _ _]. naive_solver. Qed.

Lemma manifest_wf_cases m : manifest_wf m → m_Cases m ≠ [].
Proof. intros [_ _ _ Hc _ _ _ _] E. rewrite E in Hc. simpl in Hc. lia. Qed.

Lemma Validate_sound m : Validate m = Ok tt → manifest_wf m.
Proof.
  unfold Validate. destruct (negb (m_SchemaVersion m =? 1) && _) eqn:Hver; [done|].
  rewrite andb_false_iff, !negb_false_iff, !Z.eqb_eq in Hver.
  destruct (within_limits _ _) eqn:Hlim; [|done]. apply within_limits_true in Hlim. simpl.
  intros ([] & H1 & H2)%bind_ok. apply bind_ok in H2 as ([] & H2 & H3).
  destruct (proj1 (validateContract_special m Hver) (conj H1 H2)) as [Hc Hchk].
  destruct (_ || _) eqn:Hcount in H3; [done|]. unfold maxCases in Hcount.
  apply orb_false_iff in Hcount as [Hc0%Z.eqb_neq Hc1%Z.ltb_ge].
  apply bind_ok in H3 as (w & Hl & H4).
  assert (Hmode : m_JudgeMode m = JudgeModeACM ∨ m_JudgeMode m = JudgeModeOI) by naive_solver.
  apply validateCaseList_ok in Hl; [|done|unfold maxTotalScore; lia].
  destruct Hl as (Hids & (Hnd & _) & Hw & -> & Hmax & Hp & Hpaths).
  apply special_paths_fresh in Hpaths.
  split; [naive_solver|done|done|unfold maxCases; lia|done|done|done|].
  destruct Hmode as [E|E]; rewrite E in H4 |- *; simpl in *.
  - destruct (m_TotalScore m); done.
  - destruct (m_TotalScore m) as [t|]; [|done]. destruct (_ || _) eqn:Ht in H4; [done|].
    bool_to_prop. split; [f_equal; lia|lia].
Qed.

Lemma validateCaseList_wf m :
  manifest_wf m →
  validateCaseList (m_JudgeMode m) 0 ∅
    (match m_SpecialJudge m with Some sj => {[sj_Source sj]} | None => ∅ end) 0 (m_Cases m)
  = Ok (sumZ case_Weight (m_Cases m)).
Proof.
  intros Hwf. pose proof (weights_within_total m Hwf). pose proof (manifest_wf_mode m Hwf).
  destruct Hwf as [_ _ _ _ [Hnd Hids] [Hpaths Hp] Hw _].
  apply validateCaseList_ok; [done|unfold maxTotalScore; lia|].
  apply special_paths_fresh in Hpaths. destruct Hpaths. split_and!; try done.
  apply Forall_forall. set_solver.
Qed.

Lemma Validate_complete m : manifest_wf m → Validate m = Ok tt.
Proof.
  intros Hwf. pose proof (validateCaseList_wf m Hwf) as Hl. pose proof (manifest_wf_mode m Hwf) as Hmode.
  pose proof (manifest_wf_cases m Hwf) as Hne.
  destruct Hwf as [Hc Hlim Hchk Hcount [Hnd Hids] [Hpaths Hp] Hw Ht]. unfold maxCases in Hcount.
  assert (Hver : m_SchemaVersion m = 1 ∨ m_SchemaVersion m = 2) by naive_solver.
  destruct (proj2 (validateContract_special m Hver)) as [H1 H2].
  { split; [|done]. destruct Hc as [(? & Hacm & ?)|?]; [left|by right]. rewrite Hacm in Ht. done. }
  unfold Validate.
  assert (negb (m_SchemaVersion m =? 1) && negb (m_SchemaVersion m =? 2) = false) as ->
    by (destruct Hver as [-> | ->]; done).
  apply within_limits_true in Hlim. rewrite Hlim, H1. simpl. rewrite H2. simpl.
  destruct (_ || _) eqn:Hcnt.
  { exfalso. unfold maxCases in Hcnt. apply orb_true_iff in Hcnt as [?%Z.eqb_eq|?%Z.ltb_lt]; lia. }
  rewrite Hl. simpl. destruct Hmode as [E|E]; rewrite E in Ht, Hw |- *; simpl in *.
  - by rewrite Ht.
  - destruct Ht as [-> Hle]. rewrite Z.eqb_refl. simpl.
    pose proof (positive_weights _ Hne Hw).
    by rewrite (proj2 (Z.leb_gt _ _)), (proj2 (Z.ltb_ge _ _)) by lia.
Qed.

(** The paths a manifest names. *)
Definition manifest_paths (m : Manifest) : list string := special_paths m ++ case_paths (m_Cases m).

Lemma manifest_paths_ok m : manifest_wf m → Forall path_ok (manifest_paths m).
Proof.
  intros Hwf. apply Forall_app. split; [|apply Hwf]. pose proof (mwf_checker _ Hwf) as Hc. unfold special_paths.
  destruct (m_SpecialJudge m); [|constructor]. destruct (m_Checker m); try done. by constructor; [apply Hc|constructor].
Qed.

(** A manifest that names the parent directory is accepted. *)
Definition parent_manifest : Manifest :=
  {| m_SchemaVersion := 1; m_JudgeMode := JudgeModeACM; m_Checker := CheckerExact; m_Limits := mkLimits 1000 256;
     m_TotalScore := None; m_SpecialJudge := None; m_Cases := [mkCase "one" ".." "cases/1.out" 1] |}.

Lemma parent_directory_accepted : Validate parent_manifest = Ok tt ∧ ".." ∈ manifest_paths parent_manifest ∧ ¬ safe_path "..".
Proof.
  split_and!; [by vm_compute|cbn; by left|]. intros (_ & _ & _ & _ & [(_ & _ & H) _]%Forall_cons). done.
Qed.

(** C39: [Validate] accepts exactly the well-formed manifests: a supported
    version, mode and checker, limits and counts within bounds, distinct case
    identifiers, distinct paths, and weights that add up. A path is safe (relative,
    valid UTF-8 of at most 512 bytes without NUL and backslash, every component a plain
    name) or it is the parent directory itself, which the code accepts although the
    README says that path traversal is rejected ([parent_directory_accepted]); the paths
    of an accepted manifest that does not name the parent directory are all safe. *)
Theorem Validate_iff m :
  (Validate m = Ok tt ↔ manifest_wf m) ∧
  (Validate m = Ok tt → ".." ∉ manifest_paths m → Forall safe_path (manifest_paths m)).
Proof.
  split; [split; [apply Validate_sound|apply Validate_complete]|]. intros Hv%Validate_sound Hn.
  pose proof (manifest_paths_ok m Hv) as Hp. rewrite Forall_forall in Hp |- *. intros p Hin.
  destruct (Hp p Hin) as [[?| ->] _]; done.
Qed.
