(* ===== verification/Scheduler.v ===== *)
(** * Sandbox selection, [internal/scheduler/scheduler.go] and [target.go]

    [Scheduler] keeps the last successful endpoint snapshot and selects by
    round robin under its mutex; [Target] always names one gRPC target. The
    interface the batch pipeline uses is the class [SandboxSelector]. *)
From stdpp Require Import prelude gmap strings.
From S2P Require Import Prelude.

Open Scope Z_scope.

Inductive selector_error : Type :=
| ErrNoEndpoints
| ErrNoUntriedEndpoints
| ErrAlreadyAttempted
| ErrTargetUnavailable.

(** What [selectUntriedSandbox] asks of a selector: [SelectSandbox], and
    [SelectSandboxExcluding] when the concrete type implements it. *)
Class SandboxSelector (S : Type) : Type := {
  sel_select : S → result selector_error string * S;
  sel_excluding : option (S → gset string → result selector_error string * S)
}.

Record Scheduler : Type := mkScheduler {
  endpoints : list string;
  next : Z
}.

Definition New : Scheduler := mkScheduler [] 0.

(** [Refresh] with the outcome of the discovery call. *)
Definition Refresh {E} (s : Scheduler) (discovered : result E (list string)) :
    result E unit * Scheduler :=
  match discovered with
  | Err e => (Err e, s)
  | Ok eps =>
      match eps with
      | [] => (Ok tt, mkScheduler [] 0)
      | _ => (Ok tt, mkScheduler eps (next s `mod` Z.of_nat (length eps)))
      end
  end.

(** The offsets still to be tried, in order. *)
Fixpoint select_loop (s : Scheduler) (excluded : gset string) (offsets : list nat) :
    result selector_error string * Scheduler :=
  match offsets with
  | [] => (Err ErrNoUntriedEndpoints, s)
  | offset :: offsets =>
      let index := wrap_uint64 (next s + Z.of_nat offset) `mod` Z.of_nat (length (endpoints s)) in
      match endpoints s !! Z.to_nat index with
      | None => (Err ErrNoEndpoints, s)
      | Some selected =>
          if bool_decide (selected ∈ excluded) then select_loop s excluded offsets
          else (Ok selected, mkScheduler (endpoints s) (index + 1))
      end
  end.

Definition SelectSandboxExcluding (s : Scheduler) (excluded : gset string) :
    result selector_error string * Scheduler :=
  match endpoints s with
  | [] => (Err ErrNoEndpoints, s)
  | _ => select_loop s excluded (seq 0 (length (endpoints s)))
  end.

Definition SelectSandbox (s : Scheduler) : result selector_error string * Scheduler :=
  SelectSandboxExcluding s ∅.

#[export] Instance Scheduler_selector : SandboxSelector Scheduler := {
  sel_select := SelectSandbox;
  sel_excluding := Some SelectSandboxExcluding
}.

(** [Target]: [None] is the nil receiver. *)
Definition Target : Type := option string.

Definition Target_SelectSandbox (t : Target) : result selector_error string * Target :=
  match t with
  | None => (Err ErrTargetUnavailable, t)
  | Some target =>
      if bool_decide (target = "") then (Err ErrTargetUnavailable, t) else (Ok target, t)
  end.

Definition Target_SelectSandboxExcluding (t : Target) (_ : gset string) :
    result selector_error string * Target := Target_SelectSandbox t.

#[export] Instance Target_selector : SandboxSelector Target := {
  sel_select := Target_SelectSandbox;
  sel_excluding := Some Target_SelectSandboxExcluding
}.

(** The law a selector obeys when it really skips the excluded endpoints. *)
Class ExcludingLaw (S : Type) `{SandboxSelector S} : Prop := {
  excluding_law : ∀ (s s' : S) sel excluded a,
    sel_excluding = Some sel → sel s excluded = (Ok a, s') → a ∉ excluded
}.

(** ** Invariant *)
(** [next] is a valid cursor: at most one past the last endpoint. *)
Definition scheduler_wf (s : Scheduler) : Prop :=
  0 ≤ next s ≤ Z.of_nat (length (endpoints s)) ∧
  Z.of_nat (length (endpoints s)) < 9223372036854775807.

Lemma Refresh_wf {E} (s : Scheduler) (d : result E (list string)) :
  scheduler_wf s →
  match d with Ok eps => Z.of_nat (length eps) < 9223372036854775807 | Err _ => True end →
  scheduler_wf (Refresh s d).2.
Proof.
  intros Hs Hd. destruct d as [[|e eps]|e]; simpl; [split; simpl; lia| |done].
  split; [|done]. simpl.
  pose proof (Z.mod_pos_bound (next s) (Z.of_nat (S (length eps)))). lia.
Qed.

(** The index visited at a given offset, and that it is in range. *)
Definition rr_index (s : Scheduler) (offset : nat) : nat :=
  Z.to_nat ((next s + Z.of_nat offset) `mod` Z.of_nat (length (endpoints s))).

Lemma rr_index_lt s offset : endpoints s ≠ [] → (rr_index s offset < length (endpoints s))%nat.
Proof.
  intros Hne. unfold rr_index. destruct (endpoints s) as [|e es]; [done|].
  pose proof (Z.mod_pos_bound (next s + Z.of_nat offset) (Z.of_nat (length (e :: es)))).
  simpl in *. lia.
Qed.

Lemma select_loop_step s excluded offset offsets :
  scheduler_wf s → endpoints s ≠ [] → (offset < length (endpoints s))%nat →
  ∃ e, endpoints s !! rr_index s offset = Some e ∧
    select_loop s excluded (offset :: offsets) =
      if bool_decide (e ∈ excluded) then select_loop s excluded offsets
      else (Ok e, mkScheduler (endpoints s) (Z.of_nat (rr_index s offset) + 1)).
Proof.
  intros [Hn Hl] Hne Ho.
  destruct (lookup_lt_is_Some_2 _ _ (rr_index_lt s offset Hne)) as [e He].
  exists e. split; [done|]. cbn [select_loop].
  rewrite wrap_uint64_id by lia. unfold rr_index in *. rewrite He.
  rewrite Z2Nat.id; [done|].
  destruct (endpoints s); [done|]. apply Z.mod_pos_bound. simpl; lia.
Qed.

(** The offsets passed over before a selection name excluded endpoints. *)
Lemma select_loop_spec s excluded offsets :
  scheduler_wf s → endpoints s ≠ [] → Forall (λ o, (o < length (endpoints s))%nat) offsets →
  match select_loop s excluded offsets with
  | (Ok e, s') => ∃ pre o post, offsets = pre ++ o :: post ∧ endpoints s !! rr_index s o = Some e ∧
      e ∉ excluded ∧ endpoints s' = endpoints s ∧ next s' = Z.of_nat (rr_index s o) + 1 ∧
      Forall (λ o', ∃ e', endpoints s !! rr_index s o' = Some e' ∧ e' ∈ excluded) pre
  | (Err err, s') => err = ErrNoUntriedEndpoints ∧ s' = s ∧
      Forall (λ o', ∃ e', endpoints s !! rr_index s o' = Some e' ∧ e' ∈ excluded) offsets
  end.
Proof.
  intros Hwf Hne Hos. induction Hos as [|o os Ho Hos IH]; [done|].
  destruct (select_loop_step s excluded o os Hwf Hne Ho) as (e & He & ->).
  case_bool_decide as Hex.
  - destruct (select_loop s excluded os) as [[e'|err] s'].
    + destruct IH as (pre & o' & post & -> & IH). exists (o :: pre), o', post.
      destruct_and!. split_and!; try done. constructor; eauto.
    + destruct_and!. split_and!; try done. constructor; eauto.
  - exists [], o, os. split_and!; done || constructor.
Qed.

(** Every endpoint is visited by some offset below the number of endpoints. *)
Lemma rr_index_surj s i :
  scheduler_wf s → (i < length (endpoints s))%nat →
  ∃ o, (o < length (endpoints s))%nat ∧ rr_index s o = i.
Proof.
  intros [Hn Hl] Hi. set (n := Z.of_nat (length (endpoints s))) in *.
  exists (Z.to_nat ((Z.of_nat i - next s) `mod` n)).
  assert (0 < n) by lia. pose proof (Z.mod_pos_bound (Z.of_nat i - next s) n).
  split; [lia|]. unfold rr_index. fold n. rewrite Z2Nat.id by lia.
  rewrite Zplus_mod_idemp_r, Z.add_sub_assoc, Z.add_sub_swap, Z.sub_diag.
  simpl. rewrite Z.mod_small by lia. lia.
Qed.

(** [SelectSandboxExcluding] returns a ready endpoint that is not excluded
    whenever there is one, and otherwise fails and changes nothing. *)
Lemma SelectSandboxExcluding_spec s excluded :
  scheduler_wf s →
  match SelectSandboxExcluding s excluded with
  | (Ok e, s') => e ∈ endpoints s ∧ e ∉ excluded ∧ endpoints s' = endpoints s ∧ scheduler_wf s'
  | (Err _, s') => s' = s ∧ ∀ e, e ∈ endpoints s → e ∈ excluded
  end.
Proof.
  intros Hwf. unfold SelectSandboxExcluding.
  destruct (endpoints s) as [|e0 es] eqn:Heps; [split; [done|intros e ?%elem_of_nil; done]|].
  rewrite <-Heps. assert (Hne : endpoints s ≠ []) by by rewrite Heps.
  pose proof (select_loop_spec s excluded (seq 0 (length (endpoints s))) Hwf Hne) as Hspec.
  destruct (select_loop _ _ _) as [[e|err] s'].
  - destruct Hspec as (pre & o & post & _ & He & Hx & Heq & Hnext & _).
    { apply Forall_forall. intros o ?%elem_of_seq. lia. }
    rewrite Heq. split_and!; [by eapply list_elem_of_lookup_2|done|done|].
    unfold scheduler_wf in *. rewrite Heq, Hnext.
    pose proof (rr_index_lt s o Hne). lia.
  - destruct Hspec as (_ & -> & Hall).
    { apply Forall_forall. intros o ?%elem_of_seq. lia. }
    split; [done|]. intros e [i Hi]%list_elem_of_lookup.
    destruct (rr_index_surj s i Hwf) as (o & Ho & <-); [by eapply lookup_lt_Some|].
    rewrite Forall_forall in Hall. destruct (Hall o) as (e' & He' & ?); [apply elem_of_seq; lia|].
    congruence.
Qed.

Lemma select_loop_not_excluded s excluded offsets e s' :
  select_loop s excluded offsets = (Ok e, s') → e ∉ excluded.
Proof.
  induction offsets as [|o os IH]; [done|]. cbn [select_loop].
  destruct (endpoints s !! _); [|done]. case_bool_decide; [done|]. by intros [= <- _].
Qed.

#[export] Instance Scheduler_law : ExcludingLaw Scheduler.
Proof.
  split. intros s s' sel excluded a [= <-]. unfold SelectSandboxExcluding.
  destruct (endpoints s); [done|]. apply select_loop_not_excluded.
Qed.

(** ** Round robin *)
(** [n] selections in a row. *)
Fixpoint select_many (n : nat) (s : Scheduler) : list (result selector_error string) * Scheduler :=
  match n with
  | O => ([], s)
  | S n =>
      let '(r, s1) := SelectSandbox s in
      let '(rs, s2) := select_many n s1 in
      (r :: rs, s2)
  end.

Lemma SelectSandbox_rr s e :
  scheduler_wf s → endpoints s !! rr_index s 0 = Some e →
  SelectSandbox s = (Ok e, mkScheduler (endpoints s) (Z.of_nat (rr_index s 0) + 1)).
Proof.
  intros Hwf He. unfold SelectSandbox, SelectSandboxExcluding.
  destruct (endpoints s) as [|e0 es] eqn:Heps; [done|]. rewrite <-Heps in *.
  assert (Hne : endpoints s ≠ []) by by rewrite Heps.
  replace (seq 0 (length (endpoints s))) with (0%nat :: seq 1 (length es)) by by rewrite Heps.
  destruct (select_loop_step s ∅ 0 (seq 1 (length es)) Hwf Hne) as (e' & He' & ->).
  { rewrite Heps. simpl. lia. }
  rewrite bool_decide_eq_false_2 by set_solver. congruence.
Qed.

(** The [k]-th of a run of selections is the endpoint [k] places after the cursor. *)
Lemma select_many_round_robin n s :
  scheduler_wf s → endpoints s ≠ [] → (n ≤ length (endpoints s))%nat →
  ∀ k, (k < n)%nat →
  ∃ e, endpoints s !! rr_index s k = Some e ∧ (select_many n s).1 !! k = Some (Ok e).
Proof.
  revert s. induction n as [|n IH]; intros s Hwf Hne Hn k Hk; [lia|].
  destruct (lookup_lt_is_Some_2 _ _ (rr_index_lt s 0 Hne)) as [e0 He0].
  cbn [select_many]. rewrite (SelectSandbox_rr s e0 Hwf He0).
  set (s1 := mkScheduler (endpoints s) (Z.of_nat (rr_index s 0) + 1)).
  destruct (select_many n s1) as [rs s2] eqn:Hrs. destruct k as [|k]; [by exists e0|].
  assert (Hwf1 : scheduler_wf s1).
  { unfold scheduler_wf, s1 in *; simpl. pose proof (rr_index_lt s 0 Hne). lia. }
  destruct (IH s1 Hwf1 Hne ltac:(simpl; lia) k ltac:(lia)) as (e & He & Hl).
  rewrite Hrs in Hl. exists e. split; [|done].
  rewrite <-He. f_equal. unfold s1, rr_index; simpl.
  rewrite Z2Nat.id by (destruct (endpoints s); [done|]; apply Z.mod_pos_bound; simpl; lia).
  rewrite <-Z.add_assoc, Zplus_mod_idemp_l. f_equal. f_equal. lia.
Qed.

Lemma select_many_length n s : length (select_many n s).1 = n.
Proof.
  revert s. induction n as [|n IH]; intros s; [done|]. cbn [select_many].
  destruct (SelectSandbox s) as [r s1]. specialize (IH s1).
  destruct (select_many n s1). simpl in *. by rewrite IH.
Qed.

(** Selecting as many times as there are endpoints visits every endpoint
    exactly once, wherever the round starts. *)
Lemma select_round_is_permutation s :
  scheduler_wf s → endpoints s ≠ [] →
  (select_many (length (endpoints s)) s).1 ≡ₚ Ok <$> endpoints s.
Proof.
  intros Hwf Hne. set (n := length (endpoints s)).
  assert (Hn : (0 < n)%nat) by (unfold n; destruct (endpoints s); [done|simpl; lia]).
  enough ((select_many n s).1 = Ok <$> rotate (Z.to_nat (next s)) (endpoints s)) as ->.
  { apply fmap_Permutation. unfold rotate. rewrite Permutation_app_comm. by rewrite take_drop. }
  apply list_eq. intros k. destruct (decide (k < n)%nat) as [Hk|Hk].
  - destruct (select_many_round_robin n s Hwf Hne ltac:(lia) k Hk) as (e & He & ->).
    rewrite list_lookup_fmap, lookup_rotate_r by done.
    replace (rotate_nat_add (Z.to_nat (next s)) k (length (endpoints s))) with (rr_index s k).
    { by rewrite He. }
    unfold rr_index, rotate_nat_add. destruct Hwf as [[? ?] ?]. by rewrite Z2Nat.id by lia.
  - rewrite !lookup_ge_None_2; [done| |].
    + rewrite length_fmap, length_rotate. fold n. lia.
    + rewrite select_many_length. lia.
Qed.
