(* ===== verification/Callback.v ===== *)
(** * Result callback, [internal/callback/client.go]

    The payload of the internal result callback, its validation, and the
    classification of publication outcomes into permanent and retryable. *)
From stdpp Require Import prelude gmap strings.
From S2P Require Import Prelude.
From S2P Require Import GoText.

Open Scope Z_scope.

Inductive Status : Type :=
| StatusAccepted
| StatusCompileError
| StatusWrongAnswer
| StatusTimeLimitExceeded
| StatusMemoryLimitExceeded
| StatusRuntimeError
| StatusOutputLimitExceeded
| StatusSystemError
| StatusOther (raw : string).

#[export] Instance Status_eq_dec : EqDecision Status.
Proof. solve_decision. Defined.

(** The string a [Status] is. *)
Definition status_string (s : Status) : string :=
  match s with
  | StatusAccepted => "ACCEPTED"
  | StatusCompileError => "COMPILE_ERROR"
  | StatusWrongAnswer => "WRONG_ANSWER"
  | StatusTimeLimitExceeded => "TIME_LIMIT_EXCEEDED"
  | StatusMemoryLimitExceeded => "MEMORY_LIMIT_EXCEEDED"
  | StatusRuntimeError => "RUNTIME_ERROR"
  | StatusOutputLimitExceeded => "OUTPUT_LIMIT_EXCEEDED"
  | StatusSystemError => "SYSTEM_ERROR"
  | StatusOther raw => raw
  end.

Record Result : Type := mkResult {
  res_ResultID : string;
  res_SubmissionID : Z;
  res_AttemptNo : Z;
  res_Status : Status;
  res_ExitCode : Z;
  res_TimeUsedMillis : Z;
  res_MemoryUsedKB : Z;
  res_Score : option Z;
  res_TotalScore : option Z;
  res_Stdout : string;
  res_Stderr : string;
  res_CompileError : string
}.

Inductive result_error : Type :=
| ErrResultID
| ErrIdentifiers
| ErrMetrics
| ErrScorePair
| ErrScoreRange
| ErrCompileErrorScore
| ErrFullScoreVerdict
| ErrPartialScoreVerdict
| ErrOutputSize
| ErrUnsupportedStatus
| ErrAcceptedExitCode
| ErrCompileErrorText.

(** The [switch] on an OI score. *)
Definition validateScoreVerdict (status : Status) (score total : Z) : result result_error unit :=
  let fullScore := score =? total in
  if bool_decide (status = StatusCompileError) && negb (score =? 0) then Err ErrCompileErrorScore
  else if bool_decide (status = StatusCompileError) then Ok tt
  else if fullScore && negb (bool_decide (status = StatusAccepted)) then Err ErrFullScoreVerdict
  else if negb fullScore && negb (bool_decide (status = StatusWrongAnswer)) then Err ErrPartialScoreVerdict
  else Ok tt.

Definition known_status (s : Status) : bool :=
  match s with
  | StatusOther _ => false
  | _ => true
  end.

Definition validateResult (r : Result) : result result_error unit :=
  if blank (res_ResultID r) || (128 <? len (res_ResultID r)) then Err ErrResultID
  else if (res_SubmissionID r <=? 0) || (res_AttemptNo r <=? 0) then Err ErrIdentifiers
  else if (res_TimeUsedMillis r <? 0) || (172800000 <? res_TimeUsedMillis r) ||
          (res_MemoryUsedKB r <? 0) || (2147483647 <? res_MemoryUsedKB r) then Err ErrMetrics
  else
    _ ← match res_Score r, res_TotalScore r with
        | None, None => Ok tt
        | Some score, Some total =>
            if (total <=? 0) || (1000000000 <? total) || (score <? 0) || (total <? score)
            then Err ErrScoreRange
            else validateScoreVerdict (res_Status r) score total
        | _, _ => Err ErrScorePair
        end;
    if (65536 <? UTF16Len (res_Stdout r)) || (65536 <? UTF16Len (res_Stderr r)) ||
       (32768 <? UTF16Len (res_CompileError r)) then Err ErrOutputSize
    else if negb (known_status (res_Status r)) then Err ErrUnsupportedStatus
    else if bool_decide (res_Status r = StatusAccepted) && negb (res_ExitCode r =? 0)
    then Err ErrAcceptedExitCode
    else if bool_decide (res_Status r = StatusCompileError) && blank (res_CompileError r)
    then Err ErrCompileErrorText
    else Ok tt.

(** ** [Client.Publish] *)
Inductive Disposition : Type :=
| DispositionApplied
| DispositionDuplicate
| DispositionOther (raw : string).

#[export] Instance Disposition_eq_dec : EqDecision Disposition.
Proof. solve_decision. Defined.

Record envelope : Type := mkEnvelope {
  env_Code : Z;
  env_Success : bool;
  env_Disposition : Disposition
}.

(** What the HTTP client returned: a transport error, or a status code and the
    decoded body ([None] when the body is not the expected JSON). *)
Inductive http_outcome : Type :=
| HttpTransportError
| HttpResponse (code : Z) (body : option envelope).

Inductive publish_error : Type :=
| PublishInvalid (e : result_error)
| PublishTransport
| PublishStatus (code : Z)
| PublishDecode
| PublishEnvelope.

(** An error of [Publish], with the [Permanent] wrapper as a flag. *)
Record publish_failure : Type := mkFailure {
  failure_permanent : bool;
  failure_error : publish_error
}.

Definition isRetryableStatus (status : Z) : bool :=
  (status =? 401) || (status =? 408) || (status =? 425) || (status =? 429).

Definition Publish (r : Result) (outcome : http_outcome) : result publish_failure Disposition :=
  match validateResult r with
  | Err e => Err (mkFailure true (PublishInvalid e))
  | Ok _ =>
      match outcome with
      | HttpTransportError => Err (mkFailure false PublishTransport)
      | HttpResponse code body =>
          if negb (code =? 200) then
            if (400 <=? code) && (code <? 500) && negb (isRetryableStatus code)
            then Err (mkFailure true (PublishStatus code))
            else Err (mkFailure false (PublishStatus code))
          else
            match body with
            | None => Err (mkFailure false PublishDecode)
            | Some e =>
                if negb (env_Code e =? 20000) || negb (env_Success e) ||
                   (negb (bool_decide (env_Disposition e = DispositionApplied)) &&
                    negb (bool_decide (env_Disposition e = DispositionDuplicate)))
                then Err (mkFailure false PublishEnvelope)
                else Ok (env_Disposition e)
            end
      end
  end.

(** [IsPermanent] of the error that [Publish] returned, if any. *)
Definition IsPermanent (r : result publish_failure Disposition) : bool :=
  match r with
  | Ok _ => false
  | Err f => failure_permanent f
  end.

(** ** What the callback contract guarantees *)
Record result_contract (r : Result) : Prop := {
  rc_identity : blank (res_ResultID r) = false ∧ len (res_ResultID r) ≤ 128 ∧
                0 < res_SubmissionID r ∧ 0 < res_AttemptNo r;
  rc_metrics : 0 ≤ res_TimeUsedMillis r ≤ 172800000 ∧ 0 ≤ res_MemoryUsedKB r ≤ 2147483647;
  rc_score : match res_Score r, res_TotalScore r with
             | None, None => True
             | Some s, Some t =>
                 0 < t ≤ 1000000000 ∧ 0 ≤ s ≤ t ∧
                 (res_Status r = StatusCompileError ∧ s = 0 ∨
                  res_Status r ≠ StatusCompileError ∧
                  res_Status r = if decide (s = t) then StatusAccepted else StatusWrongAnswer)
             | _, _ => False
             end;
  rc_text : UTF16Len (res_Stdout r) ≤ 65536 ∧ UTF16Len (res_Stderr r) ≤ 65536 ∧
            UTF16Len (res_CompileError r) ≤ 32768;
  rc_status : known_status (res_Status r) = true ∧
              (res_Status r = StatusAccepted → res_ExitCode r = 0) ∧
              (res_Status r = StatusCompileError → blank (res_CompileError r) = false)
}.

Lemma validateScoreVerdict_ok status score total :
  validateScoreVerdict status score total = Ok tt ↔
  (status = StatusCompileError ∧ score = 0 ∨
   status ≠ StatusCompileError ∧
   status = if decide (score = total) then StatusAccepted else StatusWrongAnswer).
Proof.
  unfold validateScoreVerdict.
  destruct (decide (score = total)) as [->|Hne]; [rewrite Z.eqb_refl|rewrite (proj2 (Z.eqb_neq _ _) Hne)];
    destruct status; simpl; try naive_solver;
    [destruct (Z.eqb_spec total 0)|destruct (Z.eqb_spec score 0)]; naive_solver.
Qed.

Lemma validateResult_sound r : validateResult r = Ok tt → result_contract r.
Proof.
  unfold validateResult. intros H.
  destruct (blank _ || _) eqn:H1; [done|]. destruct (_ || _) eqn:H2 in H; [done|].
  destruct (_ || _ || _ || _) eqn:H3 in H; [done|].
  apply bind_ok in H as ([] & Hs & H).
  destruct (_ || _ || _) eqn:H4 in H; [done|].
  destruct (known_status _) eqn:H5; [|done]. simpl in H.
  destruct (_ && _) eqn:H6 in H; [done|]. destruct (_ && _) eqn:H7 in H; [done|].
  apply andb_false_iff in H6, H7. bool_to_prop.
  split; [split_and!; done || lia|lia| |lia|].
  - destruct (res_Score r), (res_TotalScore r); try done.
    destruct (_ || _ || _ || _) eqn:Hrange in Hs; [done|]. bool_to_prop.
    apply validateScoreVerdict_ok in Hs. split_and!; [lia..|done].
  - split_and!; [done| |].
    + intros E. destruct H6; bool_to_prop; done.
    + intros E. destruct H7; bool_to_prop; done.
Qed.

Lemma validateResult_complete r : result_contract r → validateResult r = Ok tt.
Proof.
  intros [(H1 & H2 & H3 & H4) (H5 & H6) Hs (H7 & H8 & H9) (H10 & H11 & H12)].
  unfold validateResult. rewrite H1, H10. simpl.
  rewrite !(proj2 (Z.ltb_ge _ _)) by lia. rewrite !(proj2 (Z.leb_gt _ _)) by lia. simpl.
  assert (match res_Score r, res_TotalScore r with
      | None, None => Ok tt
      | Some score, Some total =>
          if (total <=? 0) || (1000000000 <? total) || (score <? 0) || (total <? score)
          then Err ErrScoreRange
          else validateScoreVerdict (res_Status r) score total
      | _, _ => Err ErrScorePair
      end = Ok tt) as ->.
  { destruct (res_Score r), (res_TotalScore r); try done. destruct Hs as (? & ? & Hs).
    rewrite !(proj2 (Z.ltb_ge _ _)) by lia. rewrite !(proj2 (Z.leb_gt _ _)) by lia. simpl.
    by apply validateScoreVerdict_ok. }
  simpl. case_bool_decide as E.
  - rewrite H11 by done. simpl. by rewrite E.
  - simpl. case_bool_decide as E2; [by rewrite H12|done].
Qed.

Lemma validateResult_contract r : validateResult r = Ok tt ↔ result_contract r.
Proof. split; [apply validateResult_sound|apply validateResult_complete]. Qed.

(** Publishing fails permanently exactly when the result breaks the
    callback contract or the backend answers a 4xx other than 401, 408, 425 and
    429; every other failure is retried. *)
Lemma Publish_permanent_iff r outcome :
  IsPermanent (Publish r outcome) = true ↔
  ¬ result_contract r ∨
  ∃ code body, outcome = HttpResponse code body ∧ 400 ≤ code < 500 ∧ code ∉ [401; 408; 425; 429].
Proof.
  rewrite <-validateResult_contract. unfold Publish.
  destruct (validateResult r) as [[]|e]; simpl; [|naive_solver].
  destruct outcome as [|code body]; simpl; [naive_solver|].
  assert (Hr : isRetryableStatus code = false ↔ code ∉ [401; 408; 425; 429]).
  { unfold isRetryableStatus. rewrite !orb_false_iff, !Z.eqb_neq, !not_elem_of_cons.
    pose proof (not_elem_of_nil code). tauto. }
  destruct (Z.eqb_spec code 200) as [->|Hne]; simpl.
  - destruct body as [e|]; simpl; [case_match; simpl|]; naive_solver lia.
  - destruct (_ && _ && _) eqn:Hc; simpl.
    + bool_to_prop. split; [|done]. intros _. right. exists code, body. split_and!; try done; try lia. by apply Hr.
    + split; [done|]. intros [H|(c & b & [= <- <-] & H1 & H2)]; [done|].
      apply Hr in H2. rewrite H2 in Hc. simpl in Hc. rewrite andb_true_r in Hc.
      apply andb_false_iff in Hc as [?%Z.leb_gt|?%Z.ltb_ge]; lia.
Qed.

(** Publishing succeeds exactly when the backend acknowledges the result. *)
Lemma Publish_ok_iff r outcome d :
  Publish r outcome = Ok d ↔
  result_contract r ∧ ∃ e, outcome = HttpResponse 200 (Some e) ∧ env_Code e = 20000 ∧ env_Success e = true ∧
    env_Disposition e = d ∧ (d = DispositionApplied ∨ d = DispositionDuplicate).
Proof.
  rewrite <-validateResult_contract. unfold Publish.
  destruct (validateResult r) as [[]|e]; simpl; [|naive_solver].
  destruct outcome as [|code body]; simpl; [naive_solver|].
  destruct (Z.eqb_spec code 200) as [->|Hne]; simpl; [|destruct (_ && _ && _); naive_solver].
  destruct body as [e|]; simpl; [|naive_solver].
  destruct (Z.eqb_spec (env_Code e) 20000); simpl; [|naive_solver].
  destruct (env_Success e) eqn:Hs; simpl; [|split; [done|]; intros (_ & e' & [= <-] & _ & ? & _); congruence].
  split.
  - destruct (env_Disposition e) eqn:Hd; simpl; rewrite ?bool_decide_eq_true_2, ?bool_decide_eq_false_2 by done; [| |done];
      intros [= <-]; (split; [done|]; exists e; split_and!; auto).
  - intros (_ & e' & [= <-] & _ & _ & -> & [->| ->]); done.
Qed.
