(* ===== verification/Sandbox.v ===== *)
(** * Sandbox protocol and output comparison

    The messages of the [ExecuteBatchV1] RPC as far as the judging server reads
    them, the status mapping and bounded conversions of
    [internal/service/execution_pipeline.go], and the output comparison of
    [internal/service/bundle_pipeline.go]. *)
From stdpp Require Import prelude gmap strings.
From S2P Require Import Prelude.
From S2P Require Import GoText.
From S2P Require Import Manifest.
From S2P Require Import Callback.

Open Scope Z_scope.

(** ** Messages *)
Record BatchCase : Type := mkBatchCase {
  bc_CaseId : string;
  bc_Stdin : string;
  bc_ExpectedOutput : string;
  bc_CompareOutput : bool;
  bc_TokenExpectedSha256 : string
}.

Record BatchRequest : Type := mkBatchRequest {
  br_Language : string;
  br_SourceCode : string;
  br_Timeout : Z;
  br_MemoryLimit : Z;
  br_StopOnFailure : bool;
  br_Cases : list BatchCase
}.

Record ExecuteResponse : Type := mkExecuteResponse {
  er_Status : string;
  er_ExitCode : Z;
  er_Stdout : string;
  er_TimeUsed : Z;
  er_MemoryUsed : Z
}.

Inductive EventKind : Type :=
| KIND_UNSPECIFIED
| CASE_RESULT
| COMPILE_ERROR
| COMPLETED
| KIND_OTHER (value : Z).

#[export] Instance EventKind_eq_dec : EqDecision EventKind.
Proof. solve_decision. Defined.

Record BatchEvent : Type := mkBatchEvent {
  ev_Kind : EventKind;
  ev_CaseId : string;
  ev_Result : option ExecuteResponse
}.

(** ** Status mapping and bounded conversions *)
Definition mapCallbackStatus (status : string) : Status :=
  if bool_decide (status = "Accepted") then StatusAccepted
  else if bool_decide (status = "Compile Error") then StatusCompileError
  else if bool_decide (status = "Wrong Answer") then StatusWrongAnswer
  else if bool_decide (status = "Time Limit Exceeded") then StatusTimeLimitExceeded
  else if bool_decide (status = "Memory Limit Exceeded") then StatusMemoryLimitExceeded
  else if bool_decide (status = "Runtime Error") then StatusRuntimeError
  else if bool_decide (status = "Output Limit Exceeded") then StatusOutputLimitExceeded
  else StatusSystemError.

Definition mapBundleStatus (value : string) : Status := mapCallbackStatus value.

Definition known_statuses : list string :=
  ["Accepted"; "Compile Error"; "Wrong Answer"; "Time Limit Exceeded"; "Memory Limit Exceeded";
   "Runtime Error"; "Output Limit Exceeded"].

Definition isKnownContestantStatus (value : string) : bool := bool_decide (value ∈ known_statuses).

Definition timeoutSeconds (milliseconds : Z) : Z :=
  if milliseconds <=? 0 then 1
  else
    let seconds := (milliseconds + 999) / 1000 in
    if max_int32 <? seconds then max_int32 else seconds.

Definition boundedInt32 (value : Z) : Z :=
  if value <=? 0 then 1
  else if max_int32 <? value then max_int32
  else value.

Definition boundedMetric (value maximum : Z) : Z :=
  if value <=? 0 then 0
  else if maximum <? value then maximum
  else value.

Lemma boundedMetric_range value maximum : 0 ≤ maximum → 0 ≤ boundedMetric value maximum ≤ maximum.
Proof. intros. unfold boundedMetric. repeat case_match; bool_to_prop; lia. Qed.

Lemma timeoutSeconds_covers ms :
  0 < ms ≤ maxExecutionMillis → ms ≤ 1000 * timeoutSeconds ms < ms + 1000.
Proof.
  unfold timeoutSeconds, maxExecutionMillis. intros H. destruct (Z.leb_spec ms 0); [lia|].
  pose proof (Z.div_mod (ms + 999) 1000). pose proof (Z.mod_pos_bound (ms + 999) 1000).
  destruct (Z.ltb_spec max_int32 ((ms + 999) / 1000)) as [Hbig|]; [unfold max_int32 in Hbig|]; lia.
Qed.

Lemma mapCallbackStatus_known s :
  isKnownContestantStatus s = true → mapCallbackStatus s ≠ StatusSystemError ∧
    known_status (mapCallbackStatus s) = true.
Proof.
  unfold isKnownContestantStatus, known_statuses. rewrite bool_decide_eq_true.
  intros H. repeat (apply elem_of_cons in H as [->|H]; [done|]). by apply elem_of_nil in H.
Qed.

Lemma mapCallbackStatus_accepted s : mapCallbackStatus s = StatusAccepted ↔ s = "Accepted".
Proof.
  unfold mapCallbackStatus. split; [|by intros ->].
  repeat case_bool_decide; done.
Qed.

Lemma mapCallbackStatus_compile s : mapCallbackStatus s = StatusCompileError ↔ s = "Compile Error".
Proof.
  unfold mapCallbackStatus. split; [|by intros ->].
  repeat case_bool_decide; done.
Qed.

(** ** Output comparison *)

(** [strings.ReplaceAll(strings.ReplaceAll(v, "\r\n", "\n"), "\r", "\n")]: the
    first pass replaces non-overlapping pairs from the left, the second every
    remaining carriage return. *)
Definition cr : Ascii.ascii := ascii_of_byte 13.
Definition lf : Ascii.ascii := ascii_of_byte 10.

Fixpoint replace_crlf (s : string) : string :=
  match s with
  | "" => ""
  | String a s' =>
      if bool_decide (a = cr) then
        match s' with
        | String b s'' => if bool_decide (b = lf) then String lf (replace_crlf s'') else String a (replace_crlf s')
        | "" => String a (replace_crlf s')
        end
      else String a (replace_crlf s')
  end.

Fixpoint replace_cr (s : string) : string :=
  match s with
  | "" => ""
  | String a s => String (if bool_decide (a = cr) then lf else a) (replace_cr s)
  end.

(** [strings.Split(s, "\n")] and [strings.Join(ls, "\n")]. *)
Fixpoint split_lines (s : string) : list string :=
  match s with
  | "" => [""]
  | String a s =>
      if bool_decide (a = lf) then "" :: split_lines s
      else
        match split_lines s with
        | c :: cs => String a c :: cs
        | [] => [String a ""]
        end
  end.

Fixpoint join_with (sep : string) (cs : list string) : string :=
  match cs with
  | [] => ""
  | [c] => c
  | c :: cs => c +:+ sep +:+ join_with sep cs
  end.

Definition normalizeExactOutput (value : string) : string :=
  trim_space (join_with (String lf "") (map trim_space (split_lines (replace_cr (replace_crlf value))))).

(** The token comparison: equal counts, then token by token. *)
Fixpoint tokens_pairwise (actual expected : list string) : bool :=
  match actual, expected with
  | a :: actual, e :: expected => if bool_decide (a = e) then tokens_pairwise actual expected else false
  | _, _ => true
  end.

Definition tokens_match (actual expected : list string) : bool :=
  if bool_decide (length actual = length expected) then tokens_pairwise actual expected else false.

Lemma tokens_match_eq actual expected : tokens_match actual expected = true ↔ actual = expected.
Proof.
  unfold tokens_match. case_bool_decide as Hl; [|naive_solver].
  revert expected Hl. induction actual as [|a actual IH]; intros [|e expected] Hl; simpl in *; try done.
  case_bool_decide; [rewrite IH by lia; naive_solver|naive_solver].
Qed.

Definition outputsMatch (checker : Checker) (actual expected : string) : bool :=
  if bool_decide (checker = CheckerToken) then tokens_match (fields actual) (fields expected)
  else bool_decide (normalizeExactOutput actual = normalizeExactOutput expected).

(** ** Token digests *)

(** The bytes [tokenOutputSHA256] feeds to the hash: each token preceded by its
    length as a 64-bit big-endian integer. *)
Fixpoint token_frame (tokens : list string) : string :=
  match tokens with
  | [] => ""
  | t :: tokens => big_endian 8 (len t) +:+ t +:+ token_frame tokens
  end.

(** A Go string is shorter than the address space. *)
Definition machine_sized (s : string) : Prop := len s < 18446744073709551616.

(** The framing is injective: no two token lists feed the same bytes to the hash. *)
Lemma token_frame_inj ts1 ts2 :
  Forall machine_sized ts1 → Forall machine_sized ts2 →
  token_frame ts1 = token_frame ts2 → ts1 = ts2.
Proof.
  intros H1. revert ts2. induction H1 as [|t1 ts1 Ht1 Hts1 IH]; intros ts2 H2 Heq.
  - by destruct ts2.
  - destruct ts2 as [|t2 ts2]; [done|].
    apply Forall_cons in H2 as [Ht2 Hts2]. cbn [token_frame] in Heq.
    apply append_inj in Heq as [Hlen Heq]; [|by rewrite !big_endian_length].
    apply big_endian_inj in Hlen; [|split; [apply len_nonneg|done]..].
    apply append_inj in Heq as [-> Heq]; [|unfold len in Hlen; lia].
    f_equal. by apply IH.
Qed.
