(* ===== verification/BatchPipeline.v ===== *)
(** * Canonical batch execution, [internal/service/bundle_batch_pipeline.go]

    One submission is executed as a single [ExecuteBatchV1] request: the request
    is built from the verified manifest under byte budgets, sent to a sandbox
    with bounded retries on other endpoints, the event stream is validated, and
    the verdict, metrics and OI score are aggregated; a special checker runs as
    a second batch. *)
From stdpp Require Import prelude gmap strings.
From S2P Require Import Prelude.
From S2P Require Import GoText.
From S2P Require Import Manifest.
From S2P Require Import Scheduler.
From S2P Require Import Callback.
From S2P Require Import Sandbox.

Open Scope Z_scope.

Definition maxSandboxBatchCasesV1 : Z := 256.
Definition maxSandboxBatchRequestBytesV1 : Z := 67108864.
Definition maxSpecialJudgeProtocolBytesV1 : Z := 4194304.
Definition maxSpecialJudgeResultBytesV1 : Z := 65536.

Record BatchBundlePipeline : Type := mkPipeline {
  maxInfraAttempts : Z;
  maxRequestBytes : Z;
  maxExpectedCheckBytes : Z
}.

Definition NewBatchBundlePipeline (maxInfra : Z) : BatchBundlePipeline :=
  {| maxInfraAttempts := if maxInfra <=? 0 then 3 else maxInfra;
     maxRequestBytes := maxSandboxBatchRequestBytesV1;
     maxExpectedCheckBytes := maxSandboxBatchRequestBytesV1 |}.

Definition maxBatchRequestBytes (p : BatchBundlePipeline) : Z :=
  if 0 <? maxRequestBytes p then maxRequestBytes p else maxSandboxBatchRequestBytesV1.

Record CanonicalExecutionRequest : Type := mkCanonicalRequest {
  cr_Language : string;
  cr_SourceCode : string;
  cr_StopOnFailure : bool
}.

Record CanonicalCaseResult : Type := mkCanonicalCase {
  cc_CaseID : string;
  cc_Status : Status;
  cc_TimeUsedMillis : Z;
  cc_MemoryUsedKB : Z;
  cc_Score : option Z;
  cc_MaxScore : option Z
}.

Record CanonicalResult : Type := mkCanonicalResult {
  can_Status : Status;
  can_ExitCode : Z;
  can_TimeUsedMillis : Z;
  can_MemoryUsedKB : Z;
  can_Stderr : string;
  can_CompileError : string;
  can_Score : option Z;
  can_TotalScore : option Z;
  can_Cases : list CanonicalCaseResult
}.

Definition CallbackResult (r : CanonicalResult) : Result :=
  {| res_ResultID := ""; res_SubmissionID := 0; res_AttemptNo := 0;
     res_Status := can_Status r; res_ExitCode := can_ExitCode r;
     res_TimeUsedMillis := can_TimeUsedMillis r; res_MemoryUsedKB := can_MemoryUsedKB r;
     res_Score := can_Score r; res_TotalScore := can_TotalScore r;
     res_Stdout := ""; res_Stderr := can_Stderr r; res_CompileError := can_CompileError r |}.

(** The errors of canonical execution. [ErrTenantCheckerFailure] wraps
    [ErrCanonicalInfrastructure] in the source; [is_infrastructure] says so. *)
Inductive grpc_code : Type :=
| CodeUnavailable
| CodeResourceExhausted
| CodeOther (code : Z).

Inductive exec_error : Type :=
| ErrRequestRequired
| ErrCanonicalInfrastructure
| ErrTenantCheckerFailure
| ErrSelectSandbox (e : selector_error)
| ErrAttemptsExhausted (code : grpc_code)
| ErrSandboxRPC (code : grpc_code).

Definition is_infrastructure (e : exec_error) : bool :=
  match e with
  | ErrCanonicalInfrastructure | ErrTenantCheckerFailure => true
  | _ => false
  end.

(** An RPC either returns its events (a nil message is [None]), reports a stream
    that the client guard refused, or fails with a gRPC code. *)
Inductive rpc_error : Type :=
| RpcInvalidBatchStream
| RpcCode (code : grpc_code).

Definition retryable (code : grpc_code) : bool :=
  match code with
  | CodeUnavailable | CodeResourceExhausted => true
  | CodeOther _ => false
  end.

(** ** Validation of the event stream *)

(** The loop of [validateBatchEvents]. [ids] are the case identifiers of the
    request not reported yet, [started] says whether a case was reported and
    [lastStatus] is then the status of the preceding event. *)
Fixpoint validateEventLoop (stopOnFailure started : bool) (lastStatus : string)
    (ids : list string) (events : list (option BatchEvent)) {struct events} : bool :=
  match events with
  | [] => false
  | None :: _ => false
  | Some event :: rest =>
      match ev_Kind event with
      | CASE_RESULT =>
          if stopOnFailure && started && negb (bool_decide (lastStatus = "Accepted")) then false
          else
            match ids, ev_Result event with
            | id :: ids, Some r =>
                if bool_decide (ev_CaseId event = id) && isKnownContestantStatus (er_Status r)
                then validateEventLoop stopOnFailure true (er_Status r) ids rest
                else false
            | _, _ => false
            end
      | COMPLETED =>
          match rest, ev_Result event with
          | [], None =>
              bool_decide (ev_CaseId event = "") && started &&
              negb (negb (bool_decide (ids = [])) &&
                    (negb stopOnFailure || bool_decide (lastStatus = "Accepted")))
          | _, _ => false
          end
      | _ => false
      end
  end.

Definition validateBatchEvents (request : BatchRequest) (events : list (option BatchEvent)) : bool :=
  match events with
  | [] => false
  | [Some e] =>
      if bool_decide (ev_Kind e = COMPILE_ERROR) then
        match ev_Result e with
        | Some r => bool_decide (ev_CaseId e = "") && bool_decide (er_Status r = "Compile Error")
        | None => false
        end
      else validateEventLoop (br_StopOnFailure request) false "" (bc_CaseId <$> br_Cases request) events
  | _ => validateEventLoop (br_StopOnFailure request) false "" (bc_CaseId <$> br_Cases request) events
  end.

(** ** Aggregation *)
Definition timeCap : Z := 86400000.
Definition memoryCap : Z := 2147483647.

Definition case_summary (id sandboxStatus : string) (status : Status) : string :=
  "case=" +:+ id +:+ " sandboxStatus=" +:+ sandboxStatus +:+ " status=" +:+ status_string status.

Section Hash.
(** [hex.EncodeToString(sha256.Sum256(data))]. *)
Context (sha256_hex : string → string).

Definition tokenOutputSHA256 (output : string) : string := sha256_hex (token_frame (fields output)).

Definition outputMatchesExpectedCheck (checker : Checker) (actual expectedCheck : string) : bool :=
  if bool_decide (checker = CheckerToken) then bool_decide (tokenOutputSHA256 actual = expectedCheck)
  else outputsMatch checker actual expectedCheck.

(** The status of one reported case after the local re-check of its output. *)
Definition case_status (checker : Checker) (r : ExecuteResponse) (expectedCheck : string) : Status :=
  if bool_decide (er_Status r = "Accepted") && negb (bool_decide (checker = CheckerSpecial)) &&
     negb (outputMatchesExpectedCheck checker (er_Stdout r) expectedCheck)
  then StatusWrongAnswer
  else mapBundleStatus (er_Status r).

(** The body of the aggregation loop for one event. *)
Definition aggregate_step (checker : Checker) (acc : CanonicalResult * list string)
    (item : string * ExecuteResponse * string) : CanonicalResult * list string :=
  let '(result, summaries) := acc in
  let '(id, r, expectedCheck) := item in
  let caseStatus := case_status checker r expectedCheck in
  let time := boundedMetric (er_TimeUsed r) timeCap in
  let memory := boundedMetric (er_MemoryUsed r) memoryCap in
  let first := bool_decide (can_Status result = StatusAccepted) &&
               negb (bool_decide (caseStatus = StatusAccepted)) in
  let summaries := summaries ++ [case_summary id (er_Status r) caseStatus] in
  ({| can_Status := if first then caseStatus else can_Status result;
      can_ExitCode := if first then er_ExitCode r else can_ExitCode result;
      can_TimeUsedMillis := Z.max (can_TimeUsedMillis result) time;
      can_MemoryUsedKB := Z.max (can_MemoryUsedKB result) memory;
      can_Stderr := TruncateUTF16 (join_with ";" summaries) 65536;
      can_CompileError := if bool_decide (caseStatus = StatusCompileError)
                          then "compilation failed; diagnostics redacted"
                          else can_CompileError result;
      can_Score := can_Score result; can_TotalScore := can_TotalScore result;
      can_Cases := can_Cases result ++ [mkCanonicalCase id caseStatus time memory None None] |},
   summaries).

Definition empty_result (status : Status) : CanonicalResult :=
  {| can_Status := status; can_ExitCode := 0; can_TimeUsedMillis := 0; can_MemoryUsedKB := 0;
     can_Stderr := ""; can_CompileError := ""; can_Score := None; can_TotalScore := None; can_Cases := [] |}.

Definition compile_error_result : CanonicalResult :=
  {| can_Status := StatusCompileError; can_ExitCode := 0; can_TimeUsedMillis := 0; can_MemoryUsedKB := 0;
     can_Stderr := "compilation failed"; can_CompileError := "compilation failed; diagnostics redacted";
     can_Score := None; can_TotalScore := None; can_Cases := [] |}.

(** The reported cases of a validated stream: every event but the final one. *)
Fixpoint reported (events : list (option BatchEvent)) : list (string * ExecuteResponse) :=
  match events with
  | Some e :: events =>
      match events, ev_Result e with
      | [], _ => []
      | _, Some r => (ev_CaseId e, r) :: reported events
      | _, None => reported events
      end
  | None :: events => reported events
  | [] => []
  end.

Definition is_compile_error (events : list (option BatchEvent)) : bool :=
  match events with
  | Some e :: _ => bool_decide (ev_Kind e = COMPILE_ERROR)
  | _ => false
  end.

Definition aggregate_cases (checker : Checker) (expectedChecks : list string)
    (cases : list (string * ExecuteResponse)) : CanonicalResult :=
  let '(result, _) :=
    foldl (aggregate_step checker) (empty_result StatusAccepted, [])
      (zip_with (λ c e, (c.1, c.2, e)) cases expectedChecks) in
  {| can_Status := can_Status result;
     can_ExitCode := if bool_decide (can_Status result = StatusAccepted) then 0 else can_ExitCode result;
     can_TimeUsedMillis := can_TimeUsedMillis result; can_MemoryUsedKB := can_MemoryUsedKB result;
     can_Stderr := can_Stderr result; can_CompileError := can_CompileError result;
     can_Score := can_Score result; can_TotalScore := can_TotalScore result;
     can_Cases := can_Cases result |}.

Definition aggregateBatchResult (m : Manifest) (expectedChecks : list string)
    (events : list (option BatchEvent)) : CanonicalResult * list string :=
  if is_compile_error events then (compile_error_result, [])
  else
    let cases := reported events in
    (aggregate_cases (m_Checker m) expectedChecks cases, (λ c, er_Stdout c.2) <$> cases).
End Hash.

(** ** Scoring *)
Definition recompute_summary (c : CanonicalCaseResult) : string :=
  "case=" +:+ cc_CaseID c +:+ " status=" +:+ status_string (cc_Status c).

Definition first_failure (cases : list CanonicalCaseResult) : Status :=
  foldl (λ s c, if bool_decide (s = StatusAccepted) && negb (bool_decide (cc_Status c = StatusAccepted))
                then cc_Status c else s) StatusAccepted cases.

Definition recomputeCanonicalVerdict (r : CanonicalResult) : CanonicalResult :=
  {| can_Status := first_failure (can_Cases r);
     can_ExitCode := 0;
     can_TimeUsedMillis := foldl (λ t c, Z.max t (cc_TimeUsedMillis c)) 0 (can_Cases r);
     can_MemoryUsedKB := foldl (λ t c, Z.max t (cc_MemoryUsedKB c)) 0 (can_Cases r);
     can_Stderr := TruncateUTF16 (join_with ";" (recompute_summary <$> can_Cases r)) 65536;
     can_CompileError := can_CompileError r; can_Score := can_Score r;
     can_TotalScore := can_TotalScore r; can_Cases := can_Cases r |}.

Definition score_case (c : CanonicalCaseResult) (weight : Z) : CanonicalCaseResult :=
  {| cc_CaseID := cc_CaseID c; cc_Status := cc_Status c; cc_TimeUsedMillis := cc_TimeUsedMillis c;
     cc_MemoryUsedKB := cc_MemoryUsedKB c;
     cc_Score := Some (if bool_decide (cc_Status c = StatusAccepted) then weight else 0);
     cc_MaxScore := Some weight |}.

Definition case_points (c : CanonicalCaseResult) : Z := default 0 (cc_Score c).

Definition applyManifestScoring (m : Manifest) (r : CanonicalResult) : CanonicalResult :=
  match m_JudgeMode m, m_TotalScore m with
  | JudgeModeOI, Some total =>
      let cases := zip_with (λ c mc, score_case c (case_Weight mc)) (can_Cases r) (m_Cases m) in
      let score := sumZ case_points cases in
      let compileError := bool_decide (can_Status r = StatusCompileError) in
      {| can_Status := if compileError then can_Status r
                       else if score =? total then StatusAccepted else StatusWrongAnswer;
         can_ExitCode := if negb compileError && (score =? total) then 0 else can_ExitCode r;
         can_TimeUsedMillis := can_TimeUsedMillis r; can_MemoryUsedKB := can_MemoryUsedKB r;
         can_Stderr := can_Stderr r; can_CompileError := can_CompileError r;
         can_Score := Some score; can_TotalScore := Some total; can_Cases := cases |}
  | _, _ => r
  end.

(** ** The special judge ABI *)

(** The cost [consumeJSONStringBudget] charges for one rune. *)
Definition json_cost (r : Z * string) : Z :=
  let c := r.1 in
  if (c =? 34) || (c =? 92) || (c =? 8) || (c =? 12) || (c =? 10) || (c =? 13) || (c =? 9) then 2
  else if (c <? 32) || (c =? 60) || (c =? 62) || (c =? 38) then 6
  else if c <? 128 then 1
  else if (c =? 8232) || (c =? 8233) then 6
  else len r.2.

Fixpoint budget_loop (rs : list (Z * string)) (remaining : Z) : option Z :=
  match rs with
  | [] => Some remaining
  | r :: rs => if remaining <? json_cost r then None else budget_loop rs (remaining - json_cost r)
  end.

Definition consumeJSONStringBudget (value : string) (remaining : Z) : option Z :=
  if (remaining <? 0) || negb (valid_string value) then None else budget_loop (runes value) remaining.

Fixpoint consume_all (values : list string) (remaining : Z) : option Z :=
  match values with
  | [] => Some remaining
  | v :: values =>
      match consumeJSONStringBudget v remaining with
      | None => None
      | Some remaining => consume_all values remaining
      end
  end.

Definition specialJudgePayloadWithinPreEncodeLimit (caseID input expected actual : string) : bool :=
  is_some (consume_all [caseID; input; expected; actual] (maxSpecialJudgeProtocolBytesV1 - 256)).

(** [json.Marshal(specialJudgeInputV1{...})]. *)
Definition json_key (name : string) : string := quote +:+ name +:+ quote +:+ ":".

Definition specialJudgeInput (caseID input expected actual : string) : string :=
  "{" +:+ json_key "schemaVersion" +:+ "1," +:+
  json_key "caseId" +:+ json_string caseID +:+ "," +:+
  json_key "input" +:+ json_string input +:+ "," +:+
  json_key "expectedOutput" +:+ json_string expected +:+ "," +:+
  json_key "actualOutput" +:+ json_string actual +:+ "}".

(** The decoded checker verdict: [specialJudgeOutputV1]. *)
Record specialJudgeOutput : Type := mkCheckerOutput {
  so_SchemaVersion : Z;
  so_Accepted : option bool;
  so_Message : string
}.

Section Checker.
(** Strict decoding by [encoding/json] of exactly one document. *)
Context (json_checker_output : string → option specialJudgeOutput).

Definition parseSpecialJudgeOutput (data : string) : option bool :=
  if (len data =? 0) || (maxSpecialJudgeResultBytesV1 <? len data) || negb (valid_string data) then None
  else
    match json_checker_output data with
    | None => None
    | Some output =>
        if negb (so_SchemaVersion output =? 1) || (1024 <? UTF16Len (so_Message output)) then None
        else so_Accepted output
    end.
End Checker.

(** ** Execution *)

(** A test artifact: its manifest, the reader of a case, and the special judge
    reader when the concrete type has one. *)
Record CaseArtifact : Type := mkArtifact {
  art_Manifest : Manifest;
  art_ReadCase : Case → option (string * string);
  art_ReadSpecialJudge : option (option string)
}.

(** The mutable surroundings of a pipeline: the selector and the calls made so
    far, oldest first. *)
Record exec_env (S : Type) : Type := mkEnv {
  env_selector : S;
  env_calls : list (string * BatchRequest)
}.
Arguments mkEnv {S} _ _.
Arguments env_selector {S} _.
Arguments env_calls {S} _.

Section Execute.
Context {S : Type} `{SandboxSelector S}.
(** The sandbox fleet: what the next call to an address returns may depend on
    the calls made before. *)
Context (rpc : list (string * BatchRequest) → string → BatchRequest →
               result rpc_error (list (option BatchEvent))).
(** [proto.Size] of a message and the protobuf framing sizes. *)
Context (request_size : BatchRequest → Z) (case_size : BatchCase → Z)
        (size_tag : Z → Z) (size_varint : Z → Z).
Context (sha256_hex : string → string).
Context (json_checker_output : string → option specialJudgeOutput).

Definition batchCaseWireBytes (c : BatchCase) : Z :=
  let caseBytes := case_size c in
  size_tag 6 + size_varint caseBytes + caseBytes.

Definition selectUntriedSandbox (s : S) (attempted : gset string) : result selector_error string * S :=
  match sel_excluding with
  | Some sel => sel s attempted
  | None =>
      match sel_select s with
      | (Err e, s) => (Err e, s)
      | (Ok address, s) =>
          if bool_decide (address ∈ attempted) then (Err ErrAlreadyAttempted, s) else (Ok address, s)
      end
  end.

(** The retry loop of [executeBatch] with [fuel] attempts left. [Ok None] is the
    invalid-response outcome. *)
Fixpoint execute_loop (fuel : nat) (lastRetryable : option grpc_code) (attempted : gset string)
    (request : BatchRequest) (env : exec_env S) :
    result exec_error (option (list (option BatchEvent))) * exec_env S :=
  match fuel with
  | O =>
      match lastRetryable with
      | Some code => (Err (ErrAttemptsExhausted code), env)
      | None => (Ok None, env)
      end
  | Datatypes.S fuel =>
      match selectUntriedSandbox (env_selector env) attempted with
      | (Err e, s) =>
          let env := mkEnv s (env_calls env) in
          match lastRetryable with
          | Some code => (Err (ErrAttemptsExhausted code), env)
          | None => (Err (ErrSelectSandbox e), env)
          end
      | (Ok address, s) =>
          let outcome := rpc (env_calls env) address request in
          let env := mkEnv s (env_calls env ++ [(address, request)]) in
          match outcome with
          | Err RpcInvalidBatchStream => (Ok None, env)
          | Err (RpcCode code) =>
              if retryable code then execute_loop fuel (Some code) ({[address]} ∪ attempted) request env
              else (Err (ErrSandboxRPC code), env)
          | Ok events =>
              if validateBatchEvents request events then (Ok (Some events), env) else (Ok None, env)
          end
      end
  end.

Definition executeBatch (p : BatchBundlePipeline) (request : BatchRequest) (env : exec_env S) :
    result exec_error (option (list (option BatchEvent))) * exec_env S :=
  execute_loop (Z.to_nat (maxInfraAttempts p)) None ∅ request env.

(** What is sent to the sandbox for one case, and what is retained to re-check it:
    ([ExpectedOutput], [TokenExpectedSha256], [expectedCheck]). *)
Definition expected_fields (checker : Checker) (expected : string) : option (string * string * string) :=
  match checker with
  | CheckerExact => Some (expected, "", expected)
  | CheckerToken =>
      let digest := tokenOutputSHA256 sha256_hex expected in Some ("", digest, digest)
  | CheckerSpecial => Some ("", "", expected)
  | CheckerOther _ => None
  end.

(** The loop that reads the cases and fills the request under both budgets. *)
Fixpoint build_cases (artifact : CaseArtifact) (checker : Checker) (maxReq maxExpected : Z)
    (requestBytes retained : Z) (cases : list Case) :
    result exec_error (list BatchCase * list string) :=
  match cases with
  | [] => Ok ([], [])
  | testCase :: cases =>
      match art_ReadCase artifact testCase with
      | None => Err ErrCanonicalInfrastructure
      | Some (input, expected) =>
          match expected_fields checker expected with
          | None => Err ErrCanonicalInfrastructure
          | Some (expectedForSandbox, digest, expectedCheck) =>
              let retained := retained + len expectedCheck in
              if maxExpected <? retained then Err ErrCanonicalInfrastructure
              else
                let requestCase := mkBatchCase (case_ID testCase) input expectedForSandbox
                                     (bool_decide (checker = CheckerExact)) digest in
                let requestBytes := requestBytes + batchCaseWireBytes requestCase in
                if maxReq <? requestBytes then Err ErrCanonicalInfrastructure
                else
                  '(cs, checks) ← build_cases artifact checker maxReq maxExpected requestBytes retained cases;
                  Ok (requestCase :: cs, expectedCheck :: checks)
          end
      end
  end.

(** The loop of [applySpecialJudge] that encodes one checker case per accepted
    case; the second component gives the index of the case it belongs to. *)
Fixpoint checker_cases (p : BatchBundlePipeline) (requestBytes : Z) (index : nat)
    (items : list (CanonicalCaseResult * string * string * string)) :
    result exec_error (list BatchCase * list nat) :=
  match items with
  | [] => Ok ([], [])
  | (item, stdin, expected, actual) :: items =>
      if negb (bool_decide (cc_Status item = StatusAccepted)) then
        checker_cases p requestBytes (Datatypes.S index) items
      else if negb (specialJudgePayloadWithinPreEncodeLimit (cc_CaseID item) stdin expected actual)
      then Err ErrTenantCheckerFailure
      else
        let payload := specialJudgeInput (cc_CaseID item) stdin expected actual in
        if maxSpecialJudgeProtocolBytesV1 <? len payload then Err ErrTenantCheckerFailure
        else
          let requestCase := mkBatchCase (cc_CaseID item) payload "" false "" in
          let requestBytes := requestBytes + batchCaseWireBytes requestCase in
          if maxBatchRequestBytes p <? requestBytes then Err ErrTenantCheckerFailure
          else
            '(cs, indexes) ← checker_cases p requestBytes (Datatypes.S index) items;
            Ok (requestCase :: cs, index :: indexes)
  end.

(** One checker verdict applied to its case. *)
Definition apply_verdict (c : CanonicalCaseResult) (r : ExecuteResponse) (accepted : bool) : CanonicalCaseResult :=
  {| cc_CaseID := cc_CaseID c;
     cc_Status := if accepted then StatusAccepted else StatusWrongAnswer;
     cc_TimeUsedMillis := cc_TimeUsedMillis c + boundedMetric (er_TimeUsed r) timeCap;
     cc_MemoryUsedKB := Z.max (cc_MemoryUsedKB c) (boundedMetric (er_MemoryUsed r) memoryCap);
     cc_Score := cc_Score c; cc_MaxScore := cc_MaxScore c |}.

(** The loop over the checker events. A nil event or a missing index would panic;
    neither occurs on a validated stream of one event per checker case. *)
Fixpoint apply_verdicts (events : list (option BatchEvent)) (indexes : list nat)
    (cases : list CanonicalCaseResult) : result exec_error (list CanonicalCaseResult) :=
  match events, indexes with
  | [], _ => Ok cases
  | Some e :: events, index :: indexes =>
      match ev_Result e with
      | None => Err ErrCanonicalInfrastructure
      | Some r =>
          if negb (bool_decide (er_Status r = "Accepted")) then Err ErrTenantCheckerFailure
          else
            match parseSpecialJudgeOutput json_checker_output (er_Stdout r) with
            | None => Err ErrTenantCheckerFailure
            | Some accepted =>
                apply_verdicts events indexes (alter (λ c, apply_verdict c r accepted) index cases)
            end
      end
  | _, _ => Err ErrCanonicalInfrastructure
  end.

Definition with_cases (r : CanonicalResult) (cases : list CanonicalCaseResult) : CanonicalResult :=
  {| can_Status := can_Status r; can_ExitCode := can_ExitCode r;
     can_TimeUsedMillis := can_TimeUsedMillis r; can_MemoryUsedKB := can_MemoryUsedKB r;
     can_Stderr := can_Stderr r; can_CompileError := can_CompileError r; can_Score := can_Score r;
     can_TotalScore := can_TotalScore r; can_Cases := cases |}.

Definition applySpecialJudge (p : BatchBundlePipeline) (m : Manifest) (artifact : CaseArtifact)
    (contestant : BatchRequest) (expectedOutputs actualOutputs : list string)
    (res : CanonicalResult) (env : exec_env S) :
    result exec_error CanonicalResult * exec_env S :=
  match art_ReadSpecialJudge artifact, m_SpecialJudge m with
  | Some special, Some sj =>
      if negb (bool_decide (length (can_Cases res) = length (m_Cases m))) ||
         negb (bool_decide (length (br_Cases contestant) = length (m_Cases m))) ||
         negb (bool_decide (length expectedOutputs = length (m_Cases m))) ||
         negb (bool_decide (length actualOutputs = length (m_Cases m)))
      then (Err ErrCanonicalInfrastructure, env)
      else
        match special with
        | None => (Err ErrCanonicalInfrastructure, env)
        | Some source =>
            if bool_decide (source = "") then (Err ErrCanonicalInfrastructure, env)
            else
              let header cs := mkBatchRequest (sj_Language sj) source (timeoutSeconds (sj_TimeLimitMillis sj))
                                 (boundedInt32 (sj_MemoryLimitMiB sj)) false cs in
              let items := zip (zip (zip (can_Cases res) (bc_Stdin <$> br_Cases contestant))
                                    expectedOutputs) actualOutputs in
              match checker_cases p (request_size (header [])) 0 items with
              | Err e => (Err e, env)
              | Ok ([], _) => (Ok (recomputeCanonicalVerdict res), env)
              | Ok (cs, indexes) =>
                  match executeBatch p (header cs) env with
                  | (Err e, env) => (Err e, env)
                  | (Ok None, env) => (Err ErrCanonicalInfrastructure, env)
                  | (Ok (Some events), env) =>
                      if negb (bool_decide (length events = length cs + 1)%nat)
                      then (Err ErrCanonicalInfrastructure, env)
                      else if is_compile_error events then (Err ErrTenantCheckerFailure, env)
                      else
                        match apply_verdicts (take (length cs) events) indexes (can_Cases res) with
                        | Err e => (Err e, env)
                        | Ok cases => (Ok (recomputeCanonicalVerdict (with_cases res cases)), env)
                        end
                  end
              end
        end
  | _, _ => (Err ErrCanonicalInfrastructure, env)
  end.

Definition contestant_request (m : Manifest) (input : CanonicalExecutionRequest) (cs : list BatchCase) : BatchRequest :=
  mkBatchRequest (cr_Language input) (cr_SourceCode input)
    (timeoutSeconds (TimeLimitMillis (m_Limits m))) (boundedInt32 (MemoryLimitMiB (m_Limits m)))
    (cr_StopOnFailure input && bool_decide (m_JudgeMode m = JudgeModeACM) &&
     negb (bool_decide (m_Checker m = CheckerSpecial))) cs.

Definition ExecuteCanonical (p : BatchBundlePipeline) (input : CanonicalExecutionRequest)
    (artifact : CaseArtifact) (env : exec_env S) : result exec_error CanonicalResult * exec_env S :=
  if blank (cr_Language input) || bool_decide (cr_SourceCode input = "") then (Err ErrRequestRequired, env)
  else
    let m := art_Manifest artifact in
    match Validate m with
    | Err _ => (Err ErrCanonicalInfrastructure, env)
    | Ok _ =>
        if maxSandboxBatchCasesV1 <? Z.of_nat (length (m_Cases m)) then (Err ErrCanonicalInfrastructure, env)
        else
          let size := request_size (contestant_request m input []) in
          if maxBatchRequestBytes p <? size then (Err ErrCanonicalInfrastructure, env)
          else
            let maxExpected := if maxExpectedCheckBytes p <=? 0 then maxSandboxBatchRequestBytesV1
                               else maxExpectedCheckBytes p in
            match build_cases artifact (m_Checker m) (maxBatchRequestBytes p) maxExpected size 0 (m_Cases m) with
            | Err e => (Err e, env)
            | Ok (cs, expectedChecks) =>
                let request := contestant_request m input cs in
                match executeBatch p request env with
                | (Err e, env) => (Err e, env)
                | (Ok None, env) => (Err ErrCanonicalInfrastructure, env)
                | (Ok (Some events), env) =>
                    let '(result, actualOutputs) := aggregateBatchResult sha256_hex m expectedChecks events in
                    if bool_decide (can_Status result = StatusSystemError) then (Err ErrCanonicalInfrastructure, env)
                    else if bool_decide (m_Checker m = CheckerSpecial) &&
                            negb (bool_decide (can_Status result = StatusCompileError)) then
                      match applySpecialJudge p m artifact request expectedChecks actualOutputs result env with
                      | (Err e, env) => (Err e, env)
                      | (Ok result, env) => (Ok (applyManifestScoring m result), env)
                      end
                    else (Ok (applyManifestScoring m result), env)
                end
            end
    end.
End Execute.

(** ** The shape of a validated event stream *)
Definition case_event (c : string * ExecuteResponse) : option BatchEvent :=
  Some (mkBatchEvent CASE_RESULT c.1 (Some c.2)).
Definition completed_event : option BatchEvent := Some (mkBatchEvent COMPLETED "" None).

(** Every reported case that is followed by another one was accepted. *)
Definition only_last_fails (statuses : list string) : Prop :=
  ∀ pre s post, statuses = pre ++ s :: post → post ≠ [] → s = "Accepted".

(** A stream that reports [cases] for a request with identifiers [ids]. *)
Record stream_shape (stop : bool) (ids : list string) (events : list (option BatchEvent))
    (cases : list (string * ExecuteResponse)) : Prop := {
  ss_events : events = (case_event <$> cases) ++ [completed_event];
  ss_nonempty : cases ≠ [];
  ss_known : Forall (λ c, isKnownContestantStatus (er_Status c.2) = true) cases;
  ss_stop : stop = true → only_last_fails ((λ c, er_Status c.2) <$> cases);
  ss_ids : ∃ rest, ids = cases.*1 ++ rest ∧
    (rest ≠ [] → stop = true ∧ ∃ c, last cases = Some c ∧ er_Status c.2 ≠ "Accepted")
}.

Lemma only_last_fails_cons s statuses :
  only_last_fails (s :: statuses) ↔ (statuses ≠ [] → s = "Accepted") ∧ only_last_fails statuses.
Proof.
  split.
  - intros H. split; [intros; by eapply (H [])|].
    intros pre s' post -> Hp. by eapply (H (s :: pre)).
  - intros [H1 H2] [|s' pre] x post Heq Hp; simplify_eq/=; [auto|]. by eapply H2.
Qed.

(** The loop invariant: from a state in which the cases before [events] were
    accepted by the checks, the loop returns [true] exactly on the continuations
    that complete a well-shaped stream. *)
Lemma validateEventLoop_true stop started lastStatus ids events :
  validateEventLoop stop started lastStatus ids events = true →
  ∃ cases rest, events = (case_event <$> cases) ++ [completed_event] ∧
    ids = cases.*1 ++ rest ∧ (started = false → cases ≠ []) ∧
    Forall (λ c, isKnownContestantStatus (er_Status c.2) = true) cases ∧
    (stop = true → (started = true → cases ≠ [] → lastStatus = "Accepted") ∧
                   only_last_fails ((λ c, er_Status c.2) <$> cases)) ∧
    (rest ≠ [] → stop = true ∧
       match last cases with Some c => er_Status c.2 ≠ "Accepted" | None => lastStatus ≠ "Accepted" end).
Proof.
  revert started lastStatus ids.
  induction events as [|[e|] events IH]; intros started lastStatus ids; [done| |done].
  destruct e as [kind id res]. cbn [validateEventLoop ev_Kind ev_Result ev_CaseId].
  destruct kind; try done.
  - destruct (stop && started && negb (bool_decide (lastStatus = "Accepted"))) eqn:Hstop; [done|].
    destruct ids as [|i ids], res as [r|]; try done.
    destruct (bool_decide (id = i) && _) eqn:Hok; [|done]. apply andb_true_iff in Hok as [->%bool_decide_eq_true Hknown].
    intros (cases & rest & -> & -> & Hne & Hk & Hs & Hr)%IH. exists ((i, r) :: cases), rest.
    split_and!; try done.
    + by constructor.
    + intros ->. destruct (Hs eq_refl) as [Hacc Hfl]. split.
      * intros -> _. simpl in Hstop. by apply negb_false_iff, bool_decide_eq_true in Hstop.
      * rewrite fmap_cons. apply only_last_fails_cons. split; [|done]. intros Hne'.
        apply Hacc; [done|]. by destruct cases.
    + intros Hrest. destruct (Hr Hrest) as [-> Hlast]. split; [done|].
      rewrite last_cons. by destruct (last cases).
  - destruct events, res; try done. intros H. bool_to_prop. subst. exists [], ids.
    split_and!; try done.
    + intros _. split; [done|]. by intros [].
    + intros Hrest. rewrite (bool_decide_eq_false_2 _ Hrest) in H0. simpl in H0.
      apply orb_false_iff in H0 as [->%negb_false_iff ?%bool_decide_eq_false]. done.
Qed.

(** The converse: every well-shaped continuation is accepted. *)
Lemma validateEventLoop_complete stop started lastStatus cases rest :
  (started = false → cases ≠ []) →
  Forall (λ c, isKnownContestantStatus (er_Status c.2) = true) cases →
  (stop = true → (started = true → cases ≠ [] → lastStatus = "Accepted") ∧
                 only_last_fails ((λ c, er_Status c.2) <$> cases)) →
  (rest ≠ [] → stop = true ∧
     match last cases with Some c => er_Status c.2 ≠ "Accepted" | None => lastStatus ≠ "Accepted" end) →
  validateEventLoop stop started lastStatus (cases.*1 ++ rest) ((case_event <$> cases) ++ [completed_event]) = true.
Proof.
  revert started lastStatus. induction cases as [|[i r] cases IH]; intros started lastStatus Hne Hk Hs Hr.
  - simpl. destruct started; [|by destruct Hne]. simpl.
    case_bool_decide as Hrest; [done|]. destruct (Hr Hrest) as [-> Hacc].
    by rewrite bool_decide_eq_false_2.
  - apply Forall_cons in Hk as [Hk Hks]. simpl in *.
    assert (stop && started && negb (bool_decide (lastStatus = "Accepted")) = false) as ->.
    { destruct stop, started; try done. simpl. rewrite bool_decide_eq_true_2; [done|].
      by apply (proj1 (Hs eq_refl)). }
    rewrite bool_decide_eq_true_2 by done. rewrite Hk. simpl. apply IH; try done.
    + intros ->. destruct (Hs eq_refl) as [_ Hfl]. apply only_last_fails_cons in Hfl as [Hacc Hfl].
      split; [|done]. intros _ Hc. apply Hacc. by destruct cases.
    + intros Hrest. destruct (Hr Hrest) as [-> Hlast]. split; [done|].
      rewrite last_cons in Hlast. by destruct (last cases).
Qed.

Lemma validateBatchEvents_shape request events :
  validateBatchEvents request events = true ↔
  (∃ r, events = [Some (mkBatchEvent COMPILE_ERROR "" (Some r))] ∧ er_Status r = "Compile Error") ∨
  (∃ cases, stream_shape (br_StopOnFailure request) (bc_CaseId <$> br_Cases request) events cases).
Proof.
  assert (Hloop : validateEventLoop (br_StopOnFailure request) false "" (bc_CaseId <$> br_Cases request) events = true ↔
    ∃ cases, stream_shape (br_StopOnFailure request) (bc_CaseId <$> br_Cases request) events cases).
  { split.
    - intros (cases & rest & -> & Hids & Hne & Hk & Hs & Hr)%validateEventLoop_true.
      exists cases. split; auto; [naive_solver|]. exists rest. split; [done|].
      intros Hrest. destruct (Hr Hrest) as [-> Hlast]. split; [done|].
      destruct (last cases) as [c|] eqn:Hl; [eauto|].
      apply last_None in Hl as ->. by destruct Hne.
    - intros (cases & [-> Hne Hk Hs (rest & -> & Hr)]). apply validateEventLoop_complete; try done.
      + naive_solver.
      + intros Hrest. destruct (Hr Hrest) as (-> & c & -> & ?). done. }
  unfold validateBatchEvents. destruct events as [|[e|] [|e' events]].
  - split; [done|]. intros [(r & ? & _)|(cases & [Heq _ _ _ _])]; [done|]. by destruct cases.
  - case_bool_decide as Hkind.
    + destruct e as [kind id res]; simpl in *; subst kind. split.
      * destruct res as [r|]; [|done]. intros H. bool_to_prop. subst. left. eauto.
      * intros [(r & [= -> ->] & ->)|(cases & [Heq _ _ _ _])]; [done|].
        destruct cases as [|c cases]; simplify_eq/=.
    + rewrite Hloop. split; [by right|]. intros [(r & [= ->] & _)|?]; [done|done].
  - rewrite Hloop. naive_solver.
  - rewrite Hloop. naive_solver.
  - rewrite Hloop. naive_solver.
Qed.
