(* ===== verification/BatchContract.v ===== *)
(** * Correctness of canonical batch execution

    The theorems about [BatchPipeline]: what the request builder sends, which
    sandboxes the retry loop calls, how the verdict is aggregated, what the
    checker ABI guarantees, how OI points are awarded, and the contract every
    successful execution meets.

    The second part is the contract of a result. *)
From stdpp Require Import prelude gmap strings.
From S2P Require Import Prelude.
From S2P Require Import GoText.
From S2P Require Import Manifest.
From S2P Require Import Scheduler.
From S2P Require Import Callback.
From S2P Require Import Sandbox.
From S2P Require Import BatchPipeline.

Open Scope Z_scope.

(** ** First failure and maxima *)
Lemma first_failure_snoc cases c :
  first_failure (cases ++ [c]) =
  if bool_decide (first_failure cases = StatusAccepted) && negb (bool_decide (cc_Status c = StatusAccepted))
  then cc_Status c else first_failure cases.
Proof. unfold first_failure. by rewrite foldl_app. Qed.

(** The verdict is the status of the first case that was not accepted. *)
Lemma first_failure_spec cases :
  (first_failure cases = StatusAccepted ∧ Forall (λ c, cc_Status c = StatusAccepted) cases) ∨
  (∃ pre c post, cases = pre ++ c :: post ∧ Forall (λ c, cc_Status c = StatusAccepted) pre ∧
     cc_Status c ≠ StatusAccepted ∧ first_failure cases = cc_Status c).
Proof.
  induction cases as [|c cases IH] using rev_ind; [by left|].
  rewrite first_failure_snoc. destruct IH as [[-> Hall]|(pre & d & post & -> & Hpre & Hd & ->)].
  - rewrite bool_decide_eq_true_2 by done. simpl. case_bool_decide as Hc; simpl.
    + left. split; [done|]. apply Forall_app. by repeat constructor.
    + right. exists cases, c, []. done.
  - rewrite bool_decide_eq_false_2 by done. right. exists pre, d, (post ++ [c]).
    by rewrite <-app_assoc.
Qed.

Lemma first_failure_elem cases s :
  first_failure cases = s → s ≠ StatusAccepted → ∃ c, c ∈ cases ∧ cc_Status c = s.
Proof.
  intros Hf Hs. destruct (first_failure_spec cases) as [[? _]|(pre & c & post & -> & _ & _ & E)]; [congruence|].
  exists c. split; [set_solver|congruence].
Qed.

Lemma foldl_max_le {A} (f : A → Z) a b l :
  a ≤ b → Forall (λ x, f x ≤ b) l → a ≤ foldl (λ t x, Z.max t (f x)) a l ≤ b.
Proof.
  intros Ha Hl. revert a Ha. induction Hl as [|x l Hx Hl IH]; intros a Ha; simpl; [lia|].
  specialize (IH (Z.max a (f x))). lia.
Qed.

(** ** Aggregation *)
Section Aggregate.
Context (sha256_hex : string → string).

Definition canonical_case (checker : Checker) (item : string * ExecuteResponse * string) : CanonicalCaseResult :=
  mkCanonicalCase item.1.1 (case_status sha256_hex checker item.1.2 item.2)
    (boundedMetric (er_TimeUsed item.1.2) timeCap) (boundedMetric (er_MemoryUsed item.1.2) memoryCap) None None.

Definition redacted : string := "compilation failed; diagnostics redacted".

(** What the aggregation loop maintains between the fields of a result. *)
Record aggregate_inv (r : CanonicalResult) : Prop := {
  ai_status : can_Status r = first_failure (can_Cases r);
  ai_time : can_TimeUsedMillis r = foldl (λ t c, Z.max t (cc_TimeUsedMillis c)) 0 (can_Cases r);
  ai_memory : can_MemoryUsedKB r = foldl (λ t c, Z.max t (cc_MemoryUsedKB c)) 0 (can_Cases r);
  ai_score : can_Score r = None ∧ can_TotalScore r = None;
  ai_stderr : UTF16Len (can_Stderr r) ≤ 65536;
  ai_compile : can_CompileError r =
    if existsb (λ c, bool_decide (cc_Status c = StatusCompileError)) (can_Cases r) then redacted else ""
}.

Lemma aggregate_step_spec checker result summaries item :
  aggregate_inv result →
  aggregate_inv (aggregate_step sha256_hex checker (result, summaries) item).1 ∧
  can_Cases (aggregate_step sha256_hex checker (result, summaries) item).1 =
    can_Cases result ++ [canonical_case checker item].
Proof.
  destruct item as [[id r] check]. intros [Hs Ht Hm Hsc He Hc]. split; [|done].
  unfold aggregate_step. split; cbn [fst can_Status can_Cases can_TimeUsedMillis can_MemoryUsedKB
    can_Score can_TotalScore can_Stderr can_CompileError].
  - rewrite first_failure_snoc, Hs. done.
  - by rewrite foldl_app, <-Ht.
  - by rewrite foldl_app, <-Hm.
  - done.
  - apply (TruncateUTF16_bound _ 65536).
  - rewrite existsb_app. cbn [existsb cc_Status]. rewrite orb_false_r.
    destruct (bool_decide _); [by rewrite orb_true_r|by rewrite orb_false_r].
Qed.

Lemma aggregate_fold_spec checker items result summaries :
  aggregate_inv result →
  let out := foldl (aggregate_step sha256_hex checker) (result, summaries) items in
  aggregate_inv out.1 ∧ can_Cases out.1 = can_Cases result ++ (canonical_case checker <$> items).
Proof.
  revert result summaries. induction items as [|item items IH]; intros result summaries Hinv out.
  { unfold out. simpl. by rewrite app_nil_r. }
  unfold out. cbn [foldl]. clear out.
  destruct (aggregate_step_spec checker result summaries item Hinv) as [Hinv' Hc'].
  destruct (aggregate_step sha256_hex checker (result, summaries) item) as [result' summaries'].
  destruct (IH result' summaries' Hinv') as [? Hc]. split; [done|].
  rewrite Hc, fmap_cons. cbn [fst] in Hc'. by rewrite Hc', <-app_assoc.
Qed.

Lemma aggregate_cases_spec checker checks cases :
  let r := aggregate_cases sha256_hex checker checks cases in
  aggregate_inv r ∧
  can_Cases r = canonical_case checker <$> zip_with (λ c e, (c.1, c.2, e)) cases checks ∧
  (can_Status r = StatusAccepted → can_ExitCode r = 0).
Proof.
  unfold aggregate_cases.
  destruct (aggregate_fold_spec checker (zip_with (λ c e, (c.1, c.2, e)) cases checks)
    (empty_result StatusAccepted) []) as [[Hs Ht Hm Hsc He Hc] Hcases]; [by split|].
  destruct (foldl _ _ _) as [r summaries]. simpl in *.
  split_and!; [by split|done|]. intros ->. by rewrite bool_decide_eq_true_2.
Qed.
End Aggregate.

(** ** The request *)
Section Request.
Context (case_size : BatchCase → Z) (size_tag size_varint : Z → Z) (sha256_hex : string → string).
Local Notation build := (build_cases case_size size_tag size_varint sha256_hex).
Local Notation wire := (batchCaseWireBytes case_size size_tag size_varint).

(** A request case and its retained check are those of the manifest case. *)
Definition request_case_ok (artifact : CaseArtifact) (checker : Checker)
    (tc : Case) (rc : BatchCase) (check : string) : Prop :=
  ∃ input expected sent digest,
    art_ReadCase artifact tc = Some (input, expected) ∧
    expected_fields sha256_hex checker expected = Some (sent, digest, check) ∧
    rc = mkBatchCase (case_ID tc) input sent (bool_decide (checker = CheckerExact)) digest.

Lemma build_cases_ok artifact checker maxReq maxExp req ret cases cs checks :
  build artifact checker maxReq maxExp req ret cases = Ok (cs, checks) →
  length cs = length cases ∧ length checks = length cases ∧
  bc_CaseId <$> cs = case_ID <$> cases ∧
  (∀ i tc rc check, cases !! i = Some tc → cs !! i = Some rc → checks !! i = Some check →
     request_case_ok artifact checker tc rc check) ∧
  (req ≤ maxReq → req + sumZ wire cs ≤ maxReq) ∧
  (ret ≤ maxExp → ret + sumZ len checks ≤ maxExp).
Proof.
  revert req ret cs checks. induction cases as [|tc cases IH]; intros req ret cs checks H.
  { injection H as <- <-. simpl. split_and!; try done; lia. }
  cbn [build_cases] in H. destruct (art_ReadCase artifact tc) as [[input expected]|] eqn:Hread; [|done].
  destruct (expected_fields sha256_hex checker expected) as [[[sent digest] check]|] eqn:Hf; [|done].
  destruct (Z.ltb_spec maxExp (ret + len check)); [done|].
  destruct (Z.ltb_spec maxReq (req + wire
    (mkBatchCase (case_ID tc) input sent (bool_decide (checker = CheckerExact)) digest))); [done|].
  apply bind_ok in H as ([cs' checks'] & Hrec & H). injection H as <- <-.
  destruct (IH _ _ _ _ Hrec) as (Hl1 & Hl2 & Hids & Hall & Hb1 & Hb2).
  split_and!; [simpl; congruence..|by rewrite !fmap_cons, Hids| | |]; simpl.
  - intros [|i] tc' rc check'; simpl; [|eauto]. intros [= <-] [= <-] [= <-].
    exists input, expected, sent, digest. done.
  - intros _. specialize (Hb1 ltac:(done)). lia.
  - intros _. specialize (Hb2 ltac:(done)). lia.
Qed.
End Request.

(** ** The retry loop *)
Section Retry.
Context {S : Type} `{SandboxSelector S}.
Context (rpc : list (string * BatchRequest) → string → BatchRequest →
               result rpc_error (list (option BatchEvent))).

(** A run of selections from a state of the selector: each address is the answer
    to the addresses attempted before it, and the last selection may fail. *)
Inductive selections : S → gset string → list string → S → Prop :=
| selections_stop s attempted : selections s attempted [] s
| selections_failed s attempted e s' :
    selectUntriedSandbox s attempted = (Err e, s') → selections s attempted [] s'
| selections_next s attempted a s1 addresses s' :
    selectUntriedSandbox s attempted = (Ok a, s1) → selections s1 ({[a]} ∪ attempted) addresses s' →
    selections s attempted (a :: addresses) s'.

Lemma selectUntriedSandbox_fresh s attempted a s' :
  ExcludingLaw S → selectUntriedSandbox s attempted = (Ok a, s') → a ∉ attempted.
Proof.
  intros Hlaw. unfold selectUntriedSandbox. destruct sel_excluding as [sel|] eqn:E; intros Hs.
  - by eapply excluding_law.
  - destruct (sel_select s) as [[a'|e] s'']; [|done]. case_bool_decide; naive_solver.
Qed.

(** A selector that skips what it is told to skip never repeats an address. *)
Lemma selections_distinct s attempted addresses s' :
  ExcludingLaw S → selections s attempted addresses s' →
  NoDup addresses ∧ Forall (λ a, a ∉ attempted) addresses.
Proof.
  intros Hlaw. induction 1 as [| |s attempted a s1 addresses s' Hsel _ [Hnd Hnot]]; [by repeat constructor..|].
  apply selectUntriedSandbox_fresh in Hsel; [|done]. rewrite Forall_forall in Hnot. split.
  - apply NoDup_cons. split; [|done]. intros Hin. specialize (Hnot a Hin). set_solver.
  - apply Forall_cons. split; [done|]. apply Forall_forall. intros x Hx. specialize (Hnot x Hx). set_solver.
Qed.

(** A call that was followed by another one failed with a retryable code. *)
Definition retried_calls (before : list (string * BatchRequest)) (request : BatchRequest)
    (addresses : list string) : Prop :=
  ∀ pre a post, addresses = pre ++ a :: post → post ≠ [] →
    ∃ code, rpc (before ++ map (λ a, (a, request)) pre) a request = Err (RpcCode code) ∧ retryable code = true.

(** What the loop returns is justified by its last call. *)
Definition outcome_ok (before : list (string * BatchRequest)) (request : BatchRequest)
    (addresses : list string) (out : result exec_error (option (list (option BatchEvent)))) : Prop :=
  match out with
  | Ok (Some events) =>
      validateBatchEvents request events = true ∧
      ∃ pre a, addresses = pre ++ [a] ∧ rpc (before ++ map (λ a, (a, request)) pre) a request = Ok events
  | Err (ErrSandboxRPC code) =>
      retryable code = false ∧
      ∃ pre a, addresses = pre ++ [a] ∧
        rpc (before ++ map (λ a, (a, request)) pre) a request = Err (RpcCode code)
  | _ => True
  end.

(** The accounting of one run of the loop: the calls it added and what it returned. *)
Definition run_ok (fuel : nat) (attempted : gset string) (request : BatchRequest) (env env' : exec_env S)
    (out : result exec_error (option (list (option BatchEvent)))) : Prop :=
  ∃ addresses,
    env_calls env' = env_calls env ++ map (λ a, (a, request)) addresses ∧
    (length addresses ≤ fuel)%nat ∧
    selections (env_selector env) attempted addresses (env_selector env') ∧
    retried_calls (env_calls env) request addresses ∧
    outcome_ok (env_calls env) request addresses out.

Lemma run_ok_no_call fuel attempted request env s out :
  selections (env_selector env) attempted [] s → outcome_ok (env_calls env) request [] out →
  run_ok fuel attempted request env (mkEnv s (env_calls env)) out.
Proof.
  intros Hs Ho. exists []. simpl. rewrite app_nil_r.
  split_and!; try done; try lia. by intros [].
Qed.

Lemma run_ok_single fuel attempted request env s a out :
  selectUntriedSandbox (env_selector env) attempted = (Ok a, s) → outcome_ok (env_calls env) request [a] out →
  run_ok (Datatypes.S fuel) attempted request env (mkEnv s (env_calls env ++ [(a, request)])) out.
Proof.
  intros Ha Ho. exists [a].
  split_and!; [done|simpl; lia|by repeat econstructor| |done].
  intros [|x pre] b post Heq Hp; simplify_eq/=. by destruct pre.
Qed.

Lemma run_ok_retry fuel attempted request env env' s a code out :
  selectUntriedSandbox (env_selector env) attempted = (Ok a, s) →
  rpc (env_calls env) a request = Err (RpcCode code) → retryable code = true →
  run_ok fuel ({[a]} ∪ attempted) request (mkEnv s (env_calls env ++ [(a, request)])) env' out →
  run_ok (Datatypes.S fuel) attempted request env env' out.
Proof.
  intros Ha Hrpc Hcode (addresses & Hcalls & Hlen & Hsel & Hret & Hout). simpl in *.
  exists (a :: addresses). split_and!.
  - by rewrite Hcalls, <-app_assoc.
  - simpl. lia.
  - by econstructor.
  - intros [|x pre] b post Heq Hp; simplify_eq/=; [rewrite app_nil_r; eauto|].
    rewrite cons_middle, app_assoc. by eapply Hret.
  - unfold outcome_ok in *. destruct out as [[ev|]|[]]; try done;
      (destruct Hout as (? & pre & b & -> & Hr); split; [done|]; exists (a :: pre), b; split; [done|];
       by rewrite map_cons, cons_middle, app_assoc).
Qed.

Lemma execute_loop_spec fuel lastRetryable attempted request env out env' :
  execute_loop rpc fuel lastRetryable attempted request env = (out, env') →
  run_ok fuel attempted request env env' out.
Proof.
  revert lastRetryable attempted env. induction fuel as [|fuel IH]; intros lastRetryable attempted env Hrun.
  { destruct env as [s calls]. simpl in Hrun.
    destruct lastRetryable; injection Hrun as <- <-; apply (run_ok_no_call _ _ _ (mkEnv s calls)); by try constructor. }
  cbn [execute_loop] in Hrun.
  destruct (selectUntriedSandbox (env_selector env) attempted) as [[a|e] s'] eqn:Hsel.
  2:{ destruct lastRetryable; injection Hrun as <- <-; (apply run_ok_no_call; [by eapply selections_failed|done]). }
  destruct (rpc (env_calls env) a request) as [events|[|code]] eqn:Hrpc.
  - destruct (validateBatchEvents request events) eqn:Hv; injection Hrun as <- <-;
      (apply run_ok_single; [done|]); [|done].
    split; [done|]. exists [], a. split; [done|]. by rewrite app_nil_r.
  - injection Hrun as <- <-. by apply run_ok_single.
  - destruct (retryable code) eqn:Hcode; [eapply run_ok_retry; eauto|].
    injection Hrun as <- <-. apply run_ok_single; [done|].
    split; [done|]. exists [], a. split; [done|]. by rewrite app_nil_r.
Qed.

(** C40: [executeBatch] sends the request to the addresses that its selector
    answers, one after the other, each asked for with those attempted before, at most
    [maxInfraAttempts] of them; it moves on only after a retryable gRPC code, and
    returns events only when they pass [validateBatchEvents] and are the answer to its
    last call. The addresses are distinct if the selector skips the excluded ones, as
    [Scheduler] does ([Scheduler_law]); [Target] repeats its one target
    ([Target_selections]). *)
Theorem executeBatch_spec p request env out env' :
  executeBatch rpc p request env = (out, env') →
  ∃ addresses,
    env_calls env' = env_calls env ++ map (λ a, (a, request)) addresses ∧
    Z.of_nat (length addresses) ≤ Z.max 0 (maxInfraAttempts p) ∧
    selections (env_selector env) ∅ addresses (env_selector env') ∧
    (ExcludingLaw S → NoDup addresses) ∧
    retried_calls (env_calls env) request addresses ∧
    outcome_ok (env_calls env) request addresses out.
Proof.
  intros (addresses & ? & ? & Hsel & ? & ?)%execute_loop_spec.
  exists addresses. split_and!; try done; [lia|]. intros Hlaw. by eapply selections_distinct.
Qed.
End Retry.

(** [Target] answers its one target to every selection, so a batch that is
    retried through it is sent to that target again. *)
Lemma Target_selections (t t' : Target) attempted addresses :
  selections t attempted addresses t' → t' = t ∧ Forall (λ a, t = Some a) addresses.
Proof.
  assert (Ht : ∀ r t1 attempted, selectUntriedSandbox t attempted = (r, t1) →
    t1 = t ∧ ∀ a, r = Ok a → t = Some a).
  { intros r t1 att. unfold selectUntriedSandbox. cbn. unfold Target_SelectSandboxExcluding, Target_SelectSandbox.
    destruct t as [target|]; [case_bool_decide|]; intros [= <- <-]; naive_solver. }
  induction 1 as [|s attempted e s' Hs|s attempted a s1 addresses s' Hs _ IH]; [done| |].
  - by destruct (Ht _ _ _ Hs) as [-> _].
  - destruct (Ht _ _ _ Hs) as [-> Ha]. destruct (IH Ht) as [-> ?]. split; [done|]. constructor; auto.
Qed.

(** ** The byte budget of the checker ABI *)
Lemma json_cost_exact r :
  bad_rune r = false → (r.1 < 128 → len r.2 = 1) → len (json_escape_rune r) = json_cost r.
Proof.
  intros Hb H1. unfold json_escape_rune, json_cost. rewrite Hb.
  assert (∀ c, len (escape_short c) = 2) as Hs by done.
  assert (∀ c, len (escape_long c) = 6) as Hl by done.
  destruct r as [c bytes]. simpl in *.
  destruct (Z.ltb_spec c 128) as [Hlt|Hge].
  - repeat match goal with |- context [?a =? ?b] => destruct (Z.eqb_spec a b); cbn [orb]; [by auto|] end.
    destruct (Z.ltb_spec c 32); cbn [orb]; [done|].
    repeat match goal with |- context [?a =? ?b] => destruct (Z.eqb_spec a b); cbn [orb]; [by auto|] end.
    auto.
  - rewrite (proj2 (Z.ltb_ge c 32)) by lia.
    repeat match goal with |- context [c =? ?b] =>
      assert_succeeds (assert (b < 128) by lia); rewrite (proj2 (Z.eqb_neq c b)) by lia end. cbn [orb].
    repeat match goal with |- context [?a =? ?b] => destruct (Z.eqb_spec a b); cbn [orb]; [by auto|] end.
    done.
Qed.

Lemma runes_ascii_width s r : valid_string s = true → r ∈ runes s → r.1 < 128 → len r.2 = 1.
Proof.
  intros Hv Hr Hlt. pose proof (valid_string_encode s Hv) as He. rewrite Forall_forall in He.
  rewrite <-(He r Hr). pose proof (runes_scalar s r Hr) as Hsc. rewrite encode_rune_scalar by done.
  unfold encode_scalar. by rewrite (proj2 (Z.ltb_lt _ _)).
Qed.

Lemma budget_loop_exact rs remaining left :
  Forall (λ r, len (json_escape_rune r) = json_cost r) rs →
  budget_loop rs remaining = Some left → len (json_escape_runes rs) = remaining - left.
Proof.
  intros Hc. revert remaining. induction Hc as [|r rs Hr Hrs IH]; intros remaining H; simpl in *.
  - injection H as <-. unfold len. simpl. lia.
  - destruct (remaining <? json_cost r); [done|]. apply IH in H. rewrite len_append. lia.
Qed.

Lemma budget_loop_nonneg rs remaining left : budget_loop rs remaining = Some left → 0 ≤ remaining → 0 ≤ left.
Proof.
  revert remaining. induction rs as [|r rs IH]; intros remaining H Hr; simpl in *; [by simplify_eq|].
  destruct (Z.ltb_spec remaining (json_cost r)); [done|]. eapply IH; [done|]. lia.
Qed.

(** The budget charges exactly the encoded size of the string, quotes apart. *)
Lemma consumeJSONStringBudget_exact value remaining left :
  consumeJSONStringBudget value remaining = Some left →
  0 ≤ left ∧ len (json_string value) = remaining - left + 2.
Proof.
  unfold consumeJSONStringBudget. destruct (_ || _) eqn:Hg; [done|]. bool_to_prop. intros H1.
  split; [by eapply budget_loop_nonneg|].
  unfold json_string. rewrite !len_append. apply budget_loop_exact in H1.
  - rewrite H1. unfold len, quote. simpl. lia.
  - apply Forall_forall. intros r Hr. apply json_cost_exact; [|by eapply runes_ascii_width].
    match goal with Hv : valid_string value = true |- _ =>
      unfold valid_string in Hv; rewrite forallb_forall in Hv; apply negb_true_iff, Hv end.
    by apply list_elem_of_In.
Qed.

(** A checker payload that passes the budget estimated before encoding is,
    once encoded as JSON, within the protocol limit. *)
Lemma checker_payload_within_limit caseID input expected actual :
  specialJudgePayloadWithinPreEncodeLimit caseID input expected actual = true →
  len (specialJudgeInput caseID input expected actual) ≤ maxSpecialJudgeProtocolBytesV1.
Proof.
  unfold specialJudgePayloadWithinPreEncodeLimit, consume_all. intros H.
  destruct (consumeJSONStringBudget caseID _) as [r1|] eqn:H1; [|done].
  destruct (consumeJSONStringBudget input r1) as [r2|] eqn:H2; [|done].
  destruct (consumeJSONStringBudget expected r2) as [r3|] eqn:H3; [|done].
  destruct (consumeJSONStringBudget actual r3) as [r4|] eqn:H4; [|done].
  apply consumeJSONStringBudget_exact in H1 as [? H1], H2 as [? H2], H3 as [? H3], H4 as [? H4].
  unfold specialJudgeInput. rewrite !len_append, H1, H2, H3, H4. unfold maxSpecialJudgeProtocolBytesV1.
  change (len "{") with 1. change (len "1,") with 2. change (len ",") with 1. change (len "}") with 1.
  change (len (json_key "schemaVersion")) with 16. change (len (json_key "caseId")) with 9.
  change (len (json_key "input")) with 8. change (len (json_key "expectedOutput")) with 17.
  change (len (json_key "actualOutput")) with 15. lia.
Qed.

(** ** Digest comparison of token output *)
Lemma fields_from_bound cur rs f :
  f ∈ fields_from cur rs →
  len f ≤ match cur with Some c => len c | None => 0 end + sumZ (λ r, len r.2) rs.
Proof.
  revert cur. induction rs as [|r rs IH]; intros cur Hf; simpl in *.
  - destruct cur; [apply list_elem_of_singleton in Hf as ->; lia|by apply elem_of_nil in Hf].
  - pose proof (len_nonneg r.2). destruct (is_space r.1), cur as [c|].
    + pose proof (sumZ_nonneg (λ r, len r.2) rs ltac:(apply Forall_forall; intros; apply len_nonneg)).
      pose proof (len_nonneg c). apply elem_of_cons in Hf as [->|Hf]; [lia|]. apply IH in Hf. lia.
    + apply IH in Hf. lia.
    + apply IH in Hf. rewrite len_append in Hf. lia.
    + apply IH in Hf. lia.
Qed.

Lemma len_rune_bytes rs : len (rune_bytes rs) = sumZ (λ r, len r.2) rs.
Proof. induction rs; simpl; [done|]. rewrite len_append. lia. Qed.

Lemma fields_machine_sized s : machine_sized s → Forall machine_sized (fields s).
Proof.
  intros Hs. apply Forall_forall. intros f Hf. apply fields_from_bound in Hf.
  rewrite <-len_rune_bytes, rune_bytes_runes in Hf. unfold machine_sized in *. lia.
Qed.

(** Comparing the digest of the tokens of an output with the expected
    digest decides the same as comparing the tokens, when the hash does not
    collide on the two encodings. *)
Lemma digest_check_is_token_check sha256_hex actual expected :
  machine_sized actual → machine_sized expected →
  (sha256_hex (token_frame (fields actual)) = sha256_hex (token_frame (fields expected)) →
   token_frame (fields actual) = token_frame (fields expected)) →
  outputMatchesExpectedCheck sha256_hex CheckerToken actual (tokenOutputSHA256 sha256_hex expected) =
  outputsMatch CheckerToken actual expected.
Proof.
  intros Ha He Hcoll. unfold outputMatchesExpectedCheck, outputsMatch, tokenOutputSHA256. simpl.
  apply eq_bool_prop_intro. rewrite !Is_true_true, bool_decide_eq_true, tokens_match_eq.
  split; [|by intros ->]. intros Heq.
  apply token_frame_inj; auto using fields_machine_sized.
Qed.

(** ** The special judge *)

(** Positions of a list counted from [index]. *)
Lemma lookup_from_cons {A} (P : A → Prop) (index j : nat) (x : A) (l : list A) :
  (∃ k y, j = (index + k)%nat ∧ (x :: l) !! k = Some y ∧ P y) ↔
  (j = index ∧ P x) ∨ (∃ k y, j = (S index + k)%nat ∧ l !! k = Some y ∧ P y).
Proof.
  split.
  - intros ([|k] & y & -> & Hk & HP); simplify_eq/=; [left; split; [lia|done]|right].
    exists k, y. split; [lia|done].
  - intros [[-> HP]|(k & y & -> & Hk & HP)]; [exists 0%nat, x|exists (S k), y];
      (split; [lia|done]).
Qed.

Section Special.
Context (case_size : BatchCase → Z) (size_tag size_varint : Z → Z).
Local Notation encode := (checker_cases case_size size_tag size_varint).

(** Exactly the cases the contestant passed are sent to the checker, in order. *)
Lemma checker_cases_ok p bytes index items cs indexes :
  encode p bytes index items = Ok (cs, indexes) →
  length cs = length indexes ∧ NoDup indexes ∧
  (∀ i, i ∈ indexes ↔ ∃ k item, i = (index + k)%nat ∧ items !! k = Some item ∧
                                cc_Status item.1.1.1 = StatusAccepted).
Proof.
  revert bytes index cs indexes. induction items as [|[[[item stdin] expected] actual] items IH];
    intros bytes index cs indexes H; cbn [checker_cases] in H.
  { injection H as <- <-. split_and!; [done|constructor|].
    intros i. split; [by intros ?%elem_of_nil|]. by intros (k & it & _ & ? & _). }
  case_bool_decide as Hs; cbn [negb] in H.
  - repeat match type of H with (if ?b then _ else _) = _ => destruct b; [done|] end.
    apply bind_ok in H as ([cs' indexes'] & Hrec & H). injection H as <- <-.
    destruct (IH _ _ _ _ Hrec) as (Hl & Hnd & Hin). split_and!; [simpl; lia| |].
    + apply NoDup_cons. split; [|done]. rewrite Hin. intros (k & it & ? & _). lia.
    + intros i. rewrite elem_of_cons, Hin, (lookup_from_cons (λ it, cc_Status it.1.1.1 = StatusAccepted)).
      simpl. tauto.
  - destruct (IH _ _ _ _ H) as (Hl & Hnd & Hin). split_and!; [done..|].
    intros i. rewrite Hin, (lookup_from_cons (λ it, cc_Status it.1.1.1 = StatusAccepted)). simpl. tauto.
Qed.

Context (json_checker_output : string → option specialJudgeOutput).

(** The loop consumes one index per event: each verdict lands on its case and
    leaves the others alone. *)
Lemma apply_verdicts_ok events indexes cases cases' :
  NoDup indexes → apply_verdicts json_checker_output events indexes cases = Ok cases' →
  length cases' = length cases ∧ (length events ≤ length indexes)%nat ∧
  ∀ i c, cases !! i = Some c →
    (i ∉ take (length events) indexes → cases' !! i = Some c) ∧
    (∀ k, indexes !! k = Some i → (k < length events)%nat → ∃ e r accepted,
       events !! k = Some (Some e) ∧ ev_Result e = Some r ∧ er_Status r = "Accepted" ∧
       parseSpecialJudgeOutput json_checker_output (er_Stdout r) = Some accepted ∧
       cases' !! i = Some (apply_verdict c r accepted)).
Proof.
  revert indexes cases. induction events as [|ev events IH]; intros indexes cases Hnd H.
  { injection H as <-. split_and!; [done|simpl; lia|]. intros i c Hc. split; [done|]. simpl. lia. }
  cbn [apply_verdicts] in H. destruct ev as [e|], indexes as [|index indexes]; try done.
  destruct (ev_Result e) as [r|] eqn:Hr; [|done].
  case_bool_decide as Hacc; [|done]. cbn [negb] in H.
  destruct (parseSpecialJudgeOutput json_checker_output (er_Stdout r)) as [accepted|] eqn:Hp; [|done].
  apply NoDup_cons in Hnd as [Hfresh Hnd]. destruct (IH _ _ Hnd H) as (Hl & Hle & Hall).
  rewrite length_alter in Hl. split_and!; [done|simpl; lia|]. intros i c Hc.
  destruct (decide (i = index)) as [->|Hne].
  - destruct (Hall index (apply_verdict c r accepted)) as [Hkeep _]; [by rewrite list_lookup_alter_eq, Hc|].
    assert (index ∉ take (length events) indexes).
    { intros (? & Hin)%list_elem_of_lookup. apply lookup_take_Some in Hin as [Hin _].
      by apply Hfresh, (list_elem_of_lookup_2 _ _ _ Hin). }
    split; [intros Hn; exfalso; apply Hn; simpl; left|].
    intros [|k] Hk Hlt; simplify_eq/=; [exists e, r, accepted; auto 10|].
    exfalso. by apply Hfresh, (list_elem_of_lookup_2 _ _ _ Hk).
  - destruct (Hall i c) as [Hkeep Hverdict]; [by rewrite list_lookup_alter_ne|]. split.
    + intros Hn. apply Hkeep. intros Hin. apply Hn. simpl. by right.
    + intros [|k] Hk Hlt; simplify_eq/=. apply Hverdict; [done|lia].
Qed.
End Special.

(** * The contract of a successful canonical execution

    Every result [ExecuteCanonical] returns is well formed with respect to the
    manifest it was judged against: the consumers of the result, the durable
    worker and the callback client, are proved against this contract. *)
Definition contestant_status (s : Status) : Prop := known_status s = true ∧ s ≠ StatusSystemError.

Record case_sane (timeBound : Z) (c : CanonicalCaseResult) : Prop := {
  cs_status : contestant_status (cc_Status c);
  cs_time : 0 ≤ cc_TimeUsedMillis c ≤ timeBound;
  cs_memory : 0 ≤ cc_MemoryUsedKB c ≤ memoryCap
}.

Definition is_case_compile_error (c : CanonicalCaseResult) : Prop := cc_Status c = StatusCompileError.

(** A result before scoring: the reported cases are a prefix of the manifest,
    shorter than it only when the batch could stop early or did not compile. *)
Record raw_wf (m : Manifest) (stop : bool) (timeBound : Z) (r : CanonicalResult) : Prop := {
  rw_ids : ∃ rest, case_ID <$> m_Cases m = (cc_CaseID <$> can_Cases r) ++ rest ∧
                   (rest ≠ [] → stop = true ∨ can_Cases r = []);
  rw_cases : Forall (case_sane timeBound) (can_Cases r);
  rw_unscored : Forall (λ c, cc_Score c = None ∧ cc_MaxScore c = None) (can_Cases r) ∧
                can_Score r = None ∧ can_TotalScore r = None;
  rw_status : can_Cases r = [] ∧ can_Status r = StatusCompileError ∨
              can_Cases r ≠ [] ∧ can_Status r = first_failure (can_Cases r);
  rw_metrics : 0 ≤ can_TimeUsedMillis r ≤ timeBound ∧ 0 ≤ can_MemoryUsedKB r ≤ memoryCap;
  rw_exit : can_Status r = StatusAccepted → can_ExitCode r = 0;
  rw_stderr : UTF16Len (can_Stderr r) ≤ 65536;
  rw_compile : can_CompileError r = "" ∨ can_CompileError r = redacted;
  rw_compile_text : can_Cases r = [] ∨ Exists is_case_compile_error (can_Cases r) →
                    can_CompileError r = redacted
}.

Lemma max_metrics timeBound cases :
  0 ≤ timeBound → Forall (case_sane timeBound) cases →
  0 ≤ foldl (λ t c, Z.max t (cc_TimeUsedMillis c)) 0 cases ≤ timeBound ∧
  0 ≤ foldl (λ t c, Z.max t (cc_MemoryUsedKB c)) 0 cases ≤ memoryCap.
Proof.
  intros Hb Hall. split; apply foldl_max_le; try (unfold memoryCap; lia);
    (eapply Forall_impl; [exact Hall|]); intros c [_ ? ?]; lia.
Qed.

(** ** Aggregation meets the contract *)
Section Aggregated.
Context (sha256_hex : string → string).

Lemma canonical_case_sane checker item :
  isKnownContestantStatus (er_Status item.1.2) = true →
  case_sane timeCap (canonical_case sha256_hex checker item).
Proof.
  intros Hk. split; simpl.
  - unfold case_status. destruct (_ && _); [done|].
    apply mapCallbackStatus_known in Hk. by destruct Hk.
  - apply boundedMetric_range. unfold timeCap. lia.
  - apply boundedMetric_range. unfold memoryCap. lia.
Qed.

Lemma reported_shape cases :
  cases ≠ [] →
  reported ((case_event <$> cases) ++ [completed_event]) = cases ∧
  is_compile_error ((case_event <$> cases) ++ [completed_event]) = false.
Proof.
  intros Hne. split.
  - clear Hne. induction cases as [|[id r] cases IH]; [done|].
    rewrite fmap_cons. cbn [app reported case_event ev_Result]. rewrite <-IH at 2.
    destruct cases; done.
  - by destruct cases.
Qed.

Lemma compile_error_raw m stop : raw_wf m stop timeCap compile_error_result.
Proof.
  split; try done; [|by repeat constructor..|by left|by right].
  exists (case_ID <$> m_Cases m). split; [done|]. by right.
Qed.

Lemma canonical_case_ids checker (checks : list string) (cases : list (string * ExecuteResponse)) :
  (length cases ≤ length checks)%nat →
  cc_CaseID <$> (canonical_case sha256_hex checker <$> zip_with (λ c e, (c.1, c.2, e)) cases checks) = cases.*1.
Proof.
  revert checks. induction cases; intros [|e checks] Hle; simpl in *; try done; [lia|].
  f_equal. apply IHcases. lia.
Qed.

(** The cases of a stream that did not fail to compile. *)
Lemma aggregate_cases_raw m stop checks cases rest :
  case_ID <$> m_Cases m = cases.*1 ++ rest → (rest ≠ [] → stop = true) →
  length checks = length (m_Cases m) → cases ≠ [] →
  Forall (λ c, isKnownContestantStatus (er_Status c.2) = true) cases →
  raw_wf m stop timeCap (aggregate_cases sha256_hex (m_Checker m) checks cases).
Proof.
  intros Hids Hrest Hlen Hne Hknown.
  assert (Hle : (length cases ≤ length checks)%nat).
  { rewrite Hlen, <-(length_fmap case_ID), Hids, length_app, length_fmap. lia. }
  destruct (aggregate_cases_spec sha256_hex (m_Checker m) checks cases) as ([Hs Ht Hm Hsc He Hc] & Hcases & Hexit).
  set (r := aggregate_cases sha256_hex (m_Checker m) checks cases) in *.
  assert (Hsane : Forall (case_sane timeCap) (can_Cases r)).
  { rewrite Hcases. apply Forall_fmap. eapply Forall_zip_with_fst; [exact Hknown|].
    apply Forall_forall. intros e _ c Hk. by apply canonical_case_sane. }
  assert (Hcasesne : can_Cases r ≠ []).
  { rewrite Hcases. destruct cases, checks; simpl in *; try done; lia. }
  pose proof (max_metrics timeCap (can_Cases r) ltac:(unfold timeCap; lia) Hsane).
  split; try done.
  - exists rest. split; [by rewrite Hcases, canonical_case_ids|]. auto.
  - split; [|done]. rewrite Hcases. apply Forall_fmap, Forall_forall. done.
  - by right.
  - rewrite Ht, Hm. done.
  - rewrite Hc. destruct (existsb _ _); auto.
  - intros [?|Hex]; [done|]. rewrite Hc.
    assert (existsb (λ c, bool_decide (cc_Status c = StatusCompileError)) (can_Cases r) = true) as ->; [|done].
    apply existsb_exists. apply Exists_exists in Hex as (c & Hin & Hce').
    exists c. split; [by apply list_elem_of_In|]. by apply bool_decide_eq_true.
Qed.

Lemma aggregateBatchResult_raw m request checks events :
  bc_CaseId <$> br_Cases request = case_ID <$> m_Cases m → length checks = length (m_Cases m) →
  validateBatchEvents request events = true →
  raw_wf m (br_StopOnFailure request) timeCap (aggregateBatchResult sha256_hex m checks events).1.
Proof.
  intros Hids Hlen Hv. apply validateBatchEvents_shape in Hv as [(r & -> & _)|(cases & Hshape)].
  { apply compile_error_raw. }
  destruct Hshape as [-> Hcne Hknown _ (rest & Hrest & Hstop)].
  destruct (reported_shape cases Hcne) as [Hrep Hce].
  unfold aggregateBatchResult. rewrite Hce, Hrep. cbn [fst].
  eapply aggregate_cases_raw; [by rewrite <-Hids| |done..]. intros ?. by apply Hstop.
Qed.
End Aggregated.

(** ** The special judge keeps the contract *)
Lemma recompute_raw m stop timeBound r :
  0 ≤ timeBound → can_Cases r ≠ [] →
  (∃ rest, case_ID <$> m_Cases m = (cc_CaseID <$> can_Cases r) ++ rest ∧
           (rest ≠ [] → stop = true ∨ can_Cases r = [])) →
  Forall (case_sane timeBound) (can_Cases r) →
  Forall (λ c, cc_Score c = None ∧ cc_MaxScore c = None) (can_Cases r) ∧
    can_Score r = None ∧ can_TotalScore r = None →
  can_CompileError r = "" ∨ can_CompileError r = redacted →
  (Exists is_case_compile_error (can_Cases r) → can_CompileError r = redacted) →
  raw_wf m stop timeBound (recomputeCanonicalVerdict r).
Proof.
  intros Hb Hne Hids Hsane Huns Hc Hce. pose proof (max_metrics _ _ Hb Hsane).
  split; try done; simpl.
  - by right.
  - apply (TruncateUTF16_bound _ 65536).
  - naive_solver.
Qed.

(** A case after the checker ran: untouched, or judged again once. *)
Definition judged (c c' : CanonicalCaseResult) : Prop :=
  c' = c ∨ cc_Status c = StatusAccepted ∧ ∃ r accepted, c' = apply_verdict c r accepted.

Lemma judged_sane c c' : case_sane timeCap c → judged c c' → case_sane (2 * timeCap) c'.
Proof.
  intros [Hs Ht Hm] [->|(_ & r & accepted & ->)]; [split; [done|unfold timeCap in *; lia|done]|].
  pose proof (boundedMetric_range (er_TimeUsed r) timeCap ltac:(unfold timeCap; lia)).
  pose proof (boundedMetric_range (er_MemoryUsed r) memoryCap ltac:(unfold memoryCap; lia)).
  split; simpl; [by destruct accepted|lia|lia].
Qed.

Lemma judged_fields c c' :
  judged c c' → cc_CaseID c' = cc_CaseID c ∧ cc_Score c' = cc_Score c ∧ cc_MaxScore c' = cc_MaxScore c ∧
  (is_case_compile_error c' → is_case_compile_error c).
Proof. intros [->|(_ & r & [] & ->)]; done. Qed.

Lemma judged_raw m stop r cases :
  raw_wf m stop timeCap r → can_Cases r ≠ [] → Forall2 judged (can_Cases r) cases →
  raw_wf m stop (2 * timeCap) (recomputeCanonicalVerdict (with_cases r cases)).
Proof.
  intros [(rest & Hids & Hrest) Hsane [Huns Hsc] _ _ _ _ Hc Hce] Hne Hall.
  assert (Hmap : cc_CaseID <$> cases = cc_CaseID <$> can_Cases r).
  { clear -Hall. induction Hall as [|c c' l l' Hj _ IH]; [done|].
    rewrite !fmap_cons, IH. by destruct (judged_fields _ _ Hj) as [-> _]. }
  apply recompute_raw; simpl.
  - unfold timeCap. lia.
  - intros ->. by apply Forall2_nil_inv_r in Hall.
  - exists rest. split; [by rewrite Hmap|]. intros Hr. destruct (Hrest Hr); [by left|done].
  - clear -Hall Hsane. induction Hall; [constructor|]. apply Forall_cons in Hsane as [? ?].
    constructor; [by eapply judged_sane|auto].
  - split; [|done]. clear -Hall Huns. induction Hall as [|c c' l l' Hj Hl IH]; [constructor|].
    apply Forall_cons in Huns as [? ?]. constructor; [|auto].
    destruct (judged_fields _ _ Hj) as (_ & -> & -> & _). done.
  - done.
  - intros Hex. apply Hce. right. clear -Hall Hex. induction Hall as [|c c' l l' Hj Hl IH]; [inversion Hex|].
    apply Exists_cons in Hex as [Hex|Hex]; [left; by apply (judged_fields _ _ Hj)|right; auto].
Qed.

(** ** Scoring *)

(** The OI points of one case against its manifest weight. *)
Record case_scored (c : CanonicalCaseResult) (mc : Case) : Prop := {
  sc_id : cc_CaseID c = case_ID mc;
  sc_points : cc_Score c = Some (if decide (cc_Status c = StatusAccepted) then case_Weight mc else 0);
  sc_max : cc_MaxScore c = Some (case_Weight mc)
}.

(** The contract of a result for its manifest. *)
Record canonical_wf (m : Manifest) (r : CanonicalResult) : Prop := {
  cw_manifest : manifest_wf m;
  cw_count : Z.of_nat (length (m_Cases m)) ≤ maxSandboxBatchCasesV1;
  cw_ids : ∃ rest, case_ID <$> m_Cases m = (cc_CaseID <$> can_Cases r) ++ rest;
  cw_cases : Forall (case_sane (2 * timeCap)) (can_Cases r);
  cw_status : contestant_status (can_Status r);
  cw_metrics : 0 ≤ can_TimeUsedMillis r ≤ 2 * timeCap ∧ 0 ≤ can_MemoryUsedKB r ≤ memoryCap;
  cw_exit : can_Status r = StatusAccepted → can_ExitCode r = 0;
  cw_text : UTF16Len (can_Stderr r) ≤ 65536 ∧
            (can_CompileError r = "" ∨ can_CompileError r = redacted) ∧
            (can_Status r = StatusCompileError → can_CompileError r = redacted);
  cw_score :
    if decide (m_JudgeMode m = JudgeModeOI) then
      (can_Cases r = [] ∧ can_Status r = StatusCompileError ∨ Forall2 case_scored (can_Cases r) (m_Cases m)) ∧
      can_Score r = Some (sumZ case_points (can_Cases r)) ∧
      can_TotalScore r = Some (sumZ case_Weight (m_Cases m)) ∧
      (can_Status r ≠ StatusCompileError →
       can_Status r = (if decide (Forall (λ c, cc_Status c = StatusAccepted) (can_Cases r))
                       then StatusAccepted else StatusWrongAnswer))
    else
      can_Score r = None ∧ can_TotalScore r = None ∧
      Forall (λ c, cc_Score c = None ∧ cc_MaxScore c = None) (can_Cases r) ∧
      (can_Cases r = [] ∧ can_Status r = StatusCompileError ∨
       can_Cases r ≠ [] ∧ can_Status r = first_failure (can_Cases r))
}.

(** All points are awarded exactly when every case was accepted. *)
Lemma points_total cases mcs :
  Forall (λ mc, 0 < case_Weight mc) mcs → Forall2 case_scored cases mcs →
  sumZ case_points cases ≤ sumZ case_Weight mcs ∧
  (sumZ case_points cases = sumZ case_Weight mcs ↔ Forall (λ c, cc_Status c = StatusAccepted) cases).
Proof.
  intros Hpos Hall. induction Hall as [|c mc cases mcs [_ Hp _] Hrest IH]; [done|].
  apply Forall_cons in Hpos as [Hw Hpos]. destruct (IH Hpos) as [Hle Hiff].
  rewrite Forall_cons. simpl. unfold case_points at 1 3. rewrite Hp. simpl.
  case_decide as Hs; [split; [lia|]; rewrite <-Hiff; split; [intros; split; [done|lia]|intros [_ ?]; lia]|].
  split; [lia|]. split; [lia|naive_solver].
Qed.

Lemma points_nonneg cases mcs :
  Forall (λ mc, 0 < case_Weight mc) mcs → Forall2 case_scored cases mcs → 0 ≤ sumZ case_points cases.
Proof.
  intros Hpos Hall. induction Hall as [|c mc cases mcs [_ Hp _] Hrest IH]; [done|].
  apply Forall_cons in Hpos as [Hw Hpos]. specialize (IH Hpos). simpl. unfold case_points at 1.
  rewrite Hp. simpl. case_decide; lia.
Qed.

Lemma score_cases_scored cases mcs :
  cc_CaseID <$> cases = case_ID <$> mcs →
  Forall2 case_scored (zip_with (λ c mc, score_case c (case_Weight mc)) cases mcs) mcs.
Proof.
  revert mcs. induction cases as [|c cases IH]; intros [|mc mcs] Hids; simplify_eq/=; [constructor|].
  constructor; [|auto]. split; simpl; [done| |done]. case_decide; [by rewrite bool_decide_eq_true_2|].
  by rewrite bool_decide_eq_false_2.
Qed.

Lemma score_cases_keep (P : CanonicalCaseResult → Prop) cases mcs :
  (∀ c w, P c → P (score_case c w)) → Forall P cases →
  Forall P (zip_with (λ c mc, score_case c (case_Weight mc)) cases mcs).
Proof.
  intros HP Hall. revert mcs. induction Hall; intros [|mc mcs]; simpl; constructor; auto.
Qed.

Lemma score_cases_ids cases mcs :
  (length cases ≤ length mcs)%nat →
  cc_CaseID <$> zip_with (λ c mc, score_case c (case_Weight mc)) cases mcs = cc_CaseID <$> cases.
Proof.
  revert mcs. induction cases as [|c cases IH]; intros [|mc mcs] Hl; simpl in *; try done; [lia|].
  f_equal. apply IH. lia.
Qed.

Lemma raw_status m stop b r : raw_wf m stop b r → contestant_status (can_Status r).
Proof.
  intros [_ Hs _ [[_ ->]|[_ Hst]] _ _ _ _ _]; [done|].
  destruct (decide (can_Status r = StatusAccepted)) as [->|Hne]; [done|].
  symmetry in Hst. destruct (first_failure_elem _ _ Hst Hne) as (c & Hc & <-).
  rewrite Forall_forall in Hs. by destruct (Hs c Hc).
Qed.

Lemma raw_compile_text m stop b r :
  raw_wf m stop b r → can_Status r = StatusCompileError → can_CompileError r = redacted.
Proof.
  intros [_ _ _ [[Hn _]|[_ Hst]] _ _ _ _ Hce] E; apply Hce; [by left|]. right.
  symmetry in Hst. destruct (first_failure_elem _ _ Hst) as (c & Hc & Ec); [by rewrite E|].
  apply Exists_exists. exists c. split; [done|]. unfold is_case_compile_error. congruence.
Qed.

Lemma oi_positive m : manifest_wf m → m_JudgeMode m = JudgeModeOI → Forall (λ mc, 0 < case_Weight mc) (m_Cases m).
Proof.
  intros [_ _ _ _ _ _ Hw _] E. rewrite E in Hw. eapply Forall_impl; [exact Hw|]. intros c [? _]. done.
Qed.

Lemma applyManifestScoring_oi m r total :
  m_JudgeMode m = JudgeModeOI → m_TotalScore m = Some total →
  let cases := zip_with (λ c mc, score_case c (case_Weight mc)) (can_Cases r) (m_Cases m) in
  let ce := bool_decide (can_Status r = StatusCompileError) in
  applyManifestScoring m r =
  {| can_Status := if ce then can_Status r
                   else if sumZ case_points cases =? total then StatusAccepted else StatusWrongAnswer;
     can_ExitCode := if negb ce && (sumZ case_points cases =? total) then 0 else can_ExitCode r;
     can_TimeUsedMillis := can_TimeUsedMillis r; can_MemoryUsedKB := can_MemoryUsedKB r;
     can_Stderr := can_Stderr r; can_CompileError := can_CompileError r;
     can_Score := Some (sumZ case_points cases); can_TotalScore := Some total; can_Cases := cases |}.
Proof. unfold applyManifestScoring. by intros -> ->. Qed.

(** Scoring turns an unscored result into one that meets the contract. *)
Lemma applyManifestScoring_oi_wf m r :
  manifest_wf m → Z.of_nat (length (m_Cases m)) ≤ maxSandboxBatchCasesV1 → raw_wf m false (2 * timeCap) r → m_JudgeMode m = JudgeModeOI →
  canonical_wf m (applyManifestScoring m r).
Proof.
  intros Hm Hcount Hr E. pose proof (mwf_total m Hm) as Ht. rewrite decide_True in Ht by done. destruct Ht as [Ht _].
  pose proof (raw_status _ _ _ _ Hr) as Hst. pose proof (raw_compile_text _ _ _ _ Hr) as Hct.
  pose proof (oi_positive m Hm E) as Hpos.
  destruct Hr as [(rest & Hids & Hrest) Hsane _ Hstatus Hmet Hexit Herr Hc _].
  rewrite (applyManifestScoring_oi m r _ E Ht). cbn zeta.
  set (cases := zip_with _ (can_Cases r) (m_Cases m)).
  set (ce := bool_decide (can_Status r = StatusCompileError)).
  assert (Hlen : (length (can_Cases r) ≤ length (m_Cases m))%nat).
  { apply (f_equal length) in Hids. rewrite length_app, !length_fmap in Hids. lia. }
  assert (Hscored : cases = [] ∧ can_Status r = StatusCompileError ∨ Forall2 case_scored cases (m_Cases m)).
  { destruct Hstatus as [[Hn ?]|[Hn _]]; [left; split; [by unfold cases; rewrite Hn|done]|right].
    apply score_cases_scored. destruct rest; [by rewrite Hids, app_nil_r|].
    destruct Hrest as [?|?]; done. }
  assert (Hverdict : ce = false → (sumZ case_points cases =? sumZ case_Weight (m_Cases m)) =
    bool_decide (Forall (λ c, cc_Status c = StatusAccepted) cases)).
  { intros Hce. apply bool_decide_eq_false in Hce. destruct Hscored as [[_ ?]|Hsc]; [done|].
    apply eq_bool_prop_intro. rewrite !Is_true_true, Z.eqb_eq, bool_decide_eq_true.
    by apply points_total. }
  split; try done; cbn [can_Cases can_Status can_ExitCode can_CompileError can_Stderr can_Score can_TotalScore
    can_TimeUsedMillis can_MemoryUsedKB].
  - exists rest. rewrite Hids. f_equal. symmetry. by apply score_cases_ids.
  - apply score_cases_keep; [|done]. intros c w [? ? ?]. by split.
  - destruct ce; [done|]. by destruct (_ =? _).
  - destruct ce eqn:Hce; simpl; [|by destruct (_ =? _)].
    apply bool_decide_eq_true in Hce. by rewrite Hce.
  - split_and!; [done|done|]. destruct ce; [done|]. by destruct (_ =? _).
  - rewrite decide_True by done. split_and!; [|done|done|].
    + destruct Hscored as [[? ?]|?]; [left|by right]. split; [done|]. unfold ce. by rewrite bool_decide_eq_true_2.
    + intros Hne. destruct ce eqn:Hce; [by apply bool_decide_eq_true in Hce|].
      rewrite Hverdict by done. case_bool_decide; by case_decide.
Qed.

Lemma applyManifestScoring_wf m stop r :
  manifest_wf m → Z.of_nat (length (m_Cases m)) ≤ maxSandboxBatchCasesV1 → raw_wf m stop (2 * timeCap) r → (m_JudgeMode m = JudgeModeOI → stop = false) →
  canonical_wf m (applyManifestScoring m r).
Proof.
  intros Hm Hcount Hr Hstop. destruct (decide (m_JudgeMode m = JudgeModeOI)) as [E|E].
  { rewrite (Hstop E) in Hr. by apply applyManifestScoring_oi_wf. }
  pose proof (raw_status _ _ _ _ Hr). pose proof (raw_compile_text _ _ _ _ Hr).
  assert (applyManifestScoring m r = r) as ->.
  { unfold applyManifestScoring. destruct (m_JudgeMode m); done. }
  destruct Hr as [(rest & Hids & _) ? [? [? ?]] ? ? ? ? ? ?]. split; try done; [eauto|].
  rewrite decide_False by done. done.
Qed.

Section Contract.
Context {S : Type} `{SandboxSelector S}.
Context (rpc : list (string * BatchRequest) → string → BatchRequest →
               result rpc_error (list (option BatchEvent))).
Context (request_size : BatchRequest → Z) (case_size : BatchCase → Z)
        (size_tag size_varint : Z → Z) (sha256_hex : string → string)
        (json_checker_output : string → option specialJudgeOutput).
Local Notation special_judge :=
  (applySpecialJudge rpc request_size case_size size_tag size_varint json_checker_output).
Local Notation execute :=
  (ExecuteCanonical rpc request_size case_size size_tag size_varint sha256_hex json_checker_output).

(** The items of the checker loop carry the cases in order. *)
Lemma zip_cases_lookup (cases : list CanonicalCaseResult) (xs ys zs : list string) k item :
  zip (zip (zip cases xs) ys) zs !! k = Some item → cases !! k = Some item.1.1.1.
Proof.
  rewrite !lookup_zip_with. intros Hz.
  destruct (cases !! k), (xs !! k), (ys !! k), (zs !! k); simplify_eq/=; done.
Qed.

Lemma applySpecialJudge_judged p m artifact contestant expected actual r env r' env' :
  special_judge p m artifact contestant expected actual r env = (Ok r', env') →
  ∃ cases, Forall2 judged (can_Cases r) cases ∧ r' = recomputeCanonicalVerdict (with_cases r cases).
Proof.
  assert (Hsame : Forall2 judged (can_Cases r) (can_Cases r)) by (apply Forall_Forall2_diag, Forall_forall; by left).
  unfold applySpecialJudge. destruct (art_ReadSpecialJudge artifact) as [special|]; [|done].
  destruct (m_SpecialJudge m) as [sj|]; [|done]. destruct (_ || _ || _ || _); [done|].
  destruct special as [source|]; [|done]. case_bool_decide; [done|].
  destruct (checker_cases _ _ _ _ _ _ _) as [[cs indexes]|] eqn:Hcs; [|done].
  destruct cs as [|c cs].
  { intros [= <- <-]. exists (can_Cases r). split; [done|]. by destruct r. }
  destruct (executeBatch _ _ _ _) as [[[events|]|] env1]; [|done..].
  case_bool_decide as Hlen; [|done]. cbn [negb]. destruct (is_compile_error events); [done|].
  destruct (apply_verdicts _ _ _ _) as [cases|] eqn:Hv; [|done]. intros [= <- <-].
  exists cases. split; [|done].
  apply checker_cases_ok in Hcs as (_ & Hnd & Hin). apply apply_verdicts_ok in Hv as (Hl & _ & Hall); [|done].
  apply Forall2_same_length_lookup_2; [done|]. intros i c1 c2 Hc1 Hc2.
  destruct (Hall i c1 Hc1) as [Hkeep Hverdict].
  destruct (decide (i ∈ take (length (take (length (c :: cs)) events)) indexes)) as [Hi|Hi].
  - apply list_elem_of_lookup in Hi as (k & Hk). apply lookup_take_Some in Hk as [Hk Hlt].
    destruct (Hverdict k Hk Hlt) as (e & rr & accepted & _ & _ & _ & _ & Hcc).
    right. rewrite Hcc in Hc2. injection Hc2 as <-. split; [|eauto].
    destruct (proj1 (Hin i) (list_elem_of_lookup_2 _ _ _ Hk)) as (k' & item & -> & Hz & Hs).
    apply zip_cases_lookup in Hz. simpl in Hc1. congruence.
  - left. rewrite (Hkeep Hi) in Hc2. congruence.
Qed.

Lemma raw_weaken m stop r : raw_wf m stop timeCap r → raw_wf m stop (2 * timeCap) r.
Proof.
  intros [? Hs ? ? [? ?] ? ? ? ?]. split; try done.
  - eapply Forall_impl; [exact Hs|]. intros c [? ? ?]. split; [done|unfold timeCap in *; lia|done].
  - split; [unfold timeCap in *; lia|done].
Qed.

(** The requests of a checker: the special judge of the artifact. *)
Definition special_call (artifact : CaseArtifact) (call : string * BatchRequest) : Prop :=
  ∃ sj source, m_SpecialJudge (art_Manifest artifact) = Some sj ∧ art_ReadSpecialJudge artifact = Some (Some source) ∧
    br_Language call.2 = sj_Language sj ∧ br_SourceCode call.2 = source.

(** How a result was made: the code was sent with the cases of the artifact, one
    request to one sandbox after the other; the last of them answered [events],
    and the verdict is read from them, by the special judge if there is one. *)
Record judged_run (language source : string) (artifact : CaseArtifact) (before after : list (string * BatchRequest))
    (r : CanonicalResult) (request : BatchRequest) : Prop := {
  jr_code : br_Language request = language ∧ br_SourceCode request = source;
  jr_cases : ∃ checks, length (br_Cases request) = length (m_Cases (art_Manifest artifact)) ∧
    length checks = length (m_Cases (art_Manifest artifact)) ∧
    (∀ i tc rc check, m_Cases (art_Manifest artifact) !! i = Some tc → br_Cases request !! i = Some rc →
       checks !! i = Some check → request_case_ok sha256_hex artifact (m_Checker (art_Manifest artifact)) tc rc check) ∧
    ∃ pre address events checked,
      after = before ++ map (λ a, (a, request)) (pre ++ [address]) ++ checked ∧
      rpc (before ++ map (λ a, (a, request)) pre) address request = Ok events ∧
      validateBatchEvents request events = true ∧
      let raw := (aggregateBatchResult sha256_hex (art_Manifest artifact) checks events).1 in
      (checked = [] ∧ r = applyManifestScoring (art_Manifest artifact) raw ∨
       m_Checker (art_Manifest artifact) = CheckerSpecial ∧ Forall (special_call artifact) checked ∧
       ∃ cases, Forall2 judged (can_Cases raw) cases ∧
         r = applyManifestScoring (art_Manifest artifact) (recomputeCanonicalVerdict (with_cases raw cases)))
}.

Lemma executeBatch_answered p request env events env' :
  executeBatch rpc p request env = (Ok (Some events), env') →
  validateBatchEvents request events = true ∧
  ∃ pre address, env_calls env' = env_calls env ++ map (λ a, (a, request)) (pre ++ [address]) ∧
    rpc (env_calls env ++ map (λ a, (a, request)) pre) address request = Ok events.
Proof.
  unfold executeBatch. intros (addresses & Hc & _ & _ & _ & Hv & pre & a & -> & Hr)%execute_loop_spec. eauto.
Qed.

Lemma applySpecialJudge_calls p m artifact contestant expected actual r env r' env' :
  m = art_Manifest artifact → special_judge p m artifact contestant expected actual r env = (Ok r', env') →
  ∃ checked, env_calls env' = env_calls env ++ checked ∧ Forall (special_call artifact) checked.
Proof.
  intros ->. unfold applySpecialJudge. destruct (art_ReadSpecialJudge artifact) as [special|] eqn:Hs; [|done].
  destruct (m_SpecialJudge _) as [sj|] eqn:Hsj; [|done]. destruct (_ || _ || _ || _); [done|].
  destruct special as [source|]; [|done]. case_bool_decide; [done|].
  destruct (checker_cases _ _ _ _ _ _ _) as [[cs indexes]|]; [|done].
  destruct cs as [|c cs]; [intros [= <- <-]; exists []; by rewrite app_nil_r|].
  destruct (executeBatch _ _ _ _) as [[[events|]|] env1] eqn:He; [|done..].
  case_bool_decide; [|done]. cbn [negb]. destruct (is_compile_error events); [done|].
  destruct (apply_verdicts _ _ _ _) as [cases|]; [|done]. intros [= <- <-].
  apply executeBatch_answered in He as (_ & pre & a & Hc & _). eexists. split; [exact Hc|].
  apply Forall_map, Forall_forall. intros x _. by exists sj, source.
Qed.

(** A result is the outcome of running the code of the request. *)
Lemma ExecuteCanonical_run p input artifact env r env' :
  execute p input artifact env = (Ok r, env') →
  ∃ request, judged_run (cr_Language input) (cr_SourceCode input) artifact (env_calls env) (env_calls env') r request.
Proof.
  unfold ExecuteCanonical. destruct (_ || _); [done|]. set (m := art_Manifest artifact).
  destruct (Validate m) as [[]|]; [|done]. destruct (_ <? _); [done|]. destruct (_ <? _); [done|].
  destruct (build_cases _ _ _ _ _ _ _ _ _ _) as [[cs checks]|] eqn:Hb; [|done].
  apply build_cases_ok in Hb as (Hl & Hlc & _ & Hcases & _).
  destruct (executeBatch _ _ _ _) as [[[events|]|] env1] eqn:He; [|done..].
  apply executeBatch_answered in He as (Hv & pre & a & Hc & Hrpc).
  set (request := contestant_request m input cs) in *. intros Hex. exists request. split; [done|]. exists checks.
  split_and!; [done..|]. exists pre, a, events. revert Hex.
  destruct (aggregateBatchResult sha256_hex m checks events) as [result actual] eqn:Ha. cbn [fst].
  case_bool_decide; [done|]. destruct (_ && _) eqn:Hsp.
  - destruct (special_judge _ _ _ _ _ _ _ _) as [[result'|] env2] eqn:Hj; [|done]. intros [= <- <-].
    pose proof Hj as (cases & Hall & ->)%applySpecialJudge_judged.
    apply applySpecialJudge_calls in Hj as (checked & Hc2 & Hspecial); [|done]. bool_to_prop. exists checked.
    split_and!; [by rewrite Hc2, Hc, <-app_assoc|done..|]. right. fold m. rewrite Ha. eauto.
  - intros [= <- <-]. exists []. split_and!; [by rewrite Hc, app_nil_r|done..|]. left. fold m. by rewrite Ha.
Qed.

(** Every way [ExecuteCanonical] gives a result. *)
Lemma ExecuteCanonical_wf p input artifact env r env' :
  execute p input artifact env = (Ok r, env') → canonical_wf (art_Manifest artifact) r.
Proof.
  unfold ExecuteCanonical. destruct (_ || _); [done|]. set (m := art_Manifest artifact).
  destruct (Validate m) as [[]|] eqn:Hval; [|done]. apply Validate_sound in Hval.
  destruct (Z.ltb_spec maxSandboxBatchCasesV1 (Z.of_nat (length (m_Cases m)))) as [|Hcount]; [done|].
  destruct (_ <? _); [done|]. destruct (build_cases _ _ _ _ _ _ _ _ _ _) as [[cs checks]|] eqn:Hb; [|done].
  apply build_cases_ok in Hb as (_ & Hlc & Hids & _).
  destruct (executeBatch _ _ _ _) as [[[events|]|] env1] eqn:He; [|done..].
  apply executeBatch_answered in He as [He _].
  set (request := contestant_request m input cs) in *.
  assert (Hstop : m_JudgeMode m = JudgeModeOI → br_StopOnFailure request = false).
  { intros E. unfold request, contestant_request. cbn [br_StopOnFailure]. rewrite E.
    by rewrite andb_false_r. }
  pose proof (aggregateBatchResult_raw sha256_hex m request checks events Hids Hlc He) as Hraw.
  destruct (aggregateBatchResult sha256_hex m checks events) as [result actual]. cbn [fst] in Hraw.
  case_bool_decide; [done|]. destruct (_ && _) eqn:Hsp.
  - destruct (special_judge _ _ _ _ _ _ _ _) as [[result'|] env2] eqn:Hj; [|done]. intros [= <- <-].
    apply applySpecialJudge_judged in Hj as (cases & Hall & ->). bool_to_prop.
    eapply applyManifestScoring_wf; [done|done| |exact Hstop]. apply judged_raw; [done| |done].
    destruct Hraw as [_ _ _ [[_ ?]|[? _]] _ _ _ _ _]; done.
  - intros [= <- <-]. eapply applyManifestScoring_wf; [done|done| |exact Hstop]. by apply raw_weaken.
Qed.

(** C6: whatever the selector chooses and the sandboxes answer, a result
    [ExecuteCanonical] returns meets the contract of its consumers: it reports a prefix
    of the manifest's cases, every metric is within its cap, the status is the first
    failure of the cases (or the score's verdict in OI mode), the scores are those of
    the manifest, and the texts are bounded and redacted. *)
Theorem ExecuteCanonical_contract p input artifact env r env' :
  execute p input artifact env = (Ok r, env') → canonical_wf (art_Manifest artifact) r.
Proof. apply ExecuteCanonical_wf. Qed.
End Contract.
