(* ===== verification/Runner.v ===== *)
(** * The durable worker, [internal/worker/runner.go]

    A worker executes one claimed job: it loads the input, opens the bundle,
    runs the canonical pipeline while a monitor heartbeats the lease and polls
    for cancellation, and reports the outcome to the repository. The repository
    is the interface [Repository]; what the runner relies on is
    [RepositoryLaws]. *)
From stdpp Require Import prelude gmap strings.
From S2P Require Import Prelude.
From S2P Require Import GoText.
From S2P Require Import JobState.
From S2P Require Import Manifest.
From S2P Require Import Scheduler.
From S2P Require Import Callback.
From S2P Require Import Sandbox.
From S2P Require Import BatchPipeline.
From S2P Require Import BatchContract.

Open Scope Z_scope.

(** ** Configuration *)
Record Config : Type := mkConfig {
  LeaseDuration : Z;
  HeartbeatInterval : Z;
  ControlPollInterval : Z;
  RetryDelay : Z
}.

(** [NewRunner]; the dependencies are present by construction. *)
Definition NewRunner (config : Config) : option Config :=
  if (LeaseDuration config <=? 0) || (15 * minute <? LeaseDuration config) ||
     (HeartbeatInterval config <=? 0) || (LeaseDuration config <=? HeartbeatInterval config) ||
     (ControlPollInterval config <=? 0) || (LeaseDuration config <=? ControlPollInterval config) ||
     (RetryDelay config <? 0) || (hour <? RetryDelay config)
  then None else Some config.

(** ** The persisted result *)
Definition durableVerdict (status : Callback.Status) : bool :=
  match status with
  | StatusAccepted | StatusWrongAnswer | StatusCompileError | StatusTimeLimitExceeded
  | StatusMemoryLimitExceeded | StatusRuntimeError | StatusOutputLimitExceeded => true
  | _ => false
  end.

Definition validCanonicalScorePair (score maximum : option Z) : bool :=
  match score, maximum with
  | None, None => true
  | Some s, Some m => (0 <? m) && (m <=? 1000000000) && (0 <=? s) && (s <=? m)
  | _, _ => false
  end.

Definition durable_metrics_ok (time memoryKB : Z) : bool :=
  negb ((time <? 0) || (memoryKB <? 0) || (max_int64 / 1024 <? memoryKB)).

Definition durable_case (item : CanonicalCaseResult) : option DurableCaseResult :=
  if bool_decide (cc_CaseID item = "") || negb (durableVerdict (cc_Status item)) ||
     negb (durable_metrics_ok (cc_TimeUsedMillis item) (cc_MemoryUsedKB item)) then None
  else if negb (validCanonicalScorePair (cc_Score item) (cc_MaxScore item)) then None
  else Some (mkDurableCaseResult (cc_CaseID item) (status_string (cc_Status item))
               (cc_TimeUsedMillis item) (wrap_int64 (cc_MemoryUsedKB item * 1024))
               (cc_Score item) (cc_MaxScore item)).

Fixpoint durable_cases (items : list CanonicalCaseResult) : option (list DurableCaseResult) :=
  match items with
  | [] => Some []
  | item :: items =>
      match durable_case item with
      | None => None
      | Some c => option_map (cons c) (durable_cases items)
      end
  end.

Definition durableResult (r : CanonicalResult) : option DurableJobResult :=
  if negb (durableVerdict (can_Status r)) ||
     negb (durable_metrics_ok (can_TimeUsedMillis r) (can_MemoryUsedKB r)) then None
  else if negb (validCanonicalScorePair (can_Score r) (can_TotalScore r)) then None
  else
    match durable_cases (can_Cases r) with
    | None => None
    | Some cases =>
        let durable :=
          {| dr_Verdict := status_string (can_Status r);
             dr_CompileStatus := if bool_decide (can_Status r = StatusCompileError) then "FAILED" else "SUCCEEDED";
             dr_TimeMillis := can_TimeUsedMillis r;
             dr_MemoryBytes := wrap_int64 (can_MemoryUsedKB r * 1024);
             dr_Score := can_Score r; dr_TotalScore := can_TotalScore r; dr_Cases := cases |} in
        if validateDurableJobResult durable then Some durable else None
    end.

(** ** One claim *)

(** What the runner distinguishes in an error. *)
Inductive run_error : Type :=
| RunStaleClaim
| RunContext
| RunTransientDatabase
| RunNotClaimable
| RunCancellationRequested
| RunTenantChecker
| RunOther.

#[export] Instance run_error_eq_dec : EqDecision run_error.
Proof. solve_decision. Defined.

(** The repository a worker talks to; [W] is the state behind it. *)
Class Repository (W Claim : Type) : Type := {
  repo_Complete : W → Claim → DurableJobResult → result run_error unit * W;
  repo_FailInfrastructure : W → Claim → InfrastructureFailure → result run_error unit * W;
  repo_ClaimNext : W → string → Z → result run_error Claim * W
}.

Section Claims.
Context {W Claim : Type} `{Repository W Claim}.

(** A stale claim is somebody else's job by now: nothing is left to do. *)
Definition ignore_stale (out : result run_error unit * W) : result run_error unit * W :=
  match out with
  | (Err RunStaleClaim, w) => (Ok tt, w)
  | _ => out
  end.

Definition failInfrastructure (config : Config) (w : W) (claim : Claim) (code : string)
    (chargeFullReservation permanent : bool) : result run_error unit * W :=
  ignore_stale (repo_FailInfrastructure w claim
    (mkInfraFailure code (RetryDelay config) chargeFullReservation permanent)).

Definition cancellation_placeholder : DurableJobResult :=
  {| dr_Verdict := "ACCEPTED"; dr_CompileStatus := "SUCCEEDED"; dr_TimeMillis := 0; dr_MemoryBytes := 0;
     dr_Score := None; dr_TotalScore := None; dr_Cases := [] |}.

Definition completeCancellation (w : W) (claim : Claim) : result run_error unit * W :=
  ignore_stale (repo_Complete w claim cancellation_placeholder).

Definition complete (config : Config) (w : W) (claim : Claim) (r : CanonicalResult) : result run_error unit * W :=
  match durableResult r with
  | None => failInfrastructure config w claim "INVALID_EXECUTION_RESULT" false false
  | Some durable => ignore_stale (repo_Complete w claim durable)
  end.

(** What the monitor goroutine reads, in the order it reads it: the end of the
    execution, the end of the surrounding context, a heartbeat outcome or a
    control poll. *)
Inductive monitor_input : Type :=
| MonitorDone
| MonitorContextDone
| MonitorHeartbeat (outcome : result run_error unit)
| MonitorControl (outcome : result run_error bool).

(** [monitorClaim]: the first input that ends the select decides; [None] while
    the monitor still waits. *)
Fixpoint monitorClaim (inputs : list monitor_input) : option (option run_error) :=
  match inputs with
  | [] => None
  | MonitorDone :: _ => Some None
  | MonitorContextDone :: _ => Some (Some RunContext)
  | MonitorHeartbeat (Ok _) :: inputs => monitorClaim inputs
  | MonitorHeartbeat (Err e) :: _ => Some (Some e)
  | MonitorControl (Ok false) :: inputs => monitorClaim inputs
  | MonitorControl (Ok true) :: _ => Some (Some RunCancellationRequested)
  | MonitorControl (Err e) :: _ => Some (Some e)
  end.

(** [executeControlled]: load, open, execute. [load], [open] and [core] are the
    outcomes of the three calls; an open error says whether the bundle is
    invalid. *)
Definition executeControlled {I A : Type} (load : result run_error I) (open : I → result (bool * run_error) A)
    (core : I → A → result run_error CanonicalResult) : result (string * run_error) CanonicalResult :=
  match load with
  | Err e => Err ("LOAD_EXECUTION_INPUT_FAILED", e)
  | Ok input =>
      match open input with
      | Err (true, e) => Err ("LOAD_BUNDLE_INVALID", e)
      | Err (false, e) => Err ("LOAD_BUNDLE_FAILED", e)
      | Ok artifact =>
          match core input artifact with
          | Err e => Err ("SANDBOX_EXECUTION_FAILED", e)
          | Ok r => Ok r
          end
      end
  end.

(** [ExecuteClaim] after both goroutines have finished: [ctxDone] says whether
    the caller's context has ended. *)
Definition ExecuteClaim (config : Config) (w : W) (claim : Claim) (ctxDone : bool)
    (controlErr : option run_error) (execution : result (string * run_error) CanonicalResult) :
    result run_error unit * W :=
  match controlErr with
  | Some RunCancellationRequested => completeCancellation w claim
  | Some e =>
      if ctxDone then (Err RunContext, w)
      else if bool_decide (e = RunStaleClaim) then (Ok tt, w)
      else failInfrastructure config w claim "LEASE_CONTROL_FAILED" false false
  | None =>
      match execution with
      | Err (failureCode, e) =>
          if bool_decide (e = RunStaleClaim) then (Ok tt, w)
          else if bool_decide (e = RunContext) && ctxDone then (Err RunContext, w)
          else
            let tenantCheckerFailure := bool_decide (e = RunTenantChecker) in
            failInfrastructure config w claim
              (if tenantCheckerFailure then "TENANT_CHECKER_FAILED" else failureCode)
              tenantCheckerFailure tenantCheckerFailure
      | Ok r => complete config w claim r
      end
  end.

(** One iteration of [Run]: continue, wait and continue, or return an error. *)
Inductive run_action : Type :=
| RunContinue
| RunWait
| RunReturn (e : run_error).

Definition run_iteration (config : Config) (w : W) (workerID : string) (ctxDone : bool)
    (controlErr : option run_error) (execution : Claim → result (string * run_error) CanonicalResult) :
    run_action * W :=
  match repo_ClaimNext w workerID (LeaseDuration config) with
  | (Err RunNotClaimable, w) => (RunWait, w)
  | (Err e, w) =>
      if ctxDone then (RunReturn RunContext, w)
      else if bool_decide (e = RunTransientDatabase) then (RunWait, w)
      else (RunReturn e, w)
  | (Ok claim, w) =>
      match ExecuteClaim config w claim ctxDone controlErr (execution claim) with
      | (Err e, w) => if bool_decide (e = RunTransientDatabase) then (RunWait, w) else (RunReturn e, w)
      | (Ok _, w) => (RunContinue, w)
      end
  end.
End Claims.

(** What a repository promises the runner. [repo_active] is the claim being the
    live owner of its job; a settlement that commits ends it, and a stale-claim
    error is only returned when it has ended. [repo_inv] is what the
    repository needs of its state and of the claim. *)
Class RepositoryLaws (W Claim : Type) `{Repository W Claim} : Type := {
  repo_inv : W → Claim → Prop;
  repo_active : W → Claim → Prop;
  law_complete_ends w claim r w' :
    repo_inv w claim → repo_Complete w claim r = (Ok tt, w') → ¬ repo_active w' claim;
  law_complete_stale w claim r w' :
    repo_inv w claim → repo_Complete w claim r = (Err RunStaleClaim, w') → ¬ repo_active w' claim;
  law_fail_ends w claim failure w' :
    repo_inv w claim → repo_FailInfrastructure w claim failure = (Ok tt, w') → ¬ repo_active w' claim;
  law_fail_stale w claim failure w' :
    repo_inv w claim → repo_FailInfrastructure w claim failure = (Err RunStaleClaim, w') → ¬ repo_active w' claim
}.

Section Release.
Context {W Claim : Type} `{RepositoryLaws W Claim}.

Lemma fail_releases config w claim code full permanent w' :
  repo_inv w claim → failInfrastructure config w claim code full permanent = (Ok tt, w') → ¬ repo_active w' claim.
Proof.
  intros Hinv. unfold failInfrastructure, ignore_stale. destruct (repo_FailInfrastructure _ _ _) as [[[]|[]] w1] eqn:E;
    intros [= <-]; by eauto using law_fail_ends, law_fail_stale.
Qed.

Lemma complete_call_releases w claim r w' :
  repo_inv w claim → ignore_stale (repo_Complete w claim r) = (Ok tt, w') → ¬ repo_active w' claim.
Proof.
  intros Hinv. unfold ignore_stale. destruct (repo_Complete _ _ _) as [[[]|[]] w1] eqn:E;
    intros [= <-]; by eauto using law_complete_ends, law_complete_stale.
Qed.

(** [ExecuteClaim] returns without an error only when the claim has ended,
    provided a stale claim is only reported when it has. *)
Lemma ExecuteClaim_releases config w claim ctxDone controlErr execution w' :
  repo_inv w claim →
  (controlErr = Some RunStaleClaim → ¬ repo_active w claim) →
  (∀ code, execution = Err (code, RunStaleClaim) → ¬ repo_active w claim) →
  ExecuteClaim config w claim ctxDone controlErr execution = (Ok tt, w') → ¬ repo_active w' claim.
Proof.
  intros Hinv Hctl Hexe. unfold ExecuteClaim. destruct controlErr as [e|].
  - destruct e; try (exact (complete_call_releases _ _ _ _ Hinv));
      (destruct ctxDone; [done|]); (case_bool_decide; [intros [= <-]; auto|]); try (exact (fail_releases _ _ _ _ _ _ _ Hinv)); done.
  - destruct execution as [r|[code e]].
    + unfold complete. destruct (durableResult r); [exact (complete_call_releases _ _ _ _ Hinv)|exact (fail_releases _ _ _ _ _ _ _ Hinv)].
    + case_bool_decide as Es; [subst; intros [= <-]; by eapply Hexe|].
      destruct (_ && _); [done|]. exact (fail_releases _ _ _ _ _ _ _ Hinv).
Qed.

End Release.


(** ** Facts about the persisted result *)
Definition to_durable (item : CanonicalCaseResult) : DurableCaseResult :=
  mkDurableCaseResult (cc_CaseID item) (status_string (cc_Status item)) (cc_TimeUsedMillis item)
    (cc_MemoryUsedKB item * 1024) (cc_Score item) (cc_MaxScore item).

Lemma contestant_durable s : contestant_status s → durableVerdict s = true.
Proof. intros [Hk Hs]. by destruct s. Qed.

Lemma durableVerdict_string s :
  durableVerdict s = true →
  blank (status_string s) = false ∧ len (status_string s) ≤ 64 ∧
  (status_string s = "ACCEPTED" ↔ s = StatusAccepted) ∧
  (status_string s = "COMPILE_ERROR" ↔ s = StatusCompileError) ∧
  (status_string s = "WRONG_ANSWER" ↔ s = StatusWrongAnswer).
Proof. intros H. destruct s; try done; (split_and!; [done|done|done..]). Qed.

Lemma durable_metrics time memory :
  0 ≤ time → 0 ≤ memory ≤ memoryCap →
  durable_metrics_ok time memory = true ∧ wrap_int64 (memory * 1024) = memory * 1024.
Proof.
  unfold memoryCap. intros Ht Hm. split; [|apply wrap_int64_id; unfold min_int64, max_int64; lia].
  unfold durable_metrics_ok. rewrite negb_true_iff, !orb_false_iff, !Z.ltb_ge.
  assert (max_int64 / 1024 = 9007199254740991) as -> by done. lia.
Qed.

Lemma caseID_durable s : caseIDPattern s = true → s ≠ "" ∧ blank s = false ∧ len s ≤ 128.
Proof.
  destruct s as [|a s]; [done|]. unfold caseIDPattern. intros H. bool_to_prop.
  split_and!; [done| |unfold len in *; simpl; lia]. apply visible_not_blank.
  unfold lower, upper, digit in *. rewrite !orb_true_iff, !in_range_true in *. lia.
Qed.

(** The score pair of a case of a well-formed result. *)
Definition case_pair_ok (c : CanonicalCaseResult) : Prop :=
  validCanonicalScorePair (cc_Score c) (cc_MaxScore c) = true.

Lemma scored_pair_ok c mc :
  0 < case_Weight mc ≤ maxTotalScore → case_scored c mc → case_pair_ok c.
Proof.
  unfold maxTotalScore, case_pair_ok. intros Hw [_ -> ->]. simpl.
  rewrite !andb_true_iff, Z.ltb_lt, !Z.leb_le. case_decide; lia.
Qed.

Lemma oi_weights m :
  manifest_wf m → m_JudgeMode m = JudgeModeOI → Forall (λ mc, 0 < case_Weight mc ≤ maxTotalScore) (m_Cases m).
Proof. intros [_ _ _ _ _ _ Hw _] E. rewrite E in Hw. eapply Forall_impl; [exact Hw|]. done. Qed.

Lemma canonical_pairs m r : canonical_wf m r → Forall case_pair_ok (can_Cases r).
Proof.
  intros Hr. pose proof (cw_score _ _ Hr) as Hs. case_decide as E.
  - destruct Hs as [[[-> _]|Hall] _]; [constructor|].
    pose proof (oi_weights m (cw_manifest _ _ Hr) E) as Hw. clear -Hall Hw.
    induction Hall; [constructor|]. apply Forall_cons in Hw as [? ?].
    constructor; [by eapply scored_pair_ok|auto].
  - destruct Hs as (_ & _ & Hall & _). eapply Forall_impl; [exact Hall|].
    intros c [Hs1 Hs2]. unfold case_pair_ok. by rewrite Hs1, Hs2.
Qed.

Lemma canonical_ids m r :
  canonical_wf m r → NoDup (cc_CaseID <$> can_Cases r) ∧
  Forall (λ c, caseIDPattern (cc_CaseID c) = true) (can_Cases r) ∧ (length (can_Cases r) ≤ 256)%nat.
Proof.
  intros Hr. destruct (cw_ids _ _ Hr) as (rest & Hids). destruct (mwf_ids _ (cw_manifest _ _ Hr)) as [Hnd Hpat].
  pose proof (cw_count _ _ Hr) as Hcount. rewrite Hids in Hnd. apply NoDup_app in Hnd as (Hnd & _ & _).
  split_and!; [done| |].
  - apply Forall_forall. intros c Hc. rewrite Forall_forall in Hpat.
    assert (cc_CaseID c ∈ case_ID <$> m_Cases m) as (mc & -> & Hmc)%list_elem_of_fmap; [|auto].
    rewrite Hids. apply elem_of_app. left. by apply list_elem_of_fmap_2.
  - apply (f_equal length) in Hids. rewrite length_app, !length_fmap in Hids.
    unfold maxSandboxBatchCasesV1 in Hcount. lia.
Qed.

Lemma durable_cases_map cases :
  Forall (case_sane (2 * timeCap)) cases → Forall (λ c, caseIDPattern (cc_CaseID c) = true) cases →
  Forall case_pair_ok cases → durable_cases cases = Some (to_durable <$> cases).
Proof.
  induction cases as [|c cases IH]; [done|]. rewrite !Forall_cons. intros [Hs Hss] [Hp Hps] [Hok Hoks].
  cbn [durable_cases]. rewrite (IH Hss Hps Hoks). destruct Hs as [Hst Ht Hm].
  destruct (caseID_durable _ Hp) as (Hne & _ & _).
  destruct (durable_metrics (cc_TimeUsedMillis c) (cc_MemoryUsedKB c)) as [Hmet Hwrap]; [lia|lia|].
  unfold durable_case. rewrite (bool_decide_eq_false_2 _ Hne), (contestant_durable _ Hst), Hmet, Hok, Hwrap. done.
Qed.

(** The scores of the persisted cases are those of the canonical ones. *)
Lemma to_durable_sums cases :
  sumZ (λ c, opt_score (dc_Score c)) (to_durable <$> cases) = sumZ case_points cases ∧
  sumZ (λ c, opt_score (dc_MaxScore c)) (to_durable <$> cases) = sumZ (λ c, opt_score (cc_MaxScore c)) cases.
Proof. induction cases as [|c cases [IH1 IH2]]; [done|]. rewrite fmap_cons. simpl. by rewrite IH1, IH2. Qed.

Lemma scored_max_sum cases mcs :
  Forall2 case_scored cases mcs → sumZ (λ c, opt_score (cc_MaxScore c)) cases = sumZ case_Weight mcs.
Proof. induction 1 as [|c mc cases mcs [_ _ Hm] _ IH]; [done|]. simpl. rewrite Hm, IH. done. Qed.

Lemma to_durable_wf m r scored :
  canonical_wf m r → scored = bool_decide (m_JudgeMode m = JudgeModeOI) →
  Forall (case_wf scored) (to_durable <$> can_Cases r).
Proof.
  intros Hr ->. destruct (canonical_ids m r Hr) as (_ & Hpat & _). apply Forall_fmap.
  pose proof (cw_cases _ _ Hr) as Hsane. pose proof (cw_score _ _ Hr) as Hs.
  apply Forall_forall. intros c Hc. rewrite Forall_forall in Hsane, Hpat.
  destruct (Hsane c Hc) as [Hst Ht Hm]. destruct (caseID_durable _ (Hpat c Hc)) as (_ & Hb & Hl).
  destruct (durableVerdict_string _ (contestant_durable _ Hst)) as (Hvb & Hvl & Hacc & _).
  split; simpl; [done|done|lia|]. case_decide as E.
  - rewrite bool_decide_eq_true_2 by done. destruct Hs as [[[Hn _]|Hall] _]; [rewrite Hn in Hc; by apply elem_of_nil in Hc|].
    apply list_elem_of_lookup in Hc as (i & Hi). destruct (Forall2_lookup_l _ _ _ _ _ Hall Hi) as (mc & Hmc & [_ Hp Hmax]).
    pose proof (oi_weights m (cw_manifest _ _ Hr) E) as Hw. rewrite Forall_lookup in Hw. specialize (Hw _ _ Hmc).
    exists (case_Weight mc). split_and!; [unfold maxTotalScore in Hw; lia..|done|].
    rewrite Hp. f_equal. destruct (decide (cc_Status c = StatusAccepted)), (decide (status_string (cc_Status c) = "ACCEPTED")); tauto.
  - rewrite bool_decide_eq_false_2 by done. destruct Hs as (_ & _ & Hall & _).
    rewrite Forall_forall in Hall. by apply Hall.
Qed.

Definition durable_of (r : CanonicalResult) : DurableJobResult :=
  {| dr_Verdict := status_string (can_Status r);
     dr_CompileStatus := if bool_decide (can_Status r = StatusCompileError) then "FAILED" else "SUCCEEDED";
     dr_TimeMillis := can_TimeUsedMillis r; dr_MemoryBytes := can_MemoryUsedKB r * 1024;
     dr_Score := can_Score r; dr_TotalScore := can_TotalScore r; dr_Cases := to_durable <$> can_Cases r |}.

(** An OI result that reports a compile error although cases were run. *)
Definition scored_compile_error (m : Manifest) (r : CanonicalResult) : Prop :=
  m_JudgeMode m = JudgeModeOI ∧ can_Status r = StatusCompileError ∧ can_Cases r ≠ [].

Lemma canonical_score_range m r :
  canonical_wf m r → m_JudgeMode m = JudgeModeOI →
  let score := sumZ case_points (can_Cases r) in
  let total := sumZ case_Weight (m_Cases m) in
  0 < total ≤ 1000000000 ∧ 0 ≤ score ≤ total.
Proof.
  intros Hr E. pose proof (cw_manifest _ _ Hr) as Hm. pose proof (weights_within_total m Hm) as Hle.
  pose proof (oi_positive m Hm E) as Hpos. pose proof (cw_score _ _ Hr) as Hs. rewrite decide_True in Hs by done.
  assert (0 < sumZ case_Weight (m_Cases m)).
  { apply positive_weights; [by apply manifest_wf_cases|]. pose proof (mwf_weights _ Hm) as Hw. by rewrite E in Hw. }
  unfold maxTotalScore in Hle. destruct Hs as [[[-> _]|Hall] _]; [simpl; lia|].
  destruct (points_total _ _ Hpos Hall). pose proof (points_nonneg _ _ Hpos Hall). simpl. lia.
Qed.

Lemma durableResult_unfold m r :
  canonical_wf m r →
  durableResult r = if validateDurableJobResult (durable_of r) then Some (durable_of r) else None.
Proof.
  intros Hr. destruct (canonical_ids m r Hr) as (_ & Hpat & _). destruct (cw_metrics _ _ Hr) as [Ht Hmem].
  destruct (durable_metrics (can_TimeUsedMillis r) (can_MemoryUsedKB r)) as [Hmet Hwrap]; [lia|lia|].
  assert (Hpair : validCanonicalScorePair (can_Score r) (can_TotalScore r) = true).
  { pose proof (cw_score _ _ Hr) as Hs. case_decide as E; [|destruct Hs as (-> & -> & _); done].
    destruct Hs as (_ & -> & -> & _). pose proof (canonical_score_range m r Hr E). simpl in *.
    rewrite !andb_true_iff, Z.ltb_lt, !Z.leb_le. lia. }
  unfold durableResult. rewrite (contestant_durable _ (cw_status _ _ Hr)), Hmet, Hpair, Hwrap.
  rewrite durable_cases_map; [done|by apply Hr|done|by eapply canonical_pairs].
Qed.

Lemma durable_of_basic m r :
  canonical_wf m r →
  result_wf (durable_of r) ↔
  match can_Score r, can_TotalScore r with
  | None, None => True
  | Some s, Some t =>
      if decide (can_Status r = StatusCompileError) then s = 0 ∧ can_Cases r = []
      else s = sumZ case_points (can_Cases r) ∧ t = sumZ (λ c, opt_score (cc_MaxScore c)) (can_Cases r) ∧
           can_Status r = if decide (s = t) then StatusAccepted else StatusWrongAnswer
  | _, _ => False
  end.
Proof.
  intros Hr. destruct (canonical_ids m r Hr) as (Hnd & _ & Hlen). destruct (cw_metrics _ _ Hr) as [Ht Hmem].
  destruct (durableVerdict_string _ (contestant_durable _ (cw_status _ _ Hr))) as (Hb & Hl & Hacc & Hce & Hwa).
  destruct (to_durable_sums (can_Cases r)) as [Hs1 Hs2].
  assert (Hfail : (if bool_decide (can_Status r = StatusCompileError) then "FAILED" else "SUCCEEDED") = "FAILED" ↔
    can_Status r = StatusCompileError) by (case_bool_decide; naive_solver).
  assert (Hscored : is_some (can_Score r) = bool_decide (m_JudgeMode m = JudgeModeOI)).
  { pose proof (cw_score _ _ Hr) as Hs. case_decide as E.
    - destruct Hs as (_ & -> & _). by rewrite bool_decide_eq_true_2.
    - destruct Hs as (-> & _). by rewrite bool_decide_eq_false_2. }
  split.
  - intros [_ _ _ _ _ _ Hsc]. simpl in Hsc. destruct (can_Score r) as [s|], (can_TotalScore r) as [t|]; try done.
    destruct Hsc as (_ & _ & Hsc). rewrite Hs1, Hs2 in Hsc.
    destruct (decide (can_Status r = StatusCompileError)) as [D|D].
    + rewrite decide_True in Hsc by tauto. destruct Hsc as (_ & -> & Hn).
      split; [done|]. by apply fmap_nil_inv in Hn.
    + rewrite decide_False in Hsc by tauto. destruct Hsc as (_ & -> & -> & Hv).
      split_and!; [done..|]. case_decide; tauto.
  - intros Hsc. split; cbn [durable_of dr_Verdict dr_CompileStatus dr_TimeMillis dr_MemoryBytes dr_Cases
      dr_Score dr_TotalScore]; [done|by destruct (bool_decide (can_Status r = _))|lia|by rewrite length_fmap| | |].
    + by rewrite <-list_fmap_compose.
    + by eapply to_durable_wf.
    + pose proof (cw_score _ _ Hr) as Hs. case_decide as E.
      * pose proof (canonical_score_range m r Hr E) as Hrange. simpl in Hrange.
        destruct Hs as (_ & Es & Et & _). rewrite Es, Et in Hsc |- *. rewrite Hs1, Hs2.
        split_and!; [lia..|]. destruct (decide (can_Status r = StatusCompileError)) as [D|D].
        -- rewrite decide_True by tauto. destruct Hsc as [? ->]. tauto.
        -- rewrite decide_False by tauto. rewrite bool_decide_eq_false_2 by done.
           split_and!; try tauto. destruct Hsc as (_ & _ & Hv). rewrite Hv.
           by destruct (decide (sumZ case_points (can_Cases r) = _)).
      * by destruct Hs as (-> & -> & _).
Qed.

(** A result that meets the contract of canonical execution has a durable
    form and the form is valid, with one exception: an OI result whose status is
    a compile error although cases were run has none. *)
Lemma durableResult_defined m r :
  canonical_wf m r →
  (durableResult r = Some (durable_of r) ∧ result_wf (durable_of r) ∧ ¬ scored_compile_error m r) ∨
  (durableResult r = None ∧ scored_compile_error m r).
Proof.
  intros Hr. rewrite (durableResult_unfold m r Hr).
  assert (Hiff : result_wf (durable_of r) ↔ ¬ scored_compile_error m r).
  { rewrite (durable_of_basic m r Hr). unfold scored_compile_error. pose proof (cw_score _ _ Hr) as Hs.
    case_decide as E; [|destruct Hs as (-> & -> & _); tauto].
    destruct Hs as (Hcases & -> & -> & Hv).
    destruct (decide (can_Status r = StatusCompileError)) as [D|D].
    - split; [by intros [_ ->] (_ & _ & ?)|]. intros Hno.
      destruct (decide (can_Cases r = [])) as [->|Hn]; [done|]. by destruct Hno.
    - destruct Hcases as [[_ ?]|Hall]; [done|]. rewrite (scored_max_sum _ _ Hall), (Hv D).
      destruct (points_total _ _ (oi_positive m (cw_manifest _ _ Hr) E) Hall) as [_ Hp].
      split; [intros _ (_ & ? & _); by destruct (decide (Forall _ _))|]. intros _. split_and!; [done..|].
      destruct (decide (Forall _ _)), (decide (_ = _)); tauto. }
  destruct (validateDurableJobResult (durable_of r)) eqn:Hv.
  - left. apply validateDurableJobResult_sound in Hv. tauto.
  - right. split; [done|]. destruct (decide (can_Cases r = [])) as [Hn|Hn].
    + exfalso. assert (result_wf (durable_of r)) as Hwf by (apply Hiff; by intros (_ & _ & ?)).
      by rewrite (validateDurableJobResult_complete _ Hwf) in Hv.
    + destruct (decide (m_JudgeMode m = JudgeModeOI ∧ can_Status r = StatusCompileError)) as [[? ?]|Hno]; [done|].
      exfalso. assert (result_wf (durable_of r)) as Hwf by (apply Hiff; intros (? & ? & _); tauto).
      by rewrite (validateDurableJobResult_complete _ Hwf) in Hv.
Qed.
