(* ===== verification/JudgeWitness.v ===== *)
(** * The theorems about judging, at concrete inputs

    Jobs, schedulers, checker payloads and one canonical execution against a
    fleet of two sandboxes, the first of which is unavailable. *)
From stdpp Require Import prelude gmap strings.
From S2P Require Import Prelude.
From S2P Require Import GoText.
From S2P Require Import JobState.
From S2P Require Import Manifest.
From S2P Require Import Scheduler.
From S2P Require Import Callback.
From S2P Require Import Sandbox.
From S2P Require Import BatchPipeline.
From S2P Require Import BatchContract.
From S2P Require Import Runner.

Open Scope Z_scope.

(** ** Jobs *)
Definition scored : DurableJobResult :=
  {| dr_Verdict := "ACCEPTED"; dr_CompileStatus := "SUCCEEDED"; dr_TimeMillis := 40; dr_MemoryBytes := 1024;
     dr_Score := Some 10; dr_TotalScore := Some 10;
     dr_Cases := [ {| dc_CaseID := "one"; dc_Verdict := "ACCEPTED"; dc_TimeMillis := 40; dc_MemoryBytes := 1024;
                      dc_Score := Some 10; dc_MaxScore := Some 10 |} ] |}.

Lemma scored_result_all_or_nothing_witness :
  validateDurableJobResult scored = true ∧
  (dr_Verdict scored = "ACCEPTED" ↔ Forall (λ c, dc_Verdict c = "ACCEPTED") (dr_Cases scored)).
Proof.
  split; [vm_compute; reflexivity|].
  apply (scored_result_all_or_nothing scored 10 10); vm_compute; reflexivity.
Defined.

Definition queued : DurableJob := fresh_job "job" 100.
Definition running_job : DurableJob :=
  match Claim (Some queued) "worker-1" 100 second with Ok (j, _) => j | Err _ => queued end.
Definition first_claim : JobClaim := mkJobClaim "worker-1" 1.
Definition running_again : DurableJob :=
  match Claim (Some running_job) "worker-2" (100 + second) second with Ok (j, _) => j | Err _ => running_job end.
Definition second_claim : JobClaim := mkJobClaim "worker-2" 2.
Definition succeeded : DurableJob :=
  match Complete (Some running_job) first_claim scored 200 with Ok j => j | Err _ => running_job end.
Definition cancelling : DurableJob :=
  match RequestCancel (Some running_job) 150 with Ok (j, _) => j | Err _ => running_job end.
Definition cancelled : DurableJob :=
  match Complete (Some cancelling) first_claim scored 200 with Ok j => j | Err _ => cancelling end.

Lemma queued_claim_step : job_step queued running_job.
Proof. apply (step_claim _ "worker-1" 100 second _ first_claim). vm_compute. reflexivity. Qed.

Lemma reachable_job_wf_witness : JobState.Status succeeded = JobStatusSucceeded ∧ job_wf succeeded.
Proof.
  split; [vm_compute; reflexivity|]. apply (reachable_job_wf "job" 100).
  eapply rtc_l; [exact queued_claim_step|]. apply rtc_once, (step_complete _ first_claim scored 200).
  vm_compute. reflexivity.
Defined.

Lemma terminal_absorbing_witness :
  ∃ j, job_step succeeded j ∧ j = succeeded.
Proof.
  assert (Hs : job_step succeeded succeeded) by (apply (step_cancel _ 300 _ false); vm_compute; reflexivity).
  exists succeeded. split; [exact Hs|].
  apply (terminal_absorbing succeeded succeeded); [vm_compute; reflexivity|]. apply rtc_once, Hs.
Defined.

Lemma superseded_claim_stale_witness :
  AttemptNo running_again = 2 ∧
  Complete (Some running_again) first_claim scored (200 + second) = Err ErrStaleJobClaim.
Proof.
  split; [vm_compute; reflexivity|].
  apply (superseded_claim_stale queued "worker-1" 100 second running_job first_claim running_job "worker-2"
    (100 + second) second running_again second_claim running_again (200 + second)).
  - vm_compute. split; discriminate.
  - vm_compute. reflexivity.
  - apply rtc_refl.
  - vm_compute. reflexivity.
  - apply rtc_refl.
Defined.

Lemma cancellation_never_lost_witness :
  JobState.Status cancelling = JobStatusRunning ∧
  (JobState.Status cancelled = JobStatusRunning ∨ JobState.Status cancelled = JobStatusCancelled).
Proof.
  split; [vm_compute; reflexivity|].
  apply (cancellation_never_lost cancelling cancelled).
  - vm_compute. reflexivity.
  - vm_compute. eauto.
  - vm_compute. reflexivity.
  - apply rtc_once, (step_complete _ first_claim scored 200). vm_compute. reflexivity.
Defined.

(** ** Text and scheduling *)
Lemma TruncateUTF16_longest_prefix_witness :
  TruncateUTF16 "abc" 2 = "ab" ∧ UTF16Len (TruncateUTF16 "abc" 2) ≤ 2.
Proof.
  split; [vm_compute; reflexivity|].
  apply (TruncateUTF16_longest_prefix "abc" 2); [vm_compute; reflexivity|lia].
Defined.

Definition fleet : Scheduler := mkScheduler ["sandbox-a"; "sandbox-b"] 0.

Lemma fleet_wf : scheduler_wf fleet.
Proof. split; simpl; lia. Qed.

Lemma SelectSandboxExcluding_spec_witness :
  ∃ s', SelectSandboxExcluding fleet {["sandbox-a"]} = (Ok "sandbox-b", s') ∧
        "sandbox-b" ∈ endpoints fleet ∧ "sandbox-b" ∉ ({["sandbox-a"]} : gset string).
Proof.
  pose proof (SelectSandboxExcluding_spec fleet {["sandbox-a"]} fleet_wf) as H.
  assert (Hs : ∃ s', SelectSandboxExcluding fleet {["sandbox-a"]} = (Ok "sandbox-b", s'))
    by (eexists; vm_compute; reflexivity).
  destruct Hs as [s' Hs]. rewrite Hs in H. destruct H as (H1 & H2 & _).
  exists s'. split; [exact Hs|]. split; [exact H1|exact H2].
Defined.

Lemma select_round_is_permutation_witness :
  (select_many 2 (mkScheduler ["sandbox-a"; "sandbox-b"] 1)).1 = [Ok "sandbox-b"; Ok "sandbox-a"] ∧
  (select_many 2 (mkScheduler ["sandbox-a"; "sandbox-b"] 1)).1 ≡ₚ [Ok "sandbox-a"; Ok "sandbox-b"].
Proof.
  split; [vm_compute; reflexivity|].
  apply (select_round_is_permutation (mkScheduler ["sandbox-a"; "sandbox-b"] 1)); [split; simpl; lia|discriminate].
Defined.

(** ** Checker payload and token digests *)
Lemma checker_payload_within_limit_witness :
  len (specialJudgeInput "one" "1 2" "3" "3") ≤ maxSpecialJudgeProtocolBytesV1.
Proof. apply (checker_payload_within_limit "one" "1 2" "3" "3"). vm_compute. reflexivity. Defined.

Lemma digest_check_is_token_check_witness :
  outputMatchesExpectedCheck id CheckerToken "3  4" (tokenOutputSHA256 id "3 4") = true ∧
  outputMatchesExpectedCheck id CheckerToken "3  4" (tokenOutputSHA256 id "3 4") = outputsMatch CheckerToken "3  4" "3 4".
Proof.
  split; [vm_compute; reflexivity|].
  apply (digest_check_is_token_check id "3  4" "3 4"); [vm_compute; reflexivity..|]. auto.
Defined.

(** ** One execution *)
Definition plus_manifest : Manifest :=
  {| m_SchemaVersion := 1; m_JudgeMode := JudgeModeACM; m_Checker := CheckerExact;
     m_Limits := mkLimits 1000 256; m_TotalScore := None; m_SpecialJudge := None;
     m_Cases := [mkCase "one" "cases/1.in" "cases/1.out" 1] |}.

Definition plus_artifact : CaseArtifact := mkArtifact plus_manifest (λ _, Some ("1 2", "3")) None.

(** [sandbox-a] is unavailable, [sandbox-b] runs the case. *)
Definition plus_rpc (_ : list (string * BatchRequest)) (address : string) (request : BatchRequest) :
    result rpc_error (list (option BatchEvent)) :=
  if bool_decide (address = "sandbox-a") then Err (RpcCode CodeUnavailable)
  else Ok [Some (mkBatchEvent CASE_RESULT "one" (Some (mkExecuteResponse "Accepted" 0 "3" 12 2048)));
           Some (mkBatchEvent COMPLETED "" None)].

Definition plus_env : exec_env Scheduler := mkEnv fleet [].
Definition plus_pipeline : BatchBundlePipeline := NewBatchBundlePipeline 2.
Definition plus_input : CanonicalExecutionRequest := mkCanonicalRequest "go" "package main" false.

Definition plus_request : BatchRequest :=
  mkBatchRequest "go" "package main" 1 256 false [mkBatchCase "one" "1 2" "3" true ""].

(** The same sandboxes behind one gRPC target, which is unavailable. *)
Definition target_env : exec_env Target := mkEnv (Some "sandbox-a") [].

Lemma executeBatch_spec_witness :
  (∃ out env', executeBatch plus_rpc plus_pipeline plus_request plus_env = (out, env') ∧
    ∃ addresses, env_calls env' = map (λ a, (a, plus_request)) addresses ∧
      Z.of_nat (length addresses) ≤ 2 ∧ NoDup addresses) ∧
  (∃ out env', executeBatch plus_rpc plus_pipeline plus_request target_env = (out, env') ∧
    map fst (env_calls env') = ["sandbox-a"; "sandbox-a"] ∧
    ∃ addresses, env_calls env' = map (λ a, (a, plus_request)) addresses ∧
      Z.of_nat (length addresses) ≤ 2 ∧ selections (env_selector target_env) ∅ addresses (env_selector env')).
Proof.
  split.
  - destruct (executeBatch plus_rpc plus_pipeline plus_request plus_env) as [out env'] eqn:E.
    exists out, env'. split; [reflexivity|].
    destruct (executeBatch_spec plus_rpc plus_pipeline plus_request plus_env out env' E) as (l & H1 & H2 & _ & H3 & _).
    exists l. split; [exact H1|]. split; [exact H2|exact (H3 _)].
  - destruct (executeBatch plus_rpc plus_pipeline plus_request target_env) as [out env'] eqn:E.
    exists out, env'. split; [reflexivity|]. split; [vm_compute in E; injection E as <- <-; reflexivity|].
    destruct (executeBatch_spec plus_rpc plus_pipeline plus_request target_env out env' E) as (l & H1 & H2 & H3 & _).
    exists l. split; [exact H1|]. split; [exact H2|exact H3].
Defined.

Definition plus_run :=
  ExecuteCanonical plus_rpc (λ _, 100) (λ _, 100) (λ _, 1) (λ _, 1) id (λ _, None) plus_pipeline plus_input
    plus_artifact plus_env.

Definition plus_result : CanonicalResult :=
  match plus_run with (Ok r, _) => r | _ => empty_result StatusSystemError end.

Lemma plus_run_ok : ∃ env', plus_run = (Ok plus_result, env').
Proof. eexists. vm_compute. reflexivity. Qed.

Lemma ExecuteCanonical_contract_witness :
  can_Status plus_result = StatusAccepted ∧ canonical_wf plus_manifest plus_result.
Proof.
  split; [vm_compute; reflexivity|]. destruct plus_run_ok as [env' H].
  exact (ExecuteCanonical_contract _ _ _ _ _ _ _ _ _ _ _ _ _ H).
Defined.

Lemma plus_result_wf : canonical_wf plus_manifest plus_result.
Proof.
  replace plus_result with
    {| can_Status := StatusAccepted; can_ExitCode := 0; can_TimeUsedMillis := 12; can_MemoryUsedKB := 2048;
       can_Stderr := "case=one sandboxStatus=Accepted status=ACCEPTED"; can_CompileError := "";
       can_Score := None; can_TotalScore := None; can_Cases := [mkCanonicalCase "one" StatusAccepted 12 2048 None None] |}
    by (vm_compute; reflexivity).
  split; simpl; try done.
  - apply Validate_sound. vm_compute. reflexivity.
  - by exists [].
  - repeat constructor; done.
  - split_and!; [vm_compute; discriminate|by left|done].
  - by repeat constructor.
Qed.

Lemma durableResult_defined_witness :
  (durableResult plus_result = Some (durable_of plus_result) ∧ result_wf (durable_of plus_result) ∧
   ¬ scored_compile_error plus_manifest plus_result) ∨
  (durableResult plus_result = None ∧ scored_compile_error plus_manifest plus_result).
Proof.
  exact (durableResult_defined plus_manifest plus_result plus_result_wf).
Defined.
