(* ===== verification/Store.v ===== *)
(** * The external judge database

    The tables of [internal/external/migrations] as finite maps, transactions as
    a state and error monad (an error rolls the transaction back), the row
    readers of [mysql_job_repository.go], tenant policies ([provision.go]), and
    the terminal webhook event ([webhook_event.go], [mysql_webhook_event.go]).

    Instants are those of [Prelude]; a DATE is the instant of its midnight. The
    column [result_json] holds the result it encodes. *)
From stdpp Require Import prelude gmap strings.
From S2P Require Import Prelude.
From S2P Require Import GoText.
From S2P Require Import JobState.
From S2P Require Import Manifest.

Open Scope Z_scope.

(** ** Rows *)
Record tenant_row : Type := mkTenantRow {
  tn_ExternalID : string;
  tn_Status : string;
  tn_PolicyJSON : string;
  tn_LastClaimed : option Z
}.

Record bundle_row : Type := mkBundleRow {
  bn_ExternalID : string;
  bn_Tenant : Z;
  bn_ManifestJSON : string;
  bn_PublicationStatus : string;
  bn_ReadyAt : option Z;
  bn_DeleteMarkedAt : option Z;
  bn_DeletedAt : option Z
}.

Record source_row : Type := mkSourceRow {
  sr_ExternalID : string;
  sr_Tenant : Z;
  sr_ObjectKey : string;
  sr_SHA256 : string;
  sr_SizeBytes : Z;
  sr_KeyVersion : Z;
  sr_Nonce : string
}.

Record callback_row : Type := mkCallbackRow {
  cb_ExternalID : string;
  cb_Tenant : Z;
  cb_DisabledAt : option Z;
  cb_SecretNonce : option string;
  cb_SecretCiphertext : string;
  cb_SecretKeyVersion : Z
}.

Record job_row : Type := mkJobRow {
  jb_ExternalID : string;
  jb_Tenant : Z;
  jb_Bundle : Z;
  jb_Source : Z;
  jb_Callback : option Z;
  jb_Status : JobStatus;
  jb_Language : string;
  jb_StopOnFailure : bool;
  jb_ClientReference : option string;
  jb_AttemptNo : Z;
  jb_WorkerID : option string;
  jb_LeaseToken : option string;
  jb_LeaseUntil : option Z;
  jb_NextAttemptAt : Z;
  jb_CancelRequestedAt : option Z;
  jb_Result : option DurableJobResult;
  jb_FailureCode : option string;
  jb_CreatedAt : Z;
  jb_StartedAt : option Z;
  jb_CompletedAt : option Z
}.

Inductive AttemptStatus : Type :=
| AttemptRunning
| AttemptSucceeded
| AttemptFailed
| AttemptCancelled
| AttemptExpired.

Record attempt_row : Type := mkAttemptRow {
  at_Tenant : Z;
  at_WorkerID : string;
  at_LeaseToken : option string;
  at_Status : AttemptStatus;
  at_LeaseUntil : Z;
  at_AccountingDay : option Z;
  at_Reserved : Z;
  at_Consumed : Z;
  at_StartedAt : Z;
  at_FinishedAt : option Z;
  at_FailureCode : option string
}.

Record daily_row : Type := mkDailyRow {
  dl_Reserved : Z;
  dl_Consumed : Z
}.

Record outbox_row : Type := mkOutboxRow {
  ob_EventID : string;
  ob_Tenant : Z;
  ob_Callback : Z;
  ob_EventType : string;
  ob_Body : string;
  ob_Status : string;
  ob_AttemptCount : Z;
  ob_NextAttemptAt : Z;
  ob_CreatedAt : Z;
  ob_ExpiresAt : Z
}.

Record idempotency_row : Type := mkIdempotencyRow {
  ik_RequestHash : string;
  ik_ResourceExternalID : string;
  ik_ExpiresAt : Z
}.

Record reservation_row : Type := mkReservationRow {
  rs_OwnerToken : string;
  rs_LeaseUntil : Z;
  rs_CreatedAt : Z
}.

#[export] Instance AttemptStatus_eq_dec : EqDecision AttemptStatus.
Proof. solve_decision. Defined.
#[export] Instance job_row_eq_dec : EqDecision job_row.
Proof. solve_decision. Defined.
#[export] Instance attempt_row_eq_dec : EqDecision attempt_row.
Proof. solve_decision. Defined.

(** The attempts are keyed by [(job_id, attempt_no)], the daily ledger by
    [(tenant_id, accounting_day)], the outbox by [job_id], the idempotency
    records of job submission by [(tenant_id, key_digest)] and the source
    reservations by object key: the unique keys of the schema. *)
Record db : Type := mkDb {
  tenants : gmap Z tenant_row;
  bundles : gmap Z bundle_row;
  sources : gmap Z source_row;
  callbacks : gmap Z callback_row;
  jobs : gmap Z job_row;
  attempts : gmap (Z * Z) attempt_row;
  daily : gmap (Z * Z) daily_row;
  outbox : gmap Z outbox_row;
  idempotency : gmap (Z * string) idempotency_row;
  reservations : gmap string reservation_row
}.

Definition set_tenants (f : gmap Z tenant_row → gmap Z tenant_row) (d : db) : db :=
  mkDb (f (tenants d)) (bundles d) (sources d) (callbacks d) (jobs d) (attempts d) (daily d) (outbox d)
    (idempotency d) (reservations d).
Definition set_sources (f : gmap Z source_row → gmap Z source_row) (d : db) : db :=
  mkDb (tenants d) (bundles d) (f (sources d)) (callbacks d) (jobs d) (attempts d) (daily d) (outbox d)
    (idempotency d) (reservations d).
Definition set_jobs (f : gmap Z job_row → gmap Z job_row) (d : db) : db :=
  mkDb (tenants d) (bundles d) (sources d) (callbacks d) (f (jobs d)) (attempts d) (daily d) (outbox d)
    (idempotency d) (reservations d).
Definition set_attempts (f : gmap (Z * Z) attempt_row → gmap (Z * Z) attempt_row) (d : db) : db :=
  mkDb (tenants d) (bundles d) (sources d) (callbacks d) (jobs d) (f (attempts d)) (daily d) (outbox d)
    (idempotency d) (reservations d).
Definition set_daily (f : gmap (Z * Z) daily_row → gmap (Z * Z) daily_row) (d : db) : db :=
  mkDb (tenants d) (bundles d) (sources d) (callbacks d) (jobs d) (attempts d) (f (daily d)) (outbox d)
    (idempotency d) (reservations d).
Definition set_outbox (f : gmap Z outbox_row → gmap Z outbox_row) (d : db) : db :=
  mkDb (tenants d) (bundles d) (sources d) (callbacks d) (jobs d) (attempts d) (daily d) (f (outbox d))
    (idempotency d) (reservations d).
Definition set_idempotency (f : gmap (Z * string) idempotency_row → gmap (Z * string) idempotency_row) (d : db) : db :=
  mkDb (tenants d) (bundles d) (sources d) (callbacks d) (jobs d) (attempts d) (daily d) (outbox d)
    (f (idempotency d)) (reservations d).
Definition set_reservations (f : gmap string reservation_row → gmap string reservation_row) (d : db) : db :=
  mkDb (tenants d) (bundles d) (sources d) (callbacks d) (jobs d) (attempts d) (daily d) (outbox d)
    (idempotency d) (f (reservations d)).

(** ** Transactions *)
Definition tx (A : Type) : Type := db → result external_error (A * db).

#[export] Instance tx_ret : MRet tx := λ A a d, Ok (a, d).
#[export] Instance tx_bind : MBind tx := λ A B f m d,
  match m d with
  | Ok (a, d) => f a d
  | Err e => Err e
  end.

Definition tx_fail {A} (e : external_error) : tx A := λ _, Err e.
Definition tx_get : tx db := λ d, Ok (d, d).
Definition tx_modify (f : db → db) : tx unit := λ d, Ok (tt, f d).
Definition tx_guard (b : bool) (e : external_error) : tx unit := if b then mret tt else tx_fail e.

(** [UPDATE ... WHERE id = ? AND where]: the number of affected rows is the
    number of rows whose values change. *)
Definition update_job (id : Z) (where_ : job_row → bool) (set : job_row → job_row) : tx bool := λ d,
  match jobs d !! id with
  | Some r =>
      if where_ r then Ok (negb (bool_decide (set r = r)), set_jobs (insert id (set r)) d)
      else Ok (false, d)
  | None => Ok (false, d)
  end.

Definition update_attempt (job attemptNo : Z) (where_ : attempt_row → bool) (set : attempt_row → attempt_row) :
    tx bool := λ d,
  match attempts d !! (job, attemptNo) with
  | Some r =>
      if where_ r then Ok (negb (bool_decide (set r = r)), set_attempts (insert (job, attemptNo) (set r)) d)
      else Ok (false, d)
  | None => Ok (false, d)
  end.

(** Columns that every settlement clears. *)
Definition release_job (status : JobStatus) (next : Z) (result : option DurableJobResult)
    (failure : option string) (completed : option Z) (r : job_row) : job_row :=
  {| jb_ExternalID := jb_ExternalID r; jb_Tenant := jb_Tenant r; jb_Bundle := jb_Bundle r;
     jb_Source := jb_Source r; jb_Callback := jb_Callback r; jb_Status := status;
     jb_Language := jb_Language r; jb_StopOnFailure := jb_StopOnFailure r;
     jb_ClientReference := jb_ClientReference r; jb_AttemptNo := jb_AttemptNo r;
     jb_WorkerID := None; jb_LeaseToken := None; jb_LeaseUntil := None; jb_NextAttemptAt := next;
     jb_CancelRequestedAt := jb_CancelRequestedAt r; jb_Result := result; jb_FailureCode := failure;
     jb_CreatedAt := jb_CreatedAt r; jb_StartedAt := jb_StartedAt r; jb_CompletedAt := completed |}.

Definition set_next_attempt (next : Z) (r : job_row) : job_row :=
  {| jb_ExternalID := jb_ExternalID r; jb_Tenant := jb_Tenant r; jb_Bundle := jb_Bundle r;
     jb_Source := jb_Source r; jb_Callback := jb_Callback r; jb_Status := jb_Status r;
     jb_Language := jb_Language r; jb_StopOnFailure := jb_StopOnFailure r;
     jb_ClientReference := jb_ClientReference r; jb_AttemptNo := jb_AttemptNo r;
     jb_WorkerID := jb_WorkerID r; jb_LeaseToken := jb_LeaseToken r; jb_LeaseUntil := jb_LeaseUntil r;
     jb_NextAttemptAt := next; jb_CancelRequestedAt := jb_CancelRequestedAt r; jb_Result := jb_Result r;
     jb_FailureCode := jb_FailureCode r; jb_CreatedAt := jb_CreatedAt r; jb_StartedAt := jb_StartedAt r;
     jb_CompletedAt := jb_CompletedAt r |}.

(** ** Identifiers and policies *)
Definition base32_char (a : Ascii.ascii) : bool := lower a || in_range 50 55 (byte_of a).

(** [^[a-z2-7]{26}$] *)
Definition externalIDPattern (s : string) : bool := (len s =? 26) && string_forallb base32_char s.

(** [^[A-Z][A-Z0-9_]{0,63}$] *)
Definition infrastructureCodePattern (s : string) : bool :=
  match s with
  | "" => false
  | String a s => upper a && string_forallb (λ c, upper c || digit c || is_char 95 c) s && (len s <=? 63)
  end.

Definition MaximumSourceBytes : Z := 67108864 - 16.

Record TenantPolicy : Type := mkTenantPolicy {
  MaxQueuedJobs : Z;
  MaxRunningJobs : Z;
  MaxSourceBytes : Z;
  MaxRetainedBundles : Z;
  DailyExecutionMillis : Z;
  MaxInfrastructureTries : Z;
  MaxTimeLimitMillis : Z;
  MaxMemoryLimitMiB : Z
}.

Definition policy_validate (p : TenantPolicy) : bool :=
  negb ((MaxQueuedJobs p <=? 0) || (MaxRunningJobs p <=? 0) || (MaxQueuedJobs p <? MaxRunningJobs p)) &&
  negb ((MaxSourceBytes p <=? 0) || (MaximumSourceBytes <? MaxSourceBytes p) ||
        (MaxRetainedBundles p <=? 0) || (DailyExecutionMillis p <=? 0)) &&
  negb ((MaxInfrastructureTries p <=? 0) || (10 <? MaxInfrastructureTries p)) &&
  negb ((MaxTimeLimitMillis p <=? 0) || (MaxMemoryLimitMiB p <=? 0)).

Definition manifestWithinExecutionCeilings (m : Manifest) (maxTimeLimitMillis maxMemoryLimitMiB : Z) : bool :=
  if (maxTimeLimitMillis <=? 0) || (maxMemoryLimitMiB <=? 0) ||
     (TimeLimitMillis (m_Limits m) <=? 0) || (maxTimeLimitMillis <? TimeLimitMillis (m_Limits m)) ||
     (MemoryLimitMiB (m_Limits m) <=? 0) || (maxMemoryLimitMiB <? MemoryLimitMiB (m_Limits m)) then false
  else
    match m_SpecialJudge m with
    | None => true
    | Some sj => (0 <? sj_TimeLimitMillis sj) && (sj_TimeLimitMillis sj <=? maxTimeLimitMillis) &&
                 (0 <? sj_MemoryLimitMiB sj) && (sj_MemoryLimitMiB sj <=? maxMemoryLimitMiB)
    end.

(** ** Reading a job *)
Record SourceObjectMetadata : Type := mkSourceMetadata {
  so_InternalID : Z;
  so_ExternalID : string;
  so_ObjectKey : string;
  so_SHA256 : string;
  so_SizeBytes : Z;
  so_KeyVersion : Z;
  so_Nonce : string
}.

Record ExternalJobRecord : Type := mkJobRecord {
  ej_InternalID : Z;
  ej_TenantInternalID : Z;
  ej_ExternalID : string;
  ej_TenantExternalID : string;
  ej_BundleExternalID : string;
  ej_Source : SourceObjectMetadata;
  ej_CallbackID : string;
  ej_Status : JobStatus;
  ej_Language : string;
  ej_StopOnFailure : bool;
  ej_ClientReference : string;
  ej_AttemptNo : Z;
  ej_WorkerID : string;
  ej_LeaseUntil : option Z;
  ej_CancelRequested : option Z;
  ej_Result : option DurableJobResult;
  ej_FailureCode : string;
  ej_CreatedAt : Z;
  ej_StartedAt : option Z;
  ej_CompletedAt : option Z
}.

Inductive scan_error : Type :=
| ErrNoRows
| ErrScan.

(** One row of [externalJobSelect] and [scanExternalJob] of it: the tenant,
    bundle and source are inner joins on the tenant as well, the callback is a
    left join. *)
Definition scanExternalJob (d : db) (id : Z) : result scan_error ExternalJobRecord :=
  match jobs d !! id with
  | None => Err ErrNoRows
  | Some job =>
      match tenants d !! jb_Tenant job, bundles d !! jb_Bundle job, sources d !! jb_Source job with
      | Some tenant, Some bundle, Some source =>
          if negb (bn_Tenant bundle =? jb_Tenant job) || negb (sr_Tenant source =? jb_Tenant job) then Err ErrNoRows
          else if (sr_KeyVersion source =? 0) || (65535 <? sr_KeyVersion source) then Err ErrScan
          else if match jb_Result job with Some r => negb (validateDurableJobResult r) | None => false end
          then Err ErrScan
          else
            Ok {| ej_InternalID := id; ej_TenantInternalID := jb_Tenant job;
                  ej_ExternalID := jb_ExternalID job; ej_TenantExternalID := tn_ExternalID tenant;
                  ej_BundleExternalID := bn_ExternalID bundle;
                  ej_Source := mkSourceMetadata (jb_Source job) (sr_ExternalID source) (sr_ObjectKey source)
                                 (sr_SHA256 source) (sr_SizeBytes source) (sr_KeyVersion source) (sr_Nonce source);
                  ej_CallbackID := match jb_Callback job ≫= λ c, callbacks d !! c with
                                   | Some c => if cb_Tenant c =? jb_Tenant job then cb_ExternalID c else ""
                                   | None => ""
                                   end;
                  ej_Status := jb_Status job; ej_Language := jb_Language job;
                  ej_StopOnFailure := jb_StopOnFailure job;
                  ej_ClientReference := default "" (jb_ClientReference job);
                  ej_AttemptNo := jb_AttemptNo job; ej_WorkerID := default "" (jb_WorkerID job);
                  ej_LeaseUntil := jb_LeaseUntil job; ej_CancelRequested := jb_CancelRequestedAt job;
                  ej_Result := jb_Result job; ej_FailureCode := default "" (jb_FailureCode job);
                  ej_CreatedAt := jb_CreatedAt job; ej_StartedAt := jb_StartedAt job;
                  ej_CompletedAt := jb_CompletedAt job |}
      | _, _, _ => Err ErrNoRows
      end
  end.

(** [getExternalJobByInternalID] inside a transaction: every error is reported
    as an unavailable repository. *)
Definition getExternalJobByInternalID (id : Z) : tx ExternalJobRecord := λ d,
  match scanExternalJob d id with
  | Ok job => Ok (job, d)
  | Err _ => Err ErrExternalJobUnavailable
  end.

(** The internal id of the row [getExternalJob] selects: external ids of jobs
    and of tenants are unique. *)
Definition find_job (d : db) (tenantExternalID jobExternalID : string) : option Z :=
  fst <$> list_find (λ p : Z * job_row,
            jb_ExternalID p.2 = jobExternalID ∧
            (tn_ExternalID <$> tenants d !! jb_Tenant p.2) = Some tenantExternalID)
          (map_to_list (jobs d)) ≫= λ p, Some p.2.

Definition getExternalJob (d : db) (tenantExternalID jobExternalID : string) : result scan_error ExternalJobRecord :=
  match find_job d tenantExternalID jobExternalID with
  | None => Err ErrNoRows
  | Some id => scanExternalJob d id
  end.

(** ** Terminal webhook events *)
Record terminalWebhookPayload : Type := mkPayload {
  wp_EventID : string;
  wp_EventType : string;
  wp_OccurredAtMillis : Z;
  wp_TenantID : string;
  wp_JobID : string;
  wp_ClientReference : string;
  wp_Status : JobStatus;
  wp_Result : option DurableJobResult;
  wp_FailureCode : string
}.

(** The payload [EncodeTerminalWebhookEvent] marshals; the timestamp is formatted
    to the millisecond. *)
Definition EncodeTerminalWebhookEvent (eventID : string) (occurredAt : Z) (job : ExternalJobRecord) :
    option terminalWebhookPayload :=
  if negb (externalIDPattern eventID) || (occurredAt =? zero_time) ||
     negb (externalIDPattern (ej_TenantExternalID job)) || negb (externalIDPattern (ej_ExternalID job)) ||
     (255 <? len (ej_ClientReference job)) || negb (valid_string (ej_ClientReference job)) then None
  else
    let payload type result failure :=
      Some (mkPayload eventID type (occurredAt / millisecond) (ej_TenantExternalID job) (ej_ExternalID job)
              (ej_ClientReference job) (ej_Status job) result failure) in
    match ej_Status job with
    | JobStatusSucceeded =>
        match ej_Result job with
        | Some r =>
            if negb (bool_decide (ej_FailureCode job = "")) || negb (validateDurableJobResult r) then None
            else payload "judge.job.completed" (Some r) ""
        | None => None
        end
    | JobStatusFailed =>
        if is_some (ej_Result job) || negb (infrastructureCodePattern (ej_FailureCode job)) then None
        else payload "judge.job.failed" None (ej_FailureCode job)
    | JobStatusCancelled =>
        if is_some (ej_Result job) || negb (bool_decide (ej_FailureCode job = "")) then None
        else payload "judge.job.cancelled" None ""
    | _ => None
    end.

Section Outbox.
(** [json.Marshal] of the payload and the identifiers the random source yields. *)
Context (json_payload : terminalWebhookPayload → string).

Definition event_id_taken (d : db) (eventID : string) : bool :=
  existsb (λ p : Z * outbox_row, bool_decide (ob_EventID p.2 = eventID)) (map_to_list (outbox d)).

(** The loop of [insertTerminalWebhookEvent] over the generated event ids. The
    insert fails on a duplicate key when the id is taken or the job already has
    an event. *)
Fixpoint insert_event_loop (window now : Z) (job : ExternalJobRecord) (tenantID callbackID : Z)
    (eventIDs : list string) : tx string := λ d,
  match eventIDs with
  | [] => Err ErrExternalJobUnavailable
  | eventID :: eventIDs =>
      match EncodeTerminalWebhookEvent eventID now job with
      | None => Err ErrExternalJobUnavailable
      | Some payload =>
          match outbox d !! ej_InternalID job with
          | None =>
              if event_id_taken d eventID then
                insert_event_loop window now job tenantID callbackID eventIDs d
              else
                Ok (eventID,
                    set_outbox (insert (ej_InternalID job)
                      (mkOutboxRow eventID tenantID callbackID (wp_EventType payload) (json_payload payload)
                         "PENDING" 0 now now (now + window))) d)
          | Some row =>
              match EncodeTerminalWebhookEvent (ob_EventID row) (ob_CreatedAt row) job with
              | None => Err ErrExternalJobUnavailable
              | Some expected =>
                  if negb (ob_Tenant row =? tenantID) || negb (ob_Callback row =? callbackID) ||
                     negb (bool_decide (ob_EventType row = wp_EventType expected)) ||
                     negb (bool_decide (ob_Body row = json_payload expected))
                  then Err ErrExternalJobUnavailable
                  else Ok (ob_EventID row, d)
              end
          end
      end
  end.

(** [insertTerminalWebhookEvent]: at most eight identifiers are tried. *)
Definition insertTerminalWebhookEvent (window now : Z) (eventIDs : list string) (job : ExternalJobRecord) :
    tx string := λ d,
  match jobs d !! ej_InternalID job with
  | None => Err ErrExternalJobUnavailable
  | Some row =>
      match jb_Callback row with
      | None => Ok ("", d)
      | Some callbackID => insert_event_loop window now job (jb_Tenant row) callbackID (take 8 eventIDs) d
      end
  end.
End Outbox.
