(* ===== verification/JobWorker.v ===== *)
(** * The worker side of the job repository, [internal/external/mysql_job_worker.go]

    Claiming, heartbeating and settling jobs. Every operation is one
    transaction; [locked] gives the rows other transactions hold (they are what
    [SKIP LOCKED] passes over) and the clock readings are arguments: [now] is
    the reading that opens the transaction, [lockNow] the [CURRENT_TIMESTAMP(3)]
    of the statement that locks the claim. *)
From stdpp Require Import prelude gmap strings.
From S2P Require Import Prelude.
From S2P Require Import GoText.
From S2P Require Import JobState.
From S2P Require Import Manifest.
From S2P Require Import Store.

Open Scope Z_scope.

(** ** Reservations of execution time *)
Definition maximumManifestExecutionMillis (m : Manifest) : option Z :=
  if (Z.of_nat (length (m_Cases m)) =? 0) || (TimeLimitMillis (m_Limits m) <=? 0) then None
  else
    let perCase := TimeLimitMillis (m_Limits m) in
    let total perCase :=
      let caseCount := Z.of_nat (length (m_Cases m)) in
      if max_int64 / caseCount <? perCase then None else Some (wrap_int64 (perCase * caseCount)) in
    match m_SpecialJudge m with
    | None => total perCase
    | Some sj =>
        let checkerMillis := sj_TimeLimitMillis sj in
        if (checkerMillis <=? 0) || (max_int64 - checkerMillis <? perCase) then None
        else total (wrap_int64 (perCase + checkerMillis))
    end.

Inductive dailyReservationDecision : Type :=
| dailyReservationAllowed
| dailyReservationDeferred
| dailyReservationImpossible.

Definition reserveDailyExecution (tenantID accountingDay dailyLimit reserveMillis : Z) :
    tx dailyReservationDecision := λ d,
  if (dailyLimit <=? 0) || (reserveMillis <=? 0) then Err ErrExternalJobUnavailable
  else if dailyLimit <? reserveMillis then Ok (dailyReservationImpossible, d)
  else
    let row := default (mkDailyRow 0 0) (daily d !! (tenantID, accountingDay)) in
    let d := set_daily (insert (tenantID, accountingDay) row) d in
    if (dailyLimit - reserveMillis <? dl_Consumed row) ||
       (dailyLimit - reserveMillis - dl_Consumed row <? dl_Reserved row)
    then Ok (dailyReservationDeferred, d)
    else Ok (dailyReservationAllowed,
             set_daily (insert (tenantID, accountingDay)
               (mkDailyRow (dl_Reserved row + reserveMillis) (dl_Consumed row))) d).

(** The loop of [cappedCaseExecutionMillis]. *)
Fixpoint capped_loop (cases : list DurableCaseResult) (reservation total : Z) : Z :=
  match cases with
  | [] => total
  | item :: cases =>
      if reservation - total <=? dc_TimeMillis item then reservation
      else capped_loop cases reservation (total + dc_TimeMillis item)
  end.

Definition cappedCaseExecutionMillis (cases : list DurableCaseResult) (reservation : Z) : Z :=
  if reservation <=? 0 then 0 else capped_loop cases reservation 0.

(** Jobs deferred to the day after [accountingDay] become claimable now. *)
Definition wake_jobs (tenantID accountingDay now : Z) (d : db) : db :=
  set_jobs (fmap (λ r, if (jb_Tenant r =? tenantID) && bool_decide (jb_Status r = JobStatusQueued) &&
                          (jb_NextAttemptAt r =? accountingDay + day)
                       then set_next_attempt now r else r)) d.

Definition releaseAttemptReservation (tenantID jobID attemptNo now : Z) (cases : list DurableCaseResult)
    (chargeFullReservation : bool) : tx Z := λ d,
  match attempts d !! (jobID, attemptNo) with
  | Some a =>
      if negb (at_Tenant a =? tenantID) || negb (bool_decide (at_Status a = AttemptRunning))
      then Err ErrStaleJobClaim
      else
        match at_AccountingDay a with
        | None => Err ErrExternalJobUnavailable
        | Some accountingDay =>
            if at_Reserved a <=? 0 then Err ErrExternalJobUnavailable
            else
              let consumedMillis := if chargeFullReservation then at_Reserved a
                                    else cappedCaseExecutionMillis cases (at_Reserved a) in
              match daily d !! (tenantID, accountingDay) with
              | Some row =>
                  if dl_Reserved row <? at_Reserved a then Err ErrExternalJobUnavailable
                  else
                    Ok (consumedMillis,
                        wake_jobs tenantID accountingDay now
                          (set_daily (insert (tenantID, accountingDay)
                             (mkDailyRow (dl_Reserved row - at_Reserved a) (dl_Consumed row + consumedMillis))) d))
              | None => Err ErrExternalJobUnavailable
              end
        end
  | None => Err ErrStaleJobClaim
  end.

(** ** Attempts *)
Definition close_attempt (status : AttemptStatus) (now : Z) (failure : option string) (consumed : Z)
    (a : attempt_row) : attempt_row :=
  {| at_Tenant := at_Tenant a; at_WorkerID := at_WorkerID a; at_LeaseToken := None; at_Status := status;
     at_LeaseUntil := at_LeaseUntil a; at_AccountingDay := at_AccountingDay a; at_Reserved := 0;
     at_Consumed := consumed; at_StartedAt := at_StartedAt a; at_FinishedAt := Some now;
     at_FailureCode := failure |}.

Definition expireAttempt (tenantID jobID attemptNo now : Z) : tx unit :=
  _ ← releaseAttemptReservation tenantID jobID attemptNo now [] false;
  affected ← update_attempt jobID attemptNo
    (λ a, (at_Tenant a =? tenantID) && bool_decide (at_Status a = AttemptRunning))
    (λ a, close_attempt AttemptExpired now (Some "LEASE_EXPIRED") (at_Consumed a) a);
  tx_guard affected ErrStaleJobClaim.

(** ** Claims *)
Record WorkerJobClaim : Type := mkWorkerClaim {
  wc_Job : ExternalJobRecord;
  wc_WorkerID : string;
  wc_AttemptNo : Z;
  wc_LeaseToken : string;
  wc_LeaseUntil : Z
}.

Definition visible_ascii (a : Ascii.ascii) : bool := in_range 33 126 (byte_of a).

Definition validWorkerID (workerID : string) : bool :=
  if (len workerID =? 0) || (128 <? len workerID) || negb (bool_decide (trim_space workerID = workerID)) then false
  else string_forallb visible_ascii workerID.

Definition validWorkerClaim (claim : WorkerJobClaim) : bool :=
  (0 <? ej_InternalID (wc_Job claim)) && (0 <? wc_AttemptNo claim) && validWorkerID (wc_WorkerID claim) &&
  (len (wc_LeaseToken claim) =? 32).

Definition owns_job (claim : WorkerJobClaim) (r : job_row) : bool :=
  bool_decide (jb_Status r = JobStatusRunning) && (jb_AttemptNo r =? wc_AttemptNo claim) &&
  bool_decide (jb_WorkerID r = Some (wc_WorkerID claim)) &&
  bool_decide (jb_LeaseToken r = Some (wc_LeaseToken claim)).

Definition lease_live (now : Z) (r : job_row) : bool :=
  match jb_LeaseUntil r with Some until => now <? until | None => false end.

Definition lease_expired (now : Z) (r : job_row) : bool :=
  match jb_LeaseUntil r with Some until => until <=? now | None => false end.

Definition owns_attempt (claim : WorkerJobClaim) (a : attempt_row) : bool :=
  bool_decide (at_WorkerID a = wc_WorkerID claim) &&
  bool_decide (at_LeaseToken a = Some (wc_LeaseToken claim)) &&
  bool_decide (at_Status a = AttemptRunning).

Definition finishAttempt (claim : WorkerJobClaim) (status : AttemptStatus) (failureCode : string)
    (consumedMillis now : Z) : tx unit :=
  affected ← update_attempt (ej_InternalID (wc_Job claim)) (wc_AttemptNo claim) (owns_attempt claim)
    (close_attempt status now (if bool_decide (failureCode = "") then None else Some failureCode) consumedMillis);
  tx_guard affected ErrStaleJobClaim.

Definition settleAttemptReservation (claim : WorkerJobClaim) (now : Z) (cases : list DurableCaseResult)
    (chargeFullReservation : bool) : tx Z :=
  releaseAttemptReservation (ej_TenantInternalID (wc_Job claim)) (ej_InternalID (wc_Job claim))
    (wc_AttemptNo claim) now cases chargeFullReservation.

(** [lockActiveClaimAndPolicy]: whether cancellation was requested, and the
    tenant's policy document. *)
Definition lockActiveClaimAndPolicy (claim : WorkerJobClaim) (lockNow : Z) : tx (bool * string) := λ d,
  match jobs d !! ej_InternalID (wc_Job claim) with
  | None => Err ErrStaleJobClaim
  | Some job =>
      match tenants d !! jb_Tenant job with
      | None => Err ErrExternalJobUnavailable
      | Some tenant =>
          if owns_job claim job && lease_live lockNow job
          then Ok ((is_some (jb_CancelRequestedAt job), tn_PolicyJSON tenant), d)
          else Err ErrStaleJobClaim
      end
  end.

(** ** Heartbeat and control *)
Definition set_job_lease (until : Z) (r : job_row) : job_row :=
  {| jb_ExternalID := jb_ExternalID r; jb_Tenant := jb_Tenant r; jb_Bundle := jb_Bundle r;
     jb_Source := jb_Source r; jb_Callback := jb_Callback r; jb_Status := jb_Status r;
     jb_Language := jb_Language r; jb_StopOnFailure := jb_StopOnFailure r;
     jb_ClientReference := jb_ClientReference r; jb_AttemptNo := jb_AttemptNo r;
     jb_WorkerID := jb_WorkerID r; jb_LeaseToken := jb_LeaseToken r; jb_LeaseUntil := Some until;
     jb_NextAttemptAt := jb_NextAttemptAt r; jb_CancelRequestedAt := jb_CancelRequestedAt r;
     jb_Result := jb_Result r; jb_FailureCode := jb_FailureCode r; jb_CreatedAt := jb_CreatedAt r;
     jb_StartedAt := jb_StartedAt r; jb_CompletedAt := jb_CompletedAt r |}.

Definition set_attempt_lease (until : Z) (a : attempt_row) : attempt_row :=
  {| at_Tenant := at_Tenant a; at_WorkerID := at_WorkerID a; at_LeaseToken := at_LeaseToken a;
     at_Status := at_Status a; at_LeaseUntil := until; at_AccountingDay := at_AccountingDay a;
     at_Reserved := at_Reserved a; at_Consumed := at_Consumed a; at_StartedAt := at_StartedAt a;
     at_FinishedAt := at_FinishedAt a; at_FailureCode := at_FailureCode a |}.

Definition lease_duration_ok (leaseDuration : Z) : bool := (0 <? leaseDuration) && (leaseDuration <=? 15 * minute).

Definition HeartbeatTx (claim : WorkerJobClaim) (leaseDuration now : Z) : tx unit :=
  _ ← tx_guard (validWorkerClaim claim && lease_duration_ok leaseDuration) ErrStaleJobClaim;
  let leaseUntil := now + leaseDuration in
  affected ← update_job (ej_InternalID (wc_Job claim))
    (λ r, owns_job claim r && lease_live now r) (set_job_lease leaseUntil);
  _ ← tx_guard affected ErrStaleJobClaim;
  affected ← update_attempt (ej_InternalID (wc_Job claim)) (wc_AttemptNo claim) (owns_attempt claim)
    (set_attempt_lease leaseUntil);
  tx_guard affected ErrStaleJobClaim.

Definition ClaimCancelled (claim : WorkerJobClaim) (now : Z) (d : db) : result external_error bool :=
  if negb (validWorkerClaim claim) then Err ErrStaleJobClaim
  else
    match jobs d !! ej_InternalID (wc_Job claim) with
    | Some job =>
        if owns_job claim job && lease_live now job then Ok (is_some (jb_CancelRequestedAt job))
        else Err ErrStaleJobClaim
    | None => Err ErrStaleJobClaim
    end.

Inductive FailureDisposition : Type :=
| FailureRequeued
| FailureTerminal
| FailureCancelled.

#[export] Instance FailureDisposition_eq_dec : EqDecision FailureDisposition.
Proof. solve_decision. Defined.

Section Worker.
(** [encoding/json] of the three documents, and MySQL's reading of an integer
    member of the policy document ([JSON_TYPE ... = 'INTEGER'], [CAST AS UNSIGNED]). *)
Context (json_policy : string → option TenantPolicy) (json_manifest : string → option Manifest)
        (json_payload : terminalWebhookPayload → string) (sql_policy_int : string → string → option Z).
(** [webhookDeliveryWindow] of the repository. *)
Context (window : Z).

Definition decodeTenantPolicy (encoded : string) : option TenantPolicy :=
  match json_policy encoded with
  | Some p => if policy_validate p then Some p else None
  | None => None
  end.

(** [Complete] up to its commit. *)
Definition CompleteTx (claim : WorkerJobClaim) (result : DurableJobResult) (now lockNow : Z)
    (eventIDs : list string) : tx unit :=
  _ ← tx_guard (validWorkerClaim claim && validateDurableJobResult result) ErrInvalidJobState;
  '(cancelled, _) ← lockActiveClaimAndPolicy claim lockNow;
  affected ← update_job (ej_InternalID (wc_Job claim)) (owns_job claim)
    (λ r, release_job (if cancelled then JobStatusCancelled else JobStatusSucceeded) (jb_NextAttemptAt r)
            (if cancelled then None else Some result) None (Some now) r);
  _ ← tx_guard affected ErrStaleJobClaim;
  let chargeFullReservation :=
    bool_decide (dr_Cases result = []) && (cancelled || bool_decide (dr_CompileStatus result = "FAILED")) in
  consumedMillis ← settleAttemptReservation claim now (dr_Cases result) chargeFullReservation;
  _ ← finishAttempt claim (if cancelled then AttemptCancelled else AttemptSucceeded) "" consumedMillis now;
  job ← getExternalJobByInternalID (ej_InternalID (wc_Job claim));
  _ ← insertTerminalWebhookEvent json_payload window now eventIDs job;
  mret tt.

Definition failure_disposition (cancelled : bool) (failure : InfrastructureFailure) (attemptNo tries : Z) :
    FailureDisposition :=
  if cancelled then FailureCancelled
  else if negb (inf_Permanent failure) && (attemptNo <? tries) then FailureRequeued
  else FailureTerminal.

(** [FailInfrastructure] up to its commit. *)
Definition FailInfrastructureTx (claim : WorkerJobClaim) (failure : InfrastructureFailure) (now lockNow : Z)
    (eventIDs : list string) : tx FailureDisposition :=
  _ ← tx_guard (validWorkerClaim claim && infrastructureCodePattern (inf_Code failure) &&
                negb (inf_RetryDelay failure <? 0) && negb (hour <? inf_RetryDelay failure)) ErrInvalidJobState;
  '(cancelled, encodedPolicy) ← lockActiveClaimAndPolicy claim lockNow;
  match decodeTenantPolicy encodedPolicy with
  | None => tx_fail ErrExternalJobUnavailable
  | Some policy =>
      let disposition := failure_disposition cancelled failure (wc_AttemptNo claim) (MaxInfrastructureTries policy) in
      affected ← update_job (ej_InternalID (wc_Job claim)) (owns_job claim)
        (λ r, match disposition with
              | FailureCancelled => release_job JobStatusCancelled now (jb_Result r) None (Some now) r
              | FailureRequeued => release_job JobStatusQueued (now + inf_RetryDelay failure) (jb_Result r) None None r
              | FailureTerminal =>
                  release_job JobStatusFailed now (jb_Result r) (Some (inf_Code failure)) (Some now) r
              end);
      _ ← tx_guard affected ErrStaleJobClaim;
      consumedMillis ← settleAttemptReservation claim now [] (inf_ChargeFullReservation failure);
      _ ← finishAttempt claim (if cancelled then AttemptCancelled else AttemptFailed)
            (if cancelled then "" else inf_Code failure) consumedMillis now;
      if bool_decide (disposition = FailureRequeued) then mret disposition
      else
        job ← getExternalJobByInternalID (ej_InternalID (wc_Job claim));
        _ ← insertTerminalWebhookEvent json_payload window now eventIDs job;
        mret disposition
  end.

(** ** Selection of a tenant and of a job *)
Definition tenant_jobs (d : db) (tenantID : Z) : list (Z * job_row) :=
  filter (λ p, jb_Tenant p.2 = tenantID) (map_to_list (jobs d)).

Definition running_count (d : db) (tenantID : Z) : Z :=
  Z.of_nat (length (filter (λ p, jb_Status p.2 = JobStatusRunning) (tenant_jobs d tenantID))).

Definition has_expired (d : db) (now tenantID : Z) : bool :=
  existsb (λ p, bool_decide (jb_Status p.2 = JobStatusRunning) && lease_expired now p.2) (tenant_jobs d tenantID).

Definition has_due (d : db) (now tenantID : Z) : bool :=
  existsb (λ p, bool_decide (jb_Status p.2 = JobStatusQueued) && (jb_NextAttemptAt p.2 <=? now))
    (tenant_jobs d tenantID).

Definition has_capacity (d : db) (tenantID : Z) (tenant : tenant_row) : bool :=
  match sql_policy_int (tn_PolicyJSON tenant) "maxRunningJobs" with
  | Some n => running_count d tenantID <? n
  | None => false
  end.

(** The WHERE clause of the fair tenant selection. *)
Definition tenant_claimable (d : db) (now tenantID : Z) (tenant : tenant_row) : bool :=
  has_expired d now tenantID ||
  (bool_decide (tn_Status tenant = "ACTIVE") &&
   match sql_policy_int (tn_PolicyJSON tenant) "maxInfrastructureTries" with
   | Some n => in_range 1 10 n
   | None => false
   end && has_capacity d tenantID tenant && has_due d now tenantID).

(** The probe that decides whether contention hid a tenant: it does not look at
    [maxInfrastructureTries]. *)
Definition tenant_due (d : db) (now tenantID : Z) (tenant : tenant_row) : bool :=
  has_expired d now tenantID ||
  (bool_decide (tn_Status tenant = "ACTIVE") && has_capacity d tenantID tenant && has_due d now tenantID).

(** The ORDER BY of the tenant selection: recovery first, never claimed first,
    then the least recently claimed, then the lowest id. *)
Definition tenant_before (d : db) (now : Z) (a b : Z * tenant_row) : bool :=
  let ea := has_expired d now a.1 in
  let eb := has_expired d now b.1 in
  if negb (bool_decide (ea = eb)) then ea
  else
    match tn_LastClaimed a.2, tn_LastClaimed b.2 with
    | None, Some _ => true
    | Some _, None => false
    | None, None => a.1 <? b.1
    | Some x, Some y => if x =? y then a.1 <? b.1 else x <? y
    end.

Definition select_tenant (d : db) (now : Z) (locked : gset Z) : option (Z * tenant_row) :=
  first_by (tenant_before d now)
    (filter (λ p, tenant_claimable d now p.1 p.2 = true ∧ p.1 ∉ locked) (map_to_list (tenants d))).

Definition job_claimable (tenantStatus : string) (now : Z) (r : job_row) : bool :=
  (bool_decide (tenantStatus = "ACTIVE") && bool_decide (jb_Status r = JobStatusQueued) &&
   (jb_NextAttemptAt r <=? now)) ||
  (bool_decide (jb_Status r = JobStatusRunning) && lease_expired now r).

Definition job_before (a b : Z * job_row) : bool :=
  let ra := bool_decide (jb_Status a.2 = JobStatusRunning) in
  let rb := bool_decide (jb_Status b.2 = JobStatusRunning) in
  if negb (bool_decide (ra = rb)) then ra
  else if negb (jb_NextAttemptAt a.2 =? jb_NextAttemptAt b.2) then jb_NextAttemptAt a.2 <? jb_NextAttemptAt b.2
  else if negb (jb_CreatedAt a.2 =? jb_CreatedAt b.2) then jb_CreatedAt a.2 <? jb_CreatedAt b.2
  else a.1 <? b.1.

(** The job is joined with its bundle; rows locked elsewhere are skipped. *)
Definition select_job (d : db) (now tenantID : Z) (tenantStatus : string) (locked : gset Z) :
    option (Z * job_row) :=
  first_by job_before
    (filter (λ p, job_claimable tenantStatus now p.2 = true ∧ p.1 ∉ locked ∧
                  (bn_Tenant <$> bundles d !! jb_Bundle p.2) = Some tenantID)
       (tenant_jobs d tenantID)).

(** ** Claiming one job *)

(** How a transaction of [claimOneWithClock] ends when it commits: with a claim,
    or after a recovery that asks the caller to try again. *)
Inductive claim_outcome : Type :=
| Claimed (claim : WorkerJobClaim)
| ClaimAgain.

Definition advanceTenantFairness (tenantID now : Z) : tx unit :=
  tx_modify (set_tenants (alter (λ t, mkTenantRow (tn_ExternalID t) (tn_Status t) (tn_PolicyJSON t) (Some now)) tenantID)).

Definition failImpossibleDailyExecution (tenantID jobID : Z) (status : JobStatus) (attemptNo now : Z)
    (eventIDs : list string) : tx unit :=
  affected ← update_job jobID
    (λ r, (jb_Tenant r =? tenantID) && bool_decide (jb_Status r = status) && (jb_AttemptNo r =? attemptNo))
    (λ r, release_job JobStatusFailed (jb_NextAttemptAt r) (jb_Result r)
            (Some "DAILY_EXECUTION_LIMIT_TOO_LOW") (Some now) r);
  _ ← tx_guard affected ErrJobNotClaimable;
  _ ← advanceTenantFairness tenantID now;
  job ← getExternalJobByInternalID jobID;
  _ ← insertTerminalWebhookEvent json_payload window now eventIDs job;
  mret tt.

(** A terminal settlement of an expired job: the update, then the event. *)
Definition settle_expired (jobID attemptNo now : Z) (eventIDs : list string) (set : job_row → job_row) :
    tx claim_outcome :=
  _ ← update_job jobID (λ r, bool_decide (jb_Status r = JobStatusRunning) && (jb_AttemptNo r =? attemptNo)) set;
  job ← getExternalJobByInternalID jobID;
  _ ← insertTerminalWebhookEvent json_payload window now eventIDs job;
  mret ClaimAgain.

(** The row written by a successful claim. *)
Definition claim_job (attemptNo : Z) (workerID leaseToken : string) (leaseUntil now : Z) (r : job_row) : job_row :=
  {| jb_ExternalID := jb_ExternalID r; jb_Tenant := jb_Tenant r; jb_Bundle := jb_Bundle r;
     jb_Source := jb_Source r; jb_Callback := jb_Callback r; jb_Status := JobStatusRunning;
     jb_Language := jb_Language r; jb_StopOnFailure := jb_StopOnFailure r;
     jb_ClientReference := jb_ClientReference r; jb_AttemptNo := attemptNo; jb_WorkerID := Some workerID;
     jb_LeaseToken := Some leaseToken; jb_LeaseUntil := Some leaseUntil;
     jb_NextAttemptAt := jb_NextAttemptAt r; jb_CancelRequestedAt := jb_CancelRequestedAt r;
     jb_Result := jb_Result r; jb_FailureCode := None; jb_CreatedAt := jb_CreatedAt r;
     jb_StartedAt := match jb_StartedAt r with None => Some now | Some t => Some t end;
     jb_CompletedAt := jb_CompletedAt r |}.

(** The end of [claimOneWithClock]: the new attempt and its lease. *)
Definition persist_claim (tenantID jobID : Z) (status : JobStatus) (attemptNo reserved : Z)
    (workerID leaseToken : string) (leaseDuration now accountingDay : Z) : tx claim_outcome :=
  _ ← tx_guard (negb (attemptNo =? max_uint32)) ErrExternalJobUnavailable;
  let newAttemptNo := attemptNo + 1 in
  let leaseUntil := now + leaseDuration in
  affected ← update_job jobID (λ r, bool_decide (jb_Status r = status) && (jb_AttemptNo r =? attemptNo))
    (claim_job newAttemptNo workerID leaseToken leaseUntil now);
  _ ← tx_guard affected ErrJobNotClaimable;
  d ← tx_get;
  _ ← tx_guard (negb (is_some (attempts d !! (jobID, newAttemptNo)))) ErrExternalJobUnavailable;
  _ ← tx_modify (set_attempts (insert (jobID, newAttemptNo)
        (mkAttemptRow tenantID workerID (Some leaseToken) AttemptRunning leaseUntil (Some accountingDay)
           reserved 0 now None None)));
  _ ← advanceTenantFairness tenantID now;
  job ← getExternalJobByInternalID jobID;
  mret (Claimed (mkWorkerClaim job workerID newAttemptNo leaseToken leaseUntil)).

(** What the quota decision leads to, for a job found in [status]. [deferred] is
    the row update of the deferral. *)
Definition after_reservation (decision : dailyReservationDecision) (tenantID jobID : Z) (status : JobStatus)
    (attemptNo now : Z) (eventIDs : list string) (deferred : job_row → job_row) (proceed : tx claim_outcome) :
    tx claim_outcome :=
  match decision with
  | dailyReservationImpossible =>
      _ ← failImpossibleDailyExecution tenantID jobID status attemptNo now eventIDs;
      mret ClaimAgain
  | dailyReservationDeferred =>
      _ ← update_job jobID
        (λ r, bool_decide (jb_Status r = status) &&
              (bool_decide (status = JobStatusQueued) || (jb_AttemptNo r =? attemptNo))) deferred;
      _ ← advanceTenantFairness tenantID now;
      mret ClaimAgain
  | dailyReservationAllowed => proceed
  end.

(** [claimOneWithClock] once the tenant and the job are locked: recovery of an
    expired job, or admission of a queued one. [policy] is the decoded policy of
    an active tenant and [None] for any other. *)
Definition claim_selected (tenantID : Z) (policy : option TenantPolicy) (jobID : Z) (job : job_row)
    (reserved : Z) (workerID leaseToken : string) (leaseDuration now accountingDay : Z)
    (eventIDs : list string) : tx claim_outcome :=
  let attemptNo := jb_AttemptNo job in
  let proceed status := persist_claim tenantID jobID status attemptNo reserved workerID leaseToken
                          leaseDuration now accountingDay in
  match jb_Status job with
  | JobStatusRunning =>
      _ ← expireAttempt tenantID jobID attemptNo now;
      match policy with
      | None =>
          settle_expired jobID attemptNo now eventIDs
            (λ r, release_job JobStatusFailed (jb_NextAttemptAt r) (jb_Result r) (Some "TENANT_DISABLED") (Some now) r)
      | Some policy =>
          if is_some (jb_CancelRequestedAt job) then
            settle_expired jobID attemptNo now eventIDs
              (λ r, release_job JobStatusCancelled (jb_NextAttemptAt r) None None (Some now) r)
          else if MaxInfrastructureTries policy <=? attemptNo then
            settle_expired jobID attemptNo now eventIDs
              (λ r, release_job JobStatusFailed (jb_NextAttemptAt r) (jb_Result r) (Some "LEASE_EXPIRED") (Some now) r)
          else
            decision ← reserveDailyExecution tenantID accountingDay (DailyExecutionMillis policy) reserved;
            after_reservation decision tenantID jobID JobStatusRunning attemptNo now eventIDs
              (λ r, release_job JobStatusQueued (accountingDay + day) (jb_Result r) (jb_FailureCode r)
                      (jb_CompletedAt r) r) (proceed JobStatusRunning)
      end
  | JobStatusQueued =>
      _ ← tx_guard (0 <? reserved) ErrExternalJobUnavailable;
      decision ← reserveDailyExecution tenantID accountingDay (default 0 (DailyExecutionMillis <$> policy)) reserved;
      after_reservation decision tenantID jobID JobStatusQueued attemptNo now eventIDs
        (set_next_attempt (accountingDay + day)) (proceed JobStatusQueued)
  | _ => tx_fail ErrJobNotClaimable
  end.

(** The running quota of a queued job is the first check after the selection. *)
Definition running_quota_full (d : db) (tenantID : Z) (policy : option TenantPolicy) (job : job_row) : bool :=
  bool_decide (jb_Status job = JobStatusQueued) &&
  (default 0 (MaxRunningJobs <$> policy) <=? running_count d tenantID).

(** What one claim attempt sees of the world: its clock, the rows locked by
    others, the lease token and the event identifiers it draws. *)
Record claim_env : Type := mkClaimEnv {
  ce_Now : Z;
  ce_AccountingDay : Z;
  ce_LockedTenants : gset Z;
  ce_LockedJobs : gset Z;
  ce_LeaseToken : string;
  ce_EventIDs : list string
}.

(** The result of [claimOneWithClock]: a commit, or an error with the [retry]
    flag and the transaction rolled back. *)
Inductive claim_result : Type :=
| ClaimCommitted (outcome : claim_outcome) (d : db)
| ClaimRejected (retry : bool) (e : external_error).

(** The manifest of the selected job within the ceilings of an active tenant,
    and its reservation. *)
Definition claim_reservation (d : db) (policy : option TenantPolicy) (job : job_row) : option Z :=
  match bundles d !! jb_Bundle job with
  | None => None
  | Some bundle =>
      match ParseManifest json_manifest (bn_ManifestJSON bundle) with
      | Err _ => None
      | Ok m =>
          match policy with
          | Some p =>
              if manifestWithinExecutionCeilings m (MaxTimeLimitMillis p) (MaxMemoryLimitMiB p)
              then maximumManifestExecutionMillis m else None
          | None => maximumManifestExecutionMillis m
          end
      end
  end.

Definition claimOneWithClock (workerID : string) (leaseDuration : Z) (env : claim_env) (d : db) : claim_result :=
  let now := ce_Now env in
  match select_tenant d now (ce_LockedTenants env) with
  | None => ClaimRejected (existsb (λ p, tenant_due d now p.1 p.2) (map_to_list (tenants d))) ErrJobNotClaimable
  | Some (tenantID, tenant) =>
      let active := bool_decide (tn_Status tenant = "ACTIVE") in
      let policy := if active then decodeTenantPolicy (tn_PolicyJSON tenant) else None in
      if active && negb (is_some policy) then ClaimRejected false ErrExternalJobUnavailable
      else
        match select_job d now tenantID (tn_Status tenant) (ce_LockedJobs env) with
        | None => ClaimRejected true ErrJobNotClaimable
        | Some (jobID, job) =>
            match claim_reservation d policy job with
            | None => ClaimRejected false ErrExternalJobUnavailable
            | Some reserved =>
                if running_quota_full d tenantID policy job then ClaimRejected true ErrJobNotClaimable
                else
                  match claim_selected tenantID policy jobID job reserved workerID (ce_LeaseToken env)
                          leaseDuration now (ce_AccountingDay env) (ce_EventIDs env) d with
                  | Ok (outcome, d) => ClaimCommitted outcome d
                  | Err e => ClaimRejected false e
                  end
            end
        end
  end.

(** The retry loop of [ClaimNext]; [interfere] is what other transactions commit
    while the loop waits. *)
Fixpoint claim_loop (workerID : string) (leaseDuration : Z) (interfere : db → db) (envs : list claim_env)
    (d : db) : result external_error WorkerJobClaim * db :=
  match envs with
  | [] => (Err ErrJobNotClaimable, d)
  | env :: envs =>
      match claimOneWithClock workerID leaseDuration env d with
      | ClaimCommitted (Claimed claim) d => (Ok claim, d)
      | ClaimCommitted ClaimAgain d => claim_loop workerID leaseDuration interfere envs (interfere d)
      | ClaimRejected true ErrJobNotClaimable => claim_loop workerID leaseDuration interfere envs (interfere d)
      | ClaimRejected _ e => (Err e, d)
      end
  end.

Definition ClaimNext (workerID : string) (leaseDuration : Z) (interfere : db → db) (envs : list claim_env)
    (d : db) : result external_error WorkerJobClaim * db :=
  if negb (validWorkerID workerID) || negb (lease_duration_ok leaseDuration) then (Err ErrInvalidJobState, d)
  else claim_loop workerID leaseDuration interfere (take 32 envs) d.
End Worker.
