(* ===== verification/JobRepository.v ===== *)
(** * The client side of the job repository, [internal/external/mysql_job_repository.go]

    Cancellation, lookup, idempotent submission and the source reservations
    that protect encrypted source objects. *)
From stdpp Require Import prelude gmap strings.
From S2P Require Import Prelude.
From S2P Require Import GoText.
From S2P Require Import JobState.
From S2P Require Import Manifest.
From S2P Require Import Store.
From S2P Require Import JobWorker.

Open Scope Z_scope.

(** ** Lookup *)
Definition Get (tenantExternalID jobExternalID : string) (d : db) : result external_error ExternalJobRecord :=
  if negb (externalIDPattern tenantExternalID) || negb (externalIDPattern jobExternalID)
  then Err ErrExternalJobNotFound
  else
    match getExternalJob d tenantExternalID jobExternalID with
    | Ok job => Ok job
    | Err ErrNoRows => Err ErrExternalJobNotFound
    | Err ErrScan => Err ErrExternalJobUnavailable
    end.

Definition find_tenant (d : db) (tenantExternalID : string) : option (Z * tenant_row) :=
  snd <$> list_find (λ p : Z * tenant_row, tn_ExternalID p.2 = tenantExternalID) (map_to_list (tenants d)).

(** ** Cancellation *)
Definition request_cancel (now : Z) (r : job_row) : job_row :=
  {| jb_ExternalID := jb_ExternalID r; jb_Tenant := jb_Tenant r; jb_Bundle := jb_Bundle r;
     jb_Source := jb_Source r; jb_Callback := jb_Callback r; jb_Status := jb_Status r;
     jb_Language := jb_Language r; jb_StopOnFailure := jb_StopOnFailure r;
     jb_ClientReference := jb_ClientReference r; jb_AttemptNo := jb_AttemptNo r;
     jb_WorkerID := jb_WorkerID r; jb_LeaseToken := jb_LeaseToken r; jb_LeaseUntil := jb_LeaseUntil r;
     jb_NextAttemptAt := jb_NextAttemptAt r; jb_CancelRequestedAt := Some now; jb_Result := jb_Result r;
     jb_FailureCode := jb_FailureCode r; jb_CreatedAt := jb_CreatedAt r; jb_StartedAt := jb_StartedAt r;
     jb_CompletedAt := jb_CompletedAt r |}.

Definition cancel_queued (now : Z) (r : job_row) : job_row :=
  release_job JobStatusCancelled (jb_NextAttemptAt r) (jb_Result r) (jb_FailureCode r) (Some now) (request_cancel now r).

Section Repository.
Context (json_payload : terminalWebhookPayload → string) (window : Z).

Definition read_job (tenantExternalID jobExternalID : string) (noRows : external_error) : tx ExternalJobRecord := λ d,
  match getExternalJob d tenantExternalID jobExternalID with
  | Ok job => Ok (job, d)
  | Err ErrNoRows => Err noRows
  | Err ErrScan => Err ErrExternalJobUnavailable
  end.

(** [Cancel] up to its commit. *)
Definition CancelTx (tenantExternalID jobExternalID : string) (now : Z) (eventIDs : list string) :
    tx ExternalJobRecord :=
  _ ← tx_guard (externalIDPattern tenantExternalID && externalIDPattern jobExternalID) ErrExternalJobNotFound;
  d ← tx_get;
  _ ← tx_guard (is_some (find_tenant d tenantExternalID)) ErrExternalJobNotFound;
  job ← read_job tenantExternalID jobExternalID ErrExternalJobNotFound;
  emitTerminalEvent ←
    match ej_Status job with
    | JobStatusQueued =>
        _ ← update_job (ej_InternalID job) (λ r, bool_decide (jb_Status r = JobStatusQueued)) (cancel_queued now);
        mret true
    | JobStatusRunning =>
        if is_some (ej_CancelRequested job) then mret false
        else
          _ ← update_job (ej_InternalID job) (λ r, bool_decide (jb_Status r = JobStatusRunning)) (request_cancel now);
          mret false
    | JobStatusSucceeded | JobStatusFailed | JobStatusCancelled => mret false
    | JobStatusUnknown _ => tx_fail ErrExternalJobUnavailable
    end;
  job ← read_job tenantExternalID jobExternalID ErrExternalJobUnavailable;
  if emitTerminalEvent : bool then
    _ ← insertTerminalWebhookEvent json_payload window now eventIDs job;
    mret job
  else mret job.
End Repository.

(** ** Submission

    The transaction of [Submit], from [lockSubmissionReservations] to its
    commit. The identifiers [AUTO_INCREMENT] assigns are arguments; an insert
    with a key in use fails as any duplicate key does. *)
Record JudgeJobRequest : Type := mkJobRequest {
  rq_BundleID : string;
  rq_Language : string;
  rq_SourceCode : string;
  rq_StopOnFailure : bool;
  rq_CallbackID : string;
  rq_ClientReference : string
}.

Record EncryptedSource : Type := mkEncryptedSource {
  es_Ciphertext : string;
  es_Nonce : string;
  es_KeyVersion : Z;
  es_SHA256 : string;
  es_SizeBytes : Z
}.

Record sourceReservationClaim : Type := mkReservationClaim {
  rc_ObjectKey : string;
  rc_OwnerToken : string
}.

Definition reservation_owned (claim : sourceReservationClaim) (r : reservation_row) : bool :=
  bool_decide (rs_OwnerToken r = rc_OwnerToken claim).

Definition lock_reservation (claim : sourceReservationClaim) (now : Z) : tx unit := λ d,
  match reservations d !! rc_ObjectKey claim with
  | Some r => if reservation_owned claim r && (now <? rs_LeaseUntil r) then Ok (tt, d)
              else Err ErrExternalJobUnavailable
  | None => Err ErrExternalJobUnavailable
  end.

Definition lockSubmissionReservations (first second : sourceReservationClaim) (now : Z) : tx unit :=
  let '(first, second) := if String.ltb (rc_ObjectKey second) (rc_ObjectKey first) then (second, first)
                          else (first, second) in
  _ ← lock_reservation first now;
  lock_reservation second now.

Definition reservation_matches (claims : list sourceReservationClaim) (p : string * reservation_row) : Prop :=
  Exists (λ c, p.1 = rc_ObjectKey c ∧ rs_OwnerToken p.2 = rc_OwnerToken c) claims.

#[export] Instance reservation_matches_dec claims p : Decision (reservation_matches claims p).
Proof. unfold reservation_matches. apply _. Defined.

(** [DELETE FROM t_external_source_reservation WHERE (key and token) OR ...]. *)
Definition delete_reservations (claims : list sourceReservationClaim) : tx Z := λ d,
  Ok (Z.of_nat (size (filter (reservation_matches claims) (reservations d))),
      set_reservations (filter (λ p, ¬ reservation_matches claims p)) d).

Section Submission.
Context (json_policy : string → option TenantPolicy).

Definition lockTenantPolicy (tenantExternalID : string) : tx (Z * TenantPolicy) := λ d,
  match find_tenant d tenantExternalID with
  | None => Err ErrExternalJobUnavailable
  | Some (id, tenant) =>
      if negb (bool_decide (tn_Status tenant = "ACTIVE")) then Err ErrExternalJobUnavailable
      else
        match decodeTenantPolicy json_policy (tn_PolicyJSON tenant) with
        | Some policy => Ok ((id, policy), d)
        | None => Err ErrExternalJobUnavailable
        end
  end.

Definition queued_count (d : db) (tenantID : Z) : Z :=
  Z.of_nat (length (filter (λ p, jb_Status p.2 = JobStatusQueued) (tenant_jobs d tenantID))).

Definition bundle_available (tenantID : Z) (bundleID : string) (b : bundle_row) : Prop :=
  bn_Tenant b = tenantID ∧ bn_ExternalID b = bundleID ∧ bn_PublicationStatus b = "READY" ∧
  is_Some (bn_ReadyAt b) ∧ bn_DeleteMarkedAt b = None ∧ bn_DeletedAt b = None.

#[export] Instance bundle_available_dec tenantID bundleID b : Decision (bundle_available tenantID bundleID b).
Proof. unfold bundle_available. apply _. Defined.

Definition find_bundle (d : db) (tenantID : Z) (bundleID : string) : option Z :=
  (λ p : nat * (Z * bundle_row), p.2.1) <$>
    list_find (λ p : Z * bundle_row, bundle_available tenantID bundleID p.2) (map_to_list (bundles d)).

Definition callback_available (tenantID : Z) (callbackID : string) (c : callback_row) : Prop :=
  cb_Tenant c = tenantID ∧ cb_ExternalID c = callbackID ∧ cb_DisabledAt c = None ∧
  (len <$> cb_SecretNonce c) = Some 12 ∧ 16 < len (cb_SecretCiphertext c) ∧ 0 < cb_SecretKeyVersion c.

#[export] Instance callback_available_dec tenantID callbackID c : Decision (callback_available tenantID callbackID c).
Proof. unfold callback_available. apply _. Defined.

Definition find_callback (d : db) (tenantID : Z) (callbackID : string) : option Z :=
  (λ p : nat * (Z * callback_row), p.2.1) <$>
    list_find (λ p : Z * callback_row, callback_available tenantID callbackID p.2) (map_to_list (callbacks d)).

(** What one submission computes before it touches the database. *)
Record submission : Type := mkSubmission {
  su_Tenant : string;
  su_KeyDigest : string;
  su_RequestHash : string;
  su_Request : JudgeJobRequest;
  su_JobExternalID : string;
  su_SourceExternalID : string;
  su_Encrypted : EncryptedSource;
  su_Coordination : sourceReservationClaim;
  su_Source : sourceReservationClaim
}.

(** A submission commits a new job, or finds the job of an earlier one; the
    transaction of a replay is rolled back. *)
Inductive submit_outcome : Type :=
| SubmittedJob (job : ExternalJobRecord)
| ReplayedJob (job : ExternalJobRecord).

Definition source_of_submission (tenantID : Z) (s : submission) : source_row :=
  mkSourceRow (su_SourceExternalID s) tenantID (rc_ObjectKey (su_Source s)) (es_SHA256 (su_Encrypted s))
    (es_SizeBytes (su_Encrypted s)) (es_KeyVersion (su_Encrypted s)) (es_Nonce (su_Encrypted s)).

Definition queued_job (tenantID bundleID sourceID : Z) (callbackID : option Z) (s : submission) (now : Z) : job_row :=
  let request := su_Request s in
  {| jb_ExternalID := su_JobExternalID s; jb_Tenant := tenantID; jb_Bundle := bundleID; jb_Source := sourceID;
     jb_Callback := callbackID; jb_Status := JobStatusQueued; jb_Language := rq_Language request;
     jb_StopOnFailure := rq_StopOnFailure request;
     jb_ClientReference := if bool_decide (rq_ClientReference request = "") then None
                           else Some (rq_ClientReference request);
     jb_AttemptNo := 0; jb_WorkerID := None; jb_LeaseToken := None; jb_LeaseUntil := None;
     jb_NextAttemptAt := now; jb_CancelRequestedAt := None; jb_Result := None; jb_FailureCode := None;
     jb_CreatedAt := now; jb_StartedAt := None; jb_CompletedAt := None |}.

Definition source_key_free (d : db) (row : source_row) : bool :=
  forallb (λ p : Z * source_row, negb (bool_decide (sr_ExternalID p.2 = sr_ExternalID row)) &&
                                 negb (bool_decide (sr_ObjectKey p.2 = sr_ObjectKey row))) (map_to_list (sources d)).

Definition insert_source (id : Z) (row : source_row) : tx unit := λ d,
  if is_some (sources d !! id) || negb (source_key_free d row) then Err ErrExternalJobUnavailable
  else Ok (tt, set_sources (insert id row) d).

Definition job_key_free (d : db) (row : job_row) : bool :=
  forallb (λ p : Z * job_row, negb (bool_decide (jb_ExternalID p.2 = jb_ExternalID row))) (map_to_list (jobs d)).

Definition insert_job (id : Z) (row : job_row) : tx unit := λ d,
  if is_some (jobs d !! id) || negb (job_key_free d row) then Err ErrExternalJobUnavailable
  else Ok (tt, set_jobs (insert id row) d).

(** The quota, bundle and callback checks and the inserts, once no record of
    the key is left. *)
Definition persist_submission (s : submission) (tenantID : Z) (policy : TenantPolicy) (sourceID jobID now ttl : Z) :
    tx ExternalJobRecord :=
  let request := su_Request s in
  _ ← tx_guard (len (rq_SourceCode request) <=? MaxSourceBytes policy) ErrExternalJobInvalid;
  d ← tx_get;
  _ ← tx_guard (queued_count d tenantID <? MaxQueuedJobs policy) ErrQueuedQuotaExceeded;
  match find_bundle d tenantID (rq_BundleID request) with
  | None => tx_fail ErrExternalJobInvalid
  | Some bundleID =>
      let callback := if bool_decide (rq_CallbackID request = "") then Some None
                      else Some <$> find_callback d tenantID (rq_CallbackID request) in
      match callback with
      | None => tx_fail ErrExternalJobInvalid
      | Some callbackID =>
          _ ← insert_source sourceID (source_of_submission tenantID s);
          _ ← insert_job jobID (queued_job tenantID bundleID sourceID callbackID s now);
          _ ← tx_modify (set_idempotency (insert (tenantID, su_KeyDigest s)
                (mkIdempotencyRow (su_RequestHash s) (su_JobExternalID s) (now + ttl))));
          affected ← delete_reservations [su_Coordination s; su_Source s];
          _ ← tx_guard (affected =? 2) ErrExternalJobUnavailable;
          read_job (su_Tenant s) (su_JobExternalID s) ErrExternalJobUnavailable
      end
  end.

Definition roll_back {A} (original : db) (a : A) : tx A := λ _, Ok (a, original).

Definition SubmitTx (s : submission) (sourceID jobID lockNow now ttl : Z) : tx submit_outcome :=
  original ← tx_get;
  _ ← lockSubmissionReservations (su_Coordination s) (su_Source s) lockNow;
   '(tenantID, policy) ← lockTenantPolicy (su_Tenant s);
   let key := (tenantID, su_KeyDigest s) in
   _ ← tx_modify (λ d, match idempotency d !! key with
                       | Some record => if ik_ExpiresAt record <=? now then set_idempotency (delete key) d else d
                       | None => d
                       end);
   d ← tx_get;
   match idempotency d !! key with
   | Some record =>
       if negb (bool_decide (ik_RequestHash record = su_RequestHash s)) then tx_fail ErrExternalJobConflict
       else
         job ← read_job (su_Tenant s) (ik_ResourceExternalID record) ErrExternalJobUnavailable;
         roll_back original (ReplayedJob job)
   | None =>
       job ← persist_submission s tenantID policy sourceID jobID now ttl;
       mret (SubmittedJob job)
   end.
End Submission.
