(* ===== verification/StoreInvariant.v ===== *)
(** * The invariant of the job store

    What every committed transaction of [JobWorker] and [JobRepository] keeps
    true of the tables: the shape of a job row in each status, exactly one
    running attempt per running job and none for any other, a daily ledger that
    equals the sum of the attempts it accounts for, and one outbox event per
    terminal job that has a callback. *)
From stdpp Require Import prelude gmap strings.
From S2P Require Import Prelude.
From S2P Require Import GoText.
From S2P Require Import JobState.
From S2P Require Import Manifest.
From S2P Require Import Store.
From S2P Require Import JobWorker.
From S2P Require Import JobRepository.

Open Scope Z_scope.

(** ** Running transactions *)
Lemma tx_bind_ok {A B} (m : tx A) (f : A → tx B) d b d' :
  (m ≫= f) d = Ok (b, d') ↔ ∃ a d1, m d = Ok (a, d1) ∧ f a d1 = Ok (b, d').
Proof.
  unfold mbind, tx_bind. destruct (m d) as [[a d1]|e]; [|naive_solver].
  split; [eauto|]. by intros (? & ? & [= <- <-] & ?).
Qed.

Lemma tx_guard_ok (c : bool) e d u d' : tx_guard c e d = Ok (u, d') ↔ c = true ∧ d' = d.
Proof. destruct c, u; simpl; unfold mret, tx_ret, tx_fail; naive_solver. Qed.

Lemma tx_ret_ok {A} (a : A) d b d' : (mret a : tx A) d = Ok (b, d') ↔ b = a ∧ d' = d.
Proof. unfold mret, tx_ret. naive_solver. Qed.

Lemma tx_get_ok d r d' : tx_get d = Ok (r, d') ↔ r = d ∧ d' = d.
Proof. unfold tx_get. naive_solver. Qed.

Lemma tx_modify_ok f d (u : unit) d' : tx_modify f d = Ok (u, d') ↔ d' = f d.
Proof. unfold tx_modify. destruct u. naive_solver. Qed.

(** Follow a transaction that committed. *)
Ltac inv_tx :=
  repeat match goal with
  | H : (_ ≫= _) _ = Ok (_, _) |- _ =>
      let a := fresh "v" in let d := fresh "d" in let H1 := fresh "Hstep" in
      apply tx_bind_ok in H; destruct H as (a & d & H1 & H)
  | H : tx_guard _ _ _ = Ok (_, _) |- _ => apply tx_guard_ok in H as [H ->]
  | H : (mret _ : tx _) _ = Ok (_, _) |- _ =>
      apply tx_ret_ok in H; let E := fresh in destruct H as [E ->]; try subst; try clear E
  | H : tx_get _ = Ok (_, _) |- _ => apply tx_get_ok in H as [-> ->]
  | H : tx_modify _ _ = Ok (_, _) |- _ => apply tx_modify_ok in H as ->
  | H : tx_fail _ _ = Ok _ |- _ => discriminate H
  | v : unit |- _ => destruct v
  end.

(** An update that affected a row found it and it satisfied the condition. *)
Lemma update_job_affected id w set d d' :
  update_job id w set d = Ok (true, d') →
  ∃ r, jobs d !! id = Some r ∧ w r = true ∧ d' = set_jobs (insert id (set r)) d.
Proof.
  unfold update_job. destruct (jobs d !! id) as [r|]; [|done]. destruct (w r) eqn:Hw; [|done].
  intros [= _ <-]. eauto.
Qed.

Lemma update_attempt_affected j n w set d d' :
  update_attempt j n w set d = Ok (true, d') →
  ∃ a, attempts d !! (j, n) = Some a ∧ w a = true ∧ d' = set_attempts (insert (j, n) (set a)) d.
Proof.
  unfold update_attempt. destruct (attempts d !! (j, n)) as [a|]; [|done]. destruct (w a) eqn:Hw; [|done].
  intros [= _ <-]. eauto.
Qed.

Lemma update_job_found id w set d b d' r :
  jobs d !! id = Some r → w r = true → update_job id w set d = Ok (b, d') → d' = set_jobs (insert id (set r)) d.
Proof. intros Hr Hw. unfold update_job. rewrite Hr, Hw. naive_solver. Qed.

(** ** Sums over the attempts *)
Definition attempt_key (a : attempt_row) : option (Z * Z) := (λ day, (at_Tenant a, day)) <$> at_AccountingDay a.

Definition att_share (f : attempt_row → Z) (k : Z * Z) (a : attempt_row) : Z :=
  if decide (attempt_key a = Some k) then f a else 0.

Definition att_sum (f : attempt_row → Z) (k : Z * Z) (m : gmap (Z * Z) attempt_row) : Z :=
  map_sumZ (att_share f k) m.

Lemma att_sum_insert_new f k m i a :
  m !! i = None → att_sum f k (<[i := a]> m) = att_share f k a + att_sum f k m.
Proof. apply map_sumZ_insert_new. Qed.

Lemma att_sum_insert_old f k m i old a :
  m !! i = Some old → att_sum f k (<[i := a]> m) = att_sum f k m - att_share f k old + att_share f k a.
Proof. apply map_sumZ_insert_old. Qed.

Lemma att_sum_nonneg f k m : (∀ i a, m !! i = Some a → 0 ≤ f a) → 0 ≤ att_sum f k m.
Proof. intros H. apply map_sumZ_nonneg. intros i a Ha. unfold att_share. case_decide; [by eapply H|lia]. Qed.

(** ** The ledger *)
Definition ledger_row (m : gmap (Z * Z) daily_row) (k : Z * Z) : daily_row := default (mkDailyRow 0 0) (m !! k).

(** What retention has removed: the execution time consumed by attempts that
    were deleted with their job, by tenant and day, and the jobs whose event was
    deleted from the outbox after its delivery. *)
Class Retired : Type := {
  archived : Z * Z → Z;
  swept : Z → Prop
}.

Definition nothing_retired : Retired := {| archived := λ _, 0; swept := λ _, False |}.

Section Retired.
Context `{R : Retired}.

(** Each ledger row holds the reservations and the consumption of its attempts;
    [pending] is a reservation whose attempt is not inserted yet. *)
Definition ledger_ok (pending : Z * Z → Z) (atts : gmap (Z * Z) attempt_row) (m : gmap (Z * Z) daily_row) : Prop :=
  ∀ k, dl_Reserved (ledger_row m k) = att_sum at_Reserved k atts + pending k ∧
       dl_Consumed (ledger_row m k) = att_sum at_Consumed k atts + archived k.

Definition none_pending : Z * Z → Z := λ _, 0.
Definition one_pending (k : Z * Z) (amount : Z) : Z * Z → Z := λ k', if decide (k' = k) then amount else 0.

Lemma ledger_row_insert m k row k' :
  ledger_row (<[k := row]> m) k' = if decide (k' = k) then row else ledger_row m k'.
Proof.
  unfold ledger_row. case_decide as E; [subst; by rewrite lookup_insert_eq|by rewrite lookup_insert_ne].
Qed.

Lemma ledger_ok_touch pending atts m k :
  ledger_ok pending atts m → ledger_ok pending atts (<[k := ledger_row m k]> m).
Proof. intros H k'. rewrite ledger_row_insert. case_decide; [subst|]; apply H. Qed.

Lemma reserve_ledger tenantID aday limit amount d decision d' :
  reserveDailyExecution tenantID aday limit amount d = Ok (decision, d') →
  ledger_ok none_pending (attempts d) (daily d) →
  jobs d' = jobs d ∧ attempts d' = attempts d ∧ outbox d' = outbox d ∧ tenants d' = tenants d ∧
  0 < amount ∧
  match decision with
  | dailyReservationAllowed =>
      ledger_ok (one_pending (tenantID, aday) amount) (attempts d') (daily d') ∧
      dl_Reserved (ledger_row (daily d) (tenantID, aday)) + dl_Consumed (ledger_row (daily d) (tenantID, aday))
        + amount ≤ limit ∧
      daily d' = <[(tenantID, aday) := mkDailyRow (dl_Reserved (ledger_row (daily d) (tenantID, aday)) + amount)
                                  (dl_Consumed (ledger_row (daily d) (tenantID, aday)))]>
                 (<[(tenantID, aday) := ledger_row (daily d) (tenantID, aday)]> (daily d))
  | _ => ledger_ok none_pending (attempts d') (daily d') ∧
         (daily d' = daily d ∨ daily d' = <[(tenantID, aday) := ledger_row (daily d) (tenantID, aday)]> (daily d))
  end.
Proof.
  unfold reserveDailyExecution. destruct (_ || _) eqn:Hargs; [done|]. bool_to_prop.
  destruct (Z.ltb_spec limit amount).
  { intros [= <- <-] Hok. split_and!; auto. }
  fold (ledger_row (daily d) (tenantID, aday)). set (row := ledger_row (daily d) (tenantID, aday)).
  destruct (_ || _) eqn:Hfull; intros [= <- <-] Hok; simpl.
  { split_and!; auto. by apply ledger_ok_touch. }
  bool_to_prop. split_and!; auto; [|lia].
  intros k'. rewrite !ledger_row_insert. unfold one_pending. destruct (Hok k') as [Hr Hc].
  unfold none_pending in Hr. case_decide as E; [subst|done].
  fold row in Hr, Hc. simpl. lia.
Qed.

(** Closing a running attempt moves its reservation out of the ledger and books
    what it consumed. *)
Lemma close_ledger atts m i a k row status now failure consumed :
  ledger_ok none_pending atts m → atts !! i = Some a → attempt_key a = Some k → m !! k = Some row →
  at_Consumed a = 0 →
  ledger_ok none_pending (<[i := close_attempt status now failure consumed a]> atts)
    (<[k := mkDailyRow (dl_Reserved row - at_Reserved a) (dl_Consumed row + consumed)]> m).
Proof.
  intros Hok Ha Hk Hrow H0 k'. destruct (Hok k') as [Hr Hc].
  rewrite !(att_sum_insert_old _ _ _ _ _ _ Ha), ledger_row_insert.
  assert (Hkey : attempt_key (close_attempt status now failure consumed a) = attempt_key a) by done.
  unfold att_share. rewrite Hkey, Hk. unfold none_pending in *.
  case_decide as E.
  - subst. unfold ledger_row in Hr, Hc. rewrite Hrow in Hr, Hc. simpl in *.
    rewrite !decide_True by done. lia.
  - rewrite !decide_False by congruence. lia.
Qed.

(** ** Rows *)
Definition unleased (r : job_row) : Prop :=
  jb_WorkerID r = None ∧ jb_LeaseToken r = None ∧ jb_LeaseUntil r = None.

Record job_row_wf (r : job_row) : Prop := {
  jw_attempt : 0 ≤ jb_AttemptNo r ≤ max_uint32;
  jw_status :
    match jb_Status r with
    | JobStatusQueued =>
        unleased r ∧ jb_CancelRequestedAt r = None ∧ jb_Result r = None ∧ jb_FailureCode r = None ∧
        jb_CompletedAt r = None
    | JobStatusRunning =>
        (is_Some (jb_WorkerID r) ∧ is_Some (jb_LeaseToken r) ∧ is_Some (jb_LeaseUntil r)) ∧
        1 ≤ jb_AttemptNo r ∧ jb_Result r = None ∧ jb_FailureCode r = None ∧ jb_CompletedAt r = None
    | JobStatusSucceeded =>
        unleased r ∧ jb_CancelRequestedAt r = None ∧
        (∃ res, jb_Result r = Some res ∧ validateDurableJobResult res = true) ∧
        jb_FailureCode r = None ∧ is_Some (jb_CompletedAt r)
    | JobStatusFailed =>
        unleased r ∧ jb_Result r = None ∧
        (∃ code, jb_FailureCode r = Some code ∧ infrastructureCodePattern code = true) ∧ is_Some (jb_CompletedAt r)
    | JobStatusCancelled =>
        unleased r ∧ is_Some (jb_CancelRequestedAt r) ∧ jb_Result r = None ∧ jb_FailureCode r = None ∧
        is_Some (jb_CompletedAt r)
    | JobStatusUnknown _ => False
    end
}.

(** A running attempt mirrors its job; a closed one holds no lease and no
    reservation. *)
Record attempt_wf (J : gmap Z job_row) (j n : Z) (a : attempt_row) : Prop := {
  aw_job : ∃ r, J !! j = Some r ∧ 1 ≤ n ≤ jb_AttemptNo r ∧ at_Tenant a = jb_Tenant r ∧
    (at_Status a = AttemptRunning →
     jb_Status r = JobStatusRunning ∧ n = jb_AttemptNo r ∧ jb_WorkerID r = Some (at_WorkerID a) ∧
     jb_LeaseToken r = at_LeaseToken a);
  aw_amounts : 0 ≤ at_Consumed a ∧
    if decide (at_Status a = AttemptRunning)
    then is_Some (at_AccountingDay a) ∧ 0 < at_Reserved a ∧ at_Consumed a = 0
    else at_Reserved a = 0 ∧ at_LeaseToken a = None
}.

Definition no_running_attempt (A : gmap (Z * Z) attempt_row) (j : Z) : Prop :=
  ∀ n a, A !! (j, n) = Some a → at_Status a ≠ AttemptRunning.

(** The tables. [ex] is a running job whose attempt has just been closed,
    [ev] a terminal job whose event has not been written yet. *)
Record tables_ok (ex ev : option Z) (pending : Z * Z → Z) (J : gmap Z job_row)
    (A : gmap (Z * Z) attempt_row) (D : gmap (Z * Z) daily_row) (O : gmap Z outbox_row) : Prop := {
  tk_jobs : ∀ j r, J !! j = Some r → job_row_wf r;
  tk_attempts : ∀ j n a, A !! (j, n) = Some a → attempt_wf J j n a;
  tk_running : ∀ j r, J !! j = Some r → jb_Status r = JobStatusRunning → ex ≠ Some j →
    ∃ a, A !! (j, jb_AttemptNo r) = Some a ∧ at_Status a = AttemptRunning;
  tk_exempt : ∀ j, ex = Some j → no_running_attempt A j;
  tk_ledger : ledger_ok pending A D;
  tk_outbox : ∀ j row, O !! j = Some row →
    ∃ r, J !! j = Some r ∧ terminal (jb_Status r) = true ∧ jb_Callback r = Some (ob_Callback row) ∧
         ob_Tenant row = jb_Tenant r;
  tk_events : ∀ j r, J !! j = Some r → terminal (jb_Status r) = true → is_Some (jb_Callback r) → ev ≠ Some j →
    ¬ swept j → is_Some (O !! j)
}.

Definition store_ok (d : db) : Prop :=
  tables_ok None None none_pending (jobs d) (attempts d) (daily d) (outbox d).

(** ** Jobs up to the next attempt time of those that are queued *)
Definition job_sim (r r' : job_row) : Prop :=
  set_next_attempt 0 r = set_next_attempt 0 r' ∧ (jb_Status r ≠ JobStatusQueued → r' = r).

Definition jobs_sim (J J' : gmap Z job_row) : Prop :=
  ∀ j, match J !! j, J' !! j with
       | Some r, Some r' => job_sim r r'
       | None, None => True
       | _, _ => False
       end.

#[export] Instance job_sim_equiv : Equivalence job_sim.
Proof.
  assert (Hst : ∀ r r', set_next_attempt 0 r = set_next_attempt 0 r' → jb_Status r = jb_Status r')
    by (intros r r' H; exact (f_equal jb_Status H)).
  split.
  - done.
  - intros r r' [H Hq]. split; [done|]. intros Hn. rewrite Hq; [done|]. by rewrite (Hst _ _ H).
  - intros r1 r2 r3 [H1 Hq1] [H2 Hq2]. split; [congruence|]. intros Hn. rewrite Hq2, Hq1; [done..|]. by rewrite <-(Hst _ _ H1).
Qed.

#[export] Instance jobs_sim_equiv : Equivalence jobs_sim.
Proof.
  split.
  - intros J j. by destruct (J !! j).
  - intros J1 J2 H j. specialize (H j). by destruct (J1 !! j), (J2 !! j).
  - intros J1 J2 J3 H1 H2 j. specialize (H1 j). specialize (H2 j).
    destruct (J1 !! j), (J2 !! j), (J3 !! j); try done. by etrans.
Qed.

Lemma job_sim_fields r r' :
  job_sim r r' →
  jb_Tenant r' = jb_Tenant r ∧ jb_Callback r' = jb_Callback r ∧ jb_Status r' = jb_Status r ∧
  jb_AttemptNo r' = jb_AttemptNo r ∧ jb_WorkerID r' = jb_WorkerID r ∧ jb_LeaseToken r' = jb_LeaseToken r ∧
  jb_LeaseUntil r' = jb_LeaseUntil r ∧ jb_CancelRequestedAt r' = jb_CancelRequestedAt r ∧
  jb_Result r' = jb_Result r ∧ jb_FailureCode r' = jb_FailureCode r ∧ jb_CompletedAt r' = jb_CompletedAt r ∧
  jb_ExternalID r' = jb_ExternalID r ∧ jb_Bundle r' = jb_Bundle r ∧ jb_Source r' = jb_Source r.
Proof.
  intros [H _]. split_and!; match goal with |- ?f r' = ?f r => exact (eq_sym (f_equal f H)) end.
Qed.

Lemma job_sim_next next r : jb_Status r = JobStatusQueued → job_sim r (set_next_attempt next r).
Proof. by split. Qed.

Lemma job_sim_exact r r' : job_sim r r' → jb_Status r ≠ JobStatusQueued → r' = r.
Proof. intros [_ Hq]. exact Hq. Qed.

Lemma job_sim_wf r r' : job_sim r r' → job_row_wf r → job_row_wf r'.
Proof.
  intros Hs [Ha Hst]. apply job_sim_fields in Hs. destruct_and!.
  split; [lia|]. unfold unleased in *.
  repeat match goal with H : _ r' = _ r |- _ => rewrite H; clear H end. done.
Qed.

Lemma jobs_sim_lookup J J' j r' :
  jobs_sim J J' → J' !! j = Some r' → ∃ r, J !! j = Some r ∧ job_sim r r'.
Proof. intros Hs Hj. specialize (Hs j). rewrite Hj in Hs. destruct (J !! j); [eauto|done]. Qed.

Lemma jobs_sim_lookup_l J J' j r :
  jobs_sim J J' → J !! j = Some r → ∃ r', J' !! j = Some r' ∧ job_sim r r'.
Proof. intros Hs Hj. specialize (Hs j). rewrite Hj in Hs. destruct (J' !! j); [eauto|done]. Qed.

(** The invariant does not depend on the time of the next attempt. *)
Lemma tables_ok_sim ex ev pending J J' A D O :
  tables_ok ex ev pending J A D O → jobs_sim J J' → tables_ok ex ev pending J' A D O.
Proof.
  intros [Hj Ha Hr He Hl Ho Hev] Hs. split; [| | |done|done| |].
  - intros j r' (r & ? & ?)%(jobs_sim_lookup _ _ _ _ Hs). eapply job_sim_wf; eauto.
  - intros j n a Hat. destruct (Ha j n a Hat) as [(r & Hr1 & Hn & Ht & Hrun) Hamt].
    destruct (jobs_sim_lookup_l _ _ _ _ Hs Hr1) as (r' & Hr' & Hsim). apply job_sim_fields in Hsim.
    destruct_and!. split; [|done]. exists r'. split_and!; [done|lia|lia|congruence|].
    intros Hrunning. destruct (Hrun Hrunning) as (? & ? & ? & ?). split_and!; congruence.
  - intros j r' (r & ? & Hsim)%(jobs_sim_lookup _ _ _ _ Hs). apply job_sim_fields in Hsim. destruct_and!.
    intros Hst Hex. destruct (Hr j r) as (a & ? & ?); [done|congruence|done|]. exists a. split; [congruence|done].
  - intros j row (r & Hr1 & Ht & Hc & Hten)%Ho.
    destruct (jobs_sim_lookup_l _ _ _ _ Hs Hr1) as (r' & Hr' & Hsim). apply job_sim_fields in Hsim.
    destruct_and!. exists r'. split_and!; congruence.
  - intros j r' (r & ? & Hsim)%(jobs_sim_lookup _ _ _ _ Hs). apply job_sim_fields in Hsim. destruct_and!.
    intros Ht Hc. apply (Hev j r); congruence.
Qed.

Lemma wake_jobs_sim tenantID aday now d : jobs_sim (jobs d) (jobs (wake_jobs tenantID aday now d)).
Proof.
  intros j. simpl. rewrite lookup_fmap. destruct (jobs d !! j) as [r|]; [|done]. simpl.
  destruct (_ && _) eqn:Hw; [|done]. apply job_sim_next. by bool_to_prop.
Qed.

(** ** Transitions of the tables *)

(** T1: the running attempt of [j] is closed. *)
Lemma tables_close_attempt J A D O j r a k row status now failure consumed :
  tables_ok None None none_pending J A D O →
  J !! j = Some r → A !! (j, jb_AttemptNo r) = Some a → at_Status a = AttemptRunning →
  attempt_key a = Some k → D !! k = Some row → 0 ≤ consumed → status ≠ AttemptRunning →
  tables_ok (Some j) None none_pending J (<[(j, jb_AttemptNo r) := close_attempt status now failure consumed a]> A)
    (<[k := mkDailyRow (dl_Reserved row - at_Reserved a) (dl_Consumed row + consumed)]> D) O.
Proof.
  intros Hok Hr Ha Hrun Hk Hrow Hc Hs. pose proof (tk_attempts _ _ _ _ _ _ _ Hok _ _ _ Ha) as Hwf.
  destruct Hok as [Hj Hat Hru _ Hl Ho Hev]. split; [done| | | | |done|done].
  - intros j' n' a' [[E <-]|[Hne Ha']]%lookup_insert_Some; [|by apply Hat].
    simplify_eq. destruct Hwf as [(r' & Hr' & Hn & Ht & _) _].
    split; [eexists; split; [exact Hr'|]; split_and!; [lia..|done|by intros Hx]|].
    simpl. split; [done|]. by rewrite decide_False.
  - intros j' r' Hr' Hst Hex. destruct (Hru j' r' Hr' Hst) as (a' & ? & ?); [done|].
    exists a'. split; [|done]. rewrite lookup_insert_ne; [done|]. congruence.
  - intros j' [= <-] n' a' [[E <-]|[Hne Ha']]%lookup_insert_Some; [done|].
    intros Hst. destruct (Hat _ _ _ Ha') as [(r' & Hr' & _ & _ & Hr2) _]. destruct (Hr2 Hst) as (_ & -> & _).
    simplify_eq.
  - apply close_ledger; try done. destruct Hwf as [_ [_ Hamt]]. rewrite decide_True in Hamt by done. tauto.
Qed.

(** T2: a job without a running attempt changes status, keeping its identity. *)
Lemma tables_set_job ex pending J A D O j r r' :
  tables_ok ex None pending J A D O → (ex = None ∨ ex = Some j) → no_running_attempt A j →
  J !! j = Some r → terminal (jb_Status r) = false → job_row_wf r' → jb_Status r' ≠ JobStatusRunning →
  jb_AttemptNo r' = jb_AttemptNo r → jb_Tenant r' = jb_Tenant r →
  tables_ok None (Some j) pending (<[j := r']> J) A D O.
Proof.
  intros [Hj Hat Hru _ Hl Ho Hev] Hex Hno Hr Hnt Hwf Hnr Han Hten. split; [| | |done|done| |].
  - intros j' r0 [[<- <-]|[Hne ?]]%lookup_insert_Some; [done|by eapply Hj].
  - intros j' n a Ha. destruct (Hat _ _ _ Ha) as [(r0 & Hr0 & Hn & Ht & Hrun) Hamt]. split; [|done].
    destruct (decide (j' = j)) as [->|Hne].
    + exists r'. rewrite lookup_insert_eq. simplify_eq. split_and!; [done|lia|lia|congruence|].
      intros Hst. by destruct (Hno _ _ Ha).
    + exists r0. by rewrite lookup_insert_ne.
  - intros j' r0 [[<- <-]|[Hne Hr0]]%lookup_insert_Some Hst _; [done|].
    eapply Hru; [done..|]. destruct Hex as [->| ->]; congruence.
  - intros j' row Hrow. destruct (Ho _ _ Hrow) as (r0 & Hr0 & Ht & ?). exists r0.
    destruct (decide (j' = j)) as [->|Hne]; [simplify_eq; congruence|]. by rewrite lookup_insert_ne.
  - intros j' r0 [[<- <-]|[Hne Hr0]]%lookup_insert_Some; [done|]. intros ? ? _. by eapply Hev.
Qed.

(** A job that is not terminal owes no event. *)
Lemma tables_no_event pending J A D O j r ex :
  tables_ok ex (Some j) pending J A D O → J !! j = Some r →
  (terminal (jb_Status r) = false ∨ jb_Callback r = None) → tables_ok ex None pending J A D O.
Proof.
  intros [Hj Hat Hru He Hl Ho Hev] Hr Hno. split; try done.
  intros j' r' Hr' Ht Hc _. destruct (decide (j' = j)) as [->|Hne]; [|eapply Hev; eauto; congruence].
  simplify_eq. destruct Hno as [?|E]; [congruence|]. rewrite E in Hc. by destruct Hc.
Qed.

(** T3: the event of a terminal job is written. *)
Lemma tables_event pending J A D O j r row ex :
  tables_ok ex (Some j) pending J A D O → J !! j = Some r → terminal (jb_Status r) = true →
  jb_Callback r = Some (ob_Callback row) → ob_Tenant row = jb_Tenant r →
  tables_ok ex None pending J A D (<[j := row]> O).
Proof.
  intros [Hj Hat Hru He Hl Ho Hev] Hr Ht Hc Hten. split; try done.
  - intros j' row' [[<- <-]|[Hne ?]]%lookup_insert_Some; [eauto 10|by eapply Ho].
  - intros j' r' Hr' Ht' Hc' _. destruct (decide (j' = j)) as [->|Hne]; [by rewrite lookup_insert_eq|].
    rewrite lookup_insert_ne by done. eapply Hev; eauto. congruence.
Qed.

(** T4: a running job and its attempt change only fields outside the claim. *)
Definition same_claim (r r' : job_row) : Prop :=
  jb_Status r' = jb_Status r ∧ jb_AttemptNo r' = jb_AttemptNo r ∧ jb_WorkerID r' = jb_WorkerID r ∧
  jb_LeaseToken r' = jb_LeaseToken r ∧ jb_Tenant r' = jb_Tenant r ∧ jb_Callback r' = jb_Callback r.

Lemma tables_touch_job pending J A D O j r r' :
  tables_ok None None pending J A D O → J !! j = Some r → job_row_wf r' → same_claim r r' →
  tables_ok None None pending (<[j := r']> J) A D O.
Proof.
  intros [Hj Hat Hru _ Hl Ho Hev] Hr Hwf (H1 & H2 & H3 & H4 & H5 & H6). split; [| | |done|done| |].
  - intros j' r0 [[<- <-]|[Hne ?]]%lookup_insert_Some; [done|by eapply Hj].
  - intros j' n a Ha. destruct (Hat _ _ _ Ha) as [(r0 & Hr0 & Hn & Ht & Hrun) Hamt]. split; [|done].
    destruct (decide (j' = j)) as [->|Hne].
    + exists r'. rewrite lookup_insert_eq. simplify_eq. rewrite H1, H2, H3, H4, H5. done.
    + exists r0. by rewrite lookup_insert_ne.
  - intros j' r0 [[<- <-]|[Hne Hr0]]%lookup_insert_Some Hst Hex; [|by eapply Hru].
    rewrite H2. apply Hru; congruence.
  - intros j' row Hrow. destruct (Ho _ _ Hrow) as (r0 & Hr0 & Ht & Hc & Hten).
    destruct (decide (j' = j)) as [->|Hne]; [|exists r0; by rewrite lookup_insert_ne].
    exists r'. rewrite lookup_insert_eq. simplify_eq. rewrite H1, H5, H6. done.
  - intros j' r0 [[<- <-]|[Hne Hr0]]%lookup_insert_Some; [|by eapply Hev].
    rewrite H1, H6. by eapply Hev.
Qed.

Lemma tables_touch_attempt pending J A D O i a a' :
  tables_ok None None pending J A D O → A !! i = Some a →
  at_Tenant a' = at_Tenant a → at_WorkerID a' = at_WorkerID a → at_LeaseToken a' = at_LeaseToken a →
  at_Status a' = at_Status a → at_AccountingDay a' = at_AccountingDay a → at_Reserved a' = at_Reserved a →
  at_Consumed a' = at_Consumed a →
  tables_ok None None pending J (<[i := a']> A) D O.
Proof.
  intros [Hj Hat Hru _ Hl Ho Hev] Ha H1 H2 H3 H4 H5 H6 H7. split; [done| | |done| |done|done].
  - intros j n a0 [[-> <-]|[Hne ?]]%lookup_insert_Some; [|by apply Hat].
    destruct (Hat _ _ _ Ha) as [Hjob Hamt]. split; rewrite ?H1, ?H2, ?H3, ?H4, ?H5, ?H6, ?H7; done.
  - intros j r Hr Hst Hex. destruct (Hru j r Hr Hst Hex) as (a0 & Ha0 & Hs0).
    destruct (decide (i = (j, jb_AttemptNo r))) as [->|Hne].
    + exists a'. rewrite lookup_insert_eq. simplify_eq. split; congruence.
    + exists a0. by rewrite lookup_insert_ne.
  - intros k. rewrite !(att_sum_insert_old _ _ _ _ _ _ Ha). unfold att_share.
    assert (attempt_key a' = attempt_key a) as -> by (unfold attempt_key; by rewrite H1, H5).
    rewrite H6, H7. destruct (Hl k). lia.
Qed.

(** T5: a claim gives a job its next attempt and lease. *)
Lemma tables_claim ex J A D O j r amount aday worker token until now :
  tables_ok ex None (one_pending (jb_Tenant r, aday) amount) J A D O → (ex = None ∨ ex = Some j) →
  no_running_attempt A j → J !! j = Some r →
  (jb_Status r = JobStatusQueued ∨ jb_Status r = JobStatusRunning) → jb_AttemptNo r ≠ max_uint32 →
  A !! (j, jb_AttemptNo r + 1) = None → 0 < amount →
  tables_ok None None none_pending
    (<[j := claim_job (jb_AttemptNo r + 1) worker token until now r]> J)
    (<[(j, jb_AttemptNo r + 1) := mkAttemptRow (jb_Tenant r) worker (Some token) AttemptRunning until (Some aday)
                                    amount 0 now None None]> A) D O.
Proof.
  intros [Hj Hat Hru _ Hl Ho Hev] Hex Hno Hr Hst Hmax Hnew Hamt.
  destruct (Hj _ _ Hr) as [Hrange Hwf].
  split; [| | |done| | |].
  - intros j' r0 [[<- <-]|[Hne ?]]%lookup_insert_Some; [|by eapply Hj].
    split; [simpl; lia|]. simpl. destruct Hst as [E|E]; rewrite E in Hwf; destruct_and!;
      split_and!; eauto; lia.
  - intros j' n a [[E <-]|[Hne Ha]]%lookup_insert_Some.
    + simplify_eq. split; simpl; [|by eauto].
      exists (claim_job (jb_AttemptNo r + 1) worker token until now r). rewrite lookup_insert_eq.
      simpl. split_and!; try done; lia.
    + destruct (Hat _ _ _ Ha) as [(r0 & Hr0 & Hn & Ht & Hrun) Ham]. split; [|done].
      destruct (decide (j' = j)) as [->|Hnj]; [|exists r0; by rewrite lookup_insert_ne].
      exists (claim_job (jb_AttemptNo r + 1) worker token until now r). rewrite lookup_insert_eq. simplify_eq.
      simpl. split_and!; try done; try lia. intros Hs. by destruct (Hno _ _ Ha).
  - intros j' r0 [[<- <-]|[Hne Hr0]]%lookup_insert_Some Hs _.
    + eexists. simpl. rewrite lookup_insert_eq. done.
    + destruct (Hru j' r0 Hr0 Hs) as (a & ? & ?); [destruct Hex as [->| ->]; congruence|].
      exists a. split; [|done]. rewrite lookup_insert_ne; congruence.
  - intros k. rewrite !att_sum_insert_new by done. destruct (Hl k) as [H1 H2].
    unfold att_share, attempt_key, one_pending, none_pending in *. simpl.
    destruct (decide (Some (jb_Tenant r, aday) = Some k)) as [E|E];
      [rewrite decide_True in H1 by congruence|rewrite decide_False in H1 by congruence]; lia.
  - intros j' row Hrow. destruct (Ho _ _ Hrow) as (r0 & Hr0 & Ht & ?).
    destruct (decide (j' = j)) as [->|Hnj]; [|exists r0; by rewrite lookup_insert_ne].
    simplify_eq. by destruct Hst as [E|E]; rewrite E in Ht.
  - intros j' r0 [[<- <-]|[Hne Hr0]]%lookup_insert_Some; [done|by eapply Hev].
Qed.
End Retired.
