(* ===== verification/StoreSteps.v ===== *)
(** * Every transaction keeps the store invariant

    The operations of [JobWorker] and [JobRepository] preserve [store_ok], and
    the steps of the store as a relation with its reachable states. *)
From stdpp Require Import prelude gmap strings.
From S2P Require Import Prelude.
From S2P Require Import GoText.
From S2P Require Import JobState.
From S2P Require Import Manifest.
From S2P Require Import Store.
From S2P Require Import JobWorker.
From S2P Require Import JobRepository.
From S2P Require Import StoreInvariant.

Open Scope Z_scope.

Section Retained.
Context `{R : Retired}.

(** The invariant of the intermediate states of a transaction. *)
Definition mid_ok (ex ev : option Z) (pending : Z * Z → Z) (d : db) : Prop :=
  tables_ok ex ev pending (jobs d) (attempts d) (daily d) (outbox d).

(** ** Consumption *)
Lemma capped_loop_range cases reservation total :
  Forall (λ c, 0 ≤ dc_TimeMillis c) cases → 0 ≤ total ≤ reservation →
  total ≤ capped_loop cases reservation total ≤ reservation.
Proof.
  intros Hall. revert total. induction Hall as [|c cases Hc Hcs IH]; intros total Ht; simpl; [lia|].
  destruct (Z.leb_spec (reservation - total) (dc_TimeMillis c)); [lia|].
  specialize (IH (total + dc_TimeMillis c)). lia.
Qed.

Lemma capped_range cases reservation :
  Forall (λ c, 0 ≤ dc_TimeMillis c) cases → 0 ≤ reservation →
  0 ≤ cappedCaseExecutionMillis cases reservation ≤ reservation.
Proof.
  intros Hall Hr. unfold cappedCaseExecutionMillis. destruct (Z.leb_spec reservation 0); [lia|].
  apply capped_loop_range; [done|lia].
Qed.

(** What a settlement reads and writes. *)
Lemma release_ok t j n now cases full d c d' :
  releaseAttemptReservation t j n now cases full d = Ok (c, d') →
  ∃ a aday row, attempts d !! (j, n) = Some a ∧ at_Tenant a = t ∧ at_Status a = AttemptRunning ∧
    at_AccountingDay a = Some aday ∧ 0 < at_Reserved a ∧ daily d !! (t, aday) = Some row ∧
    at_Reserved a ≤ dl_Reserved row ∧
    c = (if full then at_Reserved a else cappedCaseExecutionMillis cases (at_Reserved a)) ∧
    d' = wake_jobs t aday now (set_daily (insert (t, aday)
           (mkDailyRow (dl_Reserved row - at_Reserved a) (dl_Consumed row + c))) d).
Proof.
  unfold releaseAttemptReservation. destruct (attempts d !! (j, n)) as [a|] eqn:Ha; [|done].
  destruct (_ || _) eqn:Hg; [done|]. destruct (at_AccountingDay a) as [aday|] eqn:Hday; [|done].
  destruct (Z.leb_spec (at_Reserved a) 0); [done|].
  destruct (daily d !! (t, aday)) as [row|] eqn:Hrow; [|done].
  destruct (Z.ltb_spec (dl_Reserved row) (at_Reserved a)); [done|]. intros [= <- <-]. bool_to_prop.
  by exists a, aday, row.
Qed.

(** ** Closing the attempt of a running job *)

(** A settlement followed by the closing of the attempt. *)
Lemma close_running d j r a aday row status now failure consumed :
  store_ok d → jobs d !! j = Some r → attempts d !! (j, jb_AttemptNo r) = Some a →
  at_Status a = AttemptRunning → at_AccountingDay a = Some aday →
  daily d !! (at_Tenant a, aday) = Some row → 0 ≤ consumed → status ≠ AttemptRunning →
  tables_ok (Some j) None none_pending (jobs d)
    (<[(j, jb_AttemptNo r) := close_attempt status now failure consumed a]> (attempts d))
    (<[(at_Tenant a, aday) := mkDailyRow (dl_Reserved row - at_Reserved a) (dl_Consumed row + consumed)]> (daily d))
    (outbox d).
Proof.
  intros Hok Hr Ha Hrun Hday Hrow Hc Hs. eapply tables_close_attempt; eauto.
  unfold attempt_key. by rewrite Hday.
Qed.

Lemma wake_running t aday now d j r :
  jobs d !! j = Some r → jb_Status r ≠ JobStatusQueued → jobs (wake_jobs t aday now d) !! j = Some r.
Proof.
  intros Hr Hs. simpl. rewrite lookup_fmap, Hr. simpl. by rewrite bool_decide_eq_false_2, andb_false_r.
Qed.

Lemma running_attempt d j r :
  store_ok d → jobs d !! j = Some r → jb_Status r = JobStatusRunning →
  ∃ a, attempts d !! (j, jb_AttemptNo r) = Some a ∧ at_Status a = AttemptRunning.
Proof. intros Hok Hr Hs. by eapply (tk_running _ _ _ _ _ _ _ Hok). Qed.

Lemma expireAttempt_ok d j r now u d' :
  store_ok d → jobs d !! j = Some r → jb_Status r = JobStatusRunning →
  expireAttempt (jb_Tenant r) j (jb_AttemptNo r) now d = Ok (u, d') →
  mid_ok (Some j) None none_pending d' ∧ jobs_sim (jobs d) (jobs d') ∧ jobs d' !! j = Some r ∧
  tenants d' = tenants d.
Proof.
  intros Hok Hr Hs H. unfold expireAttempt in H. inv_tx.
  apply release_ok in Hstep as (a & aday & row & Ha & Ht & Hrun & Hday & Hpos & Hrow & Hle & -> & ->).
  destruct v0; [|done].
  apply update_attempt_affected in Hstep0 as (a' & Ha' & _ & ->). simpl in Ha'. simplify_eq.
  pose proof (tk_attempts _ _ _ _ _ _ _ Hok _ _ _ Ha) as [_ [_ Hamt]]. rewrite decide_True in Hamt by done.
  destruct Hamt as (_ & _ & H0). rewrite <-Ht in Hrow.
  assert (Hcap : cappedCaseExecutionMillis [] (at_Reserved a) = 0).
  { unfold cappedCaseExecutionMillis. by destruct (_ <=? _). }
  split_and!.
  - unfold mid_ok. simpl. rewrite H0, Hcap, <-Ht.
    eapply tables_ok_sim; [|apply (wake_jobs_sim (at_Tenant a) aday now d)].
    eapply close_running; eauto; done.
  - apply (wake_jobs_sim (jb_Tenant r) aday now d).
  - apply (wake_running _ _ _ d); [done|]. congruence.
  - done.
Qed.

(** ** Released rows *)
Lemma release_succeeded_wf r now res :
  job_row_wf r → jb_Status r = JobStatusRunning → jb_CancelRequestedAt r = None →
  validateDurableJobResult res = true →
  job_row_wf (release_job JobStatusSucceeded (jb_NextAttemptAt r) (Some res) None (Some now) r).
Proof. intros [Ha Hst] Hs Hc Hv. split; [done|]. simpl. split_and!; eauto; done. Qed.

Lemma release_cancelled_wf r next now :
  job_row_wf r → jb_Status r = JobStatusRunning → is_Some (jb_CancelRequestedAt r) →
  job_row_wf (release_job JobStatusCancelled next None None (Some now) r).
Proof. intros [Ha Hst] Hs Hc. split; [done|]. simpl. split_and!; eauto; done. Qed.

Lemma release_failed_wf r next code now :
  job_row_wf r → jb_Status r = JobStatusRunning ∨ jb_Status r = JobStatusQueued →
  infrastructureCodePattern code = true →
  job_row_wf (release_job JobStatusFailed next (jb_Result r) (Some code) (Some now) r).
Proof.
  intros [Ha Hst] Hs Hc. split; [done|]. simpl.
  destruct Hs as [E|E]; rewrite E in Hst; destruct_and!; split_and!; eauto; done.
Qed.

Lemma release_queued_wf r next :
  job_row_wf r → jb_Status r = JobStatusRunning → jb_CancelRequestedAt r = None →
  job_row_wf (release_job JobStatusQueued next (jb_Result r) None None r).
Proof. intros [Ha Hst] Hs Hc. split; [done|]. simpl. rewrite Hs in Hst. destruct_and!. split_and!; eauto; done. Qed.

Lemma job_wf d j r : store_ok d → jobs d !! j = Some r → job_row_wf r.
Proof. intros Hok Hr. by eapply (tk_jobs _ _ _ _ _ _ _ Hok). Qed.

Lemma running_result d j r :
  store_ok d → jobs d !! j = Some r → jb_Status r = JobStatusRunning →
  jb_Result r = None ∧ jb_FailureCode r = None ∧ jb_CompletedAt r = None ∧ 1 ≤ jb_AttemptNo r.
Proof. intros Hok Hr Hs. destruct (job_wf _ _ _ Hok Hr) as [_ Hst]. rewrite Hs in Hst. tauto. Qed.

(** ** Terminal events *)
Lemma getExternalJob_ok j d job d' :
  getExternalJobByInternalID j d = Ok (job, d') →
  d' = d ∧ ej_InternalID job = j ∧ is_Some (jobs d !! j).
Proof.
  unfold getExternalJobByInternalID, scanExternalJob. destruct (jobs d !! j) as [r|] eqn:Hj; [|done].
  destruct (tenants d !! jb_Tenant r), (bundles d !! jb_Bundle r), (sources d !! jb_Source r); try done.
  repeat (match goal with |- context [if ?b then _ else _] => destruct b end; try done).
  all: intros [= <- <-]; eauto.
Qed.

Lemma getExternalJob_tenant j d job d' :
  getExternalJobByInternalID j d = Ok (job, d') → jb_Tenant <$> jobs d !! j = Some (ej_TenantInternalID job).
Proof.
  unfold getExternalJobByInternalID, scanExternalJob. destruct (jobs d !! j) as [r|] eqn:Hj; [|done].
  destruct (tenants d !! jb_Tenant r), (bundles d !! jb_Bundle r), (sources d !! jb_Source r); try done.
  repeat (match goal with |- context [if ?b then _ else _] => destruct b end; try done).
  all: by intros [= <- <-].
Qed.

Section Steps.
Context (json_policy : string → option TenantPolicy) (json_manifest : string → option Manifest)
        (json_payload : terminalWebhookPayload → string) (sql_policy_int : string → string → option Z).
Context (window : Z).

Lemma insert_event_loop_ok now job t c ids d x d' ex pending j r :
  mid_ok ex (Some j) pending d → ej_InternalID job = j → jobs d !! j = Some r →
  terminal (jb_Status r) = true → jb_Callback r = Some c → jb_Tenant r = t →
  insert_event_loop json_payload window now job t c ids d = Ok (x, d') →
  mid_ok ex None pending d' ∧ jobs d' = jobs d ∧ tenants d' = tenants d.
Proof.
  intros Hok Hj Hr Ht Hc Hten. induction ids as [|id ids IH]; [done|]. cbn [insert_event_loop].
  destruct (EncodeTerminalWebhookEvent id now job) as [payload|]; [|done]. rewrite Hj.
  destruct (outbox d !! j) as [row|] eqn:Ho.
  - destruct (EncodeTerminalWebhookEvent _ _ _) as [expected|]; [|done]. destruct (_ || _); [done|].
    intros [= <- <-]. split; [|done]. destruct Hok as [? ? ? ? ? ? Hev]. split; try done.
    intros j' r' Hr' Ht' Hc' _. destruct (decide (j' = j)) as [->|Hne]; [by rewrite Ho|].
    eapply Hev; eauto. congruence.
  - destruct (event_id_taken d id); [done|]. intros [= <- <-]. split; [|done].
    unfold mid_ok. simpl. eapply tables_event; eauto.
Qed.

Lemma insertTerminalWebhookEvent_ok now ids job d x d' ex pending j r :
  mid_ok ex (Some j) pending d → ej_InternalID job = j → jobs d !! j = Some r →
  terminal (jb_Status r) = true →
  insertTerminalWebhookEvent json_payload window now ids job d = Ok (x, d') →
  mid_ok ex None pending d' ∧ jobs d' = jobs d ∧ tenants d' = tenants d.
Proof.
  intros Hok Hj Hr Ht. unfold insertTerminalWebhookEvent. rewrite Hj, Hr.
  destruct (jb_Callback r) as [c|] eqn:Hc; [by eapply insert_event_loop_ok|].
  intros [= <- <-]. split; [|done]. eapply tables_no_event; eauto.
Qed.

(** The row update that settles a job, followed by its event. *)
Lemma settle_job_ok ex pending d j r r' now ids job d1 x d2 :
  mid_ok ex None pending d → (ex = None ∨ ex = Some j) → no_running_attempt (attempts d) j →
  jobs d !! j = Some r → terminal (jb_Status r) = false → job_row_wf r' → terminal (jb_Status r') = true →
  jb_AttemptNo r' = jb_AttemptNo r → jb_Tenant r' = jb_Tenant r →
  getExternalJobByInternalID j (set_jobs (insert j r') d) = Ok (job, d1) →
  insertTerminalWebhookEvent json_payload window now ids job d1 = Ok (x, d2) →
  mid_ok None None pending d2 ∧ jobs d2 = <[j := r']> (jobs d) ∧ tenants d2 = tenants d.
Proof.
  intros Hok Hex Hno Hr Hnt Hwf Ht Hn Hten Hget Hins.
  apply getExternalJob_ok in Hget as (-> & Hid & _).
  assert (Hmid : mid_ok None (Some j) pending (set_jobs (insert j r') d)).
  { unfold mid_ok. simpl. eapply tables_set_job; eauto. intros E. by rewrite E in Ht. }
  eapply insertTerminalWebhookEvent_ok in Hins as (? & Hjobs & ?); eauto. simpl. by rewrite lookup_insert_eq.
Qed.
(** ** Settlement under a claim *)
Lemma owns_job_true claim r :
  owns_job claim r = true ↔
  jb_Status r = JobStatusRunning ∧ jb_AttemptNo r = wc_AttemptNo claim ∧
  jb_WorkerID r = Some (wc_WorkerID claim) ∧ jb_LeaseToken r = Some (wc_LeaseToken claim).
Proof. unfold owns_job. rewrite !andb_true_iff, !bool_decide_eq_true, Z.eqb_eq. tauto. Qed.

Lemma lockActiveClaim_ok claim lockNow d c p d' :
  lockActiveClaimAndPolicy claim lockNow d = Ok ((c, p), d') →
  d' = d ∧ ∃ r tenant, jobs d !! ej_InternalID (wc_Job claim) = Some r ∧ tenants d !! jb_Tenant r = Some tenant ∧
    owns_job claim r = true ∧ lease_live lockNow r = true ∧ c = is_some (jb_CancelRequestedAt r) ∧
    p = tn_PolicyJSON tenant.
Proof.
  unfold lockActiveClaimAndPolicy. destruct (jobs d !! _) as [r|] eqn:Hr; [|done].
  destruct (tenants d !! _) as [tenant|] eqn:Ht; [|done]. destruct (_ && _) eqn:Ho; [|done].
  intros [= <- <- <-]. apply andb_true_iff in Ho as [? ?]. eauto 10.
Qed.

(** What the waking of the jobs that were deferred to the day after [aday] does to a row. *)
Definition woken (aday now : Z) (r : job_row) : job_row :=
  if bool_decide (jb_Status r = JobStatusQueued) && (jb_NextAttemptAt r =? aday + day) then set_next_attempt now r else r.

Lemma wake_lookup aday now d j r :
  jobs d !! j = Some r → jobs (wake_jobs (jb_Tenant r) aday now d) !! j = Some (woken aday now r).
Proof. intros Hr. simpl. rewrite lookup_fmap, Hr. simpl. by rewrite Z.eqb_refl. Qed.

(** The settlement and the closing of the attempt after the job row has been
    replaced by [r'], up to the waking of deferred jobs. *)
Lemma settle_claim_ok d claim r r' now cases full c status failure u d1 d2 :
  store_ok d → jobs d !! ej_InternalID (wc_Job claim) = Some r → owns_job claim r = true →
  Forall (λ c, 0 ≤ dc_TimeMillis c) cases → status ≠ AttemptRunning → job_row_wf r' →
  jb_Status r' ≠ JobStatusRunning → jb_AttemptNo r' = jb_AttemptNo r → jb_Tenant r' = jb_Tenant r →
  settleAttemptReservation claim now cases full (set_jobs (insert (ej_InternalID (wc_Job claim)) r') d) = Ok (c, d1) →
  finishAttempt claim status failure c now d1 = Ok (u, d2) →
  mid_ok None (Some (ej_InternalID (wc_Job claim))) none_pending d2 ∧ tenants d2 = tenants d ∧
  jobs_sim (<[ej_InternalID (wc_Job claim) := r']> (jobs d)) (jobs d2) ∧
  (jb_Status r' ≠ JobStatusQueued → jobs d2 !! ej_InternalID (wc_Job claim) = Some r') ∧
  ∃ a aday, attempts d !! (ej_InternalID (wc_Job claim), jb_AttemptNo r) = Some a ∧ at_AccountingDay a = Some aday ∧
    jobs d2 !! ej_InternalID (wc_Job claim) = Some (woken aday now r').
Proof.
  intros Hok Hr Ho Hcases Hst Hwf Hs' Hn' Ht' Hrel Hfin. apply owns_job_true in Ho as (Hs & Hn & Hw & Htok).
  unfold settleAttemptReservation in Hrel. set (j := ej_InternalID (wc_Job claim)) in *.
  apply release_ok in Hrel as (a & aday & row & Ha & Ht & Hrun & Hday & Hpos & Hrow & Hle & Hc & ->).
  simpl in Ha, Hrow. rewrite <-Hn in Ha.
  unfold finishAttempt in Hfin. inv_tx. destruct v; [|done].
  apply update_attempt_affected in Hstep as (a' & Ha' & _ & ->). simpl in Ha'. fold j in Ha'. rewrite <-Hn in Ha'.
  rewrite Ha in Ha'. injection Ha' as <-. rewrite <-Ht in Hrow.
  assert (0 ≤ (if full then at_Reserved a else cappedCaseExecutionMillis cases (at_Reserved a))).
  { destruct full; [lia|]. apply capped_range; [done|lia]. }
  set (consumed := if full then at_Reserved a else _) in *.
  set (failure' := if bool_decide (failure = "") then None else Some failure).
  pose proof (close_running d j r a aday row status now failure' consumed Hok Hr Ha Hrun Hday Hrow ltac:(done) Hst) as Hclosed.
  eapply tables_set_job with (r' := r') in Hclosed; [|by right|by apply (tk_exempt _ _ _ _ _ _ _ Hclosed)|done|by rewrite Hs|done..].
  unfold mid_ok. simpl. rewrite <-Ht. fold j. rewrite <-Hn. rewrite Hc.
  split_and!.
  - eapply tables_ok_sim; [exact Hclosed|]. exact (wake_jobs_sim (at_Tenant a) aday now (set_jobs (insert j r') d)).
  - done.
  - exact (wake_jobs_sim (at_Tenant a) aday now (set_jobs (insert j r') d)).
  - intros Hq. refine (wake_running (at_Tenant a) aday now (set_jobs (insert j r') d) j r' _ Hq).
    simpl. by rewrite lookup_insert_eq.
  - exists a, aday. split_and!; [done..|]. destruct (tk_attempts _ _ _ _ _ _ _ Hok _ _ _ Ha) as [(r0 & Hr0 & _ & Hta & _) _].
    assert (at_Tenant a = jb_Tenant r') as -> by congruence.
    refine (wake_lookup aday now (set_jobs (insert j r') d) j r' _). simpl. by rewrite lookup_insert_eq.
Qed.

Lemma cases_times res : validateDurableJobResult res = true → Forall (λ c, 0 ≤ dc_TimeMillis c) (dr_Cases res).
Proof.
  intros Hv. apply validateDurableJobResult_sound in Hv as [_ _ _ _ _ Hc _].
  eapply Forall_impl; [exact Hc|]. intros c [_ _ [? _] _]. done.
Qed.

(** The event that ends a settlement. *)
Lemma settle_event_ok j r now ids job d d1 x d2 :
  mid_ok None (Some j) none_pending d → jobs d !! j = Some r → terminal (jb_Status r) = true →
  getExternalJobByInternalID j d = Ok (job, d1) →
  insertTerminalWebhookEvent json_payload window now ids job d1 = Ok (x, d2) →
  store_ok d2 ∧ jobs d2 = jobs d ∧ tenants d2 = tenants d.
Proof.
  intros Hmid Hr Ht Hget Hins. apply getExternalJob_ok in Hget as (-> & Hid & _).
  eapply insertTerminalWebhookEvent_ok in Hins as (? & Hjobs & ?); eauto.
Qed.

(** [Complete]: the store invariant, and what becomes of the job. *)
Lemma CompleteTx_step claim res now lockNow ids d u d' :
  store_ok d → CompleteTx json_payload window claim res now lockNow ids d = Ok (u, d') →
  store_ok d' ∧ tenants d' = tenants d ∧
  ∃ r r', jobs d !! ej_InternalID (wc_Job claim) = Some r ∧ owns_job claim r = true ∧ lease_live lockNow r = true ∧
    validateDurableJobResult res = true ∧
    r' = (if jb_CancelRequestedAt r then release_job JobStatusCancelled (jb_NextAttemptAt r) None None (Some now) r
          else release_job JobStatusSucceeded (jb_NextAttemptAt r) (Some res) None (Some now) r) ∧
    jobs_sim (<[ej_InternalID (wc_Job claim) := r']> (jobs d)) (jobs d') ∧
    jobs d' !! ej_InternalID (wc_Job claim) = Some r'.
Proof.
  intros Hok H. unfold CompleteTx in H. set (j := ej_InternalID (wc_Job claim)) in *. inv_tx.
  destruct v0 as [c p]. inv_tx. bool_to_prop.
  apply lockActiveClaim_ok in Hstep0 as (-> & r & tenant & Hr & _ & Ho & Hlive & -> & _). fold j in Hr.
  apply update_job_affected in Hstep1 as (r0 & Hr0 & _ & ->). rewrite Hr in Hr0. injection Hr0 as <-.
  set (r' := release_job _ _ _ _ _ r) in *.
  assert (Hr' : r' = (if jb_CancelRequestedAt r then release_job JobStatusCancelled (jb_NextAttemptAt r) None None (Some now) r
          else release_job JobStatusSucceeded (jb_NextAttemptAt r) (Some res) None (Some now) r))
    by (unfold r'; by destruct (jb_CancelRequestedAt r)).
  apply owns_job_true in Ho as Ho'. destruct Ho' as (Hs & _).
  assert (Hwf : job_row_wf r' ∧ terminal (jb_Status r') = true ∧ jb_AttemptNo r' = jb_AttemptNo r ∧ jb_Tenant r' = jb_Tenant r).
  { rewrite Hr'. destruct (jb_CancelRequestedAt r) eqn:Hc; (split_and!; [|done..]).
    - apply release_cancelled_wf; [by eapply job_wf|done|by rewrite Hc].
    - apply release_succeeded_wf; [by eapply job_wf|done..]. }
  destruct Hwf as (Hwf & Hterm & Hn & Ht).
  eapply settle_claim_ok in Hstep4 as (Hmid & Hten & Hsim & Hj & _); [|done|done|done|by apply cases_times| |done| |done|done|exact Hstep3];
    [|by destruct (is_some _)|intros E; by rewrite E in Hterm].
  fold j in Hmid, Hsim, Hj. specialize (Hj ltac:(intros E; by rewrite E in Hterm)).
  eapply settle_event_ok in Hstep6 as (Hok' & Hjobs & Hten'); eauto.
  split_and!; [done|congruence|]. exists r, r'. rewrite Hjobs. split_and!; done.
Qed.

(** The row an infrastructure failure leaves. *)
Definition failed_row (disposition : FailureDisposition) (failure : InfrastructureFailure) (now : Z) (r : job_row) : job_row :=
  match disposition with
  | FailureCancelled => release_job JobStatusCancelled now (jb_Result r) None (Some now) r
  | FailureRequeued => release_job JobStatusQueued (now + inf_RetryDelay failure) (jb_Result r) None None r
  | FailureTerminal => release_job JobStatusFailed now (jb_Result r) (Some (inf_Code failure)) (Some now) r
  end.

Lemma failed_row_wf r failure tries now :
  job_row_wf r → jb_Status r = JobStatusRunning → infrastructureCodePattern (inf_Code failure) = true →
  job_row_wf (failed_row (failure_disposition (is_some (jb_CancelRequestedAt r)) failure (jb_AttemptNo r) tries) failure now r).
Proof.
  intros Hwf Hs Hcode. unfold failure_disposition.
  destruct (jb_CancelRequestedAt r) as [t|] eqn:Hc; simpl.
  - assert (jb_Result r = None) as -> by (destruct Hwf as [_ Hst]; rewrite Hs in Hst; tauto).
    apply release_cancelled_wf; [done..|by rewrite Hc].
  - destruct (_ && _); simpl; [by apply release_queued_wf|]. apply release_failed_wf; auto.
Qed.

Lemma FailInfrastructureTx_step claim failure now lockNow ids d disposition d' :
  store_ok d →
  FailInfrastructureTx json_policy json_payload window claim failure now lockNow ids d = Ok (disposition, d') →
  store_ok d' ∧ tenants d' = tenants d ∧
  ∃ r tenant policy, jobs d !! ej_InternalID (wc_Job claim) = Some r ∧ tenants d !! jb_Tenant r = Some tenant ∧
    decodeTenantPolicy json_policy (tn_PolicyJSON tenant) = Some policy ∧
    owns_job claim r = true ∧ lease_live lockNow r = true ∧
    disposition = failure_disposition (is_some (jb_CancelRequestedAt r)) failure (jb_AttemptNo r)
                    (MaxInfrastructureTries policy) ∧
    jobs_sim (<[ej_InternalID (wc_Job claim) := failed_row disposition failure now r]> (jobs d)) (jobs d') ∧
    ∃ a aday, attempts d !! (ej_InternalID (wc_Job claim), jb_AttemptNo r) = Some a ∧ at_AccountingDay a = Some aday ∧
      jobs d' !! ej_InternalID (wc_Job claim) = Some (woken aday now (failed_row disposition failure now r)).
Proof.
  intros Hok H. unfold FailInfrastructureTx in H. set (j := ej_InternalID (wc_Job claim)) in *. inv_tx.
  destruct v0 as [c p]. bool_to_prop.
  apply lockActiveClaim_ok in Hstep0 as (-> & r & tenant & Hr & Htn & Ho & Hlive & -> & ->). fold j in Hr.
  destruct (decodeTenantPolicy json_policy _) as [policy|] eqn:Hpol; [|done].
  apply owns_job_true in Ho as Ho'. destruct Ho' as (Hs & Hn & _). rewrite <-Hn in H.
  set (disp := failure_disposition _ failure _ _) in *. inv_tx. subst.
  apply update_job_affected in Hstep as (r0 & Hr0 & _ & ->). rewrite Hr in Hr0. injection Hr0 as <-.
  change (match disp with FailureRequeued => _ | FailureTerminal => _ | FailureCancelled => _ end)
    with (failed_row disp failure now r) in *.
  pose proof (failed_row_wf r failure (MaxInfrastructureTries policy) now (job_wf _ _ _ Hok Hr) Hs ltac:(done)) as Hwf.
  fold disp in Hwf. assert (Hids : jb_AttemptNo (failed_row disp failure now r) = jb_AttemptNo r ∧
    jb_Tenant (failed_row disp failure now r) = jb_Tenant r ∧ jb_Status (failed_row disp failure now r) ≠ JobStatusRunning)
    by (by destruct disp). destruct Hids as (Hn' & Ht' & Hs').
  eapply settle_claim_ok in Hstep2 as (Hmid & Hten & Hsim & Hj & Hwoken);
    [|done|exact Hr|done|constructor| |exact Hwf|done|done|done|exact Hstep1]; [|by destruct (is_some _)].
  fold j in Hmid, Hsim, Hj, Hwoken. case_bool_decide as Hd; inv_tx; subst.
  - split_and!; [|done|by exists r, tenant, policy].
    destruct (jobs_sim_lookup_l _ _ j (failed_row disp failure now r) Hsim) as (r1 & Hr1 & Hsim1); [by rewrite lookup_insert_eq|].
    eapply tables_no_event; [exact Hmid|exact Hr1|]. left. apply job_sim_fields in Hsim1 as (_ & _ & -> & _). by rewrite Hd.
  - assert (Hterm : terminal (jb_Status (failed_row disp failure now r)) = true) by (by destruct disp).
    specialize (Hj ltac:(intros E; by rewrite E in Hterm)).
    eapply settle_event_ok in Hstep0 as (Hok' & Hjobs & Hten'); eauto. rewrite !Hjobs.
    split_and!; [done|congruence|by exists r, tenant, policy].
Qed.

(** ** Heartbeat *)
Lemma set_job_lease_wf until r : job_row_wf r → jb_Status r = JobStatusRunning → job_row_wf (set_job_lease until r).
Proof.
  intros [Ha Hst] Hs. split; [done|]. simpl. rewrite Hs in *. destruct_and!. split_and!; eauto.
Qed.

Lemma HeartbeatTx_step claim lease now d u d' :
  store_ok d → HeartbeatTx claim lease now d = Ok (u, d') →
  store_ok d' ∧ tenants d' = tenants d ∧
  ∃ r, jobs d !! ej_InternalID (wc_Job claim) = Some r ∧ owns_job claim r = true ∧ lease_live now r = true ∧
    jobs d' = <[ej_InternalID (wc_Job claim) := set_job_lease (now + lease) r]> (jobs d).
Proof.
  intros Hok H. unfold HeartbeatTx in H. set (j := ej_InternalID (wc_Job claim)) in *. inv_tx. subst.
  apply update_job_affected in Hstep0 as (r & Hr & Ho & ->). bool_to_prop.
  match goal with Hu : update_attempt _ _ _ _ _ = _ |- _ =>
    apply update_attempt_affected in Hu as (a & Ha & _ & ->) end.
  match goal with Ho : owns_job claim r = true |- _ => apply owns_job_true in Ho as Ho'; destruct Ho' as (Hs & _) end.
  split_and!; [|done|by exists r]. eapply tables_touch_attempt; [|exact Ha|done..].
  eapply (tables_touch_job _ (jobs d)); [done|exact Hr| |done].
  apply set_job_lease_wf; [by eapply job_wf|done].
Qed.

(** ** Cancellation *)
Lemma request_cancel_wf now r : job_row_wf r → jb_Status r = JobStatusRunning → job_row_wf (request_cancel now r).
Proof. intros [Ha Hst] Hs. split; [done|]. simpl. rewrite Hs in *. done. Qed.

Lemma cancel_queued_wf now r : job_row_wf r → jb_Status r = JobStatusQueued → job_row_wf (cancel_queued now r).
Proof. intros [Ha Hst] Hs. split; [done|]. simpl. rewrite Hs in Hst. destruct_and!. split_and!; eauto; done. Qed.

Lemma queued_no_attempt d j r :
  store_ok d → jobs d !! j = Some r → jb_Status r ≠ JobStatusRunning → no_running_attempt (attempts d) j.
Proof.
  intros Hok Hr Hs n a Ha Hrun. destruct (tk_attempts _ _ _ _ _ _ _ Hok _ _ _ Ha) as [(r' & Hr' & _ & _ & Hst) _].
  destruct (Hst Hrun) as (? & _). congruence.
Qed.

Lemma scan_status d j job :
  scanExternalJob d j = Ok job →
  ∃ r, jobs d !! j = Some r ∧ ej_InternalID job = j ∧ ej_Status job = jb_Status r ∧
       ej_CancelRequested job = jb_CancelRequestedAt r.
Proof.
  unfold scanExternalJob. destruct (jobs d !! j) as [r|]; [|done].
  destruct (tenants d !! jb_Tenant r), (bundles d !! jb_Bundle r), (sources d !! jb_Source r); try done.
  repeat (match goal with |- context [if ?b then _ else _] => destruct b end; try done).
  all: intros [= <-]; eauto.
Qed.

Lemma read_job_ok t j e d job d' :
  read_job t j e d = Ok (job, d') →
  d' = d ∧ ∃ id r, find_job d t j = Some id ∧ jobs d !! id = Some r ∧ ej_InternalID job = id ∧
    ej_Status job = jb_Status r ∧ ej_CancelRequested job = jb_CancelRequestedAt r.
Proof.
  unfold read_job, getExternalJob. destruct (find_job d t j) as [id|]; [|done].
  destruct (scanExternalJob d id) as [job'|[]] eqn:Hs; try done. intros [= <- <-].
  apply scan_status in Hs as (r & ? & ? & ? & ?). eauto 10.
Qed.

(** What cancellation does to the row it finds. *)
Definition cancelled_row (now : Z) (r : job_row) : job_row :=
  match jb_Status r with
  | JobStatusQueued => cancel_queued now r
  | JobStatusRunning => if jb_CancelRequestedAt r then r else request_cancel now r
  | _ => r
  end.

Lemma cancel_event_ok d j r r' t e now ids job d1 x d2 :
  store_ok d → jobs d !! j = Some r → jb_Status r = JobStatusQueued → r' = cancel_queued now r →
  read_job t e ErrExternalJobUnavailable (set_jobs (insert j r') d) = Ok (job, d1) → ej_InternalID job = j →
  insertTerminalWebhookEvent json_payload window now ids job d1 = Ok (x, d2) →
  store_ok d2 ∧ jobs d2 = <[j := r']> (jobs d) ∧ tenants d2 = tenants d.
Proof.
  intros Hok Hr Hs -> Hread Hid Hins. apply read_job_ok in Hread as (-> & _).
  assert (Hmid : mid_ok None (Some j) none_pending (set_jobs (insert j (cancel_queued now r)) d)).
  { eapply (tables_set_job None); [exact Hok|by left| |exact Hr|by rewrite Hs| |done..].
    - apply (queued_no_attempt d j r); [done|exact Hr|by rewrite Hs].
    - apply cancel_queued_wf; [by eapply job_wf|done]. }
  eapply insertTerminalWebhookEvent_ok in Hins as (? & Hjobs & ?);
    [|exact Hmid|exact Hid|simpl; by rewrite lookup_insert_eq|done].
  done.
Qed.

(** The unique key on the external ids of jobs. *)
Definition unique_ids (d : db) : Prop :=
  ∀ j1 j2 r1 r2, jobs d !! j1 = Some r1 → jobs d !! j2 = Some r2 → jb_ExternalID r1 = jb_ExternalID r2 → j1 = j2.

Definition ids_kept (d d' : db) : Prop :=
  ∀ j, (jb_ExternalID <$> jobs d' !! j) = (jb_ExternalID <$> jobs d !! j).

Lemma unique_ids_kept d d' : unique_ids d → ids_kept d d' → unique_ids d'.
Proof.
  intros Hu Hk j1 j2 r1 r2 H1 H2 He. pose proof (Hk j1) as K1. pose proof (Hk j2) as K2.
  rewrite H1 in K1. rewrite H2 in K2. simpl in *.
  destruct (jobs d !! j1) as [s1|] eqn:E1; [|done]. destruct (jobs d !! j2) as [s2|] eqn:E2; [|done].
  simpl in *. eapply Hu; eauto. congruence.
Qed.

Lemma sim_ids_kept d d' : jobs_sim (jobs d) (jobs d') → ids_kept d d'.
Proof.
  intros Hs j. specialize (Hs j). destruct (jobs d !! j), (jobs d' !! j); try done. simpl.
  apply job_sim_fields in Hs. destruct_and!. congruence.
Qed.

Lemma insert_ids_kept d d' j r r' :
  jobs d !! j = Some r → jb_ExternalID r' = jb_ExternalID r → jobs_sim (<[j := r']> (jobs d)) (jobs d') →
  ids_kept d d'.
Proof.
  intros Hr He Hs j'. specialize (Hs j'). destruct (decide (j' = j)) as [->|Hne].
  - rewrite lookup_insert_eq in Hs. rewrite Hr. destruct (jobs d' !! j); [|done]. simpl.
    apply job_sim_fields in Hs. destruct_and!. congruence.
  - rewrite lookup_insert_ne in Hs by done. destruct (jobs d !! j'), (jobs d' !! j'); try done. simpl.
    apply job_sim_fields in Hs. destruct_and!. congruence.
Qed.

Lemma find_job_iff d t e id :
  unique_ids d →
  find_job d t e = Some id ↔
  ∃ r, jobs d !! id = Some r ∧ jb_ExternalID r = e ∧ (tn_ExternalID <$> tenants d !! jb_Tenant r) = Some t.
Proof.
  intros Hu. unfold find_job.
  set (P := λ p : Z * job_row, jb_ExternalID p.2 = e ∧ (tn_ExternalID <$> tenants d !! jb_Tenant p.2) = Some t).
  split.
  - destruct (list_find P (map_to_list (jobs d))) as [[i [k r]]|] eqn:Hf; [|done]. intros [= <-].
    apply list_find_Some in Hf as (Hl & [He Ht] & _). exists r. split; [|done].
    apply elem_of_map_to_list. by eapply list_elem_of_lookup_2.
  - intros (r & Hr & He & Ht). destruct (list_find P (map_to_list (jobs d))) as [[i [k r2]]|] eqn:Hf.
    + apply list_find_Some in Hf as (Hl & [He2 Ht2] & _). simpl. f_equal.
      apply (Hu k id r2 r); [|done|simpl in *; congruence].
      apply elem_of_map_to_list. by eapply list_elem_of_lookup_2.
    + apply list_find_None in Hf. rewrite Forall_forall in Hf.
      exfalso. apply (Hf (id, r)); [by apply elem_of_map_to_list|done].
Qed.

Lemma find_job_update d t e id r r' :
  unique_ids d → find_job d t e = Some id → jobs d !! id = Some r →
  jb_ExternalID r' = jb_ExternalID r → jb_Tenant r' = jb_Tenant r →
  find_job (set_jobs (insert id r') d) t e = Some id.
Proof.
  intros Hu Hf Hr He Ht. apply find_job_iff in Hf as (r0 & Hr0 & He0 & Ht0); [|done].
  rewrite Hr in Hr0. injection Hr0 as <-.
  apply find_job_iff.
  - eapply unique_ids_kept; [exact Hu|]. eapply insert_ids_kept; [exact Hr|exact He|done].
  - exists r'. simpl. rewrite lookup_insert_eq. split_and!; congruence.
Qed.

Lemma CancelTx_step t e now ids d job d' :
  store_ok d → unique_ids d → CancelTx json_payload window t e now ids d = Ok (job, d') →
  store_ok d' ∧ tenants d' = tenants d ∧
  ∃ id r, find_job d t e = Some id ∧ jobs d !! id = Some r ∧ jobs d' = <[id := cancelled_row now r]> (jobs d).
Proof.
  intros Hok Hu H. unfold CancelTx in H. inv_tx.
  apply read_job_ok in Hstep2 as (-> & id & r & Hf & Hr & Hid & Hst & Hcr).
  assert (Hsame : cancelled_row now r = r → store_ok d ∧ tenants d = tenants d ∧
    ∃ id r, find_job d t e = Some id ∧ jobs d !! id = Some r ∧ jobs d = <[id := cancelled_row now r]> (jobs d)).
  { intros E. split_and!; [done..|]. exists id, r. split_and!; [done..|]. by rewrite E, insert_id. }
  unfold cancelled_row in *. rewrite Hst, Hcr, Hid in Hstep3. destruct (jb_Status r) eqn:Hs; inv_tx.
  - match goal with Hup : update_job _ _ _ _ = _ |- _ =>
      apply (update_job_found _ _ _ _ _ _ r Hr) in Hup as ->; [|by apply bool_decide_eq_true_2] end.
    match goal with Hrd : read_job _ _ _ _ = _ |- _ => pose proof Hrd as Hread end.
    pose proof Hread as Hread'. apply read_job_ok in Hread' as (-> & id' & r' & Hf' & Hr' & Hid' & _).
    rewrite (find_job_update d t e _ r _ Hu Hf Hr) in Hf' by done. injection Hf' as <-. inv_tx.
    match goal with Hi : insertTerminalWebhookEvent _ _ _ _ _ _ = _ |- _ =>
      eapply cancel_event_ok in Hi as (? & Hj & ?); [|done|exact Hr|done|done|exact Hread|done] end.
    split_and!; [done..|]. eexists _, r. rewrite Hs. done.
  - destruct (jb_CancelRequestedAt r) eqn:Hc; simpl in *; inv_tx.
    + match goal with Hrd : read_job _ _ _ _ = _ |- _ => apply read_job_ok in Hrd as (-> & _) end. inv_tx. by apply Hsame.
    + match goal with Hup : update_job _ _ _ _ = _ |- _ =>
      apply (update_job_found _ _ _ _ _ _ r Hr) in Hup as ->; [|by apply bool_decide_eq_true_2] end.
      match goal with Hrd : read_job _ _ _ _ = _ |- _ => apply read_job_ok in Hrd as (-> & _) end. inv_tx.
      split_and!; [|done|eexists _, r; rewrite Hs, Hc; done].
      eapply (tables_touch_job _ (jobs d)); [done|exact Hr| |done].
      apply request_cancel_wf; [by eapply job_wf|done].
  - match goal with Hrd : read_job _ _ _ _ = _ |- _ => apply read_job_ok in Hrd as (-> & _) end. inv_tx. by apply Hsame.
  - match goal with Hrd : read_job _ _ _ _ = _ |- _ => apply read_job_ok in Hrd as (-> & _) end. inv_tx. by apply Hsame.
  - match goal with Hrd : read_job _ _ _ _ = _ |- _ => apply read_job_ok in Hrd as (-> & _) end. inv_tx. by apply Hsame.
Qed.
End Steps.
End Retained.
