(* ===== verification/StoreClaim.v ===== *)
(** * Claiming keeps the store invariant

    [claimOneWithClock] settles at most one expired job or admits at most one
    queued job; [claim_change] lists what it may do to the row it selected. *)
From stdpp Require Import prelude gmap strings.
From S2P Require Import Prelude.
From S2P Require Import GoText.
From S2P Require Import JobState.
From S2P Require Import Manifest.
From S2P Require Import Store.
From S2P Require Import JobWorker.
From S2P Require Import JobRepository.
From S2P Require Import StoreInvariant.
From S2P Require Import StoreSteps.

Open Scope Z_scope.

Section Retained.
Context `{R : Retired}.

(** Tenants keep everything but their place in the claim rotation. *)
Definition tenant_key (t : tenant_row) : string * string * string := (tn_ExternalID t, tn_Status t, tn_PolicyJSON t).
Definition tenants_kept (d d' : db) : Prop :=
  ∀ t, tenant_key <$> tenants d' !! t = tenant_key <$> tenants d !! t.

Lemma tenants_kept_eq d d' : tenants d' = tenants d → tenants_kept d d'.
Proof. intros E t. by rewrite E. Qed.

Lemma advance_fairness_kept d d' t now :
  tenants d' = alter (λ t, mkTenantRow (tn_ExternalID t) (tn_Status t) (tn_PolicyJSON t) (Some now)) t (tenants d) →
  tenants_kept d d'.
Proof.
  intros E t'. rewrite E. destruct (decide (t' = t)) as [->|Hne].
  - rewrite lookup_alter_eq. by destruct (tenants d !! t).
  - by rewrite lookup_alter_ne.
Qed.

(** ** The selection queries *)
Lemma tenant_before_asym d now a b : tenant_before d now a b = true → tenant_before d now b a = false.
Proof.
  unfold tenant_before. destruct (has_expired d now a.1), (has_expired d now b.1); simpl; try done;
  destruct (tn_LastClaimed a.2) as [x|], (tn_LastClaimed b.2) as [y|]; try done; try lia;
  rewrite (Z.eqb_sym y x); destruct (Z.eqb_spec x y); lia.
Qed.

Lemma tenant_before_neg_trans d now a b c :
  tenant_before d now a b = false → tenant_before d now b c = false → tenant_before d now a c = false.
Proof.
  unfold tenant_before.
  destruct (has_expired d now a.1), (has_expired d now b.1), (has_expired d now c.1); simpl; try done;
  destruct (tn_LastClaimed a.2) as [x|], (tn_LastClaimed b.2) as [y|], (tn_LastClaimed c.2) as [z|]; try done; try lia;
  destruct (Z.eqb_spec x y), (Z.eqb_spec y z), (Z.eqb_spec x z); lia.
Qed.

Lemma select_tenant_Some sql_policy_int d now locked t tenant :
  select_tenant sql_policy_int d now locked = Some (t, tenant) →
  tenants d !! t = Some tenant.
Proof.
  intros H%first_by_elem. apply list_elem_of_filter in H as [_ H]. by apply elem_of_map_to_list in H.
Qed.

Lemma select_job_Some d now t status locked j r :
  select_job d now t status locked = Some (j, r) →
  jobs d !! j = Some r ∧ jb_Tenant r = t ∧ job_claimable status now r = true ∧ j ∉ locked.
Proof.
  intros H%first_by_elem. apply list_elem_of_filter in H as [(Hc & Hl & _) H]. simpl in *.
  apply list_elem_of_filter in H as [Ht H]. by apply elem_of_map_to_list in H.
Qed.

(** What a claim attempt did to the row of the job it selected. *)
Inductive claim_change (workerID token : string) (lease now aday : Z) (policy : option TenantPolicy) (j : Z)
    (r : job_row) : claim_outcome → job_row → Prop :=
| change_claimed c :
    jb_Status r = JobStatusQueued ∨ jb_Status r = JobStatusRunning → jb_AttemptNo r ≠ max_uint32 →
    is_Some policy →
    (jb_Status r = JobStatusRunning → jb_CancelRequestedAt r = None ∧
       ∃ p, policy = Some p ∧ jb_AttemptNo r < MaxInfrastructureTries p) →
    ej_InternalID (wc_Job c) = j → ej_TenantInternalID (wc_Job c) = jb_Tenant r → wc_WorkerID c = workerID → wc_AttemptNo c = jb_AttemptNo r + 1 →
    wc_LeaseToken c = token → wc_LeaseUntil c = now + lease →
    claim_change workerID token lease now aday policy j r (Claimed c)
      (claim_job (jb_AttemptNo r + 1) workerID token (now + lease) now r)
| change_disabled :
    jb_Status r = JobStatusRunning → policy = None →
    claim_change workerID token lease now aday policy j r ClaimAgain
      (release_job JobStatusFailed (jb_NextAttemptAt r) (jb_Result r) (Some "TENANT_DISABLED") (Some now) r)
| change_cancelled :
    jb_Status r = JobStatusRunning → is_Some (jb_CancelRequestedAt r) →
    claim_change workerID token lease now aday policy j r ClaimAgain
      (release_job JobStatusCancelled (jb_NextAttemptAt r) None None (Some now) r)
| change_exhausted p :
    jb_Status r = JobStatusRunning → jb_CancelRequestedAt r = None → policy = Some p →
    MaxInfrastructureTries p ≤ jb_AttemptNo r →
    claim_change workerID token lease now aday policy j r ClaimAgain
      (release_job JobStatusFailed (jb_NextAttemptAt r) (jb_Result r) (Some "LEASE_EXPIRED") (Some now) r)
| change_impossible :
    jb_Status r = JobStatusQueued ∨ jb_Status r = JobStatusRunning →
    (jb_Status r = JobStatusRunning → jb_CancelRequestedAt r = None) →
    claim_change workerID token lease now aday policy j r ClaimAgain
      (release_job JobStatusFailed (jb_NextAttemptAt r) (jb_Result r) (Some "DAILY_EXECUTION_LIMIT_TOO_LOW") (Some now) r)
| change_deferred p :
    jb_Status r = JobStatusRunning → jb_CancelRequestedAt r = None → policy = Some p →
    jb_AttemptNo r < MaxInfrastructureTries p →
    claim_change workerID token lease now aday policy j r ClaimAgain
      (release_job JobStatusQueued (aday + day) (jb_Result r) (jb_FailureCode r) (jb_CompletedAt r) r)
| change_postponed :
    jb_Status r = JobStatusQueued →
    claim_change workerID token lease now aday policy j r ClaimAgain (set_next_attempt (aday + day) r).

Section Claim.
Context (json_policy : string → option TenantPolicy) (json_manifest : string → option Manifest)
        (json_payload : terminalWebhookPayload → string) (sql_policy_int : string → string → option Z).
Context (window : Z).

(** A job whose running attempt, if any, has been closed. *)
Record open_job (d : db) (j : Z) (r : job_row) : Prop := {
  oj_row : jobs d !! j = Some r;
  oj_status : jb_Status r = JobStatusQueued ∨ jb_Status r = JobStatusRunning;
  oj_closed : no_running_attempt (attempts d) j
}.

Lemma persist_claim_ok ex d j r amount w token lease now aday outcome d' :
  mid_ok ex None (one_pending (jb_Tenant r, aday) amount) d → (ex = None ∨ ex = Some j) → open_job d j r →
  0 < amount →
  persist_claim (jb_Tenant r) j (jb_Status r) (jb_AttemptNo r) amount w token lease now aday d = Ok (outcome, d') →
  store_ok d' ∧ tenants_kept d d' ∧ jb_AttemptNo r ≠ max_uint32 ∧
  jobs d' = <[j := claim_job (jb_AttemptNo r + 1) w token (now + lease) now r]> (jobs d) ∧
  ∃ c, outcome = Claimed c ∧ ej_InternalID (wc_Job c) = j ∧ ej_TenantInternalID (wc_Job c) = jb_Tenant r ∧
       wc_WorkerID c = w ∧ wc_AttemptNo c = jb_AttemptNo r + 1 ∧
       wc_LeaseToken c = token ∧ wc_LeaseUntil c = now + lease.
Proof.
  intros Hok Hex [Hr Hst Hno] Hamt H. unfold persist_claim in H. inv_tx. subst.
  match goal with Hu : update_job _ _ _ _ = _ |- _ => apply update_job_affected in Hu as (r0 & Hr0 & _ & ->) end.
  rewrite Hr in Hr0. injection Hr0 as <-.
  match goal with Hg : getExternalJobByInternalID _ _ = _ |- _ =>
    pose proof (getExternalJob_tenant _ _ _ _ Hg) as Hjt; apply getExternalJob_ok in Hg as (-> & Hid & _) end.
  unfold advanceTenantFairness in *. inv_tx. simpl in Hjt. rewrite lookup_insert_eq in Hjt. simpl in Hjt.
  bool_to_prop.
  match goal with Hn : is_some (attempts _ !! _) = false |- _ => simpl in Hn end.
  destruct (attempts d !! (j, jb_AttemptNo r + 1)) eqn:Hnew; [done|].
  injection Hjt as Hjt. split_and!.
  - unfold store_ok. simpl. eapply tables_claim; eauto.
  - eapply advance_fairness_kept. simpl. done.
  - done.
  - done.
  - eexists. split; [done|]. simpl. done.
Qed.

Lemma failImpossible_ok ex d j r now ids u d' :
  mid_ok ex None none_pending d → (ex = None ∨ ex = Some j) → open_job d j r → job_row_wf r →
  failImpossibleDailyExecution json_payload window (jb_Tenant r) j (jb_Status r) (jb_AttemptNo r) now ids d = Ok (u, d') →
  store_ok d' ∧ tenants_kept d d' ∧
  jobs d' = <[j := release_job JobStatusFailed (jb_NextAttemptAt r) (jb_Result r)
                     (Some "DAILY_EXECUTION_LIMIT_TOO_LOW") (Some now) r]> (jobs d).
Proof.
  intros Hok Hex [Hr Hst Hno] Hwf H. unfold failImpossibleDailyExecution in H. inv_tx. subst.
  match goal with Hu : update_job _ _ _ _ = _ |- _ => apply update_job_affected in Hu as (r0 & Hr0 & _ & ->) end.
  rewrite Hr in Hr0. injection Hr0 as <-. unfold advanceTenantFairness in *. inv_tx.
  match goal with Hg : getExternalJobByInternalID _ _ = _ |- _ => apply getExternalJob_ok in Hg as (-> & Hid & _) end.
  set (r' := release_job _ _ _ _ _ r) in *.
  assert (Hmid : mid_ok None (Some j) none_pending (set_jobs (insert j r') d)).
  { unfold mid_ok. simpl. eapply tables_set_job; [exact Hok|exact Hex|done|exact Hr|by destruct Hst as [-> | ->]| |done..].
    apply release_failed_wf; [done|tauto|done]. }
  match goal with Hi : insertTerminalWebhookEvent _ _ _ _ _ ?d1 = _ |- _ =>
    eapply (insertTerminalWebhookEvent_ok json_payload window _ _ _ d1 _ _ None none_pending j r') in Hi
      as (? & Hjobs & Htn); [|exact Hmid|done|simpl; by rewrite lookup_insert_eq|done] end.
  split_and!; [done| |done]. eapply advance_fairness_kept. rewrite Htn. done.
Qed.

Lemma settle_expired_ok d j r now ids upd outcome d' :
  mid_ok (Some j) None none_pending d → jobs d !! j = Some r → jb_Status r = JobStatusRunning →
  job_row_wf (upd r) → terminal (jb_Status (upd r)) = true → jb_AttemptNo (upd r) = jb_AttemptNo r →
  jb_Tenant (upd r) = jb_Tenant r →
  settle_expired json_payload window j (jb_AttemptNo r) now ids upd d = Ok (outcome, d') →
  store_ok d' ∧ tenants_kept d d' ∧ outcome = ClaimAgain ∧ jobs d' = <[j := upd r]> (jobs d).
Proof.
  intros Hok Hr Hs Hwf Ht Hn Hten H. unfold settle_expired in H. inv_tx.
  match goal with Hu : update_job _ _ _ _ = _ |- _ =>
    apply (update_job_found _ _ _ _ _ _ r Hr) in Hu as ->; [|by rewrite bool_decide_eq_true_2, Z.eqb_refl] end.
  match goal with Hg : getExternalJobByInternalID _ _ = _, Hi : insertTerminalWebhookEvent _ _ _ _ _ _ = _ |- _ =>
    eapply (settle_job_ok json_payload window (Some j) none_pending d j r (upd r)) in Hi as (? & ? & ?);
    [|exact Hok|by right|by apply (tk_exempt _ _ _ _ _ _ _ Hok)|exact Hr|by rewrite Hs|done..|exact Hg] end.
  split_and!; [done|by apply tenants_kept_eq|done|done].
Qed.

(** The quota decision on a job whose attempt is closed. *)
Lemma reserve_mid ex tenantID aday limit amount d decision d' :
  reserveDailyExecution tenantID aday limit amount d = Ok (decision, d') → mid_ok ex None none_pending d →
  jobs d' = jobs d ∧ attempts d' = attempts d ∧ tenants d' = tenants d ∧ 0 < limit ∧ 0 < amount ∧
  mid_ok ex None match decision with
                 | dailyReservationAllowed => one_pending (tenantID, aday) amount
                 | _ => none_pending
                 end d'.
Proof.
  intros H Hok. pose proof (reserve_ledger _ _ _ _ _ _ _ H (tk_ledger _ _ _ _ _ _ _ Hok)) as (Hj & Ha & Ho & Ht & Hpos & Hl).
  assert (0 < limit).
  { unfold reserveDailyExecution in H. destruct (_ || _) eqn:E; [done|]. bool_to_prop. lia. }
  split_and!; [done..|]. unfold mid_ok. rewrite Hj, Ha, Ho. rewrite Ha in Hl.
  destruct Hok as [H1 H2 H3 H4 _ H6 H7]. split; try done.
  destruct decision; apply Hl.
Qed.

Lemma jobs_sim_insert J J' j r : jobs_sim J J' → jobs_sim (<[j := r]> J) (<[j := r]> J').
Proof.
  intros H j'. destruct (decide (j' = j)) as [->|Hne]; [by rewrite !lookup_insert_eq|].
  rewrite !lookup_insert_ne by done. apply H.
Qed.

Lemma tenants_kept_trans d1 d2 d3 : tenants_kept d1 d2 → tenants_kept d2 d3 → tenants_kept d1 d3.
Proof. intros H1 H2 t. by rewrite H2. Qed.

(** What follows the quota decision, whatever it is. *)
Lemma after_reservation_ok ex d d0 j r w token lease now aday ids limit amount policy decision deferred outcome d' :
  mid_ok ex None none_pending d0 → (ex = None ∨ ex = Some j) → open_job d0 j r →
  (jb_Status r = JobStatusRunning → jb_CancelRequestedAt r = None ∧
     ∃ p, policy = Some p ∧ jb_AttemptNo r < MaxInfrastructureTries p) →
  (0 < limit → is_Some policy) →
  job_row_wf (deferred r) → jb_Status (deferred r) = JobStatusQueued → jb_AttemptNo (deferred r) = jb_AttemptNo r →
  jb_Tenant (deferred r) = jb_Tenant r →
  claim_change w token lease now aday policy j r ClaimAgain (deferred r) →
  reserveDailyExecution (jb_Tenant r) aday limit amount d0 = Ok (decision, d) →
  after_reservation json_payload window decision (jb_Tenant r) j (jb_Status r) (jb_AttemptNo r) now ids deferred
    (persist_claim (jb_Tenant r) j (jb_Status r) (jb_AttemptNo r) amount w token lease now aday) d = Ok (outcome, d') →
  store_ok d' ∧ tenants_kept d0 d' ∧
  ∃ r', claim_change w token lease now aday policy j r outcome r' ∧ jobs d' = <[j := r']> (jobs d0).
Proof.
  intros Hok Hex Hopen Hrun Hlim Hwf Hq Hn Ht Hdef Hres H.
  destruct (reserve_mid _ _ _ _ _ _ _ _ Hres Hok) as (Hj & Ha & Htn & Hl & Hamt & Hmid).
  pose proof Hopen as [Hr Hst Hno]. assert (Hopen' : open_job d j r) by (split; rewrite ?Hj, ?Ha; done).
  destruct decision; simpl in H.
  - eapply persist_claim_ok in H as (? & Hk & Hmax & Hjobs & c & -> & ? & ? & ? & ? & ? & ?);
      [|exact Hmid|exact Hex|exact Hopen'|exact Hamt].
    split_and!; [done|intros t; by rewrite Hk, Htn|]. eexists. split; [|by rewrite Hjobs, Hj].
    apply change_claimed; auto.
  - inv_tx. match goal with Hu : update_job _ _ _ _ = _ |- _ =>
      apply (update_job_found _ _ _ _ _ _ r) in Hu as -> end;
      [|by rewrite Hj|rewrite bool_decide_eq_true_2, Z.eqb_refl by done; by rewrite orb_true_r].
    unfold advanceTenantFairness in *. inv_tx.
    split_and!; [|eapply advance_fairness_kept; simpl; by rewrite Htn|eexists; split; [exact Hdef|simpl; by rewrite Hj]].
    unfold store_ok. simpl. eapply tables_no_event; [|by rewrite lookup_insert_eq|left; by rewrite Hq].
    eapply tables_set_job; [exact Hmid|exact Hex|by rewrite Ha|by rewrite Hj| |done| |done..].
    + by destruct Hst as [-> | ->].
    + by rewrite Hq.
  - inv_tx. match goal with Hf : failImpossibleDailyExecution _ _ _ _ _ _ _ _ _ = _ |- _ =>
      eapply failImpossible_ok in Hf as (? & Hk & Hjobs); [|exact Hmid|exact Hex|exact Hopen'|] end;
      [|by eapply (tk_jobs _ _ _ _ _ _ _ Hok)].
    split_and!; [done|intros t; by rewrite Hk, Htn|]. eexists. split; [|by rewrite Hjobs, Hj].
    apply change_impossible; [done|intros E; by apply Hrun].
Qed.

(** [claim_selected] on the row that was selected. *)
Lemma claim_selected_ok policy d j r reserved w token lease now aday ids outcome d' :
  store_ok d → jobs d !! j = Some r →
  claim_selected json_payload window (jb_Tenant r) policy j r reserved w token lease now aday ids d = Ok (outcome, d') →
  store_ok d' ∧ tenants_kept d d' ∧
  ∃ r', claim_change w token lease now aday policy j r outcome r' ∧ jobs_sim (<[j := r']> (jobs d)) (jobs d').
Proof.
  intros Hok Hr H. pose proof (job_wf _ _ _ Hok Hr) as Hwf. unfold claim_selected in H.
  destruct (jb_Status r) eqn:Hs; inv_tx.
  - rewrite <-Hs in H at 1 2. match goal with Hres : reserveDailyExecution _ _ _ _ _ = _ |- _ =>
      eapply (after_reservation_ok None) with (policy := policy) in Hres as (? & ? & r' & Hc & Hj);
      [|exact Hok|by left| | | | | | | | |exact H] end; try done.
    + split_and!; [done..|]. exists r'. by rewrite Hj.
    + split; [done|by left|]. apply (queued_no_attempt d j r); [done..|by rewrite Hs].
    + by rewrite Hs.
    + destruct policy; simpl; [done|lia].
    + by apply (job_sim_wf r).
    + by apply change_postponed.
  - match goal with He : expireAttempt _ _ _ _ _ = _ |- _ =>
      eapply expireAttempt_ok in He as (Hmid & Hsim & Hr1 & Htn); [|done..] end.
    assert (Hins : ∀ r', jobs_sim (<[j := r']> (jobs d)) (<[j := r']> (jobs d0)))
      by (intros r'; exact (jobs_sim_insert _ _ j r' Hsim)).
    destruct policy as [p|]; [destruct (jb_CancelRequestedAt r) eqn:Hc; simpl in H;
      [|destruct (Z.leb_spec (MaxInfrastructureTries p) (jb_AttemptNo r))]|].
    + eapply settle_expired_ok in H as (? & Hk & -> & ->); [|exact Hmid|exact Hr1|done| |done..];
        [|apply release_cancelled_wf; [done..|by rewrite Hc]].
      split_and!; [done|intros t; by rewrite Hk, Htn|]. eexists. split; [apply change_cancelled; [done|by rewrite Hc]|exact (Hins _)].
    + eapply settle_expired_ok in H as (? & Hk & -> & ->); [|exact Hmid|exact Hr1|done| |done..];
        [|by apply release_failed_wf; auto].
      split_and!; [done|intros t; by rewrite Hk, Htn|]. eexists. split; [by eapply change_exhausted|exact (Hins _)].
    + inv_tx. rewrite <-Hs in H at 1 2. match goal with Hres : reserveDailyExecution _ _ _ _ _ = _ |- _ =>
        eapply (after_reservation_ok (Some j)) with (policy := Some p) in Hres as (? & Hk & r' & Hch & Hj);
        [|exact Hmid|by right| | | | | | | | |exact H] end; try done.
      * split_and!; [done|intros t; by rewrite Hk, Htn|]. exists r'. rewrite Hj. split; [done|exact (Hins _)].
      * split; [done|by right|by apply (tk_exempt _ _ _ _ _ _ _ Hmid)].
      * intros _. eauto.
      * destruct (running_result _ _ _ Hok Hr Hs) as (Hres' & Hf & Hcomp & _). rewrite Hf, Hcomp.
        apply (job_sim_wf (release_job JobStatusQueued (jb_NextAttemptAt r) (jb_Result r) None None r)); [done|].
        by apply release_queued_wf.
      * by eapply change_deferred.
    + eapply settle_expired_ok in H as (? & Hk & -> & ->); [|exact Hmid|exact Hr1|done| |done..];
        [|by apply release_failed_wf; auto].
      split_and!; [done|intros t; by rewrite Hk, Htn|]. eexists. split; [by apply change_disabled|exact (Hins _)].
Qed.

(** [claimOneWithClock] when it commits. *)
Lemma claimOne_step w lease env d outcome d' :
  store_ok d →
  claimOneWithClock json_policy json_manifest json_payload sql_policy_int window w lease env d
    = ClaimCommitted outcome d' →
  store_ok d' ∧ tenants_kept d d' ∧
  ∃ j r r' tenant policy, jobs d !! j = Some r ∧ tenants d !! jb_Tenant r = Some tenant ∧
    policy = (if bool_decide (tn_Status tenant = "ACTIVE") then decodeTenantPolicy json_policy (tn_PolicyJSON tenant)
              else None) ∧
    job_claimable (tn_Status tenant) (ce_Now env) r = true ∧
    (jb_Status r = JobStatusQueued → running_count d (jb_Tenant r) < default 0 (MaxRunningJobs <$> policy)) ∧
    claim_change w (ce_LeaseToken env) lease (ce_Now env) (ce_AccountingDay env) policy j r outcome r' ∧
    jobs_sim (<[j := r']> (jobs d)) (jobs d').
Proof.
  intros Hok. unfold claimOneWithClock.
  destruct (select_tenant _ _ _ _) as [[t tenant]|] eqn:Hst; [|done].
  destruct (_ && _) eqn:Hact; [done|].
  destruct (select_job _ _ _ _ _) as [[j r]|] eqn:Hsj; [|done].
  destruct (claim_reservation _ _ _ _) as [reserved|]; [|done].
  destruct (running_quota_full _ _ _ _) eqn:Hfull; [done|].
  destruct (claim_selected _ _ _ _ _ _ _ _ _ _ _ _ _ _) as [[o d1]|] eqn:Hsel; [|done]. intros [= <- <-].
  apply select_tenant_Some in Hst. apply select_job_Some in Hsj as (Hr & <- & Hclaim & _).
  eapply claim_selected_ok in Hsel as (? & ? & r' & Hch & Hsim); [|done..].
  split_and!; [done..|]. exists j, r, r', tenant. eexists. split_and!; [done..| |done|done].
  intros Hq. unfold running_quota_full in Hfull. rewrite bool_decide_eq_true_2 in Hfull by done. simpl in Hfull. lia.
Qed.
End Claim.
End Retained.
