(* ===== verification/StoreReach.v ===== *)
(** * The reachable states of the job store

    Submissions, claims, heartbeats, settlements and cancellations as one step
    relation, and what holds of every state it reaches. *)
From stdpp Require Import prelude gmap strings.
From S2P Require Import Prelude.
From S2P Require Import GoText.
From S2P Require Import JobState.
From S2P Require Import Manifest.
From S2P Require Import Store.
From S2P Require Import JobWorker.
From S2P Require Import JobRepository.
From S2P Require Import StoreInvariant.
From S2P Require Import StoreSteps.
From S2P Require Import StoreClaim.

Open Scope Z_scope.

Section Retained.
Context `{R : Retired}.

(** ** Submission *)
Lemma lockSubmissionReservations_ok a b now d u d' :
  lockSubmissionReservations a b now d = Ok (u, d') →
  d' = d ∧ Forall (λ c, ∃ r, reservations d !! rc_ObjectKey c = Some r ∧ rs_OwnerToken r = rc_OwnerToken c ∧
                             now < rs_LeaseUntil r) [a; b].
Proof.
  assert (Hone : ∀ c d u d', lock_reservation c now d = Ok (u, d') → d' = d ∧
    ∃ r, reservations d !! rc_ObjectKey c = Some r ∧ rs_OwnerToken r = rc_OwnerToken c ∧ now < rs_LeaseUntil r).
  { intros c d0 u0 d1. unfold lock_reservation, reservation_owned. destruct (reservations d0 !! _) as [r|] eqn:Hr; [|done].
    destruct (_ && _) eqn:E; [|done]. intros [= _ <-]. bool_to_prop. eauto. }
  unfold lockSubmissionReservations. intros H. destruct (String.ltb _ _); inv_tx;
    repeat match goal with Hl : lock_reservation _ _ _ = _ |- _ => apply Hone in Hl as (-> & ?) end;
    (split; [done|]); repeat constructor; done.
Qed.

Lemma queued_job_wf t b src c s now : job_row_wf (queued_job t b src c s now).
Proof. split; simpl; [unfold max_uint32; lia|]. unfold unleased. simpl. done. Qed.

(** T6: a new queued job. *)
Lemma tables_submit J A D O j r :
  tables_ok None None none_pending J A D O → J !! j = None → job_row_wf r → jb_Status r = JobStatusQueued →
  tables_ok None None none_pending (<[j := r]> J) A D O.
Proof.
  intros [Hj Hat Hru _ Hl Ho Hev] Hnew Hwf Hs. split; [| | |done|done| |].
  - intros j' r' [[<- <-]|[Hne ?]]%lookup_insert_Some; [done|by eapply Hj].
  - intros j' n a Ha. destruct (Hat _ _ _ Ha) as [(r0 & Hr0 & ?) Hamt]. split; [|done].
    exists r0. rewrite lookup_insert_ne; [done|congruence].
  - intros j' r' [[<- <-]|[Hne Hr']]%lookup_insert_Some Hst; [congruence|by eapply Hru].
  - intros j' row Hrow. destruct (Ho _ _ Hrow) as (r0 & Hr0 & ?). exists r0. rewrite lookup_insert_ne; [done|congruence].
  - intros j' r' [[<- <-]|[Hne Hr']]%lookup_insert_Some; [by rewrite Hs|by eapply Hev].
Qed.

Lemma job_key_free_spec d row :
  job_key_free d row = true → ∀ j r, jobs d !! j = Some r → jb_ExternalID r ≠ jb_ExternalID row.
Proof.
  unfold job_key_free. rewrite forallb_forall. intros H j r Hr He.
  specialize (H (j, r)). rewrite bool_decide_eq_true_2 in H by done.
  by discriminate H; apply list_elem_of_In, elem_of_map_to_list.
Qed.

Lemma unique_ids_insert d d' j row :
  unique_ids d → jobs d' = <[j := row]> (jobs d) → (∀ j' r, jobs d !! j' = Some r → jb_ExternalID r ≠ jb_ExternalID row) →
  unique_ids d'.
Proof.
  intros Hu Hj Hfree j1 j2 r1 r2. rewrite Hj.
  intros [[<- <-]|[Hne1 H1]]%lookup_insert_Some [[<- <-]|[Hne2 H2]]%lookup_insert_Some He; [done| | |by eapply Hu].
  - by destruct (Hfree _ _ H2).
  - by destruct (Hfree _ _ H1).
Qed.

(** The job a submission creates. *)
Definition submitted_row (s : submission) (now : Z) (r : job_row) : Prop :=
  ∃ t b src c, r = queued_job t b src c s now.

Section Reach.
Context (json_policy : string → option TenantPolicy) (json_manifest : string → option Manifest)
        (json_payload : terminalWebhookPayload → string) (sql_policy_int : string → string → option Z).
Context (window : Z).

Lemma SubmitTx_step s sourceID jobID lockNow now ttl d outcome d' :
  store_ok d → unique_ids d → SubmitTx json_policy s sourceID jobID lockNow now ttl d = Ok (outcome, d') →
  store_ok d' ∧ unique_ids d' ∧ tenants d' = tenants d ∧
  (d' = d ∨ ∃ t tenant policy b c, jobs d !! jobID = None ∧
     tenants d !! t = Some tenant ∧ tn_ExternalID tenant = su_Tenant s ∧ tn_Status tenant = "ACTIVE" ∧
     decodeTenantPolicy json_policy (tn_PolicyJSON tenant) = Some policy ∧
     len (rq_SourceCode (su_Request s)) ≤ MaxSourceBytes policy ∧ queued_count d t < MaxQueuedJobs policy ∧
     jobs d' = <[jobID := queued_job t b sourceID c s now]> (jobs d)).
Proof.
  intros Hok Hu H. unfold SubmitTx in H. inv_tx.
  match goal with v : (Z * TenantPolicy)%type |- _ => destruct v as [t policy] end.
  match goal with Hl : lockSubmissionReservations _ _ _ _ = _ |- _ =>
    apply lockSubmissionReservations_ok in Hl as (-> & _) end.
  match goal with Hl : lockTenantPolicy _ _ _ = _ |- _ => rename Hl into Hlock end.
  unfold lockTenantPolicy, find_tenant in Hlock.
  destruct (list_find _ _) as [[i [t' tenant]]|] eqn:Hf; [|done]. simpl in Hlock.
  destruct (negb _) eqn:Hact; [done|]. destruct (decodeTenantPolicy _ _) as [p|] eqn:Hpol; [|done].
  injection Hlock as -> -> <-. bool_to_prop.
  apply list_find_Some in Hf as (Hi & Hext & _).
  apply list_elem_of_lookup_2, elem_of_map_to_list in Hi. simpl in Hext.
  inv_tx. set (d1 := match idempotency d !! (t, su_KeyDigest s) with Some _ => _ | None => d end) in *.
  assert (Hd1 : jobs d1 = jobs d ∧ tenants d1 = tenants d ∧ attempts d1 = attempts d ∧ daily d1 = daily d ∧
                outbox d1 = outbox d ∧ queued_count d1 t = queued_count d t).
  { subst d1. destruct (idempotency d !! _) as [record|]; [|done]. by destruct (_ <=? _). }
  clearbody d1. destruct Hd1 as (Hj1 & Ht1 & Ha1 & Hd1 & Ho1 & Hq1).
  destruct (idempotency d1 !! _) as [record|].
  - destruct (negb _); [done|]. inv_tx. unfold roll_back in H. injection H as _ <-. eauto.
  - inv_tx. unfold persist_submission in *. inv_tx.
    destruct (find_bundle _ _ _) as [b|]; [|done]. destruct (if bool_decide _ then _ else _) as [c|]; [|done]. inv_tx.
    unfold insert_source, insert_job, delete_reservations in *.
    repeat match goal with Hi' : (if ?b then Err _ else Ok _) = Ok _ |- _ => destruct b eqn:?; [done|injection Hi' as <-] end.
    match goal with Hd' : Ok _ = Ok _ |- _ => injection Hd' as <- <- end.
    match goal with Hr : read_job _ _ _ _ = _ |- _ => apply read_job_ok in Hr as (-> & _) end.
    bool_to_prop. simpl in *. rewrite Hj1 in *.
    destruct (jobs d !! jobID) eqn:Hnew; [done|].
    match goal with Hf' : job_key_free _ _ = true |- _ => pose proof (job_key_free_spec _ _ Hf') as Hfree end.
    simpl in Hfree. rewrite Hj1 in Hfree.
    split_and!; [| |done|].
    + unfold store_ok. simpl. rewrite Ha1, Hd1, Ho1, Hj1.
      apply tables_submit; [done|done|apply queued_job_wf|done].
    + eapply unique_ids_insert; [exact Hu|simpl; rewrite ?Hj1; done|exact Hfree].
    + right. exists t, tenant, policy, b, c. rewrite <-Hq1. split_and!; rewrite ?Hj1; done.
Qed.

(** ** Steps *)
(** The transactions on submitted jobs. *)
Inductive job_step (d : db) : db → Prop :=
| step_claim_one w lease env outcome d' :
    claimOneWithClock json_policy json_manifest json_payload sql_policy_int window w lease env d
      = ClaimCommitted outcome d' → job_step d d'
| step_heartbeat_tx claim lease now u d' : HeartbeatTx claim lease now d = Ok (u, d') → job_step d d'
| step_complete_tx claim res now lockNow ids u d' :
    CompleteTx json_payload window claim res now lockNow ids d = Ok (u, d') → job_step d d'
| step_fail_tx claim failure now lockNow ids disposition d' :
    FailInfrastructureTx json_policy json_payload window claim failure now lockNow ids d = Ok (disposition, d') →
    job_step d d'
| step_cancel_tx t e now ids job d' : CancelTx json_payload window t e now ids d = Ok (job, d') → job_step d d'.

Inductive store_step (d : db) : db → Prop :=
| step_submit s sourceID jobID lockNow now ttl outcome d' :
    SubmitTx json_policy s sourceID jobID lockNow now ttl d = Ok (outcome, d') → store_step d d'
| step_job d' : job_step d d' → store_step d d'.

(** ** What a step does to one row *)
Inductive row_change : job_row → job_row → Prop :=
| row_same r : row_change r r
| row_claimed r n w token until now :
    jb_Status r = JobStatusQueued ∨ (jb_Status r = JobStatusRunning ∧ jb_CancelRequestedAt r = None) →
    n = jb_AttemptNo r + 1 →
    row_change r (claim_job n w token until now r)
| row_renewed r until : jb_Status r = JobStatusRunning → row_change r (set_job_lease until r)
| row_cancel_requested r now :
    jb_Status r = JobStatusRunning → jb_CancelRequestedAt r = None → row_change r (request_cancel now r)
| row_cancel_queued r now : jb_Status r = JobStatusQueued → row_change r (cancel_queued now r)
| row_succeeded r res now :
    jb_Status r = JobStatusRunning → jb_CancelRequestedAt r = None → validateDurableJobResult res = true →
    row_change r (release_job JobStatusSucceeded (jb_NextAttemptAt r) (Some res) None (Some now) r)
| row_cancelled r next now :
    jb_Status r = JobStatusRunning → is_Some (jb_CancelRequestedAt r) →
    row_change r (release_job JobStatusCancelled next None None (Some now) r)
| row_failed r next code now :
    jb_Status r = JobStatusRunning ∨ jb_Status r = JobStatusQueued →
    (is_Some (jb_CancelRequestedAt r) → code = "TENANT_DISABLED") →
    row_change r (release_job JobStatusFailed next (jb_Result r) (Some code) (Some now) r)
| row_requeued r next :
    jb_Status r = JobStatusRunning → jb_CancelRequestedAt r = None → 
    row_change r (release_job JobStatusQueued next None None None r).

(** Rows are followed up to the waking of deferred jobs. *)
Definition rows_evolve (J J' : gmap Z job_row) : Prop :=
  ∀ j r, J !! j = Some r → ∃ r1 r', J' !! j = Some r' ∧ row_change r r1 ∧ job_sim r1 r'.

Lemma rows_evolve_insert J J' j r r' :
  J !! j = Some r → row_change r r' → jobs_sim (<[j := r']> J) J' → rows_evolve J J'.
Proof.
  intros Hr Hch Hs j' r0 Hr0. destruct (decide (j' = j)) as [->|Hne].
  - rewrite Hr in Hr0. injection Hr0 as <-.
    destruct (jobs_sim_lookup_l _ _ j r' Hs) as (r'' & ? & ?); [by rewrite lookup_insert_eq|]. eauto.
  - destruct (jobs_sim_lookup_l _ _ j' r0 Hs) as (r'' & Hr'' & Hsim); [by rewrite lookup_insert_ne|].
    exists r0, r''. split_and!; [done|constructor|done].
Qed.

Lemma rows_evolve_new J j r : J !! j = None → rows_evolve J (<[j := r]> J).
Proof.
  intros Hn j' r0 Hr0. exists r0, r0. split_and!; [rewrite lookup_insert_ne; [done|congruence]|constructor|done].
Qed.

Lemma rows_evolve_refl J : rows_evolve J J.
Proof. intros j r Hr. exists r, r. split_and!; [done|constructor|done]. Qed.

Lemma claim_change_row w token lease now aday policy j r outcome r' :
  job_row_wf r → claim_change w token lease now aday policy j r outcome r' →
  ∃ r1, row_change r r1 ∧ job_sim r1 r' ∧ jb_ExternalID r' = jb_ExternalID r.
Proof.
  intros [_ Hwf] H. destruct H as [c Hs ? ? Hrun|Hs|Hs ?|p Hs ?|Hs Hc|p Hs ? ? ?|Hs].
  all: try rewrite Hs in Hwf; destruct_and?.
  6: { exists (release_job JobStatusQueued 0 None None None r). split_and!; [by apply row_requeued| |done].
       destruct r; simpl in *; subst; done. }
  6: { exists r. split_and!; [constructor|done|done]. }
  all: eexists; (split; [|split; [reflexivity|done]]).
  - apply row_claimed; [|done]. destruct Hs as [?|E]; [by left|right; split; [done|by apply Hrun]].
  - apply row_failed; auto.
  - by apply row_cancelled.
  - apply row_failed; [by left|]. intros [? ?]. congruence.
  - apply row_failed; [tauto|]. intros [t Ht]. destruct Hs as [E|E]; [|by rewrite Hc in Ht].
    rewrite E in Hwf. destruct_and!. congruence.
Qed.

Lemma job_step_ok d d' :
  store_ok d → unique_ids d → job_step d d' →
  store_ok d' ∧ ids_kept d d' ∧ tenants_kept d d' ∧ rows_evolve (jobs d) (jobs d').
Proof.
  intros Hok Hu [w lease env o d2 H|c lease now u d2 H|c res now ln ids u d2 H|
                 c f now ln ids disp d2 H|t e now ids job d2 H].
  - apply claimOne_step in H as (Hok' & ? & j & r & r' & tenant & policy & Hr & _ & _ & _ & _ & Hch & Hs); [|done].
    apply claim_change_row in Hch as (r1 & Hch & Hsim & He); [|exact (job_wf _ _ _ Hok Hr)].
    split_and!; [done|by eapply insert_ids_kept|done|].
    eapply rows_evolve_insert; [exact Hr|exact Hch|]. transitivity (<[j:=r']> (jobs d)); [|exact Hs].
    intros j'. destruct (decide (j' = j)) as [->|?]; [by rewrite !lookup_insert_eq|].
    rewrite !lookup_insert_ne by done. by destruct (jobs d !! j').
  - apply HeartbeatTx_step in H as (? & ? & r & Hr & Ho & _ & Hj); [|done]. apply owns_job_true in Ho as (Hs & _).
    split_and!; [done| |by apply tenants_kept_eq|].
    + eapply insert_ids_kept; [exact Hr| |rewrite Hj; reflexivity]. done.
    + eapply rows_evolve_insert; [exact Hr|by apply row_renewed|rewrite Hj; reflexivity].
  - apply CompleteTx_step in H as (? & ? & r & r' & Hr & Ho & _ & Hv & Hr' & Hsim & _); [|done].
    apply owns_job_true in Ho as (Hs & _). assert (Hch : row_change r r').
    { rewrite Hr'. destruct (jb_CancelRequestedAt r) eqn:Hc; [apply row_cancelled; [done|by rewrite Hc]|by apply row_succeeded]. }
    split_and!; [done| |by apply tenants_kept_eq|by eapply rows_evolve_insert].
    eapply insert_ids_kept; [exact Hr| |exact Hsim]. rewrite Hr'. by destruct (jb_CancelRequestedAt r).
  - apply FailInfrastructureTx_step in H as (? & ? & r & tn & p & Hr & _ & _ & Ho & _ & Hd & Hsim & _); [|done].
    apply owns_job_true in Ho as (Hs & _).
    split_and!; [done| |by apply tenants_kept_eq|].
    + eapply insert_ids_kept; [exact Hr| |exact Hsim]. by destruct disp.
    + eapply rows_evolve_insert; [exact Hr| |exact Hsim]. rewrite Hd.
      destruct (running_result _ _ _ Hok Hr Hs) as (Hres & _). unfold failure_disposition, failed_row.
      destruct (jb_CancelRequestedAt r) eqn:Hc; simpl.
      * rewrite Hres. apply row_cancelled; [done|by rewrite Hc].
      * destruct (_ && _); [rewrite Hres; by apply row_requeued|]. apply row_failed; [by left|]. rewrite Hc. by intros [? ?].
  - apply CancelTx_step in H as (? & ? & id & r & _ & Hr & Hj); [|done..].
    assert (Hch : row_change r (cancelled_row now r)).
    { unfold cancelled_row. destruct (jb_Status r) eqn:Hs; try constructor; try done.
      destruct (jb_CancelRequestedAt r) eqn:Hc; by constructor. }
    split_and!; [done| |by apply tenants_kept_eq|by eapply rows_evolve_insert; [..|rewrite Hj; reflexivity]].
    eapply insert_ids_kept; [exact Hr| |rewrite Hj; reflexivity].
    unfold cancelled_row. destruct (jb_Status r); try done. by destruct (jb_CancelRequestedAt r).
Qed.

Lemma store_step_ok d d' :
  store_ok d → unique_ids d → store_step d d' →
  store_ok d' ∧ unique_ids d' ∧ tenants_kept d d' ∧ rows_evolve (jobs d) (jobs d').
Proof.
  intros Hok Hu [s src j ln now ttl o d1 H|d1 H].
  - apply SubmitTx_step in H as (? & ? & ? & H); [|done..]. split_and!; [done|done|by apply tenants_kept_eq|].
    destruct H as [->|(? & ? & ? & ? & ? & Hn & _ & _ & _ & _ & _ & _ & ->)]; [apply rows_evolve_refl|by apply rows_evolve_new].
  - apply job_step_ok in H as (? & Hk & ? & ?); [|done..]. split_and!; [done|by eapply unique_ids_kept|done|done].
Qed.
End Reach.
End Retained.
