(* ===== verification/StoreFrame.v ===== *)
(** * What transactions leave alone

    Properties of the tables that a transaction keeps, by its structure, and the
    frame of the transactions on submitted jobs: they write jobs, attempts, the
    daily ledger, the outbox and the fairness of tenants, and nothing else. *)
From stdpp Require Import prelude gmap strings.
From S2P Require Import Prelude.
From S2P Require Import GoText.
From S2P Require Import JobState.
From S2P Require Import Manifest.
From S2P Require Import Store.
From S2P Require Import JobWorker.
From S2P Require Import JobRepository.
From S2P Require Import StoreInvariant.
From S2P Require Import StoreSteps.
From S2P Require Import StoreClaim.
From S2P Require Import StoreReach.

Open Scope Z_scope.

(** ** Properties that transactions keep *)
Definition tx_keeps {A} (P : db → Prop) (m : tx A) : Prop := ∀ d a d', P d → m d = Ok (a, d') → P d'.

Section Keeps.
Context (P : db → Prop).

Lemma keeps_bind {A B} (m : tx A) (f : A → tx B) : tx_keeps P m → (∀ a, tx_keeps P (f a)) → tx_keeps P (m ≫= f).
Proof. intros Hm Hf d b d' HP H. apply tx_bind_ok in H as (a & d1 & H1 & H2). eapply Hf; [eapply Hm|]; eauto. Qed.

Lemma keeps_ret {A} (a : A) : tx_keeps P (mret a).
Proof. intros d b d' HP H. by apply tx_ret_ok in H as [_ ->]. Qed.

Lemma keeps_fail {A} e : tx_keeps P (tx_fail e : tx A).
Proof. intros d b d' HP H. discriminate H. Qed.

Lemma keeps_guard c e : tx_keeps P (tx_guard c e).
Proof. intros d b d' HP H. by apply tx_guard_ok in H as [_ ->]. Qed.

Lemma keeps_get : tx_keeps P tx_get.
Proof. intros d b d' HP H. by apply tx_get_ok in H as [_ ->]. Qed.

Lemma keeps_read {A} (m : tx A) : (∀ d a d', m d = Ok (a, d') → d' = d) → tx_keeps P m.
Proof. intros Hm d a d' HP H. by rewrite (Hm _ _ _ H). Qed.

Lemma keeps_modify f : (∀ d, P d → P (f d)) → tx_keeps P (tx_modify f).
Proof. intros Hf d b d' HP H. apply tx_modify_ok in H as ->. by apply Hf. Qed.

Lemma keeps_update_job id w set : (∀ d f, P d → P (set_jobs f d)) → tx_keeps P (update_job id w set).
Proof.
  intros Hf d b d' HP. unfold update_job. destruct (jobs d !! id) as [r|]; [destruct (w r)|];
    intros [= <- <-]; auto.
Qed.

Lemma keeps_update_attempt j n w set :
  (∀ d f, P d → P (set_attempts f d)) → tx_keeps P (update_attempt j n w set).
Proof.
  intros Hf d b d' HP. unfold update_attempt. destruct (attempts d !! (j, n)) as [r|]; [destruct (w r)|];
    intros [= <- <-]; auto.
Qed.

Lemma keeps_getExternalJob j : tx_keeps P (getExternalJobByInternalID j).
Proof. apply keeps_read. by intros d a d' (-> & _)%getExternalJob_ok. Qed.

Lemma keeps_read_job t e n : tx_keeps P (read_job t e n).
Proof. apply keeps_read. by intros d a d' (-> & _)%read_job_ok. Qed.

Lemma keeps_lockActive claim now : tx_keeps P (lockActiveClaimAndPolicy claim now).
Proof. apply keeps_read. by intros d [c p] d' (-> & _)%lockActiveClaim_ok. Qed.

Lemma keeps_lock_reservations a b now : tx_keeps P (lockSubmissionReservations a b now).
Proof. apply keeps_read. by intros d u d' (-> & _)%lockSubmissionReservations_ok. Qed.

Lemma keeps_lock_tenant json_policy t : tx_keeps P (lockTenantPolicy json_policy t).
Proof. apply keeps_read. intros d v d'. unfold lockTenantPolicy. repeat case_match; by intros [= _ <-]. Qed.
End Keeps.


Create HintDb quota.
#[export] Hint Resolve keeps_bind keeps_ret keeps_fail keeps_guard keeps_get keeps_modify keeps_update_job
  keeps_update_attempt keeps_getExternalJob keeps_read_job keeps_lockActive keeps_lock_reservations keeps_lock_tenant : quota.

(** Follow the structure of a transaction that keeps a property. *)
Ltac keeps_tx :=
  repeat match goal with
  | |- tx_keeps _ (match ?x with _ => _ end) => destruct x
  | |- tx_keeps _ (_ ≫= _) => apply keeps_bind; [|intros]
  | |- tx_keeps _ _ => solve [eauto 3 with quota]
  end.

(** ** The frame of the job transactions *)
Definition job_frame (d : db) := (idempotency d, sources d, bundles d, callbacks d, reservations d).

Section Frame.
Context (json_policy : string → option TenantPolicy) (json_manifest : string → option Manifest)
        (json_payload : terminalWebhookPayload → string) (sql_policy_int : string → string → option Z).
Context (window : Z) (F : gmap (Z * string) idempotency_row * gmap Z source_row * gmap Z bundle_row *
                          gmap Z callback_row * gmap string reservation_row).

Let framed (d : db) : Prop := job_frame d = F.
Local Abbreviation keeps := (tx_keeps framed).

Lemma frame_reserve t aday limit amount : keeps (reserveDailyExecution t aday limit amount).
Proof.
  intros d decision d' HP. unfold reserveDailyExecution. cbv zeta.
  repeat (case_match; try done); by intros [= _ <-].
Qed.

Lemma frame_settle claim now cases full : keeps (settleAttemptReservation claim now cases full).
Proof.
  intros d c d' HP H. unfold settleAttemptReservation in H.
  by apply release_ok in H as (a & aday & row & _ & _ & _ & _ & _ & _ & _ & -> & ->).
Qed.

Lemma frame_release t j n now cases full : keeps (releaseAttemptReservation t j n now cases full).
Proof. intros d c d' HP H. by apply release_ok in H as (a & aday & row & _ & _ & _ & _ & _ & _ & _ & -> & ->). Qed.

Lemma frame_event now ids job : keeps (insertTerminalWebhookEvent json_payload window now ids job).
Proof.
  intros d x d' HP. unfold insertTerminalWebhookEvent. destruct (jobs d !! _) as [row|]; [|done].
  destruct (jb_Callback row) as [c|]; [|by intros [= _ <-]].
  induction (take 8 ids) as [|id l IH]; [done|]. cbn [insert_event_loop].
  destruct (EncodeTerminalWebhookEvent _ _ _); [|done]. destruct (outbox d !! _) as [o|].
  - destruct (EncodeTerminalWebhookEvent _ _ _); [|done]. destruct (_ || _); [done|]. by intros [= _ <-].
  - destruct (event_id_taken _ _); [done|]. by intros [= _ <-].
Qed.
#[local] Hint Resolve frame_reserve frame_settle frame_release frame_event : quota.
#[local] Hint Unfold framed : quota.

Lemma frame_expire t j n now : keeps (expireAttempt t j n now).
Proof. unfold expireAttempt. keeps_tx. Qed.

Lemma frame_finish claim status failure c now : keeps (finishAttempt claim status failure c now).
Proof. unfold finishAttempt. keeps_tx. Qed.

Lemma frame_fairness t now : keeps (advanceTenantFairness t now).
Proof. unfold advanceTenantFairness. keeps_tx. Qed.
#[local] Hint Resolve frame_expire frame_finish frame_fairness : quota.

Lemma frame_impossible t j st n now ids : keeps (failImpossibleDailyExecution json_payload window t j st n now ids).
Proof. unfold failImpossibleDailyExecution. keeps_tx. Qed.

Lemma frame_settle_expired j n now ids set : keeps (settle_expired json_payload window j n now ids set).
Proof. unfold settle_expired. keeps_tx. Qed.

Lemma frame_persist t j st n amount w tok lease now aday : keeps (persist_claim t j st n amount w tok lease now aday).
Proof. unfold persist_claim. keeps_tx. Qed.
#[local] Hint Resolve frame_impossible frame_settle_expired frame_persist : quota.

Lemma frame_claim_selected t policy j job reserved w tok lease now aday ids :
  keeps (claim_selected json_payload window t policy j job reserved w tok lease now aday ids).
Proof. unfold claim_selected, after_reservation. keeps_tx. Qed.

Lemma job_step_keeps d d' :
  framed d → job_step json_policy json_manifest json_payload sql_policy_int window d d' → framed d'.
Proof.
  intros HP. destruct 1 as [w lease env o d1 H|c lease now u d1 H|c res now ln ids u d1 H|
                            c f now ln ids disp d1 H|t e now ids job d1 H].
  - revert H. unfold claimOneWithClock.
    destruct (select_tenant _ _ _ _) as [[t tenant]|]; [|done]. destruct (_ && _); [done|].
    destruct (select_job _ _ _ _ _) as [[j r]|]; [|done]. destruct (claim_reservation _ _ _ _) as [reserved|]; [|done].
    destruct (running_quota_full _ _ _ _); [done|].
    destruct (claim_selected _ _ _ _ _ _ _ _ _ _ _ _ _ _) as [[o' d2]|] eqn:Hsel; [|done]. intros [= <- <-].
    by eapply frame_claim_selected in Hsel.
  - assert (Hk : keeps (HeartbeatTx c lease now)) by (unfold HeartbeatTx; keeps_tx). by eapply Hk.
  - assert (Hk : keeps (CompleteTx json_payload window c res now ln ids)) by (unfold CompleteTx; keeps_tx). by eapply Hk.
  - assert (Hk : keeps (FailInfrastructureTx json_policy json_payload window c f now ln ids)) by (unfold FailInfrastructureTx; keeps_tx). by eapply Hk.
  - assert (Hk : keeps (CancelTx json_payload window t e now ids)) by (unfold CancelTx; keeps_tx). by eapply Hk.
Qed.
End Frame.

Lemma job_step_frame json_policy json_manifest json_payload sql_policy_int window d d' :
  job_step json_policy json_manifest json_payload sql_policy_int window d d' → job_frame d' = job_frame d.
Proof. intros H. by eapply job_step_keeps in H. Qed.
