(* ===== verification/StoreProperties.v ===== *)
(** * What holds of every reachable state of the job store

    Conservation of the execution ledger, the running attempt of a running job,
    one event per terminal job, frozen terminal rows, fencing of superseded
    claims, and what becomes of a cancelled job. *)
From stdpp Require Import prelude gmap strings.
From S2P Require Import Prelude.
From S2P Require Import GoText.
From S2P Require Import JobState.
From S2P Require Import Manifest.
From S2P Require Import Store.
From S2P Require Import JobWorker.
From S2P Require Import JobRepository.
From S2P Require Import StoreInvariant.
From S2P Require Import StoreSteps.
From S2P Require Import StoreClaim.
From S2P Require Import StoreReach.

Open Scope Z_scope.

(** No retention in the steps considered here. *)
#[local] Existing Instance nothing_retired.

(** A database with its tenants, bundles and callbacks but no job yet. *)
Definition no_jobs_yet (d : db) : Prop := jobs d = ∅ ∧ attempts d = ∅ ∧ daily d = ∅ ∧ outbox d = ∅.

Lemma no_jobs_ok d : no_jobs_yet d → store_ok d ∧ unique_ids d.
Proof.
  intros (Hj & Ha & Hd & Ho). split.
  - unfold store_ok. rewrite Hj, Ha, Hd, Ho. split; try (intros *; rewrite lookup_empty; done); try done.
  - intros j1 j2 r1 r2. by rewrite Hj, lookup_empty.
Qed.

(** What a running attempt reserves of a ledger row, and what its attempts consumed. *)
Definition reserved_by_running (d : db) (k : Z * Z) : Z :=
  sumZ (λ p : (Z * Z) * attempt_row,
          if decide (at_Status p.2 = AttemptRunning ∧ attempt_key p.2 = Some k) then at_Reserved p.2 else 0)
    (map_to_list (attempts d)).

Definition consumed_by_attempts (d : db) (k : Z * Z) : Z :=
  sumZ (λ p : (Z * Z) * attempt_row, if decide (attempt_key p.2 = Some k) then at_Consumed p.2 else 0)
    (map_to_list (attempts d)).

Lemma ledger_sums `{R : Retired} d k :
  store_ok d → dl_Reserved (ledger_row (daily d) k) = reserved_by_running d k ∧
               dl_Consumed (ledger_row (daily d) k) = consumed_by_attempts d k + archived k.
Proof.
  intros Hok. destruct (tk_ledger _ _ _ _ _ _ _ Hok k) as [Hr Hc]. split; [|exact Hc].
  rewrite Hr. unfold none_pending, att_sum, reserved_by_running. rewrite Z.add_0_r.
  apply sumZ_ext, Forall_forall. intros [[j n] a] Ha. apply elem_of_map_to_list in Ha. unfold att_share. simpl.
  pose proof (tk_attempts _ _ _ _ _ _ _ Hok _ _ _ Ha) as [_ [_ Hamt]].
  destruct (decide (at_Status a = AttemptRunning)) as [Hs|Hs].
  - destruct (decide (attempt_key a = Some k)); [by rewrite decide_True|by rewrite decide_False by tauto].
  - destruct Hamt as [Hz _]. rewrite (decide_False (P := _ ∧ _)) by tauto. rewrite Hz. by destruct (decide _).
Qed.

Section Properties.
Context (json_policy : string → option TenantPolicy) (json_manifest : string → option Manifest)
        (json_payload : terminalWebhookPayload → string) (sql_policy_int : string → string → option Z).
Context (window : Z).

Local Abbreviation step := (store_step json_policy json_manifest json_payload sql_policy_int window).

Lemma steps_ok d d' :
  store_ok d → unique_ids d → rtc step d d' → store_ok d' ∧ unique_ids d' ∧ tenants_kept d d'.
Proof.
  intros Hok Hu Hs. induction Hs as [|d1 d2 d3 Hs Hss IH]; [done|].
  eapply store_step_ok in Hs as (? & ? & ? & _); [|done..]. destruct IH as (? & ? & ?); [done..|].
  split_and!; [done..|]. by eapply tenants_kept_trans.
Qed.

Lemma reachable_ok d0 d : no_jobs_yet d0 → rtc step d0 d → store_ok d ∧ unique_ids d.
Proof. intros [Hok Hu]%no_jobs_ok Hs. destruct (steps_ok _ _ Hok Hu Hs) as (? & ? & _). done. Qed.

(** Induction along the steps for a property of one row. *)
Lemma steps_row (P : job_row → Prop) d d' j r :
  store_ok d → unique_ids d → rtc step d d' →
  (∀ r1 r2, job_row_wf r1 → P r1 → row_change r1 r2 → P r2) → (∀ r1 r2, job_sim r1 r2 → P r1 → P r2) →
  jobs d !! j = Some r → P r → ∃ r', jobs d' !! j = Some r' ∧ P r'.
Proof.
  intros Hok Hu Hs Hch Hsim. revert r. induction Hs as [|d1 d2 d3 Hs Hss IH]; intros r Hr HP; [eauto|].
  eapply store_step_ok in Hs as (Hok2 & Hu2 & _ & Hev); [|done..].
  destruct (Hev j r Hr) as (r1 & r2 & Hr2 & Hc & Hs12).
  apply (IH Hok2 Hu2 r2 Hr2). eapply Hsim; [exact Hs12|]. eapply Hch; [|exact HP|exact Hc].
  exact (job_wf _ _ _ Hok Hr).
Qed.

(** The ledger of execution time is conserved. In every reachable state
    what a tenant has reserved for a day is the sum of the reservations of its
    running attempts, and what it has consumed is the sum of what its attempts
    consumed: no operation leaks or double-counts a reservation. *)
Lemma execution_ledger_conserved d0 d t aday :
  no_jobs_yet d0 → rtc step d0 d →
  dl_Reserved (ledger_row (daily d) (t, aday)) = reserved_by_running d (t, aday) ∧
  dl_Consumed (ledger_row (daily d) (t, aday)) = consumed_by_attempts d (t, aday).
Proof.
  intros H0 Hs. destruct (ledger_sums d (t, aday) (proj1 (reachable_ok d0 d H0 Hs))) as [Hr Hc].
  split; [exact Hr|]. by rewrite Hc, Z.add_0_r.
Qed.

(** In every reachable state a job is running exactly when it has a running
    attempt, which is the one numbered [attempt_no], and the two rows name the
    same worker and lease token. *)
Lemma running_job_has_its_attempt d0 d j :
  no_jobs_yet d0 → rtc step d0 d →
  (∀ r, jobs d !! j = Some r → jb_Status r = JobStatusRunning →
     ∃ a, attempts d !! (j, jb_AttemptNo r) = Some a ∧ at_Status a = AttemptRunning ∧
          jb_WorkerID r = Some (at_WorkerID a) ∧ jb_LeaseToken r = at_LeaseToken a) ∧
  (∀ n a, attempts d !! (j, n) = Some a → at_Status a = AttemptRunning →
     ∃ r, jobs d !! j = Some r ∧ jb_Status r = JobStatusRunning ∧ jb_AttemptNo r = n).
Proof.
  intros H0 Hs. destruct (reachable_ok _ _ H0 Hs) as [Hok _]. split.
  - intros r Hr Hst. destruct (running_attempt _ _ _ Hok Hr Hst) as (a & Ha & Hrun).
    destruct (tk_attempts _ _ _ _ _ _ _ Hok _ _ _ Ha) as [(r' & Hr' & _ & _ & Hm) _].
    rewrite Hr in Hr'. injection Hr' as <-. destruct (Hm Hrun) as (_ & _ & ? & ?). eauto.
  - intros n a Ha Hrun. destruct (tk_attempts _ _ _ _ _ _ _ Hok _ _ _ Ha) as [(r & Hr & _ & _ & Hm) _].
    destruct (Hm Hrun) as (? & ? & _). eauto.
Qed.

(** C13: in every reachable state a job has a webhook event in the outbox
    exactly when it is terminal and was submitted with a callback; the outbox is
    keyed by job, so there is one event per such job. *)
Theorem terminal_jobs_have_one_event d0 d j :
  no_jobs_yet d0 → rtc step d0 d →
  is_Some (outbox d !! j) ↔
  ∃ r, jobs d !! j = Some r ∧ terminal (jb_Status r) = true ∧ is_Some (jb_Callback r).
Proof.
  intros H0 Hs. destruct (reachable_ok _ _ H0 Hs) as [Hok _]. split.
  - intros [row Hrow]. destruct (tk_outbox _ _ _ _ _ _ _ Hok _ _ Hrow) as (r & ? & ? & ? & _). eauto.
  - intros (r & Hr & Ht & Hc). by eapply (tk_events _ _ _ _ _ _ _ Hok); [..|intros []].
Qed.

(** Every row of a reachable state has the shape its status demands: a
    queued job holds no lease and no outcome, a running job a complete lease, a
    succeeded job a result that passes validation, a failed job a failure code,
    a cancelled job its cancellation request. *)
Lemma reachable_rows_well_formed d0 d j r :
  no_jobs_yet d0 → rtc step d0 d → jobs d !! j = Some r → job_row_wf r.
Proof. intros H0 Hs Hr. destruct (reachable_ok _ _ H0 Hs) as [Hok _]. exact (job_wf _ _ _ Hok Hr). Qed.

Lemma terminal_change r r' : terminal (jb_Status r) = true → row_change r r' → r' = r.
Proof.
  intros Ht Hc. destruct Hc; try done;
    repeat match goal with
    | H : _ ∨ _ |- _ => destruct H
    | H : _ ∧ _ |- _ => destruct H
    | H : jb_Status _ = _ |- _ => rewrite H in Ht; done
    end.
Qed.

(** A terminal job is never written again, whatever is submitted, claimed,
    settled or cancelled: its row keeps every column ([next_attempt_at] apart,
    which means nothing for it). *)
Lemma terminal_rows_frozen d d' j r :
  store_ok d → unique_ids d → rtc step d d' → jobs d !! j = Some r → terminal (jb_Status r) = true →
  ∃ r', jobs d' !! j = Some r' ∧ job_sim r r'.
Proof.
  intros Hok Hu Hs Hr Ht. eapply (steps_row (λ r', job_sim r r')); [done..| | |exact Hr|done].
  - intros r1 r2 _ H1 Hc. apply terminal_change in Hc as ->; [done|].
    apply job_sim_fields in H1 as (_ & _ & -> & _). done.
  - intros r1 r2 H12 H1. by transitivity r1.
Qed.

Lemma attempt_change r r' : row_change r r' → jb_AttemptNo r ≤ jb_AttemptNo r'.
Proof. intros []; simpl; lia. Qed.

Lemma attempts_grow d d' j r :
  store_ok d → unique_ids d → rtc step d d' → jobs d !! j = Some r →
  ∃ r', jobs d' !! j = Some r' ∧ jb_AttemptNo r ≤ jb_AttemptNo r'.
Proof.
  intros Hok Hu Hs Hr. eapply (steps_row (λ r', jb_AttemptNo r ≤ jb_AttemptNo r')); [done..| | |exact Hr|done].
  - intros r1 r2 _ H1 Hc%attempt_change. lia.
  - intros r1 r2 (_ & _ & _ & Hn & _)%job_sim_fields H1. lia.
Qed.

Definition rejected {A} (r : result external_error A) : Prop := ∃ e, r = Err e.

Lemma not_owner_rejected claim d r :
  jobs d !! ej_InternalID (wc_Job claim) = Some r → owns_job claim r = false →
  (∀ lease now, HeartbeatTx claim lease now d = Err ErrStaleJobClaim) ∧
  (∀ now, ClaimCancelled claim now d = Err ErrStaleJobClaim) ∧
  (∀ res now lockNow ids, rejected (CompleteTx json_payload window claim res now lockNow ids d)) ∧
  (∀ failure now lockNow ids,
     rejected (FailInfrastructureTx json_policy json_payload window claim failure now lockNow ids d)).
Proof.
  intros Hr Ho.
  assert (Hlock : ∀ now, ∃ e, lockActiveClaimAndPolicy claim now d = Err e).
  { intros now. unfold lockActiveClaimAndPolicy. rewrite Hr, Ho. destruct (tenants d !! _); simpl; eauto. }
  split_and!.
  - intros lease now. unfold HeartbeatTx, mbind, tx_bind, tx_guard, tx_fail, update_job.
    destruct (_ && _); [|done]. simpl. by rewrite Hr, Ho.
  - intros now. unfold ClaimCancelled. destruct (negb _); [done|]. by rewrite Hr, Ho.
  - intros res now lockNow ids. unfold CompleteTx, rejected, mbind, tx_bind, tx_guard, tx_fail.
    destruct (_ && _); simpl; [|eauto]. destruct (Hlock lockNow) as [e ->]. eauto.
  - intros failure now lockNow ids. unfold FailInfrastructureTx, rejected, mbind, tx_bind, tx_guard, tx_fail.
    destruct (_ && _); simpl; [|eauto]. destruct (Hlock lockNow) as [e ->]. eauto.
Qed.

Lemma newer_attempt_not_owner claim r : wc_AttemptNo claim < jb_AttemptNo r → owns_job claim r = false.
Proof.
  intros Hlt. destruct (owns_job claim r) eqn:Ho; [|done]. apply owns_job_true in Ho as (_ & Hn & _). lia.
Qed.

(** C7: fencing. Once a job has been claimed again, the superseded claim can
    never act on it: in every later state its heartbeats and cancellation
    probes report a stale claim and its settlements are refused. *)
Theorem superseded_claim_fenced d d' claim r :
  store_ok d → unique_ids d → rtc step d d' →
  jobs d !! ej_InternalID (wc_Job claim) = Some r → wc_AttemptNo claim < jb_AttemptNo r →
  (∀ lease now, HeartbeatTx claim lease now d' = Err ErrStaleJobClaim) ∧
  (∀ now, ClaimCancelled claim now d' = Err ErrStaleJobClaim) ∧
  (∀ res now lockNow ids, rejected (CompleteTx json_payload window claim res now lockNow ids d')) ∧
  (∀ failure now lockNow ids,
     rejected (FailInfrastructureTx json_policy json_payload window claim failure now lockNow ids d')).
Proof.
  intros Hok Hu Hs Hr Hlt. destruct (attempts_grow _ _ _ _ Hok Hu Hs Hr) as (r' & Hr' & Hle).
  eapply not_owner_rejected; [exact Hr'|]. apply newer_attempt_not_owner. lia.
Qed.

(** A running job whose cancellation was requested, and what may become of it. *)
Definition cancelling (n : Z) (r : job_row) : Prop :=
  is_Some (jb_CancelRequestedAt r) ∧ jb_Result r = None ∧ jb_AttemptNo r = n ∧
  (jb_Status r = JobStatusRunning ∨ jb_Status r = JobStatusCancelled ∨
   (jb_Status r = JobStatusFailed ∧ jb_FailureCode r = Some "TENANT_DISABLED")).

Lemma cancelling_change n r r' : job_row_wf r → cancelling n r → row_change r r' → cancelling n r'.
Proof.
  unfold cancelling. intros [_ Hwf] ((t & Hc) & Hres & Hn & Hs) Hch.
  assert (Hq : jb_Status r ≠ JobStatusQueued) by (intros E; rewrite E in Hs; naive_solver).
  destruct Hch as [r|r n' w tok u now [?|[Hs' Hc']] ?|r u Hs'|r now Hs' Hc'|r now Hs'|r res now Hs' Hc'|r nx now Hs'|
                   r nx code now Hs' Hcode|r nx Hs' Hc']; simpl; try congruence; split_and?; eauto.
  right. right. split; [done|]. f_equal. apply Hcode. eauto.
Qed.

(** C14: a cancellation is never lost. A running job whose cancellation was
    requested is never claimed again, never requeued and never succeeds: it
    stays running under the same attempt, is cancelled, or fails because its
    tenant was disabled. *)
Theorem cancellation_is_final d d' j r :
  store_ok d → unique_ids d → rtc step d d' →
  jobs d !! j = Some r → jb_Status r = JobStatusRunning → is_Some (jb_CancelRequestedAt r) →
  ∃ r', jobs d' !! j = Some r' ∧ cancelling (jb_AttemptNo r) r'.
Proof.
  intros Hok Hu Hs Hr Hst Hc. eapply steps_row; [done..|apply cancelling_change| |exact Hr|].
  - intros r1 r2 Hsim Hr1. apply job_sim_fields in Hsim. unfold cancelling in *. destruct_and!.
    split_and!; congruence || (repeat match goal with H : _ r2 = _ r1 |- _ => rewrite H; clear H end; done).
  - destruct (running_result _ _ _ Hok Hr Hst) as (? & _). unfold cancelling. auto.
Qed.
End Properties.
