(* ===== verification/Idempotency.v ===== *)
(** * An idempotency key creates at most one job

    The effect of [Submit]'s transaction on every table, and what a repeated
    submission finds: as long as the record of its key has not expired, the job
    of the first one, whatever happened to it in between. *)
From stdpp Require Import prelude gmap strings.
From S2P Require Import Prelude.
From S2P Require Import GoText.
From S2P Require Import JobState.
From S2P Require Import Manifest.
From S2P Require Import Store.
From S2P Require Import JobWorker.
From S2P Require Import JobRepository.
From S2P Require Import StoreInvariant.
From S2P Require Import StoreSteps.
From S2P Require Import StoreClaim.
From S2P Require Import StoreReach.
From S2P Require Import StoreFrame.
From S2P Require Import StoreProperties.

Open Scope Z_scope.

(** The unique key on the external ids of tenants. *)
Definition unique_tenants (d : db) : Prop :=
  ∀ t1 t2 r1 r2, tenants d !! t1 = Some r1 → tenants d !! t2 = Some r2 → tn_ExternalID r1 = tn_ExternalID r2 → t1 = t2.

Lemma unique_tenants_kept d d' : tenants_kept d d' → unique_tenants d → unique_tenants d'.
Proof.
  intros Hk Hu t1 t2 r1 r2 H1 H2 He. pose proof (Hk t1) as K1. pose proof (Hk t2) as K2. rewrite H1 in K1. rewrite H2 in K2.
  destruct (tenants d !! t1) as [s1|] eqn:E1; [|done]. destruct (tenants d !! t2) as [s2|] eqn:E2; [|done].
  simpl in *. injection K1 as K1 _ _. injection K2 as K2 _ _. eapply Hu; eauto. congruence.
Qed.

Lemma find_tenant_unique d t ext row :
  unique_tenants d → tenants d !! t = Some row → tn_ExternalID row = ext → find_tenant d ext = Some (t, row).
Proof.
  intros Hu Ht He. unfold find_tenant. destruct (list_find _ _) as [[i [t' row']]|] eqn:Hf.
  - apply list_find_Some in Hf as (Hi & Hext & _). apply list_elem_of_lookup_2, elem_of_map_to_list in Hi.
    simpl in *. assert (t' = t) as -> by (eapply Hu; eauto; congruence). congruence.
  - apply list_find_None in Hf. rewrite Forall_forall in Hf. exfalso.
    apply (Hf (t, row)); [by apply elem_of_map_to_list|done].
Qed.

(** ** The effect of a submission *)
Section Effect.
Context (json_policy : string → option TenantPolicy).

(** The fields of [lockTenantPolicy]'s answer. *)
Lemma lockTenantPolicy_ok ext d t policy d' :
  lockTenantPolicy json_policy ext d = Ok ((t, policy), d') →
  d' = d ∧ ∃ tenant, tenants d !! t = Some tenant ∧ tn_ExternalID tenant = ext.
Proof.
  unfold lockTenantPolicy, find_tenant. destruct (list_find _ _) as [[i [t' tenant]]|] eqn:Hf; [|done]. simpl.
  destruct (negb _); [done|]. destruct (decodeTenantPolicy _ _); [|done]. intros [= <- <- <-].
  apply list_find_Some in Hf as (Hi & Hext & _). apply list_elem_of_lookup_2, elem_of_map_to_list in Hi. eauto.
Qed.

Lemma source_key_free_spec d row :
  source_key_free d row = true → ∀ id r, sources d !! id = Some r → sr_ObjectKey r ≠ sr_ObjectKey row.
Proof.
  unfold source_key_free. rewrite forallb_forall. intros H id r Hr He.
  specialize (H (id, r)). rewrite (bool_decide_eq_true_2 (sr_ObjectKey _ = _)), andb_false_r in H by done.
  by discriminate H; apply list_elem_of_In, elem_of_map_to_list.
Qed.

Lemma SubmitTx_effect s sourceID jobID lockNow now ttl d outcome d' :
  SubmitTx json_policy s sourceID jobID lockNow now ttl d = Ok (outcome, d') →
  ∃ t policy, lockTenantPolicy json_policy (su_Tenant s) d = Ok ((t, policy), d) ∧
  match outcome with
  | ReplayedJob job =>
      d' = d ∧ ∃ record, idempotency d !! (t, su_KeyDigest s) = Some record ∧ now < ik_ExpiresAt record ∧
        ik_RequestHash record = su_RequestHash s
  | SubmittedJob job =>
      (∀ record, idempotency d !! (t, su_KeyDigest s) = Some record → ik_ExpiresAt record ≤ now) ∧
      sources d !! sourceID = None ∧ jobs d !! jobID = None ∧
      tenants d' = tenants d ∧ bundles d' = bundles d ∧ callbacks d' = callbacks d ∧
      sources d' = <[sourceID := source_of_submission t s]> (sources d) ∧
      (∃ b c, jobs d' = <[jobID := queued_job t b sourceID c s now]> (jobs d)) ∧
      idempotency d' = <[(t, su_KeyDigest s) := mkIdempotencyRow (su_RequestHash s) (su_JobExternalID s) (now + ttl)]>
                         (idempotency d) ∧
      getExternalJob d' (su_Tenant s) (su_JobExternalID s) = Ok job ∧
      (∀ id row, sources d !! id = Some row → sr_ObjectKey row ≠ rc_ObjectKey (su_Source s))
  end.
Proof.
  intros H. unfold SubmitTx in H. inv_tx.
  match goal with v : (Z * TenantPolicy)%type |- _ => destruct v as [t policy] end.
  match goal with Hl : lockSubmissionReservations _ _ _ _ = _ |- _ =>
    apply lockSubmissionReservations_ok in Hl as (-> & _) end.
  match goal with Hl : lockTenantPolicy _ _ _ = _ |- _ =>
    pose proof Hl as Hlock; apply lockTenantPolicy_ok in Hl as (-> & _) end.
  exists t, policy. split; [done|]. inv_tx.
  set (d1 := match idempotency d !! (t, su_KeyDigest s) with Some _ => _ | None => d end) in *.
  destruct (idempotency d1 !! _) as [record|] eqn:Hrec.
  - destruct (negb _) eqn:Hh; [done|]. inv_tx. unfold roll_back in H. injection H as <- <-. bool_to_prop.
    split; [done|]. exists record. subst d1. destruct (idempotency d !! _) as [r0|] eqn:E0; [|congruence].
    destruct (ik_ExpiresAt r0 <=? now) eqn:Hle; [simpl in Hrec; by rewrite lookup_delete_eq in Hrec|]. bool_to_prop.
    rewrite E0 in Hrec. injection Hrec as <-. done.
  - assert (Hd1 : jobs d1 = jobs d ∧ tenants d1 = tenants d ∧ bundles d1 = bundles d ∧ callbacks d1 = callbacks d ∧
                  sources d1 = sources d ∧ ∀ v, <[(t, su_KeyDigest s) := v]> (idempotency d1)
                                              = <[(t, su_KeyDigest s) := v]> (idempotency d)).
    { subst d1. destruct (idempotency d !! _) as [r0|]; [|done]. destruct (_ <=? _); [|done].
      split_and!; try done. intros v. simpl. by rewrite insert_delete_eq. }
    assert (Hexp : ∀ record, idempotency d !! (t, su_KeyDigest s) = Some record → ik_ExpiresAt record ≤ now).
    { intros record Hr. subst d1. rewrite Hr in Hrec. destruct (_ <=? _) eqn:Hle in Hrec; [by bool_to_prop|congruence]. }
    clearbody d1. destruct Hd1 as (Hj1 & Ht1 & Hb1 & Hc1 & Hs1 & Hi1).
    inv_tx. unfold persist_submission in *. inv_tx.
    destruct (find_bundle _ _ _) as [b|]; [|done]. destruct (if bool_decide _ then _ else _) as [c|]; [|done]. inv_tx.
    unfold insert_source, insert_job, delete_reservations in *.
    repeat match goal with Hi' : (if ?b then Err _ else Ok _) = Ok _ |- _ => destruct b eqn:?; [done|injection Hi' as <-] end.
    match goal with Hd' : Ok _ = Ok _ |- _ => injection Hd' as <- <- end.
    match goal with Hr : read_job _ _ _ _ = _ |- _ => unfold read_job in Hr;
      destruct (getExternalJob _ _ _) as [job'|[]] eqn:Hget in Hr; try done; injection Hr as <- <- end.
    bool_to_prop. simpl in *. rewrite ?Hj1, ?Hs1 in *.
    destruct (sources d !! sourceID); [done|]. destruct (jobs d !! jobID); [done|].
    match goal with Hf : source_key_free _ _ = true |- _ => pose proof (source_key_free_spec _ _ Hf) as Hfree end.
    rewrite Hs1 in Hfree. split_and!; eauto.
Qed.
End Effect.

(** ** The job of a key *)

(** What stays of a job row whatever happens to the job. *)
Definition same_job (r r' : job_row) : Prop :=
  jb_ExternalID r' = jb_ExternalID r ∧ jb_Tenant r' = jb_Tenant r ∧ jb_Bundle r' = jb_Bundle r ∧ jb_Source r' = jb_Source r.

Lemma row_change_same r r' : row_change r r' → same_job r r'.
Proof. by intros []. Qed.

Lemma job_sim_same r r' : job_sim r r' → same_job r r'.
Proof. intros H%job_sim_fields. destruct_and!. done. Qed.

#[local] Instance same_job_trans : Transitive same_job.
Proof. intros r1 r2 r3. unfold same_job. naive_solver congruence. Qed.

Section Keys.
Context `{R : Retired}.
Context (json_policy : string → option TenantPolicy) (json_manifest : string → option Manifest)
        (json_payload : terminalWebhookPayload → string) (sql_policy_int : string → string → option Z).
Context (window : Z).

Local Abbreviation step := (store_step json_policy json_manifest json_payload sql_policy_int window).

(** A step of the store before [expires]: no submission of the key by then. *)
Inductive step_before (tenantID keyDigest : string) (expires : Z) (d : db) : db → Prop :=
| before_submit s sourceID jobID lockNow now ttl outcome d' :
    SubmitTx json_policy s sourceID jobID lockNow now ttl d = Ok (outcome, d') →
    (su_Tenant s = tenantID → su_KeyDigest s = keyDigest → now < expires) →
    step_before tenantID keyDigest expires d d'
| before_job d' : job_step json_policy json_manifest json_payload sql_policy_int window d d' →
    step_before tenantID keyDigest expires d d'.

Lemma step_before_step tenantID keyDigest expires d d' : step_before tenantID keyDigest expires d d' → step d d'.
Proof. destruct 1; [by eapply step_submit|by apply step_job]. Qed.

(** The record of a key and the job it names. *)
Record key_taken (tenantID : string) (t : Z) (keyDigest : string) (record : idempotency_row) (j : Z) (d : db) : Prop := {
  kt_record : idempotency d !! (t, keyDigest) = Some record;
  kt_tenant : ∃ tenant, tenants d !! t = Some tenant ∧ tn_ExternalID tenant = tenantID;
  kt_job : ∃ r bundle source, jobs d !! j = Some r ∧ jb_ExternalID r = ik_ResourceExternalID record ∧
    jb_Tenant r = t ∧ bundles d !! jb_Bundle r = Some bundle ∧ bn_Tenant bundle = t ∧
    sources d !! jb_Source r = Some source ∧ sr_Tenant source = t ∧ sr_KeyVersion source ≠ 0 ∧ sr_KeyVersion source ≤ 65535
}.

(** A job a key names can be read. *)
Lemma key_taken_read tenantID t k record j d :
  store_ok d → unique_ids d → key_taken tenantID t k record j d →
  ∃ job, getExternalJob d tenantID (ik_ResourceExternalID record) = Ok job ∧ ej_InternalID job = j ∧
    ej_ExternalID job = ik_ResourceExternalID record.
Proof.
  intros Hok Hu [_ (tenant & Ht & He) (r & b & sr & Hr & Hext & Htn & Hb & Hbt & Hs & Hst & Hv & Hv2)].
  assert (Hf : find_job d tenantID (ik_ResourceExternalID record) = Some j).
  { apply find_job_iff; [done|]. exists r. rewrite Htn, Ht. simpl. by rewrite He. }
  unfold getExternalJob. rewrite Hf. unfold scanExternalJob. rewrite Hr, Htn, Ht, Hb, Hs, Hbt, Hst, Z.eqb_refl. cbn [orb negb].
  rewrite (proj2 (Z.eqb_neq _ _)), (proj2 (Z.ltb_ge _ _)) by lia. cbn [orb].
  destruct (job_wf _ _ _ Hok Hr) as [_ Hwf].
  assert (Hres : ∀ res, jb_Result r = Some res → validateDurableJobResult res = true).
  { intros res Hres. destruct (jb_Status r); destruct_and?; try congruence; [|done].
    match goal with H : ∃ _, _ |- _ => destruct H as (? & ? & ?) end. congruence. }
  destruct (jb_Result r) as [res|]; [rewrite (Hres res eq_refl)|]; simpl; eauto.
Qed.

Lemma key_taken_before tenantID t k record j d d' :
  store_ok d → unique_ids d → unique_tenants d → key_taken tenantID t k record j d →
  step_before tenantID k (ik_ExpiresAt record) d d' → key_taken tenantID t k record j d'.
Proof.
  intros Hok Hu Hut [Hrec (tenant & Ht & He) (r & b & sr & Hr & Hext & Htn & Hb & Hbt & Hs & Hst & Hv & Hv2)] Hstep.
  pose proof (store_step_ok _ _ _ _ _ _ _ Hok Hu (step_before_step _ _ _ _ _ Hstep)) as (_ & _ & Hk & Hev).
  assert (Hten : ∃ tenant, tenants d' !! t = Some tenant ∧ tn_ExternalID tenant = tenantID).
  { specialize (Hk t). rewrite Ht in Hk. destruct (tenants d' !! t) as [tn|]; [|done]. injection Hk as Hk _ _. exists tn. split; [done|congruence]. }
  destruct (Hev j r Hr) as (r1 & r' & Hr' & Hc%row_change_same & Hs'%job_sim_same).
  assert (Hsame : same_job r r') by (by transitivity r1). destruct Hsame as (E1 & E2 & E3 & E4).
  cut (idempotency d' !! (t, k) = Some record ∧ bundles d' = bundles d ∧ sources d ⊆ sources d').
  { intros (Hi & Hb' & Hs2). split; [done|done|]. exists r', b, sr. rewrite E1, E2, E3, E4, Hb'.
    split_and!; try done; try lia. by eapply lookup_weaken. }
  destruct Hstep as [s src jb ln now ttl o d' H Hbefore|d' H].
  - apply SubmitTx_effect in H as (t' & policy & Hlock & H). apply lockTenantPolicy_ok in Hlock as (_ & tn' & Ht' & He').
    destruct o as [job|job]; [|by destruct H as (-> & _)].
    destruct H as (Hexp & Hsn & _ & _ & Hb' & _ & Hs2 & _ & Hi & _). split_and!; [|done|rewrite Hs2; by apply insert_subseteq].
    rewrite Hi, lookup_insert_ne; [done|]. intros [= Et Ek]. subst t'. rewrite Ek in Hexp. specialize (Hexp _ Hrec).
    rewrite Ht in Ht'. injection Ht' as <-. specialize (Hbefore ltac:(congruence) Ek). lia.
  - apply job_step_frame in H. unfold job_frame in H. injection H as Hi Hs2 Hb' _ _. rewrite Hi, Hs2. done.
Qed.

Lemma lock_reservations_error a b now d e : lockSubmissionReservations a b now d = Err e → e = ErrExternalJobUnavailable.
Proof.
  assert (Hone : ∀ c d e, lock_reservation c now d = Err e → e = ErrExternalJobUnavailable).
  { intros c d0 e0. unfold lock_reservation. repeat case_match; congruence. }
  unfold lockSubmissionReservations. destruct (String.ltb _ _); unfold mbind, tx_bind;
    destruct (lock_reservation _ _ _) as [[u d']|e'] eqn:E; try (by apply Hone); intros [= <-]; by eapply Hone.
Qed.

Lemma lock_tenant_error ext d e : lockTenantPolicy json_policy ext d = Err e → e = ErrExternalJobUnavailable.
Proof. unfold lockTenantPolicy. repeat case_match; congruence. Qed.

(** A submission under a key that is taken. *)
Lemma submit_taken tenantID t k record j s sourceID jobID lockNow now ttl d :
  store_ok d → unique_ids d → unique_tenants d → key_taken tenantID t k record j d →
  su_Tenant s = tenantID → su_KeyDigest s = k → now < ik_ExpiresAt record →
  match lockSubmissionReservations (su_Coordination s) (su_Source s) lockNow d, lockTenantPolicy json_policy tenantID d with
  | Ok _, Ok _ =>
      if decide (su_RequestHash s = ik_RequestHash record)
      then ∃ job, SubmitTx json_policy s sourceID jobID lockNow now ttl d = Ok (ReplayedJob job, d) ∧
             ej_InternalID job = j ∧ ej_ExternalID job = ik_ResourceExternalID record
      else SubmitTx json_policy s sourceID jobID lockNow now ttl d = Err ErrExternalJobConflict
  | _, _ => SubmitTx json_policy s sourceID jobID lockNow now ttl d = Err ErrExternalJobUnavailable
  end.
Proof.
  intros Hok Hu Hut Hk <- <- Hnow. pose proof (kt_record _ _ _ _ _ _ Hk) as Hrec.
  unfold SubmitTx, tx_get, mbind, tx_bind.
  destruct (lockSubmissionReservations _ _ _ _) as [[u d1]|e] eqn:Hl; [|by rewrite (lock_reservations_error _ _ _ _ _ Hl)].
  apply lockSubmissionReservations_ok in Hl as (-> & _).
  destruct (lockTenantPolicy _ _ _) as [[[t' policy] d1]|e] eqn:Ht; [|by rewrite (lock_tenant_error _ _ _ Ht)].
  apply lockTenantPolicy_ok in Ht as (-> & tn & Htn & He).
  destruct (kt_tenant _ _ _ _ _ _ Hk) as (tn' & Htn' & He').
  assert (t' = t) as -> by (eapply Hut; eauto; congruence).
  unfold tx_modify. rewrite Hrec, (proj2 (Z.leb_gt _ _)) by lia. cbv beta. rewrite Hrec.
  case_decide as Hh.
  - rewrite bool_decide_eq_true_2 by done. cbn [negb].
    destruct (key_taken_read _ _ _ _ _ _ Hok Hu Hk) as (job & Hget & Hid & Hext). exists job. split; [|done].
    unfold read_job. by rewrite Hget.
  - rewrite bool_decide_eq_false_2 by congruence. done.
Qed.

(** The submission that creates a job takes its key. *)
Lemma submit_takes_key s sourceID jobID lockNow now ttl d job d1 :
  unique_ids d1 → SubmitTx json_policy s sourceID jobID lockNow now ttl d = Ok (SubmittedJob job, d1) →
  ej_ExternalID job = su_JobExternalID s ∧
  ∃ t, key_taken (su_Tenant s) t (su_KeyDigest s)
         (mkIdempotencyRow (su_RequestHash s) (su_JobExternalID s) (now + ttl)) jobID d1.
Proof.
  intros Hu1 Hsub.
  apply SubmitTx_effect in Hsub as (t & policy & Hlock & _ & _ & _ & Htn & _ & _ & Hsrc & (b & c & Hj) & Hi & Hget & _).
  apply lockTenantPolicy_ok in Hlock as (_ & tn & Ht & He).
  unfold getExternalJob in Hget. destruct (find_job _ _ _) as [id|] eqn:Hf; [|done].
  apply find_job_iff in Hf as (r & Hr & Hre & _); [|done].
  assert (id = jobID) as -> by (eapply Hu1; [exact Hr|rewrite Hj; apply lookup_insert_eq|done]).
  rewrite Hj, lookup_insert_eq in Hr. injection Hr as <-. unfold scanExternalJob in Hget.
  rewrite Hj, lookup_insert_eq in Hget. simpl in Hget. rewrite Htn, Ht, Hsrc, lookup_insert_eq in Hget.
  destruct (bundles d1 !! b) as [bundle|] eqn:Hb; [|done]. destruct (_ || _) eqn:E1 in Hget; [done|].
  destruct (_ || _) eqn:E2 in Hget; [done|]. injection Hget as <-. bool_to_prop. split; [done|]. exists t. split.
  - by rewrite Hi, lookup_insert_eq.
  - rewrite Htn. eauto.
  - eexists _, bundle, _. rewrite Hj, Hsrc, lookup_insert_eq. split; [done|]. simpl. rewrite lookup_insert_eq. done.
Qed.

(** A key stays taken until it expires. *)
Lemma key_taken_run tenantID t k record j d d' :
  store_ok d → unique_ids d → unique_tenants d → key_taken tenantID t k record j d →
  rtc (step_before tenantID k (ik_ExpiresAt record)) d d' →
  store_ok d' ∧ unique_ids d' ∧ unique_tenants d' ∧ key_taken tenantID t k record j d'.
Proof.
  intros Hok Hu Hut Htaken Hrun. induction Hrun as [|d1 d2 d3 Hstep _ IH]; [done|].
  pose proof (store_step_ok _ _ _ _ _ _ _ Hok Hu (step_before_step _ _ _ _ _ Hstep)) as (? & ? & Hk & _).
  apply IH; [done|done|exact (unique_tenants_kept _ _ Hk Hut)|].
  eapply key_taken_before; [exact Hok|exact Hu|exact Hut|exact Htaken|exact Hstep].
Qed.

End Keys.

(** No retention in the steps considered here. *)
#[local] Existing Instance nothing_retired.

(** C10: An idempotency key creates at most one job until it expires. After a
    submission created a job, and whatever workers, cancellations and other
    submissions do since, a later submission of the same tenant with the same
    key creates nothing: when it holds its reservations and the tenant is active
    with a readable policy, it returns that very job and changes no table if the
    request is the same, and it fails with [ErrExternalJobConflict] if the request
    differs; otherwise it fails as unavailable. *)
Theorem idempotency_key_creates_one_job json_policy json_manifest json_payload sql_policy_int window d0 d s sourceID jobID lockNow now ttl job d1 d2
    s' sourceID' jobID' lockNow' now' ttl' :
  no_jobs_yet d0 → unique_tenants d0 → rtc (store_step json_policy json_manifest json_payload sql_policy_int window) d0 d →
  SubmitTx json_policy s sourceID jobID lockNow now ttl d = Ok (SubmittedJob job, d1) →
  rtc (step_before json_policy json_manifest json_payload sql_policy_int window (su_Tenant s) (su_KeyDigest s) (now + ttl)) d1 d2 →
  su_Tenant s' = su_Tenant s → su_KeyDigest s' = su_KeyDigest s → now' < now + ttl →
  let again := SubmitTx json_policy s' sourceID' jobID' lockNow' now' ttl' d2 in
  match lockSubmissionReservations (su_Coordination s') (su_Source s') lockNow' d2,
        lockTenantPolicy json_policy (su_Tenant s) d2 with
  | Ok _, Ok _ =>
      if decide (su_RequestHash s' = su_RequestHash s)
      then ∃ job', again = Ok (ReplayedJob job', d2) ∧ ej_InternalID job' = jobID ∧ ej_ExternalID job' = ej_ExternalID job
      else again = Err ErrExternalJobConflict
  | _, _ => again = Err ErrExternalJobUnavailable
  end.
Proof.
  intros H0 Hut0 Hreach Hsub Hrun Hs Hkd Hnow. destruct (no_jobs_ok _ H0) as [Hok0 Hu0].
  destruct (steps_ok _ _ _ _ _ _ _ Hok0 Hu0 Hreach) as (Hok & Hu & Hk0).
  pose proof (unique_tenants_kept _ _ Hk0 Hut0) as Hut.
  pose proof (store_step_ok _ _ _ _ _ _ _ Hok Hu (step_submit json_policy json_manifest json_payload sql_policy_int window
    _ _ _ _ _ _ _ _ _ Hsub)) as (Hok1 & Hu1 & Hk1 & _).
  destruct (submit_takes_key _ _ _ _ _ _ _ _ _ _ Hu1 Hsub) as (Hext & t & Htaken).
  destruct (key_taken_run _ _ _ _ _ _ _ _ _ _ _ _ Hok1 Hu1 (unique_tenants_kept _ _ Hk1 Hut) Htaken Hrun) as (Hok2 & Hu2 & Hut2 & Htaken2).
  cbv zeta. rewrite Hext. exact (submit_taken _ _ _ _ _ _ s' sourceID' jobID' lockNow' now' ttl' d2 Hok2 Hu2 Hut2 Htaken2 Hs Hkd Hnow).
Qed.
