(* ===== verification/StoreQuota.v ===== *)
(** * Quotas

    The daily execution quota and the running quota of a tenant, over every
    reachable state of the job store. *)
From stdpp Require Import prelude gmap strings.
From S2P Require Import Prelude.
From S2P Require Import GoText.
From S2P Require Import JobState.
From S2P Require Import Manifest.
From S2P Require Import Store.
From S2P Require Import JobWorker.
From S2P Require Import JobRepository.
From S2P Require Import StoreInvariant.
From S2P Require Import StoreSteps.
From S2P Require Import StoreClaim.
From S2P Require Import StoreReach.
From S2P Require Import StoreFrame.
From S2P Require Import StoreProperties.

Open Scope Z_scope.

(** No retention in the steps considered here. *)
#[local] Existing Instance nothing_retired.

(** ** The daily execution quota *)
Definition ledger_bounded (L : Z → Z) (d : db) : Prop :=
  ∀ t aday row, daily d !! (t, aday) = Some row → dl_Reserved row + dl_Consumed row ≤ L t.

Lemma capped_le cases reservation : 0 ≤ reservation → cappedCaseExecutionMillis cases reservation ≤ reservation.
Proof.
  intros Hr. unfold cappedCaseExecutionMillis. destruct (Z.leb_spec reservation 0); [lia|].
  assert (Hloop : ∀ cs total, total ≤ reservation → capped_loop cs reservation total ≤ reservation).
  { induction cs as [|c cs IH]; simpl; intros total Ht; [done|].
    destruct (Z.leb_spec (reservation - total) (dc_TimeMillis c)); [done|]. apply IH. lia. }
  apply Hloop. lia.
Qed.

Section Quota.
Context (json_policy : string → option TenantPolicy) (json_manifest : string → option Manifest)
        (json_payload : terminalWebhookPayload → string) (sql_policy_int : string → string → option Z).
Context (window : Z) (L : Z → Z).

Local Abbreviation keeps := (tx_keeps (ledger_bounded L)).

Lemma keeps_reserve t aday limit amount : limit ≤ L t → keeps (reserveDailyExecution t aday limit amount).
Proof.
  intros Hlim d decision d' HP. unfold reserveDailyExecution. destruct (_ || _) eqn:Hargs; [done|]. bool_to_prop.
  destruct (limit <? amount); [by intros [= _ <-]|].
  set (row := default (mkDailyRow 0 0) (daily d !! (t, aday))).
  assert (Hrow : dl_Reserved row + dl_Consumed row ≤ L t).
  { unfold row. destruct (daily d !! (t, aday)) eqn:E; simpl; [by eapply HP|lia]. }
  destruct (_ || _) eqn:Hfull; intros [= _ <-] t' aday' row'; simpl; rewrite ?lookup_insert_Some; bool_to_prop.
  - intros [[[= <- <-] <-]|[_ ?]]; [done|by eapply HP].
  - intros [[[= <- <-] <-]|[? [[? _]|[_ ?]]]]; [simpl; lia|done|by eapply HP].
Qed.

Lemma keeps_release t j n now cases full : keeps (releaseAttemptReservation t j n now cases full).
Proof.
  intros d c d' HP H. apply release_ok in H as (a & aday & row & _ & _ & _ & _ & Hpos & Hrow & Hle & -> & ->).
  intros t' aday' row'. simpl. rewrite lookup_insert_Some. intros [[[= <- <-] <-]|[_ ?]]; [|by eapply HP].
  simpl. specialize (HP _ _ _ Hrow). destruct full; [lia|]. pose proof (capped_le cases (at_Reserved a)). lia.
Qed.

Lemma keeps_event now ids job : keeps (insertTerminalWebhookEvent json_payload window now ids job).
Proof.
  intros d x d' HP. unfold insertTerminalWebhookEvent. destruct (jobs d !! _) as [row|]; [|done].
  destruct (jb_Callback row) as [c|]; [|by intros [= _ <-]].
  induction (take 8 ids) as [|id l IH]; [done|]. cbn [insert_event_loop].
  destruct (EncodeTerminalWebhookEvent _ _ _); [|done]. destruct (outbox d !! _) as [o|].
  - destruct (EncodeTerminalWebhookEvent _ _ _); [|done]. destruct (_ || _); [done|]. by intros [= _ <-].
  - destruct (event_id_taken _ _); [done|]. by intros [= _ <-].
Qed.

End Quota.
#[export] Hint Resolve keeps_release keeps_event : quota.

Section DailyQuota.
Context (json_policy : string → option TenantPolicy) (json_manifest : string → option Manifest)
        (json_payload : terminalWebhookPayload → string) (sql_policy_int : string → string → option Z).
Context (window : Z) (L : Z → Z).

Local Abbreviation keeps := (tx_keeps (ledger_bounded L)).

Lemma keeps_expire t j n now : keeps (expireAttempt t j n now).
Proof. unfold expireAttempt. keeps_tx. Qed.

Lemma keeps_finish claim status failure c now : keeps (finishAttempt claim status failure c now).
Proof. unfold finishAttempt. keeps_tx. Qed.

Lemma keeps_fairness t now : keeps (advanceTenantFairness t now).
Proof. unfold advanceTenantFairness. keeps_tx. Qed.
End DailyQuota.
#[export] Hint Resolve keeps_expire keeps_finish keeps_fairness : quota.

Section DailyQuotaSteps.
Context (json_policy : string → option TenantPolicy) (json_manifest : string → option Manifest)
        (json_payload : terminalWebhookPayload → string) (sql_policy_int : string → string → option Z).
Context (window : Z) (L : Z → Z).

Local Abbreviation keeps := (tx_keeps (ledger_bounded L)).

Lemma keeps_impossible t j st n now ids :
  keeps (failImpossibleDailyExecution json_payload window t j st n now ids).
Proof. unfold failImpossibleDailyExecution. keeps_tx. Qed.

Lemma keeps_settle_expired j n now ids set : keeps (settle_expired json_payload window j n now ids set).
Proof. unfold settle_expired. keeps_tx. Qed.

Lemma keeps_persist t j st n amount w tok lease now aday : keeps (persist_claim t j st n amount w tok lease now aday).
Proof. unfold persist_claim. keeps_tx. Qed.

Lemma keeps_claim_selected t policy j job reserved w tok lease now aday ids :
  0 ≤ L t → (∀ p, policy = Some p → DailyExecutionMillis p ≤ L t) →
  keeps (claim_selected json_payload window t policy j job reserved w tok lease now aday ids).
Proof.
  intros H0 Hlim. unfold claim_selected, after_reservation.
  assert (Hd : default 0 (DailyExecutionMillis <$> policy) ≤ L t) by (destruct policy; simpl; auto).
  destruct policy as [p|]; [specialize (Hlim p eq_refl)|];
  eauto using keeps_reserve with quota;
  repeat match goal with
  | |- tx_keeps _ (reserveDailyExecution _ _ _ _) => by apply keeps_reserve
  | |- tx_keeps _ (failImpossibleDailyExecution _ _ _ _ _ _ _ _) => apply keeps_impossible
  | |- tx_keeps _ (settle_expired _ _ _ _ _ _ _) => apply keeps_settle_expired
  | |- tx_keeps _ (persist_claim _ _ _ _ _ _ _ _ _ _) => apply keeps_persist
  | |- tx_keeps _ (match ?x with _ => _ end) => destruct x
  | |- tx_keeps _ (_ ≫= _) => apply keeps_bind; [|intros]
  | |- tx_keeps _ _ => solve [eauto 3 with quota]
  end.
Qed.

Lemma keeps_settle claim now cases full : keeps (settleAttemptReservation claim now cases full).
Proof. unfold settleAttemptReservation. apply keeps_release. Qed.

Lemma keeps_heartbeat claim lease now : keeps (HeartbeatTx claim lease now).
Proof. unfold HeartbeatTx. keeps_tx. Qed.

Lemma keeps_complete claim res now lockNow ids : keeps (CompleteTx json_payload window claim res now lockNow ids).
Proof. unfold CompleteTx. pose proof keeps_settle. keeps_tx. Qed.

Lemma keeps_fail_infrastructure claim failure now lockNow ids :
  keeps (FailInfrastructureTx json_policy json_payload window claim failure now lockNow ids).
Proof. unfold FailInfrastructureTx. pose proof keeps_settle. keeps_tx. Qed.

Lemma keeps_cancel t e now ids : keeps (CancelTx json_payload window t e now ids).
Proof. unfold CancelTx. keeps_tx. Qed.

Lemma keeps_insert_source id row : keeps (insert_source id row).
Proof. intros d u d' HP. unfold insert_source. destruct (_ || _); [done|]. by intros [= _ <-]. Qed.

Lemma keeps_insert_job id row : keeps (insert_job id row).
Proof. intros d u d' HP. unfold insert_job. destruct (_ || _); [done|]. by intros [= _ <-]. Qed.

Lemma keeps_delete_reservations claims : keeps (delete_reservations claims).
Proof. intros d u d' HP. unfold delete_reservations. by intros [= _ <-]. Qed.

Lemma keeps_persist_submission s t policy src j now ttl : keeps (persist_submission s t policy src j now ttl).
Proof.
  unfold persist_submission. pose proof keeps_insert_source. pose proof keeps_insert_job.
  pose proof keeps_delete_reservations. keeps_tx.
Qed.

Lemma keeps_submit s src j lockNow now ttl : keeps (SubmitTx json_policy s src j lockNow now ttl).
Proof.
  intros d a d' HP H. unfold SubmitTx in H. apply tx_bind_ok in H as (original & d1 & Hget & H).
  apply tx_get_ok in Hget as [-> ->]. revert H. apply keeps_bind with (P := ledger_bounded L); [|intros _|exact HP].
  { apply keeps_read. by intros ? ? ? (-> & _)%lockSubmissionReservations_ok. }
  pose proof keeps_persist_submission. apply keeps_bind; [|intros [t policy]].
  { apply keeps_read. intros d1 v d2. unfold lockTenantPolicy. repeat case_match; by intros [= _ <-]. }
  apply keeps_bind; [apply keeps_modify; intros d1 ?; by repeat case_match|intros _].
  apply keeps_bind; [apply keeps_get|intros d1]. destruct (idempotency d1 !! _); [|keeps_tx].
  destruct (negb _); [apply keeps_fail|]. apply keeps_bind; [apply keeps_read_job|intros job].
  intros d2 v d3 _ Hroll. unfold roll_back in Hroll. by injection Hroll as _ <-.
Qed.

(** No tenant's policy allows more than [L]. *)
Definition policies_within (d : db) : Prop :=
  ∀ t tenant policy, tenants d !! t = Some tenant →
    decodeTenantPolicy json_policy (tn_PolicyJSON tenant) = Some policy → DailyExecutionMillis policy ≤ L t.

Lemma policies_within_kept d d' : tenants_kept d d' → policies_within d → policies_within d'.
Proof.
  intros Hk Hp t tenant' policy Ht Hd. pose proof (Hk t) as E. rewrite Ht in E. simpl in E.
  destruct (tenants d !! t) as [tenant|] eqn:Ht0; [|done]. injection E as _ _ E. rewrite E in Hd. by eapply Hp.
Qed.

Lemma claimOne_bounded w lease env d outcome d' :
  (∀ t, 0 ≤ L t) → policies_within d → ledger_bounded L d →
  claimOneWithClock json_policy json_manifest json_payload sql_policy_int window w lease env d
    = ClaimCommitted outcome d' → ledger_bounded L d'.
Proof.
  intros H0 Hp Hb. unfold claimOneWithClock.
  destruct (select_tenant _ _ _ _) as [[t tenant]|] eqn:Hst; [|done]. destruct (_ && _); [done|].
  destruct (select_job _ _ _ _ _) as [[j r]|]; [|done]. destruct (claim_reservation _ _ _ _) as [reserved|]; [|done].
  destruct (running_quota_full _ _ _ _); [done|].
  destruct (claim_selected _ _ _ _ _ _ _ _ _ _ _ _ _ _) as [[o d1]|] eqn:Hsel; [|done]. intros [= <- <-].
  apply select_tenant_Some in Hst. revert Hsel. apply keeps_claim_selected; [done| |done].
  intros p Hpol. destruct (bool_decide _); [|done]. by eapply Hp.
Qed.

Local Abbreviation step := (store_step json_policy json_manifest json_payload sql_policy_int window).

Lemma steps_bounded d d' :
  (∀ t, 0 ≤ L t) → store_ok d → unique_ids d → policies_within d → ledger_bounded L d → rtc step d d' →
  ledger_bounded L d'.
Proof.
  intros H0 Hok Hu Hp Hb Hs. induction Hs as [|d1 d2 d3 Hs Hss IH]; [done|].
  pose proof Hs as Hs'. eapply store_step_ok in Hs' as (? & ? & Hk & _); [|done..].
  apply IH; [done..|by eapply policies_within_kept|]. clear IH Hss.
  destruct Hs as [???????? Hx|? [????? Hx|????? Hx|??????? Hx|??????? Hx|?????? Hx]].
  - by eapply keeps_submit.
  - by eapply claimOne_bounded.
  - by eapply keeps_heartbeat.
  - by eapply keeps_complete.
  - by eapply keeps_fail_infrastructure.
  - by eapply keeps_cancel.
Qed.
End DailyQuotaSteps.

(** ** The running quota *)
Definition running_share (t : Z) (r : job_row) : Z :=
  if decide (jb_Tenant r = t ∧ jb_Status r = JobStatusRunning) then 1 else 0.

Definition running_in (t : Z) (J : gmap Z job_row) : Z := map_sumZ (running_share t) J.

Lemma running_count_in d t : running_count d t = running_in t (jobs d).
Proof.
  unfold running_count, running_in, map_sumZ, tenant_jobs. induction (map_to_list (jobs d)) as [|[j r] l IH]; [done|].
  rewrite filter_cons. cbn [sumZ snd]. rewrite <-IH. unfold running_share. destruct (decide (jb_Tenant r = t)) as [Ht|Ht].
  - rewrite filter_cons. simpl. destruct (decide (jb_Status r = JobStatusRunning)).
    + rewrite decide_True by done. cbn [length]. lia.
    + rewrite decide_False by tauto. lia.
  - rewrite decide_False by tauto. lia.
Qed.

Lemma running_in_new t J j r : J !! j = None → running_in t (<[j := r]> J) = running_share t r + running_in t J.
Proof. apply map_sumZ_insert_new. Qed.

Lemma running_in_old t J j r r' :
  J !! j = Some r → running_in t (<[j := r']> J) = running_in t J - running_share t r + running_share t r'.
Proof. apply map_sumZ_insert_old. Qed.

Lemma sumZ_fmap {A B} (f : B → Z) (g : A → B) l : sumZ f (g <$> l) = sumZ (λ x, f (g x)) l.
Proof. induction l as [|x l IH]; [done|]. rewrite fmap_cons. simpl. by rewrite IH. Qed.

Lemma running_in_sim t J J' : jobs_sim J J' → running_in t J' = running_in t J.
Proof.
  intros Hs. assert (Hf : ∀ K, running_in t K = running_in t (set_next_attempt 0 <$> K)).
  { intros K. unfold running_in, map_sumZ. rewrite map_to_list_fmap, sumZ_fmap. apply sumZ_ext, Forall_forall. done. }
  rewrite (Hf J), (Hf J'). f_equal. apply map_eq. intros j. rewrite !lookup_fmap. specialize (Hs j).
  destruct (J !! j), (J' !! j); try done. simpl. by rewrite (proj1 Hs).
Qed.

Lemma running_share_range t r : 0 ≤ running_share t r ≤ 1.
Proof. unfold running_share. case_decide; lia. Qed.

Lemma running_in_nonneg t J : 0 ≤ running_in t J.
Proof. apply map_sumZ_nonneg. intros j r _. apply running_share_range. Qed.

(** Replacing a row by one that runs only if it ran before. *)
Lemma running_in_replace t J J' j r r' :
  J !! j = Some r → jobs_sim (<[j := r']> J) J' → jb_Tenant r' = jb_Tenant r →
  (jb_Status r' = JobStatusRunning → jb_Status r = JobStatusRunning) → running_in t J' ≤ running_in t J.
Proof.
  intros Hr Hs Ht Hst. rewrite (running_in_sim _ _ _ Hs), (running_in_old _ _ _ _ _ Hr).
  unfold running_share. rewrite Ht. repeat case_decide; try lia. naive_solver.
Qed.

Section QuotaProperties.
Context (json_policy : string → option TenantPolicy) (json_manifest : string → option Manifest)
        (json_payload : terminalWebhookPayload → string) (sql_policy_int : string → string → option Z).
Context (window : Z).

Local Abbreviation step := (store_step json_policy json_manifest json_payload sql_policy_int window).

Lemma policy_daily_pos p : policy_validate p = true → 0 < DailyExecutionMillis p.
Proof. unfold policy_validate. intros H. bool_to_prop. lia. Qed.

Lemma decode_daily_pos json p : decodeTenantPolicy json_policy json = Some p → 0 < DailyExecutionMillis p.
Proof.
  unfold decodeTenantPolicy. destruct (json_policy json) as [q|]; [|done].
  destruct (policy_validate q) eqn:E; [|done]. intros [= <-]. by apply policy_daily_pos.
Qed.

(** C8: the daily quota is never exceeded. In every reachable state, for every
    tenant and accounting day, what is reserved and what is consumed together
    stay within the tenant's [DailyExecutionMillis]. *)
Theorem daily_quota_never_exceeded d0 d t tenant policy aday :
  no_jobs_yet d0 → rtc step d0 d → tenants d !! t = Some tenant →
  decodeTenantPolicy json_policy (tn_PolicyJSON tenant) = Some policy →
  dl_Reserved (ledger_row (daily d) (t, aday)) + dl_Consumed (ledger_row (daily d) (t, aday))
    ≤ DailyExecutionMillis policy.
Proof.
  intros H0 Hs Ht Hpol. destruct (no_jobs_ok _ H0) as [Hok Hu]. destruct H0 as (_ & _ & Hd & _).
  set (L := λ t, match tenants d0 !! t ≫= (λ tn, decodeTenantPolicy json_policy (tn_PolicyJSON tn)) with
                 | Some p => DailyExecutionMillis p
                 | None => 0
                 end).
  assert (HL : ∀ t, 0 ≤ L t).
  { intros t'. unfold L. destruct (_ ≫= _) as [p|] eqn:E; [|lia].
    apply bind_Some in E as (tn & _ & E). apply decode_daily_pos in E. lia. }
  assert (Hb : ledger_bounded L d).
  { eapply steps_bounded; [done|exact Hok|exact Hu| | |exact Hs].
    - intros t' tn p Htn Hp. unfold L. by rewrite Htn; simpl; rewrite Hp.
    - intros t' aday' row. by rewrite Hd, lookup_empty. }
  destruct (steps_ok _ _ _ _ _ _ _ Hok Hu Hs) as (_ & _ & Hk). specialize (Hk t). rewrite Ht in Hk. simpl in Hk.
  destruct (tenants d0 !! t) as [tn|] eqn:Htn; [|done]. injection Hk as _ _ Hk.
  assert (HLt : L t = DailyExecutionMillis policy) by (unfold L; rewrite Htn; simpl; rewrite <-Hk, Hpol; done).
  apply decode_daily_pos in Hpol. unfold ledger_row. destruct (daily d !! (t, aday)) as [row|] eqn:Hrow; simpl; [|lia].
  rewrite <-HLt. by eapply Hb.
Qed.

(** The tenant's policy admits one more running job. *)
Definition has_room (d : db) (t : Z) : Prop :=
  ∃ tenant policy, tenants d !! t = Some tenant ∧
    decodeTenantPolicy json_policy (tn_PolicyJSON tenant) = Some policy ∧ running_count d t < MaxRunningJobs policy.

Lemma claim_change_running w token lease now aday policy j r outcome r' :
  claim_change w token lease now aday policy j r outcome r' →
  jb_Tenant r' = jb_Tenant r ∧
  (jb_Status r' = JobStatusRunning → jb_Status r = JobStatusRunning ∨ jb_Status r = JobStatusQueued).
Proof. intros []; simpl; (split; [done|]); try done; tauto. Qed.

Lemma store_step_running d d' t :
  store_ok d → unique_ids d → step d d' →
  running_in t (jobs d') ≤ running_in t (jobs d) ∨
  (running_in t (jobs d') ≤ running_in t (jobs d) + 1 ∧ has_room d t).
Proof.
  intros Hok Hu [s src j ln now ttl o d1 Hx|d1 [w lease env o d2 Hx|c lease now u d2 Hx|c res now ln ids u d2 Hx|
                 c f now ln ids disp d2 Hx|tn e now ids job d2 Hx]].
  - left. apply SubmitTx_step in Hx as (_ & _ & _ & Hx); [|done..].
    destruct Hx as [->|(t' & ? & ? & b & c & Hn & _ & _ & _ & _ & _ & _ & ->)]; [lia|].
    rewrite running_in_new by done. unfold running_share. rewrite decide_False; [lia|]. by intros [_ ?].
  - apply claimOne_step in Hx as (_ & _ & j & r & r' & tenant & policy & Hr & Htn & Hpol & _ & Hcount & Hch & Hs); [|done].
    apply claim_change_running in Hch as [Ht Hst].
    destruct (decide (jb_Status r = JobStatusQueued ∧ jb_Tenant r = t)) as [[Hq Htt]|Hq].
    + right. split.
      * rewrite (running_in_sim _ _ _ Hs), (running_in_old _ _ _ _ _ Hr).
        pose proof (running_share_range t r). pose proof (running_share_range t r'). lia.
      * specialize (Hcount Hq). subst t. exists tenant. rewrite Hpol in Hcount. destruct (bool_decide _); simpl in Hcount.
        -- destruct (decodeTenantPolicy _ _) as [p|]; simpl in Hcount; [by exists p|].
           rewrite running_count_in in Hcount. pose proof (running_in_nonneg (jb_Tenant r) (jobs d)). lia.
        -- rewrite running_count_in in Hcount. pose proof (running_in_nonneg (jb_Tenant r) (jobs d)). lia.
    + left. rewrite (running_in_sim _ _ _ Hs), (running_in_old _ _ _ _ _ Hr). unfold running_share.
      rewrite Ht. repeat case_decide; try lia; naive_solver.
  - left. apply HeartbeatTx_step in Hx as (_ & _ & r & Hr & Ho & _ & Hj); [|done]. apply owns_job_true in Ho as (Hs & _).
    eapply running_in_replace; [exact Hr|rewrite Hj; reflexivity|done|done].
  - left. apply CompleteTx_step in Hx as (_ & _ & r & r' & Hr & _ & _ & _ & Hr' & Hs & _); [|done].
    eapply running_in_replace; [exact Hr|exact Hs|rewrite Hr'; by destruct (jb_CancelRequestedAt r)|].
    rewrite Hr'. by destruct (jb_CancelRequestedAt r).
  - left. apply FailInfrastructureTx_step in Hx as (_ & _ & r & ? & ? & Hr & _ & _ & _ & _ & _ & Hs & _); [|done].
    eapply running_in_replace; [exact Hr|exact Hs|by destruct disp|by destruct disp].
  - left. apply CancelTx_step in Hx as (_ & _ & id & r & _ & Hr & Hj); [|done..].
    eapply running_in_replace; [exact Hr|rewrite Hj; reflexivity|unfold cancelled_row..];
      destruct (jb_Status r) eqn:E; simpl; try done; try congruence; by destruct (jb_CancelRequestedAt r).
Qed.

Lemma tenant_policy_kept d d' t tenant' policy :
  tenants_kept d d' → tenants d' !! t = Some tenant' →
  decodeTenantPolicy json_policy (tn_PolicyJSON tenant') = Some policy →
  ∃ tenant, tenants d !! t = Some tenant ∧ decodeTenantPolicy json_policy (tn_PolicyJSON tenant) = Some policy.
Proof.
  intros Hk Ht Hp. specialize (Hk t). rewrite Ht in Hk. destruct (tenants d !! t) as [tenant|]; [|done].
  injection Hk as _ _ Hk. exists tenant. by rewrite <-Hk.
Qed.

(** C9: the running quota is never exceeded. In every reachable state a tenant
    has at most [MaxRunningJobs] running jobs. *)
Theorem running_quota_never_exceeded d0 d t tenant policy :
  no_jobs_yet d0 → rtc step d0 d → tenants d !! t = Some tenant →
  decodeTenantPolicy json_policy (tn_PolicyJSON tenant) = Some policy →
  running_count d t ≤ MaxRunningJobs policy.
Proof.
  intros H0 Hs. destruct (no_jobs_ok _ H0) as [Hok Hu]. destruct H0 as (Hj & _). rewrite running_count_in.
  assert (Hbase : ∀ tn p, tenants d0 !! t = Some tn → decodeTenantPolicy json_policy (tn_PolicyJSON tn) = Some p →
    running_in t (jobs d0) ≤ MaxRunningJobs p).
  { intros tn p _ Hp. rewrite Hj. unfold running_in, map_sumZ. rewrite map_to_list_empty. simpl.
    unfold decodeTenantPolicy in Hp. destruct (json_policy _) as [q|]; [|done].
    destruct (policy_validate q) eqn:E; [|done]. injection Hp as <-. unfold policy_validate in E. bool_to_prop. lia. }
  clear Hj. revert tenant policy. revert Hbase. induction Hs as [d1|d1 d2 d3 Hs Hss IH]; intros Hbase tenant policy Ht Hp.
  { by eapply Hbase. }
  pose proof (store_step_running _ _ t Hok Hu Hs) as Hrun.
  eapply store_step_ok in Hs as (Hok2 & Hu2 & Hk & _); [|done..].
  apply (IH Hok2 Hu2) with (tenant := tenant); [|done..]. intros tn p Htn Hp2.
  destruct (tenant_policy_kept _ _ _ _ _ Hk Htn Hp2) as (tn1 & Htn1 & Hp1). specialize (Hbase _ _ Htn1 Hp1).
  destruct Hrun as [?|(? & tn' & p' & Htn' & Hp' & Hroom)]; [lia|].
  rewrite Htn1 in Htn'. injection Htn' as <-. rewrite Hp1 in Hp'. injection Hp' as <-.
  rewrite running_count_in in Hroom. lia.
Qed.
End QuotaProperties.
