(* ===== verification/StoreRefine.v ===== *)
(** * The repository implements the durable job state machine

    [DurableJob] ([JobState]) is the specification of a job; the repository is
    its implementation over tables. Read as a [DurableJob], the row of a job
    moves as the corresponding method says, up to the time of the next attempt and
    the instant of the completion, which are given exactly. *)
From stdpp Require Import prelude gmap strings.
From S2P Require Import Prelude.
From S2P Require Import GoText.
From S2P Require Import JobState.
From S2P Require Import Manifest.
From S2P Require Import Store.
From S2P Require Import JobWorker.
From S2P Require Import JobRepository.
From S2P Require Import StoreInvariant.
From S2P Require Import StoreSteps.
From S2P Require Import StoreClaim.
From S2P Require Import StoreReach.
From S2P Require Import StoreProperties.

Open Scope Z_scope.

(** No retention in the steps considered here. *)
#[local] Existing Instance nothing_retired.

(** A row read as a [DurableJob]. *)
Definition abs_job (r : job_row) : DurableJob :=
  mkDurableJob (jb_ExternalID r) (jb_Status r) (jb_AttemptNo r) (default "" (jb_WorkerID r))
    (default zero_time (jb_LeaseUntil r)) (jb_NextAttemptAt r) (jb_CancelRequestedAt r) (jb_Result r)
    (default "" (jb_FailureCode r)) (jb_StartedAt r) (jb_CompletedAt r).

Definition abs_claim (c : WorkerJobClaim) : JobClaim := mkJobClaim (wc_WorkerID c) (wc_AttemptNo c).

(** A job with the time of its next attempt and the instant of its completion replaced. *)
Definition with_times (next : Z) (completed : option Z) (j : DurableJob) : DurableJob :=
  mkDurableJob (ExternalID j) (Status j) (AttemptNo j) (WorkerID j) (LeaseUntil j) next (CancelRequestedAt j) (Result j)
    (FailureCode j) (StartedAt j) completed.

(** When the repository lets a requeued job be attempted next: when the method does,
    by the clock the settlement reads; but a job that would be deferred exactly to the
    end of the accounting day the settlement frees is woken at once. *)
Definition requeued_at (now delay aday : Z) : Z := if now + delay =? aday + day then now else now + delay.

Lemma validWorkerID_not_blank w : validWorkerID w = true → blank w = false ∧ len w ≤ 128 ∧ w ≠ "".
Proof.
  unfold validWorkerID, blank. destruct (_ || _) eqn:E; [done|]. intros _. bool_to_prop.
  assert (w ≠ "") by (intros ->; done). split_and!; [|lia|done]. apply bool_decide_eq_false_2. congruence.
Qed.

Lemma validWorkerClaim_worker c : validWorkerClaim c = true → wc_WorkerID c ≠ "" ∧ 0 < wc_AttemptNo c.
Proof.
  unfold validWorkerClaim. intros H. bool_to_prop.
  match goal with Hw : validWorkerID _ = true |- _ => apply validWorkerID_not_blank in Hw as (_ & _ & ?) end. done.
Qed.

Lemma owner_owns c r now :
  owns_job c r = true → lease_live now r = true → validWorkerClaim c = true →
  ownsActiveClaim (Some (abs_job r)) (abs_claim c) now = true.
Proof.
  intros (Hs & Hn & Hw & _)%owns_job_true Hl (Hne & Hpos)%validWorkerClaim_worker.
  unfold lease_live in Hl. destruct (jb_LeaseUntil r) as [u|] eqn:Hu; [|done].
  unfold ownsActiveClaim, abs_job, abs_claim. simpl. rewrite Hs, Hw, Hu, Hn. simpl.
  rewrite !bool_decide_eq_true_2 by done. rewrite bool_decide_eq_false_2 by done.
  rewrite Z.eqb_refl, Hl, (proj2 (Z.ltb_lt _ _) Hpos). done.
Qed.

Lemma infrastructure_code_text code :
  infrastructureCodePattern code = true → blank code = false ∧ len code ≤ 64.
Proof.
  destruct code as [|a s]; [done|]. unfold infrastructureCodePattern. intros H. bool_to_prop. split.
  - apply visible_not_blank. unfold upper in *. rewrite in_range_true in *. lia.
  - unfold len in *. cbn [String.length]. lia.
Qed.

(** Use what is known to be null in row [r]. *)
Ltac rewrite_none r :=
  repeat match goal with H : ?f r = None |- context [?f r] => rewrite H end.

(** Split a conjunction, and nothing under it. *)
Ltac split_refine := repeat match goal with |- _ ∧ _ => split end.

Section Refine.
Context (json_policy : string → option TenantPolicy) (json_manifest : string → option Manifest)
        (json_payload : terminalWebhookPayload → string) (sql_policy_int : string → string → option Z).
Context (window : Z).

Local Abbreviation job_of d claim := (jobs d !! ej_InternalID (wc_Job claim)).

Lemma heartbeat_refines claim lease now u d d' :
  store_ok d → HeartbeatTx claim lease now d = Ok (u, d') →
  ∃ r r', job_of d claim = Some r ∧ job_of d' claim = Some r' ∧
    Heartbeat (Some (abs_job r)) (abs_claim claim) now lease = Ok (abs_job r').
Proof.
  intros Hok H. pose proof H as Hg. unfold HeartbeatTx in Hg. apply tx_bind_ok in Hg as (? & ? & Hg & _).
  apply tx_guard_ok in Hg as [Hg _]. bool_to_prop. unfold lease_duration_ok in *. bool_to_prop.
  apply HeartbeatTx_step in H as (_ & _ & r & Hr & Ho & Hl & ->); [|done].
  exists r, (set_job_lease (now + lease) r). split_and!; [done|by rewrite lookup_insert_eq|].
  unfold Heartbeat. rewrite owner_owns by done. rewrite (proj2 (Z.leb_gt lease 0)) by lia. done.
Qed.

Lemma complete_refines claim res now lockNow ids u d d' :
  store_ok d → CompleteTx json_payload window claim res now lockNow ids d = Ok (u, d') →
  ∃ r r' j', job_of d claim = Some r ∧ job_of d' claim = Some r' ∧
    Complete (Some (abs_job r)) (abs_claim claim) res lockNow = Ok j' ∧
    abs_job r' = with_times (NextAttemptAt j') (Some now) j'.
Proof.
  intros Hok H. pose proof H as Hg. unfold CompleteTx in Hg. apply tx_bind_ok in Hg as (? & ? & Hg & _).
  apply tx_guard_ok in Hg as [Hg _]. bool_to_prop.
  apply CompleteTx_step in H as (_ & _ & r & r' & Hr & Ho & Hl & Hv & Hr' & _ & Hj); [|done].
  unfold Complete. rewrite Hr' in Hj. destruct (jb_CancelRequestedAt r) eqn:Hc; (eexists r, _, _; split_refine;
    [done|exact Hj|rewrite owner_owns by done; simpl; rewrite Hc, ?Hv; reflexivity|]);
    unfold abs_job, with_times; simpl; rewrite ?Hc; done.
Qed.

Lemma failed_row_refines r claim failure policy now lockNow :
  owns_job claim r = true → lease_live lockNow r = true → validWorkerClaim claim = true →
  infrastructureCodePattern (inf_Code failure) = true → 0 ≤ inf_RetryDelay failure → 0 < MaxInfrastructureTries policy →
  1 ≤ jb_AttemptNo r → jb_Result r = None → jb_FailureCode r = None → jb_CompletedAt r = None →
  let disposition := failure_disposition (is_some (jb_CancelRequestedAt r)) failure (jb_AttemptNo r) (MaxInfrastructureTries policy) in
  ∃ j' b, FailInfrastructure (Some (abs_job r)) (abs_claim claim) (inf_Code failure)
      (if inf_Permanent failure then jb_AttemptNo r else MaxInfrastructureTries policy) lockNow (inf_RetryDelay failure) = Ok (j', b) ∧
    b = negb (bool_decide (disposition = FailureRequeued)) ∧
    abs_job (failed_row disposition failure now r) =
      match disposition with
      | FailureRequeued => with_times (now + inf_RetryDelay failure) (CompletedAt j') j'
      | _ => with_times now (Some now) j'
      end.
Proof.
  intros Ho Hl Hclaim Hcode Hdelay Htries Hpos Hres Hf Hcomp disposition.
  destruct (infrastructure_code_text (inf_Code failure)) as [Hb Hlen]; [done|].
  set (max := if inf_Permanent failure then _ else _). unfold FailInfrastructure. rewrite owner_owns by done.
  rewrite Hb, (proj2 (Z.ltb_ge 64 (len (inf_Code failure)))), (proj2 (Z.ltb_ge (inf_RetryDelay failure) 0)) by lia.
  rewrite (proj2 (Z.eqb_neq max 0)) by (unfold max; destruct (inf_Permanent failure); lia).
  unfold disposition, failure_disposition. simpl. subst max.
  destruct (jb_CancelRequestedAt r) eqn:Hc; simpl; [|destruct (inf_Permanent failure); simpl;
    [rewrite Z.ltb_irrefl|destruct (_ <? _)]]; (eexists _, _; split_refine; [reflexivity|done|]);
    unfold abs_job, with_times; simpl; rewrite ?Hc, ?Hf, ?Hcomp, ?Hres; done.
Qed.

Lemma fail_refines claim failure now lockNow ids disposition d d' :
  store_ok d →
  FailInfrastructureTx json_policy json_payload window claim failure now lockNow ids d = Ok (disposition, d') →
  ∃ r r' tenant policy a aday j' b, job_of d claim = Some r ∧ job_of d' claim = Some r' ∧
    tenants d !! jb_Tenant r = Some tenant ∧
    decodeTenantPolicy json_policy (tn_PolicyJSON tenant) = Some policy ∧
    attempts d !! (ej_InternalID (wc_Job claim), jb_AttemptNo r) = Some a ∧ at_AccountingDay a = Some aday ∧
    FailInfrastructure (Some (abs_job r)) (abs_claim claim) (inf_Code failure)
      (if inf_Permanent failure then jb_AttemptNo r else MaxInfrastructureTries policy) lockNow (inf_RetryDelay failure)
      = Ok (j', b) ∧ b = negb (bool_decide (disposition = FailureRequeued)) ∧
    abs_job r' =
      match disposition with
      | FailureRequeued => with_times (requeued_at now (inf_RetryDelay failure) aday) (CompletedAt j') j'
      | _ => with_times now (Some now) j'
      end.
Proof.
  intros Hok H. pose proof H as Hg. unfold FailInfrastructureTx in Hg. apply tx_bind_ok in Hg as (? & ? & Hg & _).
  apply tx_guard_ok in Hg as [Hg _]. bool_to_prop.
  apply FailInfrastructureTx_step in H as (_ & _ & r & tenant & policy & Hr & Ht & Hp & Ho & Hl & Hd & _ & a & aday & Ha & Hday & Hr');
    [|done].
  apply owns_job_true in Ho as Ho'. destruct Ho' as (Hst & _).
  destruct (running_result _ _ _ Hok Hr Hst) as (Hres & Hf & Hcomp & Hpos).
  assert (Htries : 0 < MaxInfrastructureTries policy).
  { unfold decodeTenantPolicy in Hp. destruct (json_policy _) as [q|]; [|done].
    destruct (policy_validate q) eqn:E; [|done]. injection Hp as <-. unfold policy_validate in E. bool_to_prop. lia. }
  destruct (failed_row_refines r claim failure policy now lockNow) as (j' & b & Hm & Hb & Habs); [try done; lia..|].
  rewrite <-Hd in Hb, Habs.
  exists r, (woken aday now (failed_row disposition failure now r)), tenant, policy, a, aday, j', b.
  split_refine; try done. destruct disposition; [|exact Habs|exact Habs]. unfold woken, requeued_at.
  rewrite bool_decide_eq_true_2 by done. set (row := failed_row _ failure now r) in *.
  change (jb_NextAttemptAt row) with (now + inf_RetryDelay failure). cbn [andb]. destruct (_ =? _); [|exact Habs].
  change (abs_job (set_next_attempt now row)) with (with_times now (CompletedAt (abs_job row)) (abs_job row)). by rewrite Habs.
Qed.

Lemma cancel_refines t e now ids job d d' :
  store_ok d → unique_ids d → CancelTx json_payload window t e now ids d = Ok (job, d') →
  ∃ id r r' j' b, find_job d t e = Some id ∧ jobs d !! id = Some r ∧ jobs d' !! id = Some r' ∧
    RequestCancel (Some (abs_job r)) now = Ok (j', b) ∧ abs_job r' = j'.
Proof.
  intros Hok Hu H. apply CancelTx_step in H as (_ & _ & id & r & Hf & Hr & ->); [|done..].
  pose proof (job_wf _ _ _ Hok Hr) as [_ Hwf].
  exists id, r, (cancelled_row now r). rewrite lookup_insert_eq.
  assert (Hmach : ∃ j' b, RequestCancel (Some (abs_job r)) now = Ok (j', b) ∧ abs_job (cancelled_row now r) = j').
  { unfold RequestCancel, cancelled_row. simpl. destruct (jb_Status r) eqn:Hs; try done;
      [|destruct (jb_CancelRequestedAt r) eqn:Hc|..]; (eexists _, _; split; [reflexivity|]);
      try rewrite Hs in Hwf; unfold abs_job, unleased in *; simpl; destruct_and?; rewrite ?Hs, ?Hc;
      rewrite_none r; done. }
  destruct Hmach as (j' & b & ? & ?). eauto 10.
Qed.

Lemma claim_refines w lease env c d d' :
  store_ok d → validWorkerID w = true → 0 < lease →
  claimOneWithClock json_policy json_manifest json_payload sql_policy_int window w lease env d
    = ClaimCommitted (Claimed c) d' →
  ∃ r r' j', job_of d c = Some r ∧ job_of d' c = Some r' ∧
    Claim (Some (abs_job r)) w (ce_Now env) lease = Ok (j', abs_claim c) ∧
    abs_job r' = with_times (jb_NextAttemptAt r) (CompletedAt j') j'.
Proof.
  intros Hok Hw Hlease H.
  apply claimOne_step in H as (_ & _ & j & r & r' & tenant & policy & Hr & _ & _ & Hclaim & _ & Hch & Hsim); [|done].
  inversion Hch as [c' Hst Hmax _ _ Hid _ Hwk Hn Htok Hu Hc' Hr'| | | | | |]. subst c'. rewrite Hr' in Hsim.
  destruct (jobs_sim_lookup_l _ _ j r' Hsim) as (r1 & Hr1 & Hs); [by rewrite lookup_insert_eq|].
  apply job_sim_exact in Hs; [subst r1|by rewrite <-Hr'].
  destruct (job_wf _ _ _ Hok Hr) as [Ha Hwf]. destruct (validWorkerID_not_blank _ Hw) as (Hb & Hlen & _).
  assert (Hmach : ∃ j', Claim (Some (abs_job r)) w (ce_Now env) lease = Ok (j', abs_claim c) ∧
    abs_job r' = with_times (jb_NextAttemptAt r) (CompletedAt j') j').
  { unfold Claim. rewrite Hb, (proj2 (Z.ltb_ge 128 (len w))), (proj2 (Z.leb_gt lease 0)) by lia.
    unfold job_claimable, lease_expired in Hclaim. simpl.
    rewrite (proj2 (Z.eqb_neq _ _) Hmax), wrap_uint32_id by (unfold max_uint32 in *; lia).
    unfold abs_claim. rewrite Hwk, Hn, <-Hr'.
    apply orb_true_iff in Hclaim as [Hclaim|Hclaim]; bool_to_prop;
      match goal with Hs0 : jb_Status r = _ |- _ => rewrite Hs0 in *; clear Hst end; simpl; unfold unleased in *; destruct_and!.
    - match goal with Hn' : jb_NextAttemptAt r ≤ _ |- _ => rewrite (proj2 (Z.ltb_ge _ _) Hn') end.
      rewrite_none r. eexists. split; [reflexivity|]. unfold abs_job, with_times. simpl. rewrite_none r. done.
    - destruct (jb_LeaseUntil r) as [u|] eqn:Hlu; [|done]. bool_to_prop. simpl.
      rewrite (proj2 (Z.ltb_ge (ce_Now env) u)) by lia.
      rewrite_none r. eexists. split; [reflexivity|]. unfold abs_job, with_times. simpl. rewrite_none r. done. }
  destruct Hmach as (j' & Hm & Hsame). exists r, r', j'. rewrite Hid. by split_refine.
Qed.
End Refine.

Section RefineProperty.
Context (json_policy : string → option TenantPolicy) (json_manifest : string → option Manifest)
        (json_payload : terminalWebhookPayload → string) (sql_policy_int : string → string → option Z).
Context (window : Z).

Local Abbreviation job_of d claim := (jobs d !! ej_InternalID (wc_Job claim)).

(** C2: the repository refines the durable job state machine. A claim, a heartbeat, a
    completion, an infrastructure failure or a cancellation that commits has a result
    of the method of [DurableJob] on the row read as a [DurableJob], and leaves the row
    of that result in every field but two, which are given exactly. (1) A claim keeps
    the time of the next attempt, which the method zeroes. (2) A completion is dated
    [now], and a failure [now] or [now] plus the retry delay, where the method has the
    time of the lock; a failure that ends the job also sets the time of the next
    attempt to [now], and a requeued job that would wait exactly for the end of the
    accounting day of its attempt is woken at [now]. A heartbeat and a cancellation
    have no exception. (A permanent failure is the method called with the attempts
    exhausted.) *)
Theorem repository_refines_durable_job d d' :
  store_ok d → unique_ids d →
  (∀ w lease env c, validWorkerID w = true → 0 < lease →
     claimOneWithClock json_policy json_manifest json_payload sql_policy_int window w lease env d
       = ClaimCommitted (Claimed c) d' →
     ∃ r r' j', job_of d c = Some r ∧ job_of d' c = Some r' ∧
       Claim (Some (abs_job r)) w (ce_Now env) lease = Ok (j', abs_claim c) ∧
       abs_job r' = with_times (jb_NextAttemptAt r) (CompletedAt j') j') ∧
  (∀ claim lease now u, HeartbeatTx claim lease now d = Ok (u, d') →
     ∃ r r', job_of d claim = Some r ∧ job_of d' claim = Some r' ∧
       Heartbeat (Some (abs_job r)) (abs_claim claim) now lease = Ok (abs_job r')) ∧
  (∀ claim res now lockNow ids u, CompleteTx json_payload window claim res now lockNow ids d = Ok (u, d') →
     ∃ r r' j', job_of d claim = Some r ∧ job_of d' claim = Some r' ∧
       Complete (Some (abs_job r)) (abs_claim claim) res lockNow = Ok j' ∧
       abs_job r' = with_times (NextAttemptAt j') (Some now) j') ∧
  (∀ claim failure now lockNow ids disposition,
     FailInfrastructureTx json_policy json_payload window claim failure now lockNow ids d = Ok (disposition, d') →
     ∃ r r' tenant policy a aday j' b, job_of d claim = Some r ∧ job_of d' claim = Some r' ∧
       tenants d !! jb_Tenant r = Some tenant ∧
       decodeTenantPolicy json_policy (tn_PolicyJSON tenant) = Some policy ∧
       attempts d !! (ej_InternalID (wc_Job claim), jb_AttemptNo r) = Some a ∧ at_AccountingDay a = Some aday ∧
       FailInfrastructure (Some (abs_job r)) (abs_claim claim) (inf_Code failure)
         (if inf_Permanent failure then jb_AttemptNo r else MaxInfrastructureTries policy) lockNow
         (inf_RetryDelay failure) = Ok (j', b) ∧
       b = negb (bool_decide (disposition = FailureRequeued)) ∧
       abs_job r' =
         match disposition with
         | FailureRequeued => with_times (requeued_at now (inf_RetryDelay failure) aday) (CompletedAt j') j'
         | _ => with_times now (Some now) j'
         end) ∧
  (∀ t e now ids job, CancelTx json_payload window t e now ids d = Ok (job, d') →
     ∃ id r r' j' b, find_job d t e = Some id ∧ jobs d !! id = Some r ∧ jobs d' !! id = Some r' ∧
       RequestCancel (Some (abs_job r)) now = Ok (j', b) ∧ abs_job r' = j').
Proof.
  intros Hok Hu. split_refine; intros *.
  - by apply claim_refines.
  - by apply heartbeat_refines.
  - by apply complete_refines.
  - by apply fail_refines.
  - by apply cancel_refines.
Qed.
End RefineProperty.
