(* ===== verification/StoreProgress.v ===== *)
(** * A live claim can be settled

    Under the store invariant the only thing that can stop the owner of a live
    lease from settling its job is the job record or its webhook event: the
    attempt, its reservation and the ledger row are always there. *)
From stdpp Require Import prelude gmap strings.
From S2P Require Import Prelude.
From S2P Require Import GoText.
From S2P Require Import JobState.
From S2P Require Import Manifest.
From S2P Require Import Store.
From S2P Require Import JobWorker.
From S2P Require Import JobRepository.
From S2P Require Import StoreInvariant.
From S2P Require Import StoreSteps.

Open Scope Z_scope.

(** No retention in the steps considered here. *)
#[local] Existing Instance nothing_retired.

Lemma att_sum_ge f k m i a :
  (∀ i a, m !! i = Some a → 0 ≤ f a) → m !! i = Some a → attempt_key a = Some k → f a ≤ att_sum f k m.
Proof.
  intros Hf Hi Hk. rewrite <-(insert_id m i a Hi), <-insert_delete_eq.
  rewrite att_sum_insert_new by apply lookup_delete_eq. unfold att_share at 1. rewrite decide_True by done.
  assert (0 ≤ att_sum f k (delete i m)); [|lia]. apply att_sum_nonneg.
  intros i' a' Ha'. apply lookup_delete_Some in Ha' as [_ Ha']. by eapply Hf.
Qed.

(** The reservation of a running attempt is in the ledger. *)
Lemma reservation_in_ledger d j n a :
  store_ok d → attempts d !! (j, n) = Some a → at_Status a = AttemptRunning →
  ∃ aday row, at_AccountingDay a = Some aday ∧ 0 < at_Reserved a ∧
    daily d !! (at_Tenant a, aday) = Some row ∧ at_Reserved a ≤ dl_Reserved row.
Proof.
  intros Hok Ha Hrun. destruct (tk_attempts _ _ _ _ _ _ _ Hok _ _ _ Ha) as [_ [_ Hamt]].
  rewrite decide_True in Hamt by done. destruct Hamt as ([aday Hday] & Hpos & _).
  destruct (tk_ledger _ _ _ _ _ _ _ Hok (at_Tenant a, aday)) as [Hr _].
  assert (Hge : at_Reserved a ≤ att_sum at_Reserved (at_Tenant a, aday) (attempts d)).
  { apply (att_sum_ge _ _ _ (j, n)); [|done|by unfold attempt_key; rewrite Hday].
    intros [j' n'] a' Ha'. destruct (tk_attempts _ _ _ _ _ _ _ Hok _ _ _ Ha') as [_ [_ Hamt]].
    case_decide; lia. }
  unfold none_pending, ledger_row in Hr. destruct (daily d !! (at_Tenant a, aday)) as [row|] eqn:Hrow; simpl in Hr; [|lia].
  exists aday, row. split_and!; [done..|lia].
Qed.

(** The claim names the tenant of the job. *)
Definition claim_consistent (d : db) (claim : WorkerJobClaim) : Prop :=
  ∀ r, jobs d !! ej_InternalID (wc_Job claim) = Some r → ej_TenantInternalID (wc_Job claim) = jb_Tenant r.

(** Settling the reservation and closing the attempt cannot fail. *)
Lemma settle_progress d claim r f now cases full status failure :
  store_ok d → claim_consistent d claim → jobs d !! ej_InternalID (wc_Job claim) = Some r → owns_job claim r = true →
  status ≠ AttemptRunning →
  ∃ c d1 d2, settleAttemptReservation claim now cases full (set_jobs f d) = Ok (c, d1) ∧
    finishAttempt claim status failure c now d1 = Ok (tt, d2) ∧
    outbox d2 = outbox d ∧ tenants d2 = tenants d ∧ bundles d2 = bundles d ∧ sources d2 = sources d ∧
    callbacks d2 = callbacks d.
Proof.
  intros Hok Hcons Hr Ho Hst. apply owns_job_true in Ho as (Hs & Hn & Hw & Htok). set (j := ej_InternalID (wc_Job claim)) in *.
  destruct (running_attempt _ _ _ Hok Hr Hs) as (a & Ha & Hrun).
  destruct (tk_attempts _ _ _ _ _ _ _ Hok _ _ _ Ha) as [(r0 & Hr0 & _ & Ht & Hm) _].
  rewrite Hr in Hr0. injection Hr0 as <-. destruct (Hm Hrun) as (_ & _ & Hw' & Htok').
  destruct (reservation_in_ledger _ _ _ _ Hok Ha Hrun) as (aday & row & Hday & Hpos & Hrow & Hle).
  unfold settleAttemptReservation, releaseAttemptReservation. fold j. simpl. rewrite <-Hn, Ha, (Hcons _ Hr), <-Ht.
  rewrite Z.eqb_refl, bool_decide_eq_true_2, Hday by done. simpl.
  rewrite (proj2 (Z.leb_gt (at_Reserved a) 0)), Hrow, (proj2 (Z.ltb_ge (dl_Reserved row) (at_Reserved a))) by lia.
  eexists _, _, _. split; [reflexivity|]. unfold finishAttempt, update_attempt. fold j. unfold mbind, tx_bind. simpl. rewrite <-Hn, Ha.
  assert (Hown : owns_attempt claim a = true).
  { unfold owns_attempt. rewrite !bool_decide_eq_true_2; [done| |congruence|congruence]. congruence. }
  rewrite Hown, bool_decide_eq_false_2; [simpl; split_and!; reflexivity|].
  intros E. apply (f_equal at_Status) in E. simpl in E. congruence.
Qed.

(** The update of a job that leaves the running state always counts as a change. *)
Lemma update_owned d claim r f :
  jobs d !! ej_InternalID (wc_Job claim) = Some r → owns_job claim r = true → jb_Status (f r) ≠ JobStatusRunning →
  update_job (ej_InternalID (wc_Job claim)) (owns_job claim) f d =
    Ok (true, set_jobs (insert (ej_InternalID (wc_Job claim)) (f r)) d).
Proof.
  intros Hr Ho Hs. unfold update_job. rewrite Hr, Ho, bool_decide_eq_false_2; [done|].
  intros E. apply owns_job_true in Ho as (? & _). congruence.
Qed.

Lemma scan_same d d' j r :
  jobs d' !! j = Some r → tenants d' = tenants d → bundles d' = bundles d → sources d' = sources d →
  callbacks d' = callbacks d →
  ∀ r0 job, jobs d !! j = Some r0 → scanExternalJob d j = Ok job →
  jb_Tenant r = jb_Tenant r0 → jb_Bundle r = jb_Bundle r0 → jb_Source r = jb_Source r0 →
  (∀ res, jb_Result r = Some res → validateDurableJobResult res = true) →
  ∃ job', scanExternalJob d' j = Ok job' ∧ ej_InternalID job' = j ∧
    ej_TenantExternalID job' = ej_TenantExternalID job ∧ ej_Status job' = jb_Status r ∧
    ej_Result job' = jb_Result r ∧ ej_FailureCode job' = default "" (jb_FailureCode r) ∧
    ej_ExternalID job' = jb_ExternalID r ∧ ej_ClientReference job' = default "" (jb_ClientReference r).
Proof.
  intros Hj Ht Hb Hs Hc r0 job Hr0 Hscan Htn Hbn Hsn Hres. unfold scanExternalJob in *.
  rewrite Hj, Ht, Hb, Hs, Htn, Hbn, Hsn. rewrite Hr0 in Hscan.
  destruct (tenants d !! jb_Tenant r0), (bundles d !! jb_Bundle r0), (sources d !! jb_Source r0); try done.
  destruct (_ || _); [done|]. destruct (_ || _); [done|].
  assert ((match jb_Result r with Some r1 => negb (validateDurableJobResult r1) | None => false end) = false) as ->.
  { destruct (jb_Result r) as [res|]; [by rewrite Hres|done]. }
  destruct (match jb_Result r0 with Some r1 => _ | None => _ end); [done|]. injection Hscan as <-.
  eexists. split; [reflexivity|]. simpl. done.
Qed.

(** The webhook event of a job can be written: its identifiers are well formed
    and the first identifier drawn is free. *)
Record announceable (d : db) (job : ExternalJobRecord) (now : Z) (ids : list string) : Prop := {
  an_id : ∃ id rest, ids = id :: rest ∧ externalIDPattern id = true ∧ event_id_taken d id = false;
  an_time : now ≠ zero_time;
  an_tenant : externalIDPattern (ej_TenantExternalID job) = true;
  an_job : externalIDPattern (ej_ExternalID job) = true;
  an_reference : len (ej_ClientReference job) ≤ 255 ∧ valid_string (ej_ClientReference job) = true
}.

(** A record whose outcome the event can carry. *)
Definition outcome_coherent (job : ExternalJobRecord) : Prop :=
  match ej_Status job with
  | JobStatusSucceeded => ej_FailureCode job = "" ∧ ∃ r, ej_Result job = Some r ∧ validateDurableJobResult r = true
  | JobStatusFailed => ej_Result job = None ∧ infrastructureCodePattern (ej_FailureCode job) = true
  | JobStatusCancelled => ej_Result job = None ∧ ej_FailureCode job = ""
  | _ => False
  end.

Lemma encode_coherent id now job :
  externalIDPattern id = true → now ≠ zero_time → externalIDPattern (ej_TenantExternalID job) = true →
  externalIDPattern (ej_ExternalID job) = true →
  len (ej_ClientReference job) ≤ 255 ∧ valid_string (ej_ClientReference job) = true → outcome_coherent job →
  is_Some (EncodeTerminalWebhookEvent id now job).
Proof.
  intros Hid Hnow Ht Hj [Hl Hv] Hout. unfold EncodeTerminalWebhookEvent.
  rewrite Hid, Ht, Hj, Hv, (proj2 (Z.eqb_neq _ _) Hnow), (proj2 (Z.ltb_ge 255 _) Hl). simpl.
  unfold outcome_coherent in Hout. destruct (ej_Status job); try done.
  - destruct Hout as (-> & r & -> & Hr). by rewrite Hr.
  - destruct Hout as (-> & Hc). by rewrite Hc.
  - destruct Hout as (-> & ->). done.
Qed.

Lemma insert_event_progress json_payload window d job now ids r :
  announceable d job now ids → outcome_coherent job → jobs d !! ej_InternalID job = Some r →
  outbox d !! ej_InternalID job = None →
  ∃ x d', insertTerminalWebhookEvent json_payload window now ids job d = Ok (x, d').
Proof.
  intros [(id & rest & -> & Hid & Hfree) Hnow Ht Hj Href] Hout Hr Ho. unfold insertTerminalWebhookEvent. rewrite Hr.
  destruct (jb_Callback r) as [c|]; [|eauto]. simpl.
  destruct (encode_coherent id now job Hid Hnow Ht Hj Href Hout) as [payload ->]. rewrite Ho, Hfree. eauto.
Qed.

Section Progress.
Context (json_payload : terminalWebhookPayload → string) (window : Z).

(** The end of a settlement: the record is read back and the event written. *)
Lemma finish_progress d d2 j r r' job now ids :
  store_ok d → jobs d !! j = Some r → jb_Status r = JobStatusRunning → scanExternalJob d j = Ok job →
  announceable d job now ids →
  jobs d2 !! j = Some r' → outbox d2 = outbox d → tenants d2 = tenants d → bundles d2 = bundles d →
  sources d2 = sources d → callbacks d2 = callbacks d →
  jb_Tenant r' = jb_Tenant r → jb_Bundle r' = jb_Bundle r → jb_Source r' = jb_Source r →
  jb_ExternalID r' = jb_ExternalID r → jb_ClientReference r' = jb_ClientReference r →
  job_row_wf r' → terminal (jb_Status r') = true →
  ∃ job' x d3, getExternalJobByInternalID j d2 = Ok (job', d2) ∧
    insertTerminalWebhookEvent json_payload window now ids job' d2 = Ok (x, d3).
Proof.
  intros Hok Hr Hs Hscan [Hid Hnow Htn Hjb Href] Hj2 Ho Ht Hb Hsr Hc E1 E2 E3 E4 E5 [_ Hwf] Hterm.
  destruct (scan_same d d2 j r' Hj2 Ht Hb Hsr Hc r job Hr Hscan E1 E2 E3)
    as (job' & Hscan' & Hi & Hte & Hst & Hres & Hf & Hex & Hcr).
  { intros res Hr'. destruct (jb_Status r') eqn:E; try done; destruct_and!; try congruence.
    match goal with H : ∃ _, _ |- _ => destruct H as (? & ? & ?) end. congruence. }
  assert (Hjob : ej_ExternalID job = jb_ExternalID r ∧ ej_ClientReference job = default "" (jb_ClientReference r)).
  { unfold scanExternalJob in Hscan. rewrite Hr in Hscan.
    destruct (tenants d !! jb_Tenant r), (bundles d !! jb_Bundle r), (sources d !! jb_Source r); try done.
    repeat (match type of Hscan with context [if ?b then _ else _] => destruct b end; try done).
    all: injection Hscan as <-; done. }
  destruct Hjob as [Hje Hjc].
  assert (Hout : outcome_coherent job').
  { unfold outcome_coherent. rewrite Hst, Hres, Hf. destruct (jb_Status r'); try done.
    - destruct Hwf as (_ & _ & Hres' & -> & _). done.
    - destruct Hwf as (_ & -> & (code & -> & ?) & _). done.
    - destruct Hwf as (_ & _ & -> & -> & _). done. }
  assert (Hnone : outbox d2 !! j = None).
  { rewrite Ho. destruct (outbox d !! j) as [row|] eqn:Hrow; [|done].
    destruct (tk_outbox _ _ _ _ _ _ _ Hok _ _ Hrow) as (r0 & Hr0 & Ht0 & _).
    rewrite Hr in Hr0. injection Hr0 as <-. by rewrite Hs in Ht0. }
  destruct (insert_event_progress json_payload window d2 job' now ids r') as (x & d3 & Hins).
  - split; [|done|by rewrite Hte|by rewrite Hex, E4, <-Hje|by rewrite Hcr, E5, <-Hjc].
    destruct Hid as (id & rest & ? & ? & Hfree). exists id, rest. split_and!; [done..|].
    unfold event_id_taken. by rewrite Ho.
  - done.
  - by rewrite Hi.
  - by rewrite Hi.
  - exists job', x, d3. split; [|done]. unfold getExternalJobByInternalID. by rewrite Hscan'.
Qed.

Lemma lock_live d claim r tenant now :
  jobs d !! ej_InternalID (wc_Job claim) = Some r → tenants d !! jb_Tenant r = Some tenant →
  owns_job claim r = true → lease_live now r = true →
  lockActiveClaimAndPolicy claim now d = Ok ((is_some (jb_CancelRequestedAt r), tn_PolicyJSON tenant), d).
Proof. intros Hr Ht Ho Hl. unfold lockActiveClaimAndPolicy. by rewrite Hr, Ht, Ho, Hl. Qed.

Lemma scan_tenant d j r job :
  jobs d !! j = Some r → scanExternalJob d j = Ok job → ∃ tenant, tenants d !! jb_Tenant r = Some tenant.
Proof. intros Hr. unfold scanExternalJob. rewrite Hr. destruct (tenants d !! jb_Tenant r); [eauto|done]. Qed.

(** The row of a job after its settlement. *)
Lemma settled_row d claim r r' now cases full c status failure d1 d2 :
  store_ok d → jobs d !! ej_InternalID (wc_Job claim) = Some r → owns_job claim r = true →
  Forall (λ c, 0 ≤ dc_TimeMillis c) cases → status ≠ AttemptRunning → job_row_wf r' →
  terminal (jb_Status r') = true → jb_AttemptNo r' = jb_AttemptNo r → jb_Tenant r' = jb_Tenant r →
  settleAttemptReservation claim now cases full (set_jobs (insert (ej_InternalID (wc_Job claim)) r') d) = Ok (c, d1) →
  finishAttempt claim status failure c now d1 = Ok (tt, d2) →
  jobs d2 !! ej_InternalID (wc_Job claim) = Some r'.
Proof.
  intros Hok Hr Ho Hc Hs Hwf Ht Hn Hten Hset Hfin.
  eapply settle_claim_ok in Hfin as (_ & _ & _ & Hj & _); [|done|exact Hr|done|exact Hc|done|exact Hwf| |done|done|exact Hset].
  - apply Hj. intros E. by rewrite E in Ht.
  - intros E. by rewrite E in Ht.
Qed.

Lemma complete_progress d claim r job res now lockNow ids :
  store_ok d → claim_consistent d claim → jobs d !! ej_InternalID (wc_Job claim) = Some r →
  validWorkerClaim claim = true → owns_job claim r = true → lease_live lockNow r = true →
  scanExternalJob d (ej_InternalID (wc_Job claim)) = Ok job → announceable d job now ids →
  validateDurableJobResult res = true →
  ∃ d', CompleteTx json_payload window claim res now lockNow ids d = Ok (tt, d').
Proof.
  intros Hok Hcons Hr Hv Ho Hl Hscan Han Hres. apply owns_job_true in Ho as Ho'. destruct Ho' as (Hs & _).
  destruct (scan_tenant _ _ _ _ Hr Hscan) as [tenant Ht].
  set (c := is_some (jb_CancelRequestedAt r)).
  set (f := λ r, release_job (if c then JobStatusCancelled else JobStatusSucceeded) (jb_NextAttemptAt r)
                   (if c then None else Some res) None (Some now) r).
  assert (Hwf : job_row_wf (f r)).
  { unfold f, c. destruct (jb_CancelRequestedAt r) eqn:E; simpl.
    - apply release_cancelled_wf; [exact (job_wf _ _ _ Hok Hr)|done|by rewrite E].
    - apply release_succeeded_wf; [exact (job_wf _ _ _ Hok Hr)|done..]. }
  assert (Hterm : terminal (jb_Status (f r)) = true) by (unfold f; by destruct c).
  destruct (settle_progress d claim r (insert (ej_InternalID (wc_Job claim)) (f r)) now (dr_Cases res)
    (bool_decide (dr_Cases res = []) && (c || bool_decide (dr_CompileStatus res = "FAILED")))
    (if c then AttemptCancelled else AttemptSucceeded) "" Hok Hcons Hr Ho)
    as (amount & d1 & d2 & Hset & Hfin & Hob & Htn & Hbn & Hsr & Hcb); [by destruct c|].
  assert (Hj2 : jobs d2 !! ej_InternalID (wc_Job claim) = Some (f r)).
  { eapply settled_row; [exact Hok|exact Hr|exact Ho|by apply cases_times| |exact Hwf|exact Hterm|done|done|exact Hset|exact Hfin].
    by destruct c. }
  destruct (finish_progress d d2 _ r (f r) job now ids Hok Hr Hs Hscan Han Hj2 Hob Htn Hbn Hsr Hcb)
    as (job' & x & d3 & Hget & Hins); [done..|].
  exists d3. unfold CompleteTx. rewrite Hv, Hres. unfold tx_guard, mbind, tx_bind, mret, tx_ret. simpl.
  rewrite (lock_live _ _ _ _ _ Hr Ht Ho Hl). fold c. fold f.
  rewrite (update_owned d claim r f Hr Ho) by (unfold f; by destruct c). simpl.
  rewrite Hset, Hfin, Hget, Hins. done.
Qed.

(** Progress. In a state that satisfies the store invariant, the owner of a
    live lease can complete its job with any valid result: no missing attempt,
    reservation or ledger row can make the transaction fail, provided the job row
    still joins its tenant, bundle and source and its event can be announced. *)
Lemma live_claim_can_complete d claim r job res now lockNow ids :
  store_ok d → claim_consistent d claim → jobs d !! ej_InternalID (wc_Job claim) = Some r →
  validWorkerClaim claim = true → owns_job claim r = true → lease_live lockNow r = true →
  scanExternalJob d (ej_InternalID (wc_Job claim)) = Ok job → announceable d job now ids →
  validateDurableJobResult res = true →
  ∃ d', CompleteTx json_payload window claim res now lockNow ids d = Ok (tt, d') ∧
    jb_Status <$> jobs d' !! ej_InternalID (wc_Job claim) =
      Some (if jb_CancelRequestedAt r then JobStatusCancelled else JobStatusSucceeded).
Proof.
  intros Hok Hcons Hr Hv Ho Hl Hscan Han Hres.
  destruct (complete_progress d claim r job res now lockNow ids) as [d' H]; [done..|].
  exists d'. split; [done|]. apply CompleteTx_step in H as (_ & _ & r0 & r' & Hr0 & _ & _ & _ & Hr' & _ & Hj); [|done].
  rewrite Hr in Hr0. injection Hr0 as <-. rewrite Hj, Hr'. by destruct (jb_CancelRequestedAt r).
Qed.
End Progress.
