(* ===== verification/StoreWorker.v ===== *)
(** * The MySQL repository keeps its promises to the runner

    The instance of [RepositoryLaws] of [Runner] by the transactions of
    [JobWorker].

    The second part is the order in which claims select jobs. *)
From stdpp Require Import prelude gmap strings.
From S2P Require Import Prelude.
From S2P Require Import GoText.
From S2P Require Import JobState.
From S2P Require Import Manifest.
From S2P Require Import Runner.
From S2P Require Import Store.
From S2P Require Import JobWorker.
From S2P Require Import StoreInvariant.
From S2P Require Import StoreSteps.
From S2P Require Import StoreProgress.
From S2P Require Import JobRepository.
From S2P Require Import StoreClaim.

Open Scope Z_scope.

(** No retention in the steps considered here. *)
#[local] Existing Instance nothing_retired.

(** The database with what the next call reads: its clock, the lock time, the
    event identifiers it draws and, for a claim, what it sees of the others. *)
Record mysql_world : Type := mkWorld {
  mw_db : db;
  mw_now : Z;
  mw_lockNow : Z;
  mw_ids : list string;
  mw_envs : list claim_env
}.

Definition set_world (w : mysql_world) (d : db) : mysql_world :=
  mkWorld d (mw_now w) (mw_lockNow w) (mw_ids w) (mw_envs w).

Definition to_run_error (e : external_error) : run_error :=
  match e with
  | ErrStaleJobClaim => RunStaleClaim
  | ErrJobNotClaimable => RunNotClaimable
  | _ => RunOther
  end.

Section Instance.
Context (json_policy : string → option TenantPolicy) (json_manifest : string → option Manifest)
        (json_payload : terminalWebhookPayload → string) (sql_policy_int : string → string → option Z).
Context (window : Z).

Definition lift_tx {A} (w : mysql_world) (m : tx A) : result run_error unit * mysql_world :=
  match m (mw_db w) with
  | Ok (_, d) => (Ok tt, set_world w d)
  | Err e => (Err (to_run_error e), w)
  end.

Definition mysql_claim_next (w : mysql_world) (workerID : string) (lease : Z) : result run_error WorkerJobClaim * mysql_world :=
  match ClaimNext json_policy json_manifest json_payload sql_policy_int window workerID lease id (mw_envs w) (mw_db w) with
  | (Ok claim, d) => (Ok claim, set_world w d)
  | (Err e, d) => (Err (to_run_error e), set_world w d)
  end.

#[export] Instance mysql_repository : Repository mysql_world WorkerJobClaim := {|
  repo_Complete w claim r := lift_tx w (CompleteTx json_payload window claim r (mw_now w) (mw_lockNow w) (mw_ids w));
  repo_FailInfrastructure w claim failure :=
    lift_tx w (FailInfrastructureTx json_policy json_payload window claim failure (mw_now w) (mw_lockNow w) (mw_ids w));
  repo_ClaimNext := mysql_claim_next
|}.

(** The claim is the live owner of its job. *)
Definition live_owner (w : mysql_world) (claim : WorkerJobClaim) : Prop :=
  ∃ r, jobs (mw_db w) !! ej_InternalID (wc_Job claim) = Some r ∧ owns_job claim r = true ∧
       lease_live (mw_lockNow w) r = true.

(** Errors of the tail of a settlement are never stale-claim errors. *)
Lemma event_not_stale now ids job d : insertTerminalWebhookEvent json_payload window now ids job d ≠ Err ErrStaleJobClaim.
Proof.
  unfold insertTerminalWebhookEvent. destruct (jobs d !! _) as [r|]; [|done]. destruct (jb_Callback r); [|done].
  induction (take 8 ids) as [|id l IH]; [done|]. cbn [insert_event_loop].
  destruct (EncodeTerminalWebhookEvent _ _ _); [|done]. destruct (outbox d !! _).
  - destruct (EncodeTerminalWebhookEvent _ _ _); [|done]. by destruct (_ || _).
  - by destruct (event_id_taken _ _).
Qed.

Lemma record_not_stale j d : getExternalJobByInternalID j d ≠ Err ErrStaleJobClaim.
Proof. unfold getExternalJobByInternalID. by destruct (scanExternalJob d j). Qed.

Lemma complete_not_stale d claim r res now lockNow ids :
  store_ok d → claim_consistent d claim → jobs d !! ej_InternalID (wc_Job claim) = Some r → owns_job claim r = true →
  lease_live lockNow r = true → CompleteTx json_payload window claim res now lockNow ids d ≠ Err ErrStaleJobClaim.
Proof.
  intros Hok Hcons Hr Ho Hl. unfold CompleteTx, tx_guard, mbind, tx_bind, mret, tx_ret.
  destruct (_ && _); [|done]. unfold lockActiveClaimAndPolicy. rewrite Hr, Ho, Hl.
  destruct (tenants d !! _) as [tenant|]; [|done]. simpl. set (c := is_some _).
  set (f := λ r, release_job _ _ _ _ _ r). rewrite (update_owned d claim r f Hr Ho) by (unfold f; by destruct c).
  simpl. destruct (settle_progress d claim r (insert (ej_InternalID (wc_Job claim)) (f r)) now (dr_Cases res)
    (bool_decide (dr_Cases res = []) && (c || bool_decide (dr_CompileStatus res = "FAILED")))
    (if c then AttemptCancelled else AttemptSucceeded) "" Hok Hcons Hr Ho) as (amount & d1 & d2 & -> & -> & _); [by destruct c|].
  pose proof (record_not_stale (ej_InternalID (wc_Job claim)) d2).
  destruct (getExternalJobByInternalID _ d2) as [[job d3]|e]; [|congruence].
  pose proof (event_not_stale now ids job d3). destruct (insertTerminalWebhookEvent _ _ _ _ _ d3) as [[x d4]|e]; [done|congruence].
Qed.

Lemma fail_not_stale d claim r failure now lockNow ids :
  store_ok d → claim_consistent d claim → jobs d !! ej_InternalID (wc_Job claim) = Some r → owns_job claim r = true →
  lease_live lockNow r = true →
  FailInfrastructureTx json_policy json_payload window claim failure now lockNow ids d ≠ Err ErrStaleJobClaim.
Proof.
  intros Hok Hcons Hr Ho Hl. unfold FailInfrastructureTx, tx_guard, mbind, tx_bind, mret, tx_ret.
  destruct (_ && _); [|done]. unfold lockActiveClaimAndPolicy. rewrite Hr, Ho, Hl.
  destruct (tenants d !! _) as [tenant|]; [|done]. simpl. destruct (decodeTenantPolicy _ _) as [policy|]; [|done].
  set (c := is_some _). set (disp := failure_disposition _ _ _ _).
  set (f := λ r, match disp with FailureRequeued => _ | FailureTerminal => _ | FailureCancelled => _ end).
  rewrite (update_owned d claim r f Hr Ho) by (unfold f; by destruct disp).
  simpl. destruct (settle_progress d claim r (insert (ej_InternalID (wc_Job claim)) (f r)) now [] 
    (inf_ChargeFullReservation failure) (if c then AttemptCancelled else AttemptFailed)
    (if c then "" else inf_Code failure) Hok Hcons Hr Ho) as (amount & d1 & d2 & -> & -> & _); [by destruct c|].
  destruct (bool_decide _); [done|]. pose proof (record_not_stale (ej_InternalID (wc_Job claim)) d2).
  destruct (getExternalJobByInternalID _ d2) as [[job d3]|e]; [|congruence].
  pose proof (event_not_stale now ids job d3). destruct (insertTerminalWebhookEvent _ _ _ _ _ d3) as [[x d4]|e]; [done|congruence].
Qed.

Lemma released_not_owner d d' claim r' :
  jobs_sim (<[ej_InternalID (wc_Job claim) := r']> (jobs d)) (jobs d') → jb_Status r' ≠ JobStatusRunning →
  ∀ r, jobs d' !! ej_InternalID (wc_Job claim) = Some r → owns_job claim r = false.
Proof.
  intros Hs Hst r Hr. destruct (jobs_sim_lookup _ _ _ _ Hs Hr) as (r0 & Hr0 & Hsim).
  rewrite lookup_insert_eq in Hr0. injection Hr0 as <-. apply job_sim_fields in Hsim as (_ & _ & E & _).
  destruct (owns_job claim r) eqn:Ho; [|done]. apply owns_job_true in Ho as (? & _). congruence.
Qed.

(** The MySQL repository satisfies the contract the runner relies on: under
    the store invariant, and for a claim that names its job's tenant, a
    settlement that commits leaves the claim without its job, and a stale-claim
    error is only returned when the claim is not the live owner of its job. *)
#[export] Program Instance mysql_repository_laws : RepositoryLaws mysql_world WorkerJobClaim := {|
  repo_inv w claim := store_ok (mw_db w) ∧ claim_consistent (mw_db w) claim;
  repo_active := live_owner
|}.
Next Obligation.
  intros w claim res w' [Hok Hcons]. simpl. unfold lift_tx. destruct (CompleteTx _ _ _ _ _ _ _ _) as [[u d']|e] eqn:E; [|done].
  intros [= <-] (r & Hr & Ho & _). simpl in Hr.
  apply CompleteTx_step in E as (_ & _ & r0 & r' & _ & _ & _ & _ & Hr' & Hsim & _); [|done].
  rewrite (released_not_owner _ _ _ r' Hsim) in Ho; [done| |exact Hr]. rewrite Hr'. by destruct (jb_CancelRequestedAt r0).
Qed.
Next Obligation.
  intros w claim res w' [Hok Hcons]. simpl. unfold lift_tx. destruct (CompleteTx _ _ _ _ _ _ _ _) as [[u d']|e] eqn:E; [done|].
  intros [= He <-] (r & Hr & Ho & Hl). eapply complete_not_stale; [exact Hok|exact Hcons|exact Hr|exact Ho|exact Hl|].
  rewrite E. by destruct e.
Qed.
Next Obligation.
  intros w claim failure w' [Hok Hcons]. simpl. unfold lift_tx.
  destruct (FailInfrastructureTx _ _ _ _ _ _ _ _ _) as [[disp d']|e] eqn:E; [|done].
  intros [= <-] (r & Hr & Ho & _). simpl in Hr.
  apply FailInfrastructureTx_step in E as (_ & _ & r0 & ? & ? & _ & _ & _ & _ & _ & _ & Hsim & _); [|done].
  rewrite (released_not_owner _ _ _ _ Hsim) in Ho; [done| |exact Hr]. by destruct disp.
Qed.
Next Obligation.
  intros w claim failure w' [Hok Hcons]. simpl. unfold lift_tx.
  destruct (FailInfrastructureTx _ _ _ _ _ _ _ _ _) as [[disp d']|e] eqn:E; [done|].
  intros [= He <-] (r & Hr & Ho & Hl). eapply fail_not_stale; [exact Hok|exact Hcons|exact Hr|exact Ho|exact Hl|].
  rewrite E. by destruct e.
Qed.

(** No worker leaks a job of the MySQL store. When the runner's
    [ExecuteClaim] over the repository returns without an error, the job is not
    held by the claim's live lease any more. *)
Lemma mysql_ExecuteClaim_never_leaks config w claim ctxDone controlErr execution w' :
  store_ok (mw_db w) → claim_consistent (mw_db w) claim →
  (controlErr = Some RunStaleClaim → ¬ live_owner w claim) →
  (∀ code, execution = Err (code, RunStaleClaim) → ¬ live_owner w claim) →
  ExecuteClaim config w claim ctxDone controlErr execution = (Ok tt, w') → ¬ live_owner w' claim.
Proof. intros Hok Hcons. exact (ExecuteClaim_releases config w claim ctxDone controlErr execution w' (conj Hok Hcons)). Qed.
End Instance.

(** * Choosing and claiming the next job

    The reservation a manifest needs, the fairness of the tenant selection and
    what [ClaimNext] hands to a worker. *)
(** No retention in the steps considered here. *)
#[local] Existing Instance nothing_retired.

(** ** The reservation of a manifest *)

(** The wall time of one case: the solution and then the checker. *)
Definition case_budget (m : Manifest) : Z :=
  TimeLimitMillis (m_Limits m) + match m_SpecialJudge m with Some sj => sj_TimeLimitMillis sj | None => 0 end.

Lemma budget_division count budget : 0 < count → max_int64 / count < budget ↔ max_int64 < budget * count.
Proof.
  intros Hc. pose proof (Z.div_mod max_int64 count) as Hm. pose proof (Z.mod_pos_bound max_int64 count Hc).
  split; intros H0; [nia|]. apply Z.div_lt_upper_bound; lia.
Qed.

Lemma budget_total count budget n :
  0 < count → 0 < budget →
  (if max_int64 / count <? budget then None else Some (wrap_int64 (budget * count))) = Some n ↔
  n = count * budget ∧ n ≤ max_int64.
Proof.
  intros Hc Hb. pose proof (budget_division count budget Hc). destruct (Z.ltb_spec (max_int64 / count) budget).
  - split; [done|]. intros [-> ?]. nia.
  - rewrite wrap_int64_id by (unfold min_int64; nia). split; [intros [= <-]|intros [-> _]; f_equal]; nia.
Qed.

(** The reservation of a job is exactly its worst case, the number of cases
    times the time limits of the solution and of the checker, computed without
    overflow: a manifest has a reservation exactly when that product fits in an
    [int64], and then the reservation is the product. *)
Lemma maximumManifestExecutionMillis_exact m n :
  maximumManifestExecutionMillis m = Some n ↔
  m_Cases m ≠ [] ∧ 0 < TimeLimitMillis (m_Limits m) ∧
  (∀ sj, m_SpecialJudge m = Some sj → 0 < sj_TimeLimitMillis sj) ∧
  n = Z.of_nat (length (m_Cases m)) * case_budget m ∧ n ≤ max_int64.
Proof.
  unfold maximumManifestExecutionMillis, case_budget. set (count := Z.of_nat (length (m_Cases m))).
  assert (Hcount : m_Cases m ≠ [] ↔ 0 < count) by (unfold count; destruct (m_Cases m); cbn [length]; split; intros; lia || done).
  assert (Hc0 : 0 ≤ count) by (unfold count; lia). rewrite Hcount. clearbody count. clear Hcount.
  destruct (Z.eqb_spec count 0); [simpl; split; [done|lia]|].
  destruct (Z.leb_spec (TimeLimitMillis (m_Limits m)) 0); simpl; [split; [done|lia]|].
  destruct (m_SpecialJudge m) as [sj|].
  - destruct (Z.leb_spec (sj_TimeLimitMillis sj) 0); simpl.
    { split; [done|]. intros (_ & _ & Hsj & _). specialize (Hsj sj eq_refl). lia. }
    destruct (Z.ltb_spec (max_int64 - sj_TimeLimitMillis sj) (TimeLimitMillis (m_Limits m))).
    { split; [done|]. intros (_ & _ & _ & -> & ?). nia. }
    rewrite wrap_int64_id by (unfold min_int64; lia). rewrite budget_total by lia.
    split; [intros []; split_and!; try lia; by intros ? [= <-]|by intros (_ & _ & _ & ?)].
  - rewrite Z.add_0_r, budget_total by lia.
    split; [intros []; split_and!; try lia; done|by intros (_ & _ & _ & ?)].
Qed.

(** ** Fair selection *)

(** The tenant selection is fair. The tenant it picks is claimable and not
    locked, and no other such tenant comes before it: tenants with an expired
    job first, then tenants never served, then the least recently served. *)
Lemma select_tenant_fair sql_policy_int d now locked t tenant :
  select_tenant sql_policy_int d now locked = Some (t, tenant) →
  tenants d !! t = Some tenant ∧ tenant_claimable sql_policy_int d now t tenant = true ∧ t ∉ locked ∧
  ∀ t' tenant', tenants d !! t' = Some tenant' → tenant_claimable sql_policy_int d now t' tenant' = true →
    t' ∉ locked → tenant_before d now (t', tenant') (t, tenant) = false.
Proof.
  intros H. pose proof (first_by_elem _ _ _ H) as Hin. apply list_elem_of_filter in Hin as [[Hc Hl] Hin].
  apply elem_of_map_to_list in Hin. split_and!; [done..|]. intros t' tenant' Ht' Hc' Hl'.
  eapply (first_by_least (tenant_before d now)); [apply tenant_before_asym|apply tenant_before_neg_trans|exact H|].
  apply list_elem_of_filter. split; [done|]. by apply elem_of_map_to_list.
Qed.

(** ** The claim handed to the worker *)
Section ClaimNext.
Context (json_policy : string → option TenantPolicy) (json_manifest : string → option Manifest)
        (json_payload : terminalWebhookPayload → string) (sql_policy_int : string → string → option Z).
Context (window : Z).

Lemma claim_loop_ok w lease interfere envs d c d' :
  (∀ d, store_ok d → store_ok (interfere d)) → store_ok d →
  claim_loop json_policy json_manifest json_payload sql_policy_int window w lease interfere envs d = (Ok c, d') →
  ∃ env d1, env ∈ envs ∧ store_ok d1 ∧
    claimOneWithClock json_policy json_manifest json_payload sql_policy_int window w lease env d1
      = ClaimCommitted (Claimed c) d'.
Proof.
  intros Hint. revert d. induction envs as [|env envs IH]; intros d Hok; [done|]. cbn [claim_loop].
  destruct (claimOneWithClock _ _ _ _ _ _ _ _ _) as [[c'|] d1|retry e] eqn:Hone.
  - intros [= <- <-]. exists env, d. split_and!; [left|done..].
  - intros H. apply claimOne_step in Hone as (Hok1 & _); [|done].
    apply IH in H as (env' & d2 & ? & ? & ?); [|auto]. exists env', d2. split_and!; [by right|done..].
  - destruct retry, e; try done. intros H.
    apply IH in H as (env' & d2 & ? & ? & ?); [|auto]. exists env', d2. split_and!; [by right|done..].
Qed.

(** What [ClaimNext] returns is a live claim: whatever other transactions
    commit in between, the job's row names the worker, the attempt, the token and
    a lease that runs for [leaseDuration] from the claim, its attempt is running,
    and the claim names the job's tenant. *)
Lemma ClaimNext_returns_live_claim w lease interfere envs d c d' :
  (∀ d, store_ok d → store_ok (interfere d)) → store_ok d →
  ClaimNext json_policy json_manifest json_payload sql_policy_int window w lease interfere envs d = (Ok c, d') →
  store_ok d' ∧ claim_consistent d' c ∧
  ∃ env r, env ∈ take 32 envs ∧ jobs d' !! ej_InternalID (wc_Job c) = Some r ∧ owns_job c r = true ∧
    wc_WorkerID c = w ∧ jb_LeaseUntil r = Some (ce_Now env + lease) ∧ wc_LeaseUntil c = ce_Now env + lease ∧
    lease_live (ce_Now env) r = true ∧
    ∃ a, attempts d' !! (ej_InternalID (wc_Job c), wc_AttemptNo c) = Some a ∧ owns_attempt c a = true.
Proof.
  intros Hint Hok. unfold ClaimNext, lease_duration_ok. destruct (_ || _) eqn:Hg; [done|]. bool_to_prop.
  intros (env & d1 & Henv & Hok1 & Hone)%claim_loop_ok; [|done..].
  apply claimOne_step in Hone as (Hok' & _ & j & r0 & r' & _ & policy & Hr0 & _ & _ & _ & _ & Hch & Hsim); [|done].
  inversion Hch as [c' Hst Hmax _ _ Hid Htn Hwk Hn Htok Hu Hc' Hr'| | | | | |]. subst c'. rewrite Hr' in Hsim.
  destruct (jobs_sim_lookup_l _ _ j r' Hsim) as (r & Hr & Hs); [by rewrite lookup_insert_eq|].
  apply job_sim_fields in Hs. subst r'. simpl in Hs. destruct_and!. rewrite Hid.
  assert (Ho : owns_job c r = true) by (apply owns_job_true; split_and!; congruence).
  split_and!; [done|intros r1 Hr1; rewrite Hid in Hr1; congruence|].
  exists env, r. split_and!; try done; [unfold lease_live; destruct (jb_LeaseUntil r); simplify_eq; lia|].
  destruct (running_attempt d' j r Hok' Hr) as (a & Ha & Hrun); [congruence|].
  destruct (tk_attempts _ _ _ _ _ _ _ Hok' _ _ _ Ha) as [(r1 & Hr1 & _ & _ & Hm) _].
  rewrite Hr in Hr1. injection Hr1 as <-. destruct (Hm Hrun) as (_ & _ & ? & ?).
  exists a. split; [congruence|]. unfold owns_attempt. rewrite !bool_decide_eq_true_2; [done|done|congruence..].
Qed.
End ClaimNext.
