(* ===== verification/Submission.v ===== *)
(** * Submitting a job, outside and around its transaction

    The request identity of [internal/external/job_request.go], the phases of
    [Submit] ([mysql_job_repository.go]) with the reservations that protect the
    encrypted source object, and the reservation sweeper
    ([source_reservation.go], [source_reservation_worker.go]).

    A submission is a thread whose phases are the statements [Submit] issues
    one at a time; submissions, sweepers and other transactions interleave over
    one database and one object store. *)
From stdpp Require Import prelude gmap strings pretty.
From S2P Require Import Prelude.
From S2P Require Import GoText.
From S2P Require Import JobState.
From S2P Require Import Manifest.
From S2P Require Import BatchPipeline.
From S2P Require Import Store.
From S2P Require Import JobWorker.
From S2P Require Import JobRepository.
From S2P Require Import StoreInvariant.
From S2P Require Import StoreSteps.
From S2P Require Import StoreReach.

Open Scope Z_scope.

(** ** The identity of a request *)
Definition ValidateIdempotencyKey (key : string) : bool :=
  negb ((len key <? 16) || (128 <? len key)) && string_forallb visible_ascii key.

(** [^[a-z][a-z0-9._-]{1,31}$] *)
Definition language_tail (a : Ascii.ascii) : bool :=
  lower a || digit a || is_char 46 a || is_char 95 a || is_char 45 a.

Definition languageIDPattern (s : string) : bool :=
  match s with
  | "" => false
  | String a s => lower a && string_forallb language_tail s && in_range 1 31 (len s)
  end.

Definition json_member (name value : string) : string := json_key name +:+ value.
Definition json_bool (b : bool) : string := if b then "true" else "false".

Section Identity.
(** SHA-256 and HMAC-SHA-256. *)
Context (sha256 : string → string) (hmac_sha256 : string → string → string).

Definition DigestIdempotencyKey (key pepper : string) : option string :=
  if negb (ValidateIdempotencyKey key) then None
  else if len pepper <? 32 then None
  else Some (hmac_sha256 pepper key).

(** [json.Marshal] of the canonical request; the last two members are omitted
    when empty. *)
Definition canonical_request (request : JudgeJobRequest) : string :=
  "{" +:+ json_member "bundleId" (json_string (rq_BundleID request)) +:+ "," +:+
  json_member "language" (json_string (rq_Language request)) +:+ "," +:+
  json_member "sourceSha256" (json_string (hex_encode (sha256 (rq_SourceCode request)))) +:+ "," +:+
  json_member "sourceSizeBytes" (pretty (len (rq_SourceCode request))) +:+ "," +:+
  json_member "stopOnFailure" (json_bool (rq_StopOnFailure request)) +:+
  (if bool_decide (rq_CallbackID request = "") then ""
   else "," +:+ json_member "callbackId" (json_string (rq_CallbackID request))) +:+
  (if bool_decide (rq_ClientReference request = "") then ""
   else "," +:+ json_member "clientReference" (json_string (rq_ClientReference request))) +:+ "}".

Definition CanonicalJobRequestHash (request : JudgeJobRequest) (maxSourceBytes : Z) : option string :=
  if negb (externalIDPattern (rq_BundleID request)) then None
  else if negb (languageIDPattern (rq_Language request)) then None
  else if (maxSourceBytes <=? 0) || (len (rq_SourceCode request) =? 0) ||
          (maxSourceBytes <? len (rq_SourceCode request)) || negb (valid_string (rq_SourceCode request)) then None
  else if negb (bool_decide (rq_CallbackID request = "")) && negb (externalIDPattern (rq_CallbackID request)) then None
  else if (255 <? len (rq_ClientReference request)) || negb (valid_string (rq_ClientReference request)) then None
  else Some (sha256 (canonical_request request)).

Definition SourceObjectKey (tenantID sourceID : string) : option string :=
  if negb (externalIDPattern tenantID) || negb (externalIDPattern sourceID) then None
  else Some ("external/" +:+ tenantID +:+ "/sources/" +:+ sourceID +:+ ".bin").

(** [submissionSourceExternalID]: the first 16 bytes of the digest. *)
Definition submissionSourceExternalID (tenantExternalID keyDigest : string) : string :=
  base32_encode (stake 16 (sha256 (tenantExternalID +:+ String (ascii_of_byte 0) keyDigest))).

(** What [Submit] computes before it touches the database. [sourceExternalID],
    [jobExternalID] and the two tokens come from the random source, [encrypt]
    is the source cipher. *)
Definition prepare_submission (pepper tenantExternalID idempotencyKey : string) (request : JudgeJobRequest)
    (sourceExternalID jobExternalID coordinationToken sourceToken : string)
    (encrypt : string → string → string → option EncryptedSource) : result external_error submission :=
  _ ← guard_err (externalIDPattern tenantExternalID) ErrExternalJobInvalid;
  keyDigest ← from_option (DigestIdempotencyKey idempotencyKey pepper) ErrExternalJobInvalid;
  requestHash ← from_option (CanonicalJobRequestHash request (len (rq_SourceCode request))) ErrExternalJobInvalid;
  coordinationKey ← from_option (SourceObjectKey tenantExternalID (submissionSourceExternalID tenantExternalID keyDigest))
                      ErrExternalJobUnavailable;
  sourceKey ← from_option (SourceObjectKey tenantExternalID sourceExternalID) ErrExternalJobUnavailable;
  encrypted ← from_option (encrypt tenantExternalID sourceExternalID (rq_SourceCode request)) ErrExternalJobUnavailable;
  mret (mkSubmission tenantExternalID keyDigest requestHash request jobExternalID sourceExternalID encrypted
          (mkReservationClaim coordinationKey coordinationToken) (mkReservationClaim sourceKey sourceToken)).
End Identity.

(** ** The statements of [Submit] *)
Definition ttl_submission_limit : Z := 30 * minute.
Definition sourceReservationAdmissionLease : Z := 25 * minute.
Definition submissionCompensationAllowance : Z := minute.
Definition sourceReservationSweepLease : Z := 15 * minute.

(** [findSubmitReplay]: the job of a live record of the same key, a conflict
    when it was made by another request. *)
Definition findSubmitReplay (s : submission) (now : Z) (d : db) : result external_error (option ExternalJobRecord) :=
  match find_tenant d (su_Tenant s) with
  | None => Ok None
  | Some (tenantID, _) =>
      match idempotency d !! (tenantID, su_KeyDigest s) with
      | None => Ok None
      | Some record =>
          if ik_ExpiresAt record <=? now then Ok None
          else if negb (bool_decide (ik_RequestHash record = su_RequestHash s)) then Err ErrExternalJobConflict
          else
            match getExternalJob d (su_Tenant s) (ik_ResourceExternalID record) with
            | Ok job => Ok (Some job)
            | Err _ => Err ErrExternalJobUnavailable
            end
      end
  end.

Section Statements.
Context (json_policy : string → option TenantPolicy).

Definition preflightSubmit (s : submission) (d : db) : result external_error unit :=
  let request := su_Request s in
  match find_tenant d (su_Tenant s) with
  | None => Err ErrExternalJobUnavailable
  | Some (tenantID, tenant) =>
      _ ← guard_err (bool_decide (tn_Status tenant = "ACTIVE")) ErrExternalJobUnavailable;
      policy ← from_option (decodeTenantPolicy json_policy (tn_PolicyJSON tenant)) ErrExternalJobUnavailable;
      _ ← guard_err (len (rq_SourceCode request) <=? MaxSourceBytes policy) ErrExternalJobInvalid;
      _ ← guard_err (queued_count d tenantID <? MaxQueuedJobs policy) ErrQueuedQuotaExceeded;
      _ ← guard_err (is_some (find_bundle d tenantID (rq_BundleID request))) ErrExternalJobInvalid;
      guard_err (bool_decide (rq_CallbackID request = "") ||
                 is_some (find_callback d tenantID (rq_CallbackID request))) ErrExternalJobInvalid
  end.

(** [tryAcquireSourceReservation]: [INSERT IGNORE], then the takeover of an
    expired row. *)
Definition tryAcquireSourceReservation (claim : sourceReservationClaim) (lease now : Z) (d : db) : bool * db :=
  let row := mkReservationRow (rc_OwnerToken claim) (now + lease) now in
  match reservations d !! rc_ObjectKey claim with
  | None => (true, set_reservations (insert (rc_ObjectKey claim) row) d)
  | Some r =>
      if rs_LeaseUntil r <=? now then (true, set_reservations (insert (rc_ObjectKey claim) row) d)
      else (false, d)
  end.

(** [submissionCoordinationLease] of a context with a deadline. *)
Definition submissionCoordinationLease (deadline now : Z) : Z :=
  Z.max 0 (deadline - now) + submissionCompensationAllowance.

(** ** The phases of a submission *)
Inductive submit_phase : Type :=
| AtReplay
| AtPreflight
| AtCoordinationReplay
| AtCoordination
| AtRecheck
| AtAdmit
| AtReserve
| AtCreate
| AtTransaction
| AtCompensation (outcome : result external_error submit_outcome)
| AtRelease (outcome : result external_error submit_outcome) (claims : list sourceReservationClaim)
| Returned (outcome : result external_error submit_outcome).

Definition objects : Type := gset string.

Definition unavailable : result external_error submit_outcome := Err ErrExternalJobUnavailable.

(** Where a replay lookup leads: on to [next], or out through [stop]. *)
Definition after_replay (r : result external_error (option ExternalJobRecord)) (next : submit_phase)
    (stop : result external_error submit_outcome → submit_phase) : submit_phase :=
  match r with
  | Ok None => next
  | Ok (Some job) => stop (Ok (ReplayedJob job))
  | Err e => stop (Err e)
  end.

(** One statement of one submission. [deadline] is that of its context; every
    statement can also fail, and a failed create, delete or commit may have
    taken effect. [ttl] is the retention of the idempotency record. *)
Inductive submit_step (s : submission) (deadline ttl now : Z) :
    submit_phase → db → objects → submit_phase → db → objects → Prop :=
| step_replay d o : submit_step s deadline ttl now AtReplay d o
    (after_replay (findSubmitReplay s now d) AtPreflight Returned) d o
| step_preflight_ok d o : preflightSubmit s d = Ok tt → submit_step s deadline ttl now AtPreflight d o AtCoordinationReplay d o
| step_preflight_refused d o e : preflightSubmit s d = Err e → submit_step s deadline ttl now AtPreflight d o (Returned (Err e)) d o
| step_coordination_replay d o : submit_step s deadline ttl now AtCoordinationReplay d o
    (after_replay (findSubmitReplay s now d) AtCoordination Returned) d o
| step_coordination d o b d' :
    now < deadline →
    tryAcquireSourceReservation (su_Coordination s) (submissionCoordinationLease deadline now) now d = (b, d') →
    submit_step s deadline ttl now AtCoordination d o (if b then AtRecheck else AtCoordinationReplay) d' o
| step_recheck d o : submit_step s deadline ttl now AtRecheck d o
    (after_replay (findSubmitReplay s now d) AtAdmit (λ out, AtRelease out [su_Coordination s])) d o
| step_admit d o : submit_step s deadline ttl now AtAdmit d o AtReserve d o
| step_refuse d o e : submit_step s deadline ttl now AtAdmit d o (AtRelease (Err e) [su_Coordination s]) d o
| step_reserve d o b d' :
    now < deadline →
    tryAcquireSourceReservation (su_Source s) sourceReservationAdmissionLease now d = (b, d') →
    submit_step s deadline ttl now AtReserve d o (if b then AtCreate else AtReserve) d' o
| step_reserve_failed d o :
    submit_step s deadline ttl now AtReserve d o (AtRelease unavailable [su_Coordination s]) d o
| step_create d o :
    now < deadline → rc_ObjectKey (su_Source s) ∉ o →
    submit_step s deadline ttl now AtCreate d o AtTransaction d ({[rc_ObjectKey (su_Source s)]} ∪ o)
| step_create_exists d o :
    rc_ObjectKey (su_Source s) ∈ o →
    submit_step s deadline ttl now AtCreate d o
      (after_replay (findSubmitReplay s now d) (Returned unavailable)
         (λ out, match out with Ok _ => AtRelease out [su_Coordination s; su_Source s] | Err _ => Returned unavailable end)) d o
| step_create_failed d o o' :
    o' = o ∨ (now < deadline ∧ rc_ObjectKey (su_Source s) ∉ o ∧ o' = {[rc_ObjectKey (su_Source s)]} ∪ o) →
    submit_step s deadline ttl now AtCreate d o (Returned unavailable) d o'
| step_transaction_committed d o sourceID jobID lockNow job d' :
    SubmitTx json_policy s sourceID jobID lockNow now ttl d = Ok (SubmittedJob job, d') →
    submit_step s deadline ttl now AtTransaction d o (Returned (Ok (SubmittedJob job))) d' o
| step_transaction_ambiguous d o sourceID jobID lockNow job d' d'' :
    SubmitTx json_policy s sourceID jobID lockNow now ttl d = Ok (SubmittedJob job, d') → d'' = d ∨ d'' = d' →
    submit_step s deadline ttl now AtTransaction d o (Returned unavailable) d'' o
| step_transaction_replayed d o sourceID jobID lockNow job d' :
    SubmitTx json_policy s sourceID jobID lockNow now ttl d = Ok (ReplayedJob job, d') →
    submit_step s deadline ttl now AtTransaction d o (AtCompensation (Ok (ReplayedJob job))) d o
| step_transaction_refused d o e : submit_step s deadline ttl now AtTransaction d o (AtCompensation (Err e)) d o
| step_compensated d o out :
    submit_step s deadline ttl now (AtCompensation out) d o
      (AtRelease out [su_Coordination s; su_Source s]) d (o ∖ {[rc_ObjectKey (su_Source s)]})
| step_compensation_failed d o out o' :
    o' = o ∨ o' = o ∖ {[rc_ObjectKey (su_Source s)]} →
    submit_step s deadline ttl now (AtCompensation out) d o (Returned unavailable) d o'
| step_release d o out claims n d' :
    now < deadline → delete_reservations claims d = Ok (n, d') →
    submit_step s deadline ttl now (AtRelease out claims) d o (Returned out) d' o
| step_release_skipped d o out claims :
    submit_step s deadline ttl now (AtRelease out claims) d o (Returned out) d o
| step_abandoned p d o : submit_step s deadline ttl now p d o (Returned unavailable) d o.
End Statements.

(** ** The reservation sweeper *)
Definition has_suffix (suffix s : string) : bool :=
  let n := (String.length s - String.length suffix)%nat in
  (String.length suffix <=? String.length s)%nat && bool_decide (sdrop n s = suffix).

Definition trim_suffix (suffix s : string) : string :=
  if has_suffix suffix s then stake (String.length s - String.length suffix) s else s.

(** [validSourceObjectKey] of [source_object_store.go]. *)
Definition validSourceObjectKey (key : string) : bool :=
  if bool_decide (key = "") || negb (bool_decide (path_Clean key = key)) ||
     negb (string_forallb (λ a, negb (is_char 92 a)) key) then false
  else
    match split_slash key with
    | [root; tenant; dir; file] =>
        bool_decide (root = "external") && externalIDPattern tenant && bool_decide (dir = "sources") &&
        has_suffix ".bin" file && externalIDPattern (trim_suffix ".bin" file)
    | _ => false
    end.

(** The ORDER BY of the sweeper. *)
Definition reservation_before (a b : string * reservation_row) : bool :=
  if rs_CreatedAt a.2 =? rs_CreatedAt b.2 then String.ltb a.1 b.1 else rs_CreatedAt a.2 <? rs_CreatedAt b.2.

Definition sweepable (minimumAge now : Z) (locked : gset string) (p : string * reservation_row) : Prop :=
  rs_LeaseUntil p.2 ≤ now ∧ rs_CreatedAt p.2 ≤ now - minimumAge ∧ p.1 ∉ locked.

#[export] Instance sweepable_dec minimumAge now locked p : Decision (sweepable minimumAge now locked p).
Proof. unfold sweepable. apply _. Defined.

(** [claimSourceReservation]: the oldest expired reservation gets a new owner
    and lease; its creation time stays. *)
Definition claimSourceReservation (minimumAge now : Z) (locked : gset string) (token : string) (d : db) :
    option (sourceReservationClaim * db) :=
  match first_by reservation_before (filter (sweepable minimumAge now locked) (map_to_list (reservations d))) with
  | None => None
  | Some (key, r) =>
      Some (mkReservationClaim key token,
            set_reservations (insert key (mkReservationRow token (now + sourceReservationSweepLease) (rs_CreatedAt r))) d)
  end.

Definition referenced (d : db) (key : string) : bool :=
  existsb (λ p : Z * source_row, bool_decide (sr_ObjectKey p.2 = key)) (map_to_list (sources d)).

(** One reservation of [SweepSourceReservations]. *)
Inductive sweep_phase : Type :=
| SweepIdle
| SweepClaimed (claim : sourceReservationClaim)
| SweepDelete (claim : sourceReservationClaim)
| SweepFinalize (claim : sourceReservationClaim).

Inductive sweep_step (minimumAge now : Z) : sweep_phase → db → objects → sweep_phase → db → objects → Prop :=
| sweep_claim locked token d o claim d' :
    claimSourceReservation minimumAge now locked token d = Some (claim, d') →
    sweep_step minimumAge now SweepIdle d o (SweepClaimed claim) d' o
| sweep_referenced claim d o :
    referenced d (rc_ObjectKey claim) = true →
    sweep_step minimumAge now (SweepClaimed claim) d o (SweepFinalize claim) d o
| sweep_unreferenced claim d o :
    referenced d (rc_ObjectKey claim) = false → validSourceObjectKey (rc_ObjectKey claim) = true →
    sweep_step minimumAge now (SweepClaimed claim) d o (SweepDelete claim) d o
| sweep_deleted claim d o :
    sweep_step minimumAge now (SweepDelete claim) d o (SweepFinalize claim) d (o ∖ {[rc_ObjectKey claim]})
| sweep_delete_failed claim d o o' :
    o' = o ∨ o' = o ∖ {[rc_ObjectKey claim]} → sweep_step minimumAge now (SweepDelete claim) d o SweepIdle d o'
| sweep_finalized claim d o n d' :
    delete_reservations [claim] d = Ok (n, d') →
    sweep_step minimumAge now (SweepFinalize claim) d o SweepIdle d' o
| sweep_abandoned p d o : sweep_step minimumAge now p d o SweepIdle d o.

(** [SourceReservationWorker.sweep]: at most a hundred batches of a hundred;
    whether the backlog was drained. *)
Definition sourceReservationSweepBatch : Z := 100.
Definition sourceReservationSweepBudget : nat := 100.

Fixpoint sweep_loop (batches : nat) (results : list (result external_error Z)) : result external_error bool :=
  match batches, results with
  | S batches, r :: results =>
      reaped ← r;
      if (reaped <? 0) || (sourceReservationSweepBatch <? reaped) then Err ErrExternalJobInvalid
      else if reaped <? sourceReservationSweepBatch then Ok true
      else sweep_loop batches results
  | _, _ => Ok false
  end.

Definition sweep (results : list (result external_error Z)) : result external_error bool :=
  sweep_loop sourceReservationSweepBudget results.

(** ** The system *)
Record submit_thread : Type := mkThread {
  th_Submission : submission;
  th_Deadline : Z;
  th_TTL : Z;
  th_Phase : submit_phase
}.

Record system : Type := mkSystem {
  sy_Now : Z;
  sy_DB : db;
  sy_Objects : objects;
  sy_Threads : gmap nat submit_thread;
  sy_Sweepers : gmap nat sweep_phase
}.

Definition source_key (th : submit_thread) : string := rc_ObjectKey (su_Source (th_Submission th)).
Definition source_token (th : submit_thread) : string := rc_OwnerToken (su_Source (th_Submission th)).
Definition coordination_key (th : submit_thread) : string := rc_ObjectKey (su_Coordination (th_Submission th)).

Definition sweep_target (p : sweep_phase) : option string :=
  match p with
  | SweepIdle => None
  | SweepClaimed c | SweepDelete c | SweepFinalize c => Some (rc_ObjectKey c)
  end.

(** The random source: a new submission draws a source key nobody uses, and its
    coordination key, which is a digest, is no source key. *)
Record fresh_keys (sy : system) (th : submit_thread) : Prop := {
  fk_object : source_key th ∉ sy_Objects sy ∧ coordination_key th ∉ sy_Objects sy;
  fk_row : ∀ id row, sources (sy_DB sy) !! id = Some row → sr_ObjectKey row ≠ source_key th;
  fk_reservation : reservations (sy_DB sy) !! source_key th = None;
  fk_own : source_key th ≠ coordination_key th;
  fk_threads : ∀ i th', sy_Threads sy !! i = Some th' →
    source_key th' ≠ source_key th ∧ coordination_key th' ≠ source_key th ∧ source_key th' ≠ coordination_key th;
  fk_sweepers : ∀ k p, sy_Sweepers sy !! k = Some p → sweep_target p ≠ Some (source_key th)
}.

Definition sweep_token (p : sweep_phase) : option string :=
  match p with
  | SweepIdle => None
  | SweepClaimed c | SweepDelete c | SweepFinalize c => Some (rc_OwnerToken c)
  end.

(** A sweeper's token is drawn anew for each claim. *)
Definition fresh_token (sy : system) (token : string) : Prop :=
  (∀ i th, sy_Threads sy !! i = Some th → source_token th ≠ token) ∧
  (∀ k p, sy_Sweepers sy !! k = Some p → sweep_token p ≠ Some token).

Section System.
Context (json_policy : string → option TenantPolicy) (minimumAge : Z).

Inductive sys_step (sy : system) : system → Prop :=
| sys_tick now : sy_Now sy ≤ now →
    sys_step sy (mkSystem now (sy_DB sy) (sy_Objects sy) (sy_Threads sy) (sy_Sweepers sy))
| sys_start i th : sy_Threads sy !! i = None → th_Phase th = AtReplay →
    th_Deadline th ≤ sy_Now sy + ttl_submission_limit → fresh_keys sy th →
    sys_step sy (mkSystem (sy_Now sy) (sy_DB sy) (sy_Objects sy) (<[i := th]> (sy_Threads sy)) (sy_Sweepers sy))
| sys_submit i th p d o : sy_Threads sy !! i = Some th →
    submit_step json_policy (th_Submission th) (th_Deadline th) (th_TTL th) (sy_Now sy)
      (th_Phase th) (sy_DB sy) (sy_Objects sy) p d o →
    sys_step sy (mkSystem (sy_Now sy) d o
      (<[i := mkThread (th_Submission th) (th_Deadline th) (th_TTL th) p]> (sy_Threads sy)) (sy_Sweepers sy))
| sys_sweeper k p p' d o : sy_Sweepers sy !! k = Some p →
    sweep_step minimumAge (sy_Now sy) p (sy_DB sy) (sy_Objects sy) p' d o →
    (∀ claim, p' = SweepClaimed claim → p = SweepIdle → fresh_token sy (rc_OwnerToken claim)) →
    sys_step sy (mkSystem (sy_Now sy) d o (sy_Threads sy) (<[k := p']> (sy_Sweepers sy)))
| sys_sweeper_start k : sy_Sweepers sy !! k = None →
    sys_step sy (mkSystem (sy_Now sy) (sy_DB sy) (sy_Objects sy) (sy_Threads sy) (<[k := SweepIdle]> (sy_Sweepers sy)))
| sys_other d : sources d = sources (sy_DB sy) → reservations d = reservations (sy_DB sy) →
    sys_step sy (mkSystem (sy_Now sy) d (sy_Objects sy) (sy_Threads sy) (sy_Sweepers sy)).

Definition initial_system (now : Z) (d : db) : system := mkSystem now d ∅ ∅ ∅.
End System.
