(* ===== verification/RequestIdentity.v ===== *)
(** * The canonical request determines the request

    [CanonicalJobRequestHash] hashes a JSON text. JSON strings are
    self-delimiting and determine the string they encode, so the text determines
    every field of the request except the source, of which it holds the digest. *)
From stdpp Require Import prelude gmap strings pretty.
From S2P Require Import Prelude.
From S2P Require Import GoText.
From S2P Require Import Encodings.
From S2P Require Import JobState.
From S2P Require Import Manifest.
From S2P Require Import BatchPipeline.
From S2P Require Import Store.
From S2P Require Import JobWorker.
From S2P Require Import JobRepository.
From S2P Require Import Submission.

Open Scope Z_scope.

(** ** Reading back one rune of a JSON string *)
Definition json_hex_value (a : Ascii.ascii) : Z := if byte_of a <? 58 then byte_of a - 48 else byte_of a - 87.

Definition unescape_short (c : Z) : Z :=
  if c =? 98 then 8 else if c =? 102 then 12 else if c =? 110 then 10 else if c =? 114 then 13
  else if c =? 116 then 9 else c.

(** The next rune and what follows it; [None] at the closing quote. *)
Definition json_head (s : string) : option (Z * string) :=
  match s with
  | "" => None
  | String a s1 =>
      if byte_of a =? 34 then None
      else if byte_of a =? 92 then
        match s1 with
        | String u (String h1 (String h2 (String h3 (String h4 rest)))) =>
            if byte_of u =? 117
            then Some (4096 * json_hex_value h1 + 256 * json_hex_value h2 + 16 * json_hex_value h3 + json_hex_value h4, rest)
            else Some (unescape_short (byte_of u), String h1 (String h2 (String h3 (String h4 rest))))
        | String u rest => Some (unescape_short (byte_of u), rest)
        | "" => None
        end
      else Some ((decode_rune s).1, sdrop (decode_rune s).2 s)
  end.

Lemma json_hex_value_digit n : 0 ≤ n < 16 → json_hex_value (hex_digit n) = n.
Proof.
  intros Hn. unfold json_hex_value, hex_digit. destruct (Z.ltb_spec n 10); rewrite byte_of_ascii_of_byte by lia;
    case_match; bool_to_prop; lia.
Qed.

Lemma json_head_long c t : 0 ≤ c < 65536 → json_head (escape_long c +:+ t) = Some (c, t).
Proof.
  intros Hc. unfold escape_long. cbn [String.append json_head]. rewrite !json_hex_value_digit by (apply Z.mod_pos_bound; lia).
  change (byte_of backslash =? 34) with false. change (byte_of backslash =? 92) with true.
  change (byte_of (ascii_of_byte 117) =? 117) with true. cbn match. f_equal. f_equal.
  Z.div_mod_to_equations. lia.
Qed.

Lemma json_head_short c t : 0 ≤ c ≤ 255 → c ≠ 117 → json_head (escape_short c +:+ t) = Some (unescape_short c, t).
Proof.
  intros Hc Hu. unfold escape_short. cbn [String.append json_head].
  change (byte_of backslash =? 34) with false. change (byte_of backslash =? 92) with true. cbn match.
  rewrite byte_of_ascii_of_byte by lia. rewrite (proj2 (Z.eqb_neq c 117)) by done.
  do 4 (destruct t as [|? t]; [done|]). done.
Qed.

Lemma json_head_raw c t :
  scalar c → c ≠ 34 → c ≠ 92 → json_head (encode_scalar c +:+ t) = Some (c, t).
Proof.
  intros Hc H34 H92. pose proof (decode_encode_scalar c t Hc) as Hd.
  destruct (encode_scalar c) as [|a e] eqn:E; [pose proof (encode_scalar_length c) as Hl; rewrite E in Hl; simpl in Hl; lia|].
  assert (Ha : byte_of a ≠ 34 ∧ byte_of a ≠ 92).
  { unfold encode_scalar in E. unfold scalar in Hc.
    destruct (Z.ltb_spec c 128); [|destruct (Z.ltb_spec c 2048); [|destruct (Z.ltb_spec c 65536)]]; injection E as <- _;
      rewrite byte_of_ascii_of_byte by (Z.div_mod_to_equations; lia); [done|..]; Z.div_mod_to_equations; lia. }
  change (String a e +:+ t) with (String a (e +:+ t)) in *. unfold json_head. rewrite !(proj2 (Z.eqb_neq _ _)) by tauto.
  rewrite Hd. cbn [fst snd]. f_equal. f_equal. change (String a (e +:+ t)) with (String a e +:+ t). by apply sdrop_append.
Qed.

Lemma json_head_rune r t :
  scalar r.1 → bad_rune r = false → encode_scalar r.1 = r.2 → json_head (json_escape_rune r +:+ t) = Some (r.1, t).
Proof.
  destruct r as [c bytes]. cbn [fst snd]. intros Hc Hbad <-. unfold json_escape_rune. cbn [fst snd]. rewrite Hbad.
  assert (Hr : 0 ≤ c) by (unfold scalar in Hc; lia).
  destruct (Z.ltb_spec c 128).
  - destruct ((c =? 34) || (c =? 92)) eqn:E.
    { rewrite json_head_short by (bool_to_prop; lia). apply orb_true_iff in E as [E|E]; bool_to_prop; by subst. }
    bool_to_prop.
    repeat match goal with
    | |- context [if c =? ?k then _ else _] => destruct (Z.eqb_spec c k) as [->|]; [apply json_head_short; lia|]
    end.
    destruct (_ || _) eqn:E; [apply json_head_long; lia|]. by apply json_head_raw.
  - destruct ((c =? 8232) || (c =? 8233)) eqn:E.
    + apply json_head_long. apply orb_true_iff in E as [E|E]; bool_to_prop; lia.
    + apply json_head_raw; [done|lia..].
Qed.

(** ** JSON strings determine what they encode *)
Definition clean_runes (rs : list (Z * string)) : Prop :=
  Forall (λ r, scalar r.1 ∧ bad_rune r = false ∧ encode_scalar r.1 = r.2) rs.

Lemma valid_runes s : valid_string s = true → clean_runes (runes s).
Proof.
  intros Hv. unfold valid_string in Hv. rewrite forallb_forall in Hv. apply Forall_forall. intros r Hr.
  assert (Hb : bad_rune r = false) by (apply negb_true_iff, Hv; by apply list_elem_of_In).
  split_and!; [by eapply runes_scalar|done|by eapply runes_encode].
Qed.

Lemma escape_runes_inj rs rs' t t' :
  clean_runes rs → clean_runes rs' →
  json_escape_runes rs +:+ quote +:+ t = json_escape_runes rs' +:+ quote +:+ t' → rs = rs' ∧ t = t'.
Proof.
  intros H. revert rs'. induction H as [|[c b] rs (Hc & Hb & He) _ IH]; intros rs' H'.
  - destruct H' as [|r' rs' (Hc' & Hb' & He') _]; cbn [json_escape_runes]; [by intros [= ->]|].
    rewrite string_append_assoc. intros E. apply (f_equal json_head) in E. by rewrite json_head_rune in E.
  - destruct H' as [|[c' b'] rs' (Hc' & Hb' & He') Hrs']; cbn [json_escape_runes]; rewrite ?string_append_assoc; intros E.
    + apply (f_equal json_head) in E. by rewrite json_head_rune in E.
    + apply (f_equal json_head) in E. rewrite !json_head_rune in E by done. injection E as Ec E. simpl in *.
      destruct (IH _ Hrs' E) as [-> ->]. split; [|done]. congruence.
Qed.

Lemma json_string_inj s s' t t' :
  valid_string s = true → valid_string s' = true → json_string s +:+ t = json_string s' +:+ t' → s = s' ∧ t = t'.
Proof.
  intros Hs Hs' E. unfold json_string in E. rewrite !string_append_assoc in E. apply append_inj in E as [_ E]; [|done].
  apply escape_runes_inj in E as [E ->]; [|by apply valid_runes..]. split; [|done].
  by rewrite <-(rune_bytes_runes s), <-(rune_bytes_runes s'), E.
Qed.

Lemma ascii_valid p s : (∀ a, p a = true → byte_of a < 128) → string_forallb p s = true → valid_string s = true.
Proof.
  intros Hp. unfold valid_string. induction s as [|a s IH]; [done|]. cbn [string_forallb]. intros [Ha Hs]%andb_true_iff.
  pose proof (byte_of_range a). specialize (Hp a Ha). rewrite runes_ascii_cons by done. cbn [forallb]. rewrite IH by done.
  unfold bad_rune, rune_error. cbn [fst]. rewrite (proj2 (Z.eqb_neq (byte_of a) _)) by lia. done.
Qed.

Lemma external_id_valid s : externalIDPattern s = true → valid_string s = true.
Proof.
  unfold externalIDPattern. intros [_ H]%andb_true_iff. revert H. apply ascii_valid.
  intros a. unfold base32_char, lower, in_range. lia.
Qed.

Lemma language_valid s : languageIDPattern s = true → valid_string s = true.
Proof.
  destruct s as [|a s]; [done|]. cbn [languageIDPattern]. rewrite !andb_true_iff. intros [[Ha Hs] _].
  apply (ascii_valid language_tail).
  - intros b. unfold language_tail, lower, digit, is_char, in_range. lia.
  - cbn [string_forallb]. rewrite Hs. unfold language_tail. by rewrite Ha.
Qed.

Lemma hex_encode_valid s : valid_string (hex_encode s) = true.
Proof.
  apply (ascii_valid (λ a, byte_of a <? 128)); [by intros a ?%Z.ltb_lt|].
  induction s as [|a s IH]; [done|]. cbn [hex_encode string_forallb]. rewrite IH, andb_true_r.
  pose proof (byte_of_range a).
  assert (Hd : ∀ n, 0 ≤ n < 16 → (byte_of (hex_digit n) <? 128) = true).
  { intros n Hn. unfold hex_digit. destruct (n <? 10) eqn:?; bool_to_prop; rewrite byte_of_ascii_of_byte by lia; apply Z.ltb_lt; lia. }
  rewrite !Hd by (Z.div_mod_to_equations; lia). done.
Qed.

(** ** The canonical request *)
Lemma json_bool_inj b b' t t' : json_bool b +:+ t = json_bool b' +:+ t' → b = b' ∧ t = t'.
Proof. destruct b, b'; simpl; by intros [= ->]. Qed.

Lemma pretty_inj_until (n n' : Z) c t t' :
  decimal_byte c = false → pretty n +:+ String c t = pretty n' +:+ String c t' → n = n' ∧ t = t'.
Proof.
  intros Hc E. apply (span_inj decimal_byte) in E as [E ->]; [|done|apply pretty_Z_bytes..]. by apply (inj pretty) in E.
Qed.

Lemma member_value name v v' t t' : json_member name v +:+ t = json_member name v' +:+ t' → v +:+ t = v' +:+ t'.
Proof. unfold json_member. rewrite !string_append_assoc. by intros [_ E]%append_inj. Qed.

Lemma plain_member_inj name v v' t t' :
  valid_string v = true → valid_string v' = true →
  json_member name (json_string v) +:+ t = json_member name (json_string v') +:+ t' → v = v' ∧ t = t'.
Proof.
  intros Hv Hv' E%member_value. by apply json_string_inj in E.
Qed.

(** A member that is omitted when empty. *)
Definition optional_member (name value : string) : string :=
  if bool_decide (value = "") then "" else "," +:+ json_member name (json_string value).

Lemma optional_member_inj name v v' t t' :
  valid_string v = true → valid_string v' = true →
  (∀ w r, t ≠ "," +:+ json_member name w +:+ r) → (∀ w r, t' ≠ "," +:+ json_member name w +:+ r) →
  optional_member name v +:+ t = optional_member name v' +:+ t' → v = v' ∧ t = t'.
Proof.
  intros Hv Hv' Ht Ht'. unfold optional_member. case_bool_decide as E; case_bool_decide as E'; subst; rewrite ?string_append_assoc.
  - intros Eq. split; [done|exact Eq].
  - intros Eq. by apply Ht in Eq.
  - intros Eq. symmetry in Eq. by apply Ht' in Eq.
  - intros Eq. apply append_inj in Eq as [_ Eq]; [|done]. by apply plain_member_inj in Eq.
Qed.

(** The requests [CanonicalJobRequestHash] accepts. *)
Record request_valid (request : JudgeJobRequest) : Prop := {
  rv_bundle : externalIDPattern (rq_BundleID request) = true;
  rv_language : languageIDPattern (rq_Language request) = true;
  rv_callback : rq_CallbackID request = "" ∨ externalIDPattern (rq_CallbackID request) = true;
  rv_reference : len (rq_ClientReference request) ≤ 255 ∧ valid_string (rq_ClientReference request) = true;
  rv_source : rq_SourceCode request ≠ "" ∧ valid_string (rq_SourceCode request) = true
}.

Section Identity.
Context (sha256 : string → string).

Lemma CanonicalJobRequestHash_ok request maxSourceBytes hash :
  CanonicalJobRequestHash sha256 request maxSourceBytes = Some hash →
  request_valid request ∧ len (rq_SourceCode request) ≤ maxSourceBytes ∧ hash = sha256 (canonical_request sha256 request).
Proof.
  unfold CanonicalJobRequestHash. repeat (match goal with |- context [if ?b then _ else _] => destruct b eqn:? end; [done|]).
  intros [= <-]. bool_to_prop. split; [|done]. split; try done.
  - destruct (decide (rq_CallbackID request = "")); [by left|right].
    repeat match goal with H : _ && _ = false |- _ => apply andb_false_iff in H as [H|H] end; bool_to_prop; done.
  - split; [|done]. intros E. match goal with H : len _ ≠ 0 |- _ => apply H end. by rewrite E.
Qed.

Lemma callback_valid request : request_valid request → valid_string (rq_CallbackID request) = true.
Proof. intros H. destruct (rv_callback _ H) as [->|Hc]; [done|]. by apply external_id_valid. Qed.

Lemma canonical_request_fields request request' :
  request_valid request → request_valid request' → canonical_request sha256 request = canonical_request sha256 request' →
  rq_BundleID request = rq_BundleID request' ∧ rq_Language request = rq_Language request' ∧
  sha256 (rq_SourceCode request) = sha256 (rq_SourceCode request') ∧
  rq_StopOnFailure request = rq_StopOnFailure request' ∧ rq_CallbackID request = rq_CallbackID request' ∧
  rq_ClientReference request = rq_ClientReference request'.
Proof.
  intros Hr Hr' E. unfold canonical_request in E. fold (optional_member "callbackId" (rq_CallbackID request)) in E.
  fold (optional_member "callbackId" (rq_CallbackID request')) in E.
  fold (optional_member "clientReference" (rq_ClientReference request)) in E.
  fold (optional_member "clientReference" (rq_ClientReference request')) in E.
  apply append_inj in E as [_ E]; [|done].
  apply plain_member_inj in E as [Hb E]; [|apply external_id_valid, rv_bundle; done..]. apply append_inj in E as [_ E]; [|done].
  apply plain_member_inj in E as [Hl E]; [|apply language_valid, rv_language; done..]. apply append_inj in E as [_ E]; [|done].
  apply plain_member_inj in E as [Hs E]; [|apply hex_encode_valid..]. apply append_inj in E as [_ E]; [|done].
  apply member_value, pretty_inj_until in E as [_ E]; [|done]. apply member_value, json_bool_inj in E as [Ht E].
  apply optional_member_inj in E as [Hc E]; [|by apply callback_valid..| |].
  - apply optional_member_inj in E as [Hf _]; [|apply rv_reference; done..|by intros w r|by intros w r].
    apply hex_encode_inj in Hs. done.
  - intros w r. unfold optional_member. by case_bool_decide.
  - intros w r. unfold optional_member. by case_bool_decide.
Qed.

(** The request hash identifies the request. If two accepted requests have
    the same hash, as an idempotent replay requires, they are the same request,
    or SHA-256 collides on their canonical texts or on their sources. *)
Lemma request_hash_identifies_request request request' maxSourceBytes maxSourceBytes' hash :
  CanonicalJobRequestHash sha256 request maxSourceBytes = Some hash →
  CanonicalJobRequestHash sha256 request' maxSourceBytes' = Some hash →
  request = request' ∨
  (canonical_request sha256 request ≠ canonical_request sha256 request' ∧
   sha256 (canonical_request sha256 request) = sha256 (canonical_request sha256 request')) ∨
  (rq_SourceCode request ≠ rq_SourceCode request' ∧ sha256 (rq_SourceCode request) = sha256 (rq_SourceCode request')).
Proof.
  intros (Hr & _ & ->)%CanonicalJobRequestHash_ok (Hr' & _ & Eh)%CanonicalJobRequestHash_ok.
  destruct (decide (canonical_request sha256 request = canonical_request sha256 request')) as [E|Hne]; [|by right; left].
  destruct (canonical_request_fields _ _ Hr Hr' E) as (Eb & El & Es & Et & Ec & Ef).
  destruct (decide (rq_SourceCode request = rq_SourceCode request')) as [Esrc|Hne]; [left|by right; right].
  destruct request, request'. simpl in *. congruence.
Qed.
End Identity.
