(* ===== verification/JobListing.v ===== *)
(** * Listing jobs and its cursors, [internal/external/job_repository.go]

    First the signed cursor a page ends with: its JSON payload, the codec, and that
    decoding inverts encoding for its tenant and status filter and refuses every
    other; then [MySQLJobRepository.List]. HMAC-SHA-256 and the JSON decoder are
    parameters. *)
From stdpp Require Import prelude gmap strings pretty sorting.
From S2P Require Import Prelude.
From S2P Require Import GoText.
From S2P Require Import Encodings.
From S2P Require Import JobState.
From S2P Require Import Manifest.
From S2P Require Import BatchPipeline.
From S2P Require Import Store.
From S2P Require Import Submission.
From S2P Require Import RequestIdentity.

Open Scope Z_scope.

Record JobCursor : Type := mkCursor {
  jc_TenantID : string;
  jc_Status : JobStatus;
  jc_CreatedAt : Z;
  jc_InternalID : Z
}.

#[export] Instance JobCursor_eq_dec : EqDecision JobCursor.
Proof. solve_decision. Defined.

Record jobCursorPayload : Type := mkCursorPayload {
  cp_Version : Z;
  cp_TenantID : string;
  cp_Status : string;
  cp_CreatedMS : Z;
  cp_InternalID : Z
}.

(** A [JobStatus] is a string in the code. *)
Definition status_text (s : JobStatus) : string :=
  match s with
  | JobStatusQueued => "QUEUED"
  | JobStatusRunning => "RUNNING"
  | JobStatusSucceeded => "SUCCEEDED"
  | JobStatusFailed => "FAILED"
  | JobStatusCancelled => "CANCELLED"
  | JobStatusUnknown raw => raw
  end.

Definition status_of_text (s : string) : JobStatus :=
  if bool_decide (s = "QUEUED") then JobStatusQueued
  else if bool_decide (s = "RUNNING") then JobStatusRunning
  else if bool_decide (s = "SUCCEEDED") then JobStatusSucceeded
  else if bool_decide (s = "FAILED") then JobStatusFailed
  else if bool_decide (s = "CANCELLED") then JobStatusCancelled
  else JobStatusUnknown s.

(** The five statuses, or none. *)
Definition validJobStatusFilter (status : JobStatus) : bool :=
  match status with
  | JobStatusUnknown raw => bool_decide (raw = "")
  | _ => true
  end.

Definition validJobCursor (cursor : JobCursor) : bool :=
  if negb (externalIDPattern (jc_TenantID cursor)) || (jc_CreatedAt cursor =? zero_time) || (jc_InternalID cursor =? 0)
  then false
  else validJobStatusFilter (jc_Status cursor).

(** [json.Marshal] of a payload; the status is omitted when empty. *)
Definition cursor_text (p : jobCursorPayload) : string :=
  "{" +:+ json_member "v" (pretty (cp_Version p)) +:+ "," +:+ json_member "t" (json_string (cp_TenantID p)) +:+
  optional_member "s" (cp_Status p) +:+
  "," +:+ json_member "c" (pretty (cp_CreatedMS p)) +:+ "," +:+ json_member "i" (pretty (cp_InternalID p)) +:+ "}".

Section Codec.
Context (hmac_sha256 : string → string → string).
(** [json.Decoder] with unknown fields refused, into a [jobCursorPayload]. *)
Context (json_cursor : string → option jobCursorPayload).

Definition NewJobCursorCodec (key : string) : option string := if len key <? 32 then None else Some key.

Definition cursor_Encode (key : string) (cursor : JobCursor) : option string :=
  if (len key <? 32) || negb (validJobCursor cursor) then None
  else
    let payload := cursor_text (mkCursorPayload 1 (jc_TenantID cursor) (status_text (jc_Status cursor))
                                  (unix_millis (jc_CreatedAt cursor)) (jc_InternalID cursor)) in
    Some (base64_encode payload +:+ "." +:+ base64_encode (hmac_sha256 key payload)).

Definition cursor_Decode (key encoded tenantID : string) (status : JobStatus) : option JobCursor :=
  if (len key <? 32) || (len encoded =? 0) || (512 <? len encoded) then None
  else
    match split_on 46 encoded with
    | [payload; signature] =>
        payload ← base64_decode payload;
        providedSignature ← base64_decode signature;
        if negb (bool_decide (providedSignature = hmac_sha256 key payload)) then None
        else
          decoded ← json_cursor payload;
          if negb (cp_Version decoded =? 1) then None
          else
            let cursor := mkCursor (cp_TenantID decoded) (status_of_text (cp_Status decoded))
                            (from_unix_millis (cp_CreatedMS decoded)) (cp_InternalID decoded) in
            if negb (bool_decide (jc_TenantID cursor = tenantID)) || negb (bool_decide (jc_Status cursor = status)) ||
               negb (validJobCursor cursor) then None
            else Some cursor
    | _ => None
    end.

(** ** The round trip *)
Context (hmac_length : ∀ key message, len (hmac_sha256 key message) = 32).
(** The decoder reads back what the encoder writes, for strings that need
    no escapes and 64-bit integers. *)
Context (json_cursor_text : ∀ p,
  string_forallb json_plain (cp_TenantID p) = true → string_forallb json_plain (cp_Status p) = true →
  0 ≤ cp_Version p ≤ max_int64 →
  min_int64 ≤ cp_CreatedMS p ≤ max_int64 → 0 ≤ cp_InternalID p ≤ max_uint64 → json_cursor (cursor_text p) = Some p).

(** What a row of the listing can be: a [DATETIME(3)] and an unsigned
    [BIGINT]. *)
Definition cursor_columns (createdAt internalID : Z) : Prop :=
  createdAt `mod` millisecond = 0 ∧ createdAt ≠ zero_time ∧ min_int64 ≤ unix_millis createdAt ≤ max_int64 ∧
  0 < internalID ≤ max_uint64.

Lemma status_text_of s : validJobStatusFilter s = true → status_of_text (status_text s) = s.
Proof. destruct s; try done. simpl. case_bool_decide; [by subst|done]. Qed.

Lemma status_text_plain s : validJobStatusFilter s = true → string_forallb json_plain (status_text s) = true ∧ len (status_text s) ≤ 9.
Proof. destruct s; try done. simpl. case_bool_decide; [by subst|done]. Qed.

Lemma external_id_plain s : externalIDPattern s = true → string_forallb json_plain s = true ∧ len s = 26.
Proof.
  unfold externalIDPattern. intros [Hl H]%andb_true_iff. apply Z.eqb_eq in Hl. split; [|done]. revert H.
  apply string_forallb_impl. intros a. unfold base32_char, lower, json_plain, in_range. lia.
Qed.

Lemma cursor_text_length p :
  string_forallb json_plain (cp_TenantID p) = true → len (cp_TenantID p) = 26 →
  string_forallb json_plain (cp_Status p) = true → len (cp_Status p) ≤ 9 → cp_Version p = 1 →
  min_int64 ≤ cp_CreatedMS p ≤ max_int64 → 0 ≤ cp_InternalID p ≤ max_uint64 → len (cursor_text p) ≤ 160.
Proof.
  intros Ht Hlt Hs Hls Hv Hc Hi. unfold min_int64, max_int64, max_uint64 in *.
  pose proof (pretty_Z_length (cp_CreatedMS p) ltac:(lia)). pose proof (pretty_Z_length (cp_InternalID p) ltac:(lia)).
  assert (len (optional_member "s" (cp_Status p)) ≤ 30).
  { unfold optional_member. case_bool_decide; [done|]. unfold json_member, json_key.
    rewrite json_string_plain by done. rewrite !len_append.
    change (len ",") with 1. change (len quote) with 1. change (len "s") with 1. change (len ":") with 1. lia. }
  unfold cursor_text, json_member, json_key. rewrite json_string_plain by done. rewrite Hv, !len_append, Hlt.
  change (len ",") with 1. change (len quote) with 1. change (len ":") with 1. change (len (pretty 1)) with 1.
  change (len "{") with 1. change (len "}") with 1. change (len "v") with 1. change (len "t") with 1.
  change (len "c") with 1. change (len "i") with 1. lia.
Qed.

Lemma base64_no_dot s : string_forallb (λ a, negb (byte_of a =? 46)) (base64_encode s) = true.
Proof.
  eapply string_forallb_impl; [|apply base64_encode_chars]. intros a Ha. by destruct (base64_char_plain a Ha) as [_ ->].
Qed.

Lemma cursor_roundtrip key cursor encoded tenantID status :
  cursor_columns (jc_CreatedAt cursor) (jc_InternalID cursor) → cursor_Encode key cursor = Some encoded →
  cursor_Decode key encoded tenantID status =
    if decide (tenantID = jc_TenantID cursor ∧ status = jc_Status cursor) then Some cursor else None.
Proof.
  intros (Hms & Hz & Hrange & Hid). unfold cursor_Encode. destruct (_ || _) eqn:E; [done|]. bool_to_prop.
  match goal with H : validJobCursor _ = true |- _ => rename H into Hvalid end.
  pose proof Hvalid as Hv. unfold validJobCursor in Hv. destruct (_ || _) eqn:E' in Hv; [done|]. bool_to_prop.
  destruct (external_id_plain (jc_TenantID cursor)) as [Htp Htl]; [done|].
  destruct (status_text_plain (jc_Status cursor)) as [Hsp Hsl]; [done|].
  set (payload := mkCursorPayload _ _ _ _ _). intros Heq%(inj Some). subst encoded. set (text := cursor_text payload).
  assert (Hlen : len text ≤ 160) by (apply cursor_text_length; unfold payload; simpl; try done; lia).
  unfold cursor_Decode.
  pose proof (base64_encode_length text). pose proof (base64_encode_length (hmac_sha256 key text)) as Hmac.
  rewrite hmac_length in Hmac. pose proof (len_nonneg (base64_encode text)). pose proof (len_nonneg (base64_encode (hmac_sha256 key text))).
  rewrite (proj2 (Z.ltb_ge (len key) 32)) by done. rewrite !len_append. change (len ".") with 1.
  rewrite (proj2 (Z.eqb_neq _ 0)), (proj2 (Z.ltb_ge 512 _)) by lia. cbn [orb].
  change ("." +:+ base64_encode (hmac_sha256 key text)) with (String (ascii_of_byte 46) (base64_encode (hmac_sha256 key text))).
  rewrite split_on_two, split_on_one by (done || apply base64_no_dot). rewrite !base64_roundtrip. cbn [mbind option_bind].
  rewrite bool_decide_eq_true_2 by done. cbn [negb].
  unfold text. rewrite json_cursor_text; unfold payload; cbn [cp_TenantID cp_Status cp_Version cp_CreatedMS cp_InternalID];
    [|done|done|unfold max_int64; lia|lia|lia].
  cbn [mbind option_bind cp_TenantID cp_Status cp_Version cp_CreatedMS cp_InternalID negb Z.eqb].
  rewrite status_text_of, from_unix_millis_of by done.
  destruct cursor as [t s c i]; cbn [jc_TenantID jc_Status jc_CreatedAt jc_InternalID] in *.
  rewrite Hvalid. change (negb (1 =? 1)) with false. cbn match.
  case_decide as Hd; [destruct Hd as [-> ->]; by rewrite !bool_decide_eq_true_2|].
  destruct (decide (t = tenantID)) as [->|Ht]; [|by rewrite bool_decide_eq_false_2].
  rewrite (bool_decide_eq_false_2 (s = status)) by naive_solver. by rewrite orb_true_r.
Qed.

(** A listing cursor round trips for the tenant and status it was issued
    for, and for no other: what [Encode] makes of a position of the listing is at
    most 512 bytes long, [Decode] returns the position for the same tenant and
    status filter, and refuses the cursor for any other tenant or filter. *)
Lemma job_cursor_roundtrip key cursor encoded tenantID status :
  cursor_columns (jc_CreatedAt cursor) (jc_InternalID cursor) → cursor_Encode key cursor = Some encoded →
  len encoded ≤ 512 ∧
  cursor_Decode key encoded tenantID status =
    if decide (tenantID = jc_TenantID cursor ∧ status = jc_Status cursor) then Some cursor else None.
Proof.
  intros Hcol Henc. split; [|by apply cursor_roundtrip].
  pose proof (cursor_roundtrip key cursor encoded (jc_TenantID cursor) (jc_Status cursor) Hcol Henc) as H.
  rewrite decide_True in H by done. unfold cursor_Decode in H. destruct (512 <? len encoded) eqn:E; bool_to_prop; [|done].
  by rewrite orb_true_r in H.
Qed.
End Codec.

(** * Listing jobs, [MySQLJobRepository.List]

    One page of the jobs of a tenant, newest first, with a cursor to the next.
    Following the cursors over a fixed store yields every job of the tenant and
    status exactly once, in order, and ends. *)
Record JobListOptions : Type := mkListOptions {
  lo_Cursor : string;
  lo_Limit : Z;
  lo_Status : JobStatus
}.

Record JobListResult : Type := mkListResult {
  lr_Jobs : list ExternalJobRecord;
  lr_NextCursor : string
}.

Inductive list_error : Type :=
| ListInvalid
| ListInvalidCursor
| ListUnavailable.

(** [ORDER BY job.created_at DESC, job.id DESC] on [(created_at, id)]. *)
Definition newest_first (a b : Z * Z) : Prop := b.1 < a.1 ∨ (b.1 = a.1 ∧ b.2 ≤ a.2).

#[export] Instance newest_first_dec a b : Decision (newest_first a b).
Proof. unfold newest_first. apply _. Defined.
#[export] Instance newest_first_trans : Transitive newest_first.
Proof. intros [? ?] [? ?] [? ?]. unfold newest_first. simpl. lia. Qed.
#[export] Instance newest_first_total : Total newest_first.
Proof. intros [? ?] [? ?]. unfold newest_first. simpl. lia. Qed.
#[export] Instance newest_first_antisym : AntiSymm (=) newest_first.
Proof. intros [? ?] [? ?]. unfold newest_first. simpl. intros. f_equal; lia. Qed.

(** The row of [externalJobSelect] exists: the joins succeed. *)
Definition joins (d : db) (id : Z) : bool :=
  match scanExternalJob d id with Err ErrNoRows => false | _ => true end.

Definition matches (d : db) (tenantExternalID : string) (status : JobStatus) (p : Z * job_row) : Prop :=
  (tn_ExternalID <$> tenants d !! jb_Tenant p.2) = Some tenantExternalID ∧ joins d p.1 = true ∧
  (status = JobStatusUnknown "" ∨ jb_Status p.2 = status).

#[export] Instance matches_dec d tenantExternalID status p : Decision (matches d tenantExternalID status p).
Proof. unfold matches. apply _. Defined.

(** [job.created_at < ? OR (job.created_at = ? AND job.id < ?)] *)
Definition beyond (cursor : option JobCursor) (a : Z * Z) : Prop :=
  match cursor with
  | None => True
  | Some c => a.1 < jc_CreatedAt c ∨ (a.1 = jc_CreatedAt c ∧ a.2 < jc_InternalID c)
  end.

#[export] Instance beyond_dec cursor a : Decision (beyond cursor a).
Proof. unfold beyond. destruct cursor; apply _. Defined.

Definition list_key (p : Z * job_row) : Z * Z := (jb_CreatedAt p.2, p.1).

(** The keys of the jobs of a tenant and status. *)
Definition job_keys (d : db) (tenantExternalID : string) (status : JobStatus) : list (Z * Z) :=
  list_key <$> filter (matches d tenantExternalID status) (map_to_list (jobs d)).

Definition query_jobs (d : db) (tenantExternalID : string) (status : JobStatus) (cursor : option JobCursor) (limit : nat) :
    list (Z * Z) :=
  take limit (merge_sort newest_first (filter (beyond cursor) (job_keys d tenantExternalID status))).

(** The loop over the rows. *)
Fixpoint scan_jobs (d : db) (keys : list (Z * Z)) : option (list ExternalJobRecord) :=
  match keys with
  | [] => Some []
  | key :: keys =>
      match scanExternalJob d key.2 with
      | Ok job => jobs ← scan_jobs d keys; Some (job :: jobs)
      | Err _ => None
      end
  end.

Section List.
Context (hmac_sha256 : string → string → string) (json_cursor : string → option jobCursorPayload).

Definition List (key tenantExternalID : string) (options : JobListOptions) (d : db) : result list_error JobListResult :=
  let limit := lo_Limit options in
  let status := lo_Status options in
  if negb (externalIDPattern tenantExternalID) || (limit <? 1) || (100 <? limit) || negb (validJobStatusFilter status)
  then Err ListInvalid
  else
    let cursor :=
      if bool_decide (lo_Cursor options = "") then Some None
      else Some <$> cursor_Decode hmac_sha256 json_cursor key (lo_Cursor options) tenantExternalID status in
    match cursor with
    | None => Err ListInvalidCursor
    | Some cursor =>
        match scan_jobs d (query_jobs d tenantExternalID status cursor (Z.to_nat (limit + 1))) with
        | None => Err ListUnavailable
        | Some jobs =>
            if limit <? Z.of_nat (length jobs) then
              match jobs !! Z.to_nat (limit - 1) with
              | None => Err ListUnavailable
              | Some last =>
                  match cursor_Encode hmac_sha256 key
                          (mkCursor tenantExternalID status (ej_CreatedAt last) (ej_InternalID last)) with
                  | None => Err ListUnavailable
                  | Some next => Ok (mkListResult (take (Z.to_nat limit) jobs) next)
                  end
              end
            else Ok (mkListResult jobs "")
        end
    end.

(** A client that follows the cursors, for [fuel] pages at most. *)
Fixpoint list_pages (fuel : nat) (key tenantExternalID : string) (limit : Z) (status : JobStatus) (cursor : string) (d : db) :
    result list_error (list (list ExternalJobRecord)) :=
  match fuel with
  | O => Err ListUnavailable
  | S fuel =>
      page ← List key tenantExternalID (mkListOptions cursor limit status) d;
      if bool_decide (lr_NextCursor page = "") then Ok [lr_Jobs page]
      else
        pages ← list_pages fuel key tenantExternalID limit status (lr_NextCursor page) d;
        Ok (lr_Jobs page :: pages)
  end.
End List.

(** ** Pagination *)
Definition job_key (job : ExternalJobRecord) : Z * Z := (ej_CreatedAt job, ej_InternalID job).

Lemma scan_key d id job : scanExternalJob d id = Ok job → ∃ r, jobs d !! id = Some r ∧ job_key job = (jb_CreatedAt r, id).
Proof.
  unfold scanExternalJob. destruct (jobs d !! id) as [r|]; [|done].
  destruct (tenants d !! jb_Tenant r), (bundles d !! jb_Bundle r), (sources d !! jb_Source r); try done.
  repeat (match goal with |- context [if ?b then _ else _] => destruct b end; try done).
  all: intros [= <-]; eauto.
Qed.

Section Pagination.
Context (d : db) (tenantExternalID : string) (status : JobStatus).

Local Abbreviation keys := (job_keys d tenantExternalID status).
Local Abbreviation listing := (merge_sort newest_first keys).

Lemma elem_of_job_keys a :
  a ∈ keys ↔ ∃ id r, jobs d !! id = Some r ∧ matches d tenantExternalID status (id, r) ∧ a = (jb_CreatedAt r, id).
Proof.
  unfold job_keys. rewrite list_elem_of_fmap. split.
  - intros ([id r] & -> & [Hm Hin%elem_of_map_to_list]%list_elem_of_filter). eauto.
  - intros (id & r & Hr & Hm & ->). exists (id, r). split; [done|]. by rewrite list_elem_of_filter, elem_of_map_to_list.
Qed.

Lemma job_keys_ids_nodup : NoDup (snd <$> keys).
Proof.
  unfold job_keys. rewrite <-list_fmap_compose. change (snd ∘ list_key) with (@fst Z job_row).
  eapply sublist_NoDup; [apply (NoDup_fst_map_to_list (jobs d))|]. apply fmap_sublist, sublist_filter.
Qed.

Lemma listing_nodup : NoDup listing.
Proof. rewrite merge_sort_Permutation. apply NoDup_fmap_1 with (f := snd), job_keys_ids_nodup. Qed.

(** The query after a cursor continues the listing. *)
Lemma query_continues pre x suf cursor :
  listing = pre ++ x :: suf → (jc_CreatedAt cursor, jc_InternalID cursor) = x →
  merge_sort newest_first (filter (beyond (Some cursor)) keys) = suf.
Proof.
  intros HL Hx. pose proof listing_nodup as Hnd. rewrite HL in Hnd. apply NoDup_app in Hnd as (_ & Hpre & Hsuf%NoDup_cons).
  assert (Hs : StronglySorted newest_first (pre ++ x :: suf)) by (rewrite <-HL; apply StronglySorted_merge_sort; apply _).
  apply (StronglySorted_unique newest_first); [apply StronglySorted_merge_sort; apply _| |].
  { apply StronglySorted_app_1_r in Hs. by apply StronglySorted_inv in Hs as [Hs _]. }
  rewrite merge_sort_Permutation, <-(merge_sort_Permutation newest_first keys), HL, filter_app, filter_cons_False.
  2: { subst x. simpl. lia. }
  assert (filter (beyond (Some cursor)) pre = []) as ->.
  { apply filter_none. intros a Ha.
    assert (newest_first a x) as Hax by (eapply StronglySorted_app_1_elem_of; [exact Hs|done|by left]).
    subst x. unfold newest_first in Hax. simpl in *. lia. }
  simpl. rewrite filter_all; [done|]. intros a Ha.
  apply StronglySorted_app_1_r, StronglySorted_inv in Hs as [_ Hs]. rewrite Forall_forall in Hs. specialize (Hs a Ha).
  assert (a ≠ x) by naive_solver. subst x. destruct a as [c i]. unfold newest_first in Hs. simpl in *.
  destruct (decide (c = jc_CreatedAt cursor)) as [->|]; [|lia]. right. split; [done|].
  assert (i ≠ jc_InternalID cursor) by congruence. lia.
Qed.

(** ** Following the cursors *)
Context (hmac_sha256 : string → string → string) (json_cursor : string → option jobCursorPayload).
Context (hmac_length : ∀ key message, len (hmac_sha256 key message) = 32).
Context (json_cursor_text : ∀ p,
  string_forallb json_plain (cp_TenantID p) = true → string_forallb json_plain (cp_Status p) = true →
  0 ≤ cp_Version p ≤ max_int64 →
  min_int64 ≤ cp_CreatedMS p ≤ max_int64 → 0 ≤ cp_InternalID p ≤ max_uint64 → json_cursor (cursor_text p) = Some p).
(** The columns hold what their types allow, and every row can be read. *)
Context (columns : ∀ id r, jobs d !! id = Some r → cursor_columns (jb_CreatedAt r) id).
Context (readable : ∀ id, scanExternalJob d id ≠ Err ErrScan).

Lemma scan_jobs_keys l : (∀ a, a ∈ l → a ∈ keys) → ∃ js, scan_jobs d l = Some js ∧ job_key <$> js = l.
Proof.
  induction l as [|a l IH]; intros Hl; [by exists []|].
  destruct IH as (js & Hjs & <-); [intros b Hb; apply Hl; by right|].
  destruct (proj1 (elem_of_job_keys a)) as (id & r & Hr & (_ & Hj & _) & ->); [apply Hl; by left|]. simpl.
  unfold joins in Hj. simpl in Hj. pose proof (readable id) as Hread.
  destruct (scanExternalJob d id) as [job|[]] eqn:E; [|done|done]. rewrite Hjs. exists (job :: js). split; [done|].
  simpl. destruct (scan_key _ _ _ E) as (r' & Hr' & ->). by simplify_eq.
Qed.

Lemma keys_columns a : a ∈ keys → cursor_columns a.1 a.2.
Proof. intros (id & r & Hr & _ & ->)%elem_of_job_keys. by apply columns. Qed.

(** What a client holds that has read the listing up to [suf]. *)
Definition reads_next (key cursor : string) (suf : list (Z * Z)) : Prop :=
  ∃ decoded,
    (if bool_decide (cursor = "") then Some None
     else Some <$> cursor_Decode hmac_sha256 json_cursor key cursor tenantExternalID status) = Some decoded ∧
    merge_sort newest_first (filter (beyond decoded) keys) = suf.

Lemma reads_first key : reads_next key "" listing.
Proof.
  exists None. split; [done|]. rewrite filter_all; [done|]. done.
Qed.

Context (key : string) (limit : Z).
Context (key_long : 32 ≤ len key) (tenant_ok : externalIDPattern tenantExternalID = true).
Context (status_ok : validJobStatusFilter status = true) (limit_ok : 1 ≤ limit ≤ 100).

(** One page: it ends the listing, or it holds [limit] jobs and a cursor to the
    rest. *)
Lemma page_spec cursor suf pre :
  listing = pre ++ suf → reads_next key cursor suf →
  ∃ page, List hmac_sha256 json_cursor key tenantExternalID (mkListOptions cursor limit status) d = Ok page ∧
    job_key <$> lr_Jobs page = take (Z.to_nat limit) suf ∧
    if decide (length suf ≤ Z.to_nat limit)%nat then lr_NextCursor page = ""
    else lr_NextCursor page ≠ "" ∧ reads_next key (lr_NextCursor page) (drop (Z.to_nat limit) suf).
Proof.
  intros HL (decoded & Hdec & Hq). unfold List. cbn [lo_Limit lo_Status lo_Cursor].
  rewrite tenant_ok, status_ok, !(proj2 (Z.ltb_ge _ _)) by lia. cbn [negb orb]. rewrite Hdec. unfold query_jobs. rewrite Hq.
  assert (Hin : ∀ a, a ∈ suf → a ∈ keys).
  { intros a Ha. rewrite <-(merge_sort_Permutation newest_first keys), HL. set_solver. }
  destruct (scan_jobs_keys (take (Z.to_nat (limit + 1)) suf)) as (js & -> & Hjs).
  { intros a (? & Ha & _)%elem_of_take. apply Hin. by eapply list_elem_of_lookup_2. }
  assert (Hlen : length js = Nat.min (Z.to_nat (limit + 1)) (length suf)) by (by rewrite <-(length_fmap job_key), Hjs, length_take).
  replace (Z.to_nat (limit + 1)) with (S (Z.to_nat limit)) in * by lia.
  destruct (Z.ltb_spec limit (Z.of_nat (length js))) as [Hlt|Hge].
  - destruct (lookup_lt_is_Some_2 js (Z.to_nat (limit - 1))) as [last Hlast]; [lia|]. rewrite Hlast.
    assert (Hx : suf !! Z.to_nat (limit - 1) = Some (job_key last)).
    { assert (Hx : (job_key <$> js) !! Z.to_nat (limit - 1) = Some (job_key last)) by (by rewrite list_lookup_fmap, Hlast).
      rewrite Hjs, lookup_take_lt in Hx by lia. done. }
    pose proof (keys_columns _ (Hin _ (list_elem_of_lookup_2 _ _ _ Hx))) as Hcol. pose proof Hcol as (_ & Hz & _ & Hid). cbn [fst snd job_key] in *.
    set (c := mkCursor tenantExternalID status (ej_CreatedAt last) (ej_InternalID last)).
    destruct (cursor_Encode hmac_sha256 key c) as [next|] eqn:Henc.
    2: { exfalso. revert Henc. unfold cursor_Encode, validJobCursor. simpl.
      rewrite tenant_ok, status_ok, !(proj2 (Z.eqb_neq _ _)), (proj2 (Z.ltb_ge _ _)) by (done || lia). done. }
    eexists. split; [reflexivity|]. cbn [lr_Jobs lr_NextCursor]. split.
    { rewrite fmap_take, Hjs, take_take. f_equal. lia. }
    rewrite decide_False by lia.
    assert (Hne : next ≠ "").
    { intros ->. pose proof (cursor_roundtrip _ _ hmac_length json_cursor_text key c "" tenantExternalID status Hcol Henc) as Hrt.
      rewrite decide_True in Hrt by done. unfold cursor_Decode in Hrt. by rewrite orb_true_r in Hrt. }
    split; [done|]. exists (Some c). split.
    + rewrite bool_decide_eq_false_2 by done.
      rewrite (cursor_roundtrip _ _ hmac_length json_cursor_text key c next tenantExternalID status Hcol Henc).
      by rewrite decide_True.
    + pose proof (take_drop_middle _ _ _ Hx) as Hmid. rewrite <-Hmid in HL.
      replace (S (Z.to_nat (limit - 1))) with (Z.to_nat limit) in HL by lia.
      apply query_continues with (pre := pre ++ take (Z.to_nat (limit - 1)) suf) (x := job_key last); [|done].
      by rewrite HL, <-app_assoc.
  - exists (mkListResult js ""). split; [done|]. cbn [lr_Jobs lr_NextCursor]. rewrite decide_True by lia.
    split; [|done]. rewrite Hjs, !take_ge by lia. done.
Qed.

Lemma pages_spec fuel cursor suf pre :
  listing = pre ++ suf → reads_next key cursor suf → (length suf < fuel)%nat →
  ∃ pages, list_pages hmac_sha256 json_cursor fuel key tenantExternalID limit status cursor d = Ok pages ∧
    job_key <$> concat pages = suf ∧ Forall (λ page, (length page ≤ Z.to_nat limit)%nat) pages.
Proof.
  revert cursor suf pre. induction fuel as [|fuel IH]; intros cursor suf pre HL Hnext Hfuel; [lia|]. cbn [list_pages].
  destruct (page_spec _ _ _ HL Hnext) as (page & -> & Hjobs & Hrest). cbn [mbind result_bind].
  assert (Hlen : (length (lr_Jobs page) ≤ Z.to_nat limit)%nat).
  { rewrite <-(length_fmap job_key), Hjobs, length_take. lia. }
  case_decide as Hlast.
  - rewrite Hrest. rewrite bool_decide_eq_true_2 by done. eexists. split; [reflexivity|]. simpl.
    rewrite app_nil_r, Hjobs, take_ge by lia. split; [done|]. by constructor.
  - destruct Hrest as [Hne Hrest]. rewrite bool_decide_eq_false_2 by done.
    destruct (IH (lr_NextCursor page) (drop (Z.to_nat limit) suf) (pre ++ take (Z.to_nat limit) suf)) as (pages & -> & Hp & Hall).
    + by rewrite <-app_assoc, take_drop.
    + done.
    + rewrite length_drop. lia.
    + cbn [mbind result_bind]. eexists. split; [reflexivity|]. cbn [concat]. rewrite fmap_app, Hp, Hjobs, take_drop.
      split; [done|]. by constructor.
Qed.

(** C11: Following the cursors of a listing yields every job exactly once. Over
    a fixed store, a client of [List] with a valid tenant, status filter and page
    size never fails and never loops: it reads pages of at most [limit] jobs
    whose concatenation lists, newest first and without repetition, exactly the
    jobs of the tenant with the status. *)
Theorem listing_enumerates_jobs fuel :
  (length keys < fuel)%nat →
  ∃ pages, list_pages hmac_sha256 json_cursor fuel key tenantExternalID limit status "" d = Ok pages ∧
    Forall (λ page, (length page ≤ Z.to_nat limit)%nat) pages ∧
    StronglySorted newest_first (job_key <$> concat pages) ∧ NoDup (ej_InternalID <$> concat pages) ∧
    ∀ id, id ∈ (ej_InternalID <$> concat pages) ↔
      ∃ r, jobs d !! id = Some r ∧ matches d tenantExternalID status (id, r).
Proof.
  intros Hfuel. destruct (pages_spec fuel "" listing [] eq_refl (reads_first key)) as (pages & Hp & Hk & Hall).
  { by rewrite merge_sort_Permutation. }
  exists pages. split; [done|]. split; [done|]. rewrite Hk.
  assert (Hids : ej_InternalID <$> concat pages = snd <$> listing) by (by rewrite <-Hk, <-list_fmap_compose).
  rewrite Hids. split; [apply StronglySorted_merge_sort; apply _|]. split.
  - rewrite merge_sort_Permutation. apply job_keys_ids_nodup.
  - intros id. rewrite merge_sort_Permutation, list_elem_of_fmap. split.
    + intros (a & -> & (id' & r & Hr & Hm & ->)%elem_of_job_keys). eauto.
    + intros (r & Hr & Hm). exists (jb_CreatedAt r, id). split; [done|]. apply elem_of_job_keys. eauto.
Qed.
End Pagination.
