(* ===== verification/SubmissionSafety.v ===== *)
(** * Encrypted sources neither dangle nor leak

    Over every interleaving of submissions, sweepers and other transactions:
    every source row has its object, and every object has a source row or a
    reservation the sweeper will find. *)
From stdpp Require Import prelude gmap strings.
From S2P Require Import Prelude.
From S2P Require Import GoText.
From S2P Require Import JobState.
From S2P Require Import Manifest.
From S2P Require Import Store.
From S2P Require Import JobWorker.
From S2P Require Import JobRepository.
From S2P Require Import StoreInvariant.
From S2P Require Import StoreSteps.
From S2P Require Import StoreClaim.
From S2P Require Import StoreReach.
From S2P Require Import Submission.

Open Scope Z_scope.

(** ** What the statements do to sources and reservations *)
Definition owned_by (d : db) (key token : string) : Prop :=
  ∃ r, reservations d !! key = Some r ∧ rs_OwnerToken r = token.

Definition no_row (d : db) (key : string) : Prop := ∀ id row, sources d !! id = Some row → sr_ObjectKey row ≠ key.

Lemma delete_reservations_ok claims d n d' :
  delete_reservations claims d = Ok (n, d') →
  sources d' = sources d ∧
  ∀ key r, reservations d' !! key = Some r ↔
    reservations d !! key = Some r ∧ ¬ reservation_matches claims (key, r).
Proof.
  unfold delete_reservations. intros [= _ <-]. split; [done|]. intros key r. simpl.
  rewrite map_lookup_filter_Some. done.
Qed.

Lemma SubmitTx_resources json_policy s sourceID jobID lockNow now ttl d job d' :
  SubmitTx json_policy s sourceID jobID lockNow now ttl d = Ok (SubmittedJob job, d') →
  owned_by d (rc_ObjectKey (su_Source s)) (rc_OwnerToken (su_Source s)) ∧
  (∃ row, sr_ObjectKey row = rc_ObjectKey (su_Source s) ∧ sources d !! sourceID = None ∧
          sources d' = <[sourceID := row]> (sources d)) ∧
  (∀ key r, reservations d' !! key = Some r ↔
     reservations d !! key = Some r ∧ ¬ reservation_matches [su_Coordination s; su_Source s] (key, r)).
Proof.
  intros H. unfold SubmitTx in H. inv_tx.
  match goal with v : (Z * TenantPolicy)%type |- _ => destruct v as [t policy] end.
  match goal with Hl : lockSubmissionReservations _ _ _ _ = _ |- _ =>
    apply lockSubmissionReservations_ok in Hl as (-> & Hlock) end.
  match goal with Hl : lockTenantPolicy _ _ _ = _ |- _ => rename Hl into Hten end.
  unfold lockTenantPolicy in Hten. destruct (find_tenant _ _) as [[t' tenant]|]; [|done].
  destruct (negb _); [done|]. destruct (decodeTenantPolicy _ _); [|done]. injection Hten as -> -> <-.
  apply Forall_cons in Hlock as [_ Hlock]. apply Forall_cons in Hlock as [(r & Hr & Ho & _) _].
  split; [by exists r|]. inv_tx.
  set (d1 := match idempotency d !! _ with Some _ => _ | None => d end) in *.
  assert (Hd1 : sources d1 = sources d ∧ reservations d1 = reservations d).
  { subst d1. destruct (idempotency d !! _) as [record|]; [|done]. by destruct (_ <=? _). }
  clearbody d1. destruct Hd1 as [Hs1 Hr1]. destruct (idempotency d1 !! _) as [record|].
  - destruct (negb _); [done|]. inv_tx. unfold roll_back in H. discriminate H.
  - inv_tx. unfold persist_submission in *. inv_tx.
    destruct (find_bundle _ _ _) as [b|]; [|done]. destruct (if bool_decide _ then _ else _) as [c|]; [|done]. inv_tx.
    unfold insert_source, insert_job in *.
    repeat match goal with Hi' : (if ?b then Err _ else Ok _) = Ok _ |- _ => destruct b eqn:?; [done|injection Hi' as <-] end.
    match goal with Hd' : delete_reservations _ _ = _ |- _ => apply delete_reservations_ok in Hd' as [Hsrc Hres] end.
    match goal with Hr' : read_job _ _ _ _ = _ |- _ => apply read_job_ok in Hr' as (-> & _) end.
    bool_to_prop. simpl in *. rewrite Hs1 in *. rewrite Hr1 in *. split; [|exact Hres].
    exists (source_of_submission t s). split_and!; [done| |done].
    by destruct (sources d !! sourceID).
Qed.

Lemma referenced_spec d key : referenced d key = false ↔ no_row d key.
Proof.
  unfold referenced, no_row. rewrite <-not_true_iff_false, existsb_exists. split.
  - intros H id row Hrow He. apply H. exists (id, row). split; [by apply list_elem_of_In, elem_of_map_to_list|].
    by apply bool_decide_eq_true.
  - intros H ([id row] & Hin & He). apply bool_decide_eq_true in He.
    eapply H; [|exact He]. by apply elem_of_map_to_list, list_elem_of_In.
Qed.

Lemma claimSourceReservation_ok minimumAge now locked token d claim d' :
  claimSourceReservation minimumAge now locked token d = Some (claim, d') →
  rc_OwnerToken claim = token ∧
  ∃ r, reservations d !! rc_ObjectKey claim = Some r ∧ rs_CreatedAt r ≤ now - minimumAge ∧
    sources d' = sources d ∧
    reservations d' = <[rc_ObjectKey claim := mkReservationRow token (now + sourceReservationSweepLease) (rs_CreatedAt r)]>
                        (reservations d).
Proof.
  unfold claimSourceReservation. destruct (first_by _ _) as [[key r]|] eqn:Hf; [|done]. intros [= <- <-].
  apply first_by_elem, list_elem_of_filter in Hf as [(_ & Hc & _) Hin]. simpl in Hc.
  split; [done|]. exists r. split_and!; [|done..]. simpl. by apply elem_of_map_to_list.
Qed.

Lemma tryAcquire_ok claim lease now d b d' :
  tryAcquireSourceReservation claim lease now d = (b, d') →
  sources d' = sources d ∧
  (d' = d ∨ reservations d' = <[rc_ObjectKey claim := mkReservationRow (rc_OwnerToken claim) (now + lease) now]>
                                (reservations d)) ∧
  (b = true → reservations d' = <[rc_ObjectKey claim := mkReservationRow (rc_OwnerToken claim) (now + lease) now]>
                                  (reservations d)).
Proof.
  unfold tryAcquireSourceReservation. destruct (reservations d !! _) as [r|]; [destruct (_ <=? _)|];
    intros [= <- <-]; simpl; split_and!; auto; done.
Qed.

(** ** The invariant *)
Definition early (p : submit_phase) : Prop :=
  match p with
  | AtReplay | AtPreflight | AtCoordinationReplay | AtCoordination | AtRecheck | AtAdmit | AtReserve => True
  | _ => False
  end.

Definition unswept (sy : system) (key : string) : Prop :=
  ∀ k p, sy_Sweepers sy !! k = Some p → sweep_target p ≠ Some key.

Definition thread_ok (sy : system) (th : submit_thread) : Prop :=
  th_Deadline th ≤ sy_Now sy + ttl_submission_limit ∧ coordination_key th ∉ sy_Objects sy ∧
  source_key th ≠ coordination_key th ∧
  match th_Phase th with
  | AtCreate =>
      source_key th ∉ sy_Objects sy ∧ no_row (sy_DB sy) (source_key th) ∧
      (sy_Now sy < th_Deadline th → ∃ r, reservations (sy_DB sy) !! source_key th = Some r ∧
         rs_OwnerToken r = source_token th ∧ th_Deadline th ≤ rs_CreatedAt r + ttl_submission_limit)
  | AtTransaction =>
      no_row (sy_DB sy) (source_key th) ∧
      (owned_by (sy_DB sy) (source_key th) (source_token th) → source_key th ∈ sy_Objects sy)
  | AtCompensation _ => no_row (sy_DB sy) (source_key th)
  | AtRelease _ claims =>
      claims = [su_Coordination (th_Submission th)] ∨
      (claims = [su_Coordination (th_Submission th); su_Source (th_Submission th)] ∧
       source_key th ∉ sy_Objects sy)
  | Returned _ => True
  | _ =>
      source_key th ∉ sy_Objects sy ∧ no_row (sy_DB sy) (source_key th) ∧
      reservations (sy_DB sy) !! source_key th = None ∧ unswept sy (source_key th)
  end.

Definition sweep_ok (sy : system) (p : sweep_phase) : Prop :=
  match p with
  | SweepIdle => True
  | SweepClaimed c | SweepDelete c | SweepFinalize c =>
      (∀ i th, sy_Threads sy !! i = Some th → source_key th = rc_ObjectKey c →
         ¬ owned_by (sy_DB sy) (rc_ObjectKey c) (source_token th))
  end ∧
  match p with
  | SweepDelete c => no_row (sy_DB sy) (rc_ObjectKey c)
  | SweepFinalize c =>
      owned_by (sy_DB sy) (rc_ObjectKey c) (rc_OwnerToken c) →
      rc_ObjectKey c ∉ sy_Objects sy ∨ ¬ no_row (sy_DB sy) (rc_ObjectKey c)
  | _ => True
  end.

Record sources_safe (sy : system) : Prop := {
  ss_rows : ∀ id row, sources (sy_DB sy) !! id = Some row → sr_ObjectKey row ∈ sy_Objects sy;
  ss_cover : ∀ key, key ∈ sy_Objects sy → no_row (sy_DB sy) key → is_Some (reservations (sy_DB sy) !! key);
  ss_threads : ∀ i th, sy_Threads sy !! i = Some th → thread_ok sy th;
  ss_apart : ∀ i j th th', sy_Threads sy !! i = Some th → sy_Threads sy !! j = Some th' → i ≠ j →
    source_key th ≠ source_key th' ∧ source_key th ≠ coordination_key th';
  ss_sweepers : ∀ k p, sy_Sweepers sy !! k = Some p → sweep_ok sy p
}.

(** ** Framing *)
Lemma thread_ok_frame sy sy' th :
  thread_ok sy th → sy_Now sy ≤ sy_Now sy' →
  (source_key th ∈ sy_Objects sy' ↔ source_key th ∈ sy_Objects sy) → coordination_key th ∉ sy_Objects sy' →
  (no_row (sy_DB sy) (source_key th) → no_row (sy_DB sy') (source_key th)) →
  reservations (sy_DB sy') !! source_key th = reservations (sy_DB sy) !! source_key th →
  (unswept sy (source_key th) → unswept sy' (source_key th)) → thread_ok sy' th.
Proof.
  unfold thread_ok, owned_by. intros (Hd & Hc & Hk & Hp) Hnow Ho Hc' Hrow Hres Hun.
  split_and!; [lia|done|done|]. rewrite Hres.
  assert (Hno : source_key th ∉ sy_Objects sy → source_key th ∉ sy_Objects sy') by tauto.
  destruct (th_Phase th); try done; try (destruct_and!; split_and!; auto; done).
  - destruct Hp as (? & ? & Hr). split_and!; auto. intros. apply Hr. lia.
  - destruct Hp as [? Hr]. split; [auto|]. intros Hown. apply Ho. by apply Hr.
  - auto.
  - destruct Hp as [?|[? ?]]; auto.
Qed.

Lemma sweep_ok_frame sy sy' p :
  sweep_ok sy p →
  (∀ key, sweep_target p = Some key →
     (∀ i th, sy_Threads sy' !! i = Some th → source_key th = key → owned_by (sy_DB sy') key (source_token th) →
        ∃ i th', sy_Threads sy !! i = Some th' ∧ source_key th' = key ∧ owned_by (sy_DB sy) key (source_token th')) ∧
     (no_row (sy_DB sy) key → no_row (sy_DB sy') key ∨ ∃ i th, sy_Threads sy !! i = Some th ∧ source_key th = key ∧
        owned_by (sy_DB sy) key (source_token th)) ∧
     (∀ token, sweep_token p = Some token → owned_by (sy_DB sy') key token → key ∉ sy_Objects sy' ∨
        ¬ no_row (sy_DB sy') key ∨ owned_by (sy_DB sy) key token ∧
        (key ∉ sy_Objects sy → key ∉ sy_Objects sy') ∧ (no_row (sy_DB sy') key → no_row (sy_DB sy) key))) →
  sweep_ok sy' p.
Proof.
  intros Hok Hf. destruct p as [|c|c|c]; [done|..]; destruct (Hf (rc_ObjectKey c) eq_refl) as (H1 & H2 & H3);
    destruct Hok as [Ha Hb].
  all: assert (Ha' : ∀ i th, sy_Threads sy' !! i = Some th → source_key th = rc_ObjectKey c →
         ¬ owned_by (sy_DB sy') (rc_ObjectKey c) (source_token th))
    by (intros i th Hth Hk Hown; destruct (H1 i th Hth Hk Hown) as (i' & th' & ? & ? & ?); by eapply Ha).
  all: split; [done|]; try done.
  - destruct (H2 Hb) as [?|(i & th & ? & ? & ?)]; [done|]. exfalso. by eapply Ha.
  - intros Hown. destruct (H3 _ eq_refl Hown) as [?|[?|(Hown' & Ho & Hr)]]; [by left|by right|].
    destruct (Hb Hown') as [?|Hn]; [left; auto|right]. intros ?. apply Hn. auto.
Qed.

(** What a statement of a submission can touch: the object, the row and the two
    reservations of that submission. *)
Record submit_effect (s : submission) (d d' : db) (o o' : objects) : Prop := {
  se_objects : ∀ key, key ≠ rc_ObjectKey (su_Source s) → key ∈ o' ↔ key ∈ o;
  se_rows_kept : ∀ key, no_row d' key → no_row d key;
  se_rows_new : ∀ key, no_row d key → no_row d' key ∨
    (key = rc_ObjectKey (su_Source s) ∧ owned_by d key (rc_OwnerToken (su_Source s)));
  se_reservations : ∀ key, key ≠ rc_ObjectKey (su_Source s) → key ≠ rc_ObjectKey (su_Coordination s) →
    reservations d' !! key = reservations d !! key
}.

Lemma effect_same s d o : submit_effect s d d o o.
Proof. split; auto. Qed.

Lemma effect_objects s d o o' :
  (∀ key, key ≠ rc_ObjectKey (su_Source s) → key ∈ o' ↔ key ∈ o) → submit_effect s d d o o'.
Proof. intros H. split; auto. Qed.

Lemma no_row_same d d' key : sources d' = sources d → no_row d' key ↔ no_row d key.
Proof. intros E. unfold no_row. by rewrite E. Qed.

Lemma effect_acquire s claim lease now d b d' o :
  claim = su_Coordination s ∨ claim = su_Source s →
  tryAcquireSourceReservation claim lease now d = (b, d') → submit_effect s d d' o o.
Proof.
  intros Hc H. apply tryAcquire_ok in H as (Hs & Hr & _). split; [done|..].
  - intros key. by rewrite (no_row_same d d').
  - intros key. rewrite (no_row_same d d') by done. auto.
  - intros key H1 H2. destruct Hr as [-> | ->]; [done|]. apply lookup_insert_ne. destruct Hc as [-> | ->]; congruence.
Qed.

Lemma option_eq_iff {A} (x y : option A) : (∀ a, x = Some a ↔ y = Some a) → x = y.
Proof. intros H. destruct x as [a|], y as [b|]; try done; [by apply H|symmetry; by apply H|by apply H]. Qed.

Lemma effect_release s claims d n d' o :
  (∀ c, c ∈ claims → c = su_Coordination s ∨ c = su_Source s) →
  delete_reservations claims d = Ok (n, d') → submit_effect s d d' o o.
Proof.
  intros Hc H. apply delete_reservations_ok in H as [Hs Hr]. split; [done|..].
  - intros key. by rewrite (no_row_same d d').
  - intros key. rewrite (no_row_same d d') by done. auto.
  - intros key H1 H2. apply option_eq_iff. intros r. rewrite Hr. split; [by intros []|]. intros Hk. split; [done|].
    intros (c & Hin & Hkey & _)%Exists_exists. simpl in Hkey. destruct (Hc c Hin) as [-> | ->]; congruence.
Qed.

Lemma effect_commit json_policy s sourceID jobID lockNow now ttl d job d' o :
  SubmitTx json_policy s sourceID jobID lockNow now ttl d = Ok (SubmittedJob job, d') → submit_effect s d d' o o.
Proof.
  intros H. apply SubmitTx_resources in H as (Hown & (row & Hkey & Hnew & Hsrc) & Hr). split; [done|..].
  - intros key Hno id row' Hrow'. apply (Hno id). rewrite Hsrc, lookup_insert_ne; [done|congruence].
  - intros key Hno. destruct (decide (key = rc_ObjectKey (su_Source s))) as [->|Hne]; [by right|left].
    intros id row'. rewrite Hsrc. intros [[<- <-]|[_ ?]]%lookup_insert_Some; [congruence|by eapply Hno].
  - intros key H1 H2. apply option_eq_iff. intros r. rewrite Hr. split; [by intros []|]. intros Hk. split; [done|].
    intros (c & Hin & Hk' & _)%Exists_exists. simpl in Hk'.
    apply elem_of_cons in Hin as [->|Hin%list_elem_of_singleton]; [congruence|subst; congruence].
Qed.

Lemma submit_step_effect json_policy s deadline ttl now p d o p' d' o' :
  submit_step json_policy s deadline ttl now p d o p' d' o' →
  (∀ out claims, p = AtRelease out claims → ∀ c, c ∈ claims → c = su_Coordination s ∨ c = su_Source s) →
  submit_effect s d d' o o'.
Proof.
  intros H Hclaims. destruct H; try apply effect_same; try (apply effect_objects; set_solver).
  - eapply effect_acquire; [by left|done].
  - eapply effect_acquire; [by right|done].
  - by eapply effect_commit.
  - destruct H0 as [-> | ->]; [apply effect_same|by eapply effect_commit].
  - eapply effect_release; [|done]. by eapply Hclaims.
Qed.

(** The source reservation of a submission is only taken at [AtReserve]. *)
Lemma submit_step_owner json_policy s deadline ttl now p d o p' d' o' token :
  submit_step json_policy s deadline ttl now p d o p' d' o' → p ≠ AtReserve →
  rc_ObjectKey (su_Source s) ≠ rc_ObjectKey (su_Coordination s) →
  owned_by d' (rc_ObjectKey (su_Source s)) token → owned_by d (rc_ObjectKey (su_Source s)) token.
Proof.
  intros H Hp Hne. destruct H; try done.
  - apply tryAcquire_ok in H0 as (_ & [->|Hr] & _); [done|]. unfold owned_by. by rewrite Hr, lookup_insert_ne.
  - apply SubmitTx_resources in H as (_ & _ & Hr). intros (r & [? _]%Hr & ?). by exists r.
  - destruct H0 as [-> | ->]; [done|]. apply SubmitTx_resources in H as (_ & _ & Hr). intros (r & [? _]%Hr & ?). by exists r.
  - apply delete_reservations_ok in H0 as [_ Hr]. intros (r & [? _]%Hr & ?). by exists r.
Qed.

(** An object appears only by the create of a submission within its deadline. *)
Lemma submit_step_creates json_policy s deadline ttl now p d o p' d' o' :
  submit_step json_policy s deadline ttl now p d o p' d' o' →
  rc_ObjectKey (su_Source s) ∉ o → rc_ObjectKey (su_Source s) ∈ o' → p = AtCreate ∧ now < deadline.
Proof. intros H Hn Hi. destruct H; try done; try set_solver. Qed.

Lemma release_claims sy th :
  thread_ok sy th → ∀ out claims, th_Phase th = AtRelease out claims →
  ∀ c, c ∈ claims → c = su_Coordination (th_Submission th) ∨ c = su_Source (th_Submission th).
Proof.
  intros (_ & _ & _ & Hp) out claims E. rewrite E in Hp. intros c.
  destruct Hp as [-> |[-> _]]; rewrite !elem_of_cons, elem_of_nil; tauto.
Qed.

(** ** Preservation *)
Section Preservation.
Context (json_policy : string → option TenantPolicy) (minimumAge : Z).

Lemma own_thread_ok sy th p d o threads :
  thread_ok sy th →
  submit_step json_policy (th_Submission th) (th_Deadline th) (th_TTL th) (sy_Now sy)
    (th_Phase th) (sy_DB sy) (sy_Objects sy) p d o →
  thread_ok (mkSystem (sy_Now sy) d o threads (sy_Sweepers sy))
    (mkThread (th_Submission th) (th_Deadline th) (th_TTL th) p).
Proof.
  intros Hok H. pose proof (submit_step_effect _ _ _ _ _ _ _ _ _ _ _ H (release_claims _ _ Hok)) as He.
  destruct Hok as (Hd & Hc & Hk & Hp).
  assert (Hc' : coordination_key th ∉ o) by (intros Hin; apply Hc, (se_objects _ _ _ _ _ He); [done|exact Hin]).
  split_and!; [done|done|done|]. simpl. clear He.
  destruct th as [s deadline ttl phase]. simpl in *. unfold source_key, source_token, coordination_key in *. simpl in *.
  destruct H; simpl in *; try done.
  - destruct (findSubmitReplay _ _ _) as [[job|]|e]; simpl; auto.
  - destruct (findSubmitReplay _ _ _) as [[job|]|e]; simpl; auto.
  - destruct Hp as (Ho & Hr & Hn & Hu). apply tryAcquire_ok in H0 as (Hs & [-> | He] & _); [by destruct b|].
    assert (no_row d' (rc_ObjectKey (su_Source s)) ∧ reservations d' !! rc_ObjectKey (su_Source s) = None) as [??].
    { split; [by apply (no_row_same d d')|]. rewrite He, lookup_insert_ne; [done|congruence]. }
    by destruct b.
  - destruct (findSubmitReplay _ _ _) as [[job|]|e]; simpl; auto.
  - auto.
  - destruct Hp as (Ho & Hr & Hn & Hu). unfold tryAcquireSourceReservation in H0. rewrite Hn in H0.
    injection H0 as <- <-. split_and!; [done|done|]. intros _. eexists. simpl. rewrite lookup_insert_eq.
    split_and!; [done|done|]. simpl. lia.
  - auto.
  - destruct Hp as (Ho & Hr & Hn). split; [done|]. intros _. set_solver.
  - by destruct Hp.
  - by destruct Hp.
  - by destruct Hp.
  - right. split; [done|set_solver].
Qed.

Lemma unswept_threads sy d o threads sweepers key :
  sweepers = sy_Sweepers sy → unswept sy key → unswept (mkSystem (sy_Now sy) d o threads sweepers) key.
Proof. intros ->. done. Qed.

(** A step of thread [i] leaves the other threads alone. *)
Lemma other_thread_ok sy i th j th' p d o threads :
  sources_safe sy → sy_Threads sy !! i = Some th → sy_Threads sy !! j = Some th' → i ≠ j →
  submit_step json_policy (th_Submission th) (th_Deadline th) (th_TTL th) (sy_Now sy)
    (th_Phase th) (sy_DB sy) (sy_Objects sy) p d o →
  thread_ok (mkSystem (sy_Now sy) d o threads (sy_Sweepers sy)) th'.
Proof.
  intros Hsafe Hi Hj Hij H. pose proof (ss_threads _ Hsafe _ _ Hi) as Hoki. pose proof (ss_threads _ Hsafe _ _ Hj) as Hokj.
  destruct (submit_step_effect _ _ _ _ _ _ _ _ _ _ _ H (release_claims _ _ Hoki)) as [Ho Hrk Hrn Hres].
  destruct (ss_apart _ Hsafe j i _ _ Hj Hi) as [H1 H2]; [done|]. destruct (ss_apart _ Hsafe i j _ _ Hi Hj Hij) as [_ H3].
  eapply thread_ok_frame; [exact Hokj|done|..]; simpl.
  - by apply Ho.
  - destruct Hokj as (_ & Hc & _). intros Hin. apply Hc, Ho; [|exact Hin]. intros E. apply H3. done.
  - intros Hn. destruct (Hrn _ Hn) as [?|[E _]]; [done|]. by destruct H1.
  - by apply Hres.
  - done.
Qed.

Lemma submit_sweep_ok sy i th k q p d o :
  sources_safe sy → sy_Threads sy !! i = Some th → sy_Sweepers sy !! k = Some q →
  submit_step json_policy (th_Submission th) (th_Deadline th) (th_TTL th) (sy_Now sy)
    (th_Phase th) (sy_DB sy) (sy_Objects sy) p d o →
  sweep_ok (mkSystem (sy_Now sy) d o (<[i := mkThread (th_Submission th) (th_Deadline th) (th_TTL th) p]> (sy_Threads sy))
              (sy_Sweepers sy)) q.
Proof.
  intros Hsafe Hi Hk H. pose proof (ss_threads _ Hsafe _ _ Hi) as Hoki. pose proof (ss_sweepers _ Hsafe _ _ Hk) as Hq.
  destruct (submit_step_effect _ _ _ _ _ _ _ _ _ _ _ H (release_claims _ _ Hoki)) as [Ho Hrk Hrn Hres].
  assert (Hreserve : sweep_target q = Some (source_key th) → th_Phase th ≠ AtReserve).
  { intros Ht E. destruct Hoki as (_ & _ & _ & Hp). rewrite E in Hp. destruct Hp as (_ & _ & _ & Hu). by apply (Hu k q). }
  assert (Hback : ∀ token, sweep_target q = Some (source_key th) →
    owned_by d (source_key th) token → owned_by (sy_DB sy) (source_key th) token).
  { intros token Ht. eapply submit_step_owner; [exact H|by apply Hreserve|by destruct Hoki as (_ & _ & ? & _)]. }
  eapply sweep_ok_frame; [exact Hq|]. intros key Ht. simpl. split_and!.
  - intros j th' [[<- <-]|[Hne Hj]]%lookup_insert_Some Hkey Hown; unfold source_key, source_token in *; simpl in *.
    + exists i, th. subst key. split_and!; [done..|]. by apply Hback.
    + exists j, th'. split_and!; [done..|]. destruct (ss_apart _ Hsafe j i _ _ Hj Hi) as [H1 H2]; [done|].
      unfold owned_by in *. rewrite <-(Hres key); [done|subst key..]; [exact H1|exact H2].
  - intros Hn. destruct (Hrn _ Hn) as [?|[-> Hown]]; [by left|right]. by exists i, th.
  - intros token _ Hown. destruct (decide (key = source_key th)) as [->|Hne].
    + right. right. split_and!; [by apply Hback| |apply Hrk].
      intros Hnin Hin. destruct (submit_step_creates _ _ _ _ _ _ _ _ _ _ _ H Hnin Hin) as [E Hnow].
      destruct Hoki as (_ & _ & _ & Hp). rewrite E in Hp. destruct Hp as (_ & _ & Hr).
      destruct (Hr Hnow) as (r & Hr1 & Hr2 & _). destruct q as [|c|c|c]; [done|..]; injection Ht as Ht;
        destruct Hq as [Hq _]; (destruct (Hq i th Hi (eq_sym Ht)); exists r; by rewrite Ht).
    + destruct (decide (key = coordination_key th)) as [->|Hne'].
      * left. destruct Hoki as (_ & Hc & _). intros Hin. apply Hc, Ho; [done|exact Hin].
      * right. right. split_and!; [|by intros Hnin Hin; apply Hnin, Ho|apply Hrk].
        unfold owned_by in *. by rewrite <-(Hres key).
Qed.

(** What a sweeper can touch: its target's reservation and object. *)
Lemma sweep_step_effect now q d o q' d' o' :
  sweep_step minimumAge now q d o q' d' o' →
  sources d' = sources d ∧ o' ⊆ o ∧
  (∀ key, sweep_target q ≠ Some key → sweep_target q' ≠ Some key →
     (key ∈ o' ↔ key ∈ o) ∧ reservations d' !! key = reservations d !! key).
Proof.
  intros H. destruct H; simpl; try (split_and!; [done|set_solver|]; intros key; set_solver).
  - apply claimSourceReservation_ok in H as (_ & r & _ & _ & Hs & Hr). split_and!; [done|done|].
    intros key _ Hne. split; [done|]. rewrite Hr, lookup_insert_ne; [done|congruence].
  - apply delete_reservations_ok in H as [Hs Hr]. split_and!; [done|done|]. intros key Hne _. split; [done|].
    apply option_eq_iff. intros r. rewrite Hr. split; [by intros []|]. intros Hk. split; [done|].
    intros (c & ->%list_elem_of_singleton & Hk' & _)%Exists_exists. simpl in Hk'. congruence.
Qed.

Definition swept (sy : system) (k : nat) (q' : sweep_phase) (d' : db) (o' : objects) : system :=
  mkSystem (sy_Now sy) d' o' (sy_Threads sy) (<[k := q']> (sy_Sweepers sy)).

Lemma sweep_unswept sy k q' d' o' key :
  sweep_target q' ≠ Some key → unswept sy key → unswept (swept sy k q' d' o') key.
Proof. intros Hq Hu k' p. simpl. intros [[<- <-]|[_ Hp]]%lookup_insert_Some; [done|by eapply Hu]. Qed.

(** A sweeper gets a target only by claiming it. *)
Lemma sweep_step_target now q d o q' d' o' key :
  sweep_step minimumAge now q d o q' d' o' → sweep_target q' = Some key →
  sweep_target q = Some key ∨ q = SweepIdle ∧ ∃ claim r, q' = SweepClaimed claim ∧ rc_ObjectKey claim = key ∧
    reservations d !! key = Some r ∧ rs_CreatedAt r ≤ now - minimumAge.
Proof.
  intros H E. destruct H; simpl in *; try done; try (by left). right. split; [done|].
  apply claimSourceReservation_ok in H as (_ & r & Hr & Hc & _). injection E as <-. by exists claim, r.
Qed.

Context (Hage : ttl_submission_limit ≤ minimumAge).

(** A submission whose source reservation a sweeper has or takes lost it. *)
Lemma sweep_takes_over sy k q q' d' o' i th :
  sources_safe sy → sy_Sweepers sy !! k = Some q → sy_Threads sy !! i = Some th →
  sweep_step minimumAge (sy_Now sy) q (sy_DB sy) (sy_Objects sy) q' d' o' →
  (∀ claim, q' = SweepClaimed claim → q = SweepIdle → fresh_token sy (rc_OwnerToken claim)) →
  sweep_target q = Some (source_key th) ∨ sweep_target q' = Some (source_key th) →
  ¬ early (th_Phase th) ∧ ¬ owned_by d' (source_key th) (source_token th) ∧
  (th_Phase th = AtCreate → th_Deadline th ≤ sy_Now sy).
Proof.
  intros Hsafe Hk Hi H Hfresh Ht. destruct (ss_threads _ Hsafe _ _ Hi) as (_ & _ & _ & Hp).
  assert (Hgone : sweep_target q = Some (source_key th) ∨ q = SweepIdle ∧ ∃ claim r, q' = SweepClaimed claim ∧
    rc_ObjectKey claim = source_key th ∧
    reservations (sy_DB sy) !! source_key th = Some r ∧ rs_CreatedAt r ≤ sy_Now sy - minimumAge).
  { destruct Ht as [Ht|Ht]; [by left|]. by eapply sweep_step_target. }
  destruct Hgone as [Htq|(-> & claim & r & -> & Hkey & Hr & Hage')].
  - pose proof (ss_sweepers _ Hsafe _ _ Hk) as Hq.
    assert (Hno : ¬ owned_by (sy_DB sy) (source_key th) (source_token th)).
    { destruct q; [done|..]; injection Htq as Htq; destruct Hq as [Hq _]; rewrite <-Htq; by apply (Hq i th Hi). }
    split_and!.
    + destruct (th_Phase th); try tauto; destruct Hp as (_ & _ & _ & Hu); intros _; by apply (Hu k q).
    + intros Hown. apply Hno. destruct H; simpl in *; try done.
      apply delete_reservations_ok in H as [_ Hres]. destruct Hown as (r & [? _]%Hres & ?). by exists r.
    + intros E. rewrite E in Hp. destruct Hp as (_ & _ & Hr). apply Z.nlt_ge. intros Hnow.
      destruct (Hr Hnow) as (r & ? & ? & _). apply Hno. by exists r.
  - destruct (Hfresh claim eq_refl eq_refl) as [Hf _]. inversion H; subst.
    match goal with Hc : claimSourceReservation _ _ _ _ _ = _ |- _ =>
      apply claimSourceReservation_ok in Hc as (<- & r' & _ & _ & _ & Hres) end.
    split_and!.
    + destruct (th_Phase th); try tauto; destruct Hp as (_ & _ & Hn & _); congruence.
    + intros (r0 & Hr0 & Ho). rewrite Hres, Hkey, lookup_insert_eq in Hr0. injection Hr0 as <-. simpl in Ho.
      by apply (Hf i th Hi).
    + intros E. rewrite E in Hp. destruct Hp as (_ & _ & Hd). apply Z.nlt_ge. intros Hnow.
      destruct (Hd Hnow) as (r0 & Hr0 & _ & Hle). rewrite Hr in Hr0. injection Hr0 as <-. lia.
Qed.

Lemma sweep_thread_ok sy k q q' d' o' i th :
  sources_safe sy → sy_Sweepers sy !! k = Some q → sy_Threads sy !! i = Some th →
  sweep_step minimumAge (sy_Now sy) q (sy_DB sy) (sy_Objects sy) q' d' o' →
  (∀ claim, q' = SweepClaimed claim → q = SweepIdle → fresh_token sy (rc_OwnerToken claim)) →
  thread_ok (swept sy k q' d' o') th.
Proof.
  intros Hsafe Hk Hi H Hfresh. pose proof (ss_threads _ Hsafe _ _ Hi) as Hok.
  destruct (sweep_step_effect _ _ _ _ _ _ _ H) as (Hs & Hsub & Hoth).
  assert (Hcoord : coordination_key th ∉ o') by (destruct Hok as (_ & ? & _); set_solver).
  assert (Hrow : no_row (sy_DB sy) (source_key th) → no_row d' (source_key th)) by (intros ?; by apply (no_row_same (sy_DB sy) d')).
  destruct (decide (sweep_target q = Some (source_key th) ∨ sweep_target q' = Some (source_key th))) as [Ht|Hn].
  - destruct (sweep_takes_over _ _ _ _ _ _ _ _ Hsafe Hk Hi H Hfresh Ht) as (He & Hown & Hdl).
    destruct Hok as (Hd & Hc & Hne & Hp). split_and!; [done|done|done|]. simpl.
    destruct (th_Phase th); try (by destruct He); try done.
    + destruct Hp as (? & ? & _). specialize (Hdl eq_refl). split_and!; [set_solver|auto|lia].
    + destruct Hp as [? _]. split; [auto|done].
    + auto.
    + destruct Hp as [?|[? ?]]; [by left|right]. split; [done|set_solver].
  - destruct (Hoth (source_key th)) as [Hobj Hres]; [tauto..|].
    eapply thread_ok_frame; [exact Hok|done|done|done|done|done|].
    apply sweep_unswept. tauto.
Qed.

(** A step of one sweeper leaves another's knowledge true. *)
Lemma sweep_other_ok sy k q q' d' o' k2 q2 :
  sources_safe sy → sy_Sweepers sy !! k2 = Some q2 →
  sweep_step minimumAge (sy_Now sy) q (sy_DB sy) (sy_Objects sy) q' d' o' →
  (∀ claim, q' = SweepClaimed claim → q = SweepIdle → fresh_token sy (rc_OwnerToken claim)) →
  sweep_ok (swept sy k q' d' o') q2.
Proof.
  intros Hsafe Hk2 H Hfresh. destruct (sweep_step_effect _ _ _ _ _ _ _ H) as (Hs & Hsub & _).
  assert (Hrow : ∀ key, no_row d' key ↔ no_row (sy_DB sy) key) by (intros; by apply no_row_same).
  assert (Hown : ∀ key token, owned_by d' key token → owned_by (sy_DB sy) key token ∨
    ∃ claim, q = SweepIdle ∧ q' = SweepClaimed claim ∧ token = rc_OwnerToken claim).
  { intros key token (r & Hr & Ho). destruct H; try (left; by exists r).
    - apply claimSourceReservation_ok in H as (Ht & r' & Hr' & _ & _ & Hres). rewrite Hres in Hr.
      apply lookup_insert_Some in Hr as [[_ <-]|[_ Hr]]; [right; exists claim; by subst|left; by exists r].
    - apply delete_reservations_ok in H as [_ Hres]. apply Hres in Hr as [Hr _]. left. by exists r. }
  eapply sweep_ok_frame; [by apply (ss_sweepers _ Hsafe k2)|]. intros key Ht. split_and!; simpl.
  - intros i th Hi Hkey Ho. exists i, th. split_and!; [done..|].
    destruct (Hown _ _ Ho) as [?|(claim & -> & -> & E)]; [done|]. by destruct (Hfresh claim eq_refl eq_refl) as [Hf _]; destruct (Hf i th Hi).
  - intros. left. by apply Hrow.
  - intros token Htok Ho. right. right. destruct (Hown _ _ Ho) as [?|(claim & -> & -> & E)].
    + split_and!; [done|set_solver|]. by apply Hrow.
    + destruct (Hfresh claim eq_refl eq_refl) as [_ Hf]. destruct (Hf k2 q2 Hk2). by rewrite Htok, E.
Qed.

Lemma sweep_own_ok sy k q q' d' o' :
  sources_safe sy → sy_Sweepers sy !! k = Some q →
  sweep_step minimumAge (sy_Now sy) q (sy_DB sy) (sy_Objects sy) q' d' o' →
  (∀ claim, q' = SweepClaimed claim → q = SweepIdle → fresh_token sy (rc_OwnerToken claim)) →
  sweep_ok (swept sy k q' d' o') q'.
Proof.
  intros Hsafe Hk H Hfresh. pose proof (ss_sweepers _ Hsafe _ _ Hk) as Hq.
  assert (Hlost : ∀ claim, sweep_target q' = Some (rc_ObjectKey claim) → ∀ i th, sy_Threads sy !! i = Some th →
    source_key th = rc_ObjectKey claim → ¬ owned_by d' (rc_ObjectKey claim) (source_token th)).
  { intros claim Ht i th Hi Hkey. rewrite <-Hkey in *. eapply (sweep_takes_over sy k q q' d' o' i th); try done. by right. }
  destruct H; try done; (split; [by apply Hlost|]); simpl; try done.
  - intros _. right. rewrite <-referenced_spec. congruence.
  - by apply referenced_spec.
  - intros _. left. set_solver.
Qed.

Lemma sweeper_safe sy k q q' d' o' :
  sources_safe sy → sy_Sweepers sy !! k = Some q →
  sweep_step minimumAge (sy_Now sy) q (sy_DB sy) (sy_Objects sy) q' d' o' →
  (∀ claim, q' = SweepClaimed claim → q = SweepIdle → fresh_token sy (rc_OwnerToken claim)) →
  sources_safe (swept sy k q' d' o').
Proof.
  intros Hsafe Hk H Hfresh. destruct (sweep_step_effect _ _ _ _ _ _ _ H) as (Hs & Hsub & _).
  assert (Hrow : ∀ key, no_row d' key ↔ no_row (sy_DB sy) key) by (intros; by apply no_row_same).
  split; simpl.
  - intros id row. rewrite Hs. intros Hrow'. pose proof (ss_rows _ Hsafe _ _ Hrow') as Hin.
    pose proof (ss_sweepers _ Hsafe _ _ Hk) as [_ Hno]. destruct H; try done; simpl in Hno.
    + apply elem_of_difference. split; [done|]. intros E%elem_of_singleton. by apply (Hno id row).
    + destruct H as [-> | ->]; [done|]. apply elem_of_difference. split; [done|].
      intros E%elem_of_singleton. by apply (Hno id row).
  - intros key Hin Hno%Hrow. pose proof (ss_cover _ Hsafe key) as Hcov.
    destruct (Hcov (Hsub _ Hin) Hno) as [r Hr]. pose proof (ss_sweepers _ Hsafe _ _ Hk) as [_ Hfin].
    destruct H; try by exists r.
    + apply claimSourceReservation_ok in H as (_ & r' & Hr' & _ & _ & ->). apply lookup_insert_is_Some'. by right.
    + apply delete_reservations_ok in H as [_ Hres]. exists r. apply Hres. split; [done|].
      intros (c & ->%list_elem_of_singleton & Hkey & Ho)%Exists_exists. simpl in *. subst key.
      destruct Hfin as [?|Hn]; [by exists r|done|by apply Hn].
  - intros i th Hi. by eapply sweep_thread_ok.
  - apply (ss_apart _ Hsafe).
  - intros k2 q2 [[<- <-]|[_ Hk2]]%lookup_insert_Some; [by eapply sweep_own_ok|by eapply sweep_other_ok].
Qed.

Lemma submit_rows sy i th p d o :
  sources_safe sy → sy_Threads sy !! i = Some th →
  submit_step json_policy (th_Submission th) (th_Deadline th) (th_TTL th) (sy_Now sy)
    (th_Phase th) (sy_DB sy) (sy_Objects sy) p d o →
  ∀ id row, sources d !! id = Some row → sr_ObjectKey row ∈ o.
Proof.
  intros Hsafe Hi H. pose proof (ss_threads _ Hsafe _ _ Hi) as (_ & _ & _ & Hp).
  pose proof (ss_rows _ Hsafe) as Hrows.
  assert (Hcommit : ∀ sourceID jobID lockNow job d', th_Phase th = AtTransaction →
    SubmitTx json_policy (th_Submission th) sourceID jobID lockNow (sy_Now sy) (th_TTL th) (sy_DB sy) = Ok (SubmittedJob job, d') →
    ∀ id row, sources d' !! id = Some row → sr_ObjectKey row ∈ sy_Objects sy).
  { intros sourceID jobID lockNow job d' E Htx. rewrite E in Hp.
    apply SubmitTx_resources in Htx as (Hown & (row' & Hkey & _ & ->) & _).
    intros id row [[_ <-]|[_ Hr]]%lookup_insert_Some; [|by eapply Hrows]. rewrite Hkey. by apply Hp. }
  assert (Hdrop : no_row (sy_DB sy) (source_key th) → ∀ id row, sources (sy_DB sy) !! id = Some row →
    sr_ObjectKey row ∈ sy_Objects sy ∖ {[source_key th]}).
  { intros Hno id row Hr. apply elem_of_difference. split; [by eapply Hrows|]. intros E%elem_of_singleton. by apply (Hno id row). }
  destruct th as [s deadline ttl phase]. simpl in *. unfold source_key in *. simpl in *.
  destruct H; simpl in *; try exact Hrows.
  - apply tryAcquire_ok in H0 as (-> & _). exact Hrows.
  - apply tryAcquire_ok in H0 as (-> & _). exact Hrows.
  - intros id row Hr. apply elem_of_union_r. by eapply Hrows.
  - intros id row Hr. apply Hrows in Hr. destruct H as [->|(_ & _ & ->)]; set_solver.
  - by eapply Hcommit.
  - destruct H0 as [-> | ->]; [exact Hrows|by eapply Hcommit].
  - by apply Hdrop.
  - destruct H as [-> | ->]; [exact Hrows|by apply Hdrop].
  - apply delete_reservations_ok in H0 as [-> _]. exact Hrows.
Qed.

(** Deleting reservations of keys without objects leaves every object covered. *)
Lemma cover_release sy d n claims :
  sources_safe sy → delete_reservations claims (sy_DB sy) = Ok (n, d) →
  (∀ c, c ∈ claims → rc_ObjectKey c ∉ sy_Objects sy) →
  ∀ key, key ∈ sy_Objects sy → no_row d key → is_Some (reservations d !! key).
Proof.
  intros Hsafe H Hc key Hin Hno. apply delete_reservations_ok in H as [Hs Hres].
  destruct (ss_cover _ Hsafe key Hin) as [r Hr]; [by apply (no_row_same (sy_DB sy) d)|].
  exists r. apply Hres. split; [done|]. intros (c & Hcin & Hkey & _)%Exists_exists. simpl in Hkey. subst key. by eapply Hc.
Qed.

Lemma submit_cover sy i th p d o :
  sources_safe sy → sy_Threads sy !! i = Some th →
  submit_step json_policy (th_Submission th) (th_Deadline th) (th_TTL th) (sy_Now sy)
    (th_Phase th) (sy_DB sy) (sy_Objects sy) p d o →
  ∀ key, key ∈ o → no_row d key → is_Some (reservations d !! key).
Proof.
  intros Hsafe Hi H. pose proof (ss_threads _ Hsafe _ _ Hi) as (_ & Hcoord & _ & Hp).
  pose proof (ss_cover _ Hsafe) as Hcov.
  assert (Hcommit : ∀ sourceID jobID lockNow job d',
    SubmitTx json_policy (th_Submission th) sourceID jobID lockNow (sy_Now sy) (th_TTL th) (sy_DB sy) = Ok (SubmittedJob job, d') →
    ∀ key, key ∈ sy_Objects sy → no_row d' key → is_Some (reservations d' !! key)).
  { intros sourceID jobID lockNow job d' Htx key Hin Hno.
    apply SubmitTx_resources in Htx as (_ & (row & Hkey & Hnew & Hs) & Hres).
    destruct (Hcov key Hin) as [r Hr].
    { intros id row' Hr. apply (Hno id). rewrite Hs, lookup_insert_ne; [done|congruence]. }
    exists r. apply Hres. split; [done|]. intros (c & Hc & Hk & _)%Exists_exists. simpl in Hk.
    apply elem_of_cons in Hc as [-> | ->%list_elem_of_singleton].
    - apply Hcoord. unfold coordination_key. by rewrite <-Hk.
    - apply (Hno sourceID row); [|congruence]. by rewrite Hs, lookup_insert_eq. }
  assert (Hacq : ∀ claim lease b d', tryAcquireSourceReservation claim lease (sy_Now sy) (sy_DB sy) = (b, d') →
    ∀ key, key ∈ sy_Objects sy → no_row d' key → is_Some (reservations d' !! key)).
  { intros claim lease b d' (Hs & Hr & _)%tryAcquire_ok key Hin Hno%(no_row_same _ _ _ Hs).
    destruct Hr as [->|Hr]; [by apply Hcov|]. rewrite Hr. apply lookup_insert_is_Some'. right. by apply Hcov. }
  assert (Hrel : ∀ claims n d', delete_reservations claims (sy_DB sy) = Ok (n, d') →
    claims = [su_Coordination (th_Submission th)] ∨
    (claims = [su_Coordination (th_Submission th); su_Source (th_Submission th)] ∧ source_key th ∉ sy_Objects sy) →
    ∀ key, key ∈ sy_Objects sy → no_row d' key → is_Some (reservations d' !! key)).
  { intros claims n d' Hd Hcl. eapply cover_release; [exact Hsafe|exact Hd|]. intros c Hc.
    destruct Hcl as [-> | [-> Hns]]; [by apply list_elem_of_singleton in Hc as ->|].
    apply elem_of_cons in Hc as [-> | ->%list_elem_of_singleton]; done. }
  assert (Hcreate : th_Phase th = AtCreate → sy_Now sy < th_Deadline th → ∀ key,
    key ∈ {[source_key th]} ∪ sy_Objects sy → no_row (sy_DB sy) key → is_Some (reservations (sy_DB sy) !! key)).
  { intros E Hnow key [->%elem_of_singleton|Hin]%elem_of_union Hno; [|by apply Hcov].
    rewrite E in Hp. destruct Hp as (_ & _ & Hr). destruct (Hr Hnow) as (r & Hr' & _). by exists r. }
  destruct th as [s deadline ttl phase]. simpl in *. unfold source_key in *. simpl in *.
  destruct H; simpl in *; try exact Hcov.
  - by eapply Hacq.
  - by eapply Hacq.
  - by apply Hcreate.
  - destruct H as [->|(? & _ & ->)]; [exact Hcov|by apply Hcreate].
  - by eapply Hcommit.
  - destruct H0 as [-> | ->]; [exact Hcov|by eapply Hcommit].
  - intros key Hin. apply Hcov. set_solver.
  - intros key Hin. apply Hcov. destruct H as [-> | ->]; set_solver.
  - by eapply Hrel.
Qed.

Lemma submit_safe sy i th p d o :
  sources_safe sy → sy_Threads sy !! i = Some th →
  submit_step json_policy (th_Submission th) (th_Deadline th) (th_TTL th) (sy_Now sy)
    (th_Phase th) (sy_DB sy) (sy_Objects sy) p d o →
  sources_safe (mkSystem (sy_Now sy) d o
    (<[i := mkThread (th_Submission th) (th_Deadline th) (th_TTL th) p]> (sy_Threads sy)) (sy_Sweepers sy)).
Proof.
  intros Hsafe Hi H. pose proof (ss_threads _ Hsafe _ _ Hi) as Hok.
  destruct (submit_step_effect _ _ _ _ _ _ _ _ _ _ _ H (release_claims _ _ Hok)) as [Ho Hrk Hrn Hres].
  split; simpl.
  - by eapply submit_rows.
  - by eapply submit_cover.
  - intros j th' [[<- <-]|[Hne Hj]]%lookup_insert_Some; [by eapply own_thread_ok|].
    by eapply (other_thread_ok sy i th j th').
  - intros j j' t t' Hj Hj' Hne.
    apply lookup_insert_Some in Hj as [[<- <-]|[Hj1 Hj]]; apply lookup_insert_Some in Hj' as [[<- <-]|[Hj1' Hj']]; try done.
    + by apply (ss_apart _ Hsafe i j' th t').
    + by apply (ss_apart _ Hsafe j i t th).
    + by apply (ss_apart _ Hsafe j j' t t').
  - intros k q Hk. by eapply submit_sweep_ok.
Qed.

(** The other steps touch neither rows, objects nor reservations. *)
Lemma quiet_safe sy sy' :
  sources_safe sy → sy_Now sy ≤ sy_Now sy' → sy_Objects sy' = sy_Objects sy →
  sources (sy_DB sy') = sources (sy_DB sy) → reservations (sy_DB sy') = reservations (sy_DB sy) →
  sy_Threads sy' = sy_Threads sy →
  (∀ k q, sy_Sweepers sy' !! k = Some q → sy_Sweepers sy !! k = Some q ∨ q = SweepIdle) →
  sources_safe sy'.
Proof.
  intros [H1 H2 H3 H4 H5] Hnow Ho Hs Hr Ht Hk.
  assert (Hrow : ∀ key, no_row (sy_DB sy') key ↔ no_row (sy_DB sy) key) by (intros; by apply no_row_same).
  split.
  - intros id row. rewrite Hs, Ho. apply H1.
  - intros key. rewrite Ho, Hr, Hrow. apply H2.
  - intros i th. rewrite Ht. intros Hi. pose proof (H3 _ _ Hi) as Hok.
    eapply thread_ok_frame; [exact Hok|done|by rewrite Ho|rewrite Ho; apply Hok|by apply Hrow|by rewrite Hr|].
    intros Hu k q Hq. destruct (Hk _ _ Hq) as [Hq'| ->]; [by eapply Hu|done].
  - intros i j th th'. rewrite Ht. apply H4.
  - intros k q Hq. destruct (Hk _ _ Hq) as [Hq'| ->]; [|done].
    eapply sweep_ok_frame; [by eapply H5|]. intros key _. rewrite Ht, Ho. unfold owned_by. rewrite Hr. split_and!.
    + intros i th Hi Hkey Hown. by exists i, th.
    + intros Hno. left. by apply Hrow.
    + intros token _ Hown. right. right. split_and!; [done|done|by apply Hrow].
Qed.

Lemma start_safe sy i th :
  sources_safe sy → sy_Threads sy !! i = None → th_Phase th = AtReplay →
  th_Deadline th ≤ sy_Now sy + ttl_submission_limit → fresh_keys sy th →
  sources_safe (mkSystem (sy_Now sy) (sy_DB sy) (sy_Objects sy) (<[i := th]> (sy_Threads sy)) (sy_Sweepers sy)).
Proof.
  intros [H1 H2 H3 H4 H5] Hi Hph Hd [[Ho Hc] Hr Hres Hown Hth Hsw]. split; simpl; try done.
  - intros j th' [[<- <-]|[_ Hj]]%lookup_insert_Some.
    + split_and!; simpl; try done. by rewrite Hph.
    + pose proof (H3 _ _ Hj) as Hok. eapply thread_ok_frame; [exact Hok|done|done|by apply Hok|done..].
  - intros j j' t t' Hj Hj' Hne.
    apply lookup_insert_Some in Hj as [[<- <-]|[_ Hj]]; apply lookup_insert_Some in Hj' as [[<- <-]|[_ Hj']]; try done.
    + destruct (Hth _ _ Hj') as (? & ? & ?). split; congruence.
    + destruct (Hth _ _ Hj) as (? & ? & ?). split; congruence.
    + by apply (H4 j j').
  - intros k q Hk. eapply sweep_ok_frame; [by eapply H5|]. intros key Ht. simpl. split_and!.
    + intros j th' [[<- <-]|[_ Hj]]%lookup_insert_Some Hkey Ho'.
      * exfalso. apply (Hsw k q Hk). congruence.
      * by exists j, th'.
    + auto.
    + intros token _ Ho'. right. right. by split_and!.
Qed.

Lemma sys_step_safe sy sy' : sources_safe sy → sys_step json_policy minimumAge sy sy' → sources_safe sy'.
Proof.
  intros Hsafe H. destruct H.
  - eapply quiet_safe; [exact Hsafe|done..|by left].
  - by apply start_safe.
  - by eapply submit_safe.
  - by eapply sweeper_safe.
  - eapply quiet_safe; [exact Hsafe|done..|]. simpl. intros k' q [[_ <-]|[_ ?]]%lookup_insert_Some; auto.
  - eapply quiet_safe; [exact Hsafe|done..|by left].
Qed.
End Preservation.

Lemma initial_safe now d : sources d = ∅ → sources_safe (initial_system now d).
Proof. intros Hs. split; simpl; try set_solver. rewrite Hs. set_solver. Qed.

(** C3: Whatever the interleaving of submissions, sweepers and other
    transactions, failed statements, ambiguous commits and crashes included, no
    source row loses its encrypted object, and no object is left without
    either a row or a reservation through which the sweeper finds it. The
    sweeper's minimum age must cover the longest submission. *)
Theorem source_objects_never_dangle_or_leak json_policy minimumAge now d sy :
  ttl_submission_limit ≤ minimumAge → sources d = ∅ →
  rtc (sys_step json_policy minimumAge) (initial_system now d) sy →
  (∀ id row, sources (sy_DB sy) !! id = Some row → sr_ObjectKey row ∈ sy_Objects sy) ∧
  (∀ key, key ∈ sy_Objects sy →
     (∃ id row, sources (sy_DB sy) !! id = Some row ∧ sr_ObjectKey row = key) ∨
     is_Some (reservations (sy_DB sy) !! key)).
Proof.
  intros Hage Hs Hr.
  assert (Hsafe : sources_safe sy).
  { eapply (rtc_preserves _ sources_safe); [|by apply initial_safe|exact Hr]. intros. by eapply sys_step_safe. }
  split; [apply Hsafe|]. intros key Hin. destruct (referenced (sy_DB sy) key) eqn:E.
  - left. unfold referenced in E. apply existsb_exists in E as ([id row] & Hin' & He). apply bool_decide_eq_true in He.
    exists id, row. split; [by apply elem_of_map_to_list, list_elem_of_In|done].
  - right. apply (ss_cover _ Hsafe); [done|by apply referenced_spec].
Qed.
