(* ===== verification/StoreExample.v ===== *)
(** * A worked history of the job store

    One tenant, one ready bundle, one callback: a job is submitted, claimed and
    completed; in another history it is cancelled while it runs. The transactions
    are evaluated, and the states they reach are where the theorems about the
    store are instantiated. *)
From stdpp Require Import prelude gmap strings.
From S2P Require Import Prelude.
From S2P Require Import GoText.
From S2P Require Import JobState.
From S2P Require Import Manifest.
From S2P Require Import Store.
From S2P Require Import JobWorker.
From S2P Require Import JobRepository.
From S2P Require Import StoreInvariant.
From S2P Require Import StoreSteps.
From S2P Require Import StoreClaim.
From S2P Require Import StoreReach.
From S2P Require Import StoreProperties.

Open Scope Z_scope.

(** No retention in the steps considered here. *)
#[local] Existing Instance nothing_retired.

Module Example.
Definition id26 (c : string) : string := String.concat "" (repeat c 26).

Definition tenantID : string := id26 "a".
Definition bundleID : string := id26 "b".
Definition callbackID : string := id26 "c".
Definition jobID : string := id26 "d".
Definition sourceID : string := id26 "e".
Definition eventID : string := id26 "f".

Definition policy : TenantPolicy := mkTenantPolicy 10 2 65536 8 60000 3 5000 512.

Definition manifest : Manifest :=
  {| m_SchemaVersion := 1; m_JudgeMode := JudgeModeACM; m_Checker := CheckerExact;
     m_Limits := mkLimits 1000 256; m_TotalScore := None; m_SpecialJudge := None;
     m_Cases := [mkCase "one" "cases/1.in" "cases/1.out" 1] |}.

(** The documents of the example and what the decoders make of them. *)
Definition json_policy (s : string) : option TenantPolicy :=
  if bool_decide (s = "policy") then Some policy else None.
Definition json_manifest (s : string) : option Manifest :=
  if bool_decide (s = "manifest") then Some manifest else None.
Definition json_payload (p : terminalWebhookPayload) : string := wp_EventType p +:+ wp_EventID p +:+ wp_FailureCode p.
Definition sql_policy_int (document name : string) : option Z :=
  if negb (bool_decide (document = "policy")) then None
  else if bool_decide (name = "maxRunningJobs") then Some (MaxRunningJobs policy)
  else if bool_decide (name = "maxInfrastructureTries") then Some (MaxInfrastructureTries policy) else None.
Definition window : Z := day.

Definition nonce : string := "0123456789ab".
Definition token (c : string) : string := String.concat "" (repeat c 32).

Definition request : JudgeJobRequest := mkJobRequest bundleID "go" "package main" true callbackID "ref-1".

Definition submit : submission :=
  {| su_Tenant := tenantID; su_KeyDigest := "digest"; su_RequestHash := "hash"; su_Request := request;
     su_JobExternalID := jobID; su_SourceExternalID := sourceID;
     su_Encrypted := mkEncryptedSource "ciphertext" nonce 1 "sha" 12;
     su_Coordination := mkReservationClaim "external/coordination.bin" (token "k");
     su_Source := mkReservationClaim "external/source.bin" (token "s") |}.

(** Noon of the day 10: [now0] is the submission. *)
Definition today : Z := 10 * day.
Definition now0 : Z := today + 12 * hour.

Definition empty_store : db :=
  {| tenants := {[ 1 := mkTenantRow tenantID "ACTIVE" "policy" None ]};
     bundles := {[ 2 := mkBundleRow bundleID 1 "manifest" "READY" (Some 0) None None ]};
     sources := ∅;
     callbacks := {[ 3 := mkCallbackRow callbackID 1 None (Some nonce) "secret-ciphertext" 1 ]};
     jobs := ∅; attempts := ∅; daily := ∅; outbox := ∅; idempotency := ∅;
     reservations := {[ "external/coordination.bin" := mkReservationRow (token "k") (now0 + hour) now0;
                        "external/source.bin" := mkReservationRow (token "s") (now0 + hour) now0 ]} |}.

Definition committed {A} (original : db) (r : result external_error (A * db)) : db :=
  match r with Ok (_, d) => d | Err _ => original end.

Definition submission_tx := SubmitTx json_policy submit 4 5 now0 now0 day.
Definition submitted : db := committed empty_store (submission_tx empty_store).

Definition claim_time : Z := now0 + second.
Definition env : claim_env := mkClaimEnv claim_time today ∅ ∅ (token "t") [eventID].

Definition claim_tx := claimOneWithClock json_policy json_manifest json_payload sql_policy_int window "worker-1" minute env.
Definition claimed : db := match claim_tx submitted with ClaimCommitted _ d => d | _ => submitted end.

Definition no_job : ExternalJobRecord :=
  {| ej_InternalID := 0; ej_TenantInternalID := 0; ej_ExternalID := ""; ej_TenantExternalID := "";
     ej_BundleExternalID := ""; ej_Source := mkSourceMetadata 0 "" "" "" 0 0 ""; ej_CallbackID := "";
     ej_Status := JobStatusQueued; ej_Language := ""; ej_StopOnFailure := false; ej_ClientReference := "";
     ej_AttemptNo := 0; ej_WorkerID := ""; ej_LeaseUntil := None; ej_CancelRequested := None; ej_Result := None;
     ej_FailureCode := ""; ej_CreatedAt := 0; ej_StartedAt := None; ej_CompletedAt := None |}.

Definition the_claim : WorkerJobClaim :=
  match claim_tx submitted with
  | ClaimCommitted (Claimed c) _ => c
  | _ => mkWorkerClaim no_job "" 0 "" 0
  end.

Definition accepted : DurableJobResult :=
  {| dr_Verdict := "ACCEPTED"; dr_CompileStatus := "SUCCEEDED"; dr_TimeMillis := 40; dr_MemoryBytes := 1024;
     dr_Score := None; dr_TotalScore := None;
     dr_Cases := [ {| dc_CaseID := "one"; dc_Verdict := "ACCEPTED"; dc_TimeMillis := 40; dc_MemoryBytes := 1024;
                      dc_Score := None; dc_MaxScore := None |} ] |}.

Definition done_time : Z := claim_time + second.
Definition complete_tx := CompleteTx json_payload window the_claim accepted done_time done_time [eventID].
Definition completed : db := committed claimed (complete_tx claimed).

Definition cancel_tx := CancelTx json_payload window tenantID jobID done_time [eventID].
Definition cancelling_store : db := committed claimed (cancel_tx claimed).

(** After the lease has expired the job is claimed again. *)
Definition env2 : claim_env := mkClaimEnv (claim_time + hour) today ∅ ∅ (token "u") [eventID].
Definition reclaim_tx := claimOneWithClock json_policy json_manifest json_payload sql_policy_int window "worker-2" minute env2.
Definition reclaimed : db := match reclaim_tx claimed with ClaimCommitted _ d => d | _ => claimed end.

Definition the_job (d : db) : job_row := default (queued_job 0 0 0 None submit 0) (jobs d !! 5).

Definition succeeds {A} (r : result external_error (A * db)) : bool := match r with Ok _ => true | Err _ => false end.

Lemma committed_ok {A} original (r : result external_error (A * db)) :
  succeeds r = true → ∃ a, r = Ok (a, committed original r).
Proof. destruct r as [[a d]|e]; [eauto|done]. Qed.

(** ** The histories *)
Abbreviation step := (store_step json_policy json_manifest json_payload sql_policy_int window).

Lemma empty_store_ok : no_jobs_yet empty_store.
Proof. done. Qed.

Lemma submitted_step : step empty_store submitted.
Proof.
  destruct (committed_ok empty_store (submission_tx empty_store)) as [a Ha]; [vm_compute; reflexivity|].
  exact (step_submit _ _ _ _ _ _ _ _ _ _ _ _ _ _ Ha).
Qed.

Lemma claim_committed : claim_tx submitted = ClaimCommitted (Claimed the_claim) claimed.
Proof. vm_compute. reflexivity. Qed.

Lemma claimed_step : step submitted claimed.
Proof. exact (step_job _ _ _ _ _ _ _ (step_claim_one _ _ _ _ _ _ _ _ _ _ _ claim_committed)). Qed.

Lemma complete_committed : complete_tx claimed = Ok (tt, completed).
Proof.
  destruct (committed_ok claimed (complete_tx claimed)) as [[] Ha]; [vm_compute; reflexivity|exact Ha].
Qed.

Lemma completed_step : step claimed completed.
Proof. exact (step_job _ _ _ _ _ _ _ (step_complete_tx _ _ _ _ _ _ _ _ _ _ _ _ _ complete_committed)). Qed.

Lemma cancelling_step : step claimed cancelling_store.
Proof.
  destruct (committed_ok claimed (cancel_tx claimed)) as [job Ha]; [vm_compute; reflexivity|].
  exact (step_job _ _ _ _ _ _ _ (step_cancel_tx _ _ _ _ _ _ _ _ _ _ _ _ Ha)).
Qed.

Lemma reclaimed_step : step claimed reclaimed.
Proof.
  assert (∃ c, reclaim_tx claimed = ClaimCommitted (Claimed c) reclaimed) as [c Hc].
  { unfold reclaimed. destruct (reclaim_tx claimed) as [[c|] d|retry e] eqn:E; [eauto| |];
      (exfalso; revert E; vm_compute; discriminate). }
  exact (step_job _ _ _ _ _ _ _ (step_claim_one _ _ _ _ _ _ _ _ _ _ _ Hc)).
Qed.

Lemma reach_claimed : rtc step empty_store claimed.
Proof. eapply rtc_l; [exact submitted_step|]. eapply rtc_once, claimed_step. Qed.

Lemma reach_completed : rtc step empty_store completed.
Proof. eapply rtc_r; [exact reach_claimed|exact completed_step]. Qed.

Lemma claimed_ok : store_ok claimed ∧ unique_ids claimed.
Proof. exact (reachable_ok _ _ _ _ _ _ _ empty_store_ok reach_claimed). Qed.

Lemma completed_ok : store_ok completed ∧ unique_ids completed.
Proof. exact (reachable_ok _ _ _ _ _ _ _ empty_store_ok reach_completed). Qed.

Lemma cancelling_ok : store_ok cancelling_store ∧ unique_ids cancelling_store.
Proof. eapply (reachable_ok _ _ _ _ _ _ _ empty_store_ok). eapply rtc_r; [exact reach_claimed|exact cancelling_step]. Qed.

Lemma reclaimed_ok : store_ok reclaimed ∧ unique_ids reclaimed.
Proof. eapply (reachable_ok _ _ _ _ _ _ _ empty_store_ok). eapply rtc_r; [exact reach_claimed|exact reclaimed_step]. Qed.
End Example.
