(* ===== verification/StoreWitness.v ===== *)
(** * The theorems about the store, at the states of the worked history

    The second part submits a job. *)
From stdpp Require Import prelude gmap strings.
From S2P Require Import Prelude.
From S2P Require Import GoText.
From S2P Require Import JobState.
From S2P Require Import Manifest.
From S2P Require Import Runner.
From S2P Require Import Store.
From S2P Require Import JobWorker.
From S2P Require Import JobRepository.
From S2P Require Import StoreInvariant.
From S2P Require Import StoreSteps.
From S2P Require Import StoreClaim.
From S2P Require Import StoreReach.
From S2P Require Import StoreProperties.
From S2P Require Import Idempotency.
From S2P Require Import StoreQuota.
From S2P Require Import StoreRefine.
From S2P Require Import StoreProgress.
From S2P Require Import StoreWorker.
From S2P Require Import StoreExample.
From S2P Require Import Submission.
From S2P Require Import SubmissionSafety.

Import Example.

Open Scope Z_scope.

(** No retention in the steps considered here. *)
#[local] Existing Instance nothing_retired.

Definition key : Z * Z := (1, today).

Lemma execution_ledger_conserved_witness :
  dl_Reserved (ledger_row (daily claimed) key) = 1000 ∧
  dl_Reserved (ledger_row (daily claimed) key) = reserved_by_running claimed key ∧
  dl_Consumed (ledger_row (daily claimed) key) = consumed_by_attempts claimed key.
Proof.
  split; [vm_compute; reflexivity|].
  exact (execution_ledger_conserved _ _ _ _ _ _ _ 1 today empty_store_ok reach_claimed).
Defined.

Lemma running_job_has_its_attempt_witness :
  jb_Status (the_job claimed) = JobStatusRunning ∧
  ∃ a, attempts claimed !! (5, jb_AttemptNo (the_job claimed)) = Some a ∧ at_Status a = AttemptRunning ∧
       jb_WorkerID (the_job claimed) = Some (at_WorkerID a) ∧ jb_LeaseToken (the_job claimed) = at_LeaseToken a.
Proof.
  split; [vm_compute; reflexivity|].
  apply (proj1 (running_job_has_its_attempt _ _ _ _ _ _ _ 5 empty_store_ok reach_claimed)); vm_compute; reflexivity.
Defined.

Lemma terminal_jobs_have_one_event_witness :
  is_Some (outbox completed !! 5) ∧
  ∃ r, jobs completed !! 5 = Some r ∧ terminal (jb_Status r) = true ∧ is_Some (jb_Callback r).
Proof.
  assert (He : is_Some (outbox completed !! 5)) by (eexists; vm_compute; reflexivity).
  split; [exact He|].
  exact (proj1 (terminal_jobs_have_one_event _ _ _ _ _ _ _ 5 empty_store_ok reach_completed) He).
Defined.

Lemma reachable_rows_well_formed_witness :
  jb_Status (the_job completed) = JobStatusSucceeded ∧ job_row_wf (the_job completed).
Proof.
  split; [vm_compute; reflexivity|].
  apply (reachable_rows_well_formed _ _ _ _ _ _ _ 5 _ empty_store_ok reach_completed). vm_compute. reflexivity.
Defined.

Lemma terminal_rows_frozen_witness :
  terminal (jb_Status (the_job completed)) = true ∧
  ∃ r', jobs completed !! 5 = Some r' ∧ job_sim (the_job completed) r'.
Proof.
  split; [vm_compute; reflexivity|].
  apply (terminal_rows_frozen json_policy json_manifest json_payload sql_policy_int window completed completed 5).
  - apply completed_ok.
  - apply completed_ok.
  - apply rtc_refl.
  - vm_compute. reflexivity.
  - vm_compute. reflexivity.
Defined.

Lemma superseded_claim_fenced_witness :
  wc_AttemptNo the_claim = 1 ∧ jb_AttemptNo (the_job reclaimed) = 2 ∧
  ∀ lease now, HeartbeatTx the_claim lease now reclaimed = Err ErrStaleJobClaim.
Proof.
  split; [vm_compute; reflexivity|]. split; [vm_compute; reflexivity|].
  refine (proj1 (superseded_claim_fenced json_policy json_manifest json_payload sql_policy_int window
    reclaimed reclaimed the_claim (the_job reclaimed) _ _ _ _ _)).
  - apply reclaimed_ok.
  - apply reclaimed_ok.
  - apply rtc_refl.
  - vm_compute. reflexivity.
  - vm_compute. reflexivity.
Defined.

Lemma cancellation_is_final_witness :
  jb_Status (the_job cancelling_store) = JobStatusRunning ∧
  ∃ r', jobs cancelling_store !! 5 = Some r' ∧ cancelling 1 r'.
Proof.
  split; [vm_compute; reflexivity|].
  apply (cancellation_is_final json_policy json_manifest json_payload sql_policy_int window
    cancelling_store cancelling_store 5 (the_job cancelling_store)).
  - apply cancelling_ok.
  - apply cancelling_ok.
  - apply rtc_refl.
  - vm_compute. reflexivity.
  - vm_compute. reflexivity.
  - eexists. vm_compute. reflexivity.
Defined.

Lemma daily_quota_never_exceeded_witness :
  dl_Reserved (ledger_row (daily claimed) key) = 1000 ∧
  dl_Reserved (ledger_row (daily claimed) key) + dl_Consumed (ledger_row (daily claimed) key)
    ≤ DailyExecutionMillis policy.
Proof.
  split; [vm_compute; reflexivity|].
  apply (daily_quota_never_exceeded json_policy json_manifest json_payload sql_policy_int window
    empty_store claimed 1 (mkTenantRow tenantID "ACTIVE" "policy" (Some claim_time)) policy today).
  - apply empty_store_ok.
  - apply reach_claimed.
  - vm_compute. reflexivity.
  - vm_compute. reflexivity.
Defined.

Lemma running_quota_never_exceeded_witness :
  running_count claimed 1 = 1 ∧ running_count claimed 1 ≤ MaxRunningJobs policy.
Proof.
  split; [vm_compute; reflexivity|].
  apply (running_quota_never_exceeded json_policy json_manifest json_payload sql_policy_int window
    empty_store claimed 1 (mkTenantRow tenantID "ACTIVE" "policy" (Some claim_time)) policy).
  - apply empty_store_ok.
  - apply reach_claimed.
  - vm_compute. reflexivity.
  - vm_compute. reflexivity.
Defined.

Lemma repository_refines_durable_job_witness :
  ∃ r r' j', jobs claimed !! 5 = Some r ∧ jobs completed !! 5 = Some r' ∧
    Complete (Some (abs_job r)) (abs_claim the_claim) accepted done_time = Ok j' ∧
    abs_job r' = with_times (NextAttemptAt j') (Some done_time) j'.
Proof.
  destruct claimed_ok as [Hok Hu].
  destruct (repository_refines_durable_job json_policy json_manifest json_payload sql_policy_int window
    claimed completed Hok Hu) as (_ & _ & Hcomplete & _).
  exact (Hcomplete the_claim accepted done_time done_time [eventID] tt complete_committed).
Defined.

Definition the_record : ExternalJobRecord :=
  match scanExternalJob claimed 5 with Ok job => job | Err _ => no_job end.

Lemma the_claim_consistent : claim_consistent claimed the_claim.
Proof.
  intros r. assert (Hid : ej_InternalID (wc_Job the_claim) = 5) by (vm_compute; reflexivity).
  assert (Hj : jobs claimed !! 5 = Some (the_job claimed)) by (vm_compute; reflexivity).
  rewrite Hid, Hj. intros E. apply (inj Some) in E. rewrite <-E. vm_compute. reflexivity.
Qed.

Lemma live_claim_can_complete_witness :
  ∃ d', complete_tx claimed = Ok (tt, d') ∧ jb_Status <$> jobs d' !! 5 = Some JobStatusSucceeded.
Proof.
  apply (live_claim_can_complete json_payload window claimed the_claim (the_job claimed) the_record accepted
    done_time done_time [eventID]).
  - apply claimed_ok.
  - exact the_claim_consistent.
  - vm_compute. reflexivity.
  - vm_compute. reflexivity.
  - vm_compute. reflexivity.
  - vm_compute. reflexivity.
  - vm_compute. reflexivity.
  - split; [exists eventID, []|..]; vm_compute; try discriminate; split_and?; reflexivity || discriminate.
  - vm_compute. reflexivity.
Defined.

Definition runner_config : Config := mkConfig minute (10 * second) (5 * second) (30 * second).

Definition canonical_accepted : BatchPipeline.CanonicalResult :=
  {| BatchPipeline.can_Status := Callback.StatusAccepted; BatchPipeline.can_ExitCode := 0;
     BatchPipeline.can_TimeUsedMillis := 40; BatchPipeline.can_MemoryUsedKB := 1; BatchPipeline.can_Stderr := "";
     BatchPipeline.can_CompileError := ""; BatchPipeline.can_Score := None; BatchPipeline.can_TotalScore := None;
     BatchPipeline.can_Cases := [] |}.

Definition world : mysql_world := mkWorld claimed done_time done_time [eventID] [].

Lemma mysql_ExecuteClaim_never_leaks_witness :
  live_owner world the_claim ∧
  ∃ w', ExecuteClaim (H := mysql_repository json_policy json_manifest json_payload sql_policy_int window)
          runner_config world the_claim false None (Ok canonical_accepted) = (Ok tt, w') ∧
        ¬ live_owner w' the_claim.
Proof.
  split.
  { exists (the_job claimed). vm_compute. auto. }
  assert (∃ w', ExecuteClaim (H := mysql_repository json_policy json_manifest json_payload sql_policy_int window)
          runner_config world the_claim false None (Ok canonical_accepted) = (Ok tt, w')) as [w' Hw].
  { eexists. vm_compute. reflexivity. }
  exists w'. split; [exact Hw|].
  eapply (mysql_ExecuteClaim_never_leaks json_policy json_manifest json_payload sql_policy_int window
    runner_config world the_claim false None (Ok canonical_accepted)).
  - apply claimed_ok.
  - exact the_claim_consistent.
  - discriminate.
  - discriminate.
  - exact Hw.
Defined.

Lemma select_tenant_fair_witness :
  select_tenant sql_policy_int submitted claim_time ∅ = Some (1, mkTenantRow tenantID "ACTIVE" "policy" None) ∧
  tenants submitted !! 1 = Some (mkTenantRow tenantID "ACTIVE" "policy" None).
Proof.
  split; [vm_compute; reflexivity|].
  apply (select_tenant_fair sql_policy_int submitted claim_time ∅ 1 (mkTenantRow tenantID "ACTIVE" "policy" None)).
  vm_compute. reflexivity.
Defined.

Lemma ClaimNext_returns_live_claim_witness :
  store_ok claimed ∧ ∃ r, jobs claimed !! 5 = Some r ∧ owns_job the_claim r = true.
Proof.
  destruct (ClaimNext_returns_live_claim json_policy json_manifest json_payload sql_policy_int window
    "worker-1" minute id [env] submitted the_claim claimed) as (Hok & _ & e & r & _ & Hr & Ho & _).
  - auto.
  - eapply (reachable_ok _ _ _ _ _ _ _ empty_store_ok). apply rtc_once, submitted_step.
  - vm_compute. reflexivity.
  - split; [exact Hok|]. exists r. split; [exact Hr|exact Ho].
Defined.

(** A client repeats its submission, with fresh reservations and ids, after the
    job was claimed. *)
Module Repeat.
Definition held : gmap string reservation_row :=
  {[ "external/coordination-2.bin" := mkReservationRow (token "q") (now0 + hour) now0;
     "external/source-2.bin" := mkReservationRow (token "r") (now0 + hour) now0 ]}.
Definition store : db := set_reservations (λ m, m ∪ held) empty_store.

Definition first : db := committed store (submission_tx store).
Definition first_job : ExternalJobRecord :=
  match submission_tx store with Ok (SubmittedJob job, _) => job | _ => no_job end.
Definition then_claimed : db := match claim_tx first with ClaimCommitted _ d => d | _ => first end.

Definition again : submission :=
  mkSubmission tenantID "digest" "hash" request (id26 "g") (id26 "h") (su_Encrypted submit)
    (mkReservationClaim "external/coordination-2.bin" (token "q")) (mkReservationClaim "external/source-2.bin" (token "r")).

Lemma first_committed : submission_tx store = Ok (SubmittedJob first_job, first).
Proof. vm_compute. reflexivity. Qed.

Lemma repeat_claim_step : job_step json_policy json_manifest json_payload sql_policy_int window first then_claimed.
Proof.
  assert (H : ∃ o, claim_tx first = ClaimCommitted o then_claimed) by (eexists; vm_compute; reflexivity).
  destruct H as [o H]. exact (step_claim_one _ _ _ _ _ _ _ _ _ _ _ H).
Qed.
End Repeat.

Lemma idempotency_key_creates_one_job_witness :
  ∃ job', SubmitTx json_policy Repeat.again 7 8 now0 (now0 + minute) day Repeat.then_claimed
            = Ok (ReplayedJob job', Repeat.then_claimed) ∧
    ej_InternalID job' = 5 ∧ ej_ExternalID job' = ej_ExternalID Repeat.first_job.
Proof.
  apply (idempotency_key_creates_one_job json_policy json_manifest json_payload sql_policy_int window Repeat.store
    Repeat.store submit 4 5 now0 now0 day Repeat.first_job Repeat.first Repeat.then_claimed
    Repeat.again 7 8 now0 (now0 + minute) day).
  - done.
  - intros t1 t2 r1 r2 H1 H2 _. unfold Repeat.store in H1, H2. simpl in H1, H2.
    apply lookup_singleton_Some in H1 as [<- _]. apply lookup_singleton_Some in H2 as [<- _]. done.
  - constructor.
  - exact Repeat.first_committed.
  - apply rtc_once. apply before_job. exact Repeat.repeat_claim_step.
  - done.
  - done.
  - vm_compute. reflexivity.
Defined.

(** * A submission that stores its source, and one that leaves it behind *)
Import Example.

Open Scope Z_scope.

Definition free_store : db := set_reservations (λ _, ∅) empty_store.
Definition deadline : Z := now0 + 5 * minute.

Definition submitter (p : submit_phase) : submit_thread := mkThread submit deadline day p.

Definition system_at (p : submit_phase) (d : db) (o : objects) : system :=
  mkSystem now0 d o {[ 0%nat := submitter p ]} ∅.

Abbreviation sys := (sys_step json_policy hour).

Lemma submitter_moves p p' d d' o o' :
  submit_step json_policy submit deadline day now0 p d o p' d' o' → sys (system_at p d o) (system_at p' d' o').
Proof.
  intros H. pose proof (sys_submit json_policy hour (system_at p d o) 0%nat (submitter p) p' d' o' eq_refl H) as Hs.
  simpl in Hs. unfold submitter in Hs. rewrite insert_singleton_eq in Hs. exact Hs.
Qed.

(** Both reservations are taken at the start. *)
Definition coordinated : db :=
  (tryAcquireSourceReservation (su_Coordination submit) (submissionCoordinationLease deadline now0) now0 free_store).2.
Definition reserved : db :=
  (tryAcquireSourceReservation (su_Source submit) sourceReservationAdmissionLease now0 coordinated).2.

Lemma reach_created :
  rtc sys (initial_system now0 free_store) (system_at AtTransaction reserved {["external/source.bin"]}).
Proof.
  eapply rtc_l.
  { apply (sys_start _ _ _ 0%nat (submitter AtReplay)); [reflexivity|reflexivity|vm_compute; discriminate|].
    split; try (intros *; simpl; rewrite lookup_empty; discriminate).
    - split; apply not_elem_of_empty.
    - reflexivity.
    - vm_compute. discriminate. }
  eapply rtc_l; [apply submitter_moves; apply (step_replay _ _ _ _ _ free_store)|].
  eapply rtc_l; [apply submitter_moves; apply step_preflight_ok; vm_compute; reflexivity|].
  eapply rtc_l; [apply submitter_moves; apply (step_coordination_replay _ _ _ _ _ free_store)|].
  eapply rtc_l; [apply submitter_moves; apply (step_coordination _ _ _ _ _ _ _ true coordinated); reflexivity|].
  eapply rtc_l; [apply submitter_moves; apply (step_recheck _ _ _ _ _ coordinated)|].
  eapply rtc_l; [apply submitter_moves; apply step_admit|].
  eapply rtc_l; [apply submitter_moves; apply (step_reserve _ _ _ _ _ _ _ true reserved); reflexivity|].
  eapply rtc_once. rewrite <-(right_id_L ∅ (∪) {["external/source.bin"]}).
  apply submitter_moves, (step_create json_policy submit); [reflexivity|apply not_elem_of_empty].
Qed.

(** The object exists and is covered by its reservation, whatever comes next. *)
Lemma source_objects_never_dangle_or_leak_witness :
  "external/source.bin" ∈ sy_Objects (system_at AtTransaction reserved {["external/source.bin"]}) ∧
  ((∃ id row, sources reserved !! id = Some row ∧ sr_ObjectKey row = "external/source.bin") ∨
   is_Some (reservations reserved !! "external/source.bin")).
Proof.
  assert (Hin : "external/source.bin" ∈ sy_Objects (system_at AtTransaction reserved {["external/source.bin"]})).
  { simpl. apply elem_of_singleton. reflexivity. }
  split; [exact Hin|].
  apply (source_objects_never_dangle_or_leak json_policy hour now0 free_store
    (system_at AtTransaction reserved {["external/source.bin"]})).
  - vm_compute. discriminate.
  - reflexivity.
  - exact reach_created.
  - exact Hin.
Defined.
