(* ===== verification/SourceRetention.v ===== *)
(** * Retention of sources and idempotency keys, [internal/external/source_retention.go]

    The deletion fence of [t_external_source_object], the retention audit, the
    transactions that claim, retry and finalize the deletion of a source with
    its terminal job, and the batches that expire idempotency records.

    As in [JobWorker], a transaction is one function of the tables, the rows
    other transactions hold ([SKIP LOCKED]) and its clock readings; [rv_Now] is
    the reading that opens the transaction, [rv_StatementNow] the
    [CURRENT_TIMESTAMP(3)] of its statement on the blockers. *)
From stdpp Require Import prelude gmap strings sorting.
From S2P Require Import Prelude.
From S2P Require Import GoText.
From S2P Require Import JobState.
From S2P Require Import Manifest.
From S2P Require Import Store.
From S2P Require Import JobWorker.
From S2P Require Import Submission.

Open Scope Z_scope.

(** ** Tables *)

(** The columns [delete_*] of a source once it is marked. By the check
    constraint of the table they are all null before. *)
Record source_mark : Type := mkMark {
  sm_MarkedAt : Z;
  sm_Token : string;
  sm_LeaseUntil : Z;
  sm_NextAttemptAt : Z;
  sm_AttemptCount : Z;
  sm_LastErrorCode : option string
}.

Inductive audit_event : Type :=
| AuditMarked
| AuditDeleteRetry
| AuditDeleted.

Record audit_row : Type := mkAudit {
  au_Tenant : Z;
  au_JobExternalID : string;
  au_SourceExternalID : string;
  au_Event : audit_event;
  au_At : Z
}.

(** The tables of [Store], the marks of its sources by their id, and the audit
    in insertion order. *)
Record retention_db : Type := mkRetentionDb {
  rd_Store : db;
  rd_Marks : gmap Z source_mark;
  rd_Audit : list audit_row
}.

(** ** Claims *)
Record SourceRetentionClaim : Type := mkRetentionClaim {
  rn_TenantInternalID : Z;
  rn_JobInternalID : Z;
  rn_SourceInternalID : Z;
  rn_JobExternalID : string;
  rn_SourceExternalID : string;
  rn_ObjectKey : string;
  rn_DeleteToken : string
}.

(** [ErrRetentionUnavailable] is what [repositoryUnavailable] wraps, with the
    number of the MySQL error if it is one. *)
Inductive retention_error : Type :=
| ErrSourceRetentionNotAvailable
| ErrIdempotencyRetentionNotAvailable
| errSourceRetentionContention
| ErrRetentionUnavailable (number : option Z).

#[export] Instance retention_error_eq_dec : EqDecision retention_error.
Proof. solve_decision. Defined.

(** [IsTransientDatabaseError] of [source_retention.go]: lock wait timeout and
    deadlock. *)
Definition IsTransientRetentionError (e : retention_error) : bool :=
  match e with
  | ErrRetentionUnavailable (Some number) => (number =? 1205) || (number =? 1213)
  | _ => false
  end.

Definition validSourceRetentionClaim (claim : SourceRetentionClaim) : bool :=
  (0 <? rn_TenantInternalID claim) && (0 <? rn_JobInternalID claim) && (0 <? rn_SourceInternalID claim) &&
  externalIDPattern (rn_JobExternalID claim) && externalIDPattern (rn_SourceExternalID claim) &&
  validSourceObjectKey (rn_ObjectKey claim) && (len (rn_DeleteToken claim) =? 32).

(** What a transaction meets: its clock, the rows others hold, the fence it
    draws, and a database failure, which rolls it back. *)
Record retention_env : Type := mkRetentionEnv {
  rv_Now : Z;
  rv_StatementNow : Z;
  rv_LockedTenants : gset Z;
  rv_LockedJobs : gset Z;
  rv_LockedSources : gset Z;
  rv_Token : option string;
  rv_Failure : option (option Z)
}.

(** ** Candidates *)

(** A mark that can be taken: none, or one whose lease and delay are over. *)
Definition deletion_due (now : Z) (mark : option source_mark) : bool :=
  match mark with
  | None => true
  | Some m => (sm_NextAttemptAt m <=? now) && (sm_LeaseUntil m <=? now)
  end.

(** The idempotency records that still name a job. *)
Definition live_records (tenant : Z) (jobExternalID : string) (now : Z) (d : db) : gmap (Z * string) idempotency_row :=
  filter (λ p : (Z * string) * idempotency_row,
    p.1.1 = tenant ∧ ik_ResourceExternalID p.2 = jobExternalID ∧ now < ik_ExpiresAt p.2) (idempotency d).

(** The other jobs on a source. *)
Definition other_jobs (source job : Z) (d : db) : gmap Z job_row :=
  filter (λ p : Z * job_row, jb_Source p.2 = source ∧ p.1 ≠ job) (jobs d).

(** [retentionBlockers]. *)
Definition retentionBlockers (claim : SourceRetentionClaim) (now : Z) (d : db) : Z :=
  (if outbox d !! rn_JobInternalID claim then 1 else 0) +
  Z.of_nat (size (live_records (rn_TenantInternalID claim) (rn_JobExternalID claim) now d)) +
  Z.of_nat (size (other_jobs (rn_SourceInternalID claim) (rn_JobInternalID claim) d)).

(** A row of the inner query of [sourceRetentionCandidates], with its
    [completed_at]. *)
Definition retention_row (retention now : Z) (rd : retention_db) (p : Z * job_row) : option (Z * SourceRetentionClaim) :=
  let '(id, job) := p in
  let d := rd_Store rd in
  match sources d !! jb_Source job, jb_CompletedAt job with
  | Some source, Some completedAt =>
      let claim := mkRetentionClaim (jb_Tenant job) id (jb_Source job) (jb_ExternalID job) (sr_ExternalID source)
                     (sr_ObjectKey source) "" in
      if (sr_Tenant source =? jb_Tenant job) && terminal (jb_Status job) &&
         (completedAt <=? now - retention / 1000 * 1000) && deletion_due now (rd_Marks rd !! jb_Source job) &&
         (retentionBlockers claim now d =? 0)
      then Some (completedAt, claim) else None
  | _, _ => None
  end.

(** [ORDER BY completed_at, job_id]. *)
Definition candidate_le (a b : Z * SourceRetentionClaim) : Prop :=
  a.1 < b.1 ∨ (a.1 = b.1 ∧ rn_JobInternalID a.2 ≤ rn_JobInternalID b.2).

#[export] Instance candidate_le_dec a b : Decision (candidate_le a b).
Proof. unfold candidate_le. apply _. Defined.

(** [tenant_rank = 1]: no row of the same tenant comes before. *)
Definition first_of_tenant (rows : list (Z * SourceRetentionClaim)) (a : Z * SourceRetentionClaim) : Prop :=
  Forall (λ b, rn_TenantInternalID b.2 = rn_TenantInternalID a.2 → candidate_le a b) rows.

#[export] Instance first_of_tenant_dec rows a : Decision (first_of_tenant rows a).
Proof. unfold first_of_tenant. apply _. Defined.

Definition retention_rows (retention now : Z) (rd : retention_db) : list (Z * SourceRetentionClaim) :=
  omap (retention_row retention now rd) (map_to_list (jobs (rd_Store rd))).

Definition sourceRetentionCandidates (retention : Z) (limit : nat) (now : Z) (rd : retention_db) :
    list SourceRetentionClaim :=
  let rows := retention_rows retention now rd in
  snd <$> take limit (merge_sort candidate_le (filter (first_of_tenant rows) rows)).

(** ** Claiming *)

(** The checks both lock helpers make on the job row; [completedBefore] is
    absent for the zero [time.Time]. *)
Definition retained_job (claim : SourceRetentionClaim) (completedBefore : option Z) (job : job_row) : bool :=
  terminal (jb_Status job) && (jb_Source job =? rn_SourceInternalID claim) &&
  bool_decide (jb_ExternalID job = rn_JobExternalID claim) &&
  match jb_CompletedAt job with
  | None => false
  | Some completedAt =>
      match completedBefore with
      | None => true
      | Some before => negb (before <? completedAt)
      end
  end.

Definition lockRetentionTenantJobForClaim (env : retention_env) (claim : SourceRetentionClaim) (completedBefore : Z)
    (d : db) : result retention_error unit :=
  _ ← guard_err (is_some (tenants d !! rn_TenantInternalID claim) &&
                 bool_decide (rn_TenantInternalID claim ∉ rv_LockedTenants env)) errSourceRetentionContention;
  job ← from_option (jobs d !! rn_JobInternalID claim) errSourceRetentionContention;
  _ ← guard_err ((jb_Tenant job =? rn_TenantInternalID claim) &&
                 bool_decide (rn_JobInternalID claim ∉ rv_LockedJobs env)) errSourceRetentionContention;
  guard_err (retained_job claim (Some completedBefore) job) ErrSourceRetentionNotAvailable.

Definition lockRetentionTenantJob (claim : SourceRetentionClaim) (completedBefore : option Z) (d : db) :
    result retention_error unit :=
  _ ← guard_err (is_some (tenants d !! rn_TenantInternalID claim)) ErrSourceRetentionNotAvailable;
  job ← from_option (jobs d !! rn_JobInternalID claim) ErrSourceRetentionNotAvailable;
  _ ← guard_err (jb_Tenant job =? rn_TenantInternalID claim) ErrSourceRetentionNotAvailable;
  guard_err (retained_job claim completedBefore job) ErrSourceRetentionNotAvailable.

(** [insertRetentionAudit]. *)
Definition insertRetentionAudit (claim : SourceRetentionClaim) (event : audit_event) (now : Z) (rd : retention_db) :
    retention_db :=
  mkRetentionDb (rd_Store rd) (rd_Marks rd)
    (rd_Audit rd ++ [mkAudit (rn_TenantInternalID claim) (rn_JobExternalID claim) (rn_SourceExternalID claim) event now]).

Definition set_mark (source : Z) (mark : source_mark) (rd : retention_db) : retention_db :=
  mkRetentionDb (rd_Store rd) (<[source := mark]> (rd_Marks rd)) (rd_Audit rd).

(** A database failure, if there is one, is what the transaction returns. *)
Definition unless_failed {A} (env : retention_env) (r : result retention_error A) : result retention_error A :=
  match rv_Failure env with
  | Some number => Err (ErrRetentionUnavailable number)
  | None => r
  end.

(** [claimSourceRetentionCandidate]. *)
Definition claimSourceRetentionCandidate (retention leaseDuration : Z) (env : retention_env)
    (claim : SourceRetentionClaim) (rd : retention_db) : result retention_error (SourceRetentionClaim * retention_db) :=
  unless_failed env
    (let d := rd_Store rd in
     let now := rv_Now env in
     let id := rn_SourceInternalID claim in
     let mark := rd_Marks rd !! id in
     _ ← lockRetentionTenantJobForClaim env claim (now - retention) d;
     source ← from_option (sources d !! id) errSourceRetentionContention;
     _ ← guard_err ((sr_Tenant source =? rn_TenantInternalID claim) && bool_decide (id ∉ rv_LockedSources env) &&
                    deletion_due now mark) errSourceRetentionContention;
     _ ← guard_err (retentionBlockers claim (rv_StatementNow env) d =? 0) ErrSourceRetentionNotAvailable;
     token ← from_option (rv_Token env) (ErrRetentionUnavailable None);
     let claim := mkRetentionClaim (rn_TenantInternalID claim) (rn_JobInternalID claim) id (rn_JobExternalID claim)
                    (sr_ExternalID source) (sr_ObjectKey source) token in
     let count := default 0 (sm_AttemptCount <$> mark) + 1 in
     _ ← guard_err (count <=? max_uint32) (ErrRetentionUnavailable (Some 1264));
     let marked := set_mark id (mkMark (default now (sm_MarkedAt <$> mark)) token (now + leaseDuration) now count None) rd in
     mret (claim, if mark then marked else insertRetentionAudit claim AuditMarked now marked)).

(** The loop of [ClaimSourceRetention] over its candidates: [others i] is what
    commits before the transaction of the [i]th. *)
Fixpoint claim_candidates (retention leaseDuration : Z) (candidates : list SourceRetentionClaim)
    (envs : nat → retention_env) (others : nat → retention_db → retention_db) (rd : retention_db) :
    result retention_error SourceRetentionClaim * retention_db :=
  match candidates with
  | [] => (Err ErrSourceRetentionNotAvailable, rd)
  | candidate :: candidates =>
      let rd := others O rd in
      match claimSourceRetentionCandidate retention leaseDuration (envs O) candidate rd with
      | Ok (claim, rd) => (Ok claim, rd)
      | Err e =>
          if bool_decide (e = errSourceRetentionContention) || bool_decide (e = ErrSourceRetentionNotAvailable)
          then claim_candidates retention leaseDuration candidates (λ i, envs (S i)) (λ i, others (S i)) rd
          else (Err e, rd)
      end
  end.

Definition ClaimSourceRetention (retention leaseDuration queryNow : Z) (queryFailure : option (option Z))
    (envs : nat → retention_env) (others : nat → retention_db → retention_db) (rd : retention_db) :
    result retention_error SourceRetentionClaim * retention_db :=
  if (retention <=? 0) || (365 * 24 * hour <? retention) || (leaseDuration <=? 0) || (15 * minute <? leaseDuration)
  then (Err ErrSourceRetentionNotAvailable, rd)
  else
    match queryFailure with
    | Some number => (Err (ErrRetentionUnavailable number), rd)
    | None =>
        claim_candidates retention leaseDuration (sourceRetentionCandidates retention 32 queryNow rd) envs others rd
    end.

(** ** Retrying and finalizing *)

(** The fence: the mark carries the token of the claim and its lease is live. *)
Definition owns_deletion (claim : SourceRetentionClaim) (now : Z) (mark : source_mark) : bool :=
  bool_decide (sm_Token mark = rn_DeleteToken claim) && (now <? sm_LeaseUntil mark).

(** The source row with its mark, when the row is the claim's and the claim owns it. *)
Definition fenced_source (claim : SourceRetentionClaim) (now : Z) (rd : retention_db) :
    result retention_error (source_row * source_mark) :=
  source ← from_option (sources (rd_Store rd) !! rn_SourceInternalID claim) ErrSourceRetentionNotAvailable;
  mark ← from_option (rd_Marks rd !! rn_SourceInternalID claim) ErrSourceRetentionNotAvailable;
  _ ← guard_err ((sr_Tenant source =? rn_TenantInternalID claim) && owns_deletion claim now mark)
        ErrSourceRetentionNotAvailable;
  mret (source, mark).

Definition RecordSourceRetentionFailure (env : retention_env) (claim : SourceRetentionClaim) (retryDelay : Z)
    (rd : retention_db) : result retention_error retention_db :=
  _ ← guard_err (validSourceRetentionClaim claim && (0 <? retryDelay) && (retryDelay <=? hour))
        ErrSourceRetentionNotAvailable;
  unless_failed env
    (let now := rv_Now env in
     _ ← lockRetentionTenantJob claim None (rd_Store rd);
     fenced ← fenced_source claim now rd;
     let mark := fenced.2 in
     mret (insertRetentionAudit claim AuditDeleteRetry now
             (set_mark (rn_SourceInternalID claim)
                (mkMark (sm_MarkedAt mark) (sm_Token mark) now (now + retryDelay) (sm_AttemptCount mark)
                   (Some "OBJECT_DELETE_FAILED")) rd))).

(** The three deletes of [FinalizeSourceRetention]. *)
Definition delete_retained (claim : SourceRetentionClaim) (rd : retention_db) : retention_db :=
  let d := rd_Store rd in
  mkRetentionDb
    (set_sources (delete (rn_SourceInternalID claim))
       (set_jobs (delete (rn_JobInternalID claim))
          (set_attempts (filter (λ p : (Z * Z) * attempt_row,
             ¬ (p.1.1 = rn_JobInternalID claim ∧ at_Tenant p.2 = rn_TenantInternalID claim))) d)))
    (delete (rn_SourceInternalID claim) (rd_Marks rd)) (rd_Audit rd).

Definition FinalizeSourceRetention (env : retention_env) (claim : SourceRetentionClaim) (rd : retention_db) :
    result retention_error retention_db :=
  _ ← guard_err (validSourceRetentionClaim claim) ErrSourceRetentionNotAvailable;
  unless_failed env
    (let now := rv_Now env in
     _ ← lockRetentionTenantJob claim None (rd_Store rd);
     fenced ← fenced_source claim now rd;
     _ ← guard_err (bool_decide (sr_ObjectKey fenced.1 = rn_ObjectKey claim)) ErrSourceRetentionNotAvailable;
     _ ← guard_err (retentionBlockers claim (rv_StatementNow env) (rd_Store rd) =? 0) ErrSourceRetentionNotAvailable;
     mret (delete_retained claim (insertRetentionAudit claim AuditDeleted now rd))).

(** ** Idempotency records *)

(** One record of the batch: its expiry, its id, and its key when it is one of
    job submission (the records of bundles share the table). *)
Definition expired_record : Type := Z * Z * option (Z * string).

Definition expired_le (a b : expired_record) : Prop :=
  a.1.1 < b.1.1 ∨ (a.1.1 = b.1.1 ∧ a.1.2 ≤ b.1.2).

#[export] Instance expired_le_dec a b : Decision (expired_le a b).
Proof. unfold expired_le. apply _. Defined.

(** [recordID] is the column [id] of a record, [bundleRecords] the other
    expired records no other transaction holds, [locked] the records held. *)
Definition expired_records (recordID : Z * string → Z) (bundleRecords : list (Z * Z)) (locked : gset (Z * string))
    (now : Z) (d : db) : list expired_record :=
  ((λ p : (Z * string) * idempotency_row, (ik_ExpiresAt p.2, recordID p.1, Some p.1)) <$>
     map_to_list (filter (λ p : (Z * string) * idempotency_row, ik_ExpiresAt p.2 ≤ now ∧ p.1 ∉ locked) (idempotency d))) ++
  ((λ b, (b, None)) <$> bundleRecords).

Definition ExpireIdempotencyBatch (recordID : Z * string → Z) (bundleRecords : list (Z * Z)) (locked : gset (Z * string))
    (now : Z) (failure : option (option Z)) (batch : Z) (d : db) : result retention_error (Z * db) :=
  _ ← guard_err ((1 <=? batch) && (batch <=? 1000)) ErrIdempotencyRetentionNotAvailable;
  match failure with
  | Some number => Err (ErrRetentionUnavailable number)
  | None =>
      let ids := take (Z.to_nat batch)
                   (merge_sort expired_le (expired_records recordID bundleRecords locked now d)) in
      if (length ids =? 0)%nat then Err ErrIdempotencyRetentionNotAvailable
      else
        let keys := omap snd ids in
        Ok (Z.of_nat (length ids), set_idempotency (filter (λ p : (Z * string) * idempotency_row, p.1 ∉ keys)) d)
  end.
