(* ===== verification/RetentionWorker.v ===== *)
(** * The retention workers

    [internal/external/source_retention_worker.go] and
    [idempotency_retention_worker.go]: configuration, one deletion, the loops,
    written against the interface of their repository; the MySQL repository of
    [SourceRetention] as its instance; and the system of retention workers
    running beside submissions, judging and deliveries. *)
From stdpp Require Import prelude gmap strings sorting.
From S2P Require Import Prelude.
From S2P Require Import GoText.
From S2P Require Import JobState.
From S2P Require Import Manifest.
From S2P Require Import Store.
From S2P Require Import JobWorker.
From S2P Require Import JobRepository.
From S2P Require Import StoreInvariant.
From S2P Require Import StoreReach.
From S2P Require Import Submission.
From S2P Require Import SourceRetention.

Open Scope Z_scope.

(** ** Configuration *)
Record SourceRetentionWorkerConfig : Type := mkRetentionConfig {
  sc_Retention : Z;
  sc_IdleDelay : Z;
  sc_DeleteTimeout : Z;
  sc_ClaimLease : Z;
  sc_RetryDelay : Z
}.

(** [NewSourceRetentionWorker] with its collaborators present: the checked
    configuration is the worker. *)
Definition NewSourceRetentionWorker (config : SourceRetentionWorkerConfig) : option SourceRetentionWorkerConfig :=
  let c := mkRetentionConfig (or_default (sc_Retention config) (30 * 24 * hour))
             (or_default (sc_IdleDelay config) minute) (or_default (sc_DeleteTimeout config) (30 * second))
             (or_default (sc_ClaimLease config) (2 * minute)) (or_default (sc_RetryDelay config) minute) in
  if (sc_Retention c <? hour) || (365 * 24 * hour <? sc_Retention c) ||
     (sc_IdleDelay c <=? 0) || (hour <? sc_IdleDelay c) ||
     (sc_DeleteTimeout c <=? 0) || (minute <? sc_DeleteTimeout c) ||
     (sc_ClaimLease c <=? sc_DeleteTimeout c) || (15 * minute <? sc_ClaimLease c) ||
     (sc_RetryDelay c <=? 0) || (hour <? sc_RetryDelay c)
  then None else Some c.

(** ** The repository interface *)
Class SourceRetentionRepository (S : Type) : Type := {
  repo_ClaimSourceRetention : Z → Z → S → result retention_error SourceRetentionClaim * S;
  repo_RecordSourceRetentionFailure : SourceRetentionClaim → Z → S → option retention_error * S;
  repo_FinalizeSourceRetention : SourceRetentionClaim → S → option retention_error * S
}.

(** What [ProcessNext] returns: an error of the repository, or a failed deletion
    joined with the error of recording it, if any. *)
Inductive retention_failure : Type :=
| RetentionRepositoryError (e : retention_error)
| ErrSourceRetentionDeleteFailed (joined : option retention_error).

#[export] Instance retention_failure_eq_dec : EqDecision retention_failure.
Proof. solve_decision. Defined.

(** Errors [Run] waits out. *)
Definition retention_retryable (e : retention_failure) : bool :=
  match e with
  | ErrSourceRetentionDeleteFailed _ => true
  | RetentionRepositoryError e => bool_decide (e = ErrSourceRetentionNotAvailable) || IsTransientRetentionError e
  end.

Section Worker.
Context {S : Type} `{SourceRetentionRepository S}.

(** [delete] is the call of the object store: whether it succeeded. *)
Definition retention_ProcessNext (worker : SourceRetentionWorkerConfig) (delete : string → objects → bool * objects)
    (s : S) (o : objects) : option retention_failure * S * objects :=
  match repo_ClaimSourceRetention (sc_Retention worker) (sc_ClaimLease worker) s with
  | (Err e, s) => (Some (RetentionRepositoryError e), s, o)
  | (Ok claim, s) =>
      match delete (rn_ObjectKey claim) o with
      | (false, o) =>
          match repo_RecordSourceRetentionFailure claim (sc_RetryDelay worker) s with
          | (None, s) => (Some (ErrSourceRetentionDeleteFailed None), s, o)
          | (Some e, s) =>
              if negb (bool_decide (e = ErrSourceRetentionNotAvailable)) && negb (IsTransientRetentionError e)
              then (Some (RetentionRepositoryError e), s, o)
              else (Some (ErrSourceRetentionDeleteFailed (Some e)), s, o)
          end
      | (true, o) =>
          let '(e, s) := repo_FinalizeSourceRetention claim s in (RetentionRepositoryError <$> e, s, o)
      end
  end.

(** Why a loop ended: its context did, or an error it does not wait out. *)
Inductive retention_exit : Type :=
| RetentionCancelled
| RetentionFailed (e : retention_failure).

(** [Run], one turn per element: the object store's behaviour in the turn, and
    whether the context ends during the wait that may close it. *)
Fixpoint retention_Run (worker : SourceRetentionWorkerConfig) (turns : list ((string → objects → bool * objects) * bool))
    (s : S) (o : objects) : option retention_exit * S * objects :=
  match turns with
  | [] => (None, s, o)
  | (delete, cancelled) :: turns =>
      match retention_ProcessNext worker delete s o with
      | (None, s, o) => retention_Run worker turns s o
      | (Some e, s, o) =>
          if negb (retention_retryable e) then (Some (RetentionFailed e), s, o)
          else if (cancelled : bool) then (Some RetentionCancelled, s, o)
          else retention_Run worker turns s o
      end
  end.
End Worker.

(** [NewIdempotencyRetentionWorker]. *)
Definition NewIdempotencyRetentionWorker (batch idleDelay : Z) : bool :=
  negb ((batch <? 1) || (1000 <? batch) || (idleDelay <=? 0) || (hour <? idleDelay)).

(** [Run] of the idempotency worker, one batch per element, with whether the
    context ends in the wait after it. *)
Fixpoint idempotency_Run {S : Type} (expire : Z → S → result retention_error Z * S) (batch : Z) (turns : list bool) (s : S) :
    option retention_exit * S :=
  match turns with
  | [] => (None, s)
  | cancelled :: turns =>
      let wait s := if (cancelled : bool) then (Some RetentionCancelled, s) else idempotency_Run expire batch turns s in
      match expire batch s with
      | (Err e, s) =>
          if negb (bool_decide (e = ErrIdempotencyRetentionNotAvailable)) && negb (IsTransientRetentionError e)
          then (Some (RetentionFailed (RetentionRepositoryError e)), s) else wait s
      | (Ok count, s) => if count =? batch then idempotency_Run expire batch turns s else wait s
      end
  end.

(** ** The MySQL repository *)

(** The environment of one call: what others commit before it, the query of the
    candidates, the transactions of their claims, and the transaction of a
    settlement. *)
Record retention_moment : Type := mkRetentionMoment {
  rm_Others : retention_db → retention_db;
  rm_QueryNow : Z;
  rm_QueryFailure : option (option Z);
  rm_Envs : nat → retention_env;
  rm_RoundOthers : nat → retention_db → retention_db
}.

Record mysql_retention : Type := mkMysqlRetention {
  mr_DB : retention_db;
  mr_Moments : nat → retention_moment
}.

Definition mysql_ClaimSourceRetention (retention leaseDuration : Z) (s : mysql_retention) :
    result retention_error SourceRetentionClaim * mysql_retention :=
  let moment := mr_Moments s O in
  let '(r, rd) := ClaimSourceRetention retention leaseDuration (rm_QueryNow moment) (rm_QueryFailure moment)
                    (rm_Envs moment) (rm_RoundOthers moment) (rm_Others moment (mr_DB s)) in
  (r, mkMysqlRetention rd (λ i, mr_Moments s (S i))).

(** A settlement on what the others left; its error rolls it back. *)
Definition mysql_retention_call (f : retention_env → retention_db → result retention_error retention_db)
    (s : mysql_retention) : option retention_error * mysql_retention :=
  let moment := mr_Moments s O in
  let rd := rm_Others moment (mr_DB s) in
  match f (rm_Envs moment O) rd with
  | Ok rd => (None, mkMysqlRetention rd (λ i, mr_Moments s (S i)))
  | Err e => (Some e, mkMysqlRetention rd (λ i, mr_Moments s (S i)))
  end.

#[export] Instance mysql_source_retention : SourceRetentionRepository mysql_retention := {|
  repo_ClaimSourceRetention := mysql_ClaimSourceRetention;
  repo_RecordSourceRetentionFailure claim retryDelay :=
    mysql_retention_call (λ env, RecordSourceRetentionFailure env claim retryDelay);
  repo_FinalizeSourceRetention claim := mysql_retention_call (λ env, FinalizeSourceRetention env claim)
|}.

(** ** Retention workers beside the rest of the system *)

(** Where a worker is in [ProcessNext]. *)
Inductive retention_phase : Type :=
| RetentionIdle
| RetentionDelete (claim : SourceRetentionClaim)
| RetentionRecord (claim : SourceRetentionClaim)
| RetentionFinalize (claim : SourceRetentionClaim).

Definition phase_claim (p : retention_phase) : option SourceRetentionClaim :=
  match p with
  | RetentionIdle => None
  | RetentionDelete c | RetentionRecord c | RetentionFinalize c => Some c
  end.

(** The system: the clock of the database, its tables, the object keys deleted
    by retention, the workers; and, for the statements about it, the object keys
    ever claimed, what finalized deletions removed of the attempts' consumption,
    and the jobs whose event was deleted from the outbox. *)
Record retention_system : Type := mkRetentionSystem {
  ry_Now : Z;
  ry_Data : retention_db;
  ry_Deleted : gset string;
  ry_Workers : gmap nat retention_phase;
  ry_Claimed : gset string;
  ry_Archived : Z * Z → Z;
  ry_Swept : gset Z
}.

Definition ry_DB (y : retention_system) : db := rd_Store (ry_Data y).

Definition with_store (d : db) (y : retention_system) : retention_system :=
  mkRetentionSystem (ry_Now y) (mkRetentionDb d (rd_Marks (ry_Data y)) (rd_Audit (ry_Data y))) (ry_Deleted y)
    (ry_Workers y) (ry_Claimed y) (ry_Archived y) (ry_Swept y).

(** The attempts of a job. *)
Definition attempts_of (j : Z) (d : db) : gmap (Z * Z) attempt_row :=
  filter (λ p : (Z * Z) * attempt_row, p.1.1 = j) (attempts d).

(** A transaction of a worker reads clocks that its commit has passed. *)
Definition env_before (env : retention_env) (now : Z) : Prop := rv_Now env ≤ now ∧ rv_StatementNow env ≤ now.

(** One statement of one worker, with the keys it claims and what it archives. *)
Inductive retention_step (worker : SourceRetentionWorkerConfig) (y : retention_system) :
    retention_phase → retention_phase → retention_system → Prop :=
| retention_claim env candidate claim rd :
    env_before env (ry_Now y) →
    claimSourceRetentionCandidate (sc_Retention worker) (sc_ClaimLease worker) env candidate (ry_Data y) = Ok (claim, rd) →
    (∀ s m, rd_Marks (ry_Data y) !! s = Some m → sm_Token m ≠ rn_DeleteToken claim) →
    (∀ k p c, ry_Workers y !! k = Some p → phase_claim p = Some c → rn_DeleteToken c ≠ rn_DeleteToken claim) →
    retention_step worker y RetentionIdle (RetentionDelete claim)
      (mkRetentionSystem (ry_Now y) rd (ry_Deleted y) (ry_Workers y) ({[rn_ObjectKey claim]} ∪ ry_Claimed y)
         (ry_Archived y) (ry_Swept y))
| retention_deleted claim :
    retention_step worker y (RetentionDelete claim) (RetentionFinalize claim)
      (mkRetentionSystem (ry_Now y) (ry_Data y) ({[rn_ObjectKey claim]} ∪ ry_Deleted y) (ry_Workers y) (ry_Claimed y)
         (ry_Archived y) (ry_Swept y))
| retention_delete_failed claim deleted :
    deleted = ry_Deleted y ∨ deleted = {[rn_ObjectKey claim]} ∪ ry_Deleted y →
    retention_step worker y (RetentionDelete claim) (RetentionRecord claim)
      (mkRetentionSystem (ry_Now y) (ry_Data y) deleted (ry_Workers y) (ry_Claimed y) (ry_Archived y) (ry_Swept y))
| retention_recorded env claim rd :
    env_before env (ry_Now y) →
    RecordSourceRetentionFailure env claim (sc_RetryDelay worker) (ry_Data y) = Ok rd →
    retention_step worker y (RetentionRecord claim) RetentionIdle
      (mkRetentionSystem (ry_Now y) rd (ry_Deleted y) (ry_Workers y) (ry_Claimed y) (ry_Archived y) (ry_Swept y))
| retention_finalized env claim rd :
    env_before env (ry_Now y) →
    FinalizeSourceRetention env claim (ry_Data y) = Ok rd →
    retention_step worker y (RetentionFinalize claim) RetentionIdle
      (mkRetentionSystem (ry_Now y) rd (ry_Deleted y) (ry_Workers y) (ry_Claimed y)
         (λ k, ry_Archived y k + att_sum at_Consumed k (attempts_of (rn_JobInternalID claim) (ry_DB y))) (ry_Swept y))
| retention_abandoned p :
    retention_step worker y p RetentionIdle y.

Definition with_worker (k : nat) (p : retention_phase) (y : retention_system) : retention_system :=
  mkRetentionSystem (ry_Now y) (ry_Data y) (ry_Deleted y) (<[k := p]> (ry_Workers y)) (ry_Claimed y) (ry_Archived y) (ry_Swept y).

(** What the webhook worker leaves of the outbox: rows of the same jobs. *)
Definition outbox_kept (o o' : gmap Z outbox_row) : Prop :=
  ∀ j row', o' !! j = Some row' → ∃ row, o !! j = Some row ∧ ob_Tenant row' = ob_Tenant row ∧ ob_Callback row' = ob_Callback row.

Section System.
Context (json_policy : string → option TenantPolicy) (json_manifest : string → option Manifest)
        (json_payload : terminalWebhookPayload → string) (sql_policy_int : string → string → option Z).
Context (window : Z) (worker : SourceRetentionWorkerConfig).

(** A new submission draws a source key that no claim ever named. *)
Inductive rsys_step (y : retention_system) : retention_system → Prop :=
| rsys_tick now : ry_Now y ≤ now →
    rsys_step y (mkRetentionSystem now (ry_Data y) (ry_Deleted y) (ry_Workers y) (ry_Claimed y) (ry_Archived y) (ry_Swept y))
| rsys_submit s sourceID jobID lockNow ttl outcome d :
    SubmitTx json_policy s sourceID jobID lockNow (ry_Now y) ttl (ry_DB y) = Ok (outcome, d) →
    rc_ObjectKey (su_Source s) ∉ ry_Claimed y →
    rsys_step y (with_store d y)
| rsys_job d : job_step json_policy json_manifest json_payload sql_policy_int window (ry_DB y) d →
    rsys_step y (with_store d y)
| rsys_delivery o : outbox_kept (outbox (ry_DB y)) o →
    rsys_step y (mkRetentionSystem (ry_Now y)
      (mkRetentionDb (set_outbox (λ _, o) (ry_DB y)) (rd_Marks (ry_Data y)) (rd_Audit (ry_Data y))) (ry_Deleted y)
      (ry_Workers y) (ry_Claimed y) (ry_Archived y) (ry_Swept y ∪ (dom (outbox (ry_DB y)) ∖ dom o)))
| rsys_expire recordID bundleRecords locked failure batch n d :
    ExpireIdempotencyBatch recordID bundleRecords locked (ry_Now y) failure batch (ry_DB y) = Ok (n, d) →
    rsys_step y (with_store d y)
| rsys_worker k p p' y' : ry_Workers y !! k = Some p → retention_step worker y p p' y' →
    rsys_step y (with_worker k p' y')
| rsys_start k : ry_Workers y !! k = None → rsys_step y (with_worker k RetentionIdle y).
End System.

Definition initial_retention (now : Z) (d : db) : retention_system :=
  mkRetentionSystem now (mkRetentionDb d ∅ []) ∅ ∅ ∅ (λ _, 0) ∅.
