(* ===== verification/RetentionSafety.v ===== *)
(** * What retention may delete

    Over every interleaving of retention workers with submissions, judging and
    deliveries: the invariant of the job store and its ledger, which jobs lose
    their source and their rows, and what becomes of idempotency keys. *)
From stdpp Require Import prelude gmap strings sorting.
From S2P Require Import Prelude.
From S2P Require Import GoText.
From S2P Require Import JobState.
From S2P Require Import Manifest.
From S2P Require Import Store.
From S2P Require Import JobWorker.
From S2P Require Import JobRepository.
From S2P Require Import StoreInvariant.
From S2P Require Import StoreSteps.
From S2P Require Import StoreClaim.
From S2P Require Import StoreReach.
From S2P Require Import StoreFrame.
From S2P Require Import StoreProperties.
From S2P Require Import Idempotency.
From S2P Require Import Submission.
From S2P Require Import SourceRetention.
From S2P Require Import RetentionWorker.

Open Scope Z_scope.

(** ** What the transactions of retention do *)
Lemma ret_ok {E A} (a b : A) : (mret a : result E A) = Ok b ↔ a = b.
Proof. unfold mret, result_ret. naive_solver. Qed.

(** Follow a transaction that committed, to its last line. *)
Ltac inv_commit := inv_ok; match goal with H : @mret _ _ _ _ = _ |- _ => apply -> @ret_ok in H; simplify_eq; bool_to_prop end.

Lemma size_filter_zero {K A} `{Countable K} (P : K * A → Prop) `{∀ p, Decision (P p)} (m : gmap K A) :
  Z.of_nat (size (filter P m)) = 0 ↔ ∀ k x, m !! k = Some x → ¬ P (k, x).
Proof.
  split.
  - intros Hz k x Hk HP. assert (E : filter P m = ∅) by (apply map_size_empty_inv; lia).
    assert (Hin : filter P m !! k = Some x) by (by apply map_lookup_filter_Some).
    by rewrite E, lookup_empty in Hin.
  - intros Hno. assert (filter P m = ∅) as ->; [|by rewrite map_size_empty].
    apply map_empty. intros k. apply map_lookup_filter_None. right. intros x Hk. by apply Hno.
Qed.

Lemma blockers_zero claim now d :
  retentionBlockers claim now d = 0 ↔
  outbox d !! rn_JobInternalID claim = None ∧
  (∀ k record, idempotency d !! (rn_TenantInternalID claim, k) = Some record →
     ik_ResourceExternalID record = rn_JobExternalID claim → ik_ExpiresAt record ≤ now) ∧
  (∀ j r, jobs d !! j = Some r → jb_Source r = rn_SourceInternalID claim → j = rn_JobInternalID claim).
Proof.
  unfold retentionBlockers, live_records, other_jobs.
  set (a := size (filter _ (idempotency d))). set (b := size (filter _ (jobs d))).
  assert (Ha : Z.of_nat a = 0 ↔ ∀ k record, idempotency d !! (rn_TenantInternalID claim, k) = Some record →
     ik_ResourceExternalID record = rn_JobExternalID claim → ik_ExpiresAt record ≤ now).
  { unfold a. rewrite size_filter_zero. split.
    - intros H k record Hk He. destruct (Z.le_gt_cases (ik_ExpiresAt record) now); [done|]. by destruct (H _ _ Hk).
    - intros H [t k] record Hk (Ht & He & Hl). simpl in *. subst t. specialize (H _ _ Hk He). lia. }
  assert (Hb : Z.of_nat b = 0 ↔ ∀ j r, jobs d !! j = Some r → jb_Source r = rn_SourceInternalID claim → j = rn_JobInternalID claim).
  { unfold b. rewrite size_filter_zero. split.
    - intros H j r Hj Hs. destruct (decide (j = rn_JobInternalID claim)); [done|]. by destruct (H _ _ Hj).
    - intros H j r Hj [Hs Hne]. by apply Hne, (H j r). }
  rewrite <-Ha, <-Hb. destruct (outbox d !! _); split.
  - intros. lia.
  - intros (? & _). done.
  - intros. split_and!; [done|lia..].
  - intros (_ & ? & ?). lia.
Qed.

(** The job a claim names, as both lock helpers find it. *)
Definition claimed_job (claim : SourceRetentionClaim) (d : db) (job : job_row) : Prop :=
  is_Some (tenants d !! rn_TenantInternalID claim) ∧
  jobs d !! rn_JobInternalID claim = Some job ∧ jb_Tenant job = rn_TenantInternalID claim ∧
  jb_Source job = rn_SourceInternalID claim ∧ jb_ExternalID job = rn_JobExternalID claim ∧
  terminal (jb_Status job) = true ∧ is_Some (jb_CompletedAt job).

Lemma retained_job_true claim before job :
  retained_job claim before job = true →
  terminal (jb_Status job) = true ∧ jb_Source job = rn_SourceInternalID claim ∧
  jb_ExternalID job = rn_JobExternalID claim ∧
  ∃ c, jb_CompletedAt job = Some c ∧ ∀ b, before = Some b → c ≤ b.
Proof.
  unfold retained_job. intros H. bool_to_prop. destruct (jb_CompletedAt job) as [c|]; [|done].
  split_and!; try done. exists c. split; [done|]. intros b ->. bool_to_prop. lia.
Qed.

Lemma lock_for_claim_ok env claim before d u :
  lockRetentionTenantJobForClaim env claim before d = Ok u →
  ∃ job c, claimed_job claim d job ∧ jb_CompletedAt job = Some c ∧ c ≤ before.
Proof.
  unfold lockRetentionTenantJobForClaim. intros H. inv_ok. bool_to_prop. apply is_some_true in H.
  match goal with H : retained_job _ _ _ = true |- _ => apply retained_job_true in H as (? & ? & ? & c & Hc & Hle) end.
  eexists _, c. split; [|split; [done|by apply Hle]]. split_and!; eauto.
Qed.

Lemma lock_tenant_job_ok claim d u :
  lockRetentionTenantJob claim None d = Ok u → ∃ job, claimed_job claim d job.
Proof.
  unfold lockRetentionTenantJob. intros H. inv_ok. bool_to_prop. apply is_some_true in H.
  match goal with H : retained_job _ _ _ = true |- _ => apply retained_job_true in H as (? & ? & ? & c & Hc & _) end.
  eexists. split_and!; eauto.
Qed.

Lemma unless_failed_ok {A} env (r : result retention_error A) a : unless_failed env r = Ok a → rv_Failure env = None ∧ r = Ok a.
Proof. unfold unless_failed. by destruct (rv_Failure env). Qed.

Lemma claim_candidate_ok retention lease env candidate rd claim rd' :
  claimSourceRetentionCandidate retention lease env candidate rd = Ok (claim, rd') →
  ∃ job c source count,
    claimed_job claim (rd_Store rd) job ∧ jb_CompletedAt job = Some c ∧ c ≤ rv_Now env - retention ∧
    sources (rd_Store rd) !! rn_SourceInternalID claim = Some source ∧ sr_Tenant source = rn_TenantInternalID claim ∧
    sr_ObjectKey source = rn_ObjectKey claim ∧ sr_ExternalID source = rn_SourceExternalID claim ∧
    deletion_due (rv_Now env) (rd_Marks rd !! rn_SourceInternalID claim) = true ∧
    retentionBlockers claim (rv_StatementNow env) (rd_Store rd) = 0 ∧
    rv_Token env = Some (rn_DeleteToken claim) ∧
    rd_Store rd' = rd_Store rd ∧
    rd_Marks rd' = <[rn_SourceInternalID claim :=
      mkMark (default (rv_Now env) (sm_MarkedAt <$> rd_Marks rd !! rn_SourceInternalID claim)) (rn_DeleteToken claim)
        (rv_Now env + lease) (rv_Now env) count None]> (rd_Marks rd).
Proof.
  unfold claimSourceRetentionCandidate. intros [_ H]%unless_failed_ok. cbv zeta in H. inv_commit.
  match goal with Hl : lockRetentionTenantJobForClaim _ _ _ _ = _ |- _ =>
    apply lock_for_claim_ok in Hl as (job & c & Hjob & Hc & Hle) end. bool_to_prop.
  eexists job, c, _, (default 0 (sm_AttemptCount <$> rd_Marks rd !! rn_SourceInternalID candidate) + 1). simpl.
  split_and!; try done.
  - by destruct (rd_Marks rd !! _).
  - by destruct (rd_Marks rd !! _).
Qed.

Lemma fenced_source_ok claim now rd source mark :
  fenced_source claim now rd = Ok (source, mark) ↔
  sources (rd_Store rd) !! rn_SourceInternalID claim = Some source ∧ sr_Tenant source = rn_TenantInternalID claim ∧
  rd_Marks rd !! rn_SourceInternalID claim = Some mark ∧ sm_Token mark = rn_DeleteToken claim ∧ now < sm_LeaseUntil mark.
Proof.
  unfold fenced_source, owns_deletion. split.
  - intros H. inv_commit. done.
  - intros (-> & <- & -> & Ht & Hl). simpl. by rewrite Z.eqb_refl, bool_decide_eq_true_2, (proj2 (Z.ltb_lt _ _)).
Qed.

Lemma record_failure_ok env claim delay rd rd' :
  RecordSourceRetentionFailure env claim delay rd = Ok rd' →
  ∃ mark, rd_Marks rd !! rn_SourceInternalID claim = Some mark ∧ sm_Token mark = rn_DeleteToken claim ∧
    rv_Now env < sm_LeaseUntil mark ∧ rd_Store rd' = rd_Store rd ∧
    rd_Marks rd' = <[rn_SourceInternalID claim :=
      mkMark (sm_MarkedAt mark) (rn_DeleteToken claim) (rv_Now env) (rv_Now env + delay) (sm_AttemptCount mark)
        (Some "OBJECT_DELETE_FAILED")]> (rd_Marks rd).
Proof.
  unfold RecordSourceRetentionFailure. intros (? & _ & [_ H]%unless_failed_ok)%bind_ok. cbv zeta in H. inv_commit.
  match goal with Hf : fenced_source _ _ _ = Ok ?x |- _ => destruct x as [source mark];
    apply fenced_source_ok in Hf as (_ & _ & Hm & Ht & Hl) end.
  exists mark. simpl. rewrite Ht. done.
Qed.

Lemma finalize_ok env claim rd rd' :
  FinalizeSourceRetention env claim rd = Ok rd' →
  ∃ job source mark,
    claimed_job claim (rd_Store rd) job ∧
    sources (rd_Store rd) !! rn_SourceInternalID claim = Some source ∧ sr_ObjectKey source = rn_ObjectKey claim ∧
    rd_Marks rd !! rn_SourceInternalID claim = Some mark ∧ sm_Token mark = rn_DeleteToken claim ∧
    rv_Now env < sm_LeaseUntil mark ∧
    retentionBlockers claim (rv_StatementNow env) (rd_Store rd) = 0 ∧
    rd' = delete_retained claim (insertRetentionAudit claim AuditDeleted (rv_Now env) rd).
Proof.
  unfold FinalizeSourceRetention. intros (? & _ & [_ H]%unless_failed_ok)%bind_ok. cbv zeta in H. inv_commit.
  match goal with Hf : fenced_source _ _ _ = Ok ?x |- _ => destruct x as [source mark];
    apply fenced_source_ok in Hf as (Hs & _ & Hm & Ht & Hl) end.
  match goal with Hl : lockRetentionTenantJob _ _ _ = _ |- _ => apply lock_tenant_job_ok in Hl as (job & Hjob) end.
  bool_to_prop. eexists job, source, mark. split_and!; done.
Qed.

(** ** The invariant of the store under retention *)
Lemma map_sumZ_split {K A} `{Countable K} (f : A → Z) (P : K * A → Prop) `{∀ p, Decision (P p)} (m : gmap K A) :
  map_sumZ f m = map_sumZ f (filter P m) + map_sumZ f (filter (λ p, ¬ P p) m).
Proof.
  induction m as [|i x m Hi IH] using map_ind; [by rewrite !map_filter_empty|].
  rewrite map_sumZ_insert_new by done. destruct (decide (P (i, x))) as [HP|HP].
  - rewrite (map_filter_insert_True P), (map_filter_insert_False (λ p, ¬ P p)), delete_id by (done || naive_solver).
    rewrite map_sumZ_insert_new; [lia|]. apply map_lookup_filter_None. by left.
  - rewrite (map_filter_insert_True (λ p, ¬ P p)), (map_filter_insert_False P), delete_id by (done || naive_solver).
    rewrite (map_sumZ_insert_new _ (filter (λ p, ¬ P p) m)); [lia|]. apply map_lookup_filter_None. by left.
Qed.

(** T7: a terminal job without an event leaves the tables with its attempts. *)
Lemma tables_retire (R R' : Retired) J A D O j r :
  tables_ok (R:=R) None None none_pending J A D O → J !! j = Some r → terminal (jb_Status r) = true → O !! j = None →
  (∀ k, @archived R' k = @archived R k + att_sum at_Consumed k (filter (λ p : (Z * Z) * attempt_row, p.1.1 = j) A)) →
  (∀ i, @swept R i → @swept R' i) →
  tables_ok (R:=R') None None none_pending (delete j J) (filter (λ p : (Z * Z) * attempt_row, ¬ p.1.1 = j) A) D O.
Proof.
  intros [Hj Hat Hru _ Hl Ho Hev] Hr Ht Hnone Har Hsw. split; [| | |done| | |].
  - intros j' r' [_ ?]%lookup_delete_Some. by eapply Hj.
  - intros j' n a [Ha Hne]%map_lookup_filter_Some. simpl in Hne. destruct (Hat _ _ _ Ha) as [(r0 & Hr0 & ?) Hamt].
    split; [|done]. exists r0. rewrite lookup_delete_ne; [done|congruence].
  - intros j' r' [Hne Hr']%lookup_delete_Some Hst Hex. destruct (Hru _ _ Hr' Hst Hex) as (a & Ha & ?).
    exists a. split; [|done]. apply map_lookup_filter_Some. split; [done|]. simpl. congruence.
  - intros k. destruct (Hl k) as [H1 H2]. unfold att_sum in *.
    rewrite (map_sumZ_split (att_share at_Reserved k) (λ p : (Z * Z) * attempt_row, p.1.1 = j)) in H1.
    rewrite (map_sumZ_split (att_share at_Consumed k) (λ p : (Z * Z) * attempt_row, p.1.1 = j)) in H2.
    assert (Hz : map_sumZ (att_share at_Reserved k) (filter (λ p : (Z * Z) * attempt_row, p.1.1 = j) A) = 0).
    { unfold map_sumZ. transitivity (sumZ (λ _ : (Z * Z) * attempt_row, 0)
        (map_to_list (filter (λ p : (Z * Z) * attempt_row, p.1.1 = j) A))).
      - apply sumZ_ext, Forall_forall. intros [[j' n] a] [Ha E]%elem_of_map_to_list%map_lookup_filter_Some.
        simpl in E. subst j'. destruct (Hat _ _ _ Ha) as [(r0 & Hr0 & _ & _ & Hrun) [_ Hamt]]. unfold att_share. simpl.
        destruct (decide (at_Status a = AttemptRunning)) as [Hs|Hs].
        + destruct (Hrun Hs) as (E & _). rewrite Hr in Hr0. injection Hr0 as <-. by rewrite E in Ht.
        + case_decide; [tauto|done].
      - induction (map_to_list _); simpl; lia. }
    split; [lia|]. rewrite Har. unfold att_sum. lia.
  - intros j' row Hrow. destruct (Ho _ _ Hrow) as (r0 & Hr0 & ?). exists r0.
    rewrite lookup_delete_ne; [done|congruence].
  - intros j' r' [Hne Hr']%lookup_delete_Some Ht' Hc Hv Hns. apply (Hev j' r'); auto.
Qed.

(** T8: deliveries update and delete events. *)
Lemma tables_delivery (R R' : Retired) J A D O O' :
  tables_ok (R:=R) None None none_pending J A D O → outbox_kept O O' →
  (∀ k, @archived R' k = @archived R k) → (∀ i, @swept R i → @swept R' i) →
  (∀ j, is_Some (O !! j) → O' !! j = None → @swept R' j) →
  tables_ok (R:=R') None None none_pending J A D O'.
Proof.
  intros [Hj Hat Hru _ Hl Ho Hev] Hk Har Hsw Hgone. split; try done.
  - intros k. rewrite Har. apply Hl.
  - intros j row' (row & Hrow & Ht & Hc)%Hk. destruct (Ho _ _ Hrow) as (r & ? & ? & ? & ?).
    exists r. split_and!; congruence.
  - intros j r Hr Ht Hc Hv Hns. destruct (O' !! j) eqn:E; [done|]. exfalso. apply Hns, Hgone; [|done].
    apply (Hev j r); auto.
Qed.

(** The invariant does not depend on how [Retired] is given. *)
Lemma tables_retired_ext (R R' : Retired) J A D O :
  (∀ k, @archived R' k = @archived R k) → (∀ i, @swept R i ↔ @swept R' i) →
  tables_ok (R:=R) None None none_pending J A D O → tables_ok (R:=R') None None none_pending J A D O.
Proof.
  intros Har Hsw H. apply (tables_delivery R R' _ _ _ _ _ H); [by intros j row ?; exists row|done|by intros; apply Hsw|].
  intros j [? ?] ?. congruence.
Qed.

(** ** Sources, their marks and their jobs *)
Definition retired_job (retention now : Z) (r : job_row) : Prop :=
  terminal (jb_Status r) = true ∧ ∃ c, jb_CompletedAt r = Some c ∧ c ≤ now - retention.

Lemma retired_job_later retention now now' r : now ≤ now' → retired_job retention now r → retired_job retention now' r.
Proof. intros Hle [Ht (c & Hc & Hl)]. split; [done|]. exists c. split; [done|lia]. Qed.

Lemma retired_job_sim retention now r r' : job_sim r r' → retired_job retention now r → retired_job retention now r'.
Proof. intros Hs%job_sim_fields [Ht Hc]. destruct_and!. unfold retired_job. by repeat (match goal with H : _ r' = _ r |- _ => rewrite H; clear H end). Qed.

Lemma retired_job_change retention now r r' : row_change r r' → retired_job retention now r → retired_job retention now r'.
Proof. intros Hc Hr. by rewrite (terminal_change _ _ (proj1 Hr) Hc). Qed.

(** Every job has its source; object keys are unique; the sources whose key was
    claimed are the marked ones, and all their jobs finished long ago. *)
Record rows_ok (retention now : Z) (d : db) (marks : gmap Z source_mark) (claimed : gset string) : Prop := {
  rw_sources : ∀ j r, jobs d !! j = Some r → is_Some (sources d !! jb_Source r);
  rw_keys : ∀ s1 s2 row1 row2, sources d !! s1 = Some row1 → sources d !! s2 = Some row2 →
    sr_ObjectKey row1 = sr_ObjectKey row2 → s1 = s2;
  rw_marks : ∀ s, is_Some (marks !! s) → is_Some (sources d !! s) ∧
    ∀ j r, jobs d !! j = Some r → jb_Source r = s → retired_job retention now r;
  rw_claimed : ∀ s row, sources d !! s = Some row → (sr_ObjectKey row ∈ claimed ↔ is_Some (marks !! s))
}.

Section Rows.
Context (json_policy : string → option TenantPolicy) (json_manifest : string → option Manifest)
        (json_payload : terminalWebhookPayload → string) (sql_policy_int : string → string → option Z).
Context (window retention : Z).

Lemma rows_later now now' d marks claimed : now ≤ now' → rows_ok retention now d marks claimed → rows_ok retention now' d marks claimed.
Proof.
  intros Hle [H1 H2 H3 H4]. split; try done. intros s Hs. destruct (H3 s Hs) as [? Hj]. split; [done|].
  intros j r Hr E. eapply retired_job_later; eauto.
Qed.

Lemma rows_same now d d' marks claimed :
  jobs d' = jobs d → sources d' = sources d → rows_ok retention now d marks claimed → rows_ok retention now d' marks claimed.
Proof. intros Ej Es [H1 H2 H3 H4]. split; rewrite ?Ej, ?Es; done. Qed.

Lemma rows_submit s sourceID jobID lockNow now ttl d outcome d' marks claimed :
  rows_ok retention now d marks claimed → SubmitTx json_policy s sourceID jobID lockNow now ttl d = Ok (outcome, d') →
  rc_ObjectKey (su_Source s) ∉ claimed → rows_ok retention now d' marks claimed.
Proof.
  intros [H1 H2 H3 H4] Hs Hfresh. apply SubmitTx_effect in Hs as (t & policy & _ & H). destruct outcome as [job|job].
  2: { by destruct H as [-> _]. }
  destruct H as (_ & Hns & Hnj & _ & _ & _ & Hsrc & (b & c & Hj) & _ & _ & Hkey). split.
  - intros j r. rewrite Hj, Hsrc. intros [[<- <-]|[_ Hr]]%lookup_insert_Some; simpl.
    + by rewrite lookup_insert_eq.
    + apply lookup_insert_is_Some'. right. by eapply H1.
  - intros s1 s2 row1 row2. rewrite Hsrc.
    intros [[<- <-]|[_ E1]]%lookup_insert_Some [[<- <-]|[_ E2]]%lookup_insert_Some E; simpl in *; try done.
    + by destruct (Hkey _ _ E2).
    + by destruct (Hkey _ _ E1).
    + by eapply H2.
  - intros s' Hs. destruct (H3 s' Hs) as [Hin Hret]. split; [rewrite Hsrc; apply lookup_insert_is_Some'; by right|].
    intros j r. rewrite Hj. intros [[<- <-]|[_ Hr]]%lookup_insert_Some E; simpl in *; [|by eapply Hret].
    subst. rewrite Hns in Hin. by destruct Hin.
  - intros s' row. rewrite Hsrc. intros [[<- <-]|[_ E]]%lookup_insert_Some; [|by apply H4]. simpl.
    split; [done|]. intros Hm. destruct (H3 _ Hm) as [[? ?] _]. congruence.
Qed.

Lemma job_step_rows `{R : Retired} now d d' marks claimed :
  store_ok d → unique_ids d → rows_ok retention now d marks claimed →
  job_step json_policy json_manifest json_payload sql_policy_int window d d' → rows_ok retention now d' marks claimed.
Proof.
  intros Hok Hu [H1 H2 H3 H4] Hstep. pose proof (job_step_frame _ _ _ _ _ _ _ Hstep) as Hf.
  apply job_step_ok in Hstep as (_ & Hk & _ & Hev); [|done..]. unfold job_frame in Hf. injection Hf as _ Es _ _ _.
  assert (Hold : ∀ j r', jobs d' !! j = Some r' → ∃ r, jobs d !! j = Some r ∧ jb_Source r' = jb_Source r ∧
    (retired_job retention now r → retired_job retention now r')).
  { intros j r' Hr'. specialize (Hk j). rewrite Hr' in Hk. destruct (jobs d !! j) as [r|] eqn:Hr; [|done].
    destruct (Hev j r Hr) as (r1 & r2 & Hr2 & Hc & Hs). rewrite Hr' in Hr2. injection Hr2 as <-. exists r.
    split_and!; [done| |].
    - pose proof (row_change_same _ _ Hc) as (_ & _ & _ & E1). pose proof (job_sim_same _ _ Hs) as (_ & _ & _ & E2). congruence.
    - intros. by eapply retired_job_sim, retired_job_change. }
  split; rewrite ?Es; [|done| |done].
  - intros j r' (r & Hr & -> & _)%Hold. by eapply H1.
  - intros s Hs. destruct (H3 s Hs) as [? Hret]. split; [done|].
    intros j r' (r & Hr & -> & Himp)%Hold E. eapply Himp, Hret; eauto.
Qed.

Lemma rows_claim lease env candidate rd claim rd' claimed now :
  rows_ok retention now (rd_Store rd) (rd_Marks rd) claimed → rv_Now env ≤ now →
  claimSourceRetentionCandidate retention lease env candidate rd = Ok (claim, rd') →
  rows_ok retention now (rd_Store rd') (rd_Marks rd') ({[rn_ObjectKey claim]} ∪ claimed).
Proof.
  intros [H1 H2 H3 H4] Hnow H. apply claim_candidate_ok in H as (job & c & source & count & Hjob & Hc & Hle & Hs & _ & Hkey & _ & _ &
    Hbl & _ & Est & Em). destruct Hjob as (_ & Hj & _ & Hsrc & _ & Ht & _).
  apply blockers_zero in Hbl as (_ & _ & Honly). rewrite Est. split; [done|done| |].
  - intros s Hm. destruct (decide (s = rn_SourceInternalID claim)) as [->|Hne].
    + split; [by eexists|]. intros j r Hr E. assert (j = rn_JobInternalID claim) as -> by by eapply Honly.
      rewrite Hj in Hr. injection Hr as <-. split; [done|]. exists c. split; [done|lia].
    + apply H3. by rewrite Em, lookup_insert_ne in Hm.
  - intros s row Hrow. rewrite elem_of_union, elem_of_singleton, (H4 s row Hrow), Em.
    destruct (decide (s = rn_SourceInternalID claim)) as [->|Hne].
    + rewrite lookup_insert_eq. split; [done|]. left. congruence.
    + rewrite lookup_insert_ne by done. split; [|by right]. intros [E|?]; [|done]. destruct Hne. eapply H2; eauto. congruence.
Qed.

Lemma rows_record env claim delay rd rd' claimed now :
  rows_ok retention now (rd_Store rd) (rd_Marks rd) claimed →
  RecordSourceRetentionFailure env claim delay rd = Ok rd' →
  rows_ok retention now (rd_Store rd') (rd_Marks rd') claimed.
Proof.
  intros [H1 H2 H3 H4] H. apply record_failure_ok in H as (mark & Hm & _ & _ & -> & ->).
  assert (Hdom : ∀ s m, is_Some (<[rn_SourceInternalID claim := m]> (rd_Marks rd) !! s) ↔ is_Some (rd_Marks rd !! s)).
  { intros s m. destruct (decide (s = rn_SourceInternalID claim)) as [->|Hne].
    - rewrite lookup_insert_eq, Hm. split; eauto.
    - by rewrite lookup_insert_ne. }
  split; [done|done| |].
  - intros s Hs%Hdom. by apply H3.
  - intros s row Hrow. rewrite Hdom. by apply H4.
Qed.

Lemma rows_finalize env claim rd rd' claimed now :
  rows_ok retention now (rd_Store rd) (rd_Marks rd) claimed → FinalizeSourceRetention env claim rd = Ok rd' →
  rows_ok retention now (rd_Store rd') (rd_Marks rd') claimed.
Proof.
  intros [H1 H2 H3 H4] H. apply finalize_ok in H as (job & source & mark & _ & Hs & _ & Hm & _ & _ & Hbl & ->).
  apply blockers_zero in Hbl as (_ & _ & Honly). unfold delete_retained. simpl. split; simpl.
  - intros j r [Hne Hr]%lookup_delete_Some. rewrite lookup_delete_ne; [by eapply H1|].
    intros E. apply Hne. symmetry. eapply Honly; eauto.
  - intros s1 s2 row1 row2 [_ E1]%lookup_delete_Some [_ E2]%lookup_delete_Some. by eapply H2.
  - intros s [m [Hne Hm']%lookup_delete_Some]. destruct (H3 s) as [Hin Hret]; [by eexists|].
    split; [by rewrite lookup_delete_ne|]. intros j r [_ Hr]%lookup_delete_Some. by eapply Hret.
  - intros s row [Hne Hrow]%lookup_delete_Some. rewrite lookup_delete_ne by done. by apply H4.
Qed.
End Rows.
