(* ===== verification/RetentionProperties.v ===== *)
(** * What holds beside running retention workers

    The invariant of the system of [RetentionWorker]: the store and its ledger,
    the sources and their marks, the workers' claims, the idempotency records;
    and the properties it gives.

    The second part proves that what is due is deleted. *)
From stdpp Require Import prelude gmap strings sorting.
From S2P Require Import Prelude.
From S2P Require Import GoText.
From S2P Require Import JobState.
From S2P Require Import Manifest.
From S2P Require Import Store.
From S2P Require Import JobWorker.
From S2P Require Import JobRepository.
From S2P Require Import StoreInvariant.
From S2P Require Import StoreSteps.
From S2P Require Import StoreClaim.
From S2P Require Import StoreReach.
From S2P Require Import StoreFrame.
From S2P Require Import StoreProperties.
From S2P Require Import Idempotency.
From S2P Require Import Submission.
From S2P Require Import SourceRetention.
From S2P Require Import RetentionWorker.
From S2P Require Import RetentionSafety.

Open Scope Z_scope.

(** ** Idempotency records *)
Definition key_of (tenantID : string) (t : Z) (k : string) (record : idempotency_row) (d : db) : Prop :=
  ∃ j, key_taken tenantID t k record j d.

(** A record that has not expired names a job that can be read. *)
Definition keys_ok (now : Z) (d : db) : Prop :=
  ∀ t k record, idempotency d !! (t, k) = Some record → now < ik_ExpiresAt record →
    ∃ tenantID, key_of tenantID t k record d.

Lemma keys_later now now' d : now ≤ now' → keys_ok now d → keys_ok now' d.
Proof. intros Hle H t k record Hr He. apply H; [done|lia]. Qed.

(** Records may go, and whatever a record does not depend on may change. *)
Lemma keys_less now d d' :
  keys_ok now d → (∀ i record, idempotency d' !! i = Some record → idempotency d !! i = Some record) →
  tenants d' = tenants d → jobs d' = jobs d → bundles d' = bundles d → sources d' = sources d → keys_ok now d'.
Proof.
  intros H Hi Ht Hj Hb Hs t k record Hr He. destruct (H t k record (Hi _ _ Hr) He) as (tenantID & j & [K1 K2 K3]).
  exists tenantID, j. split; rewrite ?Ht, ?Hj, ?Hb, ?Hs; done.
Qed.

Section Keys.
Context `{R : Retired}.
Context (json_policy : string → option TenantPolicy) (json_manifest : string → option Manifest)
        (json_payload : terminalWebhookPayload → string) (sql_policy_int : string → string → option Z).
Context (window : Z).

(** A live record was there before the step, unless the step is the submission
    that wrote it. *)
Lemma keys_before now d d' :
  store_ok d → unique_ids d → unique_tenants d → keys_ok now d →
  (∀ t k record, idempotency d' !! (t, k) = Some record → now < ik_ExpiresAt record →
     (∃ tenantID, key_of tenantID t k record d') ∨
     (idempotency d !! (t, k) = Some record ∧
      ∀ tenantID, step_before json_policy json_manifest json_payload sql_policy_int window tenantID k (ik_ExpiresAt record) d d')) →
  keys_ok now d'.
Proof.
  intros Hok Hu Hut H Hback t k record Hr He. destruct (Hback t k record Hr He) as [?|[Hold Hstep]]; [done|].
  destruct (H _ _ _ Hold He) as (tenantID & j & Hk). exists tenantID, j. eapply key_taken_before; eauto.
Qed.

Lemma keys_submit s sourceID jobID lockNow now ttl d outcome d' :
  store_ok d → unique_ids d → unique_tenants d → keys_ok now d → unique_ids d' →
  SubmitTx json_policy s sourceID jobID lockNow now ttl d = Ok (outcome, d') → keys_ok now d'.
Proof.
  intros Hok Hu Hut H Hu' Hs. apply (keys_before now d d' Hok Hu Hut H). intros t k record Hr He.
  assert (Hstep : ∀ tenantID, step_before json_policy json_manifest json_payload sql_policy_int window tenantID k (ik_ExpiresAt record) d d').
  { intros tenantID. eapply before_submit; [exact Hs|]. done. }
  destruct outcome as [job|job].
  - destruct (submit_takes_key _ _ _ _ _ _ _ _ _ _ Hu' Hs) as (_ & t' & Hk).
    apply SubmitTx_effect in Hs as (t0 & policy & Hlock & _ & _ & _ & Et & _ & _ & _ & _ & Hi & _).
    apply lockTenantPolicy_ok in Hlock as (_ & tn & Htn & Hext).
    pose proof (kt_tenant _ _ _ _ _ _ Hk) as (tn' & Htn' & Hext'). rewrite Et in Htn'.
    assert (t' = t0) as -> by (eapply Hut; eauto; congruence).
    destruct (decide ((t, k) = (t0, su_KeyDigest s))) as [[= -> ->]|Hne].
    + left. rewrite (kt_record _ _ _ _ _ _ Hk) in Hr. injection Hr as <-. by exists (su_Tenant s), jobID.
    + right. by rewrite Hi, lookup_insert_ne in Hr.
  - right. apply SubmitTx_effect in Hs as (_ & _ & _ & -> & _). done.
Qed.
End Keys.

(** A finalized deletion spares the jobs that live records name. *)
Lemma keys_finalize env claim rd rd' now :
  rv_StatementNow env ≤ now → FinalizeSourceRetention env claim rd = Ok rd' →
  keys_ok now (rd_Store rd) → keys_ok now (rd_Store rd').
Proof.
  intros Hnow H Hk. apply finalize_ok in H as (job & source & mark & (_ & Hjob & Ht & Hsrc & Hext & _) & _ & _ & _ & _ & _ & Hbl & ->).
  apply blockers_zero in Hbl as (_ & Hrecords & Honly).
  intros t k record Hr He. destruct (Hk t k record Hr He) as (tenantID & j & [K1 K2 (r & b & sr & Hj & Hx & Htn & Hb & Hbt & Hs & Hrest)]).
  assert (Hne : rn_JobInternalID claim ≠ j).
  { intros <-. rewrite Hjob in Hj. injection Hj as <-. subst t.
    assert (ik_ExpiresAt record ≤ rv_StatementNow env); [|lia].
    eapply (Hrecords k); [by rewrite <-Ht|congruence]. }
  exists tenantID, j. split; [done|done|]. exists r, b, sr. simpl. rewrite !lookup_delete_ne; [done| |done].
  intros E. apply Hne. symmetry. by eapply Honly.
Qed.

Lemma expire_batch_records recordID bundleRecords locked now failure batch d n d' :
  ExpireIdempotencyBatch recordID bundleRecords locked now failure batch d = Ok (n, d') →
  job_frame d' = (idempotency d', sources d, bundles d, callbacks d, reservations d) ∧
  tenants d' = tenants d ∧ jobs d' = jobs d ∧ attempts d' = attempts d ∧ daily d' = daily d ∧ outbox d' = outbox d ∧
  ∀ i record, idempotency d' !! i = Some record → idempotency d !! i = Some record.
Proof.
  unfold ExpireIdempotencyBatch. intros (? & _ & H)%bind_ok. destruct failure; [done|].
  destruct (_ =? _)%nat; [done|]. injection H as <- <-. split_and!; try done.
  intros i record [? _]%map_lookup_filter_Some. done.
Qed.

(** ** The invariant *)
Definition retired_of (y : retention_system) : Retired := {| archived := ry_Archived y; swept := λ j, j ∈ ry_Swept y |}.

Record retention_ok (retention : Z) (y : retention_system) : Prop := {
  ro_store : store_ok (R:=retired_of y) (ry_DB y);
  ro_ids : unique_ids (ry_DB y);
  ro_tenants : unique_tenants (ry_DB y);
  ro_rows : rows_ok retention (ry_Now y) (ry_DB y) (rd_Marks (ry_Data y)) (ry_Claimed y);
  ro_keys : keys_ok (ry_Now y) (ry_DB y);
  ro_deleted : ry_Deleted y ⊆ ry_Claimed y;
  ro_workers : ∀ k p c, ry_Workers y !! k = Some p → phase_claim p = Some c → rn_ObjectKey c ∈ ry_Claimed y;
  ro_finalize : ∀ k c, ry_Workers y !! k = Some (RetentionFinalize c) → rn_ObjectKey c ∈ ry_Deleted y;
  ro_tokens : ∀ k1 k2 p1 p2 c1 c2, ry_Workers y !! k1 = Some p1 → ry_Workers y !! k2 = Some p2 →
    phase_claim p1 = Some c1 → phase_claim p2 = Some c2 → rn_DeleteToken c1 = rn_DeleteToken c2 → k1 = k2
}.

Section Invariant.
Context (json_policy : string → option TenantPolicy) (json_manifest : string → option Manifest)
        (json_payload : terminalWebhookPayload → string) (sql_policy_int : string → string → option Z).
Context (window : Z) (worker : SourceRetentionWorkerConfig).
Local Abbreviation ok := (retention_ok (sc_Retention worker)).
Local Abbreviation step := (rsys_step json_policy json_manifest json_payload sql_policy_int window worker).

(** A step that leaves the workers, their claims and the ghost state alone. *)
Lemma ok_with_store d y :
  ok y → store_ok (R:=retired_of y) d → unique_ids d → tenants_kept (ry_DB y) d →
  rows_ok (sc_Retention worker) (ry_Now y) d (rd_Marks (ry_Data y)) (ry_Claimed y) → keys_ok (ry_Now y) d →
  ok (with_store d y).
Proof.
  intros [H1 H2 H3 H4 H5 H6 H7 H8 H9] Hok Hu Hk Hrows Hkeys. split; try done. by eapply unique_tenants_kept.
Qed.

Lemma submit_retention_ok y s sourceID jobID lockNow ttl outcome d :
  ok y → SubmitTx json_policy s sourceID jobID lockNow (ry_Now y) ttl (ry_DB y) = Ok (outcome, d) →
  rc_ObjectKey (su_Source s) ∉ ry_Claimed y → ok (with_store d y).
Proof.
  intros Hok Hs Hfresh. pose proof (ro_store _ _ Hok) as Hst.
  pose proof (store_step_ok (R:=retired_of y) _ json_manifest json_payload sql_policy_int window _ _ Hst (ro_ids _ _ Hok)
    (step_submit _ _ _ _ _ _ _ _ _ _ _ _ _ _ Hs)) as (H1 & H2 & H3 & _).
  apply ok_with_store; [done..| |].
  - eapply rows_submit; [apply Hok|exact Hs|done].
  - eapply (keys_submit (R:=retired_of y)); [exact json_manifest|exact json_payload|exact sql_policy_int|exact window|exact Hst|
      apply (ro_ids _ _ Hok)|apply (ro_tenants _ _ Hok)|apply Hok|exact H2|exact Hs].
Qed.

Lemma job_retention_ok y d :
  ok y → job_step json_policy json_manifest json_payload sql_policy_int window (ry_DB y) d → ok (with_store d y).
Proof.
  intros Hok Hs. pose proof (ro_store _ _ Hok) as Hst.
  pose proof (store_step_ok (R:=retired_of y) json_policy json_manifest json_payload sql_policy_int window _ _ Hst (ro_ids _ _ Hok)
    (step_job _ _ _ _ _ _ _ Hs)) as (H1 & H2 & H3 & _).
  apply ok_with_store; [done..| |].
  - eapply (job_step_rows _ _ _ _ _ _ (R:=retired_of y)); [exact Hst|apply (ro_ids _ _ Hok)|apply Hok|exact Hs].
  - eapply (keys_before (R:=retired_of y)); [exact Hst|apply (ro_ids _ _ Hok)|apply (ro_tenants _ _ Hok)|apply Hok|].
    intros t k record Hr He. right. pose proof (job_step_frame _ _ _ _ _ _ _ Hs) as Hf. unfold job_frame in Hf.
    injection Hf as Hi _ _ _ _. rewrite Hi in Hr. split; [done|]. intros tenantID. by apply before_job.
Qed.

(** The attempts a finalized deletion removes are those of its job. *)
Lemma finalize_store y env claim rd :
  ok y → FinalizeSourceRetention env claim (ry_Data y) = Ok rd →
  store_ok (R:={| archived := λ k, ry_Archived y k + att_sum at_Consumed k (attempts_of (rn_JobInternalID claim) (ry_DB y));
                  swept := λ j, j ∈ ry_Swept y |}) (rd_Store rd).
Proof.
  intros Hok H. apply finalize_ok in H as (job & source & mark & (_ & Hjob & Ht & _ & _ & Hterm & _) & _ & _ & _ & _ & _ & Hbl & ->).
  apply blockers_zero in Hbl as (Hout & _ & _). pose proof (ro_store _ _ Hok) as Hst. unfold store_ok in *. simpl.
  replace (filter _ (attempts (rd_Store (ry_Data y))))
    with (filter (λ p : (Z * Z) * attempt_row, ¬ p.1.1 = rn_JobInternalID claim) (attempts (ry_DB y))).
  - eapply (tables_retire (retired_of y)); [exact Hst|exact Hjob|done..].
  - apply map_filter_ext. intros [j n] a Ha. simpl. split; [naive_solver|]. intros Hn E. apply Hn. split; [done|]. subst j.
    destruct (tk_attempts (R:=retired_of y) _ _ _ _ _ _ _ Hst _ _ _ Ha) as [(r & Hr & _ & Htn & _) _].
    unfold ry_DB in Hr. congruence.
Qed.

Lemma finalize_frame env claim rd rd' :
  FinalizeSourceRetention env claim rd = Ok rd' →
  jobs (rd_Store rd') = delete (rn_JobInternalID claim) (jobs (rd_Store rd)) ∧ tenants (rd_Store rd') = tenants (rd_Store rd).
Proof. intros (job & source & mark & _ & _ & _ & _ & _ & _ & _ & ->)%finalize_ok. done. Qed.

Lemma unique_ids_delete d d' j : unique_ids d → jobs d' = delete j (jobs d) → unique_ids d'.
Proof. intros Hu E j1 j2 r1 r2. rewrite E. intros [_ ?]%lookup_delete_Some [_ ?]%lookup_delete_Some. by eapply Hu. Qed.

(** What a worker step does to everything but the phases of the workers. *)
Record shared_ok (y : retention_system) : Prop := {
  sh_store : store_ok (R:=retired_of y) (ry_DB y);
  sh_ids : unique_ids (ry_DB y);
  sh_tenants : unique_tenants (ry_DB y);
  sh_rows : rows_ok (sc_Retention worker) (ry_Now y) (ry_DB y) (rd_Marks (ry_Data y)) (ry_Claimed y);
  sh_keys : keys_ok (ry_Now y) (ry_DB y);
  sh_deleted : ry_Deleted y ⊆ ry_Claimed y
}.

Lemma worker_shared_ok y k p p' y' :
  ok y → ry_Workers y !! k = Some p → retention_step worker y p p' y' →
  shared_ok y' ∧ ry_Workers y' = ry_Workers y ∧ ry_Claimed y ⊆ ry_Claimed y' ∧ ry_Deleted y ⊆ ry_Deleted y' ∧
  (∀ c, phase_claim p' = Some c → rn_ObjectKey c ∈ ry_Claimed y') ∧
  (∀ c, p' = RetentionFinalize c → rn_ObjectKey c ∈ ry_Deleted y') ∧
  (∀ c, phase_claim p' = Some c → phase_claim p = Some c ∨
     ∀ k2 p2 c2, ry_Workers y !! k2 = Some p2 → phase_claim p2 = Some c2 → rn_DeleteToken c2 ≠ rn_DeleteToken c).
Proof.
  intros Hok Hk Hstep. pose proof Hok as [H1 H2 H3 H4 H5 H6 H7 H8 H9].
  pose proof (H7 k p) as Hclaimed.
  destruct Hstep as [env candidate claim rd [Hnow _] Hc Htok Hfresh|claim|claim deleted Hdel|env claim rd [Hnow _] Hr|env claim rd [_ Hnow] Hf|p].
  - pose proof Hc as Hrows. eapply rows_claim in Hrows; [|exact H4|exact Hnow].
    apply claim_candidate_ok in Hc as (job & c & source & count & _ & _ & _ & _ & _ & _ & _ & _ & _ & _ & Est & _).
    split_and!; simpl; [|done|apply union_subseteq_r|done|intros c' [= <-]; apply elem_of_union_l, elem_of_singleton_2; done|done|
      intros c' [= <-]; by right].
    split; unfold ry_DB; simpl; rewrite ?Est; [done..|by rewrite <-Est|done|]. by transitivity (ry_Claimed y); [|apply union_subseteq_r].
  - specialize (Hclaimed claim Hk eq_refl).
    split_and!; simpl; [|done|done|apply union_subseteq_r|intros c' [= <-]; done|
      intros c' [= <-]; apply elem_of_union_l, elem_of_singleton_2; done|intros c' [= <-]; by left].
    split; [done..|]. simpl. apply union_subseteq; split; [by apply singleton_subseteq_l|done].
  - specialize (Hclaimed claim Hk eq_refl).
    assert (Hsub : ry_Deleted y ⊆ deleted ∧ deleted ⊆ ry_Claimed y).
    { destruct Hdel as [-> | ->]; split; [done|done|apply union_subseteq_r|apply union_subseteq; split; [by apply singleton_subseteq_l|done]]. }
    split_and!; simpl; [|done|done|apply Hsub|intros c' [= <-]; done|done|intros c' [= <-]; by left].
    split; [done..|]. apply Hsub.
  - pose proof Hr as Hrows. eapply rows_record in Hrows; [|exact H4].
    apply record_failure_ok in Hr as (mark & _ & _ & _ & Est & _). split_and!; try done.
    split; unfold ry_DB; simpl; rewrite ?Est; try done. by rewrite <-Est.
  - pose proof (finalize_store _ _ _ _ Hok Hf) as Hst. pose proof (finalize_frame _ _ _ _ Hf) as (Ej & Et). split_and!; try done.
    split; try done; unfold ry_DB; simpl.
    + by eapply unique_ids_delete.
    + eapply unique_tenants_kept; [|exact H3]. by apply tenants_kept_eq.
    + by eapply rows_finalize.
    + by eapply keys_finalize.
  - split_and!; try done.
Qed.

Lemma worker_retention_ok y k p p' y' :
  ok y → ry_Workers y !! k = Some p → retention_step worker y p p' y' → ok (with_worker k p' y').
Proof.
  intros Hok Hk Hstep. pose proof (worker_shared_ok _ _ _ _ _ Hok Hk Hstep) as ([S1 S2 S3 S4 S5 S6] & Hw & Hc & Hd & Hp & Hf & Ht).
  split; try done; simpl; rewrite Hw.
  - intros k1 p1 c [[<- <-]|[Hne H1]]%lookup_insert_Some E; [by apply Hp|]. apply Hc. by eapply ro_workers.
  - intros k1 c [[<- E]|[Hne H1]]%lookup_insert_Some; [by apply Hf|]. apply Hd. by eapply ro_finalize.
  - assert (Hnew : ∀ k2 p2 c2 c, ry_Workers y !! k2 = Some p2 → phase_claim p2 = Some c2 → phase_claim p' = Some c →
      rn_DeleteToken c2 = rn_DeleteToken c → k2 = k).
    { intros k2 p2 c2 c H2 E2 E Et. destruct (Ht c E) as [Eold|Hfresh]; [by eapply (ro_tokens _ _ Hok)|]. by destruct (Hfresh _ _ _ H2 E2). }
    intros k1 k2 p1 p2 c1 c2 [[<- <-]|[_ H1]]%lookup_insert_Some [[<- <-]|[_ H2]]%lookup_insert_Some E1 E2 Et; try done.
    + symmetry. by eapply Hnew.
    + by eapply Hnew.
    + by eapply (ro_tokens _ _ Hok).
Qed.

Lemma delivery_retention_ok y o :
  ok y → outbox_kept (outbox (ry_DB y)) o →
  ok (mkRetentionSystem (ry_Now y)
        (mkRetentionDb (set_outbox (λ _, o) (ry_DB y)) (rd_Marks (ry_Data y)) (rd_Audit (ry_Data y))) (ry_Deleted y)
        (ry_Workers y) (ry_Claimed y) (ry_Archived y) (ry_Swept y ∪ (dom (outbox (ry_DB y)) ∖ dom o))).
Proof.
  intros [H1 H2 H3 H4 H5 H6 H7 H8 H9] Hk. split; try done.
  - eapply (tables_delivery (retired_of y)); [exact H1|exact Hk|done| |]; simpl.
    + intros i Hi. by apply elem_of_union_l.
    + intros j Hj Hn. apply elem_of_union_r, elem_of_difference. split; [by apply elem_of_dom|]. by apply not_elem_of_dom.
  - by eapply rows_same; [..|exact H4].
  - by eapply keys_less; [exact H5|..].
Qed.

Lemma rsys_step_ok y y' : ok y → step y y' → ok y'.
Proof.
  intros Hok Hstep. destruct Hstep as [now Hnow|s sourceID jobID lockNow ttl outcome d Hs Hfresh|d Hs|o Hk|recordID others locked failure batch n d Hs|k p p' y' Hk Hs|k Hk].
  - destruct Hok as [H1 H2 H3 H4 H5 H6 H7 H8 H9]. split; try done; [by eapply rows_later|by eapply keys_later].
  - by eapply submit_retention_ok.
  - by eapply job_retention_ok.
  - by apply delivery_retention_ok.
  - apply expire_batch_records in Hs as (Hf & Et & Ej & Ea & Ed & Eo & Hi). unfold job_frame in Hf. injection Hf as Es Eb _ _.
    destruct Hok as [H1 H2 H3 H4 H5 H6 H7 H8 H9]. apply ok_with_store; [by split|..].
    + unfold store_ok. by rewrite Ej, Ea, Ed, Eo.
    + unfold unique_ids. by rewrite Ej.
    + by apply tenants_kept_eq.
    + by eapply rows_same; [..|exact H4].
    + by eapply keys_less; [exact H5|..].
  - by eapply worker_retention_ok.
  - destruct Hok as [H1 H2 H3 H4 H5 H6 H7 H8 H9]. split; try done; simpl.
    + intros k1 p1 c [[<- <-]|[_ ?]]%lookup_insert_Some ?; [done|by eapply H7].
    + intros k1 c [[<- ?]|[_ ?]]%lookup_insert_Some; [done|by eapply H8].
    + intros k1 k2 p1 p2 c1 c2 [[<- <-]|[_ ?]]%lookup_insert_Some [[<- <-]|[_ ?]]%lookup_insert_Some E1 E2 ?; try done. by eapply H9.
Qed.

(** A database with its tenants, bundles and callbacks, before the first submission. *)
Definition before_submissions (d : db) : Prop :=
  no_jobs_yet d ∧ sources d = ∅ ∧ idempotency d = ∅ ∧ unique_tenants d.

Lemma reachable_retention now d y : before_submissions d → rtc step (initial_retention now d) y → ok y.
Proof.
  intros (H0 & Hs & Hi & Ht). apply (rtc_preserves _ ok); [intros; by eapply rsys_step_ok|].
  destruct (no_jobs_ok d H0) as [Hok Hu]. destruct H0 as (Hj & _). split; try done; simpl.
  - eapply (tables_retired_ext nothing_retired); [done| |exact Hok]. simpl. set_solver.
  - unfold ry_DB. simpl. split; rewrite ?Hj, ?Hs; try (intros *; by rewrite lookup_empty).
  - intros t k record. unfold ry_DB. simpl. by rewrite Hi, lookup_empty.
Qed.

(** Only a finalized deletion removes a job. *)
Lemma kept_job y d j r : ids_kept (ry_DB y) d → jobs (ry_DB y) !! j = Some r → jobs d !! j ≠ None.
Proof. intros Hk Hr E. specialize (Hk j). by rewrite Hr, E in Hk. Qed.

Lemma removed_by y y' j r :
  ok y → step y y' → jobs (ry_DB y) !! j = Some r → jobs (ry_DB y') !! j = None →
  ∃ k env claim rd, ry_Workers y !! k = Some (RetentionFinalize claim) ∧ env_before env (ry_Now y) ∧
    FinalizeSourceRetention env claim (ry_Data y) = Ok rd ∧ rn_JobInternalID claim = j.
Proof.
  intros Hok Hstep Hr Hgone.
  destruct Hstep as [t Ht|s sourceID jobID lockNow ttl outcome d Hs Hfresh|d Hs|o Hk|recordID others locked failure batch n d Hs|k p p' y' Hk Hs|k Hk];
    unfold ry_DB in *; simpl in *; try congruence.
  - apply SubmitTx_effect in Hs as (t & policy & _ & H). destruct outcome as [job|job]; [|destruct H as [-> _]; congruence].
    destruct H as (_ & _ & Hn & _ & _ & _ & _ & (b & c & Ej) & _). rewrite Ej in Hgone.
    by apply lookup_insert_None in Hgone as [Hgone _]; rewrite Hr in Hgone.
  - eapply (job_step_ok (R:=retired_of y)) in Hs as (_ & Hk & _ & _); [|apply (ro_store _ _ Hok)|apply (ro_ids _ _ Hok)].
    by destruct (kept_job y d j r Hk Hr).
  - apply expire_batch_records in Hs as (_ & _ & Ej & _). congruence.
  - destruct Hs as [env candidate claim rd _ Hc _ _|claim|claim deleted Hdel|env claim rd _ Hf|env claim rd Hb Hf|p]; simpl in *; try congruence.
    + apply claim_candidate_ok in Hc as (? & ? & ? & ? & _ & _ & _ & _ & _ & _ & _ & _ & _ & _ & Est & _). congruence.
    + apply record_failure_ok in Hf as (? & _ & _ & _ & Est & _). congruence.
    + exists k, env, claim, rd. split_and!; try done. apply finalize_frame in Hf as [Ej _]. rewrite Ej in Hgone.
      apply lookup_delete_None in Hgone as [?|?]; [done|congruence].
Qed.

Lemma removed_job y y' j r :
  ok y → step y y' → jobs (ry_DB y) !! j = Some r → jobs (ry_DB y') !! j = None →
  retired_job (sc_Retention worker) (ry_Now y) r ∧ outbox (ry_DB y) !! j = None ∧
  (∀ k record, idempotency (ry_DB y) !! (jb_Tenant r, k) = Some record →
     ik_ResourceExternalID record = jb_ExternalID r → ik_ExpiresAt record ≤ ry_Now y) ∧
  ∃ row, sources (ry_DB y) !! jb_Source r = Some row ∧ sr_ObjectKey row ∈ ry_Deleted y.
Proof.
  intros Hok Hstep Hr Hgone. destruct (removed_by _ _ _ _ Hok Hstep Hr Hgone) as (k & env & claim & rd & Hk & [_ Hnow] & Hf & <-).
  apply finalize_ok in Hf as (job & source & mark & (_ & Hjob & Ht & Hsrc & Hext & _) & Hs & Hkey & Hm & _ & _ & Hbl & _).
  unfold ry_DB in Hr. rewrite Hr in Hjob. injection Hjob as <-. apply blockers_zero in Hbl as (Hout & Hrecords & _). split_and!.
  - eapply (rw_marks _ _ _ _ _ (ro_rows _ _ Hok) (rn_SourceInternalID claim)); [by eexists|exact Hr|done].
  - exact Hout.
  - intros k' record Hrec He. rewrite Ht in Hrec. specialize (Hrecords k' record Hrec). rewrite <-Hext in Hrecords. specialize (Hrecords He). lia.
  - exists source. rewrite Hsrc, Hkey. split; [done|]. by eapply ro_finalize.
Qed.

(** What a claim can still commit. *)
Definition can_settle (claim : SourceRetentionClaim) (y : retention_system) : Prop :=
  (∃ env rd, FinalizeSourceRetention env claim (ry_Data y) = Ok rd) ∨
  (∃ env delay rd, RecordSourceRetentionFailure env claim delay (ry_Data y) = Ok rd).

Lemma can_settle_token claim y :
  can_settle claim y → ∃ mark, rd_Marks (ry_Data y) !! rn_SourceInternalID claim = Some mark ∧ sm_Token mark = rn_DeleteToken claim.
Proof.
  intros [(env & rd & H)|(env & delay & rd & H)].
  - apply finalize_ok in H as (? & ? & mark & _ & _ & _ & ? & ? & _). by exists mark.
  - apply record_failure_ok in H as (mark & ? & ? & _). by exists mark.
Qed.

(** C1: Retention conserves the ledger of execution time. Beside any number of
    retention workers, deliveries and expiries, what a tenant has reserved for a
    day stays the sum of the reservations of its running attempts, and what it
    has consumed stays the consumption of its attempts plus that of the attempts
    deleted with their jobs: deleting a job neither refunds nor charges a tenant. *)
Theorem retained_ledger_conserved now d y t aday :
  before_submissions d → rtc step (initial_retention now d) y →
  dl_Reserved (ledger_row (daily (ry_DB y)) (t, aday)) = reserved_by_running (ry_DB y) (t, aday) ∧
  dl_Consumed (ledger_row (daily (ry_DB y)) (t, aday)) =
    consumed_by_attempts (ry_DB y) (t, aday) + ry_Archived y (t, aday).
Proof. intros H0 Hs. pose proof (reachable_retention _ _ _ H0 Hs) as Hok. apply (ledger_sums (R:=retired_of y)), Hok. Qed.

(** Retention spares every job that is not finished. A source object that a
    retention worker may have deleted belongs to a job that is terminal and
    completed at least the retention period ago; and a step that removes a job
    removes such a job only, without an undelivered event or a live idempotency
    record, and only after its source object was deleted. Crashed workers,
    failed deletions and lost fences included. *)
Lemma retention_spares_unfinished_jobs now d y :
  before_submissions d → rtc step (initial_retention now d) y →
  (∀ j r row, jobs (ry_DB y) !! j = Some r → sources (ry_DB y) !! jb_Source r = Some row →
     sr_ObjectKey row ∈ ry_Deleted y → retired_job (sc_Retention worker) (ry_Now y) r) ∧
  (∀ y' j r, step y y' → jobs (ry_DB y) !! j = Some r → jobs (ry_DB y') !! j = None →
     retired_job (sc_Retention worker) (ry_Now y) r ∧ outbox (ry_DB y) !! j = None ∧
     (∀ k record, idempotency (ry_DB y) !! (jb_Tenant r, k) = Some record →
        ik_ResourceExternalID record = jb_ExternalID r → ik_ExpiresAt record ≤ ry_Now y) ∧
     ∃ row, sources (ry_DB y) !! jb_Source r = Some row ∧ sr_ObjectKey row ∈ ry_Deleted y).
Proof.
  intros H0 Hs. pose proof (reachable_retention _ _ _ H0 Hs) as Hok. pose proof (ro_rows _ _ Hok) as Hrows. split.
  - intros j r row Hr Hrow Hin. eapply (rw_marks _ _ _ _ _ Hrows); [|exact Hr|done].
    apply (rw_claimed _ _ _ _ _ Hrows _ _ Hrow). by apply (ro_deleted _ _ Hok).
  - intros y' j r Hstep Hr Hgone. eapply removed_job; eauto.
Qed.

(** The deletion fence admits one worker. In every reachable state at most
    one of the workers that claimed a source can commit anything about it, be it
    the deletion or a failure; and while the lease of its fence runs, no other
    transaction can claim the source. *)
Lemma retention_fence_exclusive now d y k1 k2 p1 p2 c1 c2 :
  before_submissions d → rtc step (initial_retention now d) y →
  ry_Workers y !! k1 = Some p1 → ry_Workers y !! k2 = Some p2 → phase_claim p1 = Some c1 → phase_claim p2 = Some c2 →
  rn_SourceInternalID c1 = rn_SourceInternalID c2 →
  (can_settle c1 y → can_settle c2 y → k1 = k2) ∧
  ∀ mark env candidate, rd_Marks (ry_Data y) !! rn_SourceInternalID c1 = Some mark → rv_Now env < sm_LeaseUntil mark →
    rn_SourceInternalID candidate = rn_SourceInternalID c1 →
    is_ok (claimSourceRetentionCandidate (sc_Retention worker) (sc_ClaimLease worker) env candidate (ry_Data y)) = false.
Proof.
  intros H0 Hs Hk1 Hk2 E1 E2 Es. pose proof (reachable_retention _ _ _ H0 Hs) as Hok. split.
  - intros (m1 & Hm1 & T1)%can_settle_token (m2 & Hm2 & T2)%can_settle_token. rewrite Es, Hm2 in Hm1. injection Hm1 as <-.
    eapply (ro_tokens _ _ Hok); eauto. congruence.
  - intros mark env candidate Hm Hlease Ec. destruct (claimSourceRetentionCandidate _ _ _ _ _) as [[claim rd]|] eqn:H; [|done].
    assert (Esrc : rn_SourceInternalID claim = rn_SourceInternalID candidate).
    { unfold claimSourceRetentionCandidate in H. apply unless_failed_ok in H as [_ H]. cbv zeta in H. inv_commit. done. }
    apply claim_candidate_ok in H as (job & c & source & count & _ & _ & _ & _ & _ & _ & _ & Hdue & _).
    rewrite Esrc, Ec, Hm in Hdue. simpl in Hdue. bool_to_prop. lia.
Qed.

(** Neither retention nor expiry breaks a promise of idempotency. In every
    reachable state a record that has not expired still names a job that can be
    read, so that a repeated submission can be answered with it. *)
Lemma live_records_name_readable_jobs now d y t k record :
  before_submissions d → rtc step (initial_retention now d) y →
  idempotency (ry_DB y) !! (t, k) = Some record → ry_Now y < ik_ExpiresAt record →
  ∃ tenant job, tenants (ry_DB y) !! t = Some tenant ∧
    getExternalJob (ry_DB y) (tn_ExternalID tenant) (ik_ResourceExternalID record) = Ok job ∧
    ej_ExternalID job = ik_ResourceExternalID record ∧ ej_TenantExternalID job = tn_ExternalID tenant.
Proof.
  intros H0 Hs Hr He. pose proof (reachable_retention _ _ _ H0 Hs) as Hok.
  destruct (ro_keys _ _ Hok _ _ _ Hr He) as (tenantID & j & Hk). pose proof (kt_tenant _ _ _ _ _ _ Hk) as (tenant & Ht & <-).
  destruct (key_taken_read (R:=retired_of y) _ _ _ _ _ _ (ro_store _ _ Hok) (ro_ids _ _ Hok) Hk) as (job & Hget & Hid & Hext).
  exists tenant, job. split_and!; try done. unfold getExternalJob in Hget. destruct (find_job _ _ _) as [id|] eqn:Hf; [|done].
  apply find_job_iff in Hf as (r & Hj & _ & Htn); [|apply (ro_ids _ _ Hok)]. unfold scanExternalJob in Hget. rewrite Hj in Hget.
  destruct (tenants _ !! jb_Tenant r) as [tn|]; [|done]. destruct (bundles _ !! _); [|done]. destruct (sources _ !! _); [|done].
  repeat match type of Hget with (if ?b then _ else _) = _ => destruct b; [done|] end.
  injection Hget as <-. simpl in *. congruence.
Qed.
End Invariant.

(** * Retention makes progress

    An undisturbed worker deletes a source that is due, and a batch of the
    idempotency worker removes the oldest expired records and no others. *)
(** ** The orders of the queries *)
#[export] Instance candidate_le_total : Total candidate_le.
Proof. intros a b. unfold candidate_le. lia. Qed.
#[export] Instance candidate_le_trans : Transitive candidate_le.
Proof. intros a b c. unfold candidate_le. lia. Qed.
#[export] Instance expired_le_total : Total expired_le.
Proof. intros a b. unfold expired_le. lia. Qed.
#[export] Instance expired_le_trans : Transitive expired_le.
Proof. intros a b c. unfold expired_le. lia. Qed.

(** A total preorder has a least element in every list. *)
Lemma least_element {A} (le : A → A → Prop) `{!Total le, !Transitive le} (l : list A) :
  l ≠ [] → ∃ a, a ∈ l ∧ Forall (le a) l.
Proof.
  induction l as [|x l IH]; [done|]. intros _. destruct l as [|y l].
  - exists x. split; [left|]. repeat constructor. by destruct (total le x x).
  - destruct IH as (a & Ha & Hle); [done|]. destruct (total le x a) as [Hxa|Hax].
    + exists x. split; [left|]. constructor; [by destruct (total le x x)|].
      eapply Forall_impl; [exact Hle|]. intros b Hb. by transitivity a.
    + exists a. split; [by right|]. by constructor.
Qed.

(** ** Candidates *)
Lemma retention_row_some retention now rd j job c claim :
  retention_row retention now rd (j, job) = Some (c, claim) ↔
  ∃ source, sources (rd_Store rd) !! jb_Source job = Some source ∧ sr_Tenant source = jb_Tenant job ∧
    jb_CompletedAt job = Some c ∧ terminal (jb_Status job) = true ∧ c ≤ now - retention / 1000 * 1000 ∧
    deletion_due now (rd_Marks rd !! jb_Source job) = true ∧ retentionBlockers claim now (rd_Store rd) = 0 ∧
    claim = mkRetentionClaim (jb_Tenant job) j (jb_Source job) (jb_ExternalID job) (sr_ExternalID source) (sr_ObjectKey source) "".
Proof.
  unfold retention_row. split.
  - destruct (sources _ !! _) as [source|]; [|done]. destruct (jb_CompletedAt job) as [c'|]; [|done]. cbv zeta.
    destruct (_ && _) eqn:E; [|done]. intros [= <- <-]. bool_to_prop. exists source. split_and!; done.
  - intros (source & -> & Et & -> & Ht & Hc & Hd & Hb & ->). cbv zeta.
    by rewrite Et, Z.eqb_refl, Ht, (proj2 (Z.leb_le _ _) Hc), Hd, Hb.
Qed.

Lemma sourceRetentionCandidates_elem retention limit now rd claim :
  claim ∈ sourceRetentionCandidates retention limit now rd →
  ∃ j job c, jobs (rd_Store rd) !! j = Some job ∧ retention_row retention now rd (j, job) = Some (c, claim).
Proof.
  unfold sourceRetentionCandidates. intros ([c claim'] & -> & Hin)%list_elem_of_fmap. simpl.
  apply elem_of_take in Hin as (i & Hi & _). apply list_elem_of_lookup_2 in Hi.
  rewrite merge_sort_Permutation in Hi. apply list_elem_of_filter in Hi as [_ Hi].
  unfold retention_rows in Hi. apply list_elem_of_omap in Hi as ([j job] & Hj & Hrow). exists j, job, c.
  split; [by apply elem_of_map_to_list|done].
Qed.

(** A row of the inner query gives a candidate. *)
Lemma sourceRetentionCandidates_some retention limit now rd j job a :
  (0 < limit)%nat → jobs (rd_Store rd) !! j = Some job → retention_row retention now rd (j, job) = Some a →
  sourceRetentionCandidates retention limit now rd ≠ [].
Proof.
  intros Hl Hj Ha. unfold sourceRetentionCandidates. set (rows := retention_rows retention now rd).
  assert (Hin : a ∈ rows).
  { apply list_elem_of_omap. exists (j, job). split; [by apply elem_of_map_to_list|done]. }
  destruct (least_element candidate_le rows) as (b & Hb & Hleast); [by intros ->; apply not_elem_of_nil in Hin|].
  assert (Hf : b ∈ merge_sort candidate_le (filter (first_of_tenant rows) rows)).
  { rewrite merge_sort_Permutation. apply list_elem_of_filter. split; [|done].
    eapply Forall_impl; [exact Hleast|]. done. }
  destruct (merge_sort _ _) as [|x l]; [by apply not_elem_of_nil in Hf|]. destruct limit; [lia|done].
Qed.

Lemma blockers_later claim now now' d : now ≤ now' → retentionBlockers claim now d = 0 → retentionBlockers claim now' d = 0.
Proof.
  intros Hle (H1 & H2 & H3)%blockers_zero. apply blockers_zero. split_and!; [done| |done].
  intros k record Hr He. specialize (H2 k record Hr He). lia.
Qed.

Lemma deletion_due_later now now' mark : now ≤ now' → deletion_due now mark = true → deletion_due now' mark = true.
Proof. intros Hle. destruct mark as [m|]; [|done]. simpl. rewrite !andb_true_iff, !Z.leb_le. lia. Qed.

(** ** One undisturbed deletion *)

(** A transaction that meets no failure and no lock after [now]. *)
Record quiet (now : Z) (env : retention_env) : Prop := {
  qt_clock : now ≤ rv_Now env ∧ now ≤ rv_StatementNow env;
  qt_unlocked : rv_LockedTenants env = ∅ ∧ rv_LockedJobs env = ∅ ∧ rv_LockedSources env = ∅;
  qt_token : ∃ token, rv_Token env = Some token ∧ len token = 32;
  qt_failure : rv_Failure env = None
}.

(** The foreign keys and the formats of the schema, for a job and its source. *)
Definition identified (rd : retention_db) : Prop :=
  ∀ j job, jobs (rd_Store rd) !! j = Some job →
    is_Some (tenants (rd_Store rd) !! jb_Tenant job) ∧ 0 < j ∧ 0 < jb_Tenant job ∧ 0 < jb_Source job ∧
    externalIDPattern (jb_ExternalID job) = true ∧
    (∀ source, sources (rd_Store rd) !! jb_Source job = Some source →
       externalIDPattern (sr_ExternalID source) = true ∧ validSourceObjectKey (sr_ObjectKey source) = true) ∧
    (∀ mark, rd_Marks rd !! jb_Source job = Some mark → 0 ≤ sm_AttemptCount mark < max_uint32).

Definition with_token (token : string) (claim : SourceRetentionClaim) : SourceRetentionClaim :=
  mkRetentionClaim (rn_TenantInternalID claim) (rn_JobInternalID claim) (rn_SourceInternalID claim)
    (rn_JobExternalID claim) (rn_SourceExternalID claim) (rn_ObjectKey claim) token.

(** Claiming a candidate. *)
Lemma claim_quiet retention lease queryNow env rd j job c claim :
  retention `mod` 1000 = 0 → identified rd → quiet queryNow env →
  jobs (rd_Store rd) !! j = Some job → retention_row retention queryNow rd (j, job) = Some (c, claim) →
  ∃ token rd', len token = 32 ∧
    claimSourceRetentionCandidate retention lease env claim rd = Ok (with_token token claim, rd') ∧ rd_Store rd' = rd_Store rd.
Proof.
  intros Hmod Hid [[Hn1 Hn2] (Hl1 & Hl2 & Hl3) (token & Htok & Hlen) Hfail] Hj Hrow.
  apply retention_row_some in Hrow as (source & Hs & Hst & Hc & Hterm & Hle & Hdue & Hbl & ->).
  destruct (Hid _ _ Hj) as (Htn & _ & _ & _ & _ & _ & Hcount).
  assert (Hret : retention / 1000 * 1000 = retention) by (Z.div_mod_to_equations; lia).
  unfold claimSourceRetentionCandidate, unless_failed. rewrite Hfail. cbv zeta.
  unfold lockRetentionTenantJobForClaim. simpl. apply is_some_true in Htn. rewrite Htn, Hl1, Hl2, Hl3.
  rewrite bool_decide_eq_true_2 by set_solver. simpl. rewrite Hj. simpl.
  rewrite Z.eqb_refl, bool_decide_eq_true_2 by set_solver. simpl.
  unfold retained_job. simpl. rewrite Hterm, Z.eqb_refl, bool_decide_eq_true_2, Hc, (proj2 (Z.ltb_ge _ _)) by (done || lia). simpl.
  rewrite Hs. simpl. rewrite Hst, Z.eqb_refl, bool_decide_eq_true_2, (deletion_due_later queryNow) by (done || set_solver). simpl.
  rewrite (blockers_later _ queryNow) by done. simpl. rewrite Htok. simpl.
  rewrite (proj2 (Z.leb_le _ _)).
  - simpl. eexists token, _. split; [done|]. split; [reflexivity|]. by destruct (rd_Marks rd !! jb_Source job).
  - destruct (rd_Marks rd !! jb_Source job) as [m|] eqn:Hm; simpl; [|done]. specialize (Hcount m eq_refl). lia.
Qed.

(** Finalizing it before the lease of its fence runs out. *)
Lemma finalize_quiet retention lease queryNow env env' rd j job c claim token rd' :
  identified rd → quiet queryNow env' →
  jobs (rd_Store rd) !! j = Some job → retention_row retention queryNow rd (j, job) = Some (c, claim) → len token = 32 →
  claimSourceRetentionCandidate retention lease env claim rd = Ok (with_token token claim, rd') →
  rv_Now env' < rv_Now env + lease →
  FinalizeSourceRetention env' (with_token token claim) rd' =
    Ok (delete_retained (with_token token claim) (insertRetentionAudit (with_token token claim) AuditDeleted (rv_Now env') rd')).
Proof.
  intros Hid [[Hn1 Hn2] _ _ Hfail] Hj Hrow Hlen Hclaim Hlease.
  apply claim_candidate_ok in Hclaim as (job' & c' & source' & count & _ & _ & _ & Hs' & Hst' & Hkey' & _ & _ & _ & _ & Est & Em).
  apply retention_row_some in Hrow as (source & Hs & Hst & Hc & Hterm & Hle & Hdue & Hbl & ->). simpl in *.
  destruct (Hid _ _ Hj) as (Htn & H0j & H0t & H0s & Hext & Hsrc & _). destruct (Hsrc _ Hs) as [Hsext Hskey].
  unfold FinalizeSourceRetention, validSourceRetentionClaim. simpl.
  rewrite !(proj2 (Z.ltb_lt 0 _)), Hext, Hsext, Hskey, Hlen by done. simpl.
  unfold unless_failed. rewrite Hfail. cbv zeta. unfold lockRetentionTenantJob. simpl. rewrite Est.
  apply is_some_true in Htn. rewrite Htn. simpl. rewrite Hj. simpl. rewrite Z.eqb_refl. simpl.
  unfold retained_job. simpl. rewrite Hterm, Z.eqb_refl, bool_decide_eq_true_2, Hc by done. simpl.
  match goal with |- context [fenced_source ?cl ?n ?r] => assert (∃ mark, fenced_source cl n r = Ok (source, mark)) as [mark ->] end.
  - eexists. apply fenced_source_ok. simpl. rewrite Est, Em, lookup_insert_eq. split_and!; [done|done|reflexivity|done|done].
  - simpl. rewrite bool_decide_eq_true_2 by done. simpl. by rewrite (blockers_later _ queryNow).
Qed.

(** The moments of one undisturbed [ProcessNext]: a claim and a settlement with
    nothing in between, the settlement within the lease. *)
Record quiet_run (lease : Z) (s : mysql_retention) : Prop := {
  qr_others : ∀ rd, rm_Others (mr_Moments s 0) rd = rd ∧ rm_RoundOthers (mr_Moments s 0) 0 rd = rd ∧
    rm_Others (mr_Moments s 1) rd = rd;
  qr_query : rm_QueryFailure (mr_Moments s 0) = None;
  qr_claim : quiet (rm_QueryNow (mr_Moments s 0)) (rm_Envs (mr_Moments s 0) 0);
  qr_finalize : quiet (rm_QueryNow (mr_Moments s 0)) (rm_Envs (mr_Moments s 1) 0);
  qr_lease : rv_Now (rm_Envs (mr_Moments s 1) 0) < rv_Now (rm_Envs (mr_Moments s 0) 0) + lease
}.

Definition delete_object (key : string) (o : objects) : bool * objects := (true, o ∖ {[key]}).

(** An undisturbed worker makes progress: whenever the tables hold a source
    that is due, one [ProcessNext] of a configured worker deletes an object and
    then the rows of its job, its attempts and its source, which completed at
    least the retention period ago, and reports no error. *)
Lemma retention_deletes_due_source config worker s o j job a :
  NewSourceRetentionWorker config = Some worker → sc_Retention worker `mod` 1000 = 0 →
  identified (mr_DB s) → quiet_run (sc_ClaimLease worker) s →
  jobs (rd_Store (mr_DB s)) !! j = Some job →
  retention_row (sc_Retention worker) (rm_QueryNow (mr_Moments s 0)) (mr_DB s) (j, job) = Some a →
  ∃ j' job' source s', jobs (rd_Store (mr_DB s)) !! j' = Some job' ∧
    retired_job (sc_Retention worker) (rm_QueryNow (mr_Moments s 0)) job' ∧
    sources (rd_Store (mr_DB s)) !! jb_Source job' = Some source ∧
    retention_ProcessNext worker delete_object s o = (None, s', o ∖ {[sr_ObjectKey source]}) ∧
    jobs (rd_Store (mr_DB s')) = delete j' (jobs (rd_Store (mr_DB s))) ∧
    sources (rd_Store (mr_DB s')) = delete (jb_Source job') (sources (rd_Store (mr_DB s))) ∧
    rd_Marks (mr_DB s') !! jb_Source job' = None.
Proof.
  intros Hcfg Hmod Hid [Hoth Hq Hclaim Hfin Hlease] Hj Hrow.
  unfold NewSourceRetentionWorker in Hcfg. cbv zeta in Hcfg. destruct (_ || _) eqn:Hb; [done|]. injection Hcfg as Hcfg.
  assert (Hbounds : (sc_Retention worker <=? 0) || (365 * 24 * hour <? sc_Retention worker) ||
                    (sc_ClaimLease worker <=? 0) || (15 * minute <? sc_ClaimLease worker) = false).
  { rewrite <-Hcfg. simpl in *. bool_to_prop. unfold hour, minute, second in *.
    rewrite !orb_false_iff, !Z.leb_gt, !Z.ltb_ge. lia. }
  clear Hcfg Hb config. pose proof (sourceRetentionCandidates_some _ 32 _ _ _ _ _ ltac:(lia) Hj Hrow) as Hne.
  destruct (sourceRetentionCandidates _ _ _ _) as [|claim rest] eqn:Hcand; [done|].
  destruct (sourceRetentionCandidates_elem (sc_Retention worker) 32 (rm_QueryNow (mr_Moments s 0)) (mr_DB s) claim)
    as (j' & job' & c' & Hj' & Hrow'); [rewrite Hcand; left|].
  destruct (claim_quiet _ (sc_ClaimLease worker) _ _ _ _ _ _ _ Hmod Hid Hclaim Hj' Hrow') as (token & rd' & Hlen & Hc & Est).
  pose proof (finalize_quiet _ _ _ _ _ _ _ _ _ _ _ _ Hid Hfin Hj' Hrow' Hlen Hc Hlease) as Hf.
  pose proof (proj1 (retention_row_some _ _ _ _ _ _ _) Hrow') as (source & Hs & _ & Hcomp & Hterm & Hle & _ & _ & Eclaim).
  unfold retention_ProcessNext. cbn [repo_ClaimSourceRetention mysql_source_retention]. unfold mysql_ClaimSourceRetention, ClaimSourceRetention.
  cbv zeta. rewrite Hbounds, Hq. destruct (Hoth (mr_DB s)) as (Ho1 & Ho2 & _). rewrite Ho1, Hcand. cbn [claim_candidates]. cbv zeta.
  rewrite Ho2, Hc. cbn [repo_FinalizeSourceRetention mysql_source_retention delete_object]. unfold mysql_retention_call. cbv zeta. cbn [mr_DB mr_Moments].
  rewrite (proj2 (proj2 (Hoth rd'))), Hf. exists j', job', source. eexists. split; [done|]. split.
  { split; [done|]. exists c'. split; [done|]. assert (sc_Retention worker / 1000 * 1000 = sc_Retention worker) by (Z.div_mod_to_equations; lia). lia. }
  split; [done|]. subst claim. split; [reflexivity|]. simpl. rewrite Est. split_and!; [done..|]. apply lookup_delete_eq.
Qed.

(** ** Expiry of idempotency records *)
Lemma sorted_take_drop {A} (R : A → A → Prop) n (l : list A) x y :
  StronglySorted R l → x ∈ take n l → y ∈ drop n l → R x y.
Proof.
  intros Hs Hx Hy. rewrite <-(take_drop n l) in Hs. revert Hs Hx. induction (take n l) as [|z l' IH]; [by intros _ ?%not_elem_of_nil|].
  intros [Hs Hall]%StronglySorted_inv [->|Hx]%elem_of_cons; [|by apply IH].
  rewrite Forall_forall in Hall. apply Hall, elem_of_app. by right.
Qed.

Definition expired_unlocked (locked : gset (Z * string)) (now : Z) (i : Z * string) (r : idempotency_row) : Prop :=
  ik_ExpiresAt r ≤ now ∧ i ∉ locked.

Lemma expired_records_elem recordID others locked now d e i :
  (e, Some i) ∈ expired_records recordID others locked now d ↔
  ∃ r, idempotency d !! i = Some r ∧ expired_unlocked locked now i r ∧ e = (ik_ExpiresAt r, recordID i).
Proof.
  unfold expired_records. rewrite elem_of_app, !list_elem_of_fmap. split.
  - intros [([i' r] & [= -> ->] & Hin)|(b & [= ] & _)].
    apply elem_of_map_to_list, map_lookup_filter_Some in Hin as [Hr Hex]. by exists r.
  - intros (r & Hr & Hex & ->). left. exists (i, r). split; [done|]. by apply elem_of_map_to_list, map_lookup_filter_Some.
Qed.

(** A batch of the idempotency worker removes expired records only, the
    oldest first, and reports exactly how many it removed, records of bundles
    included: when it reports fewer than the batch no expired record is left
    that another transaction does not hold; when there is none it says so and
    changes nothing. *)
Lemma ExpireIdempotencyBatch_spec recordID others locked now batch d :
  1 ≤ batch ≤ 1000 →
  let expired := expired_records recordID others locked now d in
  match ExpireIdempotencyBatch recordID others locked now None batch d with
  | Ok (n, d') =>
      n = Z.min batch (Z.of_nat (length expired)) ∧ 0 < n ∧
      (∀ i r, idempotency d !! i = Some r → ik_ExpiresAt r ≤ now ∨ idempotency d' !! i = Some r) ∧
      (∀ i, idempotency d' !! i ≠ idempotency d !! i → ∃ r, idempotency d !! i = Some r ∧ idempotency d' !! i = None ∧
         expired_unlocked locked now i r ∧
         ∀ i' r', idempotency d' !! i' = Some r' → expired_unlocked locked now i' r' → ik_ExpiresAt r ≤ ik_ExpiresAt r') ∧
      (n < batch → ∀ i r, idempotency d' !! i = Some r → ¬ expired_unlocked locked now i r)
  | Err e => e = ErrIdempotencyRetentionNotAvailable ∧ expired = []
  end.
Proof.
  intros Hb. cbv zeta. unfold ExpireIdempotencyBatch. set (expired := expired_records _ _ _ _ _).
  unfold guard_err. rewrite !(proj2 (Z.leb_le _ _)) by lia. simpl.
  set (sorted := merge_sort expired_le expired). assert (Hperm : sorted ≡ₚ expired) by apply merge_sort_Permutation.
  assert (Hsorted : StronglySorted expired_le sorted) by (apply StronglySorted_merge_sort; apply _).
  destruct (length _ =? 0)%nat eqn:Hz.
  { split; [done|]. apply Nat.eqb_eq in Hz. rewrite length_take, Hperm in Hz. apply nil_length_inv. lia. }
  apply Nat.eqb_neq in Hz. rewrite length_take, Hperm in *. split; [lia|]. split; [lia|]. simpl.
  set (ids := take (Z.to_nat batch) sorted) in *. set (keys := omap snd ids).
  assert (Hkey : ∀ i, i ∈ keys → ∃ r, idempotency d !! i = Some r ∧ expired_unlocked locked now i r ∧ (ik_ExpiresAt r, recordID i, Some i) ∈ ids).
  { intros i ([e o] & Hin & Ho)%list_elem_of_omap. simpl in Ho. subst o. pose proof Hin as Hin'. apply list_elem_of_lookup in Hin as [k Hk].
    unfold ids in Hk. apply lookup_take_Some in Hk as [Hk _]. apply list_elem_of_lookup_2 in Hk. rewrite Hperm in Hk.
    apply expired_records_elem in Hk as (r & Hr & Hex & ->). by exists r. }
  assert (Hkept : ∀ i r, idempotency d !! i = Some r → i ∉ keys → expired_unlocked locked now i r →
    (ik_ExpiresAt r, recordID i, Some i) ∈ drop (Z.to_nat batch) sorted).
  { intros i r Hr Hni Hex. assert (Hin : (ik_ExpiresAt r, recordID i, Some i) ∈ sorted).
    { rewrite Hperm. apply expired_records_elem. by exists r. }
    rewrite <-(take_drop (Z.to_nat batch) sorted) in Hin. apply elem_of_app in Hin as [Hin|]; [|done].
    destruct Hni. apply list_elem_of_omap. by eexists. }
  assert (Hlook : ∀ i r, filter (λ p : (Z * string) * idempotency_row, p.1 ∉ keys) (idempotency d) !! i = Some r ↔
    idempotency d !! i = Some r ∧ i ∉ keys) by (intros i r; by rewrite map_lookup_filter_Some).
  split_and!.
  - intros i r Hr. destruct (decide (i ∈ keys)) as [(r' & Hr' & [? _] & _)%Hkey|Hn]; [left; congruence|right]. by apply Hlook.
  - intros i Hne. destruct (decide (i ∈ keys)) as [Hi|Hi].
    + pose proof (Hkey i Hi) as (r & Hr & Hex & Hin). exists r. split_and!; [done| |done|].
      * destruct (filter _ (idempotency d) !! i) eqn:E; [|done]. by apply Hlook in E as [_ ?].
      * intros i' r' [Hr' Hn']%Hlook Hex'. pose proof (sorted_take_drop _ _ _ _ _ Hsorted Hin (Hkept _ _ Hr' Hn' Hex')) as Hle.
        unfold expired_le in Hle. simpl in Hle. lia.
    + destruct Hne. apply option_eq. intros r. rewrite Hlook. tauto.
  - intros Hn i r [Hr Hi]%Hlook Hex. pose proof (Hkept _ _ Hr Hi Hex) as Hin. rewrite drop_ge in Hin; [by apply not_elem_of_nil in Hin|].
    rewrite Hperm. lia.
Qed.
