(* ===== verification/RetentionWitness.v ===== *)
(** * The theorems about retention, at a worked history

    A job is submitted, judged and delivered; a month later its idempotency
    record expires and two workers claim its source one after the other. *)
From stdpp Require Import prelude gmap strings sorting.
From S2P Require Import Prelude.
From S2P Require Import GoText.
From S2P Require Import JobState.
From S2P Require Import Manifest.
From S2P Require Import Store.
From S2P Require Import JobWorker.
From S2P Require Import JobRepository.
From S2P Require Import StoreInvariant.
From S2P Require Import StoreReach.
From S2P Require Import StoreProperties.
From S2P Require Import Idempotency.
From S2P Require Import StoreExample.
From S2P Require Import Submission.
From S2P Require Import SourceRetention.
From S2P Require Import RetentionWorker.
From S2P Require Import RetentionSafety.
From S2P Require Import RetentionProperties.
Import Example.

Open Scope Z_scope.

Module Retained.
Definition source_key : string := "external/" +:+ tenantID +:+ "/sources/" +:+ sourceID +:+ ".bin".

Definition submit : submission :=
  {| su_Tenant := tenantID; su_KeyDigest := "digest"; su_RequestHash := "hash"; su_Request := request;
     su_JobExternalID := jobID; su_SourceExternalID := sourceID;
     su_Encrypted := mkEncryptedSource "ciphertext" nonce 1 "sha" 12;
     su_Coordination := mkReservationClaim "external/coordination.bin" (token "k");
     su_Source := mkReservationClaim source_key (token "s") |}.

Definition store : db :=
  set_reservations (insert source_key (mkReservationRow (token "s") (now0 + hour) now0)) empty_store.

Definition the_submission := SubmitTx json_policy submit 4 5 now0 now0 day.
Definition after_submit : db := committed store (the_submission store).
Definition after_claim : db := match claim_tx after_submit with ClaimCommitted _ d => d | _ => after_submit end.
Definition its_claim : WorkerJobClaim :=
  match claim_tx after_submit with ClaimCommitted (Claimed c) _ => c | _ => the_claim end.
Definition completion := CompleteTx json_payload window its_claim accepted done_time done_time [eventID].
Definition after_complete : db := committed after_claim (completion after_claim).

Definition config : SourceRetentionWorkerConfig := mkRetentionConfig 0 0 0 0 0.
Definition worker : SourceRetentionWorkerConfig := mkRetentionConfig (30 * 24 * hour) minute (30 * second) (2 * minute) minute.
Abbreviation rstep := (rsys_step json_policy json_manifest json_payload sql_policy_int window worker).

(** Thirty-one days later. *)
Definition late : Z := done_time + 31 * day.
Definition delivered : db := set_outbox (λ _, ∅) after_complete.
Definition expiry := ExpireIdempotencyBatch (λ _, 1) [] ∅ late None 100.
Definition expired : db := match expiry delivered with Ok (_, d) => d | Err _ => delivered end.

Definition renv (now : Z) (t : string) : retention_env := mkRetentionEnv now now ∅ ∅ ∅ (Some t) None.
Definition candidate : SourceRetentionClaim := mkRetentionClaim 1 5 4 jobID sourceID source_key "".
Definition claiming (now : Z) (t : string) (rd : retention_db) :=
  claimSourceRetentionCandidate (sc_Retention worker) (sc_ClaimLease worker) (renv now t) candidate rd.
Definition claimed_rd {A} (rd : retention_db) (r : result retention_error (A * retention_db)) : retention_db :=
  match r with Ok (_, rd) => rd | Err _ => rd end.
Definition the_retention_claim (t : string) : SourceRetentionClaim := with_token t candidate.

Definition rd0 : retention_db := mkRetentionDb expired ∅ [].
Definition rd1 : retention_db := claimed_rd rd0 (claiming late (token "x") rd0).
Definition later : Z := late + 3 * minute.
Definition rd2 : retention_db := claimed_rd rd1 (claiming later (token "y") rd1).

Definition swept : gset Z := {[5]}.
Definition sys (now : Z) (rd : retention_db) (gone : gset string) (ws : gmap nat retention_phase) (keys : gset string) :=
  mkRetentionSystem now rd gone ws keys (λ _, 0) swept.

Lemma initial_ok : before_submissions store.
Proof.
  split; [done|]. split; [done|]. split; [done|]. intros t1 t2 r1 r2 H1 H2 _. simpl in H1, H2.
  apply lookup_singleton_Some in H1 as [<- _]. apply lookup_singleton_Some in H2 as [<- _]. done.
Qed.

Definition at_store (d : db) : retention_system := mkRetentionSystem now0 (mkRetentionDb d ∅ []) ∅ ∅ ∅ (λ _, 0) ∅.

Lemma submit_at s sourceID jobID lockNow ttl outcome d d' :
  SubmitTx json_policy s sourceID jobID lockNow now0 ttl d = Ok (outcome, d') → rstep (at_store d) (at_store d').
Proof. intros H. exact (rsys_submit _ _ _ _ _ _ (at_store d) _ _ _ _ _ _ _ H (not_elem_of_empty _)). Qed.

Lemma job_at d d' : job_step json_policy json_manifest json_payload sql_policy_int window d d' → rstep (at_store d) (at_store d').
Proof. intros H. exact (rsys_job _ _ _ _ _ _ (at_store d) _ H). Qed.

Lemma deliver_at d : rstep (at_store d)
  (mkRetentionSystem now0 (mkRetentionDb (set_outbox (λ _, ∅) d) ∅ []) ∅ ∅ ∅ (λ _, 0) (∅ ∪ (dom (outbox d) ∖ dom (∅ : gmap Z outbox_row)))).
Proof. apply (rsys_delivery _ _ _ _ _ _ (at_store d)). intros j row'. by rewrite lookup_empty. Qed.

Lemma reach_judged : rtc rstep (initial_retention now0 store) (at_store after_complete).
Proof.
  assert (H1 : ∃ a, the_submission store = Ok (a, after_submit)) by (apply committed_ok; vm_compute; reflexivity).
  assert (H2 : ∃ o, claim_tx after_submit = ClaimCommitted o after_claim) by (eexists; vm_compute; reflexivity).
  assert (H3 : ∃ u, completion after_claim = Ok (u, after_complete)) by (apply committed_ok; vm_compute; reflexivity).
  destruct H1 as [a H1], H2 as [o H2], H3 as [u H3].
  eapply rtc_l; [exact (submit_at _ _ _ _ _ _ _ _ H1)|].
  eapply rtc_l; [exact (job_at _ _ (step_claim_one _ _ _ _ _ _ _ _ _ _ _ H2))|].
  eapply rtc_l; [exact (job_at _ _ (step_complete_tx _ _ _ _ _ _ _ _ _ _ _ _ _ H3))|].
  constructor.
Qed.

Definition quiet_month : retention_system := sys late rd0 ∅ ∅ ∅.

Lemma month_at d d' n : expiry (set_outbox (λ _, ∅) d) = Ok (n, d') →
  rtc rstep (at_store d) (mkRetentionSystem late (mkRetentionDb d' ∅ []) ∅ ∅ ∅ (λ _, 0) (∅ ∪ (dom (outbox d) ∖ dom (∅ : gmap Z outbox_row)))).
Proof.
  intros H. unfold expiry in H. eapply rtc_l; [exact (deliver_at d)|].
  eapply rtc_l; [apply (rsys_tick _ _ _ _ _ _ _ late); vm_compute; discriminate|].
  eapply rtc_l; [eapply rsys_expire; unfold ry_DB; cbn [ry_Now ry_Data rd_Store]; exact H|].
  constructor.
Qed.

Lemma swept_set : ∅ ∪ (dom (outbox after_complete) ∖ dom (∅ : gmap Z outbox_row)) = swept.
Proof. vm_compute. reflexivity. Qed.

Lemma reach_month : rtc rstep (initial_retention now0 store) quiet_month.
Proof.
  transitivity (at_store after_complete); [exact reach_judged|].
  assert (H : ∃ n, expiry delivered = Ok (n, expired)) by (eexists; vm_compute; reflexivity). destruct H as [n H].
  pose proof (month_at after_complete expired n H) as Hm. rewrite swept_set in Hm. exact Hm.
Qed.

(** The first worker claims the source and deletes its object; three minutes
    later, its lease being over, the second claims it. *)
Definition first_claimed : retention_system := sys late rd1 ∅ {[0%nat := RetentionDelete (the_retention_claim (token "x"))]} {[source_key]}.
Definition first_deleted : retention_system :=
  sys late rd1 {[source_key]} {[0%nat := RetentionFinalize (the_retention_claim (token "x"))]} {[source_key]}.
Definition both : gmap nat retention_phase :=
  <[1%nat := RetentionDelete (the_retention_claim (token "y"))]> {[0%nat := RetentionFinalize (the_retention_claim (token "x"))]}.
Definition second_claimed : retention_system := sys later rd2 {[source_key]} both {[source_key]}.

Lemma claiming_first : claiming late (token "x") rd0 = Ok (the_retention_claim (token "x"), rd1).
Proof. vm_compute. reflexivity. Qed.

Lemma claiming_second : claiming later (token "y") rd1 = Ok (the_retention_claim (token "y"), rd2).
Proof. vm_compute. reflexivity. Qed.

Lemma rd1_tokens s m : rd_Marks rd1 !! s = Some m → sm_Token m = token "x".
Proof.
  assert (E : rd_Marks rd1 = {[4 := mkMark late (token "x") (late + 2 * minute) late 1 None]}) by (vm_compute; reflexivity).
  rewrite E. by intros [_ <-]%lookup_singleton_Some.
Qed.

Lemma claim_at now rd rd' t gone ws keys k :
  ws !! k = Some RetentionIdle → claiming now t rd = Ok (the_retention_claim t, rd') →
  (∀ s m, rd_Marks rd !! s = Some m → sm_Token m ≠ t) →
  (∀ k p c, ws !! k = Some p → phase_claim p = Some c → rn_DeleteToken c ≠ t) →
  rstep (sys now rd gone ws keys)
    (sys now rd' gone (<[k := RetentionDelete (the_retention_claim t)]> ws) ({[source_key]} ∪ keys)).
Proof.
  intros Hk Hc Hm Hw. refine (rsys_worker _ _ _ _ _ _ (sys now rd gone ws keys) k RetentionIdle _ _ Hk
    (retention_claim _ (sys now rd gone ws keys) (renv now t) candidate (the_retention_claim t) rd' _ Hc Hm Hw)).
  by split.
Qed.

Lemma start_at now rd gone ws keys k : ws !! k = None → rstep (sys now rd gone ws keys) (sys now rd gone (<[k := RetentionIdle]> ws) keys).
Proof. intros Hk. exact (rsys_start _ _ _ _ _ _ (sys now rd gone ws keys) k Hk). Qed.

Lemma tick_at now now' rd gone ws keys : now ≤ now' → rstep (sys now rd gone ws keys) (sys now' rd gone ws keys).
Proof. intros Hle. exact (rsys_tick _ _ _ _ _ _ (sys now rd gone ws keys) now' Hle). Qed.

Lemma delete_at now rd gone ws keys k t :
  ws !! k = Some (RetentionDelete (the_retention_claim t)) →
  rstep (sys now rd gone ws keys)
    (sys now rd ({[source_key]} ∪ gone) (<[k := RetentionFinalize (the_retention_claim t)]> ws) keys).
Proof.
  intros Hk. exact (rsys_worker _ _ _ _ _ _ (sys now rd gone ws keys) k _ _ _ Hk
    (retention_deleted _ (sys now rd gone ws keys) (the_retention_claim t))).
Qed.

Lemma reach_first : rtc rstep (initial_retention now0 store) first_deleted.
Proof.
  transitivity quiet_month; [exact reach_month|].
  eapply rtc_l; [exact (start_at late rd0 ∅ ∅ ∅ 0%nat eq_refl)|].
  eapply rtc_l; [apply (claim_at late rd0 rd1 (token "x") ∅ _ ∅ 0%nat); [by rewrite lookup_insert_eq|exact claiming_first|done|]|].
  { by intros k p c [[_ <-]|[_ ?]]%lookup_insert_Some. }
  rewrite insert_insert_eq.
  eapply rtc_l; [apply (delete_at late rd1 ∅ _ _ 0%nat (token "x")); by rewrite lookup_insert_eq|].
  rewrite insert_insert_eq, !right_id_L by apply _. constructor.
Qed.

Lemma reach_second : rtc rstep (initial_retention now0 store) second_claimed.
Proof.
  transitivity first_deleted; [exact reach_first|].
  eapply rtc_l; [apply (tick_at late later); vm_compute; discriminate|].
  eapply rtc_l; [exact (start_at later rd1 {[source_key]} {[0%nat := RetentionFinalize (the_retention_claim (token "x"))]} {[source_key]} 1%nat eq_refl)|].
  eapply rtc_l; [apply (claim_at later rd1 rd2 (token "y") {[source_key]} _ {[source_key]} 1%nat); [by rewrite lookup_insert_eq|exact claiming_second| |]|].
  { intros s m ->%rd1_tokens. done. }
  { intros k p c [[_ <-]|[_ [_ <-]%lookup_singleton_Some]]%lookup_insert_Some; [done|]. by intros [= <-]. }
  rewrite insert_insert_eq, union_idemp_L. constructor.
Qed.
End Retained.

Lemma retained_ledger_conserved_witness :
  dl_Consumed (ledger_row (daily (ry_DB Retained.second_claimed)) (1, today)) = 40 ∧
  dl_Consumed (ledger_row (daily (ry_DB Retained.second_claimed)) (1, today)) =
    consumed_by_attempts (ry_DB Retained.second_claimed) (1, today) + ry_Archived Retained.second_claimed (1, today).
Proof.
  split; [vm_compute; reflexivity|].
  exact (proj2 (retained_ledger_conserved _ _ _ _ _ _ _ _ _ 1 today Retained.initial_ok Retained.reach_second)).
Defined.

Lemma retention_spares_unfinished_jobs_witness :
  retired_job (sc_Retention Retained.worker) (ry_Now Retained.first_deleted)
    (default (queued_job 0 0 0 None submit 0) (jobs (ry_DB Retained.first_deleted) !! 5)).
Proof.
  assert (Hj : ∃ r, jobs (ry_DB Retained.first_deleted) !! 5 = Some r) by (eexists; vm_compute; reflexivity).
  assert (Hs : ∃ row, sources (ry_DB Retained.first_deleted) !! 4 = Some row ∧ sr_ObjectKey row = Retained.source_key).
  { eexists. split; vm_compute; reflexivity. }
  destruct Hj as [r Hj], Hs as (row & Hs & Hkey). rewrite Hj. simpl.
  apply (proj1 (retention_spares_unfinished_jobs _ _ _ _ _ _ _ _ _ Retained.initial_ok Retained.reach_first) 5 r row Hj).
  - assert (E : jb_Source <$> jobs (ry_DB Retained.first_deleted) !! 5 = Some 4) by (vm_compute; reflexivity).
    rewrite Hj in E. injection E as ->. exact Hs.
  - rewrite Hkey. exact (elem_of_singleton_2 (C:=gset string) _ _ eq_refl).
Defined.

Lemma retention_fence_exclusive_witness :
  ¬ can_settle (Retained.the_retention_claim (token "x")) Retained.second_claimed ∨
  ¬ can_settle (Retained.the_retention_claim (token "y")) Retained.second_claimed.
Proof.
  destruct (retention_fence_exclusive json_policy json_manifest json_payload sql_policy_int window Retained.worker now0
    Retained.store Retained.second_claimed 0 1 _ _ (Retained.the_retention_claim (token "x"))
    (Retained.the_retention_claim (token "y")) Retained.initial_ok Retained.reach_second eq_refl eq_refl eq_refl eq_refl eq_refl)
    as [H _].
  left. intros Hx. assert (Hy : can_settle (Retained.the_retention_claim (token "y")) Retained.second_claimed).
  { left. assert (∃ rd, FinalizeSourceRetention (Retained.renv Retained.later (token "z"))
      (Retained.the_retention_claim (token "y")) Retained.rd2 = Ok rd) as [rd Hrd] by (eexists; vm_compute; reflexivity).
    by exists (Retained.renv Retained.later (token "z")), rd. }
  by specialize (H Hx Hy).
Defined.

Lemma live_records_name_readable_jobs_witness :
  ∃ tenant job, tenants (ry_DB (Retained.at_store Retained.after_complete)) !! 1 = Some tenant ∧
    getExternalJob (ry_DB (Retained.at_store Retained.after_complete)) (tn_ExternalID tenant) jobID = Ok job ∧
    ej_ExternalID job = jobID ∧ ej_TenantExternalID job = tn_ExternalID tenant.
Proof.
  assert (Hr : ∃ record, idempotency Retained.after_complete !! (1, "digest") = Some record ∧
    ik_ResourceExternalID record = jobID ∧ now0 < ik_ExpiresAt record).
  { eexists. split; [vm_compute; reflexivity|]. split; vm_compute; reflexivity. }
  destruct Hr as (record & Hr & <- & He).
  exact (live_records_name_readable_jobs _ _ _ _ _ _ _ _ _ 1 "digest" record Retained.initial_ok Retained.reach_judged Hr He).
Defined.

Module Progress.
Definition moment (now : Z) : retention_moment :=
  mkRetentionMoment (λ rd, rd) now None (λ _, Retained.renv now (token "x")) (λ _ rd, rd).
Definition session : mysql_retention := mkMysqlRetention Retained.rd0 (λ i, moment (Retained.late + Z.of_nat i * second)).

Lemma quiet_renv now now' t : now ≤ now' → len t = 32 → quiet now (Retained.renv now' t).
Proof. intros Hle Ht. split; simpl; [done|done| |done]. by exists t. Qed.

Lemma session_quiet : quiet_run (sc_ClaimLease Retained.worker) session.
Proof.
  split; [done|done| | |]; [apply quiet_renv; [vm_compute; discriminate|vm_compute; reflexivity]..|vm_compute; reflexivity].
Qed.

Lemma session_identified : identified (mr_DB session).
Proof.
  assert (Ej : ∃ job, jobs (rd_Store (mr_DB session)) = {[5 := job]} ∧ jb_Tenant job = 1 ∧ jb_Source job = 4 ∧ jb_ExternalID job = jobID).
  { eexists. split; [vm_compute; reflexivity|]. done. }
  assert (Es : ∃ source, sources (rd_Store (mr_DB session)) !! 4 = Some source ∧ sr_ExternalID source = sourceID ∧ sr_ObjectKey source = Retained.source_key).
  { eexists. split; [vm_compute; reflexivity|]. done. }
  destruct Ej as (job & Ej & E1 & E2 & E3), Es as (source & Es & E4 & E5).
  intros j job'. rewrite Ej. intros [<- <-]%lookup_singleton_Some. rewrite E1, E2, E3.
  split_and!; [eexists; vm_compute; reflexivity|lia..|vm_compute; reflexivity| |done].
  intros source' Hs. rewrite Es in Hs. injection Hs as <-. rewrite E4, E5. split; vm_compute; reflexivity.
Qed.
End Progress.

Lemma retention_deletes_due_source_witness :
  ∃ j' job' source s', jobs (rd_Store (mr_DB Progress.session)) !! j' = Some job' ∧
    retired_job (sc_Retention Retained.worker) Retained.late job' ∧
    sources (rd_Store (mr_DB Progress.session)) !! jb_Source job' = Some source ∧
    retention_ProcessNext Retained.worker delete_object Progress.session {[Retained.source_key]} =
      (None, s', {[Retained.source_key]} ∖ {[sr_ObjectKey source]}) ∧
    jobs (rd_Store (mr_DB s')) = delete j' (jobs (rd_Store (mr_DB Progress.session))) ∧
    sources (rd_Store (mr_DB s')) = delete (jb_Source job') (sources (rd_Store (mr_DB Progress.session))) ∧
    rd_Marks (mr_DB s') !! jb_Source job' = None.
Proof.
  assert (Hdue : match jobs (rd_Store (mr_DB Progress.session)) !! 5 with
    | Some job => is_some (retention_row (sc_Retention Retained.worker) Retained.late (mr_DB Progress.session) (5, job))
    | None => false end = true) by (vm_compute; reflexivity).
  destruct (jobs (rd_Store (mr_DB Progress.session)) !! 5) as [job|] eqn:Hj; [|done].
  destruct (retention_row _ _ _ _) as [a|] eqn:Ha; [|done].
  assert (Hcfg : NewSourceRetentionWorker Retained.config = Some Retained.worker) by (vm_compute; reflexivity).
  assert (Hmod : sc_Retention Retained.worker `mod` 1000 = 0) by (vm_compute; reflexivity).
  assert (Hnow : rm_QueryNow (mr_Moments Progress.session 0) = Retained.late) by (vm_compute; reflexivity).
  rewrite <-Hnow in Ha |- *.
  exact (retention_deletes_due_source Retained.config Retained.worker Progress.session {[Retained.source_key]} 5 job a
    Hcfg Hmod Progress.session_identified Progress.session_quiet Hj Ha).
Defined.

Lemma ExpireIdempotencyBatch_spec_witness :
  ∃ n d', ExpireIdempotencyBatch (λ _, 1) [] ∅ Retained.late None 100 Retained.delivered = Ok (n, d') ∧ n = 1 ∧
    (n < 100 → ∀ i r, idempotency d' !! i = Some r → ¬ expired_unlocked ∅ Retained.late i r).
Proof.
  pose proof (ExpireIdempotencyBatch_spec (λ _, 1) [] ∅ Retained.late 100 Retained.delivered ltac:(lia)) as H. cbv zeta in H.
  assert (Hn : match ExpireIdempotencyBatch (λ _, 1) [] ∅ Retained.late None 100 Retained.delivered with
               | Ok (n, _) => n = 1 | Err _ => False end) by (vm_compute; reflexivity).
  destruct (ExpireIdempotencyBatch _ _ _ _ _ _ _) as [[n d']|e]; [|done].
  exists n, d'. split; [done|]. split; [done|]. apply H.
Defined.
