(* ===== verification/Webhook.v ===== *)
(** * The webhook outbox, [internal/external/mysql_webhook_outbox.go]

    The rows of [t_external_webhook_outbox] with the tenants and callbacks they
    join, the claim, settlement and retention transactions of
    [MySQLWebhookOutboxRepository], and the transition system they form with the
    other writers of the tables.

    As in [JobWorker], a transaction is one function: [locked] gives the rows
    other transactions hold, the clock readings are arguments, and the rounding
    of a value stored in a [DATETIME(3)] column is the parameter [datetime3]. *)
From stdpp Require Import prelude gmap strings sorting.
From S2P Require Import Prelude.
From S2P Require Import GoText.
From S2P Require Import JobState.
From S2P Require Import Store.
From S2P Require Import JobWorker.

Open Scope Z_scope.

(** ** Dispositions, error codes and settlements *)
Inductive WebhookDisposition : Type :=
| WebhookDelivered
| WebhookRetry
| WebhookPermanentFailure
| WebhookDispositionUnknown (raw : string).

#[export] Instance WebhookDisposition_eq_dec : EqDecision WebhookDisposition.
Proof. solve_decision. Defined.

Definition WebhookErrorConfiguration : string := "configuration".
Definition WebhookErrorCallbackDecrypt : string := "callback_decrypt".
Definition WebhookErrorHTTPPermanent : string := "http_permanent".
Definition WebhookErrorHTTPRetryable : string := "http_retryable".
Definition WebhookErrorInvalidDelivery : string := "invalid_delivery".
Definition WebhookErrorNetwork : string := "network".
Definition WebhookErrorUnsafeDestination : string := "unsafe_destination".
Definition WebhookErrorDeliveryExpired : string := "delivery_expired".

Definition maximumWebhookRetryAfter : Z := 15 * minute.

Record WebhookSettlement : Type := mkSettlement {
  ws_Disposition : WebhookDisposition;
  ws_HTTPStatus : Z;
  ws_ErrorCode : string;
  ws_RetryAt : Z;
  ws_RetryDelay : Z
}.

Definition retryableWebhookHTTPStatus (status : Z) : bool :=
  (status =? 408) || (status =? 425) || (status =? 429) || ((500 <=? status) && (status <=? 599)).

Definition permanentWebhookHTTPStatus (status : Z) : bool :=
  (300 <=? status) && (status <=? 499) && negb (retryableWebhookHTTPStatus status).

Definition validWebhookSettlement (settlement : WebhookSettlement) : bool :=
  let status := ws_HTTPStatus settlement in
  let code := ws_ErrorCode settlement in
  if negb ((status =? 0) || ((100 <=? status) && (status <=? 599))) then false
  else
    match ws_Disposition settlement with
    | WebhookDelivered =>
        (200 <=? status) && (status <=? 299) && bool_decide (code = "") &&
        (ws_RetryAt settlement =? zero_time) && (ws_RetryDelay settlement =? 0)
    | WebhookRetry =>
        if ws_RetryDelay settlement <? 0 then false
        else
          let hasAbsolute := negb (ws_RetryAt settlement =? zero_time) in
          let hasDelay := (0 <? ws_RetryDelay settlement) && (ws_RetryDelay settlement <=? maximumWebhookRetryAfter) in
          xorb hasAbsolute hasDelay &&
          ((bool_decide (code = WebhookErrorNetwork) && (status =? 0)) ||
           (bool_decide (code = WebhookErrorHTTPRetryable) && retryableWebhookHTTPStatus status))
    | WebhookPermanentFailure =>
        if negb (ws_RetryAt settlement =? zero_time) || negb (ws_RetryDelay settlement =? 0) then false
        else if bool_decide (code = WebhookErrorHTTPPermanent) then permanentWebhookHTTPStatus status
        else (status =? 0) &&
             (bool_decide (code = WebhookErrorUnsafeDestination) || bool_decide (code = WebhookErrorConfiguration) ||
              bool_decide (code = WebhookErrorInvalidDelivery) || bool_decide (code = WebhookErrorCallbackDecrypt) ||
              bool_decide (code = WebhookErrorDeliveryExpired))
    | WebhookDispositionUnknown _ => false
    end.

Definition nullableWebhookHTTPStatus (status : Z) : option Z := if status =? 0 then None else Some status.

(** ** Rows *)
Inductive WebhookStatus : Type :=
| WebhookRowPending
| WebhookRowDelivering
| WebhookRowDelivered
| WebhookRowDead.

#[export] Instance WebhookStatus_eq_dec : EqDecision WebhookStatus.
Proof. solve_decision. Defined.

Record webhook_row : Type := mkWebhookRow {
  wo_EventID : string;
  wo_EventType : string;
  wo_Tenant : Z;
  wo_Callback : Z;
  wo_Body : string;
  wo_Status : WebhookStatus;
  wo_AttemptCount : Z;
  wo_NextAttemptAt : Z;
  wo_WorkerID : option string;
  wo_LeaseToken : option string;
  wo_LeaseUntil : option Z;
  wo_HTTPStatus : option Z;
  wo_ErrorCode : option string;
  wo_ExpiresAt : Z;
  wo_DeliveredAt : option Z;
  wo_DeadAt : option Z
}.

#[export] Instance webhook_row_eq_dec : EqDecision webhook_row.
Proof. solve_decision. Defined.

Record EncryptedCallbackSecret : Type := mkEncryptedSecret {
  ec_Ciphertext : string;
  ec_Nonce : string;
  ec_KeyVersion : Z
}.

Record webhook_callback : Type := mkWebhookCallback {
  wb_ExternalID : string;
  wb_Tenant : Z;
  wb_DestinationURL : string;
  wb_AllowedHost : string;
  wb_AllowedPort : Z;
  wb_Secret : EncryptedCallbackSecret;
  wb_DisabledAt : option Z
}.

(** The tenants are [(external_id, status)]; [wd_NextID] is the
    [AUTO_INCREMENT] counter of the outbox. *)
Record webhook_db : Type := mkWebhookDB {
  wd_Tenants : gmap Z (string * string);
  wd_Callbacks : gmap Z webhook_callback;
  wd_Outbox : gmap Z webhook_row;
  wd_NextID : Z
}.

Definition set_webhooks (f : gmap Z webhook_row → gmap Z webhook_row) (d : webhook_db) : webhook_db :=
  mkWebhookDB (wd_Tenants d) (wd_Callbacks d) (f (wd_Outbox d)) (wd_NextID d).

Record WebhookClaim : Type := mkWebhookClaim {
  wk_OutboxID : Z;
  wk_EventID : string;
  wk_EventType : string;
  wk_TenantID : string;
  wk_CallbackID : string;
  wk_DestinationURL : string;
  wk_AllowedHost : string;
  wk_AllowedPort : Z;
  wk_Body : string;
  wk_AttemptCount : Z;
  wk_WorkerID : string;
  wk_LeaseToken : string;
  wk_LeaseUntil : Z;
  wk_ExpiresAt : Z;
  wk_Secret : EncryptedCallbackSecret
}.

(** [ErrWebhookUnavailable] is what [repositoryUnavailable] wraps, with the number
    of the MySQL error when there is one. *)
Inductive webhook_error : Type :=
| ErrWebhookNotAvailable
| ErrWebhookLeaseLost
| ErrWebhookSettlementInvalid
| ErrWebhookUnavailable (number : option Z).

#[export] Instance webhook_error_eq_dec : EqDecision webhook_error.
Proof. solve_decision. Defined.

Definition validWebhookClaim (claim : WebhookClaim) : bool :=
  (0 <? wk_OutboxID claim) && (0 <? wk_AttemptCount claim) && validWorkerID (wk_WorkerID claim) &&
  (len (wk_LeaseToken claim) =? 32).

(** ** Row updates *)

(** [status = 'DEAD']; the HTTP status is kept when [status] is [None]. *)
Definition dead_letter (http : option (option Z)) (code : string) (now : Z) (r : webhook_row) : webhook_row :=
  {| wo_EventID := wo_EventID r; wo_EventType := wo_EventType r; wo_Tenant := wo_Tenant r;
     wo_Callback := wo_Callback r; wo_Body := wo_Body r; wo_Status := WebhookRowDead;
     wo_AttemptCount := wo_AttemptCount r; wo_NextAttemptAt := wo_NextAttemptAt r;
     wo_WorkerID := None; wo_LeaseToken := None; wo_LeaseUntil := None;
     wo_HTTPStatus := default (wo_HTTPStatus r) http; wo_ErrorCode := Some code;
     wo_ExpiresAt := wo_ExpiresAt r; wo_DeliveredAt := wo_DeliveredAt r; wo_DeadAt := Some now |}.

Definition lease_webhook (workerID token : string) (leaseUntil : Z) (r : webhook_row) : webhook_row :=
  {| wo_EventID := wo_EventID r; wo_EventType := wo_EventType r; wo_Tenant := wo_Tenant r;
     wo_Callback := wo_Callback r; wo_Body := wo_Body r; wo_Status := WebhookRowDelivering;
     wo_AttemptCount := wo_AttemptCount r + 1; wo_NextAttemptAt := wo_NextAttemptAt r;
     wo_WorkerID := Some workerID; wo_LeaseToken := Some token; wo_LeaseUntil := Some leaseUntil;
     wo_HTTPStatus := wo_HTTPStatus r; wo_ErrorCode := wo_ErrorCode r;
     wo_ExpiresAt := wo_ExpiresAt r; wo_DeliveredAt := wo_DeliveredAt r; wo_DeadAt := wo_DeadAt r |}.

Definition deliver_webhook (http : option Z) (now : Z) (r : webhook_row) : webhook_row :=
  {| wo_EventID := wo_EventID r; wo_EventType := wo_EventType r; wo_Tenant := wo_Tenant r;
     wo_Callback := wo_Callback r; wo_Body := wo_Body r; wo_Status := WebhookRowDelivered;
     wo_AttemptCount := wo_AttemptCount r; wo_NextAttemptAt := wo_NextAttemptAt r;
     wo_WorkerID := None; wo_LeaseToken := None; wo_LeaseUntil := None;
     wo_HTTPStatus := http; wo_ErrorCode := None;
     wo_ExpiresAt := wo_ExpiresAt r; wo_DeliveredAt := Some now; wo_DeadAt := wo_DeadAt r |}.

Definition retry_webhook (retryAt : Z) (http : option Z) (code : string) (r : webhook_row) : webhook_row :=
  {| wo_EventID := wo_EventID r; wo_EventType := wo_EventType r; wo_Tenant := wo_Tenant r;
     wo_Callback := wo_Callback r; wo_Body := wo_Body r; wo_Status := WebhookRowPending;
     wo_AttemptCount := wo_AttemptCount r; wo_NextAttemptAt := retryAt;
     wo_WorkerID := None; wo_LeaseToken := None; wo_LeaseUntil := None;
     wo_HTTPStatus := http; wo_ErrorCode := Some code;
     wo_ExpiresAt := wo_ExpiresAt r; wo_DeliveredAt := wo_DeliveredAt r; wo_DeadAt := wo_DeadAt r |}.

(** ** Claims *)
Definition webhook_claimable (now : Z) (r : webhook_row) : bool :=
  match wo_Status r with
  | WebhookRowPending => wo_NextAttemptAt r <=? now
  | WebhookRowDelivering => match wo_LeaseUntil r with Some t => t <=? now | None => false end
  | _ => false
  end.

(** The [CASE] expression of the query, on claimable rows: a delivering one has
    a lease. *)
Definition webhook_due (r : webhook_row) : Z :=
  match wo_Status r with
  | WebhookRowDelivering => default 0 (wo_LeaseUntil r)
  | _ => wo_NextAttemptAt r
  end.

Definition webhook_earlier (a b : Z * webhook_row) : bool :=
  (webhook_due a.2 <? webhook_due b.2) || ((webhook_due a.2 =? webhook_due b.2) && (a.1 <? b.1)).

(** The [ORDER BY] of the query. *)
Definition webhook_before (a b : Z * webhook_row) : bool :=
  if negb (webhook_due a.2 =? webhook_due b.2) then webhook_due a.2 <? webhook_due b.2
  else if negb (wo_Tenant a.2 =? wo_Tenant b.2) then wo_Tenant a.2 <? wo_Tenant b.2
  else a.1 <? b.1.

Definition webhook_join (d : webhook_db) (r : webhook_row) : option ((string * string) * webhook_callback) :=
  tenant ← wd_Tenants d !! wo_Tenant r;
  callback ← wd_Callbacks d !! wo_Callback r;
  if wb_Tenant callback =? wo_Tenant r then Some (tenant, callback) else None.

Definition webhook_candidate (d : webhook_db) (now : Z) (locked : gset Z) (p : Z * webhook_row) : bool :=
  webhook_claimable now p.2 && is_some (webhook_join d p.2) && negb (bool_decide (p.1 ∈ locked)) &&
  negb (existsb (λ e, (wo_Tenant e.2 =? wo_Tenant p.2) && webhook_claimable now e.2 && webhook_earlier e p)
          (map_to_list (wd_Outbox d))).

Definition select_webhook (d : webhook_db) (now : Z) (locked : gset Z) : option (Z * webhook_row) :=
  first_by webhook_before (filter (λ p, webhook_candidate d now locked p = true) (map_to_list (wd_Outbox d))).

Definition callbackSecretNonceBytes : Z := 12.

(** [deadCode]: why the selected row cannot be delivered. *)
Definition webhook_dead_code (maximumAttempts leaseNow : Z) (tenantStatus : string) (callback : webhook_callback)
    (r : webhook_row) : option string :=
  let version := ec_KeyVersion (wb_Secret callback) in
  let port := wb_AllowedPort callback in
  if negb (bool_decide (tenantStatus = "ACTIVE")) then Some "tenant_disabled"
  else if is_some (wb_DisabledAt callback) then Some "callback_disabled"
  else if wo_ExpiresAt r <=? leaseNow then Some "delivery_expired"
  else if maximumAttempts <=? wo_AttemptCount r then Some "attempts_exhausted"
  else if (port =? 0) || (65535 <? port) || (version =? 0) || (65535 <? version) ||
          (len (ec_Ciphertext (wb_Secret callback)) <=? 16) ||
          negb (len (ec_Nonce (wb_Secret callback)) =? callbackSecretNonceBytes) then Some "callback_invalid"
  else None.

(** A failed database call: the MySQL error number, if the server sent one. *)
Definition webhook_failure : Type := option Z.

Inductive webhook_claim_outcome : Type :=
| WebhookClaimed (claim : WebhookClaim)
| WebhookMaintained.

(** One execution of [claimWebhook]: its two clock readings, the rows locked by
    others, the token read from the random source ([None] when it fails), and the
    failure of a database call, if any: the transaction is then rolled back. *)
Record webhook_env : Type := mkWebhookEnv {
  we_Now : Z;
  we_LeaseNow : Z;
  we_Locked : gset Z;
  we_Token : option string;
  we_Failure : option webhook_failure
}.

Section Outbox.
Context (datetime3 : Z → Z).

(** [UPDATE t_external_webhook_outbox ... WHERE id = ?] *)
Definition update_webhook (id : Z) (set : webhook_row → webhook_row) (d : webhook_db) : bool * webhook_db :=
  match wd_Outbox d !! id with
  | Some r => (negb (bool_decide (set r = r)), set_webhooks (insert id (set r)) d)
  | None => (false, d)
  end.

Definition claimWebhook (maximumAttempts : Z) (workerID : string) (leaseDuration : Z) (env : webhook_env)
    (d : webhook_db) : result webhook_error (webhook_claim_outcome * webhook_db) :=
  match we_Failure env, select_webhook d (we_Now env) (we_Locked env) with
  | Some number, _ => Err (ErrWebhookUnavailable number)
  | None, None => Err ErrWebhookNotAvailable
  | None, Some (id, r) =>
      match webhook_join d r with
      | None => Err ErrWebhookNotAvailable
      | Some ((tenantID, tenantStatus), callback) =>
          let leaseNow := we_LeaseNow env in
          match webhook_dead_code maximumAttempts leaseNow tenantStatus callback r with
          | Some code => Ok (WebhookMaintained, (update_webhook id (dead_letter None code (datetime3 leaseNow)) d).2)
          | None =>
              match we_Token env with
              | None => Err (ErrWebhookUnavailable None)
              | Some token =>
                  let leaseUntil := leaseNow + leaseDuration in
                  let '(affected, d') := update_webhook id (lease_webhook workerID token (datetime3 leaseUntil)) d in
                  if negb affected then Err ErrWebhookNotAvailable
                  else
                    Ok (WebhookClaimed
                          {| wk_OutboxID := id; wk_EventID := wo_EventID r; wk_EventType := wo_EventType r;
                             wk_TenantID := tenantID; wk_CallbackID := wb_ExternalID callback;
                             wk_DestinationURL := wb_DestinationURL callback;
                             wk_AllowedHost := wb_AllowedHost callback; wk_AllowedPort := wb_AllowedPort callback;
                             wk_Body := wo_Body r; wk_AttemptCount := wo_AttemptCount r + 1;
                             wk_WorkerID := workerID; wk_LeaseToken := token; wk_LeaseUntil := leaseUntil;
                             wk_ExpiresAt := wo_ExpiresAt r; wk_Secret := wb_Secret callback |}, d')
              end
          end
      end
  end.

(** The loop of [ClaimNextWebhook]; [envs] and [others] give, per round, its
    environment and what other transactions commit before it. *)
Fixpoint claim_webhook_rounds (maximumAttempts : Z) (workerID : string) (leaseDuration : Z) (budget : nat)
    (envs : nat → webhook_env) (others : nat → webhook_db → webhook_db) (d : webhook_db) :
    result webhook_error WebhookClaim * webhook_db :=
  match budget with
  | O => (Err ErrWebhookNotAvailable, d)
  | S budget =>
      let d := others O d in
      match claimWebhook maximumAttempts workerID leaseDuration (envs O) d with
      | Err e => (Err e, d)
      | Ok (WebhookClaimed claim, d') => (Ok claim, d')
      | Ok (WebhookMaintained, d') =>
          claim_webhook_rounds maximumAttempts workerID leaseDuration budget (λ i, envs (S i)) (λ i, others (S i)) d'
      end
  end.

Definition maintenanceBudget : nat := 64.

Definition ClaimNextWebhook (maximumAttempts : Z) (workerID : string) (leaseDuration : Z)
    (envs : nat → webhook_env) (others : nat → webhook_db → webhook_db) (d : webhook_db) :
    result webhook_error WebhookClaim * webhook_db :=
  if negb (validWorkerID workerID) || (leaseDuration <=? 0) || (15 * minute <? leaseDuration)
  then (Err ErrWebhookSettlementInvalid, d)
  else claim_webhook_rounds maximumAttempts workerID leaseDuration maintenanceBudget envs others d.

(** ** Settlements *)
Definition owns_webhook (claim : WebhookClaim) (now : Z) (r : webhook_row) : bool :=
  bool_decide (wo_Status r = WebhookRowDelivering) && (wo_AttemptCount r =? wk_AttemptCount claim) &&
  bool_decide (wo_WorkerID r = Some (wk_WorkerID claim)) &&
  bool_decide (wo_LeaseToken r = Some (wk_LeaseToken claim)) &&
  match wo_LeaseUntil r with Some t => now <? t | None => false end.

(** The row a settlement writes at [now]; an absolute [RetryAt] may be refused. *)
Definition settled_webhook (maximumAttempts now : Z) (settlement : WebhookSettlement) (r : webhook_row) :
    option webhook_row :=
  let http := nullableWebhookHTTPStatus (ws_HTTPStatus settlement) in
  let code := ws_ErrorCode settlement in
  match ws_Disposition settlement with
  | WebhookDelivered => Some (deliver_webhook http (datetime3 now) r)
  | WebhookPermanentFailure => Some (dead_letter (Some http) code (datetime3 now) r)
  | WebhookRetry =>
      let absolute := ws_RetryAt settlement in
      if negb (0 <? ws_RetryDelay settlement) &&
         ((absolute <=? now) || (maximumWebhookRetryAfter <? absolute - now)) then None
      else
        let retryAt := if 0 <? ws_RetryDelay settlement then now + ws_RetryDelay settlement else absolute in
        if (maximumAttempts <=? wo_AttemptCount r) || (wo_ExpiresAt r <=? retryAt)
        then Some (dead_letter (Some http) code (datetime3 now) r)
        else Some (retry_webhook (datetime3 retryAt) http code r)
  | WebhookDispositionUnknown _ => Some r
  end.

Definition SettleWebhook (maximumAttempts now : Z) (claim : WebhookClaim) (settlement : WebhookSettlement)
    (d : webhook_db) : result webhook_error (unit * webhook_db) :=
  if negb (validWebhookClaim claim) || negb (validWebhookSettlement settlement) then Err ErrWebhookSettlementInvalid
  else
    match wd_Outbox d !! wk_OutboxID claim with
    | None => Err ErrWebhookLeaseLost
    | Some r =>
        if negb (owns_webhook claim now r) then Err ErrWebhookLeaseLost
        else
          match settled_webhook maximumAttempts now settlement r with
          | None => Err ErrWebhookSettlementInvalid
          | Some r' => Ok (tt, set_webhooks (insert (wk_OutboxID claim) r') d)
          end
    end.

(** ** Retention *)
Definition terminal_before (cutoff : Z) (r : webhook_row) : bool :=
  (bool_decide (wo_Status r = WebhookRowDelivered) &&
     match wo_DeliveredAt r with Some t => t <=? cutoff | None => false end) ||
  (bool_decide (wo_Status r = WebhookRowDead) &&
     match wo_DeadAt r with Some t => t <=? cutoff | None => false end).

Definition terminal_instant (r : webhook_row) : Z :=
  match wo_DeliveredAt r with Some t => t | None => default 0 (wo_DeadAt r) end.

Definition retention_order (a b : Z * webhook_row) : Prop :=
  terminal_instant a.2 < terminal_instant b.2 ∨
  (terminal_instant a.2 = terminal_instant b.2 ∧ a.1 ≤ b.1).

#[export] Instance retention_order_dec a b : Decision (retention_order a b).
Proof. unfold retention_order. apply _. Defined.

Definition sweep_ids (d : webhook_db) (cutoff : Z) (limit : nat) (locked : gset Z) : list Z :=
  fst <$> take limit (merge_sort retention_order
    (filter (λ p, terminal_before cutoff p.2 = true ∧ p.1 ∉ locked) (map_to_list (wd_Outbox d)))).

Definition delete_webhooks (ids : list Z) (d : webhook_db) : webhook_db :=
  foldl (λ d id, set_webhooks (delete id) d) d ids.

Definition SweepTerminal (retention limit now : Z) (locked : gset Z) (d : webhook_db) :
    result webhook_error (Z * webhook_db) :=
  if (retention <=? 0) || (365 * 24 * hour <? retention) || (limit <? 1) || (1000 <? limit)
  then Err ErrWebhookSettlementInvalid
  else
    let ids := sweep_ids d (now - retention) (Z.to_nat limit) locked in
    Ok (Z.of_nat (length ids), delete_webhooks ids d).
End Outbox.
