(* ===== verification/WebhookSafety.v ===== *)
(** * Safety and termination of webhook delivery

    The outbox as a transition system: the transactions of [Webhook], the
    insertion of terminal events by job settlements ([Store]) and changes of
    tenants and callbacks, in any order. A reachable outbox is well formed, an
    attempt is settled only by the claim that made it, every event is leased a
    bounded number of times, and the delivery steps run out.

    The second part is the order in which claims select webhooks. *)
From stdpp Require Import prelude gmap strings sorting.
From S2P Require Import Prelude.
From S2P Require Import JobState.
From S2P Require Import Store.
From S2P Require Import Webhook.

Open Scope Z_scope.

(** ** The transition system *)

(** The row that the [INSERT] of [insertTerminalWebhookEvent] adds. *)
Definition enqueued_webhook (o : outbox_row) : webhook_row :=
  {| wo_EventID := ob_EventID o; wo_EventType := ob_EventType o; wo_Tenant := ob_Tenant o;
     wo_Callback := ob_Callback o; wo_Body := ob_Body o; wo_Status := WebhookRowPending;
     wo_AttemptCount := ob_AttemptCount o; wo_NextAttemptAt := ob_NextAttemptAt o;
     wo_WorkerID := None; wo_LeaseToken := None; wo_LeaseUntil := None;
     wo_HTTPStatus := None; wo_ErrorCode := None; wo_ExpiresAt := ob_ExpiresAt o;
     wo_DeliveredAt := None; wo_DeadAt := None |}.

Section Outbox.
Context (datetime3 : Z → Z) (json_payload : terminalWebhookPayload → string) (window maximumAttempts : Z).

(** A job settlement creates the event [o]. *)
Definition event_created (o : outbox_row) : Prop :=
  ∃ now ids job eventID d d', insertTerminalWebhookEvent json_payload window now ids job d = Ok (eventID, d') ∧
    outbox d !! ej_InternalID job = None ∧ outbox d' !! ej_InternalID job = Some o.

Inductive webhook_label : Type :=
| LEnqueue (id : Z)
| LConfigure
| LClaim (claim : WebhookClaim)
| LMaintain
| LSettle (claim : WebhookClaim)
| LSweep.

Definition joined (d : webhook_db) : Prop :=
  ∀ id r, wd_Outbox d !! id = Some r → is_Some (webhook_join d r).

Inductive webhook_step : webhook_db → webhook_label → webhook_db → Prop :=
| step_enqueue d o :
    event_created o → is_Some (webhook_join d (enqueued_webhook o)) →
    webhook_step d (LEnqueue (wd_NextID d))
      (mkWebhookDB (wd_Tenants d) (wd_Callbacks d) (<[wd_NextID d := enqueued_webhook o]> (wd_Outbox d))
         (wd_NextID d + 1))
| step_configure d tenants callbacks :
    joined (mkWebhookDB tenants callbacks (wd_Outbox d) (wd_NextID d)) →
    webhook_step d LConfigure (mkWebhookDB tenants callbacks (wd_Outbox d) (wd_NextID d))
| step_claim d workerID leaseDuration env claim d' :
    claimWebhook datetime3 maximumAttempts workerID leaseDuration env d = Ok (WebhookClaimed claim, d') →
    webhook_step d (LClaim claim) d'
| step_maintain d workerID leaseDuration env d' :
    claimWebhook datetime3 maximumAttempts workerID leaseDuration env d = Ok (WebhookMaintained, d') →
    webhook_step d LMaintain d'
| step_settle d now claim settlement d' :
    SettleWebhook datetime3 maximumAttempts now claim settlement d = Ok (tt, d') →
    webhook_step d (LSettle claim) d'
| step_sweep d retention limit now locked n d' :
    SweepTerminal retention limit now locked d = Ok (n, d') →
    webhook_step d LSweep d'.

Inductive webhook_run : webhook_db → list webhook_label → webhook_db → Prop :=
| run_nil d : webhook_run d [] d
| run_cons d l d' ls d'' : webhook_step d l d' → webhook_run d' ls d'' → webhook_run d (l :: ls) d''.

(** ** What the transactions do *)
Lemma event_created_pending o : event_created o → ob_AttemptCount o = 0.
Proof.
  intros (now & ids & job & ev & d & d' & H & Hnone & Hsome). revert H. unfold insertTerminalWebhookEvent.
  destruct (jobs d !! _) as [row|]; [|done]. destruct (jb_Callback row); [|intros [= <- <-]; congruence].
  induction (take 8 ids) as [|id l IH]; simpl; [done|]. destruct (EncodeTerminalWebhookEvent _ _ _); [|done].
  rewrite Hnone. case_match; [done|]. intros [= <- <-]. simpl in Hsome. rewrite lookup_insert_eq in Hsome.
  by injection Hsome as <-.
Qed.

Lemma webhook_join_row d r r' :
  wo_Tenant r' = wo_Tenant r → wo_Callback r' = wo_Callback r → webhook_join d r' = webhook_join d r.
Proof. unfold webhook_join. by intros -> ->. Qed.

Lemma webhook_join_outbox d f r : webhook_join (set_webhooks f d) r = webhook_join d r.
Proof. done. Qed.

Lemma select_webhook_elem d now locked id r :
  select_webhook d now locked = Some (id, r) →
  wd_Outbox d !! id = Some r ∧ webhook_claimable now r = true ∧ id ∉ locked ∧ is_Some (webhook_join d r).
Proof.
  intros H%first_by_elem. apply list_elem_of_filter in H as [Hc Hin%elem_of_map_to_list].
  unfold webhook_candidate in Hc. simpl in Hc. bool_to_prop.
  repeat split; [done|done|done|by apply is_some_true].
Qed.

(** The row a claim found, and what it wrote. *)
Definition leased (id : Z) (claim : WebhookClaim) (r : webhook_row) : webhook_row :=
  lease_webhook (wk_WorkerID claim) (wk_LeaseToken claim) (datetime3 (wk_LeaseUntil claim)) r.

Lemma claimWebhook_claimed w lease env d claim d' :
  claimWebhook datetime3 maximumAttempts w lease env d = Ok (WebhookClaimed claim, d') →
  ∃ r, wd_Outbox d !! wk_OutboxID claim = Some r ∧ webhook_claimable (we_Now env) r = true ∧
    is_Some (webhook_join d r) ∧ wo_AttemptCount r < maximumAttempts ∧ we_LeaseNow env < wo_ExpiresAt r ∧
    wk_AttemptCount claim = wo_AttemptCount r + 1 ∧ wk_LeaseUntil claim = we_LeaseNow env + lease ∧
    wk_WorkerID claim = w ∧ we_Token env = Some (wk_LeaseToken claim) ∧
    d' = set_webhooks (insert (wk_OutboxID claim) (leased (wk_OutboxID claim) claim r)) d.
Proof.
  unfold claimWebhook. destruct (we_Failure env); [done|].
  destruct (select_webhook _ _ _) as [[id r]|] eqn:Hs; [|done].
  apply select_webhook_elem in Hs as (Hr & Hc & _ & Hj).
  destruct (webhook_join d r) as [[[tid ts] cb]|] eqn:Ej; [|done].
  destruct (webhook_dead_code _ _ _ _ _) eqn:Hdead; [done|]. destruct (we_Token env) as [token|] eqn:Et; [|done].
  unfold update_webhook. rewrite Hr. cbv zeta. case_match; [done|]. intros [= <- <-]. exists r.
  unfold webhook_dead_code in Hdead. cbv zeta in Hdead. repeat (case_match; try discriminate Hdead).
  bool_to_prop. simpl. repeat split; eauto.
Qed.

Lemma claimWebhook_maintained w lease env d d' :
  claimWebhook datetime3 maximumAttempts w lease env d = Ok (WebhookMaintained, d') →
  ∃ id r code, wd_Outbox d !! id = Some r ∧ webhook_claimable (we_Now env) r = true ∧
    d' = set_webhooks (insert id (dead_letter None code (datetime3 (we_LeaseNow env)) r)) d.
Proof.
  unfold claimWebhook. destruct (we_Failure env); [done|].
  destruct (select_webhook _ _ _) as [[id r]|] eqn:Hs; [|done].
  apply select_webhook_elem in Hs as (Hr & Hc & _ & _).
  destruct (webhook_join d r) as [[[tid ts] cb]|]; [|done].
  destruct (webhook_dead_code _ _ _ _ _) as [code|] eqn:Hdead.
  - unfold update_webhook. rewrite Hr. simpl. intros [= <-]. eauto 10.
  - destruct (we_Token env); [|done]. unfold update_webhook. rewrite Hr. simpl. by case_match.
Qed.

Lemma owns_webhook_true claim now r :
  owns_webhook claim now r = true →
  wo_Status r = WebhookRowDelivering ∧ wo_AttemptCount r = wk_AttemptCount claim ∧
  wo_WorkerID r = Some (wk_WorkerID claim) ∧ wo_LeaseToken r = Some (wk_LeaseToken claim) ∧
  ∃ t, wo_LeaseUntil r = Some t ∧ now < t.
Proof. unfold owns_webhook. intros H. bool_to_prop. case_match; bool_to_prop; [|done]. eauto 10. Qed.

(** A settlement ends the lease: the row is terminal, or pending with attempts
    left, and its attempt count is the one of the claim. *)
Definition settled_from (r r' : webhook_row) : Prop :=
  wo_Tenant r' = wo_Tenant r ∧ wo_Callback r' = wo_Callback r ∧ wo_EventID r' = wo_EventID r ∧
  wo_Body r' = wo_Body r ∧ wo_ExpiresAt r' = wo_ExpiresAt r ∧ wo_AttemptCount r' = wo_AttemptCount r ∧
  wo_WorkerID r' = None ∧ wo_LeaseToken r' = None ∧ wo_LeaseUntil r' = None ∧
  match wo_Status r' with
  | WebhookRowDelivering => False
  | WebhookRowPending => wo_AttemptCount r < maximumAttempts ∧ wo_DeliveredAt r' = wo_DeliveredAt r ∧
      wo_DeadAt r' = wo_DeadAt r
  | WebhookRowDelivered => is_Some (wo_DeliveredAt r') ∧ wo_DeadAt r' = wo_DeadAt r ∧ wo_ErrorCode r' = None ∧
      ∃ s, wo_HTTPStatus r' = Some s ∧ 200 ≤ s ≤ 299
  | WebhookRowDead => is_Some (wo_DeadAt r') ∧ wo_DeliveredAt r' = wo_DeliveredAt r ∧ is_Some (wo_ErrorCode r')
  end.

Lemma settled_webhook_ok now settlement r r' :
  validWebhookSettlement settlement = true → settled_webhook datetime3 maximumAttempts now settlement r = Some r' →
  settled_from r r'.
Proof.
  unfold validWebhookSettlement, settled_webhook, settled_from. cbv zeta. intros Hv.
  destruct (negb _) in Hv; [done|]. destruct (ws_Disposition settlement); [..|done].
  - intros [= <-]. simpl. bool_to_prop. unfold nullableWebhookHTTPStatus.
    destruct (Z.eqb_spec (ws_HTTPStatus settlement) 0); [lia|]. repeat split; eauto.
  - clear Hv. case_match; [done|]. case_match; intros [= <-]; simpl; bool_to_prop; eauto 20.
  - intros [= <-]. simpl. repeat split; eauto.
Qed.

Lemma SettleWebhook_ok now claim settlement d d' :
  SettleWebhook datetime3 maximumAttempts now claim settlement d = Ok (tt, d') →
  ∃ r r', wd_Outbox d !! wk_OutboxID claim = Some r ∧ owns_webhook claim now r = true ∧ settled_from r r' ∧
    0 < wk_AttemptCount claim ∧ d' = set_webhooks (insert (wk_OutboxID claim) r') d.
Proof.
  unfold SettleWebhook. destruct (negb _ || negb _) eqn:Hv; [done|].
  apply orb_false_iff in Hv as [Hc%negb_false_iff Hs%negb_false_iff].
  destruct (wd_Outbox d !! _) as [r|] eqn:Hr; [|done]. destruct (negb (owns_webhook _ _ _)) eqn:Ho; [done|].
  destruct (settled_webhook _ _ _ _ _) as [r'|] eqn:E; [|done]. intros [= <-].
  unfold validWebhookClaim in Hc. bool_to_prop. exists r, r'.
  split_and!; [done|done|by eapply settled_webhook_ok|done|done].
Qed.

(** ** Well-formed outboxes *)
Definition no_lease (r : webhook_row) : Prop :=
  wo_WorkerID r = None ∧ wo_LeaseToken r = None ∧ wo_LeaseUntil r = None.

Record webhook_row_ok (r : webhook_row) : Prop := {
  wr_attempts : 0 ≤ wo_AttemptCount r ≤ maximumAttempts;
  wr_status :
    match wo_Status r with
    | WebhookRowPending => no_lease r ∧ wo_DeliveredAt r = None ∧ wo_DeadAt r = None
    | WebhookRowDelivering => is_Some (wo_WorkerID r) ∧ is_Some (wo_LeaseToken r) ∧ is_Some (wo_LeaseUntil r) ∧
        0 < wo_AttemptCount r ∧ wo_DeliveredAt r = None ∧ wo_DeadAt r = None
    | WebhookRowDelivered => no_lease r ∧ 0 < wo_AttemptCount r ∧ is_Some (wo_DeliveredAt r) ∧ wo_DeadAt r = None ∧
        wo_ErrorCode r = None ∧ ∃ s, wo_HTTPStatus r = Some s ∧ 200 ≤ s ≤ 299
    | WebhookRowDead => no_lease r ∧ wo_DeliveredAt r = None ∧ is_Some (wo_DeadAt r) ∧ is_Some (wo_ErrorCode r)
    end
}.

Record webhooks_ok (d : webhook_db) : Prop := {
  wk_rows : ∀ id r, wd_Outbox d !! id = Some r → 0 < id < wd_NextID d ∧ webhook_row_ok r;
  wk_joined : joined d;
  wk_next : 0 < wd_NextID d
}.

Lemma claimable_open now r :
  webhook_claimable now r = true → wo_Status r = WebhookRowPending ∨ wo_Status r = WebhookRowDelivering.
Proof. unfold webhook_claimable. destruct (wo_Status r); naive_solver. Qed.

Lemma open_undelivered r :
  webhook_row_ok r → wo_Status r = WebhookRowPending ∨ wo_Status r = WebhookRowDelivering →
  wo_DeliveredAt r = None ∧ wo_DeadAt r = None.
Proof. intros [_ H] [E|E]; rewrite E in H; naive_solver. Qed.

Lemma enqueued_ok o : 0 ≤ maximumAttempts → event_created o → webhook_row_ok (enqueued_webhook o).
Proof. intros Hm H%event_created_pending. split; simpl; [lia|done]. Qed.

Lemma leased_ok id claim r :
  webhook_row_ok r → wo_AttemptCount r < maximumAttempts → wo_Status r = WebhookRowPending ∨ wo_Status r = WebhookRowDelivering →
  webhook_row_ok (leased id claim r).
Proof. intros Hok Hlt Ho. destruct (open_undelivered r Hok Ho), Hok. split; simpl; [lia|]. eauto 10 with lia. Qed.

Lemma dead_letter_ok http code now r :
  webhook_row_ok r → wo_Status r = WebhookRowPending ∨ wo_Status r = WebhookRowDelivering →
  webhook_row_ok (dead_letter http code now r).
Proof. intros Hok Ho. destruct (open_undelivered r Hok Ho), Hok. split; simpl; [lia|]. unfold no_lease; simpl. eauto 10. Qed.

Lemma settled_ok r r' :
  webhook_row_ok r → wo_Status r = WebhookRowDelivering → settled_from r r' → webhook_row_ok r'.
Proof.
  intros [Ha Hs] Hst (_ & _ & _ & _ & _ & Hcount & Hw & Ht & Hl & H). rewrite Hst in Hs.
  split; [lia|]. unfold no_lease. destruct (wo_Status r'); naive_solver congruence || naive_solver eauto with lia.
Qed.

Lemma webhooks_ok_insert d id r r' :
  webhooks_ok d → wd_Outbox d !! id = Some r → webhook_row_ok r' → wo_Tenant r' = wo_Tenant r →
  wo_Callback r' = wo_Callback r → webhooks_ok (set_webhooks (insert id r') d).
Proof.
  intros [Hrows Hj Hn] Hr Hok Ht Hc. split; [..|done].
  - intros i x. simpl. rewrite lookup_insert_Some. intros [[<- <-]|[_ Hi]]; [|by apply Hrows].
    split; [by apply (Hrows id r)|done].
  - intros i x. simpl. rewrite webhook_join_outbox, lookup_insert_Some. intros [[<- <-]|[_ Hi]]; [|by eapply Hj].
    rewrite (webhook_join_row d r) by done. by eapply Hj.
Qed.

Lemma delete_webhooks_lookup ids d id :
  wd_Outbox (delete_webhooks ids d) !! id = if decide (id ∈ ids) then None else wd_Outbox d !! id.
Proof.
  revert d. induction ids as [|i ids IH]; intros d; [done|].
  change (delete_webhooks (i :: ids) d) with (delete_webhooks ids (set_webhooks (delete i) d)). rewrite IH. simpl. destruct (decide (id ∈ ids)), (decide (id ∈ i :: ids)); [done|set_solver| |].
  - assert (id = i) as -> by set_solver. apply lookup_delete_eq.
  - rewrite lookup_delete_ne; [done|set_solver].
Qed.

Lemma delete_webhooks_frame ids d :
  wd_Tenants (delete_webhooks ids d) = wd_Tenants d ∧ wd_Callbacks (delete_webhooks ids d) = wd_Callbacks d ∧
  wd_NextID (delete_webhooks ids d) = wd_NextID d.
Proof. revert d. induction ids as [|i ids IH]; intros d; [done|]. apply (IH (set_webhooks (delete i) d)). Qed.

Lemma SweepTerminal_ok retention limit now locked d n d' :
  SweepTerminal retention limit now locked d = Ok (n, d') →
  ∃ ids, d' = delete_webhooks ids d ∧ ∀ id, id ∈ ids → ∃ r, wd_Outbox d !! id = Some r ∧
    terminal_before (now - retention) r = true.
Proof.
  unfold SweepTerminal. case_match; [done|]. intros [= <- <-]. eexists. split; [done|].
  unfold sweep_ids. intros id. rewrite list_elem_of_fmap. intros ([i r] & -> & Hi).
  apply elem_of_take in Hi as (k & Hi & _). apply list_elem_of_lookup_2 in Hi. rewrite merge_sort_Permutation in Hi.
  apply list_elem_of_filter in Hi as [[Ht _] Hi%elem_of_map_to_list]. eauto.
Qed.

Lemma webhook_step_ok d l d' : 0 ≤ maximumAttempts → webhooks_ok d → webhook_step d l d' → webhooks_ok d'.
Proof.
  intros Hm Hok. destruct 1 as [d o He Hj|d ts cbs Hj|d w lease env claim d' H|d w lease env d' H|d now claim s d' H
    |d ret limit now locked n d' H].
  - destruct Hok as [Hrows Hjs Hn]. split; simpl; [..|lia].
    + intros i x. rewrite lookup_insert_Some. intros [[<- <-]|[_ Hi]]; [|apply Hrows in Hi as [? ?]; split; [lia|done]].
      split; [lia|by apply enqueued_ok].
    + intros i x. simpl. rewrite lookup_insert_Some. intros [[<- <-]|[_ Hi]]; [done|by eapply Hjs].
  - destruct Hok as [Hrows _ Hn]. by split.
  - apply claimWebhook_claimed in H as (r & Hr & Hc%claimable_open & _ & Hlt & _ & _ & _ & _ & _ & ->).
    eapply webhooks_ok_insert; [done|done| |done|done]. apply leased_ok; [by eapply wk_rows|done|done].
  - apply claimWebhook_maintained in H as (id & r & code & Hr & Hc%claimable_open & ->).
    eapply webhooks_ok_insert; [done|done| |done|done]. apply dead_letter_ok; [by eapply wk_rows|done].
  - apply SettleWebhook_ok in H as (r & r' & Hr & (Hst & _)%owns_webhook_true & Hs & _ & ->).
    pose proof (settled_ok r r' (proj2 (wk_rows d Hok _ _ Hr)) Hst Hs) as Hr'.
    destruct Hs as (Ht & Hcb & _). by eapply webhooks_ok_insert.
  - apply SweepTerminal_ok in H as (ids & -> & _). destruct (delete_webhooks_frame ids d) as (Et & Ec & En).
    destruct Hok as [Hrows Hj Hn]. split; [..|by rewrite En].
    + intros i r. rewrite delete_webhooks_lookup, En. case_decide; [done|]. apply Hrows.
    + intros i r. rewrite delete_webhooks_lookup. case_decide; [done|]. intros Hi. unfold webhook_join.
      rewrite Et, Ec. by eapply Hj.
Qed.

Lemma webhook_run_ok d ls d' : 0 ≤ maximumAttempts → webhooks_ok d → webhook_run d ls d' → webhooks_ok d'.
Proof. intros Hm Hok H. induction H; eauto using webhook_step_ok. Qed.

(** What one step does to one row. *)
Inductive row_change (next id : Z) : webhook_label → option webhook_row → option webhook_row → Prop :=
| change_none l o : (∀ c, l = LClaim c → wk_OutboxID c ≠ id) → row_change next id l o o
| change_enqueue o : id = next → ob_AttemptCount o = 0 →
    row_change next id (LEnqueue id) None (Some (enqueued_webhook o))
| change_claim claim r : wk_OutboxID claim = id → wo_AttemptCount r < maximumAttempts →
    wk_AttemptCount claim = wo_AttemptCount r + 1 →
    wo_Status r = WebhookRowPending ∨ wo_Status r = WebhookRowDelivering →
    row_change next id (LClaim claim) (Some r) (Some (leased id claim r))
| change_dead r code now : wo_Status r = WebhookRowPending ∨ wo_Status r = WebhookRowDelivering →
    row_change next id LMaintain (Some r) (Some (dead_letter None code now r))
| change_settle claim r r' now : wk_OutboxID claim = id → owns_webhook claim now r = true → settled_from r r' →
    row_change next id (LSettle claim) (Some r) (Some r')
| change_sweep r : wo_Status r = WebhookRowDelivered ∨ wo_Status r = WebhookRowDead →
    row_change next id LSweep (Some r) None.

Lemma terminal_before_status cutoff r :
  terminal_before cutoff r = true → wo_Status r = WebhookRowDelivered ∨ wo_Status r = WebhookRowDead.
Proof. unfold terminal_before. rewrite orb_true_iff. intros [H|H]; bool_to_prop; auto. Qed.

Lemma webhook_step_change d l d' id :
  webhooks_ok d → webhook_step d l d' → row_change (wd_NextID d) id l (wd_Outbox d !! id) (wd_Outbox d' !! id).
Proof.
  intros Hok. destruct 1 as [d o He Hj|d ts cbs Hj|d w lease env claim d' H|d w lease env d' H|d now claim s d' H
    |d ret limit now locked n d' H]; simpl.
  - destruct (decide (id = wd_NextID d)) as [->|Hne].
    + rewrite lookup_insert_eq. destruct (wd_Outbox d !! wd_NextID d) eqn:E.
      { destruct (wk_rows d Hok _ _ E). lia. }
      constructor; [done|by apply event_created_pending].
    + rewrite lookup_insert_ne by done. by constructor.
  - by constructor.
  - apply claimWebhook_claimed in H as (r & Hr & Hc%claimable_open & _ & Hlt & _ & Hn & _ & _ & _ & ->). simpl.
    destruct (decide (id = wk_OutboxID claim)) as [->|Hne].
    + rewrite lookup_insert_eq, Hr. by constructor.
    + rewrite lookup_insert_ne by done. constructor. naive_solver.
  - apply claimWebhook_maintained in H as (i & r & code & Hr & Hc%claimable_open & ->). simpl.
    destruct (decide (id = i)) as [->|Hne].
    + rewrite lookup_insert_eq, Hr. by constructor.
    + rewrite lookup_insert_ne by done. by constructor.
  - apply SettleWebhook_ok in H as (r & r' & Hr & Ho & Hs & _ & ->). simpl.
    destruct (decide (id = wk_OutboxID claim)) as [->|Hne].
    + rewrite lookup_insert_eq, Hr. by econstructor.
    + rewrite lookup_insert_ne by done. by constructor.
  - apply SweepTerminal_ok in H as (ids & -> & Hids). rewrite delete_webhooks_lookup. case_decide as Hin.
    + destruct (Hids id Hin) as (r & -> & Ht%terminal_before_status). by constructor.
    + by constructor.
Qed.

Lemma webhook_step_next d l d' : webhook_step d l d' → wd_NextID d ≤ wd_NextID d'.
Proof.
  destruct 1 as [d o He Hj|d ts cbs Hj|d w lease env claim d' H|d w lease env d' H|d now claim s d' H
    |d ret limit now locked n d' H]; simpl; try lia.
  - apply claimWebhook_claimed in H as (r & _ & _ & _ & _ & _ & _ & _ & _ & _ & ->). done.
  - apply claimWebhook_maintained in H as (i & r & code & _ & _ & ->). done.
  - apply SettleWebhook_ok in H as (r & r' & _ & _ & _ & _ & ->). done.
  - apply SweepTerminal_ok in H as (ids & -> & _). destruct (delete_webhooks_frame ids d) as (_ & _ & ->). done.
Qed.

(** ** The lease of an attempt is exclusive *)

(** The row the claim left, or a trace that its lease has ended: it can never
    be owned by the claim again. *)
Definition lease_over (id attempt : Z) (d : webhook_db) : Prop :=
  id < wd_NextID d ∧
  ∀ r, wd_Outbox d !! id = Some r →
    attempt < wo_AttemptCount r ∨ (attempt = wo_AttemptCount r ∧ wo_Status r ≠ WebhookRowDelivering).

Lemma lease_over_step id attempt d l d' :
  webhooks_ok d → webhook_step d l d' → lease_over id attempt d → lease_over id attempt d'.
Proof.
  intros Hok Hs [Hid H]. split; [apply webhook_step_next in Hs; lia|]. intros r'.
  pose proof (webhook_step_change _ _ _ id Hok Hs) as Hc. remember (wd_Outbox d !! id) as o eqn:Eo.
  remember (wd_Outbox d' !! id) as o' eqn:Eo'.
  destruct Hc as [l o _|o ? _|claim r _ _ _ _|r code now _|claim r r1 now _ Ho Hset|r _]; intros E;
    [rewrite E in H; by apply H|lia|..|done]; injection E as <-; specialize (H r eq_refl).
  - left. simpl. lia.
  - simpl. destruct H as [?|[? _]]; [by left|by right].
  - apply owns_webhook_true in Ho as (Hst & _). destruct Hset as (_ & _ & _ & _ & _ & -> & _ & _ & _ & Hst').
    destruct H as [?|[? ?]]; [by left|done].
Qed.

Lemma lease_over_run id attempt d ls d' :
  0 ≤ maximumAttempts → webhooks_ok d → webhook_run d ls d' → lease_over id attempt d → lease_over id attempt d'.
Proof. intros Hm Hok H. induction H; eauto using lease_over_step, webhook_step_ok. Qed.

Lemma lease_over_lost claim now settlement id attempt d d' :
  lease_over id attempt d → wk_OutboxID claim = id → wk_AttemptCount claim = attempt →
  SettleWebhook datetime3 maximumAttempts now claim settlement d ≠ Ok (tt, d').
Proof.
  intros [_ H] <- <- Hs. apply SettleWebhook_ok in Hs as (r & r' & Hr & (Hst & Hn & _)%owns_webhook_true & _).
  destruct (H r Hr) as [?|[_ ?]]; [lia|done].
Qed.

Lemma lease_kept_step claim r d l d' :
  webhooks_ok d → webhook_step d l d' → wd_Outbox d !! wk_OutboxID claim = Some r →
  wo_AttemptCount r = wk_AttemptCount claim →
  wd_Outbox d' !! wk_OutboxID claim = Some r ∨ lease_over (wk_OutboxID claim) (wk_AttemptCount claim) d'.
Proof.
  intros Hok Hs Hr Hn. pose proof (webhook_step_change _ _ _ (wk_OutboxID claim) Hok Hs) as Hc.
  pose proof (webhook_step_next _ _ _ Hs) as Hnext. destruct (wk_rows d Hok _ _ Hr) as [Hid _].
  rewrite Hr in Hc. inversion Hc as [? o _ | | c0 r0 _ _ _ _ | r0 code now _ | c0 r0 r1 now _ Ho Hset | r0 _];
    subst; [by left|right..]; (split; [lia|]); intros r' E;
    match goal with Eo : _ = wd_Outbox d' !! _ |- _ => rewrite <-Eo in E end; try done; injection E as <-.
  - left. simpl. lia.
  - right. done.
  - destruct Hset as (_ & _ & _ & _ & _ & -> & _ & _ & _ & Hst'). right. split; [done|]. intros E. by rewrite E in Hst'.
Qed.

Lemma lease_kept_run claim r d ls d' :
  0 ≤ maximumAttempts → webhook_run d ls d' → webhooks_ok d → wo_AttemptCount r = wk_AttemptCount claim →
  (wd_Outbox d !! wk_OutboxID claim = Some r ∨ lease_over (wk_OutboxID claim) (wk_AttemptCount claim) d) →
  (wd_Outbox d' !! wk_OutboxID claim = Some r ∨ lease_over (wk_OutboxID claim) (wk_AttemptCount claim) d').
Proof.
  intros Hm H. induction H as [d|d l d1 ls d2 Hs Hr IH]; [done|]. intros Hok Hn Hd.
  apply IH; [by eapply webhook_step_ok|done|]. destruct Hd as [Hd|Hd]; [by eapply lease_kept_step|].
  right. by eapply lease_over_step.
Qed.

(** C31: A delivery attempt is settled only by the worker that holds it. Whatever
    other workers, job settlements, configuration changes and retention sweeps
    do after a claim, a settlement with that claim commits only on the very row
    the claim wrote, and once it has committed no later settlement with the same
    claim commits in any state the system can reach. *)
Theorem webhook_settlement_exclusive w lease env claim d d1 ls d2 now settlement d3 :
  0 ≤ maximumAttempts → webhooks_ok d →
  claimWebhook datetime3 maximumAttempts w lease env d = Ok (WebhookClaimed claim, d1) →
  webhook_run d1 ls d2 →
  SettleWebhook datetime3 maximumAttempts now claim settlement d2 = Ok (tt, d3) →
  wd_Outbox d2 !! wk_OutboxID claim = wd_Outbox d1 !! wk_OutboxID claim ∧
  ∀ ls' d4 now' settlement' d5, webhook_run d3 ls' d4 →
    SettleWebhook datetime3 maximumAttempts now' claim settlement' d4 ≠ Ok (tt, d5).
Proof.
  intros Hm Hok Hclaim Hrun Hset. pose proof (webhook_step_ok _ _ _ Hm Hok (step_claim _ _ _ _ _ _ Hclaim)) as Hok1.
  apply claimWebhook_claimed in Hclaim as (r & Hr & _ & _ & _ & _ & Hn & _ & _ & _ & ->).
  set (d1 := set_webhooks _ d) in *. set (row := leased (wk_OutboxID claim) claim r).
  assert (Hd1 : wd_Outbox d1 !! wk_OutboxID claim = Some row) by apply lookup_insert_eq.
  assert (Hcount : wo_AttemptCount row = wk_AttemptCount claim) by done.
  pose proof (webhook_run_ok _ _ _ Hm Hok1 Hrun) as Hok2.
  destruct (lease_kept_run claim row d1 ls d2 Hm Hrun Hok1 Hcount (or_introl Hd1)) as [Hd2|Hover];
    [|by eapply lease_over_lost in Hset].
  split; [by rewrite Hd1|]. intros ls' d4 now' settlement' d5 Hrun'.
  pose proof (webhook_step_ok _ _ _ Hm Hok2 (step_settle _ _ _ _ _ Hset)) as Hok3.
  destruct (SettleWebhook_ok _ _ _ _ _ Hset) as (r0 & r1 & Hr0 & Ho & Hs & _ & ->).
  rewrite Hd2 in Hr0. injection Hr0 as <-. eapply lease_over_lost; [|done..].
  eapply lease_over_run; [done|done|exact Hrun'|]. split; [by apply (wk_rows d2 Hok2 _ _ Hd2)|].
  simpl. rewrite lookup_insert_eq. intros ? [= <-]. destruct Hs as (_ & _ & _ & _ & _ & -> & _ & _ & _ & Hst).
  right. split; [done|]. intros E. by rewrite E in Hst.
Qed.

(** ** Bounded attempts *)
Definition is_claim_of (id : Z) (l : webhook_label) : bool :=
  match l with LClaim c => wk_OutboxID c =? id | _ => false end.

Definition claims_of (id : Z) (ls : list webhook_label) : Z := sumZ (λ l, if is_claim_of id l then 1 else 0) ls.

Definition claim_budget (id : Z) (d : webhook_db) : Z :=
  match wd_Outbox d !! id with
  | Some r => maximumAttempts - wo_AttemptCount r
  | None => if id <? wd_NextID d then 0 else maximumAttempts
  end.

Lemma claim_budget_step id d l d' :
  0 ≤ maximumAttempts → webhooks_ok d → webhook_step d l d' →
  claim_budget id d' + (if is_claim_of id l then 1 else 0) ≤ claim_budget id d.
Proof.
  intros Hm Hok Hs. pose proof (webhook_step_change _ _ _ id Hok Hs) as Hc.
  pose proof (webhook_step_next _ _ _ Hs) as Hn. unfold claim_budget.
  assert (Hbound : ∀ r, wd_Outbox d !! id = Some r → id < wd_NextID d ∧ 0 ≤ wo_AttemptCount r ≤ maximumAttempts).
  { intros r Hr. destruct (wk_rows d Hok _ _ Hr) as [? [? _]]. lia. }
  remember (wd_Outbox d !! id) as o eqn:Eo. remember (wd_Outbox d' !! id) as o' eqn:Eo'. clear Eo Eo'.
  destruct Hc as [l o Hl|o -> Ho|claim r <- Hlt _ _|r code now _|claim r r1 now _ _ Hset|r _]; simpl.
  - assert (is_claim_of id l = false) as ->. { destruct l; try done. simpl. apply Z.eqb_neq. by apply Hl. }
    destruct o as [r|]; [lia|]. do 2 case_match; bool_to_prop; lia.
  - rewrite Z.ltb_irrefl, Ho. lia.
  - rewrite Z.eqb_refl. lia.
  - lia.
  - destruct Hset as (_ & _ & _ & _ & _ & -> & _). lia.
  - destruct (Hbound r eq_refl). case_match; bool_to_prop; lia.
Qed.

Lemma claim_budget_run id d ls d' :
  0 ≤ maximumAttempts → webhooks_ok d → webhook_run d ls d' → claim_budget id d' + claims_of id ls ≤ claim_budget id d.
Proof.
  intros Hm Hok H. induction H as [d|d l d1 ls d2 Hs _ IH]; unfold claims_of in *; simpl; [lia|].
  pose proof (claim_budget_step id _ _ _ Hm Hok Hs). specialize (IH (webhook_step_ok _ _ _ Hm Hok Hs)). lia.
Qed.

Lemma claim_budget_nonneg id d : 0 ≤ maximumAttempts → webhooks_ok d → 0 ≤ claim_budget id d.
Proof.
  intros Hm Hok. unfold claim_budget. destruct (wd_Outbox d !! id) as [r|] eqn:E; [|case_match; lia].
  destruct (wk_rows d Hok _ _ E) as [_ [? _]]. lia.
Qed.

(** Every webhook event is leased for delivery at most [maximumAttempts]
    times over its whole life, whatever the interleaving of workers, settlements,
    expired leases and sweeps: at most that many claims name its row. *)
Lemma webhook_attempts_bounded d ls d' id :
  0 ≤ maximumAttempts → webhooks_ok d → wd_Outbox d !! id = None → webhook_run d ls d' →
  claims_of id ls ≤ maximumAttempts.
Proof.
  intros Hm Hok Hnone Hrun. pose proof (claim_budget_run id _ _ _ Hm Hok Hrun) as Hb.
  pose proof (claim_budget_nonneg id _ Hm (webhook_run_ok _ _ _ Hm Hok Hrun)).
  unfold claim_budget at 2 in Hb. rewrite Hnone in Hb. case_match; lia.
Qed.

(** ** Termination *)

(** The steps a row can still take before it is terminal. *)
Definition webhook_rank (r : webhook_row) : Z :=
  match wo_Status r with
  | WebhookRowPending => 2 * (maximumAttempts - wo_AttemptCount r) + 1
  | WebhookRowDelivering => 2 * (maximumAttempts - wo_AttemptCount r) + 2
  | _ => 0
  end.

Definition remaining_work (d : webhook_db) : Z := map_sumZ webhook_rank (wd_Outbox d).

Definition works (l : webhook_label) : Z :=
  match l with LClaim _ | LMaintain | LSettle _ => 1 | _ => 0 end.
Definition enqueues (l : webhook_label) : Z := match l with LEnqueue _ => 1 | _ => 0 end.

Lemma webhook_rank_nonneg r : webhook_row_ok r → 0 ≤ webhook_rank r.
Proof. intros [? _]. unfold webhook_rank. case_match; lia. Qed.

Lemma remaining_work_nonneg d : webhooks_ok d → 0 ≤ remaining_work d.
Proof. intros Hok. apply map_sumZ_nonneg. intros id r Hr. apply webhook_rank_nonneg. by eapply wk_rows. Qed.

Lemma remaining_work_insert d id r r' :
  wd_Outbox d !! id = Some r →
  remaining_work (set_webhooks (insert id r') d) = remaining_work d - webhook_rank r + webhook_rank r'.
Proof. apply map_sumZ_insert_old. Qed.

Lemma remaining_work_delete ids d :
  (∀ id r, wd_Outbox d !! id = Some r → webhook_row_ok r) → remaining_work (delete_webhooks ids d) ≤ remaining_work d.
Proof.
  revert d. induction ids as [|i ids IH]; intros d Hd; [done|].
  change (delete_webhooks (i :: ids) d) with (delete_webhooks ids (set_webhooks (delete i) d)).
  etransitivity; [apply IH|].
  - intros id r. simpl. rewrite lookup_delete_Some. intros [_ H]. by eapply Hd.
  - unfold remaining_work. simpl. destruct (wd_Outbox d !! i) as [r|] eqn:E; [|by rewrite delete_id].
    rewrite (map_sumZ_delete _ _ _ _ E). pose proof (webhook_rank_nonneg r (Hd _ _ E)). lia.
Qed.

Lemma remaining_work_step d l d' :
  0 ≤ maximumAttempts → webhooks_ok d → webhook_step d l d' →
  remaining_work d' + works l ≤ remaining_work d + (2 * maximumAttempts + 1) * enqueues l.
Proof.
  intros Hm Hok. destruct 1 as [d o He Hj|d ts cbs Hj|d w lease env claim d' H|d w lease env d' H|d now claim s d' H
    |d ret limit now locked n d' H]; cbn [works enqueues].
  - unfold remaining_work. simpl. destruct (wd_Outbox d !! wd_NextID d) eqn:E.
    { destruct (wk_rows d Hok _ _ E). lia. }
    rewrite map_sumZ_insert_new by done. unfold webhook_rank at 1. simpl.
    rewrite (event_created_pending o He). lia.
  - unfold remaining_work. simpl. lia.
  - apply claimWebhook_claimed in H as (r & Hr & Hc%claimable_open & _ & Hlt & _ & _ & _ & _ & _ & ->).
    rewrite (remaining_work_insert _ _ _ _ Hr). unfold webhook_rank. simpl. destruct Hc as [-> | ->]; lia.
  - apply claimWebhook_maintained in H as (i & r & code & Hr & Hc%claimable_open & ->).
    rewrite (remaining_work_insert _ _ _ _ Hr). destruct (wk_rows d Hok _ _ Hr) as [_ [? _]].
    unfold webhook_rank. simpl. destruct Hc as [-> | ->]; lia.
  - apply SettleWebhook_ok in H as (r & r' & Hr & (Hst & _)%owns_webhook_true & Hs & _ & ->).
    rewrite (remaining_work_insert _ _ _ _ Hr). destruct (wk_rows d Hok _ _ Hr) as [_ [? _]].
    destruct Hs as (_ & _ & _ & _ & _ & Hn & _ & _ & _ & H). unfold webhook_rank. rewrite Hst, Hn.
    destruct (wo_Status r'); naive_solver lia.
  - apply SweepTerminal_ok in H as (ids & -> & _).
    pose proof (remaining_work_delete ids d (λ id r H, proj2 (wk_rows d Hok id r H))). lia.
Qed.

(** C32: Webhook delivery terminates. In any run of the system the number of
    claims, dead-letterings and settlements is at most the work of the rows at
    the start plus [2 * maximumAttempts + 1] for each event created: once no
    more events arrive the delivery steps run out. *)
Theorem webhook_delivery_terminates d ls d' :
  0 ≤ maximumAttempts → webhooks_ok d → webhook_run d ls d' →
  sumZ works ls ≤ remaining_work d + (2 * maximumAttempts + 1) * sumZ enqueues ls.
Proof.
  intros Hm Hok Hrun. cut (remaining_work d' + sumZ works ls ≤ remaining_work d + (2 * maximumAttempts + 1) * sumZ enqueues ls).
  { pose proof (remaining_work_nonneg _ (webhook_run_ok _ _ _ Hm Hok Hrun)). lia. }
  induction Hrun as [d|d l d1 ls d2 Hs _ IH]; cbn [sumZ]; [lia|].
  pose proof (remaining_work_step _ _ _ Hm Hok Hs). specialize (IH (webhook_step_ok _ _ _ Hm Hok Hs)). lia.
Qed.

(** ** Reachable outboxes *)
Definition initial_webhooks (d : webhook_db) : Prop := wd_Outbox d = ∅ ∧ wd_NextID d = 1.

Lemma initial_webhooks_ok d : initial_webhooks d → webhooks_ok d.
Proof. intros [E En]. split; [..|lia]; intros id r; by rewrite E, lookup_empty. Qed.

(** Every reachable outbox is well formed: ids come from the counter,
    attempts stay within the maximum, a row holds a worker, a token and a lease
    exactly while it is being delivered, a delivered row records a 2xx status
    and no error, a dead one its reason, and every row still has its tenant and
    callback. *)
Lemma webhook_outbox_well_formed d ls d' :
  0 ≤ maximumAttempts → initial_webhooks d → webhook_run d ls d' → webhooks_ok d'.
Proof. intros Hm Hi Hrun. by eapply webhook_run_ok; [|apply initial_webhooks_ok|]. Qed.
End Outbox.

(** * Which webhook a claim selects

    The query of [claimWebhook] considers, per tenant, only the earliest
    claimable row; here: it never passes over a claimable row unless the
    earliest one of that row's tenant is locked by another transaction. *)
(** ** The two orders *)
Lemma webhook_before_spec a b :
  webhook_before a b = true ↔
  webhook_due a.2 < webhook_due b.2 ∨
  (webhook_due a.2 = webhook_due b.2 ∧
   (wo_Tenant a.2 < wo_Tenant b.2 ∨ (wo_Tenant a.2 = wo_Tenant b.2 ∧ a.1 < b.1))).
Proof.
  unfold webhook_before. destruct (Z.eqb_spec (webhook_due a.2) (webhook_due b.2)); simpl;
    [destruct (Z.eqb_spec (wo_Tenant a.2) (wo_Tenant b.2))|]; simpl; rewrite Z.ltb_lt; lia.
Qed.

Lemma webhook_earlier_spec a b :
  webhook_earlier a b = true ↔
  webhook_due a.2 < webhook_due b.2 ∨ (webhook_due a.2 = webhook_due b.2 ∧ a.1 < b.1).
Proof. unfold webhook_earlier. rewrite orb_true_iff, andb_true_iff, !Z.ltb_lt, Z.eqb_eq. done. Qed.

Ltac by_orders :=
  rewrite <-?not_true_iff_false, ?webhook_before_spec, ?webhook_earlier_spec; lia.

Lemma webhook_before_asym a b : webhook_before a b = true → webhook_before b a = false.
Proof. by_orders. Qed.

Lemma webhook_before_neg_trans a b c :
  webhook_before a b = false → webhook_before b c = false → webhook_before a c = false.
Proof. by_orders. Qed.

Lemma webhook_earlier_asym a b : webhook_earlier a b = true → webhook_earlier b a = false.
Proof. by_orders. Qed.

Lemma webhook_earlier_neg_trans a b c :
  webhook_earlier a b = false → webhook_earlier b c = false → webhook_earlier a c = false.
Proof. by_orders. Qed.

(** In one tenant both orders agree. *)
Lemma not_earlier_not_before a b c :
  wo_Tenant a.2 = wo_Tenant b.2 → webhook_earlier a b = false → webhook_before a c = true → webhook_before b c = true.
Proof. by_orders. Qed.

Section Select.
Context (d : webhook_db) (now : Z) (locked : gset Z).

Definition claimable_row (p : Z * webhook_row) : Prop :=
  wd_Outbox d !! p.1 = Some p.2 ∧ webhook_claimable now p.2 = true.

(** The earliest claimable row of the tenant of [p] is locked elsewhere. *)
Definition passed_over (p : Z * webhook_row) : Prop :=
  ∃ q, claimable_row q ∧ wo_Tenant q.2 = wo_Tenant p.2 ∧ webhook_earlier p q = false ∧ q.1 ∈ locked.

Lemma earliest_of_tenant p :
  claimable_row p →
  ∃ q, claimable_row q ∧ wo_Tenant q.2 = wo_Tenant p.2 ∧
    ∀ e, claimable_row e → wo_Tenant e.2 = wo_Tenant p.2 → webhook_earlier e q = false.
Proof.
  intros Hp. set (l := filter (λ e, wo_Tenant e.2 = wo_Tenant p.2 ∧ webhook_claimable now e.2 = true) (map_to_list (wd_Outbox d))).
  assert (Hl : ∀ e, e ∈ l ↔ claimable_row e ∧ wo_Tenant e.2 = wo_Tenant p.2).
  { intros [i r]. unfold l, claimable_row. rewrite list_elem_of_filter, elem_of_map_to_list. simpl. tauto. }
  destruct (first_by webhook_earlier l) as [q|] eqn:E.
  - pose proof (first_by_elem _ _ _ E) as Hq. apply Hl in Hq as [Hq Ht]. exists q. repeat split; [apply Hq..|done|].
    intros e He Hte. eapply (first_by_least webhook_earlier); [apply webhook_earlier_asym|apply webhook_earlier_neg_trans|exact E|].
    by apply Hl.
  - apply first_by_None in E. assert (Hin : p ∈ l) by (by apply Hl). rewrite E in Hin. by apply not_elem_of_nil in Hin.
Qed.

(** The earliest claimable row of a tenant is a candidate of the query. *)
Lemma earliest_candidate q :
  joined d → claimable_row q → q.1 ∉ locked →
  (∀ e, claimable_row e → wo_Tenant e.2 = wo_Tenant q.2 → webhook_earlier e q = false) →
  q ∈ filter (λ p, webhook_candidate d now locked p = true) (map_to_list (wd_Outbox d)).
Proof.
  intros Hj [Hq Hc] Hlock Hleast. apply list_elem_of_filter. split; [|by destruct q; apply elem_of_map_to_list].
  unfold webhook_candidate. rewrite Hc, (proj2 (is_some_true _) (Hj _ _ Hq)), (bool_decide_eq_false_2 _ Hlock). simpl.
  apply negb_true_iff, not_true_is_false. intros ([i e] & Hin%list_elem_of_In & He)%existsb_exists. bool_to_prop.
  apply elem_of_map_to_list in Hin. simpl in *. specialize (Hleast (i, e)). unfold claimable_row in Hleast. simpl in Hleast.
  by rewrite Hleast in *.
Qed.

Lemma select_webhook_complete p :
  joined d → claimable_row p →
  match select_webhook d now locked with
  | None => passed_over p
  | Some q => webhook_before p q = true → passed_over p
  end.
Proof.
  intros Hj Hp. destruct (earliest_of_tenant p Hp) as (q & Hq & Ht & Hleast).
  pose proof (Hleast p Hp eq_refl) as Hpq.
  destruct (decide (q.1 ∈ locked)) as [Hlock|Hlock].
  { destruct (select_webhook _ _ _); [intros _|]; exists q; done. }
  assert (Hcand : q ∈ filter (λ p, webhook_candidate d now locked p = true) (map_to_list (wd_Outbox d))).
  { apply earliest_candidate; [done..|]. intros e He Hte. apply Hleast; [done|by rewrite Hte]. }
  unfold select_webhook. destruct (first_by _ _) as [c|] eqn:E.
  - intros Hbefore. exfalso. pose proof (not_earlier_not_before p q c (eq_sym Ht) Hpq Hbefore) as Hqc.
    rewrite (first_by_least webhook_before _ _ webhook_before_asym webhook_before_neg_trans E q Hcand) in Hqc. done.
  - apply first_by_None in E. rewrite E in Hcand. by apply not_elem_of_nil in Hcand.
Qed.
End Select.

(** A webhook claim serves the rows in due order and starves no tenant. On a
    well-formed outbox a claim fails with [ErrWebhookNotAvailable] only if every
    claimable row is passed over, that is, the earliest claimable row of its
    tenant is locked by another transaction; a claim that succeeds leases a
    claimable, unexpired row with attempts left, and every claimable row that
    precedes it in the order (due time, tenant, id) is passed over. *)
Lemma webhook_claims_in_due_order datetime3 maximumAttempts w lease env d :
  webhooks_ok maximumAttempts d →
  match claimWebhook datetime3 maximumAttempts w lease env d with
  | Err ErrWebhookNotAvailable => ∀ p, claimable_row d (we_Now env) p → passed_over d (we_Now env) (we_Locked env) p
  | Err (ErrWebhookUnavailable number) => we_Failure env = Some number ∨ we_Token env = None
  | Err _ => False
  | Ok (WebhookClaimed claim, d') =>
      ∃ r, claimable_row d (we_Now env) (wk_OutboxID claim, r) ∧ wk_OutboxID claim ∉ we_Locked env ∧
        wo_AttemptCount r < maximumAttempts ∧ we_LeaseNow env < wo_ExpiresAt r ∧
        wd_Outbox d' !! wk_OutboxID claim = Some (lease_webhook w (wk_LeaseToken claim) (datetime3 (we_LeaseNow env + lease)) r) ∧
        ∀ p, claimable_row d (we_Now env) p → webhook_before p (wk_OutboxID claim, r) = true →
          passed_over d (we_Now env) (we_Locked env) p
  | Ok (WebhookMaintained, d') =>
      ∃ id r code, claimable_row d (we_Now env) (id, r) ∧
        wd_Outbox d' !! id = Some (dead_letter None code (datetime3 (we_LeaseNow env)) r)
  end.
Proof.
  intros Hok. destruct (claimWebhook _ _ _ _ _ _) as [[[claim|] d']|e] eqn:H.
  - pose proof H as H'. apply claimWebhook_claimed in H' as (r & Hr & Hc & _ & Hlt & Hexp & _ & Hl & Hw & _ & ->).
    unfold claimWebhook in H. destruct (we_Failure env); [done|].
    destruct (select_webhook _ _ _) as [[id r0]|] eqn:Hs; [|done].
    pose proof (select_webhook_elem _ _ _ _ _ Hs) as (Hr0 & _ & Hlock & _).
    assert (wk_OutboxID claim = id) as Eid.
    { clear -H. repeat (case_match; try discriminate H). injection H as <- _. done. }
    rewrite Eid in *. assert (r0 = r) as -> by congruence. exists r.
    split; [done|]. split; [done|]. split; [done|]. split; [done|]. split.
    + simpl. rewrite lookup_insert_eq. unfold leased. by rewrite Hw, Hl.
    + intros p Hp Hbefore. pose proof (select_webhook_complete d (we_Now env) (we_Locked env) p (wk_joined _ _ Hok) Hp) as Hsel.
      rewrite Hs in Hsel. by apply Hsel.
  - apply claimWebhook_maintained in H as (id & r & code & Hr & Hc & ->). exists id, r, code.
    split; [done|]. apply lookup_insert_eq.
  - unfold claimWebhook in H. destruct (we_Failure env); [injection H as <-; by left|].
    destruct (select_webhook _ _ _) as [[id r]|] eqn:Hs.
    + pose proof (select_webhook_elem _ _ _ _ _ Hs) as (Hr & _ & _ & [[[tid ts] cb] Hj]). rewrite Hj in H.
      unfold update_webhook in H. rewrite Hr in H. destruct (webhook_dead_code _ _ _ _ _); [done|].
      destruct (we_Token env) as [token|]; [|injection H as <-; by right]. cbv zeta in H. case_match; [|done].
      bool_to_prop. match goal with E : lease_webhook _ _ _ _ = _ |- _ => apply (f_equal wo_AttemptCount) in E; simpl in E; lia end.
    + injection H as <-. intros p Hp.
      pose proof (select_webhook_complete d (we_Now env) (we_Locked env) p (wk_joined _ _ Hok) Hp) as Hsel. by rewrite Hs in Hsel.
Qed.
