(* ===== verification/CallbackTransport.v ===== *)
(** * Destinations of callbacks, [internal/external/safe_transport.go]

    The validation of callback URLs and host names, the classification of
    resolved addresses, and the transport that connects only to public
    addresses of the registered host.

    [strings.ToLower], [url.Parse] and [netip.ParseAddr] are parameters: of
    the first only its action on ASCII strings is used, the results of the others
    are the fields the code reads.

    The second part proves that callbacks reach public addresses only. *)
From stdpp Require Import prelude gmap strings sorting.
From S2P Require Import Prelude.
From S2P Require Import GoText.
From S2P Require Import Manifest.

Open Scope Z_scope.

(** ** Text *)

Fixpoint last_byte (s : string) : option Ascii.ascii :=
  match s with
  | EmptyString => None
  | String a EmptyString => Some a
  | String _ s => last_byte s
  end.

Definition ends_with (c : Z) (s : string) : bool :=
  match last_byte s with Some a => byte_of a =? c | None => false end.

(** [strings.TrimSuffix(s, ".")] *)
Definition trim_dot (s : string) : string := if ends_with 46 s then stake (String.length s - 1) s else s.

Definition ascii_lower_byte (a : Ascii.ascii) : Ascii.ascii :=
  if upper a then ascii_of_byte (byte_of a + 32) else a.

Fixpoint ascii_lower (s : string) : string :=
  match s with
  | EmptyString => EmptyString
  | String a s => String (ascii_lower_byte a) (ascii_lower s)
  end.

Definition is_ascii (s : string) : bool := string_forallb (λ a, byte_of a <? 128) s.

Fixpoint parse_digits (acc : Z) (s : string) : option Z :=
  match s with
  | EmptyString => Some acc
  | String a s => if digit a then parse_digits (acc * 10 + (byte_of a - 48)) s else None
  end.

(** [strconv.ParseUint(s, 10, bits)] *)
Definition ParseUint (bits : Z) (s : string) : option Z :=
  if bool_decide (s = "") then None
  else match parse_digits 0 s with
       | Some n => if n <? 2 ^ bits then Some n else None
       | None => None
       end.

(** ** Host names *)
Definition host_rune (r : Z) : bool := in_range 97 122 r || in_range 48 57 r || (r =? 45).

Definition starts_with (c : Z) (s : string) : bool :=
  match s with String a _ => byte_of a =? c | EmptyString => false end.

Definition valid_label (label : string) : bool :=
  negb (bool_decide (label = "") || (63 <? len label) || starts_with 45 label || ends_with 45 label) &&
  forallb (λ r, host_rune r.1) (runes label).

Record URL : Type := mkURL {
  u_Scheme : string;
  u_Host : string;
  u_HasUser : bool;
  u_Fragment : string;
  u_Opaque : string;
  u_Hostname : string;
  u_Port : string;
  u_EscapedPath : string;
  u_RawQuery : string
}.

Section Destination.
Context (ToLower : string → string) (url_Parse : string → option URL) (ParseAddr : string → bool).

Definition validDNSName (host : string) : bool :=
  if bool_decide (host = "") || (253 <? len host) || negb (bool_decide (host = ToLower host)) || ends_with 46 host
  then false
  else forallb valid_label (split_on 46 host).

Definition parseHTTPSDestination (raw : string) : option URL :=
  match url_Parse raw with
  | None => None
  | Some parsed =>
      if negb (bool_decide (u_Scheme parsed = "https")) || bool_decide (u_Host parsed = "") || u_HasUser parsed ||
         negb (bool_decide (u_Fragment parsed = "")) || negb (bool_decide (u_Opaque parsed = "")) then None
      else
        let host := ToLower (u_Hostname parsed) in
        if negb (validDNSName host) then None
        else if ParseAddr host then None
        else if negb (bool_decide (u_Port parsed = "")) &&
                match ParseUint 16 (u_Port parsed) with Some port => port =? 0 | None => true end then None
        else Some parsed
  end.

Definition destination_port (parsed : URL) : Z :=
  if bool_decide (u_Port parsed = "") then 443 else default 0 (ParseUint 16 (u_Port parsed)).

(** [None] stands for [ErrUnsafeCallbackDestination]. *)
Definition validateCallbackDestination (raw allowedHost : string) (allowedPort : Z) : option URL :=
  match parseHTTPSDestination raw with
  | None => None
  | Some parsed =>
      let normalizedHost := ToLower (trim_dot allowedHost) in
      if negb (validDNSName normalizedHost) ||
         negb (bool_decide (ToLower (trim_dot (u_Hostname parsed)) = normalizedHost)) then None
      else if (allowedPort =? 0) || negb (destination_port parsed =? allowedPort) then None
      else Some parsed
  end.
End Destination.

(** ** Addresses

    A [netip.Addr]; an IPv6 address keeps its zone. *)
Inductive Addr : Type :=
| AddrInvalid
| AddrV4 (value : Z)
| AddrV6 (value : Z) (zone : string).

#[export] Instance Addr_eq_dec : EqDecision Addr.
Proof. solve_decision. Defined.

(** A prefix: family, value and number of bits. *)
Inductive Prefix : Type :=
| PrefixV4 (value bits : Z)
| PrefixV6 (value bits : Z).

Definition v4 (a b c d : Z) : Z := ((a * 256 + b) * 256 + c) * 256 + d.
Definition v6 (a b c d e f g h : Z) : Z :=
  ((((((a * 65536 + b) * 65536 + c) * 65536 + d) * 65536 + e) * 65536 + f) * 65536 + g) * 65536 + h.

(** [Prefix.Contains]: a zoned address is in no prefix. *)
Definition Contains (p : Prefix) (a : Addr) : bool :=
  match p, a with
  | PrefixV4 value bits, AddrV4 v => Z.shiftr v (32 - bits) =? Z.shiftr value (32 - bits)
  | PrefixV6 value bits, AddrV6 v zone =>
      bool_decide (zone = "") && (Z.shiftr v (128 - bits) =? Z.shiftr value (128 - bits))
  | _, _ => false
  end.

Definition IsValid (a : Addr) : bool := match a with AddrInvalid => false | _ => true end.
Definition Is6 (a : Addr) : bool := match a with AddrV6 _ _ => true | _ => false end.

(** [Unmap] of an IPv4-mapped IPv6 address. *)
Definition Unmap (a : Addr) : Addr :=
  match a with
  | AddrV6 v _ => if Z.shiftr v 32 =? 65535 then AddrV4 (Z.land v 4294967295) else a
  | _ => a
  end.

(** The methods of [netip.Addr], on addresses that [Unmap] returned. *)
Definition IsUnspecified (a : Addr) : bool :=
  match a with AddrV4 v => v =? 0 | AddrV6 v zone => (v =? 0) && bool_decide (zone = "") | AddrInvalid => false end.
Definition IsLoopback (a : Addr) : bool :=
  match a with AddrV4 v => Z.shiftr v 24 =? 127 | AddrV6 v _ => v =? 1 | AddrInvalid => false end.
Definition IsMulticast (a : Addr) : bool :=
  match a with AddrV4 v => Z.shiftr v 28 =? 14 | AddrV6 v _ => Z.shiftr v 120 =? 255 | AddrInvalid => false end.
Definition IsLinkLocalUnicast (a : Addr) : bool :=
  match a with
  | AddrV4 v => Z.shiftr v 16 =? v4 0 0 169 254
  | AddrV6 v _ => Z.shiftr v 118 =? 1018
  | AddrInvalid => false
  end.
Definition IsLinkLocalMulticast (a : Addr) : bool :=
  match a with
  | AddrV4 v => Z.shiftr v 8 =? v4 0 224 0 0
  | AddrV6 v _ => Z.land (Z.shiftr v 112) 65295 =? 65282
  | AddrInvalid => false
  end.
Definition IsPrivate (a : Addr) : bool :=
  match a with
  | AddrV4 v => (Z.shiftr v 24 =? 10) || (Z.shiftr v 20 =? 2753) || (Z.shiftr v 16 =? v4 0 0 192 168)
  | AddrV6 v _ => Z.shiftr v 121 =? 126
  | AddrInvalid => false
  end.
Definition IsGlobalUnicast (a : Addr) : bool :=
  match a with
  | AddrInvalid => false
  | AddrV4 v => negb ((v =? 0) || (v =? 4294967295)) && negb (IsLoopback a) && negb (IsMulticast a) &&
                negb (IsLinkLocalUnicast a)
  | AddrV6 _ _ => negb (IsUnspecified a) && negb (IsLoopback a) && negb (IsMulticast a) && negb (IsLinkLocalUnicast a)
  end.

Definition prohibitedCallbackPrefixes : list Prefix :=
  [PrefixV4 (v4 0 0 0 0) 8; PrefixV4 (v4 10 0 0 0) 8;
   PrefixV4 (v4 100 64 0 0) 10; PrefixV4 (v4 127 0 0 0) 8;
   PrefixV4 (v4 169 254 0 0) 16; PrefixV4 (v4 172 16 0 0) 12;
   PrefixV4 (v4 192 0 0 0) 24; PrefixV4 (v4 192 0 2 0) 24;
   PrefixV4 (v4 192 88 99 0) 24; PrefixV4 (v4 192 168 0 0) 16;
   PrefixV4 (v4 198 18 0 0) 15; PrefixV4 (v4 198 51 100 0) 24;
   PrefixV4 (v4 203 0 113 0) 24; PrefixV4 (v4 224 0 0 0) 4;
   PrefixV4 (v4 240 0 0 0) 4;
   PrefixV6 0 128; PrefixV6 1 128;
   PrefixV6 0 96; PrefixV6 (v6 0x64 0xff9b 0 0 0 0 0 0) 96;
   PrefixV6 (v6 0x64 0xff9b 1 0 0 0 0 0) 48; PrefixV6 (v6 0x100 0 0 0 0 0 0 0) 64;
   PrefixV6 (v6 0x100 0 0 1 0 0 0 0) 64;
   PrefixV6 (v6 0x2001 0 0 0 0 0 0 0) 32; PrefixV6 (v6 0x2001 0xdb8 0 0 0 0 0 0) 32;
   PrefixV6 (v6 0x2001 0 0 0 0 0 0 0) 23; PrefixV6 (v6 0x2002 0 0 0 0 0 0 0) 16;
   PrefixV6 (v6 0x3fff 0 0 0 0 0 0 0) 20; PrefixV6 (v6 0xfc00 0 0 0 0 0 0 0) 7;
   PrefixV6 (v6 0xfec0 0 0 0 0 0 0 0) 10;
   PrefixV6 (v6 0xfe80 0 0 0 0 0 0 0) 10; PrefixV6 (v6 0xff00 0 0 0 0 0 0 0) 8].

Definition globallyAllocatedIPv6 : Prefix := PrefixV6 (v6 0x2000 0 0 0 0 0 0 0) 3.

Definition isPublicCallbackAddress (address : Addr) : bool :=
  if negb (IsValid address) || negb (IsGlobalUnicast address) || IsPrivate address ||
     IsLoopback address || IsLinkLocalUnicast address || IsLinkLocalMulticast address ||
     IsMulticast address || IsUnspecified address then false
  else if Is6 address && negb (Contains globallyAllocatedIPv6 address) then false
  else forallb (λ prefix, negb (Contains prefix address)) prohibitedCallbackPrefixes.

(** ** Resolution *)

(** [Addr.Compare] is not positive: by family, value and zone. *)
Definition Compare_le (a b : Addr) : Prop :=
  match a, b with
  | AddrInvalid, _ => True
  | AddrV4 _, AddrInvalid => False
  | AddrV4 x, AddrV4 y => x ≤ y
  | AddrV4 _, AddrV6 _ _ => True
  | AddrV6 x zx, AddrV6 y zy => x < y ∨ (x = y ∧ String.leb zx zy = true)
  | AddrV6 _ _, _ => False
  end.

#[export] Instance Compare_le_dec a b : Decision (Compare_le a b).
Proof. unfold Compare_le. destruct a, b; apply _. Defined.

Inductive resolve_error : Type :=
| ResolveInvalid
| ResolveFailed
| ResolveNoAddresses
| ResolveUnsafe.

Section Resolve.
Context (ToLower : string → string) (LookupNetIP : string → option (list Addr)).

(** The loop over the addresses. [seen] is the set of the addresses in
    [result]. *)
Fixpoint collect_public (addresses result : list Addr) : option (list Addr) :=
  match addresses with
  | [] => Some result
  | raw :: addresses =>
      let address := Unmap raw in
      if negb (isPublicCallbackAddress address) then None
      else if bool_decide (address ∈ result) then collect_public addresses result
      else collect_public addresses (result ++ [address])
  end.

Definition resolvePublicCallback (host : string) : result resolve_error (list Addr) :=
  if negb (validDNSName ToLower host) then Err ResolveInvalid
  else
    match LookupNetIP host with
    | None => Err ResolveFailed
    | Some [] => Err ResolveNoAddresses
    | Some addresses =>
        match collect_public addresses [] with
        | None => Err ResolveUnsafe
        | Some result => Ok (merge_sort Compare_le result)
        end
    end.

(** [DialContext] of the transport: the addresses are tried in order. [dial]
    gives what connecting to an address and port leads to. *)
Context {Conn : Type} (dial : Addr → Z → option Conn).

Fixpoint dial_first (addresses : list Addr) (port : Z) : option (Addr * Conn) :=
  match addresses with
  | [] => None
  | address :: addresses =>
      match dial address port with
      | Some connection => Some (address, connection)
      | None => dial_first addresses port
      end
  end.

Inductive dial_error : Type :=
| DialResolve (e : resolve_error)
| DialFailed.

Definition DialContext (host : string) (port : Z) : result dial_error (Addr * Conn) :=
  match resolvePublicCallback host with
  | Err e => Err (DialResolve e)
  | Ok addresses =>
      match dial_first addresses port with
      | Some connection => Ok connection
      | None => Err DialFailed
      end
  end.
End Resolve.

(** [NewSafeCallbackClient]: the host and port a transport is bound to. *)
Record safeCallbackTransport : Type := mkTransport {
  tr_host : string;
  tr_port : Z
}.

Definition NewSafeCallbackClient (ToLower : string → string) (host : string) (port requestTimeout dialTimeout : Z) :
    option safeCallbackTransport :=
  let host := ToLower (trim_dot (trim_space host)) in
  if negb (validDNSName ToLower host) || (port =? 0) || (requestTimeout <=? 0) || (dialTimeout <=? 0) then None
  else Some (mkTransport host port).

(** * Callbacks reach public addresses only

    Properties of [CallbackTransport]: the address classification as explicit
    ranges, the outcome of a resolution, and what the transport connects to. *)
(** ** Prefixes as ranges *)
Lemma shiftr_eqb v k c : 0 ≤ k → (Z.shiftr v k =? c) = true ↔ c * 2 ^ k ≤ v < (c + 1) * 2 ^ k.
Proof.
  intros Hk. rewrite Z.eqb_eq, Z.shiftr_div_pow2 by done. assert (0 < 2 ^ k) by (by apply Z.pow_pos_nonneg).
  split; [intros <-|intros ?; symmetry; apply Z.div_unique with (v - c * 2 ^ k); nia].
  pose proof (Z.mul_div_le v (2 ^ k)). pose proof (Z.mul_succ_div_gt v (2 ^ k)). nia.
Qed.

Lemma contains_v4 value bits v :
  0 ≤ bits ≤ 32 →
  Contains (PrefixV4 value bits) (AddrV4 v) = true ↔
  Z.shiftr value (32 - bits) * 2 ^ (32 - bits) ≤ v < (Z.shiftr value (32 - bits) + 1) * 2 ^ (32 - bits).
Proof. intros H. unfold Contains. by rewrite shiftr_eqb by lia. Qed.

Lemma contains_v6 value bits v zone :
  0 ≤ bits ≤ 128 →
  Contains (PrefixV6 value bits) (AddrV6 v zone) = true ↔
  zone = "" ∧
  Z.shiftr value (128 - bits) * 2 ^ (128 - bits) ≤ v < (Z.shiftr value (128 - bits) + 1) * 2 ^ (128 - bits).
Proof. intros H. unfold Contains. by rewrite andb_true_iff, bool_decide_eq_true, shiftr_eqb by lia. Qed.

(** The IPv4 ranges no callback may reach. *)
Definition prohibited_v4 : list (Z * Z) :=
  [(v4 0 0 0 0, v4 0 255 255 255); (v4 10 0 0 0, v4 10 255 255 255);
   (v4 100 64 0 0, v4 100 127 255 255); (v4 127 0 0 0, v4 127 255 255 255);
   (v4 169 254 0 0, v4 169 254 255 255); (v4 172 16 0 0, v4 172 31 255 255);
   (v4 192 0 0 0, v4 192 0 0 255); (v4 192 0 2 0, v4 192 0 2 255);
   (v4 192 88 99 0, v4 192 88 99 255); (v4 192 168 0 0, v4 192 168 255 255);
   (v4 198 18 0 0, v4 198 19 255 255); (v4 198 51 100 0, v4 198 51 100 255);
   (v4 203 0 113 0, v4 203 0 113 255); (v4 224 0 0 0, v4 239 255 255 255);
   (v4 240 0 0 0, v4 255 255 255 255)].

(** Within [2000::/3], the only IPv6 space that may be reached. *)
Definition prohibited_v6 : list (Z * Z) :=
  [(v6 0x2001 0 0 0 0 0 0 0, v6 0x2001 0x1ff 0xffff 0xffff 0xffff 0xffff 0xffff 0xffff);
   (v6 0x2001 0xdb8 0 0 0 0 0 0, v6 0x2001 0xdb8 0xffff 0xffff 0xffff 0xffff 0xffff 0xffff);
   (v6 0x2002 0 0 0 0 0 0 0, v6 0x2002 0xffff 0xffff 0xffff 0xffff 0xffff 0xffff 0xffff);
   (v6 0x3fff 0 0 0 0 0 0 0, v6 0x3fff 0xfff 0xffff 0xffff 0xffff 0xffff 0xffff 0xffff)].

Definition outside (v : Z) (ranges : list (Z * Z)) : Prop := Forall (λ r, ¬ (r.1 ≤ v ≤ r.2)) ranges.

Definition public_address (a : Addr) : Prop :=
  match a with
  | AddrInvalid => False
  | AddrV4 v => outside v prohibited_v4
  | AddrV6 v zone => zone = "" ∧ v6 0x2000 0 0 0 0 0 0 0 ≤ v < v6 0x4000 0 0 0 0 0 0 0 ∧ outside v prohibited_v6
  end.

Definition well_formed (a : Addr) : Prop :=
  match a with
  | AddrInvalid => True
  | AddrV4 v => 0 ≤ v < 2 ^ 32
  | AddrV6 v _ => 0 ≤ v < 2 ^ 128
  end.

Lemma shiftr_in_range v k c : 0 ≤ k → (Z.shiftr v k =? c) = in_range (c * 2 ^ k) ((c + 1) * 2 ^ k - 1) v.
Proof. intros Hk. apply eq_true_iff_eq. rewrite shiftr_eqb, in_range_true by done. lia. Qed.

Lemma not_in_range lo hi v : negb (in_range lo hi v) = true ↔ ¬ (lo ≤ v ≤ hi).
Proof. by rewrite negb_true_iff, <-in_range_true, not_true_iff_false. Qed.

Lemma not_eqb a b : negb (a =? b) = true ↔ a ≠ b.
Proof. by rewrite negb_true_iff, Z.eqb_neq. Qed.

(** Turn the tests of [v] into tests of constant ranges. *)
Ltac ranges_of v :=
  repeat match goal with
    | |- context [Z.shiftr v ?k =? ?c] => rewrite (shiftr_in_range v k c) by lia
    end;
  repeat match goal with
    | |- context [in_range ?a ?b v] => progress (
        let x := eval vm_compute in a in let y := eval vm_compute in b in change (in_range a b v) with (in_range x y v))
    end;
  rewrite ?negb_orb, ?negb_involutive.

Ltac split_tests :=
  repeat match goal with
    | H : _ && _ = true |- _ => apply andb_true_iff in H; destruct H
    | H : Forall _ (_ :: _) |- _ => apply Forall_cons in H; destruct H
    | H : negb (in_range _ _ _) = true |- _ => apply not_in_range in H
    | H : negb (_ =? _) = true |- _ => apply not_eqb in H
    | |- _ && _ = true => apply andb_true_iff; split
    | |- Forall _ (_ :: _) => apply Forall_cons; split
    | |- negb (in_range _ _ _) = true => apply not_in_range; intros ?
    | |- negb (_ =? _) = true => apply not_eqb; intros ?
    | |- ¬ _ => intros ?
    end.

(** The interval of [K] is outside the range known for the address, or covered
    by excluded intervals of the context. *)
Ltac by_cover :=
  first
    [ exact I | reflexivity | by constructor
    | apply in_range_true; lia
    | repeat match goal with H : ¬ _ |- _ => clear H end; lia
    | match goal with H : ¬ _, K : _ ≤ _ ≤ _ |- _ => solve [clear -H K; lia] end
    | match goal with H : ¬ _, K : _ = _ |- _ => solve [clear -H K; lia] end ].

Lemma public_v4 v :
  0 ≤ v < 2 ^ 32 → isPublicCallbackAddress (AddrV4 v) = true ↔ outside v prohibited_v4.
Proof.
  intros Hv. change (2 ^ 32) with 4294967296 in Hv.
  assert (E : ∀ a c, (if a : bool then false else c) = negb a && c) by (by intros []).
  unfold isPublicCallbackAddress. rewrite E. cbn [Is6 andb].
  cbn [prohibitedCallbackPrefixes forallb Contains IsGlobalUnicast IsPrivate IsLoopback IsValid
    IsLinkLocalUnicast IsLinkLocalMulticast IsMulticast IsUnspecified].
  ranges_of v. unfold outside.
  assert (E' : prohibited_v4 = ltac:(let x := eval vm_compute in prohibited_v4 in exact x)) by done.
  rewrite E'. clear E E' Hv. split; intros H.
  - split_tests. all: cbn [fst snd] in *. all: by_cover.
  - split_tests. all: cbn [fst snd] in *. all: by_cover.
Qed.

Lemma public_v6 v zone :
  0 ≤ v < 2 ^ 128 →
  isPublicCallbackAddress (AddrV6 v zone) = true ↔ public_address (AddrV6 v zone).
Proof.
  intros Hv. unfold isPublicCallbackAddress, public_address. destruct (decide (zone = "")) as [->|Hz].
  2: { assert (Hc : Contains globallyAllocatedIPv6 (AddrV6 v zone) = false)
         by (unfold Contains, globallyAllocatedIPv6; by rewrite bool_decide_eq_false_2).
       rewrite Hc. cbn [Is6 negb andb]. split; [by case_match|]. by intros [? _]. }
  assert (E : ∀ a b c, (if a : bool then false else if b : bool then false else c) = negb a && negb b && c)
    by (by intros [] []).
  rewrite E. clear E. cbn [prohibitedCallbackPrefixes globallyAllocatedIPv6 forallb Contains IsGlobalUnicast
    IsPrivate IsLoopback IsLinkLocalUnicast IsLinkLocalMulticast IsMulticast IsUnspecified IsValid Is6].
  rewrite (bool_decide_eq_true_2 ("" = "")), !andb_true_l, !andb_true_r by done.
  destruct (decide (2 ^ 125 ≤ v < 2 ^ 126)) as [Hr|Hr].
  - assert (Hland : Z.land (Z.shiftr v 112) 65295 =? 65282 = false).
    { apply Z.eqb_neq. intros E. apply (f_equal (λ z, Z.testbit z 15)) in E. revert E.
      rewrite Z.land_spec, Z.shiftr_spec by lia. rewrite Z.testbit_eqb, Z.div_small by lia. done. }
    rewrite Hland. ranges_of v. unfold outside.
    assert (E : prohibited_v6 = ltac:(let x := eval vm_compute in prohibited_v6 in exact x)) by done. rewrite E.
    change (2 ^ 125) with 42535295865117307932921825928971026432 in Hr.
    change (2 ^ 126) with 85070591730234615865843651857942052864 in Hr. clear E Hland Hv. split.
    + intros H. split; [done|]. split; [exact Hr|]. split_tests; cbn [fst snd] in *; by_cover.
    + intros (_ & _ & H). split_tests; cbn [fst snd] in *; by_cover.
  - split; [|by intros (_ & H & _)]. intros H. exfalso. apply Hr.
    apply andb_true_iff in H as [H _]. apply andb_true_iff in H as [_ H]. rewrite negb_involutive in H.
    apply shiftr_eqb in H; [exact H|lia].
Qed.

Lemma public_iff a : well_formed a → isPublicCallbackAddress a = true ↔ public_address a.
Proof. destruct a as [|v|v zone]; [done|apply public_v4|apply public_v6]. Qed.

(** ** Host names *)
Definition host_byte (a : Ascii.ascii) : bool := in_range 97 122 (byte_of a) || in_range 48 57 (byte_of a) || (byte_of a =? 45).

Lemma host_runes s : forallb (λ r, host_rune r.1) (runes s) = string_forallb host_byte s.
Proof.
  induction s as [|a s IH]; [done|]. destruct (Z.lt_ge_cases (byte_of a) 128) as [Ha|Ha].
  - rewrite runes_ascii_cons by done. simpl. rewrite IH. done.
  - rewrite runes_cons by done. pose proof (decode_rune_high a s Ha) as Hd. cbn [forallb fst].
    assert (host_rune (decode_rune (String a s)).1 = false) as ->.
    { apply not_true_iff_false. unfold host_rune. rewrite !orb_true_iff, !in_range_true, Z.eqb_eq. lia. }
    symmetry. simpl. apply andb_false_iff. left. apply not_true_iff_false. unfold host_byte.
    rewrite !orb_true_iff, !in_range_true, Z.eqb_eq. lia.
Qed.

Lemma split_on_forallb p sep s :
  Forall (λ label, string_forallb p label = true) (split_on sep s) →
  string_forallb (λ a, p a || (byte_of a =? sep)) s = true.
Proof.
  induction s as [|a s IH]; [done|]. simpl. destruct (byte_of a =? sep) eqn:Ea; rewrite ?orb_true_r, ?orb_false_r; simpl.
  - intros [_ H]%Forall_cons. by apply IH.
  - destruct (split_on sep s) as [|part parts] eqn:E.
    + intros [H _]%Forall_cons. simpl in H. apply andb_true_iff in H as [-> _]. by apply IH.
    + intros [H Hs]%Forall_cons. simpl in H. apply andb_true_iff in H as [-> H]. apply IH. by constructor.
Qed.

Lemma ends_with_label sep s : ends_with sep s = true → ∃ part parts, split_on sep s = part :: parts ++ [""].
Proof.
  unfold ends_with. induction s as [|a [|b s] IH]; [done| |].
  - simpl. intros ->. by exists "", [].
  - intros H. destruct (IH H) as (part & parts & E).
    change (split_on sep (String a (String b s))) with
      (if byte_of a =? sep then "" :: split_on sep (String b s) else
       match split_on sep (String b s) with part :: parts => String a part :: parts | [] => [String a ""] end).
    rewrite E. destruct (byte_of a =? sep); [by exists "", (part :: parts)|by exists (String a part), parts].
Qed.

Section Names.
Context (ToLower : string → string) (ToLower_ascii : ∀ s, is_ascii s = true → ToLower s = ascii_lower s).

(** A label of a host name: 1 to 63 bytes of [a-z0-9-], no hyphen at an end. *)
Definition dns_label (label : string) : Prop :=
  1 ≤ len label ≤ 63 ∧ string_forallb host_byte label = true ∧ starts_with 45 label = false ∧ ends_with 45 label = false.

Lemma valid_label_iff label : valid_label label = true ↔ dns_label label.
Proof.
  unfold valid_label, dns_label. rewrite host_runes, andb_true_iff, negb_true_iff, !orb_false_iff, bool_decide_eq_false,
    <-len_zero, Z.ltb_ge. pose proof (len_nonneg label). intuition lia.
Qed.

Lemma host_ascii_lower s :
  string_forallb (λ a, host_byte a || (byte_of a =? 46)) s = true → is_ascii s = true ∧ ascii_lower s = s.
Proof.
  intros H. assert (Hb : ∀ a, host_byte a || (byte_of a =? 46) = true → (byte_of a <? 128) = true ∧ ascii_lower_byte a = a).
  { intros a. unfold host_byte, ascii_lower_byte, upper. rewrite !orb_true_iff, !in_range_true, !Z.eqb_eq, Z.ltb_lt.
    intros Ha. split; [lia|]. destruct (in_range 65 90 (byte_of a)) eqn:E; [apply in_range_true in E; lia|done]. }
  split; [by eapply string_forallb_impl; [|exact H]; apply Hb|].
  induction s as [|a s IH]; [done|]. simpl in *. apply andb_true_iff in H as [Ha H].
  rewrite (proj2 (Hb a Ha)), IH by done. done.
Qed.

(** [validDNSName] accepts exactly the lower-case host names of at most 253
    bytes whose labels are all well formed. *)
Lemma validDNSName_iff host :
  validDNSName ToLower host = true ↔ 1 ≤ len host ≤ 253 ∧ Forall dns_label (split_on 46 host).
Proof.
  unfold validDNSName. split.
  - case_match eqn:E; [done|]. intros H. bool_to_prop. rewrite <-len_zero in *. pose proof (len_nonneg host).
    split; [lia|]. apply Forall_forall. intros l Hl. apply valid_label_iff.
    by apply (proj1 (forallb_forall _ _) H), list_elem_of_In.
  - intros [Hlen Hlabels].
    assert (Hbytes : string_forallb (λ a, host_byte a || (byte_of a =? 46)) host = true).
    { apply split_on_forallb. eapply Forall_impl; [exact Hlabels|]. by intros l (_ & ? & _). }
    apply host_ascii_lower in Hbytes as [Hascii Hlower].
    rewrite (ToLower_ascii host Hascii), Hlower. rewrite (bool_decide_eq_true_2 (host = host)) by done.
    rewrite bool_decide_eq_false_2 by (rewrite <-len_zero; lia). rewrite (proj2 (Z.ltb_ge _ _)) by lia. simpl.
    destruct (ends_with 46 host) eqn:Hdot.
    + apply ends_with_label in Hdot as (part & parts & E). rewrite E in Hlabels.
      apply Forall_cons in Hlabels as [_ Hl]. apply Forall_app in Hl as [_ Hl].
      apply Forall_cons in Hl as [[Hl _] _]. unfold len in Hl. simpl in Hl. lia.
    + apply forallb_forall. intros l Hl%list_elem_of_In. apply valid_label_iff.
      by apply (proj1 (Forall_forall _ _) Hlabels).
Qed.

(** ** Resolution *)
Lemma collect_public_ok addresses acc l :
  NoDup acc → collect_public addresses acc = Some l →
  NoDup l ∧ (∀ a, a ∈ l ↔ a ∈ acc ∨ a ∈ Unmap <$> addresses) ∧
  Forall (λ a, isPublicCallbackAddress (Unmap a) = true) addresses.
Proof.
  revert acc. induction addresses as [|raw addresses IH]; intros acc Hnd; simpl.
  - intros [= <-]. split; [done|]. split; [|done]. intros a. rewrite elem_of_nil. tauto.
  - destruct (isPublicCallbackAddress (Unmap raw)) eqn:Hp; [|done]. simpl. case_bool_decide as Hin.
    + intros (Hl & Ha & Hall)%IH; [|done]. split; [done|]. split; [|by constructor].
      intros a. rewrite Ha. set_solver.
    + intros (Hl & Ha & Hall)%IH; [|apply NoDup_app; split_and!; [done|set_solver|apply NoDup_singleton]].
      split; [done|]. split; [|by constructor]. intros a. rewrite Ha. set_solver.
Qed.

Lemma collect_public_None addresses acc :
  collect_public addresses acc = None → ∃ raw, raw ∈ addresses ∧ isPublicCallbackAddress (Unmap raw) = false.
Proof.
  revert acc. induction addresses as [|raw addresses IH]; intros acc; simpl; [done|].
  destruct (isPublicCallbackAddress (Unmap raw)) eqn:Hp; simpl; [|exists raw; split; [by left|done]].
  case_bool_decide; intros (r & Hr & ?)%IH; exists r; (split; [by right|done]).
Qed.

#[export] Instance Compare_le_total : Total Compare_le.
Proof.
  intros [|x|x zx] [|y|y zy]; simpl; auto; try lia.
  destruct (Z.lt_trichotomy x y) as [?|[->|?]]; [tauto| |tauto]. destruct (String.leb_total zx zy); auto.
Qed.

Lemma string_leb_trans x y z : String.leb x y = true → String.leb y z = true → String.leb x z = true.
Proof.
  unfold String.leb. revert y z. induction x as [|a x IH]; intros [|b y] [|c z]; simpl; try done.
  unfold Ascii.compare.
  destruct (N.compare_spec (Ascii.N_of_ascii a) (Ascii.N_of_ascii b)) as [E1|E1|E1];
    destruct (N.compare_spec (Ascii.N_of_ascii b) (Ascii.N_of_ascii c)) as [E2|E2|E2]; try done;
    destruct (N.compare_spec (Ascii.N_of_ascii a) (Ascii.N_of_ascii c)) as [E3|E3|E3]; try done; try lia.
  apply IH.
Qed.

#[export] Instance Compare_le_trans : Transitive Compare_le.
Proof.
  intros [|x|x zx] [|y|y zy] [|z|z zz]; simpl; try done; try lia.
  intros [?|[-> ?]] [?|[-> ?]]; [left; lia|by left|by left|right]. split; [done|]. by eapply string_leb_trans.
Qed.

Context (LookupNetIP : string → option (list Addr)).

(** Addresses fit their family. *)
Definition lookup_well_formed : Prop := ∀ host l, LookupNetIP host = Some l → Forall (λ a, well_formed (Unmap a)) l.

Lemma resolvePublicCallback_ok host l :
  lookup_well_formed → resolvePublicCallback ToLower LookupNetIP host = Ok l →
  ∃ addresses, LookupNetIP host = Some addresses ∧ Forall (λ a, public_address (Unmap a)) addresses ∧
    NoDup l ∧ Sorted Compare_le l ∧ (∀ a, a ∈ l ↔ a ∈ Unmap <$> addresses).
Proof.
  intros Hwf. unfold resolvePublicCallback. destruct (negb _); [done|]. destruct (LookupNetIP host) as [addrs|] eqn:El; [|done].
  specialize (Hwf _ _ El). destruct addrs as [|a0 addrs]; [done|]. remember (a0 :: addrs) as all.
  destruct (collect_public all []) as [res|] eqn:Ec; [|done]. intros [= <-].
  apply collect_public_ok in Ec as (Hnd & Hin & Hall); [|apply NoDup_nil_2].
  exists all. split; [done|]. split.
  { rewrite Forall_forall in *. intros a Ha. apply public_iff; [by apply Hwf|by apply Hall]. }
  split; [by rewrite merge_sort_Permutation|]. split; [apply Sorted_merge_sort, _|].
  intros a. rewrite merge_sort_Permutation, Hin, elem_of_nil. tauto.
Qed.

Lemma resolvePublicCallback_unsafe host :
  lookup_well_formed → resolvePublicCallback ToLower LookupNetIP host = Err ResolveUnsafe →
  ∃ addresses raw, LookupNetIP host = Some addresses ∧ raw ∈ addresses ∧ ¬ public_address (Unmap raw).
Proof.
  intros Hwf. unfold resolvePublicCallback. destruct (negb _); [done|]. destruct (LookupNetIP host) as [addrs|] eqn:El; [|done].
  specialize (Hwf _ _ El). destruct addrs as [|a0 addrs]; [done|]. remember (a0 :: addrs) as all.
  destruct (collect_public all []) as [res|] eqn:Ec; [done|]. intros _.
  apply collect_public_None in Ec as (raw & Hraw & Hp). exists all, raw. split; [done|]. split; [done|].
  rewrite <-public_iff by (by apply (proj1 (Forall_forall _ _) Hwf)). by rewrite Hp.
Qed.

Context {Conn : Type} (dial : Addr → Z → option Conn).

Lemma dial_first_ok l port a c :
  dial_first dial l port = Some (a, c) →
  ∃ before after, l = before ++ a :: after ∧ dial a port = Some c ∧ Forall (λ b, dial b port = None) before.
Proof.
  induction l as [|b l IH]; simpl; [done|]. destruct (dial b port) as [c'|] eqn:E.
  - intros [= <- <-]. by exists [], l.
  - intros (before & after & -> & ? & ?)%IH. exists (b :: before), after. split; [done|]. split; [done|]. by constructor.
Qed.

(** C33: Callbacks cannot be steered into private networks. A connection of the
    callback transport goes to an address the registered host resolves to, on
    the registered port, outside every prohibited IPv4 range and, for IPv6,
    inside [2000::/3] and outside the ranges reserved there, and only when every
    address of the host is such; addresses that sort before it could not be
    dialled. *)
Theorem callback_dials_public_addresses host port a c :
  lookup_well_formed → DialContext ToLower LookupNetIP dial host port = Ok (a, c) →
  (1 ≤ len host ≤ 253 ∧ Forall dns_label (split_on 46 host)) ∧ dial a port = Some c ∧ public_address a ∧
  ∃ addresses, LookupNetIP host = Some addresses ∧ a ∈ Unmap <$> addresses ∧
    Forall (λ b, public_address (Unmap b)) addresses ∧
    ∀ b, b ∈ Unmap <$> addresses → dial b port ≠ None → b = a ∨ Compare_le a b.
Proof.
  intros Hwf. unfold DialContext. destruct (resolvePublicCallback _ _ _) as [l|e] eqn:E; [|done].
  destruct (dial_first dial l port) as [[a' c']|] eqn:Ed; [|done]. intros [= <- <-].
  split.
  { apply validDNSName_iff. unfold resolvePublicCallback in E. by destruct (validDNSName ToLower host). }
  apply resolvePublicCallback_ok in E as (addrs & El & Hall & Hnd & Hsort & Hin); [|done].
  apply dial_first_ok in Ed as (before & after & -> & Hd & Hbefore).
  assert (Ha : a' ∈ Unmap <$> addrs) by (apply Hin; set_solver).
  split; [done|]. split.
  { apply list_elem_of_fmap in Ha as (raw & -> & Hraw). by apply (proj1 (Forall_forall _ _) Hall). }
  exists addrs. split_and!; [done..|]. intros b Hb Hdial. apply Hin in Hb.
  apply elem_of_app in Hb as [Hb|Hb]; [by rewrite (proj1 (Forall_forall _ _) Hbefore b Hb) in Hdial|].
  apply elem_of_cons in Hb as [->|Hb]; [by left|right].
  apply (Sorted_StronglySorted _) in Hsort. apply StronglySorted_app_1_r in Hsort as Hs.
  apply StronglySorted_inv in Hs as [_ Hs]. by apply (proj1 (Forall_forall _ _) Hs).
Qed.
End Names.
