(* ===== verification/WebhookDelivery.v ===== *)
(** * One webhook delivery, [internal/external/webhook.go]

    Validation and signature of a delivery, and the classification of what the
    transport answers.

    Parameters: the URL and address functions of [CallbackTransport], the
    top-level members a [json.Decoder] reads from a body, HMAC-SHA256,
    [http.ParseTime], and the round trip of the HTTP transport. *)
From stdpp Require Import prelude gmap strings pretty.
From S2P Require Import Prelude.
From S2P Require Import GoText.
From S2P Require Import Manifest.
From S2P Require Import Store.
From S2P Require Import CallbackTransport.
From S2P Require Import Webhook.

Open Scope Z_scope.

Record WebhookOutcome : Type := mkOutcome {
  oc_Disposition : WebhookDisposition;
  oc_HTTPStatus : Z;
  oc_RetryAfter : Z;
  oc_ErrorCode : string
}.

Record WebhookDelivery : Type := mkDelivery {
  wv_EventID : string;
  wv_DestinationURL : string;
  wv_Secret : string;
  wv_Body : string
}.

Definition permanentWebhookOutcome (code : string) : WebhookOutcome :=
  mkOutcome WebhookPermanentFailure 0 0 code.

Definition retryNetworkOutcome : WebhookOutcome := mkOutcome WebhookRetry 0 0 WebhookErrorNetwork.

Definition maximumWebhookBodyBytes : Z := 1048576.

(** The answer of a transport: an error, that wraps
    [ErrUnsafeCallbackDestination] or not, no response, or a status with its
    [Retry-After] header and the time it arrived. *)
Inductive round_trip : Type :=
| RoundTripUnsafe
| RoundTripError
| RoundTripNothing
| RoundTripResponse (status : Z) (retryAfter : string) (responseTime : Z).

Record webhook_request : Type := mkRequest {
  rq_URL : string;
  rq_EventID : string;
  rq_Timestamp : string;
  rq_Signature : string;
  rq_Body : string
}.

Definition newline : string := String (ascii_of_byte 10) "".

(** The bytes [signWebhook] feeds to the HMAC. *)
Definition signed_message (eventID timestamp body : string) : string :=
  "v1" +:+ newline +:+ pretty (len eventID) +:+ newline +:+ eventID +:+ newline +:+ timestamp +:+ newline +:+ body.

Section Delivery.
Context (ToLower : string → string) (url_Parse : string → option URL) (ParseAddr : string → bool).
Context (json_members : string → option (list (string * option string))).
Context (hmac_sha256 : string → string → string) (ParseTime : string → option Z).

Definition signWebhook (secret eventID timestamp body : string) : string :=
  "v1=" +:+ hex_encode (hmac_sha256 secret (signed_message eventID timestamp body)).

(** The members of the body in order: [found] is the [eventId] seen so far. *)
Fixpoint scan_event_id (found : option string) (members : list (string * option string)) : option string :=
  match members with
  | [] => found
  | (key, value) :: members =>
      if bool_decide (key = "eventId") then
        match found, value with
        | None, Some eventID => scan_event_id (Some eventID) members
        | _, _ => None
        end
      else scan_event_id found members
  end.

Definition webhookBodyEventID (body : string) : option string :=
  match json_members body with
  | None => None
  | Some members =>
      match scan_event_id None members with
      | Some eventID => if externalIDPattern eventID then Some eventID else None
      | None => None
      end
  end.

Definition validateWebhookDelivery (delivery : WebhookDelivery) : bool :=
  if negb (externalIDPattern (wv_EventID delivery)) then false
  else if negb (is_some (parseHTTPSDestination ToLower url_Parse ParseAddr (wv_DestinationURL delivery))) then false
  else if (len (wv_Secret delivery) <? 32) || (1024 <? len (wv_Secret delivery)) then false
  else if (len (wv_Body delivery) =? 0) || (maximumWebhookBodyBytes <? len (wv_Body delivery)) then false
  else match webhookBodyEventID (wv_Body delivery) with
       | Some eventID => bool_decide (eventID = wv_EventID delivery)
       | None => false
       end.

Definition parseWebhookRetryAfter (raw : string) (now maximum : Z) : Z :=
  let raw := trim_space raw in
  if bool_decide (raw = "") then 0
  else
    match ParseUint 64 raw with
    | Some seconds =>
        if max_int64 / second <? seconds then 0
        else if maximum / second <? seconds then maximum
        else seconds * second
    | None =>
        match ParseTime raw with
        | None => 0
        | Some date =>
            let delay := date - now in
            if delay <=? 0 then 0 else if maximum <? delay then maximum else delay
        end
    end.

(** [DeliverOutcome] at [requestTime]; [RoundTrip] is the configured
    transport. *)
Definition DeliverOutcome (RoundTrip : webhook_request → round_trip) (delivery : WebhookDelivery)
    (requestTime retryAfterMaximum : Z) : WebhookOutcome :=
  if (retryAfterMaximum <=? 0) || (maximumWebhookRetryAfter <? retryAfterMaximum)
  then permanentWebhookOutcome WebhookErrorConfiguration
  else if negb (validateWebhookDelivery delivery) then permanentWebhookOutcome WebhookErrorInvalidDelivery
  else
    let timestamp := pretty (unix_seconds requestTime) in
    match RoundTrip (mkRequest (wv_DestinationURL delivery) (wv_EventID delivery) timestamp
                       (signWebhook (wv_Secret delivery) (wv_EventID delivery) timestamp (wv_Body delivery))
                       (wv_Body delivery)) with
    | RoundTripUnsafe => permanentWebhookOutcome WebhookErrorUnsafeDestination
    | RoundTripError | RoundTripNothing => retryNetworkOutcome
    | RoundTripResponse status retryAfter responseTime =>
        if (status <? 200) || (599 <? status) then permanentWebhookOutcome WebhookErrorInvalidDelivery
        else if (200 <=? status) && (status <? 300) then mkOutcome WebhookDelivered status 0 ""
        else if (status =? 408) || (status =? 425) || (status =? 429) || ((500 <=? status) && (status <=? 599))
        then mkOutcome WebhookRetry status
               (parseWebhookRetryAfter retryAfter responseTime retryAfterMaximum) WebhookErrorHTTPRetryable
        else mkOutcome WebhookPermanentFailure status 0 WebhookErrorHTTPPermanent
    end.

(** [safeCallbackTransport.RoundTrip]: the URL of the request, parsed and
    printed again, must be on the registered host and port. *)
Definition safe_RoundTrip (url_String : URL → string) (transport : safeCallbackTransport)
    (RoundTrip : webhook_request → round_trip) (request : webhook_request) : round_trip :=
  match url_Parse (rq_URL request) with
  | None => RoundTripError
  | Some url =>
      match validateCallbackDestination ToLower url_Parse ParseAddr (url_String url) (tr_host transport) (tr_port transport) with
      | None => RoundTripUnsafe
      | Some _ => RoundTrip request
      end
  end.

(** ** Outcomes *)

(** What an outcome can be. *)
Definition outcome_ok (maximum : Z) (o : WebhookOutcome) : Prop :=
  match oc_Disposition o with
  | WebhookDelivered => 200 ≤ oc_HTTPStatus o ≤ 299 ∧ oc_ErrorCode o = ""
  | WebhookRetry =>
      (oc_ErrorCode o = WebhookErrorNetwork ∧ oc_HTTPStatus o = 0 ∧ oc_RetryAfter o = 0) ∨
      (oc_ErrorCode o = WebhookErrorHTTPRetryable ∧ retryableWebhookHTTPStatus (oc_HTTPStatus o) = true ∧
       0 ≤ oc_RetryAfter o ≤ maximum)
  | WebhookPermanentFailure =>
      (oc_ErrorCode o = WebhookErrorHTTPPermanent ∧ permanentWebhookHTTPStatus (oc_HTTPStatus o) = true) ∨
      (oc_HTTPStatus o = 0 ∧ oc_ErrorCode o ∈ [WebhookErrorConfiguration; WebhookErrorInvalidDelivery; WebhookErrorUnsafeDestination])
  | WebhookDispositionUnknown _ => False
  end.

Lemma parse_digits_nonneg acc s n : 0 ≤ acc → parse_digits acc s = Some n → acc ≤ n.
Proof.
  revert acc. induction s as [|a s IH]; intros acc Ha; simpl; [intros [= <-]; lia|].
  unfold digit. destruct (in_range 48 57 (byte_of a)) eqn:E; [|done]. apply in_range_true in E. intros H%IH; lia.
Qed.

Lemma ParseUint_range bits s n : ParseUint bits s = Some n → 0 ≤ n < 2 ^ bits.
Proof.
  unfold ParseUint. case_bool_decide; [done|]. destruct (parse_digits 0 s) eqn:E; [|done].
  destruct (Z.ltb_spec z (2 ^ bits)); [|done]. intros [= <-]. apply parse_digits_nonneg in E; lia.
Qed.

Lemma parseWebhookRetryAfter_range raw now maximum :
  0 < maximum → 0 ≤ parseWebhookRetryAfter raw now maximum ≤ maximum.
Proof.
  intros Hm. unfold parseWebhookRetryAfter. cbv zeta. case_bool_decide; [lia|].
  destruct (ParseUint 64 _) as [n|] eqn:E.
  - apply ParseUint_range in E. case_match; [lia|]. case_match eqn:Hn; [lia|]. apply Z.ltb_ge in Hn. unfold second in *.
    split; [lia|]. etransitivity; [apply Z.mul_le_mono_nonneg_r; [lia|exact Hn]|]. pose proof (Z.mul_div_le maximum 1000000000). lia.
  - destruct (ParseTime _); [|lia]. repeat case_match; bool_to_prop; lia.
Qed.

(** Every delivery ends in one of the outcomes the settlement accepts. *)
Lemma DeliverOutcome_ok RoundTrip delivery requestTime maximum :
  outcome_ok maximum (DeliverOutcome RoundTrip delivery requestTime maximum).
Proof.
  unfold DeliverOutcome, outcome_ok. cbv zeta.
  destruct ((maximum <=? 0) || _) eqn:Hm; [right; set_solver|]. bool_to_prop.
  destruct (negb _); [right; set_solver|].
  destruct (RoundTrip _) as [| | |status retryAfter responseTime]; [right; set_solver|by left..|].
  destruct ((status <? 200) || _) eqn:Es; [right; set_solver|]. bool_to_prop.
  destruct ((200 <=? status) && _) eqn:Ed; [bool_to_prop; simpl; split; [lia|done]|].
  destruct (_ || _ || _ || _) eqn:Er; simpl.
  - right. split; [done|]. split; [done|]. by apply parseWebhookRetryAfter_range.
  - left. split; [done|]. unfold permanentWebhookHTTPStatus, retryableWebhookHTTPStatus. rewrite Er. simpl.
    rewrite andb_true_r. apply andb_true_iff. rewrite !Z.leb_le. apply andb_false_iff in Ed. bool_to_prop.
    destruct Ed as [Ed|Ed]; bool_to_prop; lia.
Qed.
End Delivery.

(** ** The signed message *)
Definition no_newline (s : string) : Prop := string_forallb (λ a, negb (byte_of a =? 10)) s = true.

Lemma pretty_Z_no_newline (z : Z) : no_newline (pretty z).
Proof.
  eapply string_forallb_impl; [|apply pretty_Z_bytes]. intros a. unfold decimal_byte.
  rewrite orb_true_iff, in_range_true, negb_true_iff, Z.eqb_eq, Z.eqb_neq. lia.
Qed.

Lemma newline_split x y r r' :
  no_newline x → no_newline y → x +:+ newline +:+ r = y +:+ newline +:+ r' → x = y ∧ r = r'.
Proof. apply span_inj. reflexivity. Qed.

(** A webhook signature authenticates the event, the time and the body: the
    bytes fed to the HMAC determine all three, so no two different deliveries
    have the same signed message, whatever their event ids and bodies contain. *)
Lemma webhook_signature_unambiguous eventID eventID' time time' body body' :
  signed_message eventID (pretty (unix_seconds time)) body = signed_message eventID' (pretty (unix_seconds time')) body' →
  eventID = eventID' ∧ unix_seconds time = unix_seconds time' ∧ body = body'.
Proof.
  unfold signed_message. intros H.
  apply newline_split in H as [_ H]; [|reflexivity..].
  apply newline_split in H as [Hlen H]; [|apply pretty_Z_no_newline..].
  apply (inj pretty) in Hlen. unfold len in Hlen.
  apply append_inj in H as [-> H]; [|lia].
  apply append_inj in H as [_ H]; [|done].
  apply newline_split in H as [Ht ->]; [|apply pretty_Z_no_newline..].
  by apply (inj pretty) in Ht.
Qed.
