(* ===== verification/WebhookWorker.v ===== *)
(** * The webhook worker, [internal/external/webhook_worker.go]

    First its cache of transports, [webhookAuthorityCache]: a least-recently-used
    cache of deliverers by authority, whose elements are identified by numbers and
    whose operations return the closers they close; then the worker itself. *)
From stdpp Require Import prelude gmap strings pretty sorting.
From S2P Require Import Prelude.
From S2P Require Import GoText.
From S2P Require Import JobState.
From S2P Require Import Store.
From S2P Require Import JobWorker.
From S2P Require Import Webhook.
From S2P Require Import CallbackTransport.
From S2P Require Import WebhookDelivery.

Open Scope Z_scope.

Section Cache.
Context {D C : Type}.

Record webhookAuthorityEntry : Type := mkEntry {
  ae_key : string;
  ae_deliverer : D;
  ae_closer : C
}.

(** [ac_lru] from front to back; [ac_next] is the next element. *)
Record webhookAuthorityCache : Type := mkCache {
  ac_limit : nat;
  ac_closed : bool;
  ac_entries : gmap string nat;
  ac_lru : list (nat * webhookAuthorityEntry);
  ac_next : nat
}.

Definition newWebhookAuthorityCache (limit : nat) : webhookAuthorityCache := mkCache limit false ∅ [] 0.

(** [list.List] *)
Definition list_value (i : nat) (l : list (nat * webhookAuthorityEntry)) : option webhookAuthorityEntry :=
  snd <$> (list_find (λ p, p.1 = i) l ≫= λ p, Some p.2).

Definition list_remove_elem (i : nat) (l : list (nat * webhookAuthorityEntry)) : list (nat * webhookAuthorityEntry) :=
  filter (λ p, p.1 ≠ i) l.

Definition MoveToFront (i : nat) (l : list (nat * webhookAuthorityEntry)) : list (nat * webhookAuthorityEntry) :=
  match list_value i l with
  | Some e => (i, e) :: list_remove_elem i l
  | None => l
  end.

(** [None] when the key is not cached or the cache is closed. *)
Definition cache_Get (key : string) (cache : webhookAuthorityCache) : option D * webhookAuthorityCache :=
  if ac_closed cache then (None, cache)
  else
    match ac_entries cache !! key with
    | None => (None, cache)
    | Some element =>
        (ae_deliverer <$> list_value element (ac_lru cache),
         mkCache (ac_limit cache) false (ac_entries cache) (MoveToFront element (ac_lru cache)) (ac_next cache))
    end.

(** The deliverer to use ([None] for [ErrWebhookWorkerClosed]), the new cache and
    the closers closed. *)
Definition cache_Add (key : string) (deliverer : D) (closer : C) (cache : webhookAuthorityCache) :
    option D * webhookAuthorityCache * list C :=
  if ac_closed cache then (None, cache, [])
  else
    match ac_entries cache !! key with
    | Some existing =>
        (ae_deliverer <$> list_value existing (ac_lru cache),
         mkCache (ac_limit cache) false (ac_entries cache) (MoveToFront existing (ac_lru cache)) (ac_next cache),
         [closer])
    | None =>
        let element := ac_next cache in
        let lru := (element, mkEntry key deliverer closer) :: ac_lru cache in
        let entries := <[key := element]> (ac_entries cache) in
        if (ac_limit cache <? length lru)%nat then
          match last lru with
          | Some (evicted, entry) =>
              (Some deliverer,
               mkCache (ac_limit cache) false (delete (ae_key entry) entries) (list_remove_elem evicted lru) (S element),
               [ae_closer entry])
          | None => (Some deliverer, mkCache (ac_limit cache) false entries lru (S element), [])
          end
        else (Some deliverer, mkCache (ac_limit cache) false entries lru (S element), [])
    end.

Definition cache_Close (cache : webhookAuthorityCache) : webhookAuthorityCache * list C :=
  if ac_closed cache then (cache, [])
  else (mkCache (ac_limit cache) true ∅ [] (ac_next cache), (λ p : nat * webhookAuthorityEntry, ae_closer p.2) <$> ac_lru cache).

(** [cachedDeliverer] for a key: [made] is what the factory would answer. Returns
    the deliverer ([None] for an error), the cache, and the closers opened and
    closed on the way. *)
Definition cachedDeliverer_key (key : string) (made : option (D * C)) (cache : webhookAuthorityCache) :
    option D * webhookAuthorityCache * list C * list C :=
  match cache_Get key cache with
  | (Some deliverer, cache) => (Some deliverer, cache, [], [])
  | (None, cache) =>
      match made with
      | None => (None, cache, [], [])
      | Some (deliverer, closer) =>
          match cache_Add key deliverer closer cache with
          | (Some authoritative, cache, closed) => (Some authoritative, cache, [closer], closed)
          | (None, cache, closed) => (None, cache, [closer], closed ++ [closer])
          end
      end
  end.

(** ** Reference: a list of entries, most recently used first *)
Definition lru_find (key : string) (l : list webhookAuthorityEntry) : option webhookAuthorityEntry :=
  snd <$> list_find (λ e, ae_key e = key) l.

Definition lru_promote (key : string) (l : list webhookAuthorityEntry) : list webhookAuthorityEntry :=
  match lru_find key l with
  | Some e => e :: filter (λ e, ae_key e ≠ key) l
  | None => l
  end.

Definition lru_add (limit : nat) (e : webhookAuthorityEntry) (l : list webhookAuthorityEntry) :
    list webhookAuthorityEntry * list C :=
  (take limit (e :: l), ae_closer <$> drop limit (e :: l)).

(** The entries and the list agree. *)
Record cache_ok (cache : webhookAuthorityCache) : Prop := {
  co_ids : NoDup (ac_lru cache).*1;
  co_fresh : Forall (λ p, p.1 < ac_next cache)%nat (ac_lru cache);
  co_entries : ∀ key i, ac_entries cache !! key = Some i ↔ ∃ e, (i, e) ∈ ac_lru cache ∧ ae_key e = key;
  co_keys : NoDup (ae_key <$> (ac_lru cache).*2);
  co_length : (length (ac_lru cache) ≤ ac_limit cache)%nat;
  co_limit : (1 ≤ ac_limit cache)%nat;
  co_closed : ac_closed cache = true → ac_lru cache = []
}.

Definition cached (cache : webhookAuthorityCache) : list webhookAuthorityEntry := (ac_lru cache).*2.

(** ** The element list behaves as the reference list *)
Implicit Types (l : list (nat * webhookAuthorityEntry)) (cache : webhookAuthorityCache).

(** Element [i] is the only one with [key]. *)
Definition element_of (i : nat) (key : string) l : Prop := ∀ p, p ∈ l → p.1 = i ↔ ae_key p.2 = key.

Lemma list_value_find i key l : element_of i key l → list_value i l = lru_find key l.*2.
Proof.
  unfold list_value, lru_find. induction l as [|[j e] l IH]; intros H; [done|].
  assert (Hj : j = i ↔ ae_key e = key) by (apply (H (j, e)); left).
  assert (Hl : element_of i key l) by (intros p Hp; apply H; by right).
  specialize (IH Hl). rewrite fmap_cons. cbn [list_find fst snd]. destruct (decide (j = i)) as [Ej|Ej].
  - by rewrite decide_True by tauto.
  - rewrite (decide_False (P := ae_key e = key)) by tauto.
    destruct (list_find (λ p, p.1 = i) l) as [[x p]|], (list_find (λ e, ae_key e = key) l.*2) as [[y e']|]; simpl in *;
      naive_solver.
Qed.

Lemma list_remove_filter i key l :
  element_of i key l → (list_remove_elem i l).*2 = filter (λ e, ae_key e ≠ key) l.*2.
Proof.
  unfold list_remove_elem. induction l as [|[j e] l IH]; intros H; [done|].
  assert (Hj : j = i ↔ ae_key e = key) by (apply (H (j, e)); left).
  assert (Hl : element_of i key l) by (intros p Hp; apply H; by right).
  rewrite filter_cons, fmap_cons, filter_cons. simpl. destruct (decide (j = i)) as [Ej|Ej].
  - rewrite decide_False by tauto. rewrite decide_False by tauto. by apply IH.
  - rewrite decide_True by tauto. rewrite decide_True by tauto. rewrite fmap_cons. by rewrite IH.
Qed.

Lemma MoveToFront_promote i key l : element_of i key l → (MoveToFront i l).*2 = lru_promote key l.*2.
Proof.
  intros H. unfold MoveToFront, lru_promote. rewrite (list_value_find i key l H).
  destruct (lru_find key l.*2); [|done]. rewrite fmap_cons. by rewrite (list_remove_filter i key l H).
Qed.

Lemma list_value_elem i e l : list_value i l = Some e → (i, e) ∈ l.
Proof.
  unfold list_value. intros H. destruct (list_find (λ p, p.1 = i) l) as [[x [j e']]|] eqn:E; [|done]. simpl in H.
  injection H as <-. apply list_find_Some in E as (Hl & Hj & _). simpl in Hj. subst. by apply list_elem_of_lookup_2 in Hl.
Qed.

Lemma remove_absent i l : i ∉ l.*1 → list_remove_elem i l = l.
Proof.
  unfold list_remove_elem. induction l as [|[j e] l IH]; [done|]. rewrite fmap_cons, not_elem_of_cons. simpl.
  intros [Hne Hi]. rewrite filter_cons, decide_True by (simpl; congruence). by rewrite IH.
Qed.

Lemma remove_perm i e l : NoDup l.*1 → (i, e) ∈ l → (i, e) :: list_remove_elem i l ≡ₚ l.
Proof.
  unfold list_remove_elem. induction l as [|[j e'] l IH]; [by intros _ ?%not_elem_of_nil|].
  rewrite fmap_cons. intros [Hj Hnd]%NoDup_cons Hin. rewrite filter_cons. simpl in *.
  destruct (decide (j = i)) as [->|Hne].
  - rewrite decide_False by tauto. apply elem_of_cons in Hin as [[= ->]|Hin].
    + fold (list_remove_elem i l). by rewrite remove_absent.
    + exfalso. apply Hj. apply list_elem_of_fmap. by exists (i, e).
  - rewrite decide_True by done. apply elem_of_cons in Hin as [[= -> _]|Hin]; [done|].
    rewrite Permutation_swap. by rewrite IH.
Qed.

Lemma MoveToFront_perm i l : NoDup l.*1 → MoveToFront i l ≡ₚ l.
Proof.
  intros Hnd. unfold MoveToFront. destruct (list_value i l) as [e|] eqn:E; [|done].
  apply remove_perm; [done|by apply list_value_elem].
Qed.

Lemma cached_element cache key i :
  cache_ok cache → ac_entries cache !! key = Some i → element_of i key (ac_lru cache).
Proof.
  intros Hok Hi [j e] Hp. simpl. split.
  - intros ->. apply (co_entries cache Hok) in Hi as (e' & Hin & <-).
    f_equal. pose proof (co_ids cache Hok) as Hnd. clear -Hp Hin Hnd.
    induction (ac_lru cache) as [|[k x] l IH]; [by apply not_elem_of_nil in Hp|].
    rewrite fmap_cons in Hnd. apply NoDup_cons in Hnd as [Hk Hnd]. simpl in Hk.
    apply elem_of_cons in Hp as [Hp|Hp], Hin as [Hin|Hin]; simplify_eq; auto;
      exfalso; apply Hk, list_elem_of_fmap; by eexists (_, _).
  - intros E. assert (Hj : ac_entries cache !! key = Some j) by (apply (co_entries cache Hok); eauto). congruence.
Qed.

Lemma cached_None cache key : cache_ok cache → ac_entries cache !! key = None ↔ lru_find key (cached cache) = None.
Proof.
  intros Hok. unfold lru_find, cached. rewrite fmap_None, list_find_None, Forall_forall. split.
  - intros Hn e He Hk. apply list_elem_of_fmap in He as ([j e'] & -> & Hj). simpl in Hk.
    assert (Hs : ac_entries cache !! key = Some j) by (apply (co_entries cache Hok); eauto). congruence.
  - intros H. destruct (ac_entries cache !! key) as [i|] eqn:E; [|done]. exfalso.
    apply (co_entries cache Hok) in E as (e & Hin & Hk). apply (H e); [|done]. apply list_elem_of_fmap. by exists (i, e).
Qed.

(** Reordering the list keeps the cache well formed. *)
Lemma cache_ok_perm cache l :
  cache_ok cache → ac_closed cache = false → l ≡ₚ ac_lru cache →
  cache_ok (mkCache (ac_limit cache) false (ac_entries cache) l (ac_next cache)).
Proof.
  intros [] Hc Hl. split; simpl; [..|done].
  - by rewrite Hl.
  - by rewrite Hl.
  - intros key i. rewrite co_entries0. by setoid_rewrite Hl.
  - by rewrite Hl.
  - by rewrite Hl.
  - done.
Qed.

Lemma last_split l p : last l = Some p → ∃ front, l = front ++ [p].
Proof. intros H. by apply last_Some. Qed.

(** ** The operations *)
Lemma new_cache_ok limit : (1 ≤ limit)%nat → cache_ok (newWebhookAuthorityCache limit).
Proof.
  intros H. split; simpl; [apply NoDup_nil_2|done| |apply NoDup_nil_2|lia|done|done].
  intros key i. rewrite lookup_empty. split; [done|]. intros (e & []%not_elem_of_nil & _).
Qed.

Lemma cache_Get_spec cache key :
  cache_ok cache → ac_closed cache = false →
  (cache_Get key cache).1 = ae_deliverer <$> lru_find key (cached cache) ∧
  cached (cache_Get key cache).2 = lru_promote key (cached cache) ∧
  cache_ok (cache_Get key cache).2 ∧ ac_closed (cache_Get key cache).2 = false ∧
  cached (cache_Get key cache).2 ≡ₚ cached cache ∧ ac_limit (cache_Get key cache).2 = ac_limit cache.
Proof.
  intros Hok Hc. unfold cache_Get. rewrite Hc. destruct (ac_entries cache !! key) as [i|] eqn:E.
  - pose proof (cached_element cache key i Hok E) as He. simpl. unfold cached. rewrite (list_value_find i key) by done.
    pose proof (MoveToFront_perm i _ (co_ids cache Hok)) as Hp.
    split_and!; [done|by apply MoveToFront_promote|by apply cache_ok_perm|done|by simpl; rewrite Hp|done].
  - apply (cached_None cache key Hok) in E as Hf. unfold lru_promote. rewrite Hf. done.
Qed.

Lemma fresh_not_in cache : cache_ok cache → ac_next cache ∉ (ac_lru cache).*1.
Proof.
  intros Hok Hin. apply list_elem_of_fmap in Hin as ([j e] & Hj & Hp).
  pose proof (proj1 (Forall_forall _ _) (co_fresh cache Hok) _ Hp). simpl in *. lia.
Qed.

(** Adding a key that is not cached. *)
Lemma cache_Add_new cache key deliverer closer :
  cache_ok cache → ac_closed cache = false → ac_entries cache !! key = None →
  ∃ cache' closed, cache_Add key deliverer closer cache = (Some deliverer, cache', closed) ∧
    (cached cache', closed) = lru_add (ac_limit cache) (mkEntry key deliverer closer) (cached cache) ∧
    cache_ok cache' ∧ ac_closed cache' = false ∧ ac_limit cache' = ac_limit cache.
Proof.
  intros Hok Hc Hn. unfold cache_Add. rewrite Hc, Hn. cbv zeta.
  pose proof (fresh_not_in cache Hok) as Hfresh. pose proof (co_length cache Hok) as Hlen.
  pose proof (proj1 (cached_None cache key Hok) Hn) as Hkey.
  set (e := mkEntry key deliverer closer). set (l := (ac_next cache, e) :: ac_lru cache).
  assert (Hids : NoDup l.*1) by (by constructor; [|apply (co_ids cache Hok)]).
  assert (Hkeys : NoDup (ae_key <$> l.*2)).
  { constructor; [|apply (co_keys cache Hok)]. unfold lru_find in Hkey. rewrite fmap_None, list_find_None, Forall_forall in Hkey.
    intros (x & Hx & Hin)%list_elem_of_fmap. by apply (Hkey x). }
  assert (Hnext : Forall (λ p, p.1 < S (ac_next cache))%nat l).
  { constructor; [simpl; lia|]. eapply Forall_impl; [apply (co_fresh cache Hok)|]. simpl. lia. }
  assert (Hent : ∀ k i, <[key := ac_next cache]> (ac_entries cache) !! k = Some i ↔ ∃ e, (i, e) ∈ l ∧ ae_key e = k).
  { intros k i. unfold l. setoid_rewrite elem_of_cons. rewrite lookup_insert_Some. split.
    - intros [[<- <-]|[Hne Hi]]; [by exists e; auto|]. apply (co_entries cache Hok) in Hi as (x & ? & ?). eauto.
    - intros (x & [[= -> ->]|Hin] & <-); [by left|].
      assert (Hx : ac_entries cache !! ae_key x = Some i) by (apply (co_entries cache Hok); eauto).
      right. split; [|done]. intros Ek. rewrite <-Ek in Hx. congruence. }
  destruct (Nat.ltb_spec (ac_limit cache) (length l)) as [Hfull|Hroom].
  - assert (Hl : length l = S (ac_limit cache)) by (simpl in *; lia).
    destruct (last l) as [[ev en]|] eqn:El; [|by apply last_None in El].
    apply last_split in El as [front El].
    assert (Hfront : list_remove_elem ev l = front ∧ ev ∉ front.*1).
    { rewrite El in Hids. rewrite fmap_app in Hids. apply NoDup_app in Hids as (_ & Hdis & _).
      assert (ev ∉ front.*1) by (intros Hin; apply (Hdis ev Hin); simpl; by left). split; [|done].
      rewrite El. unfold list_remove_elem. rewrite filter_app. fold (list_remove_elem ev front). rewrite remove_absent by done.
      rewrite filter_cons, decide_False by (simpl; tauto). rewrite filter_nil. by rewrite app_nil_r. }
    destruct Hfront as [-> Hev].
    assert (Hlf : length front = ac_limit cache) by (rewrite El, length_app in Hl; simpl in Hl; lia).
    eexists _, _. split; [done|]. unfold lru_add, cached. cbn [ac_lru ac_closed ac_limit].
    change (e :: (ac_lru cache).*2) with l.*2. rewrite El, fmap_app. rewrite <-Hlf.
    rewrite <-(length_fmap snd front), take_app_length, drop_app_length. split; [done|].
    split; [|by rewrite length_fmap].
    rewrite El in *. rewrite !fmap_app in *. split; cbn [ac_lru ac_next ac_entries ac_limit ac_closed]; [..|done].
    + by apply NoDup_app in Hids as (? & _).
    + by apply Forall_app in Hnext as [? _].
    + intros k i. rewrite lookup_delete_Some, Hent. setoid_rewrite elem_of_app. split.
      * intros (Hne & x & [Hin|Hin] & Hk); [eauto|]. apply list_elem_of_singleton in Hin as [= -> ->]. done.
      * intros (x & Hin & <-). split; [|eauto]. apply NoDup_app in Hkeys as (_ & Hdis & _).
        intros Ek. apply (Hdis (ae_key x)); [|rewrite <-Ek; simpl; by left].
        apply list_elem_of_fmap. exists x. split; [done|]. apply list_elem_of_fmap. by exists (i, x).
    + by apply NoDup_app in Hkeys as (? & _).
    + by rewrite length_fmap, Hlf.
    + rewrite length_fmap, Hlf. apply (co_limit cache Hok).
  - eexists _, _. split; [done|]. unfold lru_add, cached. cbn [ac_lru ac_closed ac_limit].
    change (e :: (ac_lru cache).*2) with l.*2. rewrite take_ge, drop_ge by (rewrite length_fmap; lia). split; [done|].
    split; [|done]. split; cbn [ac_lru ac_next ac_entries ac_limit ac_closed]; try done. apply (co_limit cache Hok).
Qed.

(** ** A run of the worker *)

(** The authorities asked for, with what the factory would answer; the result
    is the cache with the closers opened and closed so far. *)
Fixpoint run_requests (requests : list (string * option (D * C))) (cache : webhookAuthorityCache) :
    webhookAuthorityCache * list C * list C :=
  match requests with
  | [] => (cache, [], [])
  | (key, made) :: requests =>
      match cachedDeliverer_key key made cache with
      | (_, cache, opened, closed) =>
          match run_requests requests cache with
          | (cache, opened', closed') => (cache, opened ++ opened', closed ++ closed')
          end
      end
  end.

Definition live_closers (cache : webhookAuthorityCache) : list C := ae_closer <$> cached cache.

(** The reference behaviour of [cachedDeliverer]. *)
Definition lru_deliverer (limit : nat) (key : string) (made : option (D * C)) (l : list webhookAuthorityEntry) :
    option D * list webhookAuthorityEntry * list C * list C :=
  match lru_find key l with
  | Some e => (Some (ae_deliverer e), lru_promote key l, [], [])
  | None =>
      match made with
      | None => (None, l, [], [])
      | Some (deliverer, closer) =>
          let '(l', closed) := lru_add limit (mkEntry key deliverer closer) l in
          (Some deliverer, l', [closer], closed)
      end
  end.

Lemma cachedDeliverer_spec cache key made :
  cache_ok cache → ac_closed cache = false →
  let '(d, cache', opened, closed) := cachedDeliverer_key key made cache in
  (d, cached cache', opened, closed) = lru_deliverer (ac_limit cache) key made (cached cache) ∧
  cache_ok cache' ∧ ac_closed cache' = false ∧ ac_limit cache' = ac_limit cache.
Proof.
  intros Hok Hc. unfold cachedDeliverer_key, lru_deliverer.
  destruct (cache_Get_spec cache key Hok Hc) as (Hg & Hp & Hok' & Hc' & _ & Hl).
  destruct (cache_Get key cache) as [r c'] eqn:E. simpl in Hg, Hp, Hok', Hc', Hl. destruct (lru_find key (cached cache)) as [e|] eqn:Ef; simpl in Hg.
  - subst r. by rewrite Hp.
  - subst r. unfold lru_promote in Hp. rewrite Ef in Hp. destruct made as [[d c]|]; [|by rewrite Hp].
    assert (Hn : ac_entries c' !! key = None) by (apply cached_None; [done|by rewrite Hp]).
    destruct (cache_Add_new c' key d c Hok' Hc' Hn) as (c2 & closed & -> & Hadd & ? & ? & ?).
    rewrite <-Hl, <-Hp, <-Hadd. split; [done|]. split; [done|]. split; [done|]. congruence.
Qed.

Lemma lru_promote_perm key (es : list webhookAuthorityEntry) : NoDup (ae_key <$> es) → lru_promote key es ≡ₚ es.
Proof.
  unfold lru_promote, lru_find. induction es as [|y es IH]; [done|]. rewrite fmap_cons. intros [Hy Hnd]%NoDup_cons.
  specialize (IH Hnd). cbn [list_find]. rewrite filter_cons. destruct (decide (ae_key y = key)) as [E|E].
  - rewrite decide_False by tauto. simpl. f_equiv. clear IH. subst key.
    induction es as [|z es IH]; [done|]. rewrite fmap_cons, not_elem_of_cons in Hy. destruct Hy as [Hz Hy].
    rewrite filter_cons, decide_True by congruence. f_equiv. apply IH; [done|]. by apply NoDup_cons in Hnd as [_ ?].
  - rewrite decide_True by done. destruct (list_find _ es) as [[i x]|]; simpl in *; [|done].
    rewrite Permutation_swap. by rewrite IH.
Qed.

Lemma lru_deliverer_conserves limit key made (es : list webhookAuthorityEntry) :
  NoDup (ae_key <$> es) →
  let '(_, es', opened, closed) := lru_deliverer limit key made es in
  opened ++ (ae_closer <$> es) ≡ₚ closed ++ (ae_closer <$> es').
Proof.
  intros Hnd. unfold lru_deliverer. destruct (lru_find key es) as [e|] eqn:Ef; [by simpl; rewrite lru_promote_perm|].
  destruct made as [[d c]|]; [|done]. unfold lru_add.
  by rewrite (Permutation_app_comm (_ <$> drop _ _)), <-fmap_app, take_drop.
Qed.

Lemma run_requests_spec requests cache :
  cache_ok cache → ac_closed cache = false →
  let '(cache', opened, closed) := run_requests requests cache in
  cache_ok cache' ∧ ac_closed cache' = false ∧ ac_limit cache' = ac_limit cache ∧
  opened ++ live_closers cache ≡ₚ closed ++ live_closers cache'.
Proof.
  revert cache. induction requests as [|[key made] requests IH]; intros cache Hok Hc; [done|].
  cbn [run_requests]. pose proof (cachedDeliverer_spec cache key made Hok Hc) as Hs.
  destruct (cachedDeliverer_key key made cache) as [[[d c1] opened] closed]. destruct Hs as (Hs & Hok1 & Hc1 & Hl1).
  pose proof (lru_deliverer_conserves (ac_limit cache) key made (cached cache) (co_keys cache Hok)) as Hcons.
  rewrite <-Hs in Hcons. specialize (IH c1 Hok1 Hc1). destruct (run_requests requests c1) as [[c2 opened'] closed'].
  destruct IH as (Hok2 & Hc2 & Hl2 & Hp). split_and!; [done|done|congruence|]. unfold live_closers in *.
  rewrite (Permutation_app_comm opened opened'), <-!app_assoc, Hcons.
  rewrite app_assoc, (Permutation_app_comm opened'), <-app_assoc, Hp. done.
Qed.
End Cache.
Arguments webhookAuthorityEntry : clear implicits.
Arguments webhookAuthorityCache : clear implicits.

(** Every transport the webhook worker opens is closed exactly once, and at
    most [limit] are open at any time. After any sequence of authority requests
    the closers closed so far and those of the cached transports are together
    the closers opened, without repetition or loss; closing the worker closes
    exactly the remaining ones, and a request that arrives later closes what it
    opened. *)
Lemma webhook_transports_closed_once {D C} (limit : nat) (requests : list (string * option (D * C))) :
  (1 ≤ limit)%nat →
  let '(cache, opened, closed) := run_requests requests (newWebhookAuthorityCache limit) in
  let '(cache', closed') := cache_Close cache in
  (length (live_closers cache) ≤ limit)%nat ∧ opened ≡ₚ closed ++ live_closers cache ∧
  closed' = live_closers cache ∧ (cache_Close cache').2 = [] ∧
  ∀ key made, let '(d, cache'', opened, closed) := cachedDeliverer_key key made cache' in
    d = None ∧ cache'' = cache' ∧ closed = opened.
Proof.
  intros Hl. pose proof (run_requests_spec requests (newWebhookAuthorityCache limit) (new_cache_ok limit Hl) eq_refl) as H.
  destruct (run_requests requests _) as [[cache opened] closed]. destruct H as (Hok & Hc & Hlim & Hp).
  unfold cache_Close. rewrite Hc. cbn [ac_closed snd]. split_and!.
  - unfold live_closers, cached. rewrite !length_fmap. pose proof (co_length cache Hok). by rewrite Hlim in *.
  - rewrite <-Hp. by rewrite app_nil_r.
  - unfold live_closers, cached. by rewrite <-list_fmap_compose.
  - done.
  - intros key [[d c]|]; simpl; done.
Qed.

(** The transport cache is a least-recently-used cache: asking for an
    authority behaves as the reference list of entries, most recent first. A
    cached authority yields its transport and moves to the front; a new one is
    put in front, and when the list exceeds the limit the last entry is dropped
    and its transport closed. The element list and the map of the code keep
    agreeing. *)
Lemma webhook_cache_refines_lru {D C} (cache : webhookAuthorityCache D C) key made :
  cache_ok cache → ac_closed cache = false →
  let '(d, cache', opened, closed) := cachedDeliverer_key key made cache in
  (d, cached cache', opened, closed) = lru_deliverer (ac_limit cache) key made (cached cache) ∧
  cache_ok cache' ∧ ac_closed cache' = false ∧ ac_limit cache' = ac_limit cache.
Proof. apply cachedDeliverer_spec. Qed.

(** * The webhook worker, [internal/external/webhook_worker.go]

    Configuration, retry delays, one delivery, the retention sweep and the loop
    of the worker, written against the interface of its repository. The MySQL
    repository of [Webhook] is an instance.

    What the environment decides during one delivery (elapsed times, the answer
    of the transport, random bytes, cancellation) is a record. *)
(** ** Configuration *)
Record WebhookWorkerConfig : Type := mkWebhookConfig {
  wf_WorkerID : string;
  wf_LeaseDuration : Z;
  wf_RequestTimeout : Z;
  wf_DialTimeout : Z;
  wf_BaseRetryDelay : Z;
  wf_MaximumRetryDelay : Z;
  wf_MaximumAttempts : Z;
  wf_IdleDelay : Z;
  wf_TerminalRetention : Z;
  wf_MaximumAuthorities : Z
}.

Definition applyWebhookWorkerDefaults (config : WebhookWorkerConfig) : WebhookWorkerConfig :=
  {| wf_WorkerID := wf_WorkerID config;
     wf_LeaseDuration := or_default (wf_LeaseDuration config) minute;
     wf_RequestTimeout := or_default (wf_RequestTimeout config) (30 * second);
     wf_DialTimeout := or_default (wf_DialTimeout config) (5 * second);
     wf_BaseRetryDelay := or_default (wf_BaseRetryDelay config) (5 * second);
     wf_MaximumRetryDelay := or_default (wf_MaximumRetryDelay config) (15 * minute);
     wf_MaximumAttempts := or_default (wf_MaximumAttempts config) 12;
     wf_IdleDelay := or_default (wf_IdleDelay config) second;
     wf_TerminalRetention := or_default (wf_TerminalRetention config) (30 * 24 * hour);
     wf_MaximumAuthorities := or_default (wf_MaximumAuthorities config) 64 |}.

Definition maximumWebhookAuthorityLimit : Z := 1024.
Definition webhookRetentionSweepInterval : Z := hour.
Definition webhookRetentionSweepBatch : Z := 100.
Definition webhookRetentionSweepBudget : nat := 100.

(** [newWebhookWorker] with its collaborators present: the checked
    configuration is the worker. *)
Definition newWebhookWorker (config : WebhookWorkerConfig) : option WebhookWorkerConfig :=
  let c := applyWebhookWorkerDefaults config in
  if negb (validWorkerID (wf_WorkerID c)) then None
  else if (wf_RequestTimeout c <=? 0) || (wf_LeaseDuration c <=? wf_RequestTimeout c) ||
          (maximumWebhookRetryAfter <? wf_LeaseDuration c) ||
          (wf_DialTimeout c <=? 0) || (wf_RequestTimeout c <? wf_DialTimeout c) then None
  else if (wf_BaseRetryDelay c <=? 0) || (wf_MaximumRetryDelay c <? wf_BaseRetryDelay c) ||
          (maximumWebhookRetryAfter <? wf_MaximumRetryDelay c) then None
  else if (wf_MaximumAttempts c =? 0) || (100 <? wf_MaximumAttempts c) ||
          (wf_IdleDelay c <=? 0) || (minute <? wf_IdleDelay c) then None
  else if (wf_TerminalRetention c <=? 0) || (365 * 24 * hour <? wf_TerminalRetention c) ||
          (wf_MaximumAuthorities c <? 1) || (maximumWebhookAuthorityLimit <? wf_MaximumAuthorities c) then None
  else Some c.

(** ** Retry delays *)

(** The doubling loop, [remaining] times at most. *)
Fixpoint backoff_loop (maximum : Z) (remaining : nat) (delay : Z) : Z :=
  match remaining with
  | O => delay
  | S remaining =>
      if delay <? maximum then
        if maximum / 2 <? delay then maximum else backoff_loop maximum remaining (wrap_int64 (delay * 2))
      else delay
  end.

(** [random] is the big-endian value of the eight bytes read. *)
Definition webhookBackoff (base maximum attempt retryAfter : Z) (random : option Z) : option Z :=
  if (base <=? 0) || (maximum <? base) || (maximumWebhookRetryAfter <? maximum) || (attempt =? 0) then None
  else
    let delay := backoff_loop maximum (Z.to_nat (attempt - 1)) base in
    match random with
    | None => None
    | Some entropy =>
        let high := entropy * delay / 18446744073709551616 in
        let jittered := wrap_int64 (delay / 2 + high) in
        let jittered := if maximum <? jittered then maximum else jittered in
        let retryAfter := if retryAfter <? 0 then 0 else retryAfter in
        let retryAfter := if maximum <? retryAfter then maximum else retryAfter in
        let jittered := if jittered <? retryAfter then retryAfter else jittered in
        Some (if jittered <? 0 then 0 else jittered)
    end.

(** ** The repository interface *)
Class WebhookOutboxRepository (S : Type) : Type := {
  repo_ClaimNextWebhook : string → Z → S → result webhook_error WebhookClaim * S;
  repo_SettleWebhook : WebhookClaim → WebhookSettlement → S → option webhook_error * S;
  repo_SweepTerminal : Z → Z → S → result webhook_error Z * S
}.

(** What a repository promises its worker: on the states of [good], claims are
    valid and a valid settlement with a relative delay is not refused as
    malformed. *)
Class WebhookOutboxLaws (S : Type) `{WebhookOutboxRepository S} (good : S → Prop) : Prop := {
  law_claim s w lease : good s →
    good (repo_ClaimNextWebhook w lease s).2 ∧
    ((repo_ClaimNextWebhook w lease s).1 = Err ErrWebhookSettlementInvalid →
     validWorkerID w = false ∨ ¬ 0 < lease ≤ 15 * minute) ∧
    ∀ claim, (repo_ClaimNextWebhook w lease s).1 = Ok claim →
      validWebhookClaim claim = true ∧ wk_WorkerID claim = w;
  law_settle s claim settlement : good s → good (repo_SettleWebhook claim settlement s).2 ∧
    (validWebhookClaim claim = true → validWebhookSettlement settlement = true → ws_RetryAt settlement = zero_time →
     (repo_SettleWebhook claim settlement s).1 ≠ Some ErrWebhookSettlementInvalid);
  law_sweep s retention limit : good s → good (repo_SweepTerminal retention limit s).2 ∧
    (0 < retention ≤ 365 * 24 * hour → 1 ≤ limit ≤ 1000 →
     (repo_SweepTerminal retention limit s).1 ≠ Err ErrWebhookSettlementInvalid)
}.

(** Why the worker stops: its context was cancelled, the repository failed, or
    no retry delay could be computed. *)
Inductive worker_error : Type :=
| WorkerCancelled
| WorkerRepository (e : webhook_error)
| WorkerBackoff.

#[export] Instance worker_error_eq_dec : EqDecision worker_error.
Proof. solve_decision. Defined.

(** The environment of one [processNext]. *)
Record process_env : Type := mkProcessEnv {
  pe_Cancelled : bool;
  pe_ClaimElapsed : Z;
  pe_BeforeDelivery : Z;
  pe_RequestTime : Z;
  pe_Transport : safeCallbackTransport → webhook_request → round_trip;
  pe_CancelledAfter : bool;
  pe_AfterDelivery : Z;
  pe_Random : option Z
}.

Definition not_negative (elapsed : Z) : Z := if elapsed <? 0 then 0 else elapsed.

Definition estimatedWebhookDatabaseTime (databaseClaimTime elapsed : Z) : Z :=
  databaseClaimTime + not_negative elapsed.

Definition transport_cache : Type := webhookAuthorityCache safeCallbackTransport safeCallbackTransport.

Section Worker.
Context (ToLower : string → string) (url_Parse : string → option URL) (ParseAddr : string → bool).
Context (url_String : URL → string).
Context (json_members : string → option (list (string * option string))).
Context (hmac_sha256 : string → string → string) (ParseTime : string → option Z).
(** The decryption of [CallbackCipher]. *)
Context (Decrypt : string → string → string → EncryptedCallbackSecret → option string).
Context {S : Type} `{WebhookOutboxRepository S}.

(** [cachedDeliverer]; the transport is its own closer. *)
Definition cachedDeliverer (worker : WebhookWorkerConfig) (host : string) (port : Z) (cache : transport_cache) :
    option safeCallbackTransport * transport_cache :=
  let made := NewSafeCallbackClient ToLower host port (wf_RequestTimeout worker) (wf_DialTimeout worker) in
  let '(deliverer, cache, _, _) :=
    cachedDeliverer_key (ToLower host +:+ ":" +:+ pretty port) ((λ t, (t, t)) <$> made) cache in
  (deliverer, cache).

(** What the worker does with a claim: nothing more, stop, or settle. *)
Inductive webhook_decision : Type :=
| DecideNothing
| DecideStop (e : worker_error)
| DecideSettle (settlement : WebhookSettlement).

Definition permanent_settlement (code : string) : WebhookSettlement :=
  mkSettlement WebhookPermanentFailure 0 code zero_time 0.

(** The settlement of an outcome. *)
Definition outcome_decision (worker : WebhookWorkerConfig) (attemptCount : Z) (outcome : WebhookOutcome)
    (random : option Z) : webhook_decision :=
  let settlement delay := DecideSettle
    (mkSettlement (oc_Disposition outcome) (oc_HTTPStatus outcome) (oc_ErrorCode outcome) zero_time delay) in
  if bool_decide (oc_Disposition outcome = WebhookRetry) then
    if attemptCount <? wf_MaximumAttempts worker then
      match webhookBackoff (wf_BaseRetryDelay worker) (wf_MaximumRetryDelay worker) attemptCount
              (oc_RetryAfter outcome) random with
      | Some delay => settlement delay
      | None => DecideStop WorkerBackoff
      end
    else settlement (wf_BaseRetryDelay worker / 2)
  else settlement 0.

(** [processNext] after the claim. *)
Definition process_claim (worker : WebhookWorkerConfig) (env : process_env) (claim : WebhookClaim)
    (cache : transport_cache) : webhook_decision * transport_cache :=
  let databaseClaimTime := wk_LeaseUntil claim - wf_LeaseDuration worker in
  let databaseReceiveTime := databaseClaimTime + not_negative (pe_ClaimElapsed env) in
  if wk_LeaseUntil claim <=? databaseClaimTime then (DecideNothing, cache)
  else if wk_ExpiresAt claim <=? databaseClaimTime then
    (DecideSettle (permanent_settlement WebhookErrorDeliveryExpired), cache)
  else if negb (is_some (validateCallbackDestination ToLower url_Parse ParseAddr (wk_DestinationURL claim)
                           (wk_AllowedHost claim) (wk_AllowedPort claim))) then
    (DecideSettle (permanent_settlement WebhookErrorUnsafeDestination), cache)
  else
    match Decrypt (wk_TenantID claim) (wk_CallbackID claim) (wk_DestinationURL claim) (wk_Secret claim) with
    | None => (DecideSettle (permanent_settlement WebhookErrorCallbackDecrypt), cache)
    | Some secret =>
        match cachedDeliverer worker (wk_AllowedHost claim) (wk_AllowedPort claim) cache with
        | (None, cache) => (DecideSettle (permanent_settlement WebhookErrorConfiguration), cache)
        | (Some deliverer, cache) =>
            let databaseBeforeDelivery := estimatedWebhookDatabaseTime databaseReceiveTime (pe_BeforeDelivery env) in
            if wk_LeaseUntil claim - databaseBeforeDelivery <=? 0 then (DecideNothing, cache)
            else
              let outcome :=
                DeliverOutcome ToLower url_Parse ParseAddr json_members hmac_sha256 ParseTime
                  (safe_RoundTrip ToLower url_Parse ParseAddr url_String deliverer (pe_Transport env deliverer))
                  (mkDelivery (wk_EventID claim) (wk_DestinationURL claim) secret (wk_Body claim))
                  (pe_RequestTime env) (wf_MaximumRetryDelay worker) in
              if pe_CancelledAfter env then (DecideStop WorkerCancelled, cache)
              else
                let databaseNow := estimatedWebhookDatabaseTime databaseReceiveTime (pe_AfterDelivery env) in
                if wk_LeaseUntil claim <=? databaseNow then (DecideNothing, cache)
                else (outcome_decision worker (wk_AttemptCount claim) outcome (pe_Random env), cache)
        end
    end.

(** [settle]: a lost lease is not an error. *)
Definition settle (claim : WebhookClaim) (settlement : WebhookSettlement) (s : S) : option worker_error * S :=
  match repo_SettleWebhook claim settlement s with
  | (None, s) => (None, s)
  | (Some ErrWebhookLeaseLost, s) => (None, s)
  | (Some e, s) => (Some (WorkerRepository e), s)
  end.

Definition processNext (worker : WebhookWorkerConfig) (env : process_env) (cache : transport_cache) (s : S) :
    option worker_error * transport_cache * S :=
  if pe_Cancelled env then (Some WorkerCancelled, cache, s)
  else
    match repo_ClaimNextWebhook (wf_WorkerID worker) (wf_LeaseDuration worker) s with
    | (Err e, s) => (Some (WorkerRepository e), cache, s)
    | (Ok claim, s) =>
        match process_claim worker env claim cache with
        | (DecideNothing, cache) => (None, cache, s)
        | (DecideStop e, cache) => (Some e, cache, s)
        | (DecideSettle settlement, cache) =>
            let '(e, s) := settle claim settlement s in (e, cache, s)
        end
    end.

(** ** The retention sweep and the loop *)

(** [sweepTerminal]: at most [budget] batches; [cancelled] is read before each. *)
Fixpoint sweep_batches (worker : WebhookWorkerConfig) (budget : nat) (cancelled : nat → bool) (s : S) :
    result worker_error bool * S :=
  match budget with
  | O => (Ok false, s)
  | Datatypes.S budget =>
      if cancelled O then (Err WorkerCancelled, s)
      else
        match repo_SweepTerminal (wf_TerminalRetention worker) webhookRetentionSweepBatch s with
        | (Err e, s) => (Err (WorkerRepository e), s)
        | (Ok deleted, s) =>
            if deleted <? webhookRetentionSweepBatch then (Ok true, s)
            else sweep_batches worker budget (λ i, cancelled (Datatypes.S i)) s
        end
  end.

Definition worker_sweepTerminal (worker : WebhookWorkerConfig) (cancelled : nat → bool) (s : S) :
    result worker_error bool * S :=
  sweep_batches worker webhookRetentionSweepBudget cancelled s.

Definition IsTransientDatabaseError (e : worker_error) : bool :=
  match e with
  | WorkerRepository (ErrWebhookUnavailable (Some number)) => (number =? 1205) || (number =? 1213)
  | _ => false
  end.

(** The environment of one turn of [Run]; [re_CancelledWait] tells whether the
    context ends during the wait that ends the turn. *)
Record run_env : Type := mkRunEnv {
  re_Now : Z;
  re_SweepCancelled : nat → bool;
  re_Process : process_env;
  re_CancelledWait : bool
}.

(** One turn of the loop of [Run]: [Err] leaves it. *)
Definition run_turn (worker : WebhookWorkerConfig) (env : run_env) (nextSweep : Z) (cache : transport_cache) (s : S) :
    result worker_error Z * transport_cache * S :=
  let wait nextSweep cache s :=
    if re_CancelledWait env then (Err WorkerCancelled, cache, s) else (Ok nextSweep, cache, s) in
  let deliver nextSweep s :=
    match processNext worker (re_Process env) cache s with
    | (None, cache, s) => (Ok nextSweep, cache, s)
    | (Some e, cache, s) =>
        if bool_decide (e = WorkerRepository ErrWebhookNotAvailable) || IsTransientDatabaseError e
        then wait nextSweep cache s else (Err e, cache, s)
    end in
  if nextSweep <=? re_Now env then
    match worker_sweepTerminal worker (re_SweepCancelled env) s with
    | (Err e, s) => if IsTransientDatabaseError e then wait nextSweep cache s else (Err e, cache, s)
    | (Ok drained, s) =>
        deliver (re_Now env + (if drained then webhookRetentionSweepInterval else wf_IdleDelay worker)) s
    end
  else deliver nextSweep s.

(** [Run] for a given number of turns; leaving the loop closes the cache. *)
Fixpoint run_turns (worker : WebhookWorkerConfig) (envs : list run_env) (nextSweep : Z) (cache : transport_cache)
    (s : S) : option worker_error * transport_cache * S :=
  match envs with
  | [] => (None, cache, s)
  | env :: envs =>
      match run_turn worker env nextSweep cache s with
      | (Err e, cache, s) => (Some e, (cache_Close cache).1, s)
      | (Ok nextSweep, cache, s) => run_turns worker envs nextSweep cache s
      end
  end.
End Worker.
