(* ===== verification/WebhookWorkerSafety.v ===== *)
(** * The webhook worker and its repository

    Retry delays against a closed form, the MySQL repository as an instance of
    the interface of the worker, and the composition: no settlement the worker
    computes is refused as malformed. *)
From stdpp Require Import prelude gmap strings pretty sorting.
From S2P Require Import Prelude.
From S2P Require Import JobState.
From S2P Require Import Store.
From S2P Require Import JobWorker.
From S2P Require Import Webhook.
From S2P Require Import WebhookSafety.
From S2P Require Import CallbackTransport.
From S2P Require Import WebhookDelivery.
From S2P Require Import WebhookWorker.

Open Scope Z_scope.

(** ** Retry delays *)

(** Exponential backoff without the loop. *)
Definition nominal_delay (base maximum attempt : Z) : Z := Z.min maximum (base * 2 ^ (attempt - 1)).

Lemma backoff_loop_exact maximum n delay :
  0 < delay ≤ maximum → maximum ≤ maximumWebhookRetryAfter →
  backoff_loop maximum n delay = Z.min maximum (delay * 2 ^ Z.of_nat n).
Proof.
  intros Hd Hm. revert delay Hd. induction n as [|n IH]; intros delay Hd.
  - simpl. lia.
  - cbn [backoff_loop]. rewrite Nat2Z.inj_succ, Z.pow_succ_r by lia.
    assert (Hpow : 1 ≤ 2 ^ Z.of_nat n) by (pose proof (Z.pow_pos_nonneg 2 (Z.of_nat n)); lia).
    pose proof (Z.div_mod maximum 2 ltac:(lia)). pose proof (Z.mod_pos_bound maximum 2 ltac:(lia)).
    destruct (Z.ltb_spec delay maximum); [|nia]. destruct (Z.ltb_spec (maximum / 2) delay); [rewrite Z.min_l; nia|].
    unfold maximumWebhookRetryAfter, minute, second in *.
    rewrite wrap_int64_id by (unfold min_int64, max_int64; lia). rewrite IH by lia. f_equal. lia.
Qed.

Definition random_ok (random : option Z) : Prop := ∀ r, random = Some r → 0 ≤ r < 2 ^ 64.

Lemma webhookBackoff_spec base maximum attempt retryAfter random :
  0 ≤ attempt → random_ok random →
  match webhookBackoff base maximum attempt retryAfter random with
  | Some d =>
      ∃ r, random = Some r ∧ 0 < base ≤ maximum ∧ maximum ≤ 15 * minute ∧ 0 < attempt ∧
        let nominal := nominal_delay base maximum attempt in
        d = Z.max (Z.min maximum (nominal / 2 + r * nominal / 2 ^ 64)) (Z.max 0 (Z.min maximum retryAfter)) ∧
        nominal / 2 ≤ d ≤ maximum
  | None => random = None ∨ ¬ (0 < base ≤ maximum ∧ maximum ≤ 15 * minute ∧ 0 < attempt)
  end.
Proof.
  intros Ha Hr. unfold webhookBackoff. destruct (_ || _) eqn:E.
  { right. rewrite !orb_true_iff in E. unfold maximumWebhookRetryAfter in E. rewrite Z.leb_le, !Z.ltb_lt, Z.eqb_eq in E. lia. }
  bool_to_prop. destruct random as [r|]; [|by left]. exists r. specialize (Hr r eq_refl).
  rewrite backoff_loop_exact by lia. rewrite Z2Nat.id by lia. fold (nominal_delay base maximum attempt).
  assert (Hn : 0 < nominal_delay base maximum attempt ≤ maximum).
  { unfold nominal_delay. pose proof (Z.pow_pos_nonneg 2 (attempt - 1)). nia. }
  set (nominal := nominal_delay base maximum attempt) in *. cbv zeta.
  assert (Hhigh : 0 ≤ r * nominal / 2 ^ 64 ≤ nominal).
  { split; [apply Z.div_pos; nia|]. apply Z.div_le_upper_bound; nia. }
  change 18446744073709551616 with (2 ^ 64). set (high := r * nominal / 2 ^ 64) in *.
  assert (Hhalf : 0 ≤ nominal / 2 ≤ nominal) by (split; [apply Z.div_pos; lia|apply Z.div_le_upper_bound; lia]).
  unfold maximumWebhookRetryAfter, minute, second in *.
  rewrite wrap_int64_id by (unfold min_int64, max_int64; lia).
  split_and!; try done; try lia.
  - destruct (Z.ltb_spec maximum (nominal / 2 + high)), (Z.ltb_spec retryAfter 0); repeat case_match; bool_to_prop; lia.
  - destruct (Z.ltb_spec maximum (nominal / 2 + high)), (Z.ltb_spec retryAfter 0); repeat case_match; bool_to_prop; lia.
  - destruct (Z.ltb_spec maximum (nominal / 2 + high)), (Z.ltb_spec retryAfter 0); repeat case_match; bool_to_prop; lia.
Qed.

Lemma webhookBackoff_bounds base maximum attempt retryAfter random :
  random_ok random → ∀ d, webhookBackoff base maximum attempt retryAfter random = Some d → 0 < attempt →
  nominal_delay base maximum attempt / 2 ≤ d ≤ maximum.
Proof.
  intros Hr d Hd Ha. pose proof (webhookBackoff_spec base maximum attempt retryAfter random ltac:(lia) Hr) as H.
  rewrite Hd in H. destruct H as (r & _ & _ & _ & _ & _ & H). exact H.
Qed.

(** The retry delay is exponential backoff with equal jitter. For a valid
    configuration and 64 random bits [r] the loop computes
    [min(maximum, base * 2^(attempt-1))], the delay is half of it plus the
    fraction [r / 2^64] of it, capped at the maximum and raised to the server's
    [Retry-After] (itself capped); it lies between half the nominal delay and the
    maximum, without overflow. It fails exactly on an invalid configuration or
    when no random bytes can be read. *)
Lemma webhookBackoff_exact base maximum attempt retryAfter random :
  0 ≤ attempt → random_ok random →
  match webhookBackoff base maximum attempt retryAfter random with
  | Some d =>
      ∃ r, random = Some r ∧ 0 < base ≤ maximum ∧ maximum ≤ 15 * minute ∧ 0 < attempt ∧
        let nominal := nominal_delay base maximum attempt in
        d = Z.max (Z.min maximum (nominal / 2 + r * nominal / 2 ^ 64)) (Z.max 0 (Z.min maximum retryAfter)) ∧
        nominal / 2 ≤ d ≤ maximum
  | None => random = None ∨ ¬ (0 < base ≤ maximum ∧ maximum ≤ 15 * minute ∧ 0 < attempt)
  end.
Proof. apply webhookBackoff_spec. Qed.

(** ** The settlements of a worker *)
Lemma newWebhookWorker_ok config worker :
  newWebhookWorker config = Some worker →
  validWorkerID (wf_WorkerID worker) = true ∧ 0 < wf_LeaseDuration worker ≤ 15 * minute ∧
  0 < wf_BaseRetryDelay worker ≤ wf_MaximumRetryDelay worker ∧ wf_MaximumRetryDelay worker ≤ 15 * minute ∧
  0 < wf_TerminalRetention worker ≤ 365 * 24 * hour.
Proof.
  unfold newWebhookWorker. cbv zeta. set (c := applyWebhookWorkerDefaults config). clearbody c.
  destruct (negb _) eqn:E1; [done|]. do 4 (case_match; [done|]). intros [= <-].
  bool_to_prop. unfold maximumWebhookRetryAfter in *. split; [done|]. lia.
Qed.

Lemma permanent_settlement_valid code :
  code ∈ [WebhookErrorUnsafeDestination; WebhookErrorConfiguration; WebhookErrorCallbackDecrypt; WebhookErrorDeliveryExpired] →
  validWebhookSettlement (permanent_settlement code) = true.
Proof. rewrite !elem_of_cons. intros [->|[->|[->|[->|[]%not_elem_of_nil]]]]; reflexivity. Qed.

(** An outcome of the deliverer and a delay of the backoff make a valid
    settlement. *)
Lemma outcome_settlement_valid maximum o delay :
  outcome_ok maximum o →
  (oc_Disposition o = WebhookRetry → 0 < delay ≤ maximumWebhookRetryAfter) →
  (oc_Disposition o ≠ WebhookRetry → delay = 0) →
  validWebhookSettlement
    (mkSettlement (oc_Disposition o) (oc_HTTPStatus o) (oc_ErrorCode o) zero_time delay) = true.
Proof.
  destruct o as [disposition status retryAfter code].
  unfold outcome_ok, validWebhookSettlement. cbn [oc_Disposition oc_HTTPStatus oc_ErrorCode oc_RetryAfter
    ws_Disposition ws_HTTPStatus ws_ErrorCode ws_RetryAt ws_RetryDelay].
  intros Ho Hretry Hother. destruct disposition; [..|done].
  - destruct Ho as [Hs ->]. rewrite Hother by done. rewrite (proj2 (Z.leb_le 200 _)), (proj2 (Z.leb_le _ 299)),
      (proj2 (Z.leb_le 100 _)), (proj2 (Z.leb_le _ 599)) by lia. rewrite orb_true_r. done.
  - specialize (Hretry eq_refl). clear Hother. rewrite (proj2 (Z.ltb_ge delay 0)), (proj2 (Z.ltb_lt 0 delay)), (proj2 (Z.leb_le delay _)) by lia.
    destruct Ho as [(-> & -> & _)|(-> & Hs & _)]; [done|]. rewrite Hs. unfold retryableWebhookHTTPStatus in Hs.
    assert (100 ≤ status ≤ 599) as [Hlo Hhi].
    { rewrite !orb_true_iff, andb_true_iff, !Z.eqb_eq, !Z.leb_le in Hs. lia. }
    rewrite (proj2 (Z.leb_le 100 _) Hlo), (proj2 (Z.leb_le _ 599) Hhi), orb_true_r. done.
  - rewrite Hother by done. destruct Ho as [[-> Hs]|[-> Hc]].
    + rewrite Hs. unfold permanentWebhookHTTPStatus in Hs. bool_to_prop.
      rewrite (proj2 (Z.leb_le 100 _)), (proj2 (Z.leb_le _ 599)), orb_true_r by lia. done.
    + rewrite !elem_of_cons in Hc. destruct Hc as [->|[->|[->|[]%not_elem_of_nil]]]; reflexivity.
Qed.

Section Worker.
Context (ToLower : string → string) (url_Parse : string → option URL) (ParseAddr : string → bool).
Context (url_String : URL → string).
Context (json_members : string → option (list (string * option string))).
Context (hmac_sha256 : string → string → string) (ParseTime : string → option Z).
Context (Decrypt : string → string → string → EncryptedCallbackSecret → option string).

Lemma outcome_decision_valid maximum worker attempt o random settlement :
  outcome_ok maximum o → 0 < attempt → random_ok random →
  2 ≤ wf_BaseRetryDelay worker ≤ wf_MaximumRetryDelay worker → wf_MaximumRetryDelay worker ≤ 15 * minute →
  outcome_decision worker attempt o random = DecideSettle settlement →
  validWebhookSettlement settlement = true ∧ ws_RetryAt settlement = zero_time.
Proof.
  intros Ho Ha Hr Hb Hm. unfold outcome_decision. cbv zeta. case_bool_decide as Hd.
  - case_match.
    + pose proof (webhookBackoff_bounds (wf_BaseRetryDelay worker) (wf_MaximumRetryDelay worker) attempt
        (oc_RetryAfter o) random Hr) as Hd'.
      destruct (webhookBackoff _ _ _ _ _) as [delay|]; [|done]. intros [= <-]. split; [|done].
      specialize (Hd' delay eq_refl Ha). eapply outcome_settlement_valid; [exact Ho| |done]. intros _.
      unfold nominal_delay, maximumWebhookRetryAfter in *.
      assert (2 ≤ Z.min (wf_MaximumRetryDelay worker) (wf_BaseRetryDelay worker * 2 ^ (attempt - 1))).
      { pose proof (Z.pow_pos_nonneg 2 (attempt - 1)). nia. }
      assert (1 ≤ Z.min (wf_MaximumRetryDelay worker) (wf_BaseRetryDelay worker * 2 ^ (attempt - 1)) / 2)
        by (by apply Z.div_le_lower_bound; lia). lia.
    + intros [= <-]. split; [|done]. eapply outcome_settlement_valid; [exact Ho| |done]. intros _.
      unfold maximumWebhookRetryAfter. split; [apply Z.div_str_pos; lia|].
      etransitivity; [apply Z.div_le_upper_bound with (q := wf_BaseRetryDelay worker); lia|lia].
  - intros [= <-]. split; [|done]. by eapply outcome_settlement_valid.
Qed.

Lemma process_claim_valid config worker env claim cache settlement cache' :
  newWebhookWorker config = Some worker → 2 ≤ wf_BaseRetryDelay worker → random_ok (pe_Random env) →
  validWebhookClaim claim = true →
  process_claim ToLower url_Parse ParseAddr url_String json_members hmac_sha256 ParseTime Decrypt worker env claim cache
    = (DecideSettle settlement, cache') →
  validWebhookSettlement settlement = true ∧ ws_RetryAt settlement = zero_time.
Proof.
  intros Hw Hb Hr Hclaim. destruct (newWebhookWorker_ok _ _ Hw) as (_ & _ & Hbase & Hmax & _).
  unfold validWebhookClaim in Hclaim. bool_to_prop. unfold process_claim. cbv zeta.
  case_match; [done|].
  case_match; [intros [= <- _]; split; [by apply permanent_settlement_valid; set_solver|done]|].
  case_match; [intros [= <- _]; split; [by apply permanent_settlement_valid; set_solver|done]|].
  destruct (Decrypt _ _ _ _); [|intros [= <- _]; split; [by apply permanent_settlement_valid; set_solver|done]].
  destruct (cachedDeliverer _ _ _ _ _) as [[deliverer|] c];
    [|intros [= <- _]; split; [by apply permanent_settlement_valid; set_solver|done]].
  case_match; [done|]. case_match; [done|]. case_match; [done|]. intros Ep. injection Ep as Ep _.
  eapply outcome_decision_valid; [apply DeliverOutcome_ok| |exact Hr| | |exact Ep]; [done|lia|lia].
Qed.

Context {S : Type} `{WebhookOutboxLaws S good}.

(** The webhook worker is never stopped by its own settlements. Against any
    repository that keeps the promises of its interface, a worker that
    [NewWebhookWorker] accepted with a base delay of at least 2 ns hands over
    only well-formed settlements: whatever the callback, the transport, the
    clocks and the random bytes do, [processNext] keeps the repository good and
    does not fail with [ErrWebhookSettlementInvalid]; and it fails on a retry
    delay only when no random bytes can be read. *)
Lemma webhook_worker_settlements_accepted config worker env cache s :
  newWebhookWorker config = Some worker → 2 ≤ wf_BaseRetryDelay worker → random_ok (pe_Random env) → good s →
  let '(e, _, s') := processNext ToLower url_Parse ParseAddr url_String json_members hmac_sha256 ParseTime Decrypt
                       worker env cache s in
  good s' ∧ e ≠ Some (WorkerRepository ErrWebhookSettlementInvalid).
Proof.
  intros Hw Hb Hr Hs. destruct (newWebhookWorker_ok _ _ Hw) as (Hid & Hlease & _).
  unfold processNext. destruct (pe_Cancelled env); [done|].
  destruct (law_claim s (wf_WorkerID worker) (wf_LeaseDuration worker) Hs) as (Hg & Herr & Hok).
  destruct (repo_ClaimNextWebhook _ _ s) as [[claim|e] s1]; simpl in Hg, Herr, Hok; [|split; [done|]].
  - destruct (Hok claim eq_refl) as [Hclaim _].
    destruct (process_claim _ _ _ _ _ _ _ _ _ _ _ _) as [[|e|settlement] c] eqn:Ep; [done| |].
    + split; [done|]. intros [= ->]. revert Ep. unfold process_claim, outcome_decision. cbv zeta.
      repeat (case_match; try done).
    + unfold settle. destruct (law_settle s1 claim settlement Hg) as [Hg2 Hset].
      destruct (process_claim_valid _ _ _ _ _ _ _ Hw Hb Hr Hclaim Ep) as [Hv Hz]. specialize (Hset Hclaim Hv Hz).
      destruct (repo_SettleWebhook claim settlement s1) as [[e|] s2]; simpl in Hg2, Hset; [|done].
      destruct e; (split; [done|]); congruence.
  - intros [= ->]. destruct (Herr eq_refl) as [?|?]; [congruence|done].
Qed.
End Worker.
