(* ===== verification/WebhookRepository.v ===== *)
(** * The MySQL outbox as the repository of the webhook worker

    [MySQLWebhookOutboxRepository] is an instance of the interface of
    [WebhookWorker], and keeps its promises: the transactions of [Webhook], each
    in a moment of the environment, that is, what other transactions commit
    before it, its clock readings and locks, and a possible database failure. *)
From stdpp Require Import prelude gmap strings sorting.
From S2P Require Import Prelude.
From S2P Require Import Store.
From S2P Require Import JobWorker.
From S2P Require Import Webhook.
From S2P Require Import WebhookSafety.
From S2P Require Import WebhookWorker.

Open Scope Z_scope.

(** The environment of one repository call. *)
Record mysql_moment : Type := mkMoment {
  mm_Others : webhook_db → webhook_db;
  mm_Rounds : nat → webhook_env;
  mm_RoundOthers : nat → webhook_db → webhook_db;
  mm_Now : Z;
  mm_Locked : gset Z;
  mm_Failure : option webhook_failure
}.

(** The outbox with the moments of the calls to come. *)
Record mysql_outbox : Type := mkOutbox {
  mo_DB : webhook_db;
  mo_Moments : nat → mysql_moment
}.

Section MySQL.
Context (datetime3 : Z → Z) (maximumAttempts : Z).

(** A transaction on what the others left; its failure rolls it back. *)
Definition mysql_call {A} (f : mysql_moment → webhook_db → result webhook_error (A * webhook_db)) (s : mysql_outbox) :
    result webhook_error A * mysql_outbox :=
  let moment := mo_Moments s O in
  let d := mm_Others moment (mo_DB s) in
  let rest d := mkOutbox d (λ i, mo_Moments s (S i)) in
  match mm_Failure moment with
  | Some number => (Err (ErrWebhookUnavailable number), rest d)
  | None =>
      match f moment d with
      | Ok (a, d') => (Ok a, rest d')
      | Err e => (Err e, rest d)
      end
  end.

Definition mysql_ClaimNextWebhook (workerID : string) (leaseDuration : Z) (s : mysql_outbox) :
    result webhook_error WebhookClaim * mysql_outbox :=
  let moment := mo_Moments s O in
  let '(r, d) := ClaimNextWebhook datetime3 maximumAttempts workerID leaseDuration (mm_Rounds moment)
                   (mm_RoundOthers moment) (mm_Others moment (mo_DB s)) in
  (r, mkOutbox d (λ i, mo_Moments s (S i))).

Definition mysql_SettleWebhook (claim : WebhookClaim) (settlement : WebhookSettlement) (s : mysql_outbox) :
    option webhook_error * mysql_outbox :=
  match mysql_call (λ moment, SettleWebhook datetime3 maximumAttempts (mm_Now moment) claim settlement) s with
  | (Ok _, s) => (None, s)
  | (Err e, s) => (Some e, s)
  end.

Definition mysql_SweepTerminal (retention limit : Z) (s : mysql_outbox) : result webhook_error Z * mysql_outbox :=
  mysql_call (λ moment, SweepTerminal retention limit (mm_Now moment) (mm_Locked moment)) s.

#[export] Instance mysql_webhook_repository : WebhookOutboxRepository mysql_outbox := {|
  repo_ClaimNextWebhook := mysql_ClaimNextWebhook;
  repo_SettleWebhook := mysql_SettleWebhook;
  repo_SweepTerminal := mysql_SweepTerminal
|}.

(** The other transactions keep the outbox well formed, and a successful read of
    the random source yields 32 bytes. *)
Record moment_ok (moment : mysql_moment) : Prop := {
  mo_others : ∀ d, webhooks_ok maximumAttempts d → webhooks_ok maximumAttempts (mm_Others moment d);
  mo_round_others : ∀ i d, webhooks_ok maximumAttempts d → webhooks_ok maximumAttempts (mm_RoundOthers moment i d);
  mo_tokens : ∀ i token, we_Token (mm_Rounds moment i) = Some token → len token = 32
}.

Definition outbox_good (s : mysql_outbox) : Prop :=
  webhooks_ok maximumAttempts (mo_DB s) ∧ ∀ i, moment_ok (mo_Moments s i).

Lemma outbox_good_next s d :
  outbox_good s → webhooks_ok maximumAttempts d → outbox_good (mkOutbox d (λ i, mo_Moments s (S i))).
Proof. intros [_ Hm] Hd. split; [done|]. intros i. apply Hm. Qed.

Lemma mysql_call_good {A} (f : mysql_moment → webhook_db → result webhook_error (A * webhook_db)) s :
  (∀ m d a d', webhooks_ok maximumAttempts d → f m d = Ok (a, d') → webhooks_ok maximumAttempts d') →
  outbox_good s → outbox_good (mysql_call f s).2.
Proof.
  intros Hf Hs. pose proof Hs as [Hd Hm]. pose proof (mo_others _ (Hm O) _ Hd) as Hd'. unfold mysql_call. cbv zeta.
  destruct (mm_Failure _); [by apply outbox_good_next|].
  destruct (f _ _) as [[a d']|e] eqn:E; simpl; apply outbox_good_next; eauto.
Qed.

Lemma mysql_call_error {A} (f : mysql_moment → webhook_db → result webhook_error (A * webhook_db)) s e :
  (mysql_call f s).1 = Err e →
  (∃ number, e = ErrWebhookUnavailable number) ∨ f (mo_Moments s O) (mm_Others (mo_Moments s O) (mo_DB s)) = Err e.
Proof.
  unfold mysql_call. cbv zeta. destruct (mm_Failure _) as [n|]; [intros [= <-]; eauto|].
  destruct (f _ _) as [[a d']|e'] eqn:E; simpl; [done|]. intros [= <-]. by right.
Qed.

Lemma claim_rounds_ok w lease budget envs others d :
  0 ≤ maximumAttempts → webhooks_ok maximumAttempts d →
  (∀ i d, webhooks_ok maximumAttempts d → webhooks_ok maximumAttempts (others i d)) →
  (∀ i token, we_Token (envs i) = Some token → len token = 32) → validWorkerID w = true →
  let '(r, d') := claim_webhook_rounds datetime3 maximumAttempts w lease budget envs others d in
  webhooks_ok maximumAttempts d' ∧ r ≠ Err ErrWebhookSettlementInvalid ∧
  ∀ claim, r = Ok claim → validWebhookClaim claim = true ∧ wk_WorkerID claim = w.
Proof.
  intros Hm Hok Hothers Htoken Hw. revert d envs others Hok Hothers Htoken.
  induction budget as [|budget IH]; intros d envs others Hok Hothers Htoken; [done|]. cbn [claim_webhook_rounds].
  cbv zeta. specialize (Hothers O) as Ho. set (d0 := others O d). assert (Hd0 : webhooks_ok maximumAttempts d0) by (by apply Ho).
  destruct (claimWebhook _ _ _ _ _ d0) as [[[claim|] d1]|e] eqn:E.
  - split; [by eapply (webhook_step_ok datetime3 (λ _, "") 0); [..|by eapply step_claim]|]. split; [done|]. intros ? [= <-].
    apply claimWebhook_claimed in E as (r & Hr & _ & _ & _ & _ & Hn & _ & Hwk & Ht & _).
    destruct (wk_rows _ _ Hd0 _ _ Hr) as [Hid [Hatt _]]. split; [|done]. unfold validWebhookClaim.
    rewrite Hwk, Hw, (Htoken O _ Ht), (proj2 (Z.ltb_lt 0 _)), (proj2 (Z.ltb_lt 0 _)) by lia. done.
  - apply IH; [by eapply (webhook_step_ok datetime3 (λ _, "") 0); [..|by eapply step_maintain]| |]; intros i; [apply (Hothers (S i))|apply (Htoken (S i))].
  - split; [done|]. split; [|done]. intros [= ->]. revert E. unfold claimWebhook.
    repeat (case_match; try done).
Qed.

#[export] Instance mysql_outbox_laws : 0 ≤ maximumAttempts → WebhookOutboxLaws mysql_outbox outbox_good.
Proof.
  intros Hmax. split.
  - intros s w lease Hs. pose proof Hs as [Hd Hm]. cbn [repo_ClaimNextWebhook mysql_webhook_repository].
    unfold mysql_ClaimNextWebhook, ClaimNextWebhook. cbv zeta. pose proof (mo_others _ (Hm O) _ Hd) as Hd'.
    destruct (negb (validWorkerID w) || _ || _) eqn:E; cbn [fst snd].
    + split; [by apply outbox_good_next|]. split; [|done]. intros _.
      rewrite !orb_true_iff, negb_true_iff, Z.leb_le, Z.ltb_lt in E. destruct E as [[E|E]|E]; [by left|right; lia..].
    + bool_to_prop.
      pose proof (claim_rounds_ok w lease maintenanceBudget _ _ _ Hmax Hd' (mo_round_others _ (Hm O)) (mo_tokens _ (Hm O))) as H'.
      destruct (claim_webhook_rounds _ _ _ _ _ _ _ _) as [r d']. destruct H' as (Hok & Hne & Hv); [done|]. cbn [fst snd].
      split; [by apply outbox_good_next|]. done.
  - intros s claim settlement Hs. cbn [repo_SettleWebhook mysql_webhook_repository]. unfold mysql_SettleWebhook.
    pose proof (mysql_call_good (λ m, SettleWebhook datetime3 maximumAttempts (mm_Now m) claim settlement) s) as Hg.
    pose proof (mysql_call_error (λ m, SettleWebhook datetime3 maximumAttempts (mm_Now m) claim settlement) s) as He.
    destruct (mysql_call _ s) as [[u|e] s']; simpl in *.
    + split; [|done]. apply Hg; [|done]. intros m d [] d' Hok E.
      by eapply (webhook_step_ok datetime3 (λ _, "") 0); [..|by eapply step_settle].
    + split; [apply Hg; [|done]; intros m d [] d' Hok E; by eapply (webhook_step_ok datetime3 (λ _, "") 0); [..|by eapply step_settle]|].
      intros Hc Hv Hz [= ->]. destruct (He _ eq_refl) as [[n ?]|E]; [done|]. revert E. unfold SettleWebhook.
      rewrite Hc, Hv. simpl. repeat (case_match; try done). intros _.
      match goal with E : settled_webhook _ _ _ _ _ = None |- _ => revert E end. unfold settled_webhook. cbv zeta.
      unfold validWebhookSettlement in Hv. destruct (negb _) in Hv; [done|]. destruct (ws_Disposition settlement); try done.
      rewrite Hz in *. destruct (ws_RetryDelay settlement <? 0); [done|]. simpl in Hv.
      destruct (0 <? ws_RetryDelay settlement); [|done]. simpl. by case_match.
  - intros s retention limit Hs. cbn [repo_SweepTerminal mysql_webhook_repository]. unfold mysql_SweepTerminal.
    split.
    + apply mysql_call_good; [|done]. intros m d n d' Hok E.
      by eapply (webhook_step_ok datetime3 (λ _, "") 0); [..|by eapply step_sweep].
    + intros Hret Hlim E. apply mysql_call_error in E as [[n ?]|E]; [done|]. revert E. unfold SweepTerminal.
      case_match eqn:E; [|done]. rewrite !orb_true_iff, Z.leb_le, !Z.ltb_lt in E. lia.
Qed.
End MySQL.
