(* ===== verification/Ciphers.v ===== *)
(** * Encryption of sources and callback secrets

    [internal/external/source_crypto.go] and [callback_crypto.go]: key rings, the
    associated data that binds a ciphertext to its tenant and object, and the two
    ciphers. AES-256-GCM, SHA-256, the JSON decoder, base64 and the URL functions
    of the standard library are parameters.

    The second part proves that they round trip and bind. *)
From stdpp Require Import prelude gmap strings pretty sorting.
From S2P Require Import Prelude.
From S2P Require Import GoText.
From S2P Require Import Store.
From S2P Require Import JobRepository.
From S2P Require Import CallbackTransport.
From S2P Require Import Webhook.
From S2P Require Import WebhookDelivery.

Open Scope Z_scope.

(** ** Associated data *)

(** [AppendUint32] of a length: it wraps at 2^32. *)
Definition length_prefix (s : string) : string := big_endian 4 (wrap_uint32 (len s)).

Definition sourceAAD (tenantID sourceObjectID : string) (version : Z) : string :=
  length_prefix tenantID +:+ tenantID +:+ length_prefix sourceObjectID +:+ sourceObjectID +:+ big_endian 2 version.

Definition callbackAAD (tenantID callbackID destination : string) (version : Z) : string :=
  length_prefix tenantID +:+ tenantID +:+ length_prefix callbackID +:+ callbackID +:+
  length_prefix destination +:+ destination +:+ big_endian 2 version.

(** ** Key rings *)
Record KeyRing : Type := mkKeyRing {
  kr_activeVersion : Z;
  kr_keys : gmap Z string
}.

Definition key_valid (p : Z * string) : bool := negb ((p.1 =? 0) || negb (len p.2 =? 32)).

(** [NewSourceCipher] and [NewCallbackCipher] with a random source. *)
Definition NewSourceCipher (activeVersion : Z) (keys : gmap Z string) : option KeyRing :=
  if activeVersion =? 0 then None
  else if negb (forallb key_valid (map_to_list keys)) then None
  else if negb (is_some (keys !! activeVersion)) then None
  else Some (mkKeyRing activeVersion keys).

Definition NewCallbackCipher (activeVersion : Z) (keys : gmap Z string) : option KeyRing :=
  if (activeVersion =? 0) || bool_decide (keys = ∅) then None
  else if negb (forallb key_valid (map_to_list keys)) then None
  else if negb (is_some (keys !! activeVersion)) then None
  else Some (mkKeyRing activeVersion keys).

Section KeyRings.
(** The members of the one JSON object in a text, each with the string its value
    decodes to, and standard base64. *)
Context (json_members : string → option (list (string * option string))) (base64_decode : string → option string).

Fixpoint key_ring_loop (members : list (string * option string)) (keys : gmap Z string) : option (gmap Z string) :=
  match members with
  | [] => Some keys
  | (versionText, value) :: members =>
      match ParseUint 16 versionText with
      | None => None
      | Some version =>
          if version =? 0 then None
          else if is_some (keys !! version) then None
          else
            match value with
            | None => None
            | Some encodedKey =>
                match base64_decode encodedKey with
                | None => None
                | Some key => if negb (len key =? 32) then None else key_ring_loop members (<[version := key]> keys)
                end
            end
      end
  end.

Definition decode_key_ring (active encoded : string) : option (Z * gmap Z string) :=
  match ParseUint 16 active with
  | None => None
  | Some parsedActive =>
      if parsedActive =? 0 then None
      else
        match json_members encoded with
        | None => None
        | Some members =>
            match key_ring_loop members ∅ with
            | None => None
            | Some keys => Some (parsedActive, keys)
            end
        end
  end.

Definition DecodeSourceKeyRing (active encoded : string) : option KeyRing :=
  '(version, keys) ← decode_key_ring active encoded; NewSourceCipher version keys.

Definition DecodeCallbackKeyRing (active encoded : string) : option KeyRing :=
  '(version, keys) ← decode_key_ring active encoded; NewCallbackCipher version keys.
End KeyRings.

(** ** Authenticated encryption

    [seal key nonce plaintext aad] and [open key nonce ciphertext aad]. *)
Class AEAD : Type := {
  seal : string → string → string → string → string;
  open : string → string → string → string → option string
}.

(** What AES-256-GCM promises: opening inverts sealing, a ciphertext is 16
    bytes longer than its plaintext, and [open] recomputes the tag, so that it
    accepts nothing but what [seal] makes of the plaintext it returns. *)
Class AEADLaws `{AEAD} : Prop := {
  open_seal key nonce plaintext aad :
    len key = 32 → len nonce = 12 → open key nonce (seal key nonce plaintext aad) aad = Some plaintext;
  seal_length key nonce plaintext aad : len (seal key nonce plaintext aad) = len plaintext + 16;
  seal_open key nonce ciphertext aad plaintext :
    open key nonce ciphertext aad = Some plaintext → ciphertext = seal key nonce plaintext aad
}.

Section Ciphers.
Context `{AEAD} (sha256 : string → string).

(** [gcm]: the key of a version; AES-256 accepts its 32 bytes. *)
Definition gcm (cipher : KeyRing) (version : Z) : option string := kr_keys cipher !! version.

(** [nonce] is what the random source yields, [None] when it fails. *)
Definition source_Encrypt (cipher : KeyRing) (nonce : option string) (tenantID sourceObjectID plaintext : string) :
    option EncryptedSource :=
  if (len plaintext =? 0) || (MaximumSourceBytes <? len plaintext) || bool_decide (tenantID = "") ||
     bool_decide (sourceObjectID = "") then None
  else
    key ← gcm cipher (kr_activeVersion cipher);
    nonce ← nonce;
    Some {| es_Ciphertext := seal key nonce plaintext (sourceAAD tenantID sourceObjectID (kr_activeVersion cipher));
            es_Nonce := nonce; es_KeyVersion := kr_activeVersion cipher;
            es_SHA256 := sha256 plaintext; es_SizeBytes := len plaintext |}.

Definition source_Decrypt (cipher : KeyRing) (tenantID sourceObjectID : string) (encrypted : EncryptedSource) :
    option string :=
  if bool_decide (tenantID = "") || bool_decide (sourceObjectID = "") || (es_SizeBytes encrypted <=? 0) ||
     negb (len (es_SHA256 encrypted) =? 32) then None
  else
    key ← gcm cipher (es_KeyVersion encrypted);
    if negb (len (es_Nonce encrypted) =? 12) || (len (es_Ciphertext encrypted) <? 16) then None
    else
      plaintext ← open key (es_Nonce encrypted) (es_Ciphertext encrypted)
                    (sourceAAD tenantID sourceObjectID (es_KeyVersion encrypted));
      if negb (len plaintext =? es_SizeBytes encrypted) || negb (bool_decide (sha256 plaintext = es_SHA256 encrypted))
      then None else Some plaintext.

(** ** Canonical destinations *)
Record CallbackDestination : Type := mkDestination {
  cd_URL : string;
  cd_Host : string;
  cd_Port : Z
}.

Context (ToLower : string → string) (url_Parse : string → option URL) (ParseAddr : string → bool).
(** [path.Clean], [url.PathUnescape], [url.ParseQuery], [Values.Encode] and the
    printing of an [https] URL from host, path, raw path and raw query. *)
Context (path_Clean : string → string) (PathUnescape : string → option string).
Context (ParseQuery : string → option (gmap string (list string))) (Values_Encode : gmap string (list string) → string).
Context (url_print : string → string → string → string → string).

Definition string_le (a b : string) : Prop := String.leb a b = true.
#[local] Instance string_le_dec a b : Decision (string_le a b).
Proof. unfold string_le. apply _. Defined.

Definition CanonicalCallbackDestination (raw : string) : option CallbackDestination :=
  if bool_decide (raw = "") || negb (bool_decide (trim_space raw = raw)) then None
  else
    match url_Parse raw with
    | None => None
    | Some parsed =>
        if negb (bool_decide (ToLower (u_Scheme parsed) = "https")) || bool_decide (u_Host parsed = "") ||
           u_HasUser parsed || negb (bool_decide (u_Fragment parsed = "")) || negb (bool_decide (u_Opaque parsed = ""))
        then None
        else
          let host := ToLower (u_Hostname parsed) in
          if negb (validDNSName ToLower host) then None
          else if ParseAddr host then None
          else
            port ← (if bool_decide (u_Port parsed = "") then Some 443
                    else match ParseUint 16 (u_Port parsed) with
                         | Some port => if port =? 0 then None else Some port
                         | None => None
                         end);
            let escapedPath := if bool_decide (u_EscapedPath parsed = "") then "/" else u_EscapedPath parsed in
            let escapedPath := path_Clean escapedPath in
            let escapedPath := if starts_with 47 escapedPath then escapedPath else "/" +:+ escapedPath in
            decodedPath ← PathUnescape escapedPath;
            query ← ParseQuery (u_RawQuery parsed);
            let query := merge_sort string_le <$> query in
            Some (mkDestination
                    (url_print (host +:+ ":" +:+ pretty port) decodedPath escapedPath (Values_Encode query)) host port)
    end.

(** ** Callback secrets *)
Definition callback_Encrypt (cipher : KeyRing) (nonce : option string) (tenantID callbackID destination plaintext : string) :
    option EncryptedCallbackSecret :=
  if negb (externalIDPattern tenantID) || negb (externalIDPattern callbackID) || (len plaintext <? 32) ||
     (1024 <? len plaintext) then None
  else
    canonical ← CanonicalCallbackDestination destination;
    key ← gcm cipher (kr_activeVersion cipher);
    nonce ← nonce;
    Some (mkEncryptedSecret
            (seal key nonce plaintext (callbackAAD tenantID callbackID (cd_URL canonical) (kr_activeVersion cipher)))
            nonce (kr_activeVersion cipher)).

Definition callback_Decrypt (cipher : KeyRing) (tenantID callbackID destination : string)
    (encrypted : EncryptedCallbackSecret) : option string :=
  if negb (externalIDPattern tenantID) || negb (externalIDPattern callbackID) then None
  else
    canonical ← CanonicalCallbackDestination destination;
    key ← gcm cipher (ec_KeyVersion encrypted);
    if negb (len (ec_Nonce encrypted) =? 12) || (len (ec_Ciphertext encrypted) <=? 16) then None
    else
      plaintext ← open key (ec_Nonce encrypted) (ec_Ciphertext encrypted)
                    (callbackAAD tenantID callbackID (cd_URL canonical) (ec_KeyVersion encrypted));
      if (len plaintext <? 32) || (1024 <? len plaintext) then None else Some plaintext.
End Ciphers.

(** * Properties of the ciphers

    The associated data is injective, decryption inverts encryption across key
    rotations, and what decrypts is bound to its tenant and object. *)
(** ** Associated data *)
(** A string whose length fits the 32-bit prefix. *)
Definition fits (s : string) : Prop := len s < 2 ^ 32.

Lemma length_prefix_split s s' r r' :
  fits s → fits s' → length_prefix s +:+ s +:+ r = length_prefix s' +:+ s' +:+ r' → s = s' ∧ r = r'.
Proof.
  unfold fits, length_prefix. intros Hs Hs' E. pose proof (len_nonneg s). pose proof (len_nonneg s').
  apply append_inj in E as [Hl E]; [|by rewrite !big_endian_length].
  rewrite !wrap_uint32_id in Hl by (unfold max_uint32; lia). apply big_endian_inj in Hl; [|simpl; lia..].
  apply append_inj in E; [done|]. unfold len in *. lia.
Qed.

Lemma sourceAAD_inj t t' s s' v v' :
  fits t → fits t' → fits s → fits s' → 0 ≤ v < 65536 → 0 ≤ v' < 65536 →
  sourceAAD t s v = sourceAAD t' s' v' → t = t' ∧ s = s' ∧ v = v'.
Proof.
  unfold sourceAAD. intros Ht Ht' Hs Hs' Hv Hv' E.
  apply length_prefix_split in E as [-> E]; [|done..]. apply length_prefix_split in E as [-> E]; [|done..].
  by apply big_endian_inj in E.
Qed.

Lemma callbackAAD_inj t t' c c' d d' v v' :
  fits t → fits t' → fits c → fits c' → fits d → fits d' → 0 ≤ v < 65536 → 0 ≤ v' < 65536 →
  callbackAAD t c d v = callbackAAD t' c' d' v' → t = t' ∧ c = c' ∧ d = d' ∧ v = v'.
Proof.
  unfold callbackAAD. intros Ht Ht' Hc Hc' Hd Hd' Hv Hv' E.
  apply length_prefix_split in E as [-> E]; [|done..]. apply length_prefix_split in E as [-> E]; [|done..].
  apply length_prefix_split in E as [-> E]; [|done..]. by apply big_endian_inj in E.
Qed.

(** ** Key rings *)
Record ring_ok (ring : KeyRing) : Prop := {
  ro_keys : ∀ v key, kr_keys ring !! v = Some key → v ≠ 0 ∧ len key = 32;
  ro_active : is_Some (kr_keys ring !! kr_activeVersion ring)
}.

Lemma keys_valid keys : forallb key_valid (map_to_list keys) = true → ∀ v key, keys !! v = Some key → v ≠ 0 ∧ len key = 32.
Proof.
  intros H v key Hk. apply (proj1 (forallb_forall _ _)) with (x := (v, key)) in H.
  - unfold key_valid in H. simpl in H. bool_to_prop. done.
  - by apply list_elem_of_In, elem_of_map_to_list.
Qed.

Lemma NewSourceCipher_ok v keys ring : NewSourceCipher v keys = Some ring → ring_ok ring ∧ ring = mkKeyRing v keys.
Proof.
  unfold NewSourceCipher. case_match; [done|]. destruct (negb (forallb _ _)) eqn:E; [done|].
  destruct (negb (is_some _)) eqn:Ea; [done|]. intros [= <-]. bool_to_prop. split; [|done].
  split; [by apply keys_valid|by apply is_some_true].
Qed.

Lemma NewCallbackCipher_ok v keys ring : NewCallbackCipher v keys = Some ring → ring_ok ring ∧ ring = mkKeyRing v keys.
Proof.
  unfold NewCallbackCipher. case_match; [done|]. destruct (negb (forallb _ _)) eqn:E; [done|].
  destruct (negb (is_some _)) eqn:Ea; [done|]. intros [= <-]. bool_to_prop. split; [|done].
  split; [by apply keys_valid|by apply is_some_true].
Qed.

(** A later ring keeps the keys of an earlier one. *)
Definition rotates_to (old new : KeyRing) : Prop := kr_keys old ⊆ kr_keys new.

Section Ciphers.
Context `{AEAD} `{!AEADLaws} (sha256 : string → string).
Context (sha256_length : ∀ s, len (sha256 s) = 32).

(** ** Sources *)

(** An encrypted source can always be decrypted again: with a valid key
    ring and 12 random bytes every source within the limits is encrypted, and
    decrypting it as the same object of the same tenant returns it unchanged,
    also with any later key ring that still has the key it was encrypted with. *)
Lemma source_cipher_roundtrip cipher later nonce tenantID sourceObjectID plaintext :
  ring_ok cipher → ring_ok later → rotates_to cipher later → len nonce = 12 →
  tenantID ≠ "" → sourceObjectID ≠ "" → 0 < len plaintext ≤ MaximumSourceBytes →
  ∃ encrypted, source_Encrypt sha256 cipher (Some nonce) tenantID sourceObjectID plaintext = Some encrypted ∧
    source_Decrypt sha256 later tenantID sourceObjectID encrypted = Some plaintext.
Proof.
  intros [Hkeys [key Hactive]] Hlater Hrot Hnonce Ht Hs Hlen. destruct (Hkeys _ _ Hactive) as [_ Hkey].
  unfold source_Encrypt, gcm. rewrite (proj2 (Z.eqb_neq _ _)), (proj2 (Z.ltb_ge _ _)), !bool_decide_eq_false_2 by (done || lia).
  cbn [orb]. rewrite Hactive. eexists. split; [reflexivity|].
  unfold source_Decrypt, gcm. cbn [es_SizeBytes es_SHA256 es_KeyVersion es_Nonce es_Ciphertext].
  rewrite !bool_decide_eq_false_2, (proj2 (Z.leb_gt _ _)), sha256_length by (done || lia). simpl.
  rewrite (lookup_weaken _ _ _ _ Hactive Hrot). simpl. rewrite Hnonce, seal_length. simpl.
  rewrite (proj2 (Z.ltb_ge _ _)) by lia. rewrite open_seal by done. simpl.
  by rewrite Z.eqb_refl, bool_decide_eq_true_2.
Qed.

(** What a decrypted source is known to be. *)
Lemma source_Decrypt_sound cipher tenantID sourceObjectID encrypted plaintext :
  source_Decrypt sha256 cipher tenantID sourceObjectID encrypted = Some plaintext →
  ∃ key, kr_keys cipher !! es_KeyVersion encrypted = Some key ∧
    es_Ciphertext encrypted = seal key (es_Nonce encrypted) plaintext
                                (sourceAAD tenantID sourceObjectID (es_KeyVersion encrypted)) ∧
    len plaintext = es_SizeBytes encrypted ∧ sha256 plaintext = es_SHA256 encrypted ∧ 0 < len plaintext.
Proof.
  unfold source_Decrypt, gcm. destruct (_ || _) eqn:E; [done|]. bool_to_prop.
  destruct (kr_keys cipher !! es_KeyVersion encrypted) as [key|]; [|done]. simpl. case_match; [done|].
  destruct (open _ _ _ _) as [p|] eqn:Eo; [|done]. simpl. destruct (negb (len p =? _) || _) eqn:E'; [done|]. intros [= ->].
  bool_to_prop. exists key. apply seal_open in Eo. split_and!; [done..|lia].
Qed.

(** A stored source cannot be passed off as another one. Whatever decrypts
    has the recorded size and digest and is what the key seals under its tenant
    and object; and if one stored source decrypted as two different objects, or
    for two tenants, the same key would have sealed the two plaintexts under two
    different associated data to one ciphertext. *)
Lemma source_cipher_bound cipher tenantID tenantID' sourceObjectID sourceObjectID' encrypted plaintext plaintext' :
  fits tenantID → fits tenantID' → fits sourceObjectID → fits sourceObjectID' →
  0 ≤ es_KeyVersion encrypted < 65536 →
  source_Decrypt sha256 cipher tenantID sourceObjectID encrypted = Some plaintext →
  source_Decrypt sha256 cipher tenantID' sourceObjectID' encrypted = Some plaintext' →
  len plaintext = es_SizeBytes encrypted ∧ sha256 plaintext = es_SHA256 encrypted ∧
  sha256 plaintext = sha256 plaintext' ∧
  ((tenantID, sourceObjectID) = (tenantID', sourceObjectID') ∧ plaintext = plaintext' ∨
   ∃ key aad aad', kr_keys cipher !! es_KeyVersion encrypted = Some key ∧ aad ≠ aad' ∧
     seal key (es_Nonce encrypted) plaintext aad = seal key (es_Nonce encrypted) plaintext' aad').
Proof.
  intros Ht Ht' Hs Hs' Hv Hd Hd'. pose proof Hd as Hd0. pose proof Hd' as Hd0'.
  apply source_Decrypt_sound in Hd as (key & Hk & Hc & Hl & Hh & _).
  apply source_Decrypt_sound in Hd' as (key' & Hk' & Hc' & Hl' & Hh' & _).
  assert (key' = key) as -> by congruence. split_and!; [done..|congruence|].
  destruct (decide ((tenantID, sourceObjectID) = (tenantID', sourceObjectID'))) as [[= -> ->]|Hne].
  - left. split; [done|]. congruence.
  - right. eexists key, _, _. split; [done|]. split; [|rewrite <-Hc, <-Hc'; reflexivity].
    intros E. apply Hne. apply sourceAAD_inj in E as (-> & -> & _); done.
Qed.

(** ** Callback secrets *)
Context (ToLower : string → string) (url_Parse : string → option URL) (ParseAddr : string → bool).
Context (path_Clean : string → string) (PathUnescape : string → option string).
Context (ParseQuery : string → option (gmap string (list string))) (Values_Encode : gmap string (list string) → string).
Context (url_print : string → string → string → string → string).

Let canonical := CanonicalCallbackDestination ToLower url_Parse ParseAddr path_Clean PathUnescape ParseQuery Values_Encode url_print.
Let encrypt := callback_Encrypt ToLower url_Parse ParseAddr path_Clean PathUnescape ParseQuery Values_Encode url_print.
Let decrypt := callback_Decrypt ToLower url_Parse ParseAddr path_Clean PathUnescape ParseQuery Values_Encode url_print.

(** A callback secret survives encryption, key rotation and respelling of
    its destination: what is encrypted for a callback is decrypted by any later
    ring that keeps the key, for any destination with the same canonical URL. *)
Lemma callback_cipher_roundtrip cipher later nonce tenantID callbackID destination destination' c c' plaintext :
  ring_ok cipher → ring_ok later → rotates_to cipher later → len nonce = 12 →
  externalIDPattern tenantID = true → externalIDPattern callbackID = true → 32 ≤ len plaintext ≤ 1024 →
  canonical destination = Some c → canonical destination' = Some c' → cd_URL c = cd_URL c' →
  ∃ encrypted, encrypt cipher (Some nonce) tenantID callbackID destination plaintext = Some encrypted ∧
    decrypt later tenantID callbackID destination' encrypted = Some plaintext.
Proof.
  intros [Hkeys [key Hactive]] Hlater Hrot Hnonce Ht Hcb Hlen Hc Hc' Eurl. destruct (Hkeys _ _ Hactive) as [_ Hkey].
  unfold encrypt, callback_Encrypt, gcm. fold canonical. rewrite Ht, Hcb, !(proj2 (Z.ltb_ge _ _)) by lia. simpl.
  rewrite Hc, Hactive. simpl. eexists. split; [reflexivity|].
  unfold decrypt, callback_Decrypt, gcm. fold canonical. rewrite Ht, Hcb, Hc'. simpl.
  rewrite (lookup_weaken _ _ _ _ Hactive Hrot). simpl. rewrite Hnonce, seal_length, (proj2 (Z.leb_gt _ _)) by lia. simpl.
  rewrite <-Eurl, open_seal by done. simpl. by rewrite !(proj2 (Z.ltb_ge _ _)) by lia.
Qed.
End Ciphers.
