(* ===== verification/BundleArchive.v ===== *)
(** * Bundle archives

    [internal/bundle/archive.go]: opening, inspecting and reading the ZIP file of
    a test bundle, and [internal/bundle/pack.go], which writes one. Decoding the
    ZIP container itself ([archive/zip]) is a parameter: from the bytes of a file
    to its entries, each with the stream of its decompressed content. *)
From stdpp Require Import prelude gmap strings sorting.
From S2P Require Import Prelude.
From S2P Require Import GoText.
From S2P Require Import Manifest.

Open Scope Z_scope.

Definition maxSpecialJudgeSourceBytes : Z := Z.shiftl 4 20.

Record ArchiveLimits : Type := mkArchiveLimits {
  MaxFiles : Z;
  MaxManifestBytes : Z;
  MaxCaseBytes : Z;
  MaxTotalBytes : Z;
  MaxCompressionRatio : Z
}.

Definition DefaultArchiveLimits : ArchiveLimits :=
  mkArchiveLimits 20002 (Z.shiftl 1 20) (Z.shiftl 64 20) (Z.shiftl 512 20) 200.

Definition ValidateArchiveLimits (limits : ArchiveLimits) : bool :=
  negb ((MaxFiles limits <=? 0) || (MaxManifestBytes limits <=? 0) || (MaxCaseBytes limits <=? 0) ||
        (MaxTotalBytes limits <=? 0) || (MaxCompressionRatio limits =? 0)).

(** A stream delivers its bytes and then ends, or fails. *)
Record stream : Type := mkStream { st_Data : string; st_Ends : bool }.

(** The header of an entry, and what opening it gives. *)
Record zip_File : Type := mkZipFile {
  zf_Name : string;
  zf_IsRegular : bool;
  zf_Flags : Z;
  zf_Method : Z;
  zf_UncompressedSize64 : Z;
  zf_CompressedSize64 : Z;
  zf_Open : option stream
}.

Definition zip_Store : Z := 0.
Definition zip_Deflate : Z := 8.

Inductive archive_error : Type :=
| ErrArchiveLimits
| ErrDatabaseManifestSize
| ErrDatabaseManifest (e : manifest_error)
| ErrOpenZIP
| ErrFileCount
| ErrUnsafeEntry
| ErrDuplicateEntry
| ErrEntryKind
| ErrCaseBytes
| ErrManifestBytes
| ErrCompressionRatio
| ErrTotalBytes
| ErrEntryMissing
| ErrEntryOpen
| ErrEntryRead
| ErrEntrySize
| ErrEntryText
| ErrArchiveManifest (e : manifest_error)
| ErrManifestDisagrees
| ErrUnreferencedFiles
| ErrReferencedMissing
| ErrNoSpecialJudge
| ErrSpecialJudgeMismatch.

Notation zip_files := (gmap string zip_File).

(** ** Reading an entry *)

(** What [io.LimitReader(reader, limit+1)] lets through: at most [limit+1]
    bytes, and the failure of the stream only when it comes before them. *)
Definition limited (limit : Z) (s : stream) : stream :=
  let n := wrap_int64 (limit + 1) in
  if n <=? 0 then mkStream "" true
  else if len (st_Data s) <? n then s
  else mkStream (stake (Z.to_nat n) (st_Data s)) true.

Definition open_entry (files : zip_files) (name : string) : result archive_error (zip_File * stream) :=
  match files !! name with
  | None => Err ErrEntryMissing
  | Some file =>
      match zf_Open file with
      | None => Err ErrEntryOpen
      | Some reader => Ok (file, reader)
      end
  end.

Definition readBytes (files : zip_files) (name : string) (limit : Z) : result archive_error string :=
  '(file, reader) ← open_entry files name;
  let s := limited limit reader in
  _ ← guard_err (st_Ends s) ErrEntryRead;
  let data := st_Data s in
  if (limit <? len data) || negb (len data =? zf_UncompressedSize64 file) then Err ErrEntrySize else Ok data.

Definition readText (files : zip_files) (name : string) (limit : Z) : result archive_error string :=
  data ← readBytes files name limit;
  _ ← guard_err (valid_string data) ErrEntryText;
  mret data.

(** The loop of [validateTextEntry] over [ReadRune]. *)
Fixpoint validate_runes (limit size : Z) (rs : list (Z * string)) : result archive_error Z :=
  match rs with
  | [] => Ok size
  | r :: rs =>
      if bad_rune r then Err ErrEntryText
      else
        let size := size + len r.2 in
        if limit <? size then Err ErrEntrySize else validate_runes limit size rs
  end.

Definition validateTextEntry (files : zip_files) (name : string) (limit : Z) : result archive_error unit :=
  '(file, reader) ← open_entry files name;
  let s := limited limit reader in
  size ← validate_runes limit 0 (runes (st_Data s));
  _ ← guard_err (st_Ends s) ErrEntryRead;
  guard_err (size =? zf_UncompressedSize64 file) ErrEntrySize.

(** ** Validating an archive *)
Definition exceedsCompressionRatio (uncompressed compressed maximum : Z) : bool :=
  if uncompressed =? 0 then false
  else if compressed =? 0 then true
  else
    let quotient := uncompressed / compressed in
    let remainder := uncompressed `mod` compressed in
    (maximum <? quotient) || ((quotient =? maximum) && (0 <? remainder)).

(** The loop over the entries, with the files accepted so far and the [uint64]
    sum of their sizes. *)
Fixpoint validate_entries (limits : ArchiveLimits) (files : zip_files) (total : Z) (entries : list zip_File) :
    result archive_error zip_files :=
  match entries with
  | [] => Ok files
  | file :: entries =>
      let name := zf_Name file in
      let size := zf_UncompressedSize64 file in
      let maximumTotal := wrap_uint64 (MaxTotalBytes limits) in
      if negb (validateArtifactPath name) then Err ErrUnsafeEntry
      else if is_some (files !! name) then Err ErrDuplicateEntry
      else if negb (zf_IsRegular file) || negb (Z.land (zf_Flags file) 1 =? 0) ||
              (negb (zf_Method file =? zip_Store) && negb (zf_Method file =? zip_Deflate)) then Err ErrEntryKind
      else if (wrap_uint64 (MaxCaseBytes limits) <? size) && negb (bool_decide (name = reserved_name))
      then Err ErrCaseBytes
      else if bool_decide (name = reserved_name) && (wrap_uint64 (MaxManifestBytes limits) <? size)
      then Err ErrManifestBytes
      else if exceedsCompressionRatio size (zf_CompressedSize64 file) (MaxCompressionRatio limits)
      then Err ErrCompressionRatio
      else if (maximumTotal <? size) || (wrap_uint64 (maximumTotal - size) <? total) then Err ErrTotalBytes
      else validate_entries limits (<[name := file]> files) (wrap_uint64 (total + size)) entries
  end.

(** The set [referenced] of [validate]. *)
Definition referenced_files (m : Manifest) : gset string :=
  {[reserved_name]} ∪ list_to_set (special_paths m) ∪ list_to_set (case_paths (m_Cases m)).

Record Artifact : Type := mkArtifact {
  ar_Manifest : Manifest;
  ar_ManifestJSON : string;
  ar_Files : zip_files;
  ar_Limits : ArchiveLimits
}.

Definition ReadCase (artifact : Artifact) (testCase : Case) : result archive_error (string * string) :=
  input ← readText (ar_Files artifact) (case_Input testCase) (MaxCaseBytes (ar_Limits artifact));
  output ← readText (ar_Files artifact) (case_Output testCase) (MaxCaseBytes (ar_Limits artifact));
  mret (input, output).

Section Archive.
Context (json_manifest : string → option Manifest) (sha256 : string → string)
        (zip_OpenReader : string → option (list zip_File)).

Definition ReadSpecialJudge (artifact : Artifact) : result archive_error string :=
  match m_SpecialJudge (ar_Manifest artifact) with
  | None => Err ErrNoSpecialJudge
  | Some sj =>
      source ← readText (ar_Files artifact) (sj_Source sj) maxSpecialJudgeSourceBytes;
      _ ← guard_err (bool_decide (hex_encode (sha256 source) = sj_SourceSHA256 sj)) ErrSpecialJudgeMismatch;
      mret source
  end.

(** [ParseManifest] with its error wrapped. *)
Definition parse_manifest (wrap : manifest_error → archive_error) (data : string) : result archive_error Manifest :=
  match ParseManifest json_manifest data with Ok m => Ok m | Err e => Err (wrap e) end.

(** [Artifact.validate]. *)
Definition validate_archive (limits : ArchiveLimits) (entries : list zip_File) (expected : option Manifest) :
    result archive_error Artifact :=
  let count := Z.of_nat (length entries) in
  _ ← guard_err (negb ((count =? 0) || (MaxFiles limits <? count))) ErrFileCount;
  files ← validate_entries limits ∅ 0 entries;
  manifestBytes ← readBytes files reserved_name (MaxManifestBytes limits);
  actual ← parse_manifest ErrArchiveManifest manifestBytes;
  _ ← guard_err (match expected with Some m => bool_decide (m = actual) | None => true end) ErrManifestDisagrees;
  let referenced := referenced_files actual in
  _ ← guard_err (size referenced =? size files)%nat ErrUnreferencedFiles;
  _ ← guard_err (bool_decide (referenced ⊆ dom files)) ErrReferencedMissing;
  let artifact := mkArtifact actual manifestBytes files limits in
  _ ← (match m_SpecialJudge actual with Some _ => _ ← ReadSpecialJudge artifact; Ok tt | None => Ok tt end);
  mret artifact.

Definition openArchive (file : string) (limits : ArchiveLimits) (expected : option Manifest) :
    result archive_error Artifact :=
  entries ← from_option (zip_OpenReader file) ErrOpenZIP;
  validate_archive limits entries expected.

Definition OpenArchive (file databaseManifest : string) (limits : ArchiveLimits) : result archive_error Artifact :=
  _ ← guard_err (ValidateArchiveLimits limits) ErrArchiveLimits;
  _ ← guard_err (len databaseManifest <=? MaxManifestBytes limits) ErrDatabaseManifestSize;
  expected ← parse_manifest ErrDatabaseManifest databaseManifest;
  openArchive file limits (Some expected).

(** The loop of [InspectArchive] over the cases. *)
Fixpoint inspect_cases (files : zip_files) (limit : Z) (cases : list Case) : result archive_error unit :=
  match cases with
  | [] => Ok tt
  | testCase :: cases =>
      _ ← validateTextEntry files (case_Input testCase) limit;
      _ ← validateTextEntry files (case_Output testCase) limit;
      inspect_cases files limit cases
  end.

Definition InspectArchive (file : string) (limits : ArchiveLimits) : result archive_error (Manifest * string) :=
  _ ← guard_err (ValidateArchiveLimits limits) ErrArchiveLimits;
  artifact ← openArchive file limits None;
  _ ← inspect_cases (ar_Files artifact) (MaxCaseBytes limits) (m_Cases (ar_Manifest artifact));
  _ ← (match m_SpecialJudge (ar_Manifest artifact) with
       | Some sj => validateTextEntry (ar_Files artifact) (sj_Source sj) maxSpecialJudgeSourceBytes
       | None => Ok tt
       end);
  mret (ar_Manifest artifact, ar_ManifestJSON artifact).
End Archive.

(** ** Writing an archive *)
Section Pack.
(** [json.Marshal] of a manifest and [zip.Writer] over the entries, in the order
    they are written, with the fixed metadata of [writeDeterministicZIPEntry]. *)
Context (manifest_json : Manifest → string) (zip_write : list (string * string) → string).

Inductive pack_error : Type :=
| ErrPackManifest (e : manifest_error)
| ErrPackFiles
| ErrPackMissing.

Definition WriteDeterministicArchive (manifest : Manifest) (files : gmap string string) :
    result pack_error (string * string) :=
  match Validate manifest with
  | Err e => Err (ErrPackManifest e)
  | Ok _ =>
      let canonicalManifest := manifest_json manifest in
      let referenced : gset string := list_to_set (case_paths (m_Cases manifest)) ∪ list_to_set (special_paths manifest) in
      if negb (size files =? size referenced)%nat then Err ErrPackFiles
      else if negb (bool_decide (referenced ⊆ dom files)) then Err ErrPackMissing
      else
        let names := merge_sort String.le (elements referenced) in
        let entries := (reserved_name, canonicalManifest) ::
                       ((λ name, (name, default "" (files !! name))) <$> names) in
        Ok (zip_write entries, canonicalManifest)
  end.
End Pack.
