(* ===== verification/ArchiveSafety.v ===== *)
(** * What an accepted archive guarantees

    The streaming validation of a text agrees with reading it whole; the checks
    on entries bound what decompression can produce; an archive that
    [InspectArchive] accepts can be opened and read against its own manifest; and
    what [WriteDeterministicArchive] writes is accepted. *)
From stdpp Require Import prelude gmap strings sorting.
From S2P Require Import Prelude.
From S2P Require Import GoText.
From S2P Require Import Manifest.
From S2P Require Import BundleArchive.

Open Scope Z_scope.

(** ** Reading *)
Lemma readBytes_ok files name limit data :
  readBytes files name limit = Ok data ↔
  ∃ file reader, files !! name = Some file ∧ zf_Open file = Some reader ∧ st_Ends (limited limit reader) = true ∧
    data = st_Data (limited limit reader) ∧ len data ≤ limit ∧ len data = zf_UncompressedSize64 file.
Proof.
  unfold readBytes, open_entry. split.
  - destruct (files !! name) as [file|]; [|done]. destruct (zf_Open file) as [reader|] eqn:Ho; [|done].
    cbn [mbind result_bind]. rewrite bind_ok. intros (u & Hg%guard_err_ok & H).
    destruct (_ || _) eqn:Hs; [done|]. injection H as <-.
    rewrite orb_false_iff, Z.ltb_ge, negb_false_iff, Z.eqb_eq in Hs. destruct Hs. by exists file, reader.
  - intros (file & reader & -> & -> & He & -> & Hl & Hsz). cbn [mbind result_bind]. rewrite He. cbn [guard_err mbind result_bind].
    by rewrite (proj2 (Z.ltb_ge _ _) Hl), (proj2 (Z.eqb_eq _ _) Hsz).
Qed.

Lemma readText_ok files name limit data :
  readText files name limit = Ok data ↔ readBytes files name limit = Ok data ∧ valid_string data = true.
Proof.
  unfold readText. rewrite bind_ok. split.
  - intros (d & Hb & H). rewrite bind_ok in H. destruct H as (u & Hv%guard_err_ok & H). by injection H as <-.
  - intros [-> Hv]. eexists. split; [done|]. by rewrite Hv.
Qed.

Lemma validate_runes_ok limit size rs n :
  size ≤ limit →
  validate_runes limit size rs = Ok n ↔
  forallb (λ r, negb (bad_rune r)) rs = true ∧ n = size + len (rune_bytes rs) ∧ n ≤ limit.
Proof.
  revert size. induction rs as [|r rs IH]; intros size Hs; cbn [validate_runes forallb rune_bytes].
  - change (len "") with 0. rewrite Z.add_0_r. split; [by intros [= <-]|by intros (_ & -> & _)].
  - destruct (bad_rune r); cbn [negb andb]; [split; [done|intros [? _]; done]|].
    rewrite len_append. pose proof (len_nonneg (rune_bytes rs)).
    destruct (limit <? size + len r.2) eqn:E; bool_to_prop; [split; [done|lia]|].
    rewrite IH by done. split; intros (? & ? & ?); split_and!; (done || lia).
Qed.

Lemma is_ok_true {E A} (r : result E A) : is_ok r = true ↔ ∃ a, r = Ok a.
Proof. destruct r as [a|e]; naive_solver. Qed.

Lemma validateTextEntry_ok files name limit :
  0 ≤ limit → validateTextEntry files name limit = Ok tt ↔ ∃ data, readText files name limit = Ok data.
Proof.
  intros Hl. setoid_rewrite readText_ok. setoid_rewrite readBytes_ok. unfold validateTextEntry, open_entry. split.
  - intros H. destruct (files !! name) as [file|]; [|done]. destruct (zf_Open file) as [reader|] eqn:Ho; [|done].
    cbn [mbind result_bind] in H. rewrite bind_ok in H. destruct H as (n & (Hv & -> & Hn)%validate_runes_ok & H); [|done].
    rewrite bind_ok in H. destruct H as (u & He%guard_err_ok & Hz%guard_err_ok%Z.eqb_eq). rewrite rune_bytes_runes in *.
    eexists. split; [|exact Hv]. exists file, reader. split_and!; (done || lia).
  - intros (data & (file & reader & -> & -> & He & -> & Hle & Hz) & Hv). cbn [mbind result_bind].
    rewrite (proj2 (validate_runes_ok limit 0 (runes _) (len (st_Data (limited limit reader))) Hl))
      by (split_and!; [exact Hv|rewrite rune_bytes_runes; lia|done]).
    cbn [mbind result_bind]. rewrite He. cbn [guard_err mbind result_bind]. by rewrite (proj2 (Z.eqb_eq _ _) Hz).
Qed.

(** The streaming validation of an upload agrees with reading: for every
    file, name and limit [validateTextEntry], which decodes rune by rune and keeps
    nothing, accepts an entry exactly when [readText], which reads the whole entry
    and then checks its encoding, would. *)
Lemma validateTextEntry_readText files name limit :
  0 ≤ limit → is_ok (validateTextEntry files name limit) = is_ok (readText files name limit).
Proof.
  intros Hl. apply eq_bool_prop_intro. rewrite !Is_true_true, !is_ok_true, <-validateTextEntry_ok by done.
  split; [by intros [[] H]|by exists tt].
Qed.

(** ** Accepting the entries *)
Lemma exceedsCompressionRatio_false u c m :
  0 ≤ u → 0 ≤ c → 0 ≤ m → exceedsCompressionRatio u c m = false ↔ u ≤ m * c.
Proof.
  intros Hu Hc Hm. unfold exceedsCompressionRatio. destruct (u =? 0) eqn:E; bool_to_prop; [subst; split; [nia|done]|].
  destruct (c =? 0) eqn:E'; bool_to_prop; [subst; split; [done|nia]|].
  rewrite orb_false_iff, andb_false_iff, !Z.ltb_ge, Z.eqb_neq. pose proof (Z.div_mod u c ltac:(lia)).
  pose proof (Z.mod_pos_bound u c ltac:(lia)). split; [intros [? [?|?]]; nia|]. intros. split; [nia|].
  destruct (decide (u / c = m)); [right; nia|by left].
Qed.

(** What is asked of one entry. *)
Record entry_ok (limits : ArchiveLimits) (f : zip_File) : Prop := {
  eo_path : validateArtifactPath (zf_Name f) = true;
  eo_regular : zf_IsRegular f = true;
  eo_unencrypted : Z.land (zf_Flags f) 1 = 0;
  eo_method : zf_Method f = zip_Store ∨ zf_Method f = zip_Deflate;
  eo_size : zf_UncompressedSize64 f ≤ if decide (zf_Name f = reserved_name) then MaxManifestBytes limits else MaxCaseBytes limits;
  eo_ratio : zf_UncompressedSize64 f ≤ MaxCompressionRatio limits * zf_CompressedSize64 f
}.

(** The limits after [ValidateArchiveLimits], at their Go types; the sizes of an
    entry are [uint64]. *)
Definition int64_limits (limits : ArchiveLimits) : Prop :=
  0 < MaxFiles limits ≤ max_int64 ∧ 0 < MaxManifestBytes limits ≤ max_int64 ∧ 0 < MaxCaseBytes limits ≤ max_int64 ∧
  0 < MaxTotalBytes limits ≤ max_int64 ∧ 0 < MaxCompressionRatio limits ≤ max_uint64.

Definition uint64_sizes (f : zip_File) : Prop :=
  0 ≤ zf_UncompressedSize64 f ≤ max_uint64 ∧ 0 ≤ zf_CompressedSize64 f ≤ max_uint64.

Lemma int64_limits_valid limits : int64_limits limits → ValidateArchiveLimits limits = true.
Proof.
  intros (? & ? & ? & ? & ?). unfold ValidateArchiveLimits.
  rewrite negb_true_iff, !orb_false_iff, !Z.leb_gt, Z.eqb_neq. lia.
Qed.

Definition add_files (files : zip_files) (entries : list zip_File) : zip_files :=
  foldl (λ m f, <[zf_Name f := f]> m) files entries.

Lemma add_files_lookup files entries name f :
  NoDup (zf_Name <$> entries) → (∀ g, g ∈ entries → files !! zf_Name g = None) →
  add_files files entries !! name = Some f ↔ files !! name = Some f ∨ f ∈ entries ∧ zf_Name f = name.
Proof.
  revert files. induction entries as [|g entries IH]; intros files Hn Hf; cbn [add_files foldl].
  - split; [by left|intros [?|[?%not_elem_of_nil ?]]; done].
  - apply NoDup_cons in Hn as [Hg Hn]. fold (add_files (<[zf_Name g:=g]> files) entries). rewrite IH; [|done|].
    + rewrite lookup_insert_Some, elem_of_cons. pose proof (Hf g ltac:(apply list_elem_of_here)). split.
      * intros [[[<- <-]|[? ?]]|[? ?]]; auto.
      * intros [H'|[[->|?] <-]]; [|by left; left|by right]. left; right. split; [congruence|done].
    + intros h Hh. rewrite lookup_insert_ne; [apply Hf; by apply list_elem_of_further|].
      intros E. apply Hg. rewrite E. by apply list_elem_of_fmap_2.
Qed.

Lemma entry_checks limits file :
  int64_limits limits → uint64_sizes file →
  negb (validateArtifactPath (zf_Name file)) = false ∧
  negb (zf_IsRegular file) || negb (Z.land (zf_Flags file) 1 =? 0) ||
    (negb (zf_Method file =? zip_Store) && negb (zf_Method file =? zip_Deflate)) = false ∧
  (wrap_uint64 (MaxCaseBytes limits) <? zf_UncompressedSize64 file) && negb (bool_decide (zf_Name file = reserved_name)) = false ∧
  bool_decide (zf_Name file = reserved_name) && (wrap_uint64 (MaxManifestBytes limits) <? zf_UncompressedSize64 file) = false ∧
  exceedsCompressionRatio (zf_UncompressedSize64 file) (zf_CompressedSize64 file) (MaxCompressionRatio limits) = false ↔
  entry_ok limits file.
Proof.
  intros (? & ? & ? & ? & ?) [? ?]. unfold max_int64, max_uint64 in *. rewrite !wrap_uint64_id by lia.
  rewrite exceedsCompressionRatio_false by lia.
  rewrite !orb_false_iff, !andb_false_iff, !negb_false_iff, !Z.ltb_ge, !Z.eqb_eq, bool_decide_eq_true, bool_decide_eq_false.
  split.
  - intros (? & [[? ?] ?] & Hc & Hm & ?). split; try done. destruct (decide _) as [E|E]; tauto.
  - intros [? ? ? ? Hs ?]. destruct (decide _) as [E|E]; tauto.
Qed.

Lemma validate_entries_ok limits files total entries files' :
  int64_limits limits → Forall uint64_sizes entries → 0 ≤ total ≤ MaxTotalBytes limits →
  validate_entries limits files total entries = Ok files' ↔
  NoDup (zf_Name <$> entries) ∧ (∀ f, f ∈ entries → files !! zf_Name f = None) ∧ Forall (entry_ok limits) entries ∧
  total + sumZ zf_UncompressedSize64 entries ≤ MaxTotalBytes limits ∧ files' = add_files files entries.
Proof.
  intros Hl. revert files total. induction entries as [|f entries IH]; intros files total Hsz Ht; cbn [validate_entries sumZ].
  - cbn. rewrite Z.add_0_r. split; [intros [= <-]|by intros (_ & _ & _ & _ & ->)].
    split_and!; [apply NoDup_nil_2|by intros f ?%not_elem_of_nil|done|lia|done].
  - apply Forall_cons in Hsz as [Hf Hsz]. pose proof (entry_checks limits f Hl Hf) as Hchk.
    assert (0 ≤ sumZ zf_UncompressedSize64 entries) by (apply sumZ_nonneg; eapply Forall_impl; [exact Hsz|intros x [? ?]; lia]).
    destruct Hf as [? ?]. destruct Hl as (Hl1 & Hl2 & Hl3 & Hl4 & Hl5). unfold max_int64, max_uint64 in *.
    rewrite (wrap_uint64_id (MaxTotalBytes limits)) by lia.
    rewrite fmap_cons, NoDup_cons, Forall_cons. setoid_rewrite elem_of_cons.
    destruct (negb _) eqn:E1; [split; [done|intros (_ & _ & [Hok _] & _); apply Hchk in Hok as (? & ? & ? & ? & ?); congruence]|].
    destruct (is_some _) eqn:E2.
    { apply is_some_true in E2 as [g Hg]. split; [done|intros (_ & Hfr & _)]. rewrite (Hfr f) in Hg by auto. done. }
    destruct (_ || _) eqn:E3 in |- *; [split; [done|intros (_ & _ & [Hok _] & _); apply Hchk in Hok as (? & ? & ? & ? & ?); congruence]|].
    destruct (_ && _) eqn:E4 in |- *; [split; [done|intros (_ & _ & [Hok _] & _); apply Hchk in Hok as (? & ? & ? & ? & ?); congruence]|].
    destruct (_ && _) eqn:E5 in |- *; [split; [done|intros (_ & _ & [Hok _] & _); apply Hchk in Hok as (? & ? & ? & ? & ?); congruence]|].
    destruct (exceedsCompressionRatio _ _ _) eqn:E6; [split; [done|intros (_ & _ & [Hok _] & _); apply Hchk in Hok as (? & ? & ? & ? & ?); congruence]|].
    destruct (_ || _) eqn:E7 in |- *.
    + split; [done|]. intros (_ & _ & _ & Hs & _). rewrite wrap_uint64_id in E7 by lia.
      rewrite orb_true_iff, !Z.ltb_lt in E7. lia.
    + rewrite orb_false_iff, !Z.ltb_ge in E7. destruct E7 as [E7 E8]. rewrite wrap_uint64_id in E8 by lia.
      rewrite wrap_uint64_id by lia. rewrite IH by (done || lia).
      apply not_true_iff_false in E2. rewrite is_some_true, <-eq_None_not_Some in E2. split.
      * intros (Hn & Hfr & Hok & Hs & ->). split_and!; try done; [| | |lia].
        -- intros (g & Hg & Hgin)%list_elem_of_fmap. specialize (Hfr g Hgin). rewrite <-Hg, lookup_insert_eq in Hfr. done.
        -- intros g [->|Hg]; [done|]. specialize (Hfr g Hg). by apply lookup_insert_None in Hfr as [? _].
        -- apply Hchk. tauto.
      * intros ([Hn Hn'] & Hfr & [Hok Hok'] & Hs & ->). split_and!; try done; [|lia].
        intros g Hg. rewrite lookup_insert_ne; [by apply Hfr; right|]. intros E. apply Hn. rewrite E. by apply list_elem_of_fmap_2.
Qed.

(** The entries hold this text under a name, within a limit. *)
Definition entry_text (entries : list zip_File) (limit : Z) (name data : string) : Prop :=
  ∃ f reader, f ∈ entries ∧ zf_Name f = name ∧ zf_Open f = Some reader ∧
    data = st_Data (limited limit reader) ∧ len data = zf_UncompressedSize64 f.

Lemma validate_entries_in limits files total entries files' name f :
  validate_entries limits files total entries = Ok files' → files' !! name = Some f →
  files !! name = Some f ∨ f ∈ entries ∧ zf_Name f = name.
Proof.
  revert files total. induction entries as [|e entries IH]; intros files total; cbn [validate_entries]; [intros [= ->]; by left|].
  repeat (match goal with |- (if ?b then _ else _) = _ → _ => destruct b; [done|] end).
  intros Hv Hf. destruct (IH _ _ Hv Hf) as [[[<- <-]|[_ ?]]%lookup_insert_Some|[? ?]]; [right|by left|right]; set_solver.
Qed.

(** ** Opening an archive *)
Section Open.
Context (json_manifest : string → option Manifest) (sha256 : string → string)
        (zip_OpenReader : string → option (list zip_File)).
Context (sizes_uint64 : ∀ file entries, zip_OpenReader file = Some entries → Forall uint64_sizes entries).

Notation ParseManifest := (ParseManifest json_manifest).
Notation OpenArchive := (OpenArchive json_manifest sha256 zip_OpenReader).
Notation openArchive := (openArchive json_manifest sha256 zip_OpenReader).
Notation InspectArchive := (InspectArchive json_manifest sha256 zip_OpenReader).
Notation ReadSpecialJudge := (ReadSpecialJudge sha256).

(** What [validate] leaves in an artifact. *)
Record archive_valid (limits : ArchiveLimits) (entries : list zip_File) (artifact : Artifact) : Prop := {
  av_limits : ar_Limits artifact = limits;
  av_count : 0 < Z.of_nat (length entries) ≤ MaxFiles limits;
  av_entries : validate_entries limits ∅ 0 entries = Ok (ar_Files artifact);
  av_bytes : readBytes (ar_Files artifact) reserved_name (MaxManifestBytes limits) = Ok (ar_ManifestJSON artifact);
  av_manifest : ParseManifest (ar_ManifestJSON artifact) = Ok (ar_Manifest artifact);
  av_files : referenced_files (ar_Manifest artifact) = dom (ar_Files artifact);
  av_special : is_Some (m_SpecialJudge (ar_Manifest artifact)) → ∃ source, ReadSpecialJudge artifact = Ok source
}.

Lemma parse_manifest_ok wrap data m :
  parse_manifest json_manifest wrap data = Ok m ↔ ParseManifest data = Ok m.
Proof. unfold parse_manifest. destruct (Manifest.ParseManifest _ _); naive_solver. Qed.

Lemma validate_archive_ok limits entries expected artifact :
  validate_archive json_manifest sha256 limits entries expected = Ok artifact ↔
  archive_valid limits entries artifact ∧ (∀ m, expected = Some m → m = ar_Manifest artifact).
Proof.
  unfold validate_archive. rewrite bind_ok. split.
  - intros (u & Hc%guard_err_ok & H). rewrite bind_ok in H. destruct H as (files & Hf & H). rewrite bind_ok in H.
    destruct H as (bytes & Hb & H). rewrite bind_ok in H. destruct H as (m & Hm%parse_manifest_ok & H).
    rewrite bind_ok in H. destruct H as (u' & He%guard_err_ok & H). rewrite bind_ok in H.
    destruct H as (u2 & Hsz%guard_err_ok & H). rewrite bind_ok in H. destruct H as (u3 & Hsub%guard_err_ok & H).
    rewrite bind_ok in H. destruct H as (u4 & Hsj & H). injection H as <-.
    rewrite negb_true_iff, orb_false_iff, Z.eqb_neq, Z.ltb_ge in Hc. apply Nat.eqb_eq in Hsz.
    apply bool_decide_eq_true in Hsub. split.
    + split; cbn; try done; [lia| |].
      * apply leibniz_equiv, set_subseteq_size_equiv; [done|]. rewrite size_dom. lia.
      * intros [sj E]. rewrite E in Hsj. rewrite bind_ok in Hsj. destruct Hsj as (source & Hr & _). by exists source.
    + intros m' ->. by apply bool_decide_eq_true in He.
  - intros [[Hl Hc He Hb Hm Hf Hsj] Hexp]. exists tt. split.
    { apply guard_err_ok. rewrite negb_true_iff, orb_false_iff, Z.eqb_neq, Z.ltb_ge. lia. }
    rewrite He. cbn [mbind result_bind]. rewrite Hb. cbn [mbind result_bind].
    rewrite (proj2 (parse_manifest_ok _ _ _) Hm). cbn [mbind result_bind].
    assert (Heq : match expected with Some m => bool_decide (m = ar_Manifest artifact) | None => true end = true).
    { destruct expected as [m|]; [|done]. apply bool_decide_eq_true. auto. }
    rewrite Heq, Hf, size_dom, Nat.eqb_refl, bool_decide_true by done. cbn [guard_err mbind result_bind].
    destruct artifact as [am aj af al]. cbn in *. subst al.
    destruct (m_SpecialJudge am) as [sj|]; [|done]. destruct (Hsj ltac:(done)) as [source ->]. done.
Qed.

Lemma openArchive_ok file limits expected artifact :
  openArchive file limits expected = Ok artifact ↔
  ∃ entries, zip_OpenReader file = Some entries ∧ archive_valid limits entries artifact ∧
    (∀ m, expected = Some m → m = ar_Manifest artifact).
Proof.
  unfold BundleArchive.openArchive. rewrite bind_ok. setoid_rewrite from_option_ok. by setoid_rewrite validate_archive_ok.
Qed.

Lemma OpenArchive_ok file database limits artifact :
  ValidateArchiveLimits limits = true →
  OpenArchive file database limits = Ok artifact ↔
  len database ≤ MaxManifestBytes limits ∧ ParseManifest database = Ok (ar_Manifest artifact) ∧
  ∃ entries, zip_OpenReader file = Some entries ∧ archive_valid limits entries artifact.
Proof.
  intros Hl. unfold BundleArchive.OpenArchive. rewrite Hl. cbn [guard_err mbind result_bind]. rewrite bind_ok. split.
  - intros (u & Hd%guard_err_ok%Z.leb_le & H). rewrite bind_ok in H.
    destruct H as (m & Hm%parse_manifest_ok & (entries & He & Hv & Hexp)%openArchive_ok).
    rewrite <-(Hexp m eq_refl). eauto.
  - intros (Hd & Hm & entries & He & Hv). exists tt. split; [by apply guard_err_ok, Z.leb_le|]. rewrite bind_ok.
    exists (ar_Manifest artifact). split; [by apply parse_manifest_ok|]. apply openArchive_ok. exists entries.
    split_and!; try done. by intros m [= <-].
Qed.

Lemma archive_entry_text limits entries artifact name limit data :
  archive_valid limits entries artifact → readBytes (ar_Files artifact) name limit = Ok data → entry_text entries limit name data.
Proof.
  intros Hv (f & reader & Hf & Ho & _ & Hd & _ & Hl)%readBytes_ok.
  destruct (validate_entries_in _ _ _ _ _ _ _ (av_entries _ _ _ Hv) Hf) as [H|[Hin Hname]]; [by rewrite lookup_empty in H|].
  by exists f, reader.
Qed.

Lemma archive_files_lookup limits entries artifact name f :
  int64_limits limits → Forall uint64_sizes entries → archive_valid limits entries artifact →
  ar_Files artifact !! name = Some f ↔ f ∈ entries ∧ zf_Name f = name.
Proof.
  intros Hl Hs Hv. pose proof (av_entries _ _ _ Hv) as He. destruct Hl as (? & ? & ? & ? & ?) eqn:El. clear El.
  apply validate_entries_ok in He as (Hn & Hf & _ & _ & ->); try done; [|lia].
  rewrite add_files_lookup by done. rewrite lookup_empty. naive_solver.
Qed.

(** C34: An archive that the server opens is safe to decompress. Its entries are
    unencrypted regular files with clean relative paths and distinct names, exactly
    those the manifest refers to; each is at most [MaxCompressionRatio] times its
    compressed size; and whatever texts are read from it, under whatever limits,
    together they hold at most [MaxTotalBytes] bytes, although the sum the code
    keeps has 64 bits. *)
Theorem opened_archive_safe file database limits artifact :
  int64_limits limits → OpenArchive file database limits = Ok artifact →
  manifest_wf (ar_Manifest artifact) ∧ ParseManifest database = Ok (ar_Manifest artifact) ∧
  ∃ entries, zip_OpenReader file = Some entries ∧ Z.of_nat (length entries) ≤ MaxFiles limits ∧
    NoDup (zf_Name <$> entries) ∧ Forall (entry_ok limits) entries ∧
    (∀ name, name ∈ zf_Name <$> entries ↔ name ∈ referenced_files (ar_Manifest artifact)) ∧
    ∀ reads : list (string * string), NoDup reads.*1 →
      Forall (λ p, ∃ limit, readText (ar_Files artifact) p.1 limit = Ok p.2) reads →
      sumZ (λ p, len p.2) reads ≤ MaxTotalBytes limits.
Proof.
  intros Hl (Hd & Hm & entries & Hz & Hv)%OpenArchive_ok; [|by apply int64_limits_valid].
  pose proof (sizes_uint64 _ _ Hz) as Hs. pose proof (λ name f, archive_files_lookup _ _ _ name f Hl Hs Hv) as Hlook.
  pose proof (av_entries _ _ _ Hv) as He.
  apply validate_entries_ok in He as (Hn & _ & Hok & Htot & Hfiles); try done; [|unfold int64_limits in Hl; lia].
  assert (Hwf : manifest_wf (ar_Manifest artifact)).
  { unfold Manifest.ParseManifest in Hm. destruct (negb _); [done|]. destruct (json_manifest _); [|done].
    rewrite bind_ok in Hm. destruct Hm as ([] & Hval & [= <-]). by apply Validate_sound. }
  split_and!; try done. exists entries. split_and!; try done; [apply Hv| |].
  - intros name. rewrite (av_files _ _ _ Hv), elem_of_dom, list_elem_of_fmap. unfold is_Some. setoid_rewrite Hlook. naive_solver.
  - intros reads Hnd Hr.
    assert (∃ fs, NoDup fs ∧ (∀ f, f ∈ fs → f ∈ entries ∧ zf_Name f ∈ reads.*1) ∧
              sumZ (λ p, len p.2) reads = sumZ zf_UncompressedSize64 fs) as (fs & Hnf & Hin & ->).
    { induction reads as [|[name data] reads IH]; [by exists []; split_and!; [apply NoDup_nil_2|by intros f ?%not_elem_of_nil|]|].
      apply Forall_cons in Hr as [[limit Hr] Hrs]. apply NoDup_cons in Hnd as [Hname Hnd].
      destruct IH as (fs & Hnf & Hin & E); [done..|]. cbn in Hr.
      apply readText_ok in Hr as [(f & reader & Hf & _ & _ & _ & _ & Hlen)%readBytes_ok _].
      apply Hlook in Hf as [Hf Hfn]. exists (f :: fs). split_and!.
      - apply NoDup_cons. split; [|done]. intros Hff%Hin. destruct Hff as [_ Hff]. apply Hname. by rewrite <-Hfn.
      - intros g [->|Hg]%elem_of_cons; [split; [done|]|].
        + cbn. rewrite Hfn. apply list_elem_of_here.
        + destruct (Hin g Hg). split; [done|]. cbn. by apply list_elem_of_further.
      - cbn [sumZ fst snd]. rewrite E. lia. }
    etransitivity; [apply (sumZ_submseteq _ fs entries)|lia].
    + apply NoDup_submseteq; [done|]. intros f Hf. by apply Hin.
    + eapply Forall_impl; [exact Hs|]. intros f [? ?]. lia.
Qed.

(** ** Accepted uploads can be judged *)
Lemma inspect_cases_ok files limit cases :
  inspect_cases files limit cases = Ok tt ↔
  Forall (λ c, validateTextEntry files (case_Input c) limit = Ok tt ∧ validateTextEntry files (case_Output c) limit = Ok tt) cases.
Proof.
  induction cases as [|c cases IH]; cbn [inspect_cases]; [by split|].
  rewrite Forall_cons, <-IH, bind_ok. split.
  - intros ([] & H1 & H). rewrite bind_ok in H. by destruct H as ([] & H2 & H).
  - intros [[-> H2] H]. exists tt. split; [done|]. by rewrite H2.
Qed.

Lemma InspectArchive_ok file limits m json :
  int64_limits limits →
  InspectArchive file limits = Ok (m, json) ↔
  ∃ artifact entries, zip_OpenReader file = Some entries ∧ archive_valid limits entries artifact ∧
    ar_Manifest artifact = m ∧ ar_ManifestJSON artifact = json ∧
    (∀ c, c ∈ m_Cases m → ∃ texts, ReadCase artifact c = Ok texts) ∧
    (is_Some (m_SpecialJudge m) → ∃ source, ReadSpecialJudge artifact = Ok source).
Proof.
  intros Hl. unfold BundleArchive.InspectArchive. rewrite (int64_limits_valid _ Hl). cbn [guard_err mbind result_bind].
  destruct Hl as (_ & _ & Hcb & _). rewrite bind_ok. split.
  - intros (artifact & (entries & Hz & Hv & _)%openArchive_ok & H). rewrite bind_ok in H.
    destruct H as ([] & Hc%inspect_cases_ok & H). rewrite bind_ok in H. destruct H as ([] & _ & H). injection H as <- <-.
    exists artifact, entries. split_and!; try done; [|apply Hv]. intros c Hin. rewrite Forall_forall in Hc.
    destruct (Hc c Hin) as [H1 H2]. apply validateTextEntry_ok in H1 as [i H1]; [|lia]. apply validateTextEntry_ok in H2 as [o H2]; [|lia].
    exists (i, o). unfold ReadCase. rewrite (av_limits _ _ _ Hv), H1. cbn [mbind result_bind]. by rewrite H2.
  - intros (artifact & entries & Hz & Hv & <- & <- & Hc & Hsj). exists artifact. split.
    { apply openArchive_ok. by exists entries. }
    rewrite bind_ok. exists tt. split.
    { apply inspect_cases_ok, Forall_forall. intros c Hin. destruct (Hc c Hin) as [[i o] Hr]. unfold ReadCase in Hr.
      rewrite (av_limits _ _ _ Hv) in Hr. rewrite bind_ok in Hr. destruct Hr as (i' & Hi & Hr). rewrite bind_ok in Hr.
      destruct Hr as (o' & Ho & _). rewrite !validateTextEntry_ok by lia. eauto. }
    rewrite bind_ok. exists tt. split; [|done]. destruct (m_SpecialJudge _) as [sj|] eqn:E; [|done].
    destruct (Hsj ltac:(done)) as [source Hr]. unfold BundleArchive.ReadSpecialJudge in Hr. rewrite E, bind_ok in Hr.
    destruct Hr as (s & Hr & _). apply validateTextEntry_ok; [by vm_compute|eauto].
Qed.

(** An upload the server accepts can be judged. When [InspectArchive]
    accepts a file, opening it later against any stored text that parses to the
    manifest it returned succeeds, every case of the manifest can be read, its
    input and output valid UTF-8 within the size limit, and so can the source of
    its special judge, with the digest the manifest names. *)
Lemma inspected_archive_opens file limits m json database :
  int64_limits limits → InspectArchive file limits = Ok (m, json) →
  ParseManifest json = Ok m ∧ len json ≤ MaxManifestBytes limits ∧
  (ParseManifest database = Ok m → len database ≤ MaxManifestBytes limits →
   ∃ artifact, OpenArchive file database limits = Ok artifact ∧ ar_Manifest artifact = m ∧
     (∀ c, c ∈ m_Cases m → ∃ input output, ReadCase artifact c = Ok (input, output) ∧
        valid_string input = true ∧ valid_string output = true ∧
        len input ≤ MaxCaseBytes limits ∧ len output ≤ MaxCaseBytes limits) ∧
     (∀ sj, m_SpecialJudge m = Some sj → ∃ source, ReadSpecialJudge artifact = Ok source ∧ valid_string source = true ∧
        len source ≤ maxSpecialJudgeSourceBytes ∧ hex_encode (sha256 source) = sj_SourceSHA256 sj)).
Proof.
  intros Hl (artifact & entries & Hz & Hv & <- & <- & Hc & Hsj)%InspectArchive_ok; [|done].
  pose proof (av_bytes _ _ _ Hv) as Hb. apply readBytes_ok in Hb as (f & r & _ & _ & _ & _ & Hlen & _).
  split_and!; [apply Hv|done|]. intros Hp Hd. exists artifact. split_and!; [|done| |].
  - apply OpenArchive_ok; [by apply int64_limits_valid|]. split_and!; try done. by exists entries.
  - intros c Hin. destruct (Hc c Hin) as [[i o] Hr]. exists i, o. split; [done|]. unfold ReadCase in Hr.
    rewrite (av_limits _ _ _ Hv), bind_ok in Hr. destruct Hr as (i' & [Hi Hi']%readText_ok & Hr). rewrite bind_ok in Hr.
    destruct Hr as (o' & [Ho Ho']%readText_ok & [= <- <-]).
    apply readBytes_ok in Hi as (? & ? & _ & _ & _ & _ & ? & _). apply readBytes_ok in Ho as (? & ? & _ & _ & _ & _ & ? & _). done.
  - intros sj E. destruct Hsj as [source Hr]; [by rewrite E|]. exists source. split; [done|].
    unfold BundleArchive.ReadSpecialJudge in Hr. rewrite E, bind_ok in Hr. destruct Hr as (s & [Hs Hs']%readText_ok & Hr).
    rewrite bind_ok in Hr. destruct Hr as (u & Hg%guard_err_ok%bool_decide_eq_true & [= <-]).
    apply readBytes_ok in Hs as (? & ? & _ & _ & _ & _ & ? & _). done.
Qed.
End Open.

(** ** Writing and reading back *)
Section Pack.
Context (manifest_json : Manifest → string) (json_manifest : string → option Manifest) (sha256 : string → string)
        (zip_write : list (string * string) → string) (zip_OpenReader : string → option (list zip_File))
        (deflated : string → Z).

(** An entry as [zip.Reader] finds it after [writeDeterministicZIPEntry]. *)
Record written (e : string * string) (f : zip_File) : Prop := {
  wr_name : zf_Name f = e.1;
  wr_regular : zf_IsRegular f = true;
  wr_flags : Z.land (zf_Flags f) 1 = 0;
  wr_method : zf_Method f = zip_Deflate;
  wr_size : zf_UncompressedSize64 f = len e.2;
  wr_compressed : zf_CompressedSize64 f = deflated e.2;
  wr_open : zf_Open f = Some (mkStream e.2 true)
}.

(** [archive/zip] reads back what it wrote, when the sizes fit its headers, and
    [encoding/json] the manifest. *)
Context (sizes_uint64 : ∀ file entries, zip_OpenReader file = Some entries → Forall uint64_sizes entries)
        (zip_roundtrip : ∀ es, NoDup es.*1 → Forall (λ e, len e.2 < max_int64) es → ∃ fs, zip_OpenReader (zip_write es) = Some fs ∧ Forall2 written es fs)
        (json_roundtrip : ∀ m, Validate m = Ok tt → valid_string (manifest_json m) = true ∧ json_manifest (manifest_json m) = Some m).

(** The files fit the limits of the reader. *)
Record packable (limits : ArchiveLimits) (m : Manifest) (files : gmap string string) : Prop := {
  pk_limits : int64_limits limits ∧ MaxManifestBytes limits < max_int64 ∧ MaxCaseBytes limits < max_int64;
  pk_count : 1 + Z.of_nat (size files) ≤ MaxFiles limits;
  pk_manifest : len (manifest_json m) ≤ MaxManifestBytes limits;
  pk_files : map_Forall (λ _ data, valid_string data = true ∧ len data ≤ MaxCaseBytes limits) files;
  pk_special : ∀ sj data, m_SpecialJudge m = Some sj → files !! sj_Source sj = Some data →
    len data ≤ maxSpecialJudgeSourceBytes ∧ hex_encode (sha256 data) = sj_SourceSHA256 sj;
  pk_total : len (manifest_json m) + sumZ (λ p, len p.2) (map_to_list files) ≤ MaxTotalBytes limits;
  pk_ratio : len (manifest_json m) ≤ MaxCompressionRatio limits * deflated (manifest_json m) ∧
    map_Forall (λ _ data, len data ≤ MaxCompressionRatio limits * deflated data) files
}.

Lemma limited_all limit data : len data ≤ limit < max_int64 → limited limit (mkStream data true) = mkStream data true.
Proof.
  intros [Hd Hl]. pose proof (len_nonneg data). unfold limited. rewrite wrap_int64_id by (unfold min_int64, max_int64 in *; lia).
  destruct (limit + 1 <=? 0) eqn:E; bool_to_prop; [lia|]. cbn [st_Data].
  by destruct (len data <? limit + 1) eqn:E'; bool_to_prop; [|lia].
Qed.

Lemma written_sizes es fs : Forall2 written es fs → sumZ zf_UncompressedSize64 fs = sumZ (λ p, len p.2) es.
Proof. induction 1 as [|e f es fs H _ IH]; cbn [sumZ]; [done|]. rewrite (wr_size _ _ H). lia. Qed.

Lemma written_names es fs : Forall2 written es fs → zf_Name <$> fs = es.*1.
Proof. induction 1 as [|e f es fs H _ IH]; [done|]. cbn. by rewrite (wr_name _ _ H), IH. Qed.

Lemma written_elem es fs name data :
  Forall2 written es fs → (name, data) ∈ es → ∃ f, f ∈ fs ∧ written (name, data) f.
Proof.
  induction 1 as [|e f es fs H _ IH]; [by intros ?%not_elem_of_nil|].
  intros [<-|Hin]%elem_of_cons; [exists f; split; [apply list_elem_of_here|done]|].
  destruct (IH Hin) as (g & ? & ?). exists g. split; [by apply list_elem_of_further|done].
Qed.

Lemma written_elem_inv es fs f : Forall2 written es fs → f ∈ fs → ∃ e, e ∈ es ∧ written e f.
Proof.
  induction 1 as [|e g es fs H _ IH]; [by intros ?%not_elem_of_nil|].
  intros [->|Hin]%elem_of_cons; [exists e; split; [apply list_elem_of_here|done]|].
  destruct (IH Hin) as (e' & ? & ?). exists e'. split; [by apply list_elem_of_further|done].
Qed.

(** The entries [WriteDeterministicArchive] writes. *)
Lemma pack_entries m files archive json :
  WriteDeterministicArchive manifest_json zip_write m files = Ok (archive, json) →
  Validate m = Ok tt ∧ json = manifest_json m ∧ dom files = list_to_set (case_paths (m_Cases m)) ∪ list_to_set (special_paths m) ∧
  ∃ es, archive = zip_write ((reserved_name, json) :: es) ∧ es ≡ₚ map_to_list files.
Proof.
  unfold WriteDeterministicArchive. destruct (Validate m) as [[]|] eqn:Hv; [|done].
  destruct (negb _) eqn:Hs; [done|]. destruct (negb (bool_decide _)) eqn:Hd; [done|]. intros [= <- <-].
  apply negb_false_iff, Nat.eqb_eq in Hs. apply negb_false_iff, bool_decide_eq_true in Hd.
  set (referenced := list_to_set _ ∪ list_to_set _) in *.
  assert (Hdom : referenced = dom files) by (apply leibniz_equiv, set_subseteq_size_equiv; [done|rewrite size_dom; lia]).
  split_and!; try done. eexists. split; [done|]. rewrite merge_sort_Permutation, Hdom.
  apply NoDup_Permutation.
  - apply NoDup_fmap_2_strong; [|apply NoDup_elements]. by intros x y _ _ [= ->].
  - apply NoDup_map_to_list.
  - intros [name data]. rewrite list_elem_of_fmap, elem_of_map_to_list. split.
    + intros (x & [= -> ->] & [d Hx]%elem_of_elements%elem_of_dom). by rewrite Hx.
    + intros H. exists name. rewrite H. split; [done|]. apply elem_of_elements, elem_of_dom. by exists data.
Qed.

Lemma manifest_path_ok m name : manifest_wf m → name ∈ case_paths (m_Cases m) ∨ name ∈ special_paths m → path_ok name.
Proof.
  intros Hwf [H|H].
  - pose proof (mwf_paths _ Hwf) as [_ Hf]. rewrite Forall_forall in Hf. auto.
  - pose proof (mwf_checker _ Hwf) as Hc. unfold special_paths in H. destruct (m_SpecialJudge m) as [sj|]; [|by apply not_elem_of_nil in H].
    apply list_elem_of_singleton in H as ->. destruct (m_Checker m); try done. by apply sj_wf_path.
Qed.

Lemma written_entry_ok limits e f :
  validateArtifactPath e.1 = true → len e.2 ≤ (if decide (e.1 = reserved_name) then MaxManifestBytes limits else MaxCaseBytes limits) →
  len e.2 ≤ MaxCompressionRatio limits * deflated e.2 → written e f → entry_ok limits f.
Proof. intros Hp Hl Hr [Hn ? ? Hm Hs Hc _]. split; rewrite ?Hn, ?Hs, ?Hc; auto. Qed.

Lemma packed_valid limits m files archive json :
  WriteDeterministicArchive manifest_json zip_write m files = Ok (archive, json) → packable limits m files →
  ∃ entries artifact, zip_OpenReader archive = Some entries ∧
    archive_valid json_manifest sha256 limits entries artifact ∧ ar_Manifest artifact = m ∧ ar_ManifestJSON artifact = json ∧
    ∀ name data limit, files !! name = Some data → len data ≤ limit < max_int64 → readText (ar_Files artifact) name limit = Ok data.
Proof.
  intros (Hv & Ejson & Hdom & es & -> & Hes)%pack_entries [(Hl & Hmj & Hcb) Hcount Hman Hfiles Hsp Htot [Hrj Hrf]]. rewrite <-Ejson in Hman, Htot, Hrj.
  pose proof (Validate_sound _ Hv) as Hwf. destruct (json_roundtrip m Hv) as [Hjv Hjm]. rewrite <-Ejson in Hjv, Hjm.
  assert (Hin : ∀ name data, (name, data) ∈ es ↔ files !! name = Some data) by (intros; rewrite Hes; apply elem_of_map_to_list).
  assert (Hpath : ∀ name data, (name, data) ∈ es → path_ok name).
  { intros name data H%Hin. apply (manifest_path_ok m); [done|]. assert (name ∈ dom files) as Hd by (apply elem_of_dom; by exists data).
    rewrite Hdom, elem_of_union, !elem_of_list_to_set in Hd. done. }
  assert (Hnd : NoDup ((reserved_name, json) :: es).*1).
  { rewrite fmap_cons. apply NoDup_cons. split.
    - intros ([name data] & E & H)%list_elem_of_fmap. cbn in E. subst name. by apply (Hpath _ _ H).
    - rewrite Hes. apply NoDup_fst_map_to_list. }
  assert (Hfit : Forall (λ e, len e.2 < max_int64) ((reserved_name, json) :: es)).
  { apply Forall_cons_2; [cbn; lia|]. apply Forall_forall. intros [name data] H%Hin. pose proof (proj2 (Hfiles _ _ H)). cbn. lia. }
  destruct (zip_roundtrip _ Hnd Hfit) as (fs & Hz & Hw). pose proof (sizes_uint64 _ _ Hz) as Hs.
  assert (Hentries : Forall (entry_ok limits) fs).
  { apply Forall_forall. intros f Hf. destruct (written_elem_inv _ _ _ Hw Hf) as ([name data] & [[= -> ->]|H]%elem_of_cons & Hwr).
    - by apply (written_entry_ok limits (reserved_name, json)).
    - destruct (proj1 (path_ok_iff _) (Hpath _ _ H)) as [Hp Hr]. apply Hin in H. apply (written_entry_ok limits (name, data)); cbn; try done.
      + rewrite decide_False by done. by apply (Hfiles _ _ H).
      + by apply (Hrf _ _ H). }
  assert (Hok : validate_entries limits ∅ 0 fs = Ok (add_files ∅ fs)).
  { unfold int64_limits in Hl. apply validate_entries_ok; try done; [lia|]. split_and!; try done; [by rewrite (written_names _ _ Hw)|].
    rewrite (written_sizes _ _ Hw). cbn [sumZ fst snd]. rewrite (sumZ_perm _ _ _ Hes). lia. }
  assert (Hlook : ∀ name f, add_files ∅ fs !! name = Some f ↔ f ∈ fs ∧ zf_Name f = name).
  { intros. rewrite add_files_lookup, lookup_empty by (rewrite ?(written_names _ _ Hw); done). naive_solver. }
  assert (Hread : ∀ name data limit, (name, data) ∈ (reserved_name, json) :: es → len data ≤ limit < max_int64 →
            readBytes (add_files ∅ fs) name limit = Ok data).
  { intros name data limit He Hlim. destruct (written_elem _ _ _ _ Hw He) as (f & Hf & Hwr). apply readBytes_ok.
    exists f, (mkStream data true). rewrite (limited_all _ _ Hlim). rewrite Hlook, (wr_size _ _ Hwr), (wr_name _ _ Hwr), (wr_open _ _ Hwr). naive_solver lia. }
  exists fs, (mkArtifact m json (add_files ∅ fs) limits). split_and!; try done.
  - split; cbn; try done.
    + apply Forall2_length in Hw. apply Permutation_length in Hes. cbn in Hw. rewrite length_map_to_list in Hes. lia.
    + apply Hread; [apply list_elem_of_here|]. split; [done|lia].
    + unfold ParseManifest. rewrite Hjv, Hjm, Hv. done.
    + apply set_eq. intros name. rewrite elem_of_dom. unfold is_Some. setoid_rewrite Hlook.
      assert (Hn : (∃ f, f ∈ fs ∧ zf_Name f = name) ↔ name ∈ ((reserved_name, json) :: es).*1).
      { rewrite <-(written_names _ _ Hw), list_elem_of_fmap. naive_solver. }
      rewrite Hn, fmap_cons, elem_of_cons, list_elem_of_fmap.
      assert (Hd : (∃ y, name = y.1 ∧ y ∈ es) ↔ name ∈ dom files).
      { rewrite elem_of_dom. split; [intros ([? d] & -> & H%Hin); by exists d|intros [d H%Hin]; by exists (name, d)]. }
      cbn [fst]. rewrite Hd, Hdom. unfold referenced_files. rewrite !elem_of_union, elem_of_singleton. tauto.
    + intros [sj E]. unfold BundleArchive.ReadSpecialJudge. cbn [ar_Manifest ar_Files]. rewrite E.
      assert (sj_Source sj ∈ dom files) as [data Hd]%elem_of_dom.
      { rewrite Hdom, elem_of_union, !elem_of_list_to_set. right. unfold special_paths. rewrite E. apply list_elem_of_here. }
      destruct (Hsp _ _ E Hd) as [Hd1 Hd2]. exists data. rewrite (proj2 (readText_ok _ _ _ data)).
      * cbn [mbind result_bind]. by rewrite Hd2, bool_decide_true.
      * split; [|by apply (Hfiles _ _ Hd)]. apply Hread; [by apply list_elem_of_further, Hin|]. split; [done|by vm_compute].
  - intros name data limit Hd Hlim. apply readText_ok. split; [|by apply (Hfiles _ _ Hd)].
    apply Hread; [by apply list_elem_of_further, Hin|done].
Qed.

(** C38: Packing and opening are inverse. A manifest and its files that
    [WriteDeterministicArchive] packs, within the limits of the reader, are
    accepted by [InspectArchive] with the very manifest and the canonical text that
    packing returned; opened against that text, every case and the special judge
    read back as the files that went in. *)
Theorem packed_archive_opens limits m files archive json :
  WriteDeterministicArchive manifest_json zip_write m files = Ok (archive, json) → packable limits m files →
  InspectArchive json_manifest sha256 zip_OpenReader archive limits = Ok (m, json) ∧
  ∃ artifact, OpenArchive json_manifest sha256 zip_OpenReader archive json limits = Ok artifact ∧ ar_Manifest artifact = m ∧
    (∀ c, c ∈ m_Cases m → ∃ input output, files !! case_Input c = Some input ∧ files !! case_Output c = Some output ∧
       ReadCase artifact c = Ok (input, output)) ∧
    (∀ sj, m_SpecialJudge m = Some sj → ∃ source, files !! sj_Source sj = Some source ∧ ReadSpecialJudge sha256 artifact = Ok source).
Proof.
  intros Hpack Hp. destruct (packed_valid _ _ _ _ _ Hpack Hp) as (entries & artifact & Hz & Hv & <- & <- & Hread).
  apply pack_entries in Hpack as (_ & _ & Hdom & _). destruct Hp as [(Hl & Hmj & Hcb) _ Hman Hfiles Hsp _ _].
  assert (Hcase : ∀ c, c ∈ m_Cases (ar_Manifest artifact) → ∃ input output, files !! case_Input c = Some input ∧
            files !! case_Output c = Some output ∧ ReadCase artifact c = Ok (input, output)).
  { intros c Hc. assert (∀ name, name ∈ [case_Input c; case_Output c] → is_Some (files !! name)) as Hin.
    { intros name Hn. apply elem_of_dom. rewrite Hdom, elem_of_union, !elem_of_list_to_set. left.
      apply list_elem_of_In, in_concat. exists [case_Input c; case_Output c]. rewrite <-!list_elem_of_In. split; [|done].
      apply list_elem_of_fmap. by exists c. }
    destruct (Hin (case_Input c) ltac:(left)) as [i Hi]. destruct (Hin (case_Output c) ltac:(right; left)) as [o Ho].
    exists i, o. split_and!; try done. unfold ReadCase. rewrite (av_limits _ _ _ _ _ Hv).
    rewrite (Hread _ _ _ Hi), (Hread _ _ _ Ho); [done|..]; (split; [by eapply Hfiles|done]). }
  split.
  - apply InspectArchive_ok; [done|]. exists artifact, entries. split_and!; try done; [|apply Hv].
    intros c Hc. destruct (Hcase c Hc) as (i & o & _ & _ & ->). eauto.
  - exists artifact. split_and!; [|done|done|].
    + apply OpenArchive_ok; [by apply int64_limits_valid|]. pose proof (av_bytes _ _ _ _ _ Hv) as Hb.
      apply readBytes_ok in Hb as (? & ? & _ & _ & _ & _ & ? & _). split_and!; [done|apply Hv|by exists entries].
    + intros sj E. destruct (av_special _ _ _ _ _ Hv) as [source Hr]; [by rewrite E|]. exists source. split; [|done].
      unfold BundleArchive.ReadSpecialJudge in Hr. rewrite E in Hr.
      assert (sj_Source sj ∈ dom files) as [data Hd]%elem_of_dom.
      { rewrite Hdom, elem_of_union, !elem_of_list_to_set. right. unfold special_paths. rewrite E. apply list_elem_of_here. }
      destruct (Hsp _ _ E Hd) as [Hd1 _]. rewrite (Hread _ _ _ Hd) in Hr by (split; [done|by vm_compute]).
      rewrite bind_ok in Hr. destruct Hr as (s & [= <-] & Hr). rewrite bind_ok in Hr. by destruct Hr as (u & _ & [= <-]).
Qed.
End Pack.
