(* ===== verification/BundleCache.v ===== *)
(** * The cache of bundle files

    [internal/bundle/cache.go] and [provider.go]: a directory of verified bundle
    files, shared by the workers. Calls of [Resolve] interleave between their
    critical sections; a call is a phase per statement that touches shared state
    (the directory, the maps under the mutex, a closed flight). *)
From stdpp Require Import prelude gmap strings.
From S2P Require Import Prelude.
From S2P Require Import GoText.
From S2P Require Import Encodings.
From S2P Require Import Manifest.
From S2P Require Import BundleArchive.

Open Scope Z_scope.

Record Metadata : Type := mkMetadata {
  md_ObjectKey : string;
  md_SHA256 : string;
  md_SizeBytes : Z
}.

(** [cacheEntry]; a path is a name in the directory of the cache. *)
Record cacheEntry : Type := mkCacheEntry {
  ce_Path : string;
  ce_Size : Z;
  ce_LastUsed : Z
}.

(** [bundle.IsInvalid] separates the errors of [Resolve]. *)
Inductive cache_error : Type :=
| CacheInvalid
| CacheFailed
| CacheContext.

Definition IsInvalid (e : cache_error) : bool := match e with CacheInvalid => true | _ => false end.

#[export] Instance cache_error_eq_dec : EqDecision cache_error.
Proof. solve_decision. Defined.

(** What [os.Lstat] finds. *)
Inductive cache_node : Type :=
| RegularFile (content : string)
| Directory
| OtherNode.

Notation cache_files := (gmap string cache_node).
Notation cache_entries := (gmap string cacheEntry).

Definition temporary_prefix : string := ".bundle-download-".
Definition cache_target (sha : string) : string := sha +:+ ".zip".

Definition has_suffix (p s : string) : bool :=
  (String.length p <=? String.length s)%nat && bool_decide (sdrop (String.length s - String.length p) s = p).

(** A lower-case SHA-256 in hexadecimal. *)
Definition lower_digest (s : string) : bool :=
  match hex_decode s with Some d => (len d =? 32) && bool_decide (to_lower s = s) | None => false end.

Definition isKnownCacheName (name : string) : bool :=
  if has_prefix temporary_prefix name then true
  else if negb (len name =? 68) || negb (has_suffix ".zip" name) then false
  else lower_digest (stake 64 name).

Record Cache : Type := mkCache {
  ch_MaxBytes : Z;
  ch_MaxObjectBytes : Z;
  ch_TTL : Z
}.

Definition is_directory (node : cache_node) : bool := match node with Directory => true | _ => false end.

(** [cleanupRestartOrphans]: a directory under a known name is an error. *)
Definition cleanupRestartOrphans (files : cache_files) : option cache_files :=
  if existsb (λ p, isKnownCacheName p.1 && is_directory p.2) (map_to_list files) then None
  else Some (filter (λ p : string * cache_node, isKnownCacheName p.1 = false) files).

(** [NewCache], in a directory that could be created and protected. *)
Definition NewCache (directory : string) (maxBytes maxObjectBytes ttl : Z) (files : cache_files) :
    option (Cache * cache_files) :=
  if blank directory || (maxBytes <=? 0) || (maxObjectBytes <=? 0) || (ttl <=? 0) then None
  else files ← cleanupRestartOrphans files; Some (mkCache maxBytes maxObjectBytes ttl, files).

Definition validateMetadata (cache : Cache) (metadata : Metadata) : bool :=
  negb (blank (md_ObjectKey metadata) || (512 <? len (md_ObjectKey metadata)) ||
        negb (string_forallb (λ a, negb (byte_of a =? 0)) (md_ObjectKey metadata)) ||
        negb (valid_string (md_ObjectKey metadata)) ||
        (md_SizeBytes metadata <=? 0) || (ch_MaxObjectBytes cache <? md_SizeBytes metadata) ||
        (ch_MaxBytes cache <? md_SizeBytes metadata)) &&
  match hex_decode (md_SHA256 metadata) with Some checksum => len checksum =? 32 | None => false end.

(** [strings.ToLower] of a hexadecimal digest. *)
Definition lower_metadata (metadata : Metadata) : Metadata :=
  mkMetadata (md_ObjectKey metadata) (to_lower (md_SHA256 metadata)) (md_SizeBytes metadata).

(** ** The maps under the mutex *)
Record cache_state : Type := mkCacheState {
  cs_Files : cache_files;
  cs_Entries : cache_entries;
  cs_Flights : gmap string nat
}.

(** [pruneExpiredLocked] *)
Definition expired_entry (cache : Cache) (now : Z) (e : cacheEntry) : bool := ch_TTL cache <=? now - ce_LastUsed e.

Definition remove_paths (paths : list string) (files : cache_files) : cache_files :=
  foldr delete files paths.

Definition pruneExpiredLocked (cache : Cache) (now : Z) (s : cache_state) : cache_state :=
  let expired := filter (λ p : string * cacheEntry, expired_entry cache now p.2 = true) (cs_Entries s) in
  mkCacheState (remove_paths ((λ p, ce_Path p.2) <$> map_to_list expired) (cs_Files s))
    (filter (λ p : string * cacheEntry, expired_entry cache now p.2 = false) (cs_Entries s)) (cs_Flights s).

(** The [int64] sum of [totalBytesLocked]. *)
Definition totalBytesLocked (entries : cache_entries) : Z := wrap_int64 (map_sumZ ce_Size entries).

Section Evict.
(** The order in which the runtime iterates over a map. *)
Context (iteration : cache_entries → list (string * cacheEntry)).

(** The inner loop of [evictLRULocked]. *)
Definition older (protectedChecksum : string) (oldest : option (string * cacheEntry)) (p : string * cacheEntry) :
    option (string * cacheEntry) :=
  if bool_decide (p.1 = protectedChecksum) then oldest
  else match oldest with
       | None => Some p
       | Some o => if ce_LastUsed p.2 <? ce_LastUsed o.2 then Some p else oldest
       end.

Fixpoint evict_loop (fuel : nat) (maxBytes : Z) (protectedChecksum : string) (s : cache_state) : cache_state :=
  match fuel with
  | O => s
  | S fuel =>
      if maxBytes <? totalBytesLocked (cs_Entries s) then
        match foldl (older protectedChecksum) None (iteration (cs_Entries s)) with
        | None => s
        | Some (checksum, e) =>
            evict_loop fuel maxBytes protectedChecksum
              (mkCacheState (delete (ce_Path e) (cs_Files s)) (delete checksum (cs_Entries s)) (cs_Flights s))
        end
      else s
  end.

Definition evictLRULocked (cache : Cache) (protectedChecksum : string) (s : cache_state) : cache_state :=
  evict_loop (size (cs_Entries s)) (ch_MaxBytes cache) protectedChecksum s.

(** [Cache.record] *)
Definition cache_record (cache : Cache) (now : Z) (checksum path : string) (bytes : Z) (s : cache_state) : cache_state :=
  evictLRULocked cache checksum
    (mkCacheState (cs_Files s) (<[checksum := mkCacheEntry path bytes now]> (cs_Entries s)) (cs_Flights s)).
End Evict.

(** ** [Resolve] *)
Section Resolve.
Context (sha256 : string → string).

Definition verifyCachedFile (files : cache_files) (path : string) (metadata : Metadata) : bool :=
  match files !! path with
  | Some (RegularFile content) =>
      (len content =? md_SizeBytes metadata) && bool_decide (hex_encode (sha256 content) = md_SHA256 metadata)
  | _ => false
  end.

(** What [ObjectStore.Open] returns. *)
Inductive opened : Type :=
| OpenFailed (e : cache_error)
| Opened (body : option stream) (size : Z).

(** The checks of [resolveOne] on an opened object, up to its body. *)
Definition opened_body (metadata : Metadata) (o : opened) : result cache_error stream :=
  match o with
  | OpenFailed e => Err e
  | Opened None _ => Err CacheFailed
  | Opened (Some body) size =>
      if (0 <=? size) && negb (size =? md_SizeBytes metadata) then Err CacheInvalid else Ok body
  end.

(** The copy into the temporary file, hashed on the way. *)
Definition download (metadata : Metadata) (body : stream) : result cache_error string :=
  let s := limited (md_SizeBytes metadata) body in
  _ ← guard_err (st_Ends s) CacheFailed;
  _ ← guard_err (len (st_Data s) =? md_SizeBytes metadata) CacheInvalid;
  _ ← guard_err (bool_decide (hex_encode (sha256 (st_Data s)) = md_SHA256 metadata)) CacheInvalid;
  mret (st_Data s).

Inductive resolve_phase : Type :=
| AtLookup
| AtWait (flight : nat)
| AtWaitRecord (path : string)
| AtVerify
| AtRemove
| AtOpen
| AtPublish (content : string)
| AtRecord
| AtFinish (outcome : result cache_error string)
| Resolved (outcome : result cache_error string).

(** The closed flights, by the call that made them. *)
Notation closed_flights := (gmap nat (result cache_error string)).

(** One statement of the call [id] of [Resolve]; [metadata] is lower-cased. File
    operations may fail, and a waiting call may be cancelled. *)
Inductive resolve_step (cache : Cache) (id : nat) (metadata : Metadata) (now : Z) (closed : closed_flights) :
    resolve_phase → cache_state → resolve_phase → cache_state → Prop :=
| resolve_lookup s s' : s' = pruneExpiredLocked cache now s → cs_Flights s' !! md_SHA256 metadata = None →
    resolve_step cache id metadata now closed AtLookup s AtVerify
      (mkCacheState (cs_Files s') (cs_Entries s') (<[md_SHA256 metadata := id]> (cs_Flights s')))
| resolve_join s s' flight : s' = pruneExpiredLocked cache now s → cs_Flights s' !! md_SHA256 metadata = Some flight →
    resolve_step cache id metadata now closed AtLookup s (AtWait flight) s'
| resolve_cancelled s flight : resolve_step cache id metadata now closed (AtWait flight) s (Resolved (Err CacheContext)) s
| resolve_shared_error s flight e : closed !! flight = Some (Err e) →
    resolve_step cache id metadata now closed (AtWait flight) s (Resolved (Err e)) s
| resolve_shared s flight path : closed !! flight = Some (Ok path) →
    resolve_step cache id metadata now closed (AtWait flight) s
      (if verifyCachedFile (cs_Files s) path metadata then AtWaitRecord path else Resolved (Err CacheInvalid)) s
| resolve_wait_record s iteration path : (∀ m, iteration m ≡ₚ map_to_list m) →
    resolve_step cache id metadata now closed (AtWaitRecord path) s (Resolved (Ok path))
      (cache_record iteration cache now (md_SHA256 metadata) path (md_SizeBytes metadata) s)
| resolve_verify s : resolve_step cache id metadata now closed AtVerify s
    (if verifyCachedFile (cs_Files s) (cache_target (md_SHA256 metadata)) metadata then AtRecord else AtRemove) s
| resolve_remove s : resolve_step cache id metadata now closed AtRemove s AtOpen
    (mkCacheState (delete (cache_target (md_SHA256 metadata)) (cs_Files s)) (cs_Entries s) (cs_Flights s))
| resolve_open s o : resolve_step cache id metadata now closed AtOpen s
    (match body ← opened_body metadata o; download metadata body with
     | Ok content => AtPublish content
     | Err e => AtFinish (Err e)
     end) s
| resolve_publish s content : resolve_step cache id metadata now closed (AtPublish content) s AtRecord
    (mkCacheState (<[cache_target (md_SHA256 metadata) := RegularFile content]> (cs_Files s)) (cs_Entries s) (cs_Flights s))
| resolve_failed p s : p = AtRemove ∨ p = AtOpen ∨ (∃ content, p = AtPublish content) →
    resolve_step cache id metadata now closed p s (AtFinish (Err CacheFailed)) s
| resolve_record s iteration : (∀ m, iteration m ≡ₚ map_to_list m) →
    resolve_step cache id metadata now closed AtRecord s (AtFinish (Ok (cache_target (md_SHA256 metadata))))
      (cache_record iteration cache now (md_SHA256 metadata) (cache_target (md_SHA256 metadata)) (md_SizeBytes metadata) s)
| resolve_finish s outcome : resolve_step cache id metadata now closed (AtFinish outcome) s (Resolved outcome)
    (mkCacheState (cs_Files s) (cs_Entries s) (delete (md_SHA256 metadata) (cs_Flights s))).

(** ** All calls over one cache *)
Record cache_system : Type := mkCacheSystem {
  cy_Now : Z;
  cy_State : cache_state;
  cy_Closed : closed_flights;
  cy_Calls : gmap nat (Metadata * resolve_phase)
}.

(** Finishing a flight publishes its outcome to those who wait for it. *)
Definition close_flight (id : nat) (p : resolve_phase) (closed : closed_flights) : closed_flights :=
  match p with AtFinish outcome => <[id := outcome]> closed | _ => closed end.

Inductive cache_step (cache : Cache) (y : cache_system) : cache_system → Prop :=
| cache_tick now : cy_Now y ≤ now → cache_step cache y (mkCacheSystem now (cy_State y) (cy_Closed y) (cy_Calls y))
| cache_call id metadata : cy_Calls y !! id = None →
    cache_step cache y (mkCacheSystem (cy_Now y) (cy_State y) (cy_Closed y)
      (<[id := if validateMetadata cache metadata then (lower_metadata metadata, AtLookup)
               else (metadata, Resolved (Err CacheInvalid))]> (cy_Calls y)))
| cache_resolve id metadata p p' s' : cy_Calls y !! id = Some (metadata, p) →
    resolve_step cache id metadata (cy_Now y) (cy_Closed y) p (cy_State y) p' s' →
    cache_step cache y (mkCacheSystem (cy_Now y) s' (close_flight id p (cy_Closed y))
      (<[id := (metadata, p')]> (cy_Calls y))).

(** ** The provider *)
Context (json_manifest : string → option Manifest) (zip_OpenReader : string → option (list zip_File)).

(** [Provider.OpenMetadata] once [Resolve] has returned a path. *)
Definition open_resolved (limits : ArchiveLimits) (files : cache_files) (path manifestJSON : string) :
    result cache_error Artifact :=
  match files !! path with
  | Some (RegularFile content) =>
      match OpenArchive json_manifest sha256 zip_OpenReader content manifestJSON limits with
      | Ok artifact => Ok artifact
      | Err _ => Err CacheInvalid
      end
  | _ => Err CacheInvalid
  end.
End Resolve.
