(* ===== verification/CacheSafety.v ===== *)
(** * What the bundle cache guarantees

    The invariant of [BundleCache] under all interleavings of [Resolve]: files
    under a digest hold that digest's bytes, the accounted bytes never exceed the
    capacity, a digest is downloaded by one call at a time and nobody waits for a
    flight that has no owner. *)
From stdpp Require Import prelude gmap strings.
From S2P Require Import Prelude.
From S2P Require Import GoText.
From S2P Require Import Encodings.
From S2P Require Import Manifest.
From S2P Require Import BundleArchive.
From S2P Require Import BundleCache.

Open Scope Z_scope.

(** ** Names *)
Lemma append_suffix_inj s t u : s +:+ u = t +:+ u → s = t.
Proof.
  intros H. assert (Hl : String.length s = String.length t).
  { apply (f_equal String.length) in H. rewrite !string_length_append in H. lia. }
  apply (f_equal (stake (String.length s))) in H. rewrite stake_append in H by done. by rewrite stake_append in H.
Qed.

Lemma cache_target_inj s t : cache_target s = cache_target t → s = t.
Proof. apply append_suffix_inj. Qed.

Lemma lower_digest_decoded s d : hex_decode s = Some d → len d = 32 → lower_digest (to_lower s) = true.
Proof.
  intros H Hl. rewrite <-(hex_encode_decode _ _ H). unfold lower_digest.
  by rewrite hex_decode_encode, Hl, to_lower_hex_encode, bool_decide_true.
Qed.

Lemma lower_digest_length s : lower_digest s = true → String.length s = 64%nat.
Proof.
  unfold lower_digest. destruct (hex_decode s) as [d|] eqn:H; [|done]. intros Hd. bool_to_prop.
  apply hex_decode_length in H. unfold len in *. lia.
Qed.

Lemma cache_target_known s : lower_digest s = true → isKnownCacheName (cache_target s) = true.
Proof.
  intros H. pose proof (lower_digest_length _ H) as Hl. unfold isKnownCacheName. destruct (has_prefix _ _); [done|].
  unfold cache_target, len. rewrite string_length_append, Hl. cbn [String.length Nat.add Z.of_nat].
  rewrite stake_append by done. unfold has_suffix. rewrite string_length_append, Hl. cbn [String.length Nat.add Nat.leb Nat.sub andb].
  rewrite (sdrop_append 64) by done. by rewrite bool_decide_true.
Qed.

Lemma validateMetadata_true cache metadata :
  validateMetadata cache metadata = true →
  0 < md_SizeBytes metadata ≤ ch_MaxBytes cache ∧ lower_digest (to_lower (md_SHA256 metadata)) = true.
Proof.
  unfold validateMetadata. rewrite andb_true_iff, negb_true_iff, !orb_false_iff, Z.leb_gt, !Z.ltb_ge.
  destruct (hex_decode _) as [d|] eqn:H; [|by intros [_ ?]]. intros [(((_ & ?) & ?) & ?) Hd%Z.eqb_eq].
  split; [lia|by eapply lower_digest_decoded].
Qed.

(** ** Dropping entries *)

(** The entries and files that pruning and eviction leave: an entry goes with its
    file, and no file goes without its entry. *)
Record shrunk (s s' : cache_state) : Prop := {
  sh_flights : cs_Flights s' = cs_Flights s;
  sh_entries : ∀ k e, cs_Entries s' !! k = Some e → cs_Entries s !! k = Some e;
  sh_files : ∀ p node, cs_Files s' !! p = Some node → cs_Files s !! p = Some node;
  sh_gone : ∀ k e, cs_Entries s !! k = Some e → cs_Entries s' !! k = None → cs_Files s' !! ce_Path e = None;
  sh_kept : ∀ p node, cs_Files s !! p = Some node → cs_Files s' !! p = None →
    ∃ k e, cs_Entries s !! k = Some e ∧ cs_Entries s' !! k = None ∧ ce_Path e = p
}.

#[export] Instance shrunk_preorder : PreOrder shrunk.
Proof.
  split.
  - intros s. split; try done; intros; congruence.
  - intros s1 s2 s3 [F1 E1 P1 G1 K1] [F2 E2 P2 G2 K2]. split; [congruence|auto|auto| |].
    + intros k e H H'. destruct (cs_Entries s2 !! k) as [e2|] eqn:Hk.
      * pose proof (E1 _ _ Hk) as H2. assert (e2 = e) by congruence. subst. by apply (G2 k).
      * pose proof (G1 _ _ H Hk) as Hg. destruct (cs_Files s3 !! ce_Path e) eqn:H3; [|done]. apply P2 in H3. congruence.
    + intros p node H H'. destruct (cs_Files s2 !! p) as [n2|] eqn:Hp.
      * destruct (K2 _ _ Hp H') as (k & e & ? & ? & ?). exists k, e. auto.
      * destruct (K1 _ _ H Hp) as (k & e & Hk & Hn & Ep). exists k, e. split_and!; try done.
        destruct (cs_Entries s3 !! k) eqn:H3; [|done]. apply E2 in H3. congruence.
Qed.

Lemma remove_paths_lookup paths files p :
  remove_paths paths files !! p = if decide (p ∈ paths) then None else files !! p.
Proof.
  induction paths as [|q paths IH]; cbn [remove_paths foldr]; [by rewrite decide_False by apply not_elem_of_nil|].
  fold (remove_paths paths files). destruct (decide (q = p)) as [->|Hn].
  - rewrite lookup_delete_eq, decide_True; [done|]. by left.
  - rewrite lookup_delete_ne, IH by done. destruct (decide (p ∈ paths)); [rewrite decide_True; [done|by right]|].
    rewrite decide_False; [done|]. by intros [?|?]%elem_of_cons.
Qed.

Lemma prune_shrunk cache now s :
  (∀ k e k' e', cs_Entries s !! k = Some e → cs_Entries s !! k' = Some e' → ce_Path e = ce_Path e' → k = k') →
  shrunk s (pruneExpiredLocked cache now s).
Proof.
  intros Hinj. unfold pruneExpiredLocked. set (expired := filter _ _).
  assert (Hexp : ∀ p, p ∈ (λ p, ce_Path p.2) <$> map_to_list expired ↔
            ∃ k e, cs_Entries s !! k = Some e ∧ expired_entry cache now e = true ∧ ce_Path e = p).
  { intros p. rewrite list_elem_of_fmap. split.
    - intros ([k e] & -> & Hk%elem_of_map_to_list). apply map_lookup_filter_Some in Hk as [? ?]. by exists k, e.
    - intros (k & e & ? & ? & <-). exists (k, e). split; [done|]. apply elem_of_map_to_list, map_lookup_filter_Some. done. }
  split; cbn; [done|by intros k e [? _]%map_lookup_filter_Some|..].
  - intros p node H. rewrite remove_paths_lookup in H. by destruct (decide _).
  - intros k e H Hn. rewrite remove_paths_lookup, decide_True; [done|]. apply Hexp. exists k, e. split_and!; try done.
    apply map_lookup_filter_None in Hn as [?|Hn]; [congruence|]. specialize (Hn e H). cbn in Hn. by destruct (expired_entry _ _ _).
  - intros p node H Hn. rewrite remove_paths_lookup in Hn. destruct (decide _) as [Hin|]; [|congruence].
    apply Hexp in Hin as (k & e & Hk & He & Hp). exists k, e. split_and!; try done. apply map_lookup_filter_None. right.
    intros e' He'. cbn. congruence.
Qed.

(** ** Eviction *)
Lemma foldl_older protected order best :
  match foldl (older protected) best order with
  | None => best = None ∧ ∀ q, q ∈ order → q.1 = protected
  | Some p => (best = Some p ∨ p ∈ order ∧ p.1 ≠ protected) ∧
      (∀ q, q ∈ order → q.1 ≠ protected → ce_LastUsed p.2 ≤ ce_LastUsed q.2) ∧
      (∀ b, best = Some b → ce_LastUsed p.2 ≤ ce_LastUsed b.2)
  end.
Proof.
  revert best. induction order as [|q order IH]; intros best; cbn [foldl].
  - destruct best as [b|]; [|by split; [|intros q ?%not_elem_of_nil]].
    split_and!; [by left|by intros q ?%not_elem_of_nil|by intros b' [= <-]].
  - specialize (IH (older protected best q)). destruct (foldl _ _ _) as [p|].
    + destruct IH as (H1 & H2 & H3). unfold older in *. destruct (bool_decide (q.1 = protected)) eqn:Hq; bool_to_prop.
      * split_and!; [destruct H1 as [?|[? ?]]; [by left|right; split; [by right|done]]| |done].
        intros r [->|Hr]%elem_of_cons ?; [done|by apply H2].
      * destruct best as [b|]; [destruct (ce_LastUsed q.2 <? ce_LastUsed b.2) eqn:Hlt; bool_to_prop|].
        -- pose proof (H3 q eq_refl). split_and!.
           ++ destruct H1 as [[= ->]|[? ?]]; right; (split; [|done]); [left|by right].
           ++ intros r [->|Hr]%elem_of_cons ?; [done|by apply H2].
           ++ intros b' [= <-]. lia.
        -- pose proof (H3 b eq_refl). split_and!.
           ++ destruct H1 as [?|[? ?]]; [by left|right; split; [by right|done]].
           ++ intros r [->|Hr]%elem_of_cons ?; [lia|by apply H2].
           ++ by intros b' [= <-].
        -- pose proof (H3 q eq_refl). split_and!; [|intros r [->|Hr]%elem_of_cons ?; [done|by apply H2]|done].
           destruct H1 as [[= ->]|[? ?]]; right; (split; [|done]); [left|by right].
    + destruct IH as (Hb & Hall). unfold older in Hb. destruct (bool_decide (q.1 = protected)) eqn:Hq; bool_to_prop.
      * split; [done|]. intros r [->|Hr]%elem_of_cons; [done|by apply Hall].
      * destruct best as [b|]; [destruct (_ <? _) in Hb|]; discriminate Hb.
Qed.

Section Eviction.
Context (iteration : cache_entries → list (string * cacheEntry)) (iteration_perm : ∀ m, iteration m ≡ₚ map_to_list m).

Lemma oldest_entry protected (entries : cache_entries) :
  match foldl (older protected) None (iteration entries) with
  | None => ∀ k e, entries !! k = Some e → k = protected
  | Some (k, e) => entries !! k = Some e ∧ k ≠ protected ∧
      ∀ k' e', entries !! k' = Some e' → k' ≠ protected → ce_LastUsed e ≤ ce_LastUsed e'
  end.
Proof.
  pose proof (foldl_older protected (iteration entries) None) as H.
  assert (Hin : ∀ k e, entries !! k = Some e → (k, e) ∈ iteration entries) by (intros; by rewrite iteration_perm, elem_of_map_to_list).
  destruct (foldl _ _ _) as [[k e]|].
  - destruct H as ([?|[Hk Hn]] & Hle & _); [done|]. rewrite iteration_perm, elem_of_map_to_list in Hk. split_and!; try done.
    intros k' e' Hk' Hn'. by apply (Hle (k', e')); [apply Hin|].
  - destruct H as [_ Hall]. intros k e Hk. apply (Hall (k, e)), Hin, Hk.
Qed.

Lemma drop_shrunk k e s :
  cs_Entries s !! k = Some e →
  shrunk s (mkCacheState (delete (ce_Path e) (cs_Files s)) (delete k (cs_Entries s)) (cs_Flights s)).
Proof.
  intros Hk. split; cbn; [done|by intros k' e' [_ ?]%lookup_delete_Some|by intros p node [_ ?]%lookup_delete_Some| |].
  - intros k' e' H [->|?]%lookup_delete_None; [|congruence]. assert (e' = e) by congruence. subst. apply lookup_delete_eq.
  - intros p node H [<-|?]%lookup_delete_None; [|congruence]. exists k, e. by rewrite lookup_delete_eq.
Qed.

Lemma evict_loop_spec fuel maxBytes protected s :
  let s' := evict_loop iteration fuel maxBytes protected s in
  shrunk s s' ∧ cs_Entries s' !! protected = cs_Entries s !! protected ∧
  ∀ k e k' e', cs_Entries s !! k = Some e → cs_Entries s' !! k = None → cs_Entries s' !! k' = Some e' → k' ≠ protected →
    ce_LastUsed e ≤ ce_LastUsed e'.
Proof.
  revert s. induction fuel as [|fuel IH]; intros s; cbn [evict_loop]; [split_and!; [done|done|congruence]|].
  destruct (maxBytes <? _); [|split_and!; [done|done|congruence]].
  pose proof (oldest_entry protected (cs_Entries s)) as Ho. destruct (foldl _ _ _) as [[k0 e0]|]; [|split_and!; [done|done|congruence]].
  destruct Ho as (Hk0 & Hn0 & Hle). set (s1 := mkCacheState _ _ _). destruct (IH s1) as (Hs & Hp & Hlru).
  pose proof (drop_shrunk k0 e0 s Hk0) as Hd. fold s1 in Hd. split_and!; [by transitivity s1| |].
  - rewrite Hp. unfold s1. cbn. by rewrite lookup_delete_ne.
  - intros k e k' e' Hk Hn Hk' Hprot. destruct (decide (k = k0)) as [->|Hne].
    + assert (e = e0) by congruence. subst. apply (Hle k'); [|done]. apply (sh_entries _ _ Hs) in Hk'. by apply (sh_entries _ _ Hd) in Hk'.
    + apply (Hlru k e k' e'); try done. cbn. by rewrite lookup_delete_ne.
Qed.

Lemma totalBytesLocked_id (entries : cache_entries) :
  0 ≤ map_sumZ ce_Size entries ≤ max_int64 → totalBytesLocked entries = map_sumZ ce_Size entries.
Proof. intros. apply wrap_int64_id. unfold min_int64. lia. Qed.

Lemma evict_loop_total fuel maxBytes protected s :
  (size (cs_Entries s) ≤ fuel)%nat → 0 ≤ maxBytes → map_sumZ ce_Size (cs_Entries s) ≤ max_int64 →
  (∀ k e, cs_Entries s !! k = Some e → 0 ≤ ce_Size e ≤ maxBytes) →
  map_sumZ ce_Size (cs_Entries (evict_loop iteration fuel maxBytes protected s)) ≤ maxBytes.
Proof.
  revert s. induction fuel as [|fuel IH]; intros s Hf Hm Hmax Hsz; cbn [evict_loop].
  - assert (cs_Entries s = ∅) as -> by (apply map_size_empty_inv; lia). by vm_compute.
  - pose proof (map_sumZ_nonneg ce_Size (cs_Entries s) (λ k e H, proj1 (Hsz k e H))) as Hpos.
    rewrite totalBytesLocked_id by lia. destruct (maxBytes <? _) eqn:Hlt; bool_to_prop; [|done].
    pose proof (oldest_entry protected (cs_Entries s)) as Ho. destruct (foldl _ _ _) as [[k e]|].
    + destruct Ho as (Hk & _ & _). pose proof (map_sumZ_delete ce_Size _ _ _ Hk) as Hsum. pose proof (Hsz k e Hk).
      apply IH; cbn; [|done|lia|by intros k' e' [_ ?]%lookup_delete_Some; eapply Hsz].
      rewrite map_size_delete, Hk. cbn. lia.
    + destruct (cs_Entries s !! protected) as [e|] eqn:Hp.
      * rewrite (map_sumZ_delete ce_Size _ _ _ Hp). assert (delete protected (cs_Entries s) = ∅) as ->.
        { apply map_empty. intros k. destruct (decide (k = protected)) as [->|Hn]; [apply lookup_delete_eq|].
          rewrite lookup_delete_ne by done. destruct (cs_Entries s !! k) eqn:Hk; [|done]. by apply Ho in Hk. }
        pose proof (Hsz _ _ Hp). change (map_sumZ ce_Size ∅) with 0. lia.
      * assert (cs_Entries s = ∅) as ->; [|by vm_compute]. apply map_empty. intros k.
        destruct (cs_Entries s !! k) eqn:Hk; [|done]. pose proof (Ho _ _ Hk). congruence.
Qed.

(** Recording a file: its entry is there, and the rest shrank to fit. *)
Lemma cache_record_spec cache now checksum path bytes s :
  let s0 := mkCacheState (cs_Files s) (<[checksum := mkCacheEntry path bytes now]> (cs_Entries s)) (cs_Flights s) in
  let s' := cache_record iteration cache now checksum path bytes s in
  shrunk s0 s' ∧ cs_Entries s' !! checksum = Some (mkCacheEntry path bytes now).
Proof.
  intros s0 s'. destruct (evict_loop_spec (size (cs_Entries s0)) (ch_MaxBytes cache) checksum s0) as (Hs & Hp & _).
  split; [exact Hs|]. unfold s', cache_record, evictLRULocked. fold s0. rewrite Hp. apply lookup_insert_eq.
Qed.
End Eviction.

(** ** The invariant *)
Definition running (p : resolve_phase) : bool :=
  match p with AtVerify | AtRemove | AtOpen | AtPublish _ | AtRecord | AtFinish _ => true | _ => false end.

Section Invariant.
Context (sha256 : string → string) (cache : Cache) (capacity_int64 : ch_MaxBytes cache < Z.shiftl 1 62).

Notation cache_step := (cache_step sha256 cache).

(** What a call may rely on in a phase. *)
Definition phase_ok (metadata : Metadata) (p : resolve_phase) : Prop :=
  match p with
  | AtPublish content => hex_encode (sha256 content) = md_SHA256 metadata
  | AtWaitRecord path => path = cache_target (md_SHA256 metadata)
  | AtFinish outcome | Resolved outcome => ∀ path, outcome = Ok path → path = cache_target (md_SHA256 metadata)
  | _ => True
  end.

Definition call_ok (metadata : Metadata) (p : resolve_phase) : Prop :=
  p = Resolved (Err CacheInvalid) ∨
  lower_digest (md_SHA256 metadata) = true ∧ 0 < md_SizeBytes metadata ≤ ch_MaxBytes cache ∧ phase_ok metadata p.

Record cache_ok (y : cache_system) : Prop := {
  co_files : ∀ sha node, lower_digest sha = true → cs_Files (cy_State y) !! cache_target sha = Some node →
    ∃ content, node = RegularFile content ∧ hex_encode (sha256 content) = sha;
  co_entries : ∀ k e, cs_Entries (cy_State y) !! k = Some e → ce_Path e = cache_target k ∧ 0 < ce_Size e ≤ ch_MaxBytes cache;
  co_total : map_sumZ ce_Size (cs_Entries (cy_State y)) ≤ ch_MaxBytes cache;
  co_calls : ∀ id metadata p, cy_Calls y !! id = Some (metadata, p) → call_ok metadata p;
  co_tracked : ∀ sha, lower_digest sha = true → is_Some (cs_Files (cy_State y) !! cache_target sha) →
    is_Some (cs_Entries (cy_State y) !! sha) ∨
    ∃ id metadata, cy_Calls y !! id = Some (metadata, AtRecord) ∧ md_SHA256 metadata = sha;
  co_flights : ∀ sha id, cs_Flights (cy_State y) !! sha = Some id ↔
    ∃ metadata p, cy_Calls y !! id = Some (metadata, p) ∧ running p = true ∧ md_SHA256 metadata = sha;
  co_closed : ∀ id outcome, cy_Closed y !! id = Some outcome →
    ∃ metadata, cy_Calls y !! id = Some (metadata, Resolved outcome);
  co_waiters : ∀ id metadata flight, cy_Calls y !! id = Some (metadata, AtWait flight) →
    cs_Flights (cy_State y) !! md_SHA256 metadata = Some flight ∨
    ∃ outcome, cy_Closed y !! flight = Some outcome ∧
      ∀ path, outcome = Ok path → path = cache_target (md_SHA256 metadata)
}.

(** A verified file is the one its digest names. *)
Lemma download_ok metadata body content :
  download sha256 metadata body = Ok content → hex_encode (sha256 content) = md_SHA256 metadata.
Proof.
  unfold download. rewrite bind_ok. intros (u & _ & H). rewrite bind_ok in H. destruct H as (u1 & _ & H). rewrite bind_ok in H.
  destruct H as (u2 & Hd%guard_err_ok & [= <-]). by apply bool_decide_eq_true in Hd.
Qed.

(** The shared maps after pruning, eviction or recording: what the invariant of a
    system needs of them. *)
Record maps_ok (tracked : string → Prop) (s : cache_state) : Prop := {
  mo_files : ∀ sha node, lower_digest sha = true → cs_Files s !! cache_target sha = Some node →
    ∃ content, node = RegularFile content ∧ hex_encode (sha256 content) = sha;
  mo_entries : ∀ k e, cs_Entries s !! k = Some e → ce_Path e = cache_target k ∧ 0 < ce_Size e ≤ ch_MaxBytes cache;
  mo_total : map_sumZ ce_Size (cs_Entries s) ≤ ch_MaxBytes cache;
  mo_tracked : ∀ sha, lower_digest sha = true → is_Some (cs_Files s !! cache_target sha) →
    is_Some (cs_Entries s !! sha) ∨ tracked sha
}.

Lemma shrunk_tracked tracked s s' :
  (∀ k e, cs_Entries s !! k = Some e → ce_Path e = cache_target k) →
  (∀ sha, lower_digest sha = true → is_Some (cs_Files s !! cache_target sha) → is_Some (cs_Entries s !! sha) ∨ tracked sha) →
  shrunk s s' →
  ∀ sha, lower_digest sha = true → is_Some (cs_Files s' !! cache_target sha) → is_Some (cs_Entries s' !! sha) ∨ tracked sha.
Proof.
  intros Hpath Ht Hs sha Hd [node Hn]. pose proof (sh_files _ _ Hs _ _ Hn) as Hn'.
  destruct (Ht sha Hd ltac:(by exists node)) as [[e He]|?]; [|by right]. left.
  destruct (cs_Entries s' !! sha) as [e'|] eqn:He'; [by exists e'|]. pose proof (sh_gone _ _ Hs _ _ He He') as Hg.
  rewrite (Hpath _ _ He) in Hg. congruence.
Qed.

Lemma prune_maps_ok tracked now s : maps_ok tracked s → maps_ok tracked (pruneExpiredLocked cache now s).
Proof.
  intros [Hf He Ht Hk]. assert (Hs : shrunk s (pruneExpiredLocked cache now s)).
  { apply prune_shrunk. intros k e k' e' [Hp _]%He [Hp' _]%He E. apply cache_target_inj. congruence. }
  split.
  - intros sha node Hd Hn. apply (Hf sha node Hd). by apply (sh_files _ _ Hs).
  - intros k e H. apply He. by apply (sh_entries _ _ Hs).
  - unfold pruneExpiredLocked. cbn. etransitivity; [|exact Ht].
    apply map_sumZ_subseteq; [apply map_filter_subseteq|]. intros k e H%He. lia.
  - apply (shrunk_tracked _ s); [intros k e H; by apply He|done|done].
Qed.

Lemma record_maps_ok iteration tracked tracked' now sha bytes s :
  (∀ m, iteration m ≡ₚ map_to_list m) → maps_ok tracked s → 0 < bytes ≤ ch_MaxBytes cache →
  (∀ x, tracked x → x = sha ∨ tracked' x) →
  maps_ok tracked' (cache_record iteration cache now sha (cache_target sha) bytes s).
Proof.
  intros Hperm [Hf He Ht Hk] Hb Htr. destruct (cache_record_spec iteration Hperm cache now sha (cache_target sha) bytes s) as [Hs Hsha].
  set (s0 := mkCacheState _ _ _) in Hs. set (s' := cache_record _ _ _ _ _ _ _) in *.
  assert (He0 : ∀ k e, cs_Entries s0 !! k = Some e → ce_Path e = cache_target k ∧ 0 < ce_Size e ≤ ch_MaxBytes cache).
  { unfold s0. cbn. intros k e [[<- <-]|[_ H]]%lookup_insert_Some; [done|by apply He]. }
  assert (Ht0 : map_sumZ ce_Size (cs_Entries s0) ≤ ch_MaxBytes cache + ch_MaxBytes cache).
  { unfold s0. cbn. destruct (cs_Entries s !! sha) as [e|] eqn:Hsh.
    - rewrite (map_sumZ_insert_old _ _ _ _ _ Hsh). destruct (He _ _ Hsh) as [_ ?]. cbn [ce_Size]. lia.
    - rewrite (map_sumZ_insert_new _ _ _ _ Hsh). cbn [ce_Size]. lia. }
  split.
  - intros x node Hd Hn. apply (Hf x node Hd). by apply (sh_files _ _ Hs) in Hn.
  - intros k e H. apply He0. by apply (sh_entries _ _ Hs).
  - apply (evict_loop_total iteration Hperm); [done|lia| |].
    + fold s0. etransitivity; [exact Ht0|]. unfold max_int64. change (Z.shiftl 1 62) with 4611686018427387904 in capacity_int64. lia.
    + intros k e H%He0. lia.
  - intros x Hd Hn. destruct (decide (x = sha)) as [->|Hne]; [left; by eexists|].
    assert (Hor : is_Some (cs_Entries s' !! x) ∨ tracked x).
    { apply (shrunk_tracked tracked s0 s'); [intros k e H; by apply He0| |done|done|done].
      intros y Hy Hny. destruct (Hk y Hy Hny) as [[e H]|?]; [|by right]. left. unfold s0. cbn.
      destruct (decide (y = sha)) as [->|]; [rewrite lookup_insert_eq|rewrite lookup_insert_ne by done; rewrite H]; by eexists. }
    destruct Hor as [?|Hx]; [by left|]. destruct (Htr x Hx) as [?|?]; [done|by right].
Qed.

(** ** Preservation *)
Definition recording (calls : gmap nat (Metadata * resolve_phase)) (sha : string) : Prop :=
  ∃ id metadata, calls !! id = Some (metadata, AtRecord) ∧ md_SHA256 metadata = sha.

Lemma cache_ok_maps y : cache_ok y → maps_ok (recording (cy_Calls y)) (cy_State y).
Proof. intros [? ? ? ? ? ? ? ?]. by split. Qed.

(** A step of one call: what is left to show is that the maps are fine, that the
    call may be in its new phase, and how the step moves its flight. *)
Lemma call_step_ok y id metadata p p' s' :
  cache_ok y → cy_Calls y !! id = Some (metadata, p) →
  maps_ok (recording (<[id := (metadata, p')]> (cy_Calls y))) s' → call_ok metadata p' →
  (∀ sha i, cs_Flights s' !! sha = Some i ↔
     if decide (i = id) then running p' = true ∧ sha = md_SHA256 metadata else cs_Flights (cy_State y) !! sha = Some i) →
  (running p = true → running p' = true ∨ ∃ outcome, p = AtFinish outcome) →
  (∀ outcome, p = AtFinish outcome → p' = Resolved outcome) →
  (∀ outcome, p ≠ Resolved outcome) →
  (∀ flight, p' = AtWait flight → cs_Flights s' !! md_SHA256 metadata = Some flight) →
  cache_ok (mkCacheSystem (cy_Now y) s' (close_flight id p (cy_Closed y)) (<[id := (metadata, p')]> (cy_Calls y))).
Proof.
  intros Hok Hid [Mf Me Mt Mk] Hcall Hfl Hrun Hfin Hnres Hwait.
  split; cbn [cy_State cy_Closed cy_Calls]; try done.
  - intros i md q [[<- [= <- <-]]|[_ H]]%lookup_insert_Some; [done|by eapply (co_calls _ Hok)].
  - intros sha i. rewrite Hfl. destruct (decide (i = id)) as [->|Hne].
    + setoid_rewrite lookup_insert_eq. naive_solver.
    + setoid_rewrite lookup_insert_ne; [|done]. apply (co_flights _ Hok).
  - intros i outcome H.
    assert (Hold : cy_Closed y !! i = Some outcome → ∃ md, <[id:=(metadata, p')]> (cy_Calls y) !! i = Some (md, Resolved outcome)).
    { intros [md Hmd]%(co_closed _ Hok). exists md. rewrite lookup_insert_ne; [done|]. intros ->.
      rewrite Hid in Hmd. injection Hmd as _ ->. by eapply Hnres. }
    destruct p as [| | | | | | | |o|]; cbn [close_flight] in H; auto.
    apply lookup_insert_Some in H as [[<- <-]|[_ H]]; [|auto]. exists metadata. by rewrite lookup_insert_eq, (Hfin o).
  - intros i md flight [[<- [= <- ->]]|[Hne H]]%lookup_insert_Some; [left; by apply Hwait|].
    destruct (co_waiters _ Hok _ _ _ H) as [Hf|(o & Ho & Hpath)].
    + destruct (decide (flight = id)) as [->|Hfn]; [|left; apply Hfl; by rewrite decide_False].
      apply (co_flights _ Hok) in Hf as (md' & q & Hq & Hr & Hsha). rewrite Hid in Hq. injection Hq as <- <-.
      destruct (Hrun Hr) as [Hr'|[o ->]]; [left; apply Hfl; by rewrite decide_True|]. right. exists o. split; [apply lookup_insert_eq|].
      destruct (co_calls _ Hok _ _ _ Hid) as [?|(_ & _ & Hp)]; [done|]. rewrite <-Hsha. exact Hp.
    + right. destruct p as [| | | | | | | |o'|]; cbn [close_flight]; [eauto..| |eauto].
      destruct (decide (flight = id)) as [->|Hfn]; [|exists o; by rewrite lookup_insert_ne].
      apply (co_closed _ Hok) in Ho as [md' Hmd]. rewrite Hid in Hmd. done.
Qed.

(** The calls that record, after a call has moved. *)
Lemma recording_move calls id metadata p p' sha :
  calls !! id = Some (metadata, p) → recording calls sha →
  (p = AtRecord ∧ sha = md_SHA256 metadata) ∨ recording (<[id := (metadata, p')]> calls) sha.
Proof.
  intros Hid (i & md & Hi & Hs). destruct (decide (i = id)) as [->|Hne].
  - rewrite Hid in Hi. injection Hi as <- ->. by left.
  - right. exists i, md. by rewrite lookup_insert_ne.
Qed.

Lemma maps_ok_weaken tracked tracked' s :
  maps_ok tracked s → (∀ x, tracked x → tracked' x) → maps_ok tracked' s.
Proof. intros [Hf He Ht Hk] Hw. split; try done. intros sha Hd Hn. destruct (Hk sha Hd Hn); auto. Qed.

(** Moving a flight that the call keeps, or never had. *)
Lemma same_flights y id metadata p p' :
  cache_ok y → cy_Calls y !! id = Some (metadata, p) → running p = running p' →
  ∀ sha i, cs_Flights (cy_State y) !! sha = Some i ↔
    if decide (i = id) then running p' = true ∧ sha = md_SHA256 metadata else cs_Flights (cy_State y) !! sha = Some i.
Proof.
  intros Hok Hid Hr sha i. destruct (decide (i = id)) as [->|]; [|done]. rewrite (co_flights _ Hok).
  setoid_rewrite Hid. rewrite <-Hr. naive_solver.
Qed.

Lemma verified_file s tracked metadata path :
  maps_ok tracked s → verifyCachedFile sha256 (cs_Files s) path metadata = true →
  ∃ content, cs_Files s !! path = Some (RegularFile content) ∧ len content = md_SizeBytes metadata ∧
    hex_encode (sha256 content) = md_SHA256 metadata.
Proof.
  intros _. unfold verifyCachedFile. destruct (_ !! path) as [[content| |]|]; try done. intros. bool_to_prop. by exists content.
Qed.

Lemma resolve_step_ok y id metadata p p' s' :
  cache_ok y → cy_Calls y !! id = Some (metadata, p) →
  resolve_step sha256 cache id metadata (cy_Now y) (cy_Closed y) p (cy_State y) p' s' →
  cache_ok (mkCacheSystem (cy_Now y) s' (close_flight id p (cy_Closed y)) (<[id := (metadata, p')]> (cy_Calls y))).
Proof.
  intros Hok Hid Hstep. pose proof (co_calls _ Hok _ _ _ Hid) as Hcall. pose proof (cache_ok_maps _ Hok) as Hm.
  pose proof (same_flights y id metadata p p' Hok Hid) as Hsame.
  assert (Hnres : ∀ outcome, p ≠ Resolved outcome) by (intros o ->; inversion Hstep; naive_solver).
  assert (Hc : lower_digest (md_SHA256 metadata) = true ∧ 0 < md_SizeBytes metadata ≤ ch_MaxBytes cache ∧ phase_ok metadata p).
  { destruct Hcall as [->|?]; [by destruct (Hnres (Err CacheInvalid))|done]. }
  destruct Hc as (Hd & Hb & Hp).
  assert (Hmove : ∀ sha, p ≠ AtRecord → recording (cy_Calls y) sha → recording (<[id := (metadata, p')]> (cy_Calls y)) sha).
  { intros sha Hn Hr. destruct (recording_move _ _ _ _ p' _ Hid Hr) as [[? _]|?]; done. }
  assert (Hkeep : p ≠ AtRecord → maps_ok (recording (<[id := (metadata, p')]> (cy_Calls y))) (cy_State y)).
  { intros Hn. eapply maps_ok_weaken; [exact Hm|]. intros x. by apply Hmove. }
  set (y' := mkCacheSystem _ _ _ _).
  assert (Hgoal : maps_ok (recording (<[id := (metadata, p')]> (cy_Calls y))) s' →
    phase_ok metadata p' →
    (∀ sha i, cs_Flights s' !! sha = Some i ↔
       if decide (i = id) then running p' = true ∧ sha = md_SHA256 metadata else cs_Flights (cy_State y) !! sha = Some i) →
    (running p = true → running p' = true ∨ ∃ outcome, p = AtFinish outcome) →
    (∀ outcome, p = AtFinish outcome → p' = Resolved outcome) →
    (∀ flight, p' = AtWait flight → cs_Flights s' !! md_SHA256 metadata = Some flight) → cache_ok y').
  { intros. apply (call_step_ok y id metadata p p' s'); try done. by right. }
  clear Hcall. destruct y as [now st closed calls]. cbn [cy_State cy_Now cy_Closed cy_Calls] in *.
  destruct Hstep as [s s1 Hs1 Hnone|s s1 flight Hs1 Hflight|s flight|s flight e Hcl|s flight path Hcl|s iteration path Hperm
    |s|s|s o|s content|p s Hp'|s iteration Hperm|s outcome].
  - assert (Hm1 : maps_ok (recording calls) s1) by (subst; by apply prune_maps_ok). destruct Hm1 as [? ? ? Hk].
    apply Hgoal; try done; [split; try done|].
    + intros sha Hsha Hn. destruct (Hk sha Hsha Hn); [by left|right; by apply Hmove].
    + intros sha i. cbn [cs_Flights]. subst s1. cbn [cs_Flights pruneExpiredLocked] in *. rewrite lookup_insert_Some.
      destruct (decide (i = id)) as [->|Hne].
      * split; [|by intros [_ ->]; left]. intros [[-> _]|[_ Hf]]; [done|].
        apply (co_flights _ Hok) in Hf as (md & q & Hq & Hr & _). cbn in Hq. rewrite Hid in Hq. injection Hq as <- <-. done.
      * split; [intros [[_ ?]|[_ ?]]; [congruence|done]|]. intros Hf. right. split; [|done]. intros <-. congruence.
  - assert (Hm1 : maps_ok (recording calls) s1) by (subst; by apply prune_maps_ok).
    apply Hgoal; try done; [eapply maps_ok_weaken; [exact Hm1|intros x; by apply Hmove]|subst s1; by apply Hsame|by intros ? [= <-]].
  - apply Hgoal; try done; [by apply Hkeep|by apply Hsame].
  - apply Hgoal; try done; [by apply Hkeep|by apply Hsame].
  - assert (Hpath : path = cache_target (md_SHA256 metadata)).
    { destruct (co_waiters _ Hok _ _ _ Hid) as [Hf|(o & Ho & Hpath)]; cbn in *.
      - apply (co_flights _ Hok) in Hf as (md & q & Hq & Hr & _). apply (co_closed _ Hok) in Hcl as [md' Hmd]. cbn in *.
        rewrite Hq in Hmd. by injection Hmd as _ ->.
      - rewrite Hcl in Ho. injection Ho as <-. by apply Hpath. }
    destruct (verifyCachedFile _ _ _ _); apply Hgoal; try done; try (by apply Hkeep); by apply Hsame.
  - cbn in Hp. subst path. destruct (cache_record_spec iteration Hperm cache now (md_SHA256 metadata) (cache_target (md_SHA256 metadata)) (md_SizeBytes metadata) s) as [Hs _].
    apply Hgoal; try done; [| |rewrite (sh_flights _ _ Hs); by apply Hsame]; [|by intros path [= <-]].
    apply (record_maps_ok iteration (recording calls)); try done. intros x Hx. right. by apply Hmove.
  - destruct (verifyCachedFile _ _ _ _); apply Hgoal; try done; try (by apply Hkeep); try (by apply Hsame); by left.
  - pose proof (Hkeep ltac:(done)) as [Mf Me Mt Mk].
    apply Hgoal; try done; [split; try done; cbn|by apply Hsame|by left].
    + intros sha node Hsha [_ Hn]%lookup_delete_Some. by apply Mf.
    + intros sha Hsha [node [_ Hn]%lookup_delete_Some]. apply Mk; [done|by exists node].
  - destruct (_ ≫= _) as [content|e] eqn:Hdl; apply Hgoal; try done; try (by apply Hkeep); try (by apply Hsame); try (by left).
    rewrite bind_ok in Hdl. destruct Hdl as (body & _ & Hdl). cbn. by eapply download_ok.
  - pose proof (Hkeep ltac:(done)) as [Mf Me Mt Mk]. cbn in Hp.
    apply Hgoal; try done; [split; try done; cbn|by apply Hsame|by left].
    + intros sha node Hsha [[E <-]|[_ Hn]]%lookup_insert_Some; [|by apply Mf]. apply cache_target_inj in E as <-. by exists content.
    + intros sha Hsha [node [[E <-]|[_ Hn]]%lookup_insert_Some].
      * apply cache_target_inj in E as <-. right. exists id, metadata. by rewrite lookup_insert_eq.
      * apply Mk; [done|by exists node].
  - destruct Hp' as [->|[->|[content ->]]]; apply Hgoal; try done; try (by apply Hkeep); try (by apply Hsame); by left.
  - destruct (cache_record_spec iteration Hperm cache now (md_SHA256 metadata) (cache_target (md_SHA256 metadata)) (md_SizeBytes metadata) s) as [Hs _].
    apply Hgoal; try done; [|by intros path [= <-]|rewrite (sh_flights _ _ Hs); by apply Hsame|by left].
    apply (record_maps_ok iteration (recording calls)); try done. intros x Hx.
    destruct (recording_move _ _ _ _ (AtFinish (Ok (cache_target (md_SHA256 metadata)))) _ Hid Hx) as [[_ ->]|?]; [by left|by right].
  - pose proof (Hkeep ltac:(done)) as [Mf Me Mt Mk].
    apply Hgoal; try done; [|by right; exists outcome|by intros ? [= <-]].
    intros sha i. cbn [cs_Flights]. rewrite lookup_delete_Some. destruct (decide (i = id)) as [->|Hne].
    + split; [|by intros [? _]]. intros [Hn Hf]. apply (co_flights _ Hok) in Hf as (md & q & Hq & _ & Hsha). cbn in Hq.
      rewrite Hid in Hq. injection Hq as <- <-. done.
    + split; [by intros [_ ?]|]. intros Hf. split; [|done]. intros <-. apply Hne.
      assert (cs_Flights s !! md_SHA256 metadata = Some id) as Hid'.
      { apply (co_flights _ Hok). by exists metadata, (AtFinish outcome). }
      cbn in *. congruence.
Qed.

Lemma cache_step_ok y y' : cache_ok y → cache_step y y' → cache_ok y'.
Proof.
  intros Hok [now _|id metadata Hnone|id metadata p p' s' Hid Hstep].
  - destruct Hok. by split.
  - set (md := if validateMetadata cache metadata then lower_metadata metadata else metadata).
    set (p := if validateMetadata cache metadata then AtLookup else Resolved (Err CacheInvalid)).
    replace (if validateMetadata cache metadata then _ else _) with (md, p) by (unfold md, p; by destruct (validateMetadata _ _)).
    assert (Hp : running p = false ∧ (∀ f, p ≠ AtWait f) ∧ p ≠ AtRecord ∧ call_ok md p).
    { unfold p, md. destruct (validateMetadata cache metadata) eqn:Hv; split_and!; try done; [|by left].
      apply validateMetadata_true in Hv as [? ?]. right. done. }
    destruct Hp as (Hr & Hw & Hrec & Hc). destruct Hok as [Of Oe Ot Oc Ok_ Ofl Ocl Ow].
    split; cbn [cy_State cy_Closed cy_Calls]; try done.
    + intros i m q [[<- [= <- <-]]|[_ H]]%lookup_insert_Some; [done|by eapply Oc].
    + intros sha Hsha Hn. destruct (Ok_ sha Hsha Hn) as [?|(i & m & Hi & Hs)]; [by left|right]. exists i, m.
      rewrite lookup_insert_ne; [done|congruence].
    + intros sha i. rewrite Ofl. destruct (decide (i = id)) as [->|Hne]; [|by setoid_rewrite lookup_insert_ne].
      setoid_rewrite lookup_insert_eq. rewrite Hnone. split; [by intros (? & ? & ? & _)|]. intros (m & q & [= <- <-] & Hq & _). congruence.
    + intros i o Ho. destruct (Ocl i o Ho) as [m Hm]. exists m. rewrite lookup_insert_ne; [done|congruence].
    + intros i m f [[<- [= <- E]]|[_ H]]%lookup_insert_Some; [by destruct (Hw f)|by eapply Ow].
  - by eapply resolve_step_ok.
Qed.
End Invariant.

(** ** What follows *)
Definition initial_cache (now : Z) (files : cache_files) : cache_system :=
  mkCacheSystem now (mkCacheState files ∅ ∅) ∅ ∅.

Section Reachable.
Context (sha256 : string → string).

Lemma initial_cache_ok directory maxBytes maxObjectBytes ttl files cache files' now :
  NewCache directory maxBytes maxObjectBytes ttl files = Some (cache, files') → cache_ok sha256 cache (initial_cache now files').
Proof.
  unfold NewCache, cleanupRestartOrphans. destruct (_ || _) eqn:Hg; [done|]. destruct (existsb _ _); [done|].
  intros [= <- <-]. bool_to_prop.
  assert (Hno : ∀ sha node, lower_digest sha = true →
            filter (λ p : string * cache_node, isKnownCacheName p.1 = false) files !! cache_target sha = Some node → False).
  { intros sha node Hd [_ Hk]%map_lookup_filter_Some. cbn in Hk. by rewrite cache_target_known in Hk. }
  split; cbn.
  - intros sha node Hd Hn. by destruct (Hno sha node Hd).
  - intros k e He. by rewrite lookup_empty in He.
  - change (map_sumZ ce_Size ∅) with 0. lia.
  - intros id md p He. by rewrite lookup_empty in He.
  - intros sha Hd [node Hn]. by destruct (Hno sha node Hd).
  - intros sha id. rewrite lookup_empty. split; [done|]. intros (md & p & He & _). by rewrite lookup_empty in He.
  - intros id o He. by rewrite lookup_empty in He.
  - intros id md f He. by rewrite lookup_empty in He.
Qed.

Lemma reachable_cache directory maxBytes maxObjectBytes ttl files cache files' now y :
  NewCache directory maxBytes maxObjectBytes ttl files = Some (cache, files') → ch_MaxBytes cache < Z.shiftl 1 62 →
  rtc (cache_step sha256 cache) (initial_cache now files') y → cache_ok sha256 cache y.
Proof.
  intros Hnew Hcap Hs. eapply rtc_preserves; [|by eapply initial_cache_ok|exact Hs]. intros a b. by apply cache_step_ok.
Qed.

(** What the provider opens under a path that a call returned. *)
Lemma opened_authentic json_manifest zip_OpenReader cache y id metadata path limits manifestJSON artifact :
  cache_ok sha256 cache y → cy_Calls y !! id = Some (metadata, Resolved (Ok path)) →
  open_resolved sha256 json_manifest zip_OpenReader limits (cs_Files (cy_State y)) path manifestJSON = Ok artifact →
  ∃ content, hex_encode (sha256 content) = md_SHA256 metadata ∧
    OpenArchive json_manifest sha256 zip_OpenReader content manifestJSON limits = Ok artifact.
Proof.
  intros Hok Hid. destruct (co_calls _ _ _ Hok _ _ _ Hid) as [?|(Hd & _ & Hp)]; [done|]. specialize (Hp path eq_refl). subst path.
  unfold open_resolved. destruct (_ !! cache_target _) as [node|] eqn:Hn; [|done].
  destruct (co_files _ _ _ Hok _ _ Hd Hn) as (content & -> & Hc). intros Ho. exists content. split; [done|].
  destruct (OpenArchive _ _ _ _ _ _) eqn:E in Ho; [by rewrite E; injection Ho as ->|done].
Qed.

(** C37: The cache hands out authentic bundles only. In every state that any
    interleaving of calls can reach, from a directory with whatever an earlier
    process left in it, a path that [Resolve] returned is the one of the digest it
    was asked for, and the file under it, as long as it is not evicted, holds bytes
    of that digest; so an archive that the provider opens was read from them. *)
Theorem resolved_bundle_authentic json_manifest zip_OpenReader directory maxBytes maxObjectBytes ttl files cache files' now y
    id metadata path :
  NewCache directory maxBytes maxObjectBytes ttl files = Some (cache, files') → ch_MaxBytes cache < Z.shiftl 1 62 →
  rtc (cache_step sha256 cache) (initial_cache now files') y →
  cy_Calls y !! id = Some (metadata, Resolved (Ok path)) →
  path = cache_target (md_SHA256 metadata) ∧
  (∀ node, cs_Files (cy_State y) !! path = Some node →
     ∃ content, node = RegularFile content ∧ hex_encode (sha256 content) = md_SHA256 metadata) ∧
  ∀ limits manifestJSON artifact,
    open_resolved sha256 json_manifest zip_OpenReader limits (cs_Files (cy_State y)) path manifestJSON = Ok artifact →
    ∃ content, hex_encode (sha256 content) = md_SHA256 metadata ∧
      OpenArchive json_manifest sha256 zip_OpenReader content manifestJSON limits = Ok artifact.
Proof.
  intros Hnew Hcap Hs Hid. pose proof (reachable_cache _ _ _ _ _ _ _ _ _ Hnew Hcap Hs) as Hok.
  destruct (co_calls _ _ _ Hok _ _ _ Hid) as [?|(Hd & _ & Hp)]; [done|]. specialize (Hp path eq_refl). subst path.
  pose proof (λ node, co_files _ _ _ Hok (md_SHA256 metadata) node) as Hf. split_and!; [done|by intros node Hn; apply Hf|].
  intros limits json artifact. by eapply opened_authentic.
Qed.

(** The cache stays within its capacity. In every reachable state the bytes
    it accounts for, summed without wrap-around, are at most [maxBytes], and every
    bundle file in the directory is accounted for, except one that a running call
    has just put in place and is about to record. *)
Lemma cache_within_capacity directory maxBytes maxObjectBytes ttl files cache files' now y :
  NewCache directory maxBytes maxObjectBytes ttl files = Some (cache, files') → ch_MaxBytes cache < Z.shiftl 1 62 →
  rtc (cache_step sha256 cache) (initial_cache now files') y →
  let entries := cs_Entries (cy_State y) in
  map_sumZ ce_Size entries ≤ ch_MaxBytes cache ∧ totalBytesLocked entries = map_sumZ ce_Size entries ∧
  (∀ k e, entries !! k = Some e → ce_Path e = cache_target k ∧ 0 < ce_Size e) ∧
  ∀ sha, lower_digest sha = true → is_Some (cs_Files (cy_State y) !! cache_target sha) →
    is_Some (entries !! sha) ∨ ∃ id metadata, cy_Calls y !! id = Some (metadata, AtRecord) ∧ md_SHA256 metadata = sha.
Proof.
  intros Hnew Hcap Hs entries. pose proof (reachable_cache _ _ _ _ _ _ _ _ _ Hnew Hcap Hs) as Hok.
  assert (He : ∀ k e, entries !! k = Some e → ce_Path e = cache_target k ∧ 0 < ce_Size e ≤ ch_MaxBytes cache) by apply (co_entries _ _ _ Hok).
  pose proof (co_total _ _ _ Hok) as Ht. fold entries in Ht. split_and!; [done| | |apply (co_tracked _ _ _ Hok)].
  - apply totalBytesLocked_id. change (Z.shiftl 1 62) with 4611686018427387904 in Hcap. unfold max_int64. split; [|lia].
    apply map_sumZ_nonneg. intros k e [_ ?]%He. lia.
  - intros k e H%He. naive_solver.
Qed.

(** Downloads are coalesced and nobody waits in vain. In every reachable
    state at most one call downloads a digest; and a call that waits for a flight
    waits for one that is still running on its digest, or can proceed, because the
    flight is closed. *)
Lemma cache_flights_coalesced directory maxBytes maxObjectBytes ttl files cache files' now y :
  NewCache directory maxBytes maxObjectBytes ttl files = Some (cache, files') → ch_MaxBytes cache < Z.shiftl 1 62 →
  rtc (cache_step sha256 cache) (initial_cache now files') y →
  (∀ i j mi mj p q, cy_Calls y !! i = Some (mi, p) → cy_Calls y !! j = Some (mj, q) → running p = true → running q = true →
     md_SHA256 mi = md_SHA256 mj → i = j) ∧
  (∀ i metadata flight, cy_Calls y !! i = Some (metadata, AtWait flight) →
     (∃ m p, cy_Calls y !! flight = Some (m, p) ∧ running p = true ∧ md_SHA256 m = md_SHA256 metadata) ∨
     ∃ outcome p, cy_Closed y !! flight = Some outcome ∧
       resolve_step sha256 cache i metadata (cy_Now y) (cy_Closed y) (AtWait flight) (cy_State y) p (cy_State y)).
Proof.
  intros Hnew Hcap Hs. pose proof (reachable_cache _ _ _ _ _ _ _ _ _ Hnew Hcap Hs) as Hok. split.
  - intros i j mi mj p q Hi Hj Hp Hq E.
    assert (cs_Flights (cy_State y) !! md_SHA256 mi = Some i) as H1 by (apply (co_flights _ _ _ Hok); eauto 6).
    assert (cs_Flights (cy_State y) !! md_SHA256 mi = Some j) as H2 by (apply (co_flights _ _ _ Hok); rewrite E; eauto 6).
    congruence.
  - intros i metadata flight Hi. destruct (co_waiters _ _ _ Hok _ _ _ Hi) as [Hf|(o & Ho & _)].
    + left. apply (co_flights _ _ _ Hok) in Hf as (m & p & ? & ? & ?). by exists m, p.
    + right. exists o. destruct o as [path|e]; eexists; (split; [done|]); [by apply resolve_shared|by eapply resolve_shared_error].
Qed.
End Reachable.
