(* ===== verification/Bundles.v ===== *)
(** * The repository of immutable bundles

    [internal/external/bundle_repository.go] and [bundle_staging_reference.go]:
    the transactions over the rows of [t_external_bundle] with their publication
    columns and over the idempotency records of bundle uploads. *)
From stdpp Require Import prelude gmap strings.
From S2P Require Import Prelude.
From S2P Require Import GoText.
From S2P Require Import Encodings.
From S2P Require Import Manifest.
From S2P Require Import Store.
From S2P Require Import JobWorker.
From S2P Require Import BundleCache.

Open Scope Z_scope.

(** ** Errors and data *)
Inductive bundle_error : Type :=
| ErrInvalidBundle
| ErrBundleTooLarge
| ErrBundleNotFound
| ErrIdempotencyConflict
| ErrInvalidIdempotency
| ErrBundlePublishing
| ErrBundleAbandoned
| ErrBundleStagingReferenceRace
| ErrBundleUnavailable.

#[export] Instance bundle_error_eq_dec : EqDecision bundle_error.
Proof. solve_decision. Defined.

Record BundleMetadata : Type := mkBundleMetadata {
  bm_BundleID : string;
  bm_SHA256 : string;
  bm_SizeBytes : Z;
  bm_CaseCount : Z;
  bm_ManifestVersion : Z;
  bm_CreatedAt : Z
}.

#[export] Instance BundleMetadata_eq_dec : EqDecision BundleMetadata.
Proof. solve_decision. Defined.

Inductive BundlePublicationStatus : Type :=
| BundlePublicationPending
| BundlePublicationPublishing
| BundlePublicationReady
| BundlePublicationAbandoned.

#[export] Instance BundlePublicationStatus_eq_dec : EqDecision BundlePublicationStatus.
Proof. solve_decision. Defined.

Record BundleUploadLookup : Type := mkBundleLookup {
  bl_Status : BundlePublicationStatus;
  bl_RequestHash : string;
  bl_StagingKey : string;
  bl_Metadata : BundleMetadata
}.

Record BundleCommitInput : Type := mkCommitInput {
  bi_TenantID : string;
  bi_IdempotencyDigest : string;
  bi_RequestHash : string;
  bi_ObjectKey : string;
  bi_StagingObjectKey : string;
  bi_ManifestJSON : string;
  bi_TimeLimitMillis : Z;
  bi_MemoryLimitMiB : Z;
  bi_Metadata : BundleMetadata;
  bi_IdempotencyExpiresAt : Z
}.

Record BundleCommitResult : Type := mkCommitResult {
  br_Metadata : BundleMetadata;
  br_Replay : bool;
  br_Status : BundlePublicationStatus;
  br_StagingKey : string
}.

Record BundlePublicationClaim : Type := mkPublicationClaim {
  pc_TenantID : string;
  pc_BundleID : string;
  pc_ObjectKey : string;
  pc_StagingKey : string;
  pc_RequestHash : string;
  pc_SizeBytes : Z;
  pc_LeaseToken : string;
  pc_AttemptCount : Z
}.

(** ** Tables *)
Record publication_row : Type := mkPublicationRow {
  pb_ExternalID : string;
  pb_Tenant : Z;
  pb_SHA256 : string;
  pb_ObjectKey : string;
  pb_StagingKey : option string;
  pb_SizeBytes : Z;
  pb_CaseCount : Z;
  pb_ManifestVersion : Z;
  pb_ManifestJSON : string;
  pb_CreatedAt : Z;
  pb_Status : BundlePublicationStatus;
  pb_LeaseToken : option string;
  pb_LeaseUntil : option Z;
  pb_AttemptCount : Z;
  pb_NextAttemptAt : Z;
  pb_LastErrorCode : option string;
  pb_AbandonedAt : option Z;
  pb_ReadyAt : option Z;
  pb_DeleteMarkedAt : option Z;
  pb_DeletedAt : option Z
}.

#[export] Instance publication_row_eq_dec : EqDecision publication_row.
Proof. solve_decision. Defined.

(** An idempotency record of the scope [bundle-upload]. *)
Record upload_row : Type := mkUploadRow {
  ul_RequestHash : string;
  ul_ResourceExternalID : string;
  ul_ResponseStatus : Z;
  ul_ResponseJSON : string;
  ul_ExpiresAt : Z
}.

Record bundle_db : Type := mkBundleDb {
  bd_Tenants : gmap Z tenant_row;
  bd_Bundles : gmap Z publication_row;
  bd_Uploads : gmap (Z * string) upload_row
}.

Definition set_bundles (f : gmap Z publication_row → gmap Z publication_row) (d : bundle_db) : bundle_db :=
  mkBundleDb (bd_Tenants d) (f (bd_Bundles d)) (bd_Uploads d).

Definition set_uploads (f : gmap (Z * string) upload_row → gmap (Z * string) upload_row) (d : bundle_db) : bundle_db :=
  mkBundleDb (bd_Tenants d) (bd_Bundles d) (f (bd_Uploads d)).

(** The first row that meets a condition. *)
Definition select_row {A} (where_ : A → bool) (m : gmap Z A) : option (Z * A) :=
  snd <$> list_find (λ p : Z * A, where_ p.2 = true) (map_to_list m).

Definition is_none {A} (o : option A) : bool := negb (is_some o).

(** ** Identifiers, keys and validation *)

(** [path.Join] *)
Definition path_Join (elements : list string) : string :=
  match filter (λ e, e ≠ "") elements with [] => "" | es => path_Clean (join_slash es) end.

Definition bundleObjectKey (tenantID digest : string) : string :=
  path_Join ["external"; tenantID; "sha256"; hex_encode digest +:+ ".zip"].

Definition stagingBundleObjectKey (tenantID uploadID digest : string) : string :=
  path_Join ["external-staging"; tenantID; uploadID; hex_encode digest +:+ ".zip"].

Definition validStagingObjectKey (tenantID key digestHex : string) : bool :=
  match split_slash key with
  | [p0; p1; p2; p3] =>
      bool_decide (p0 = "external-staging") && bool_decide (p1 = tenantID) && externalIDPattern p2 &&
      bool_decide (p3 = digestHex +:+ ".zip")
  | _ => false
  end.

Definition trim_suffix (p s : string) : string :=
  if has_suffix p s then stake (String.length s - String.length p) s else s.

(** [validBundleStagingGCKey] ([object_store.go]). *)
Definition validBundleStagingGCKey (key : string) : bool :=
  match split_slash key with
  | [p0; p1; p2; p3] =>
      bool_decide (p0 = "external-staging") && externalIDPattern p1 && externalIDPattern p2 && has_suffix ".zip" p3 &&
      lower_digest (trim_suffix ".zip" p3)
  | _ => false
  end.

(** [bundlePublicationFailureCodePattern] is the pattern of infrastructure codes. *)
Definition validFailureCode (code : string) : bool := infrastructureCodePattern code.

Definition validBundleMetadata (metadata : BundleMetadata) : bool :=
  externalIDPattern (bm_BundleID metadata) && (len (bm_SHA256 metadata) =? 64) && (0 <? bm_SizeBytes metadata) &&
  (0 <? bm_CaseCount metadata) && (0 <? bm_ManifestVersion metadata) && negb (bm_CreatedAt metadata =? zero_time) &&
  is_some (hex_decode (bm_SHA256 metadata)).

Definition validBundlePublicationClaim (claim : BundlePublicationClaim) : bool :=
  externalIDPattern (pc_TenantID claim) && externalIDPattern (pc_BundleID claim) && externalIDPattern (pc_LeaseToken claim) &&
  (0 <? pc_SizeBytes claim) && (0 <? pc_AttemptCount claim) &&
  bool_decide (pc_ObjectKey claim = bundleObjectKey (pc_TenantID claim) (pc_RequestHash claim)) &&
  validStagingObjectKey (pc_TenantID claim) (pc_StagingKey claim) (hex_encode (pc_RequestHash claim)).

Definition bundlePublicationNeedsFreshStaging (status : BundlePublicationStatus) (stagingKey : string) : bool :=
  bool_decide (status = BundlePublicationAbandoned) || bool_decide (stagingKey = "").

Definition statusForBundleCommit (existing : bool) : Z := if existing then 200 else 201.

(** [sql.NullString.String] *)
Definition null_string (o : option string) : string := default "" o.

(** ** Readers *)
Definition active_tenant (d : bundle_db) (tenantID : string) : option (Z * tenant_row) :=
  select_row (λ t, bool_decide (tn_ExternalID t = tenantID) && bool_decide (tn_Status t = "ACTIVE")) (bd_Tenants d).

(** [scanBundleMetadata] *)
Definition row_metadata (r : publication_row) : BundleMetadata :=
  mkBundleMetadata (pb_ExternalID r) (hex_encode (pb_SHA256 r)) (pb_SizeBytes r) (pb_CaseCount r) (pb_ManifestVersion r)
    (pb_CreatedAt r).

Definition scanBundleMetadata (r : publication_row) : option BundleMetadata :=
  if (len (pb_SHA256 r) =? 32) && validBundleMetadata (row_metadata r) then Some (row_metadata r) else None.

(** The live bundle of a tenant with an external id. *)
Definition bundle_with_id (tenant : Z) (bundleID : string) (r : publication_row) : bool :=
  (pb_Tenant r =? tenant) && bool_decide (pb_ExternalID r = bundleID) && is_none (pb_DeletedAt r).

Definition findBundleByDigest (d : bundle_db) (tenant : Z) (digest : string) :
    result bundle_error (option (BundleMetadata * BundlePublicationStatus * string)) :=
  match select_row (λ r, (pb_Tenant r =? tenant) && bool_decide (pb_SHA256 r = digest) && is_none (pb_DeletedAt r)) (bd_Bundles d) with
  | None => Ok None
  | Some (_, r) =>
      match scanBundleMetadata r with
      | None => Err ErrBundleUnavailable
      | Some metadata => Ok (Some (metadata, pb_Status r, null_string (pb_StagingKey r)))
      end
  end.

Definition visible_bundle (tenant : Z) (bundleID : string) (r : publication_row) : bool :=
  bundle_with_id tenant bundleID r && bool_decide (pb_Status r = BundlePublicationReady) && is_some (pb_ReadyAt r).

Definition FindBundle (tenantID bundleID : string) (d : bundle_db) : result bundle_error BundleMetadata :=
  if negb (externalIDPattern tenantID) || negb (externalIDPattern bundleID) then Err ErrBundleNotFound
  else
    match active_tenant d tenantID with
    | None => Err ErrBundleNotFound
    | Some (tenant, _) =>
        match select_row (visible_bundle tenant bundleID) (bd_Bundles d) with
        | None => Err ErrBundleNotFound
        | Some (_, r) => from_option (scanBundleMetadata r) ErrBundleUnavailable
        end
    end.

(** A bundle that a live staging object still serves. *)
Definition publication_open (r : publication_row) : bool :=
  bool_decide (pb_Status r = BundlePublicationPending) || bool_decide (pb_Status r = BundlePublicationPublishing).

Definition IsBundleStagingReferenced (objectKey : string) (d : bundle_db) : result bundle_error bool :=
  if negb (validBundleStagingGCKey objectKey) then Err ErrBundleUnavailable
  else Ok (is_some (select_row (λ r, bool_decide (pb_StagingKey r = Some objectKey) && publication_open r &&
                                     is_none (pb_DeletedAt r)) (bd_Bundles d))).

(** ** Setting columns *)
Section Columns.
(** What a [DATETIME(3)] column keeps of an instant. *)
Context (datetime3 : Z → Z).

(** The publication columns of a row; the others never change. *)
Definition set_publication (staging : option string) (status : BundlePublicationStatus) (token : option string)
    (until : option Z) (attempts next : Z) (code : option string) (abandoned ready deleteMarked : option Z)
    (r : publication_row) : publication_row :=
  {| pb_ExternalID := pb_ExternalID r; pb_Tenant := pb_Tenant r; pb_SHA256 := pb_SHA256 r; pb_ObjectKey := pb_ObjectKey r;
     pb_StagingKey := staging; pb_SizeBytes := pb_SizeBytes r; pb_CaseCount := pb_CaseCount r;
     pb_ManifestVersion := pb_ManifestVersion r; pb_ManifestJSON := pb_ManifestJSON r; pb_CreatedAt := pb_CreatedAt r;
     pb_Status := status; pb_LeaseToken := token; pb_LeaseUntil := until; pb_AttemptCount := attempts;
     pb_NextAttemptAt := next; pb_LastErrorCode := code; pb_AbandonedAt := abandoned; pb_ReadyAt := ready;
     pb_DeleteMarkedAt := deleteMarked; pb_DeletedAt := pb_DeletedAt r |}.

Definition revived (input : BundleCommitInput) (r : publication_row) : publication_row :=
  set_publication (Some (bi_StagingObjectKey input)) BundlePublicationPending None None 0
    (datetime3 (bm_CreatedAt (bi_Metadata input))) None None None None r.

Definition retained (r : publication_row) : publication_row :=
  set_publication (pb_StagingKey r) (pb_Status r) (pb_LeaseToken r) (pb_LeaseUntil r) (pb_AttemptCount r) (pb_NextAttemptAt r)
    (pb_LastErrorCode r) (pb_AbandonedAt r) (pb_ReadyAt r) None r.

Definition leased (leaseToken : string) (leaseUntil : Z) (r : publication_row) : publication_row :=
  set_publication (pb_StagingKey r) BundlePublicationPublishing (Some leaseToken) (Some (datetime3 leaseUntil)) (pb_AttemptCount r + 1)
    (pb_NextAttemptAt r) None (pb_AbandonedAt r) (pb_ReadyAt r) (pb_DeleteMarkedAt r) r.

Definition published (readyAt : Z) (r : publication_row) : publication_row :=
  set_publication (pb_StagingKey r) BundlePublicationReady None None (pb_AttemptCount r) (pb_NextAttemptAt r) None
    (pb_AbandonedAt r) (Some (datetime3 readyAt)) (pb_DeleteMarkedAt r) r.

Definition failed_publication (abandoned : bool) (errorCode : string) (nextAttempt : Z) (r : publication_row) : publication_row :=
  set_publication (pb_StagingKey r) (if abandoned then BundlePublicationAbandoned else BundlePublicationPending) None None
    (pb_AttemptCount r) (datetime3 nextAttempt) (Some errorCode) (if abandoned then Some (datetime3 nextAttempt) else None) (pb_ReadyAt r)
    (pb_DeleteMarkedAt r) r.

Definition swept (now : Z) (r : publication_row) : publication_row :=
  set_publication (pb_StagingKey r) BundlePublicationAbandoned None None (pb_AttemptCount r) (pb_NextAttemptAt r)
    (Some "STAGING_OBJECT_UNAVAILABLE") (Some now) (pb_ReadyAt r) (pb_DeleteMarkedAt r) r.

(** An [UPDATE] that is expected to change one row. *)
Definition update_one (where_ : publication_row → bool) (set : publication_row → publication_row) (e : bundle_error)
    (d : bundle_db) : result bundle_error (publication_row * bundle_db) :=
  match select_row where_ (bd_Bundles d) with
  | None => Err e
  | Some (id, r) => Ok (set r, set_bundles (insert id (set r)) d)
  end.

Definition reviveBundlePublication (tenant : Z) (bundleID : string) (input : BundleCommitInput) (d : bundle_db) :
    result bundle_error bundle_db :=
  '(_, d) ← update_one (λ r, bundle_with_id tenant bundleID r && bool_decide (pb_SHA256 r = bi_RequestHash input) &&
              (bool_decide (pb_Status r = BundlePublicationAbandoned) || is_none (pb_StagingKey r)))
     (revived input) ErrBundleUnavailable d;
  mret d.

(** The columns a new row starts with. *)
Definition new_publication (tenant now : Z) (input : BundleCommitInput) : publication_row :=
  let metadata := bi_Metadata input in
  {| pb_ExternalID := bm_BundleID metadata; pb_Tenant := tenant; pb_SHA256 := bi_RequestHash input;
     pb_ObjectKey := bi_ObjectKey input; pb_StagingKey := Some (bi_StagingObjectKey input);
     pb_SizeBytes := bm_SizeBytes metadata; pb_CaseCount := bm_CaseCount metadata;
     pb_ManifestVersion := bm_ManifestVersion metadata; pb_ManifestJSON := bi_ManifestJSON input;
     pb_CreatedAt := datetime3 (bm_CreatedAt metadata); pb_Status := BundlePublicationPending; pb_LeaseToken := None;
     pb_LeaseUntil := None; pb_AttemptCount := 0; pb_NextAttemptAt := now; pb_LastErrorCode := None;
     pb_AbandonedAt := None; pb_ReadyAt := None; pb_DeleteMarkedAt := None; pb_DeletedAt := None |}.

(** The unique keys of the table refuse a row. *)
Definition duplicate_publication (tenant : Z) (input : BundleCommitInput) (d : bundle_db) : bool :=
  is_some (select_row (λ r, bool_decide (pb_ExternalID r = bm_BundleID (bi_Metadata input)) ||
                            ((pb_Tenant r =? tenant) && bool_decide (pb_SHA256 r = bi_RequestHash input))) (bd_Bundles d)).

(** ** Transactions *)
Section Repository.
(** [encoding/json] on policies, manifests and bundle metadata. *)
Context (json_policy : string → option TenantPolicy) (json_manifest : string → option Manifest)
        (metadata_json : BundleMetadata → string) (json_metadata : string → option BundleMetadata).

Definition stored_metadata (response : string) : result bundle_error BundleMetadata :=
  metadata ← from_option (json_metadata response) ErrBundleUnavailable;
  _ ← guard_err (validBundleMetadata metadata) ErrBundleUnavailable;
  mret metadata.

Definition FindBundleUpload (tenantID keyDigest : string) (now : Z) (d : bundle_db) :
    result bundle_error (option BundleUploadLookup) :=
  if negb (externalIDPattern tenantID) then Err ErrBundleUnavailable
  else
    match active_tenant d tenantID with
    | None => Ok None
    | Some (tenant, _) =>
        match bd_Uploads d !! (tenant, keyDigest) with
        | None => Ok None
        | Some record =>
            if ul_ExpiresAt record <=? now then Ok None
            else
              match select_row (bundle_with_id tenant (ul_ResourceExternalID record)) (bd_Bundles d) with
              | None => Ok None
              | Some (_, r) =>
                  _ ← guard_err (len (ul_RequestHash record) =? 32) ErrBundleUnavailable;
                  metadata ← stored_metadata (ul_ResponseJSON record);
                  mret (Some (mkBundleLookup (pb_Status r) (ul_RequestHash record) (null_string (pb_StagingKey r)) metadata))
              end
        end
    end.

Definition validBundleCommitInput (input : BundleCommitInput) : bool :=
  let digestHex := hex_encode (bi_RequestHash input) in
  let metadata := bi_Metadata input in
  match ParseManifest json_manifest (bi_ManifestJSON input) with
  | Err _ => false
  | Ok manifest =>
      externalIDPattern (bi_TenantID input) && externalIDPattern (bm_BundleID metadata) &&
      bool_decide (bm_SHA256 metadata = digestHex) &&
      bool_decide (bi_ObjectKey input = path_Join ["external"; bi_TenantID input; "sha256"; digestHex +:+ ".zip"]) &&
      validStagingObjectKey (bi_TenantID input) (bi_StagingObjectKey input) digestHex &&
      (bm_CaseCount metadata =? Z.of_nat (length (m_Cases manifest))) &&
      (bm_ManifestVersion metadata =? m_SchemaVersion manifest) && validBundleMetadata metadata &&
      (bi_TimeLimitMillis input =? TimeLimitMillis (m_Limits manifest)) &&
      (bi_MemoryLimitMiB input =? MemoryLimitMiB (m_Limits manifest)) &&
      (bm_CreatedAt metadata <? bi_IdempotencyExpiresAt input)
  end.

Definition bundleWithinTenantPolicy (input : BundleCommitInput) (policy : TenantPolicy) : bool :=
  if (bi_TimeLimitMillis input <=? 0) || (bi_MemoryLimitMiB input <=? 0) ||
     (MaxTimeLimitMillis policy <? bi_TimeLimitMillis input) || (MaxMemoryLimitMiB policy <? bi_MemoryLimitMiB input) then false
  else if len (bi_ManifestJSON input) =? 0 then true
  else
    match ParseManifest json_manifest (bi_ManifestJSON input) with
    | Ok manifest => manifestWithinExecutionCeilings manifest (MaxTimeLimitMillis policy) (MaxMemoryLimitMiB policy)
    | Err _ => false
    end.

(** The replay of a stored key, under the lock of the tenant. *)
Definition replay_upload (input : BundleCommitInput) (tenant : Z) (record : upload_row) (r : publication_row) (d : bundle_db) :
    result bundle_error (BundleCommitResult * bundle_db) :=
  _ ← guard_err (len (ul_RequestHash record) =? 32) ErrBundleUnavailable;
  _ ← guard_err (bool_decide (ul_RequestHash record = bi_RequestHash input)) ErrIdempotencyConflict;
  metadata ← stored_metadata (ul_ResponseJSON record);
  let stagingKey := null_string (pb_StagingKey r) in
  if bundlePublicationNeedsFreshStaging (pb_Status r) stagingKey then
    d ← reviveBundlePublication tenant (bm_BundleID metadata) input d;
    mret (mkCommitResult metadata true BundlePublicationPending (bi_StagingObjectKey input), d)
  else mret (mkCommitResult metadata true (pb_Status r) stagingKey, d).

(** The bundle of a new key: inserted, revived or kept. *)
Definition commit_bundle (input : BundleCommitInput) (tenant newID now : Z) (d : bundle_db) :
    result bundle_error (BundleCommitResult * bundle_db) :=
  existing ← findBundleByDigest d tenant (bi_RequestHash input);
  match existing with
  | None =>
      _ ← guard_err (negb (duplicate_publication tenant input d)) ErrBundleUnavailable;
      mret (mkCommitResult (bi_Metadata input) false BundlePublicationPending (bi_StagingObjectKey input),
            set_bundles (insert newID (new_publication tenant now input)) d)
  | Some (metadata, status, stagingKey) =>
      if bundlePublicationNeedsFreshStaging status stagingKey then
        d ← reviveBundlePublication tenant (bm_BundleID metadata) input d;
        mret (mkCommitResult metadata true BundlePublicationPending (bi_StagingObjectKey input), d)
      else
        let d := match update_one (bundle_with_id tenant (bm_BundleID metadata)) retained ErrBundleUnavailable d with
                 | Ok (_, d) => d
                 | Err _ => d
                 end in
        mret (mkCommitResult metadata true status stagingKey, d)
  end.

Definition new_upload (input : BundleCommitInput) (result : BundleCommitResult) : upload_row :=
  mkUploadRow (bi_RequestHash input) (bm_BundleID (br_Metadata result)) (statusForBundleCommit (br_Replay result))
    (metadata_json (br_Metadata result)) (datetime3 (bi_IdempotencyExpiresAt input)).

(** [newID] is the auto-increment of the table, [now] the clock of the database. *)
Definition CommitBundleUpload (input : BundleCommitInput) (newID now : Z) (d : bundle_db) :
    result bundle_error (BundleCommitResult * bundle_db) :=
  _ ← guard_err (validBundleCommitInput input) ErrBundleUnavailable;
  '(tenant, row) ← from_option (active_tenant d (bi_TenantID input)) ErrBundleNotFound;
  policy ← from_option (decodeTenantPolicy json_policy (tn_PolicyJSON row)) ErrInvalidBundle;
  _ ← guard_err (bundleWithinTenantPolicy input policy) ErrInvalidBundle;
  let key := (tenant, bi_IdempotencyDigest input) in
  let d := match bd_Uploads d !! key with
           | Some record => if ul_ExpiresAt record <=? now then set_uploads (delete key) d else d
           | None => d
           end in
  let stored := record ← bd_Uploads d !! key;
                r ← select_row (bundle_with_id tenant (ul_ResourceExternalID record)) (bd_Bundles d);
                Some (record, r.2) in
  match stored with
  | Some (record, r) => replay_upload input tenant record r d
  | None =>
      '(result, d) ← commit_bundle input tenant newID now d;
      _ ← guard_err (is_none (bd_Uploads d !! key)) ErrBundleUnavailable;
      mret (result, set_uploads (insert key (new_upload input result)) d)
  end.
End Repository.

(** [scanBundlePublicationClaim] *)
Definition scanBundlePublicationClaim (tenant : tenant_row) (r : publication_row) : result bundle_error BundlePublicationClaim :=
  let claim := mkPublicationClaim (tn_ExternalID tenant) (pb_ExternalID r) (pb_ObjectKey r) (null_string (pb_StagingKey r))
                 (pb_SHA256 r) (pb_SizeBytes r) (null_string (pb_LeaseToken r)) (pb_AttemptCount r) in
  _ ← guard_err (len (pb_SHA256 r) =? 32) ErrBundleUnavailable;
  _ ← guard_err (validBundlePublicationClaim claim) ErrBundleUnavailable;
  mret claim.

(** A publication that may be claimed at [now]. *)
Definition publication_due (now : Z) (r : publication_row) : bool :=
  is_some (pb_StagingKey r) && is_none (pb_DeletedAt r) && is_none (pb_AbandonedAt r) &&
  ((bool_decide (pb_Status r = BundlePublicationPending) && (pb_NextAttemptAt r <=? now)) ||
   (bool_decide (pb_Status r = BundlePublicationPublishing) &&
    match pb_LeaseUntil r with Some until => until <=? now | None => false end)).

(** [None] when there is nothing to claim. *)
Definition ClaimBundlePublication (tenantID bundleID leaseToken : string) (now leaseUntil : Z) (d : bundle_db) :
    result bundle_error (option BundlePublicationClaim * bundle_db) :=
  _ ← guard_err (externalIDPattern tenantID && externalIDPattern bundleID && externalIDPattern leaseToken &&
                 (now <? leaseUntil)) ErrBundleUnavailable;
  '(tenant, row) ← from_option (active_tenant d tenantID) ErrBundleNotFound;
  match update_one (λ r, (pb_Tenant r =? tenant) && bool_decide (pb_ExternalID r = bundleID) && publication_due now r)
          (leased leaseToken leaseUntil) ErrBundlePublishing d with
  | Err _ => Ok (None, d)
  | Ok (r, d') =>
      claim ← scanBundlePublicationClaim row r;
      mret (Some claim, d')
  end.

(** The query of [ClaimNextBundlePublication]: the tenant and bundle to claim. *)
Definition due_candidates (now : Z) (d : bundle_db) : list (Z * publication_row * tenant_row) :=
  omap (λ p : Z * publication_row,
    tenant ← bd_Tenants d !! pb_Tenant p.2;
    if bool_decide (tn_Status tenant = "ACTIVE") && publication_due now p.2 then Some (p, tenant) else None)
    (map_to_list (bd_Bundles d)).

Definition due_before (a b : Z * publication_row * tenant_row) : bool :=
  (pb_NextAttemptAt a.1.2 <? pb_NextAttemptAt b.1.2) ||
  ((pb_NextAttemptAt a.1.2 =? pb_NextAttemptAt b.1.2) && (a.1.1 <? b.1.1)).

Definition selectNextPublication (now : Z) (d : bundle_db) : option (string * string) :=
  p ← first_by due_before (due_candidates now d); Some (tn_ExternalID p.2, pb_ExternalID p.1.2).

(** The row a claim still owns. *)
Definition owns_publication (tenant : Z) (claim : BundlePublicationClaim) (r : publication_row) : bool :=
  bundle_with_id tenant (pc_BundleID claim) r && bool_decide (pb_SHA256 r = pc_RequestHash claim) &&
  bool_decide (pb_Status r = BundlePublicationPublishing) && bool_decide (pb_LeaseToken r = Some (pc_LeaseToken claim)).

Definition CompleteBundlePublication (claim : BundlePublicationClaim) (readyAt : Z) (d : bundle_db) :
    result bundle_error (unit * bundle_db) :=
  _ ← guard_err (validBundlePublicationClaim claim && negb (readyAt =? zero_time)) ErrBundleUnavailable;
  '(tenant, _) ← from_option (active_tenant d (pc_TenantID claim)) ErrBundleUnavailable;
  '(_, d) ← update_one (owns_publication tenant claim) (published readyAt) ErrBundlePublishing d;
  mret (tt, d).

(** The result says whether the publication was abandoned. *)
Definition FailBundlePublication (claim : BundlePublicationClaim) (errorCode : string) (nextAttempt maxAttempts : Z) (d : bundle_db) :
    result bundle_error (bool * bundle_db) :=
  _ ← guard_err (validBundlePublicationClaim claim && validFailureCode errorCode && negb (nextAttempt =? zero_time) &&
                 (0 <? maxAttempts)) ErrBundleUnavailable;
  let abandoned := maxAttempts <=? pc_AttemptCount claim in
  '(tenant, _) ← from_option (active_tenant d (pc_TenantID claim)) ErrBundleUnavailable;
  '(_, d) ← update_one (owns_publication tenant claim) (failed_publication abandoned errorCode nextAttempt) ErrBundlePublishing d;
  mret (abandoned, d).

End Columns.

(** A publication whose staging object is unknown and that nobody works on. *)
Definition unrecoverable (before now : Z) (r : publication_row) : bool :=
  is_none (pb_StagingKey r) && is_none (pb_ReadyAt r) && (pb_CreatedAt r <? before) && publication_open r &&
  match pb_LeaseUntil r with Some until => until <? now | None => true end.

(** The [UPDATE ... LIMIT] takes the first rows of whatever order [scan] the
    database scans them in. *)
Definition sweep_row (now : Z) (d : bundle_db) (p : Z * publication_row) : bundle_db :=
  set_bundles (insert p.1 (swept now p.2)) d.

Definition SweepUnrecoverableBundlePublications (scan : list Z) (before limit now : Z) (d : bundle_db) :
    result bundle_error (Z * bundle_db) :=
  _ ← guard_err (negb (before =? zero_time) && (0 <? limit) && (limit <=? 1000)) ErrBundleUnavailable;
  let rows := take (Z.to_nat limit)
                (omap (λ id, r ← bd_Bundles d !! id; if unrecoverable before now r then Some (id, r) else None) scan) in
  mret (Z.of_nat (length rows), foldl (sweep_row now) d rows).
