(* ===== verification/BundleService.v ===== *)
(** * Uploading, publishing and collecting bundles

    [internal/external/bundle_service.go], [bundle_reconciler.go],
    [bundle_staging_gc.go] and [object_store.go] as programs of calls: to the
    repository ([Bundles]), the object store, the clock and the random source.
    The last part says what each call may do to a world shared by all threads. *)
From stdpp Require Import prelude gmap strings.
From S2P Require Import Prelude.
From S2P Require Import GoText.
From S2P Require Import Encodings.
From S2P Require Import Programs.
From S2P Require Import Manifest.
From S2P Require Import Store.
From S2P Require Import Submission.
From S2P Require Import BundleArchive.
From S2P Require Import BundleCache.
From S2P Require Import Bundles.

Open Scope Z_scope.

(** ** Calls *)
Record bundle_object : Type := mkBundleObject {
  ob_Content : string;
  ob_SHA256 : string;
  ob_LastModified : Z
}.

(** [minio.ObjectInfo], as far as it is used. *)
Record ObjectInfo : Type := mkObjectInfo { oi_Size : Z; oi_SHA256 : string }.

Inductive bundle_call : Type :=
| CNow
| CRandomID
| CAdmit (bytes : Z)
| CTempFile
| CFindUpload (tenantID keyDigest : string)
| CCommit (input : BundleCommitInput)
| CClaim (tenantID bundleID leaseToken : string) (now leaseUntil : Z)
| CSelectNext (now : Z)
| CComplete (claim : BundlePublicationClaim) (readyAt : Z)
| CFail (claim : BundlePublicationClaim) (errorCode : string) (nextAttempt maxAttempts : Z)
| CSweep (before limit : Z)
| CFindBundle (tenantID bundleID : string)
| CReferenced (key : string)
| CPut (key content sha : string)
| CStat (key : string)
| CCopy (destination source sha : string)
| CRemove (key : string)
| CList (startAfter : string) (maxKeys : Z).

Notation fallible := (result bundle_error).

Definition answer (c : bundle_call) : Type :=
  match c with
  | CNow => Z
  | CRandomID => fallible string
  | CAdmit _ => fallible unit
  | CTempFile => fallible unit
  | CFindUpload _ _ => fallible (option BundleUploadLookup)
  | CCommit _ => fallible BundleCommitResult
  | CClaim _ _ _ _ _ => fallible (option BundlePublicationClaim)
  | CSelectNext _ => fallible (option (string * string))
  | CComplete _ _ => fallible unit
  | CFail _ _ _ _ => fallible bool
  | CSweep _ _ => fallible Z
  | CFindBundle _ _ => fallible BundleMetadata
  | CReferenced _ => fallible bool
  | CPut _ _ _ => fallible Z
  | CStat _ => fallible (option ObjectInfo)
  | CCopy _ _ _ => fallible unit
  | CRemove _ => fallible unit
  | CList _ _ => fallible (list (string * Z))
  end.

Notation bprog := (prog answer).
Notation call := (@call bundle_call answer).

(** Sequencing of programs that may fail: an error returns. *)
Definition then_ok {A B} (p : bprog (fallible A)) (f : A → bprog (fallible B)) : bprog (fallible B) :=
  p ≫= λ r, match r with Ok a => f a | Err e => mret (Err e) end.
Notation "x ⇐ p ; q" := (then_ok p (λ x, q)) (at level 20, p at level 100, q at level 200).

Definition fail_with {A} (e : bundle_error) : bprog (fallible A) := mret (Err e).
Definition require (b : bool) (e : bundle_error) : bprog (fallible unit) := mret (guard_err b e).

(** ** The object store *)

(** [verifyBundleObject]; the stored digest is compared with [EqualFold]. *)
Definition verifyBundleObject (info : ObjectInfo) (size : Z) (digest : string) : bool :=
  (oi_Size info =? size) && bool_decide (to_lower (oi_SHA256 info) = to_lower (hex_encode digest)).

Definition verify_object (info : ObjectInfo) (size : Z) (digest : string) : bprog (fallible unit) :=
  require (verifyBundleObject info size digest) ErrBundleUnavailable.

Definition Stage (key content : string) (size : Z) (digest : string) : bprog (fallible unit) :=
  _ ⇐ require (negb (bool_decide (key = "")) && (0 <? size)) ErrBundleUnavailable;
  uploaded ⇐ call (CPut key content (hex_encode digest));
  _ ⇐ require (uploaded =? size) ErrBundleUnavailable;
  info ⇐ call (CStat key);
  match info with None => fail_with ErrBundleUnavailable | Some info => verify_object info size digest end.

Definition Promote (stagingKey finalKey : string) (size : Z) (digest : string) : bprog (fallible unit) :=
  _ ⇐ require (negb (bool_decide (stagingKey = "")) && negb (bool_decide (finalKey = "")) && (0 <? size)) ErrBundleUnavailable;
  final ⇐ call (CStat finalKey);
  match final with
  | Some info => verify_object info size digest
  | None =>
      staged ⇐ call (CStat stagingKey);
      match staged with
      | None => fail_with ErrBundleUnavailable
      | Some info =>
          _ ⇐ verify_object info size digest;
          _ ⇐ call (CCopy finalKey stagingKey (hex_encode digest));
          published ⇐ call (CStat finalKey);
          match published with
          | None => fail_with ErrBundleUnavailable
          | Some info => verify_object info size digest
          end
      end
  end.

Definition Discard (key : string) : bprog (fallible unit) :=
  _ ⇐ require (negb (bool_decide (key = ""))) ErrBundleUnavailable; call (CRemove key).

Definition staging_prefix : string := "external-staging/".

Definition validBundleStagingContinuation (value : string) : bool :=
  negb ((len value <=? len staging_prefix) || (1024 <? len value) || negb (has_prefix staging_prefix value)) &&
  forallb (λ r, negb ((r.1 <? 32) || (r.1 =? 127))) (runes value).

(** The objects of a page that are candidates. *)
Definition staging_candidates (before : Z) (page : list (string * Z)) : list (string * Z) :=
  filter (λ o, validBundleStagingGCKey o.1 && negb (o.2 =? zero_time) && (o.2 <? before) = true) page.

(** The last key of a full page. *)
Definition continuation (page : list (string * Z)) (limit : Z) : string :=
  if Z.of_nat (length page) <? limit then "" else default "" (fst <$> last page).

Definition ListStaging (before : Z) (after : string) (limit : Z) : bprog (fallible (list (string * Z) * string)) :=
  _ ⇐ require (negb ((before =? zero_time) || (limit <? 1) || (1000 <? limit) ||
                      (negb (bool_decide (after = "")) && negb (validBundleStagingContinuation after)))) ErrBundleUnavailable;
  page ⇐ call (CList after limit);
  mret (Ok (staging_candidates before page, continuation page limit)).

(** ** The service *)
Definition maxExternalBundleCasesV1 : Z := 256.
Definition defaultBundleMaintenanceTimeout : Z := 30 * second.

Record BundleServiceConfig : Type := mkBundleConfig {
  cf_MaxUploadBytes : Z;
  cf_ArchiveLimits : ArchiveLimits;
  cf_MaxTimeLimitMillis : Z;
  cf_MaxMemoryLimitMiB : Z;
  cf_IdempotencyTTL : Z;
  cf_IdempotencyPepper : string;
  cf_PublicationLease : Z;
  cf_PublicationRetry : Z;
  cf_MaxPublishAttempts : Z;
  cf_PendingAbandonAfter : Z;
  cf_MaintenanceTimeout : Z
}.

(** The defaults and bounds of [NewBundleService]. *)
Definition NewBundleService (config : BundleServiceConfig) : option BundleServiceConfig :=
  if (cf_MaxUploadBytes config <=? 0) || (cf_IdempotencyTTL config <=? 0) || (cf_MaxTimeLimitMillis config <=? 0) ||
     (cf_MaxMemoryLimitMiB config <=? 0) || (len (cf_IdempotencyPepper config) <? 32) ||
     negb (ValidateArchiveLimits (cf_ArchiveLimits config)) then None
  else if (0 <? cf_PublicationLease config) && (cf_PublicationLease config <? 2 * second) then None
  else if negb (cf_MaintenanceTimeout config =? 0) &&
          ((cf_MaintenanceTimeout config <? millisecond) || (5 * minute <? cf_MaintenanceTimeout config)) then None
  else
    let positive value fallback := if value <=? 0 then fallback else value in
    Some (mkBundleConfig (cf_MaxUploadBytes config) (cf_ArchiveLimits config) (cf_MaxTimeLimitMillis config)
      (cf_MaxMemoryLimitMiB config) (cf_IdempotencyTTL config) (cf_IdempotencyPepper config)
      (positive (cf_PublicationLease config) minute) (positive (cf_PublicationRetry config) (5 * second))
      (positive (cf_MaxPublishAttempts config) 8) (positive (cf_PendingAbandonAfter config) (24 * hour))
      (or_default (cf_MaintenanceTimeout config) defaultBundleMaintenanceTimeout)).

Definition promotion_failed : string := "OBJECT_PROMOTION_FAILED".

(** [publishOwnedBundle] *)
Definition publishOwnedBundle (config : BundleServiceConfig) (tenantID : string) (metadata : BundleMetadata) (digest : string) :
    bprog (fallible unit) :=
  leaseToken ⇐ call CRandomID;
  now ← call CNow;
  claimed ⇐ call (CClaim tenantID (bm_BundleID metadata) leaseToken now (now + cf_PublicationLease config));
  match claimed with
  | None =>
      found ← call (CFindBundle tenantID (bm_BundleID metadata));
      mret (match found with Ok _ => Ok tt | Err _ => Err ErrBundlePublishing end)
  | Some claim =>
      if negb (bool_decide (pc_RequestHash claim = digest)) then fail_with ErrBundleUnavailable
      else
        promoted ← Promote (pc_StagingKey claim) (pc_ObjectKey claim) (pc_SizeBytes claim) (pc_RequestHash claim);
        match promoted with
        | Err e =>
            _ ← call (CFail claim promotion_failed (now + cf_PublicationRetry config) (cf_MaxPublishAttempts config));
            fail_with e
        | Ok _ =>
            readyAt ← call CNow;
            _ ⇐ call (CComplete claim readyAt);
            _ ← Discard (pc_StagingKey claim);
            mret (Ok tt)
        end
  end.

Section Service.
Context (json_manifest : string → option Manifest) (sha256 : string → string) (hmac_sha256 : string → string → string)
        (zip_OpenReader : string → option (list zip_File)).

(** What the copy of the request body into the temporary file gives: the bytes it
    holds, one more than the limit at most. *)
Definition read_upload (maxUploadBytes : Z) (source : stream) : result bundle_error string :=
  let s := limited maxUploadBytes source in
  if negb (st_Ends s) then Err ErrBundleUnavailable
  else if maxUploadBytes <? len (st_Data s) then Err ErrBundleTooLarge
  else if len (st_Data s) =? 0 then Err ErrInvalidBundle
  else Ok (st_Data s).

(** The checks on the archive, up to the limits of the platform. *)
Definition inspect_upload (config : BundleServiceConfig) (content : string) : result bundle_error (Manifest * string) :=
  match InspectArchive json_manifest sha256 zip_OpenReader content (cf_ArchiveLimits config) with
  | Err _ => Err ErrInvalidBundle
  | Ok (manifest, manifestJSON) =>
      if (maxExternalBundleCasesV1 <? Z.of_nat (length (m_Cases manifest))) ||
         negb (manifestWithinExecutionCeilings manifest (cf_MaxTimeLimitMillis config) (cf_MaxMemoryLimitMiB config))
      then Err ErrInvalidBundle
      else Ok (manifest, manifestJSON)
  end.

(** Errors after which the transaction is known to have done nothing. *)
Definition definite_error (e : bundle_error) : bool :=
  bool_decide (e = ErrIdempotencyConflict) || bool_decide (e = ErrBundleNotFound) || bool_decide (e = ErrInvalidBundle).

(** From the staging of the object on. *)
Definition stage_and_commit (config : BundleServiceConfig) (tenantID keyDigest content manifestJSON : string) (manifest : Manifest) :
    bprog (fallible (BundleMetadata * bool)) :=
  let digest := sha256 content in
  uploadID ⇐ call CRandomID;
  bundleID ⇐ call CRandomID;
  let stagingKey := stagingBundleObjectKey tenantID uploadID digest in
  _ ⇐ Stage stagingKey content (len content) digest;
  now ← call CNow;
  let metadata := mkBundleMetadata bundleID (hex_encode digest) (len content) (Z.of_nat (length (m_Cases manifest)))
                    (m_SchemaVersion manifest) now in
  committed ← call (CCommit (mkCommitInput tenantID keyDigest digest (bundleObjectKey tenantID digest) stagingKey manifestJSON
                (TimeLimitMillis (m_Limits manifest)) (MemoryLimitMiB (m_Limits manifest)) metadata (now + cf_IdempotencyTTL config)));
  match committed with
  | Err e =>
      _ ← (if definite_error e then Discard stagingKey else mret (Ok tt));
      fail_with e
  | Ok result =>
      _ ← (if bool_decide (br_StagingKey result = stagingKey) then mret (Ok tt) else Discard stagingKey);
      if bool_decide (br_Status result = BundlePublicationReady) then mret (Ok (br_Metadata result, br_Replay result))
      else if bool_decide (br_Status result = BundlePublicationAbandoned) then fail_with ErrBundleAbandoned
      else
        _ ⇐ publishOwnedBundle config tenantID (br_Metadata result) digest;
        mret (Ok (br_Metadata result, br_Replay result))
  end.

(** [UploadWithAdmission]; [admission] says whether the caller passes an [admit]. *)
Definition UploadWithAdmission (config : BundleServiceConfig) (tenantID idempotencyKey : string) (source : stream) (admission : bool) :
    bprog (fallible (BundleMetadata * bool)) :=
  _ ⇐ require (externalIDPattern tenantID) ErrInvalidBundle;
  keyDigest ⇐ mret (from_option (DigestIdempotencyKey hmac_sha256 idempotencyKey (cf_IdempotencyPepper config)) ErrInvalidIdempotency);
  _ ⇐ call CTempFile;
  content ⇐ mret (read_upload (cf_MaxUploadBytes config) source);
  _ ⇐ (if admission then call (CAdmit (len content)) else mret (Ok tt));
  inspected ⇐ mret (inspect_upload config content);
  let '(manifest, manifestJSON) := inspected in
  lookup ⇐ call (CFindUpload tenantID keyDigest);
  match lookup with
  | None => stage_and_commit config tenantID keyDigest content manifestJSON manifest
  | Some lookup =>
      if negb (bool_decide (bl_RequestHash lookup = sha256 content)) then fail_with ErrIdempotencyConflict
      else if bool_decide (bl_Status lookup = BundlePublicationReady) then mret (Ok (bl_Metadata lookup, true))
      else if negb (bundlePublicationNeedsFreshStaging (bl_Status lookup) (bl_StagingKey lookup)) then
        _ ⇐ publishOwnedBundle config tenantID (bl_Metadata lookup) (sha256 content);
        mret (Ok (bl_Metadata lookup, true))
      else stage_and_commit config tenantID keyDigest content manifestJSON manifest
  end.
End Service.

(** [BundleService.Get] *)
Definition bundle_Get (tenantID bundleID : string) : bprog (fallible BundleMetadata) :=
  if negb (externalIDPattern tenantID) || negb (externalIDPattern bundleID) then fail_with ErrBundleNotFound
  else call (CFindBundle tenantID bundleID).

(** ** The reconciler *)
Definition ClaimNextBundlePublication (leaseToken : string) (now leaseUntil : Z) : bprog (fallible (option BundlePublicationClaim)) :=
  _ ⇐ require (externalIDPattern leaseToken && (now <? leaseUntil)) ErrBundleUnavailable;
  next ⇐ call (CSelectNext now);
  match next with
  | None => mret (Ok None)
  | Some (tenantID, bundleID) => call (CClaim tenantID bundleID leaseToken now leaseUntil)
  end.

(** The first result says whether there was something to do. *)
Definition ReconcileOnce (config : BundleServiceConfig) : bprog (bool * fallible unit) :=
  now ← call CNow;
  drawn ← call CRandomID;
  match drawn with
  | Err e => mret (false, Err e)
  | Ok leaseToken =>
      claimed ← ClaimNextBundlePublication leaseToken now (now + cf_PublicationLease config);
      match claimed with
      | Err e => mret (false, Err e)
      | Ok None =>
          swept ← call (CSweep (now - cf_PendingAbandonAfter config) 100);
          mret (match swept with Ok n => (0 <? n, Ok tt) | Err e => (false, Err e) end)
      | Ok (Some claim) =>
          promoted ← Promote (pc_StagingKey claim) (pc_ObjectKey claim) (pc_SizeBytes claim) (pc_RequestHash claim);
          match promoted with
          | Err e =>
              recorded ← call (CFail claim promotion_failed (now + cf_PublicationRetry config) (cf_MaxPublishAttempts config));
              match (recorded : fallible bool) with
              | Err _ => mret (true, Err ErrBundleUnavailable)
              | Ok abandoned =>
                  _ ← (if abandoned then Discard (pc_StagingKey claim) else mret (Ok tt));
                  mret (true, Err e)
              end
          | Ok _ =>
              readyAt ← call CNow;
              completed ← call (CComplete claim readyAt);
              match completed with
              | Err e => mret (true, Err e)
              | Ok _ => _ ← Discard (pc_StagingKey claim); mret (true, Ok tt)
              end
          end
      end
  end.

(** ** The collector of staging objects *)
Definition minimumBundleStagingGarbageAge : Z := hour.
Definition defaultBundleStagingGarbageAge : Z := 2 * hour.
Definition defaultBundleStagingGCInterval : Z := hour.
Definition defaultBundleStagingGCBatch : Z := 100.
Definition defaultBundleStagingRetryDelay : Z := 5 * second.
Definition defaultBundleStagingFailLimit : Z := 3.
Definition defaultBundleStagingOperationTimeout : Z := 30 * second.

Record collector_config : Type := mkCollectorConfig {
  gc_MinimumAge : Z;
  gc_Interval : Z;
  gc_BatchSize : Z;
  gc_RetryDelay : Z;
  gc_FailureLimit : Z;
  gc_OperationTimeout : Z
}.

Definition NewBundleStagingGarbageCollector (config : collector_config) : option collector_config :=
  let config := mkCollectorConfig (or_default (gc_MinimumAge config) defaultBundleStagingGarbageAge)
    (or_default (gc_Interval config) defaultBundleStagingGCInterval) (or_default (gc_BatchSize config) defaultBundleStagingGCBatch)
    (or_default (gc_RetryDelay config) defaultBundleStagingRetryDelay)
    (or_default (gc_FailureLimit config) defaultBundleStagingFailLimit)
    (or_default (gc_OperationTimeout config) defaultBundleStagingOperationTimeout) in
  if (gc_MinimumAge config <? minimumBundleStagingGarbageAge) || (gc_Interval config <=? 0) ||
     (gc_BatchSize config <? 1) || (1000 <? gc_BatchSize config) || (gc_RetryDelay config <=? 0) ||
     (gc_Interval config <? gc_RetryDelay config) || (gc_FailureLimit config <? 1) || (100 <? gc_FailureLimit config) ||
     (gc_OperationTimeout config <=? 0) then None
  else Some config.

(** One candidate: whether it was removed. *)
Definition collect_candidate (cutoff : Z) (candidate : string * Z) : bprog (fallible bool) :=
  let '(key, lastModified) := candidate in
  if negb (validBundleStagingGCKey key) || (lastModified =? zero_time) || negb (lastModified <? cutoff) then mret (Ok false)
  else
    referenced ⇐ call (CReferenced key);
    if (referenced : bool) then mret (Ok false)
    else
      referenced ⇐ call (CReferenced key);
      if (referenced : bool) then mret (Ok false)
      else
        _ ⇐ Discard key;
        referenced ⇐ call (CReferenced key);
        if (referenced : bool) then fail_with ErrBundleStagingReferenceRace else mret (Ok true).

(** The loop over the candidates, with the count of removed objects; an error
    ends it and keeps the count. *)
Fixpoint collect (cutoff removed : Z) (candidates : list (string * Z)) : bprog (Z * fallible unit) :=
  match candidates with
  | [] => mret (removed, Ok tt)
  | candidate :: candidates =>
      outcome ← collect_candidate cutoff candidate;
      match outcome with
      | Err e => mret (removed, Err e)
      | Ok true => collect cutoff (removed + 1) candidates
      | Ok false => collect cutoff removed candidates
      end
  end.

(** [SweepOnce] from a cursor: what it removed, its error, and the next cursor. *)
Definition SweepOnce (config : collector_config) (cursor : string) : bprog (Z * fallible unit * string) :=
  now ← call CNow;
  let cutoff := now - gc_MinimumAge config in
  listed ← ListStaging cutoff cursor (gc_BatchSize config);
  match listed with
  | Err e => mret (0, Err e, cursor)
  | Ok (candidates, next) =>
      collected ← collect cutoff 0 candidates;
      mret (collected, match collected.2 with Ok _ => next | Err _ => cursor end)
  end.

(** What [Run] does after a sweep: the consecutive failures and the delay before
    the next one, or the error it returns. [cancelled] is the cause of the context. *)
Definition gc_after_sweep (config : collector_config) (cancelled : option bundle_error) (failures : Z) (cursor : string)
    (outcome : fallible unit) : fallible (Z * Z) :=
  match outcome with
  | Ok _ => Ok (0, if bool_decide (cursor = "") then gc_Interval config else gc_RetryDelay config)
  | Err e =>
      match cancelled with
      | Some cause => Err cause
      | None =>
          if bool_decide (e = ErrBundleStagingReferenceRace) then Err e
          else if gc_FailureLimit config <=? failures + 1 then Err e
          else Ok (failures + 1, gc_RetryDelay config)
      end
  end.
