(* ===== verification/BundleWorld.v ===== *)
(** * Bundles under concurrency: the world of the service

    One database, one object store and one clock, shared by any number of uploads,
    reconcilers and collectors. A call either does what [Bundles] or the object
    store says, or fails; a failed call may have taken effect. The ghost part
    records who drew a random identifier, when a thread began and which staging
    keys ever reached a row. *)
From stdpp Require Import prelude gmap strings sorting.
From S2P Require Import Prelude.
From S2P Require Import GoText.
From S2P Require Import Programs.
From S2P Require Import Manifest.
From S2P Require Import Store.
From S2P Require Import BundleArchive.
From S2P Require Import BundleCache.
From S2P Require Import Bundles.
From S2P Require Import BundleService.

Open Scope Z_scope.

Record bundle_world : Type := mkBundleWorld {
  bw_Now : Z;
  bw_DB : bundle_db;
  bw_Objects : gmap string bundle_object;
  bw_Began : gmap nat Z;
  bw_Issued : gmap string nat;
  bw_Committed : gset string
}.

(** The staging keys in rows. *)
Definition staging_keys (d : bundle_db) : gset string :=
  list_to_set (omap (λ p : Z * publication_row, pb_StagingKey p.2) (map_to_list (bd_Bundles d))).

Definition with_db (d : bundle_db) (w : bundle_world) : bundle_world :=
  mkBundleWorld (bw_Now w) d (bw_Objects w) (bw_Began w) (bw_Issued w) (bw_Committed w ∪ staging_keys d).

Definition with_objects (f : gmap string bundle_object → gmap string bundle_object) (w : bundle_world) : bundle_world :=
  mkBundleWorld (bw_Now w) (bw_DB w) (f (bw_Objects w)) (bw_Began w) (bw_Issued w) (bw_Committed w).

Definition issue (id : string) (i : nat) (w : bundle_world) : bundle_world :=
  mkBundleWorld (bw_Now w) (bw_DB w) (bw_Objects w) (bw_Began w) (<[id := i]> (bw_Issued w)) (bw_Committed w).

Definition begin_thread (i : nat) (w : bundle_world) : bundle_world :=
  mkBundleWorld (bw_Now w) (bw_DB w) (bw_Objects w) (<[i := bw_Now w]> (bw_Began w)) (bw_Issued w) (bw_Committed w).

(** A page of [ListObjects] under the staging prefix, in the order of the keys. *)
Definition object_le (a b : string * bundle_object) : Prop := String.leb a.1 b.1 = true.

#[export] Instance object_le_dec a b : Decision (object_le a b).
Proof. unfold object_le. apply _. Defined.

Definition list_page (startAfter : string) (maxKeys : Z) (objects : gmap string bundle_object) : list (string * Z) :=
  (λ p : string * bundle_object, (p.1, ob_LastModified p.2)) <$>
    take (Z.to_nat maxKeys)
      (filter (λ p : string * bundle_object, has_prefix staging_prefix p.1 && negb (String.leb p.1 startAfter) = true)
        (merge_sort object_le (map_to_list objects))).

Definition object_info (o : bundle_object) : ObjectInfo := mkObjectInfo (len (ob_Content o)) (ob_SHA256 o).

(** [httpapi]: an upload is served within this time. *)
Definition maximumBundleOperationTimeout : Z := 40 * minute.

(** A transaction: it may only commit while [may] holds. *)
Definition transact {A} (may : Prop) (f : bundle_db → result bundle_error (A * bundle_db)) (w : bundle_world)
    (r : fallible A) (w' : bundle_world) : Prop :=
  (r = Err ErrBundleUnavailable ∧ w' = w) ∨
  match f (bw_DB w) with
  | Ok (a, d) => may ∧ w' = with_db d w ∧ (r = Ok a ∨ r = Err ErrBundleUnavailable)
  | Err e => w' = w ∧ r = Err e
  end.

Definition reads {A} (answer : fallible A) (w : bundle_world) (r : fallible A) (w' : bundle_world) : Prop :=
  w' = w ∧ (r = answer ∨ r = Err ErrBundleUnavailable).

Section World.
Context (json_policy : string → option TenantPolicy) (json_manifest : string → option Manifest)
        (metadata_json : BundleMetadata → string) (json_metadata : string → option BundleMetadata) (datetime3 : Z → Z)
        (sha256 : string → string) (hmac_sha256 : string → string → string)
        (zip_OpenReader : string → option (list zip_File)).

(** How late after the deadline of its upload a commit can take effect, and how
    far the clock of the object store is off. *)
Context (grace drift : Z).

(** The contents that clients upload. *)
Context (uploadable : string → Prop).

Definition in_time (i : nat) (w : bundle_world) : Prop :=
  ∃ began, bw_Began w !! i = Some began ∧ bw_Now w ≤ began + maximumBundleOperationTimeout + grace.

Definition put_object (key : string) (o : bundle_object) (w : bundle_world) : bundle_world := with_objects (insert key o) w.

Definition near (now t : Z) : Prop := now - drift ≤ t ≤ now + drift.

(** What a call of thread [i] may do; the database reads a clock of its own. *)
Definition exec (i : nat) (c : bundle_call) (w : bundle_world) : answer c → bundle_world → Prop :=
  match c with
  | CNow => λ r w', r = bw_Now w ∧ w' = w
  | CRandomID => λ r w',
      (∃ e, r = Err e ∧ w' = w) ∨
      ∃ id, r = Ok id ∧ externalIDPattern id = true ∧ bw_Issued w !! id = None ∧ w' = issue id i w
  | CAdmit _ => λ _ w', w' = w
  | CTempFile => λ _ w', w' = w
  | CFindUpload tenantID keyDigest => λ r w', ∃ clock, reads (FindBundleUpload json_metadata tenantID keyDigest clock (bw_DB w)) w r w'
  | CCommit input => λ r w', ∃ newID clock, bd_Bundles (bw_DB w) !! newID = None ∧
      transact (in_time i w) (CommitBundleUpload datetime3 json_policy json_manifest metadata_json json_metadata input newID clock) w r w'
  | CClaim tenantID bundleID leaseToken now leaseUntil => λ r w',
      transact True (ClaimBundlePublication datetime3 tenantID bundleID leaseToken now leaseUntil) w r w'
  | CSelectNext now => λ r w', reads (Ok (selectNextPublication now (bw_DB w))) w r w'
  | CComplete claim readyAt => λ r w', transact True (CompleteBundlePublication datetime3 claim readyAt) w r w'
  | CFail claim errorCode nextAttempt maxAttempts => λ r w',
      transact True (FailBundlePublication datetime3 claim errorCode nextAttempt maxAttempts) w r w'
  | CSweep before limit => λ r w', ∃ scan clock, scan ≡ₚ (map_to_list (bd_Bundles (bw_DB w))).*1 ∧
      transact True (SweepUnrecoverableBundlePublications scan before limit clock) w r w'
  | CFindBundle tenantID bundleID => λ r w', reads (FindBundle tenantID bundleID (bw_DB w)) w r w'
  | CReferenced key => λ r w', reads (IsBundleStagingReferenced key (bw_DB w)) w r w'
  | CPut key content sha => λ r w',
      (r = Err ErrBundleUnavailable ∧ w' = w) ∨
      ∃ modified, near (bw_Now w) modified ∧ w' = put_object key (mkBundleObject content sha modified) w ∧
        (r = Ok (len content) ∨ r = Err ErrBundleUnavailable)
  | CStat key => λ r w', reads (Ok (object_info <$> bw_Objects w !! key)) w r w'
  | CCopy destination source sha => λ r w',
      (r = Err ErrBundleUnavailable ∧ w' = w) ∨
      ∃ o modified, bw_Objects w !! source = Some o ∧ near (bw_Now w) modified ∧
        w' = put_object destination (mkBundleObject (ob_Content o) sha modified) w ∧ (r = Ok tt ∨ r = Err ErrBundleUnavailable)
  | CRemove key => λ r w',
      (r = Err ErrBundleUnavailable ∧ w' = w) ∨
      (w' = with_objects (delete key) w ∧ (r = Ok tt ∨ r = Err ErrBundleUnavailable))
  | CList startAfter maxKeys => λ r w', reads (Ok (list_page startAfter maxKeys (bw_Objects w))) w r w'
  end.

(** Outside the threads time passes, administrators change tenants, expired
    records of uploads are removed ([ExpireIdempotencyBatch]), and threads begin. *)
Definition tenants_evolve (t t' : gmap Z tenant_row) : Prop :=
  (∀ k r, t !! k = Some r → ∃ r', t' !! k = Some r' ∧ tn_ExternalID r' = tn_ExternalID r) ∧
  ∀ k1 k2 r1 r2, t' !! k1 = Some r1 → t' !! k2 = Some r2 → tn_ExternalID r1 = tn_ExternalID r2 → k1 = k2.

Inductive environment (w : bundle_world) : bundle_world → Prop :=
| env_tick now : bw_Now w ≤ now →
    environment w (mkBundleWorld now (bw_DB w) (bw_Objects w) (bw_Began w) (bw_Issued w) (bw_Committed w))
| env_tenants t : tenants_evolve (bd_Tenants (bw_DB w)) t →
    environment w (mkBundleWorld (bw_Now w) (mkBundleDb t (bd_Bundles (bw_DB w)) (bd_Uploads (bw_DB w))) (bw_Objects w)
      (bw_Began w) (bw_Issued w) (bw_Committed w))
| env_expire uploads : uploads ⊆ bd_Uploads (bw_DB w) →
    environment w (mkBundleWorld (bw_Now w) (mkBundleDb (bd_Tenants (bw_DB w)) (bd_Bundles (bw_DB w)) uploads) (bw_Objects w)
      (bw_Began w) (bw_Issued w) (bw_Committed w))
| env_begin i : bw_Began w !! i = None → environment w (begin_thread i w).

(** ** Threads *)
Inductive bundle_outcome : Type :=
| Uploaded (tenantID : string) (source : stream) (r : fallible (BundleMetadata * bool))
| Reconciled (r : bool * fallible unit)
| Collected (r : Z * fallible unit * string).

(** The programs of the service. *)
Inductive bundle_thread (config : BundleServiceConfig) (collector : collector_config) : prog answer bundle_outcome → Prop :=
| thread_upload tenantID idempotencyKey source admission :
    (∀ content, read_upload (cf_MaxUploadBytes config) source = Ok content → uploadable content) →
    bundle_thread config collector
      (r ← UploadWithAdmission json_manifest sha256 hmac_sha256 zip_OpenReader config tenantID idempotencyKey source admission;
       mret (Uploaded tenantID source r))
| thread_reconcile : bundle_thread config collector (r ← ReconcileOnce config; mret (Reconciled r))
| thread_collect cursor : bundle_thread config collector (r ← SweepOnce collector cursor; mret (Collected r)).

Definition starts (config : BundleServiceConfig) (collector : collector_config) (i : nat) (p : prog answer bundle_outcome)
    (w w' : bundle_world) : Prop :=
  bw_Began w !! i = None ∧ w' = begin_thread i w ∧ bundle_thread config collector p.

Definition bundle_step (config : BundleServiceConfig) (collector : collector_config) :
    threads → threads → Prop :=
  thread_step exec environment (starts config collector).
End World.

(** No bundle, upload or object, whatever tenants there are. *)
Definition initial_bundles (now : Z) (tenants : gmap Z tenant_row) : threads (R:=answer) (A:=bundle_outcome) :=
  mkThreads (mkBundleWorld now (mkBundleDb tenants ∅ ∅) ∅ ∅ ∅ ∅) ∅.
