(* ===== verification/BundleSafety.v ===== *)
(** * The invariant of the bundle service

    Keys and what they say, the invariant of the world, what a thread guarantees
    the others, the facts a thread may keep across the steps of the others, and
    the effect of every transaction on all of these. *)
From stdpp Require Import prelude gmap strings sorting.
From S2P Require Import Prelude.
From S2P Require Import GoText.
From S2P Require Import Encodings.
From S2P Require Import Programs.
From S2P Require Import Manifest.
From S2P Require Import Store.
From S2P Require Import BundleArchive.
From S2P Require Import BundleCache.
From S2P Require Import CacheSafety.
From S2P Require Import Bundles.
From S2P Require Import BundleService.
From S2P Require Import BundleWorld.

Open Scope Z_scope.

(** ** Keys *)
Definition plain_element (s : string) : Prop := plain_component s ∧ slash_free s = true.

Lemma slash_free_impl (p : Ascii.ascii → bool) s :
  (∀ a, p a = true → byte_of a ≠ 47) → string_forallb p s = true → slash_free s = true.
Proof.
  intros Hp. apply string_forallb_impl. intros a Ha. apply Hp in Ha. rewrite negb_true_iff, bool_decide_eq_false.
  intros ->. by apply Ha.
Qed.

Lemma external_id_element s : externalIDPattern s = true → plain_element s.
Proof.
  unfold externalIDPattern. rewrite andb_true_iff, Z.eqb_eq. intros [Hl Hs]. split.
  - split_and!; intros ->; vm_compute in Hl; discriminate Hl.
  - revert Hs. apply slash_free_impl. intros a. unfold base32_char, lower, in_range. lia.
Qed.

Lemma slash_free_append s t : slash_free (s +:+ t) = slash_free s && slash_free t.
Proof. unfold slash_free. induction s as [|a s IH]; [done|]. cbn [String.append string_forallb]. change (String.append s t) with (s +:+ t). by rewrite IH, andb_assoc. Qed.

Lemma hex_slash_free s : slash_free (hex_encode s) = true.
Proof.
  induction s as [|a s IH]; [done|]. unfold slash_free in *. cbn [hex_encode string_forallb]. rewrite IH.
  assert (H : ∀ n, 0 ≤ n ≤ 15 → negb (bool_decide (hex_digit n = slash)) = true).
  { intros n Hn. destruct (hex_digit_value n Hn) as [Hv _]. rewrite negb_true_iff, bool_decide_eq_false. intros E.
    rewrite E in Hv. vm_compute in Hv. discriminate Hv. }
  pose proof (byte_of_range a). rewrite !H; [done|Z.div_mod_to_equations; lia|Z.div_mod_to_equations; lia].
Qed.

Lemma zip_element d : plain_element (hex_encode d +:+ ".zip").
Proof.
  split.
  - assert (Hl : String.length (hex_encode d +:+ ".zip") = (String.length (hex_encode d) + 4)%nat) by apply string_length_append.
    split_and!; intros E; rewrite E in Hl; cbn in Hl; lia.
  - rewrite slash_free_append, hex_slash_free. done.
Qed.

Lemma path_Join_plain cs : cs ≠ [] → Forall plain_element cs → split_slash (path_Join cs) = cs.
Proof.
  intros Hne Hcs. assert (Hp : Forall plain_component cs) by (eapply Forall_impl; [exact Hcs|by intros c []]).
  assert (Hf : Forall (λ c, slash_free c = true) cs) by (eapply Forall_impl; [exact Hcs|by intros c []]).
  pose proof (split_join cs Hne Hf) as Hs. unfold path_Join. rewrite filter_all.
  2: { intros c Hc. rewrite Forall_forall in Hp. by destruct (Hp c Hc). }
  destruct cs as [|c cs]; [done|]. set (l := c :: cs) in *.
  destruct (path_Clean_fixpoint (join_slash l)) as [_ H]; [apply plain_not_absolute; by rewrite Hs|].
  destruct H as (-> & _ & _); [right; by rewrite Hs|done].
Qed.

Ltac elements :=
  repeat apply Forall_cons_2; try apply Forall_nil_2; try apply zip_element; try (by apply external_id_element);
  by split; [split_and!|].

Lemma bundleObjectKey_split t d :
  externalIDPattern t = true → split_slash (bundleObjectKey t d) = ["external"; t; "sha256"; hex_encode d +:+ ".zip"].
Proof.
  intros Ht. apply path_Join_plain; [done|]. by elements.
Qed.

Lemma stagingBundleObjectKey_split t u d :
  externalIDPattern t = true → externalIDPattern u = true →
  split_slash (stagingBundleObjectKey t u d) = ["external-staging"; t; u; hex_encode d +:+ ".zip"].
Proof.
  intros Ht Hu. apply path_Join_plain; [done|]. by elements.
Qed.

Lemma bundleObjectKey_inj t t' d d' :
  externalIDPattern t = true → externalIDPattern t' = true → bundleObjectKey t d = bundleObjectKey t' d' → t = t' ∧ d = d'.
Proof.
  intros Ht Ht' E. apply (f_equal split_slash) in E. rewrite !bundleObjectKey_split in E by done. injection E as -> E.
  split; [done|]. by apply hex_encode_inj, (append_suffix_inj _ _ ".zip").
Qed.

Lemma final_key_not_staging t d : externalIDPattern t = true → validBundleStagingGCKey (bundleObjectKey t d) = false.
Proof. intros Ht. unfold validBundleStagingGCKey. by rewrite bundleObjectKey_split. Qed.

(** The upload that a staging key names. *)
Definition upload_of (key : string) : option string :=
  match split_slash key with [_; _; u; _] => Some u | _ => None end.

Lemma valid_staging_key t key d :
  externalIDPattern t = true → len d = 32 → validStagingObjectKey t key (hex_encode d) = true →
  validBundleStagingGCKey key = true ∧ ∃ u, upload_of key = Some u ∧ key = stagingBundleObjectKey t u d ∧ externalIDPattern u = true.
Proof.
  intros Ht Hd. unfold validStagingObjectKey, validBundleStagingGCKey, upload_of.
  destruct (split_slash key) as [|p0 [|p1 [|p2 [|p3 [|]]]]] eqn:E; try done. intros. bool_to_prop. subst.
  assert (E' : key = stagingBundleObjectKey t p2 d).
  { rewrite <-(join_split key), E, <-(stagingBundleObjectKey_split t p2 d) by done. apply join_split. }
  split; [|by exists p2].
  rewrite bool_decide_true, Ht by done. cbn [andb].
  assert (Hz : String.length (hex_encode d +:+ ".zip") = (String.length (hex_encode d) + 4)%nat) by apply string_length_append.
  assert (Hsuf : has_suffix ".zip" (hex_encode d +:+ ".zip") = true).
  { unfold has_suffix. rewrite Hz. change (String.length ".zip") with 4%nat. rewrite andb_true_iff, bool_decide_eq_true. split.
    - apply Nat.leb_le. lia.
    - replace (String.length (hex_encode d) + 4 - 4)%nat with (String.length (hex_encode d)) by lia. by apply sdrop_append. }
  unfold trim_suffix. rewrite Hsuf, Hz. change (String.length ".zip") with 4%nat.
  replace (String.length (hex_encode d) + 4 - 4)%nat with (String.length (hex_encode d)) by lia.
  rewrite stake_append by done. unfold lower_digest. rewrite hex_decode_encode, Hd, to_lower_hex_encode, bool_decide_true by done.
  rewrite H1. done.
Qed.

Lemma staging_key_valid t u d :
  externalIDPattern t = true → externalIDPattern u = true →
  validStagingObjectKey t (stagingBundleObjectKey t u d) (hex_encode d) = true.
Proof.
  intros Ht Hu. unfold validStagingObjectKey. rewrite stagingBundleObjectKey_split by done.
  by rewrite !bool_decide_true, Hu by done.
Qed.

(** ** The invariant *)
Section Safety.
Context (json_policy : string → option TenantPolicy) (json_manifest : string → option Manifest)
        (metadata_json : BundleMetadata → string) (json_metadata : string → option BundleMetadata)
        (datetime3 : Z → Z) (sha256 : string → string) (grace drift : Z) (uploadable : string → Prop).
Context (sha256_length : ∀ s, len (sha256 s) = 32) (json_roundtrip : ∀ m, json_metadata (metadata_json m) = Some m).

(** The columns of a bundle that no transaction changes. *)
Definition identity (r : publication_row) : string * Z * string * string * Z * Z * Z * string * Z :=
  (pb_ExternalID r, pb_Tenant r, pb_SHA256 r, pb_ObjectKey r, pb_SizeBytes r, pb_CaseCount r, pb_ManifestVersion r,
   pb_ManifestJSON r, pb_CreatedAt r).

Definition owner (key : string) (w : bundle_world) : option nat := u ← upload_of key; bw_Issued w !! u.

(** The upload that staged a key can no longer commit it. *)
Definition expired (key : string) (w : bundle_world) : Prop :=
  ∃ i began, owner key w = Some i ∧ bw_Began w !! i = Some began ∧ began + maximumBundleOperationTimeout + grace < bw_Now w.

Definition live (key : string) (w : bundle_world) : Prop :=
  ∃ b r, bd_Bundles (bw_DB w) !! b = Some r ∧ pb_StagingKey r = Some key ∧ publication_open r = true.

(** Nobody will need the staging object any more. *)
Definition finished (key : string) (w : bundle_world) : Prop := ¬ live key w ∧ (key ∈ bw_Committed w ∨ expired key w).

Definition holds (digest : string) (size : Z) (o : bundle_object) : Prop :=
  sha256 (ob_Content o) = digest ∧ len (ob_Content o) = size ∧ ob_SHA256 o = hex_encode digest.

(** The constraints of the table, as the code keeps them. *)
Definition status_ok (r : publication_row) : Prop :=
  match pb_Status r with
  | BundlePublicationPending => pb_LeaseToken r = None ∧ pb_LeaseUntil r = None ∧ pb_ReadyAt r = None ∧ pb_AbandonedAt r = None
  | BundlePublicationPublishing =>
      is_Some (pb_LeaseToken r) ∧ is_Some (pb_LeaseUntil r) ∧ pb_ReadyAt r = None ∧ pb_AbandonedAt r = None ∧ 0 < pb_AttemptCount r
  | BundlePublicationReady => pb_LeaseToken r = None ∧ pb_LeaseUntil r = None ∧ is_Some (pb_ReadyAt r) ∧ pb_AbandonedAt r = None
  | BundlePublicationAbandoned =>
      pb_LeaseToken r = None ∧ pb_LeaseUntil r = None ∧ pb_ReadyAt r = None ∧ is_Some (pb_AbandonedAt r)
  end.

(** The metadata of an upload as its row keeps it. *)
Definition rounded (metadata : BundleMetadata) : BundleMetadata :=
  mkBundleMetadata (bm_BundleID metadata) (bm_SHA256 metadata) (bm_SizeBytes metadata) (bm_CaseCount metadata)
    (bm_ManifestVersion metadata) (datetime3 (bm_CreatedAt metadata)).

Record row_ok (w : bundle_world) (r : publication_row) : Prop := {
  ro_tenant : ∃ t key, bd_Tenants (bw_DB w) !! pb_Tenant r = Some t ∧ externalIDPattern (tn_ExternalID t) = true ∧
    pb_ObjectKey r = bundleObjectKey (tn_ExternalID t) (pb_SHA256 r) ∧ pb_StagingKey r = Some key ∧
    validStagingObjectKey (tn_ExternalID t) key (hex_encode (pb_SHA256 r)) = true;
  ro_metadata : len (pb_SHA256 r) = 32 ∧ validBundleMetadata (row_metadata r) = true;
  ro_created : datetime3 (pb_CreatedAt r) = pb_CreatedAt r;
  ro_issued : is_Some (bw_Issued w !! pb_ExternalID r);
  ro_kept : pb_DeletedAt r = None ∧ pb_DeleteMarkedAt r = None;
  ro_attempts : 0 ≤ pb_AttemptCount r;
  ro_token : ∀ token, pb_LeaseToken r = Some token → externalIDPattern token = true;
  ro_status : status_ok r
}.

Definition record_ok (bundles : gmap Z publication_row) (tenant : Z) (record : upload_row) : Prop :=
  ∃ b r metadata, bundles !! b = Some r ∧ pb_Tenant r = tenant ∧ pb_ExternalID r = ul_ResourceExternalID record ∧
    pb_SHA256 r = ul_RequestHash record ∧ ul_ResponseJSON record = metadata_json metadata ∧ rounded metadata = row_metadata r.

(** The unique keys, and that no two rows share a staging object. *)
Record rows_unique (bundles : gmap Z publication_row) : Prop := {
  ru_id : ∀ b1 b2 r1 r2, bundles !! b1 = Some r1 → bundles !! b2 = Some r2 → pb_ExternalID r1 = pb_ExternalID r2 → b1 = b2;
  ru_digest : ∀ b1 b2 r1 r2, bundles !! b1 = Some r1 → bundles !! b2 = Some r2 → pb_Tenant r1 = pb_Tenant r2 →
    pb_SHA256 r1 = pb_SHA256 r2 → b1 = b2;
  ru_staging : ∀ b1 b2 r1 r2 key, bundles !! b1 = Some r1 → bundles !! b2 = Some r2 → pb_StagingKey r1 = Some key →
    pb_StagingKey r2 = Some key → b1 = b2
}.

Record inv (w : bundle_world) : Prop := {
  i_tenants : ∀ k1 k2 r1 r2, bd_Tenants (bw_DB w) !! k1 = Some r1 → bd_Tenants (bw_DB w) !! k2 = Some r2 →
    tn_ExternalID r1 = tn_ExternalID r2 → k1 = k2;
  i_rows : ∀ b r, bd_Bundles (bw_DB w) !! b = Some r → row_ok w r;
  i_unique : rows_unique (bd_Bundles (bw_DB w));
  i_records : ∀ tenant key record, bd_Uploads (bw_DB w) !! (tenant, key) = Some record →
    record_ok (bd_Bundles (bw_DB w)) tenant record;
  i_now : millisecond < bw_Now w;
  i_began : ∀ i began, bw_Began w !! i = Some began → began ≤ bw_Now w;
  i_issued : ∀ u i, bw_Issued w !! u = Some i → is_Some (bw_Began w !! i);
  i_committed : ∀ key, key ∈ bw_Committed w → validBundleStagingGCKey key = true ∧ is_Some (owner key w);
  i_keys : ∀ b r key, bd_Bundles (bw_DB w) !! b = Some r → pb_StagingKey r = Some key → key ∈ bw_Committed w;
  i_objects : ∀ key o, bw_Objects w !! key = Some o → ob_SHA256 o = hex_encode (sha256 (ob_Content o));
  i_staging : ∀ key o, bw_Objects w !! key = Some o → validBundleStagingGCKey key = true →
    ∃ i began, owner key w = Some i ∧ bw_Began w !! i = Some began ∧ began - drift ≤ ob_LastModified o;
  i_staged : ∀ b r key o, bd_Bundles (bw_DB w) !! b = Some r → pb_StagingKey r = Some key → bw_Objects w !! key = Some o →
    holds (pb_SHA256 r) (pb_SizeBytes r) o;
  i_live : ∀ b r key, bd_Bundles (bw_DB w) !! b = Some r → pb_StagingKey r = Some key → publication_open r = true →
    is_Some (bw_Objects w !! key);
  i_final : ∀ b r o, bd_Bundles (bw_DB w) !! b = Some r → bw_Objects w !! pb_ObjectKey r = Some o →
    holds (pb_SHA256 r) (pb_SizeBytes r) o;
  i_ready : ∀ b r, bd_Bundles (bw_DB w) !! b = Some r → pb_Status r = BundlePublicationReady →
    is_Some (bw_Objects w !! pb_ObjectKey r);
  i_content : ∀ b r, bd_Bundles (bw_DB w) !! b = Some r →
    ∃ content, uploadable content ∧ sha256 content = pb_SHA256 r ∧ len content = pb_SizeBytes r;
  i_owned : ∀ key o, bw_Objects w !! key = Some o → validBundleStagingGCKey key = false →
    ∃ b r, bd_Bundles (bw_DB w) !! b = Some r ∧ pb_ObjectKey r = key
}.

(** ** What a thread guarantees *)
Record guarantee (j : nat) (w w' : bundle_world) : Prop := {
  g_now : bw_Now w' = bw_Now w;
  g_began : bw_Began w' = bw_Began w;
  g_issued : ∀ u i, bw_Issued w !! u = Some i → bw_Issued w' !! u = Some i;
  g_tenants : bd_Tenants (bw_DB w') = bd_Tenants (bw_DB w);
  g_rows : ∀ b r, bd_Bundles (bw_DB w) !! b = Some r → ∃ r', bd_Bundles (bw_DB w') !! b = Some r' ∧
    identity r' = identity r ∧ (pb_Status r = BundlePublicationReady → pb_Status r' = BundlePublicationReady);
  g_committed : bw_Committed w ⊆ bw_Committed w';
  g_new : ∀ key, key ∈ bw_Committed w' → key ∉ bw_Committed w → owner key w = Some j ∧ ¬ expired key w;
  g_live : ∀ key, key ∈ bw_Committed w → live key w' → live key w;
  g_moves : ∀ b r' key, key ∈ bw_Committed w → bd_Bundles (bw_DB w') !! b = Some r' → pb_StagingKey r' = Some key →
    ∃ r, bd_Bundles (bw_DB w) !! b = Some r ∧ pb_StagingKey r = Some key;
  g_final : ∀ key o, validBundleStagingGCKey key = false → bw_Objects w !! key = Some o → is_Some (bw_Objects w' !! key);
  g_staging : ∀ key o, validBundleStagingGCKey key = true → bw_Objects w !! key = Some o →
    bw_Objects w' !! key = Some o ∨ (owner key w = Some j ∧ key ∉ bw_Committed w) ∨
    (bw_Objects w' !! key = None ∧ finished key w);
  g_put : ∀ key o, validBundleStagingGCKey key = true → bw_Objects w' !! key = Some o →
    bw_Objects w !! key = Some o ∨ (owner key w = Some j ∧ key ∉ bw_Committed w)
}.

(** What thread [i] can rely on: the same of the others, and of the environment. *)
Record relied (i : nat) (w w' : bundle_world) : Prop := {
  l_now : bw_Now w ≤ bw_Now w';
  l_began : ∀ j began, bw_Began w !! j = Some began → bw_Began w' !! j = Some began;
  l_issued : ∀ u j, bw_Issued w !! u = Some j → bw_Issued w' !! u = Some j;
  l_tenants : ∀ k t, bd_Tenants (bw_DB w) !! k = Some t → ∃ t', bd_Tenants (bw_DB w') !! k = Some t' ∧ tn_ExternalID t' = tn_ExternalID t;
  l_rows : ∀ b r, bd_Bundles (bw_DB w) !! b = Some r → ∃ r', bd_Bundles (bw_DB w') !! b = Some r' ∧
    identity r' = identity r ∧ (pb_Status r = BundlePublicationReady → pb_Status r' = BundlePublicationReady);
  l_committed : bw_Committed w ⊆ bw_Committed w';
  l_new : ∀ key, key ∈ bw_Committed w' → key ∉ bw_Committed w → owner key w ≠ Some i ∧ ¬ expired key w;
  l_live : ∀ key, key ∈ bw_Committed w → live key w' → live key w;
  l_moves : ∀ b r' key, key ∈ bw_Committed w → bd_Bundles (bw_DB w') !! b = Some r' → pb_StagingKey r' = Some key →
    ∃ r, bd_Bundles (bw_DB w) !! b = Some r ∧ pb_StagingKey r = Some key;
  l_final : ∀ key o, validBundleStagingGCKey key = false → bw_Objects w !! key = Some o → is_Some (bw_Objects w' !! key);
  l_staging : ∀ key o, validBundleStagingGCKey key = true → owner key w = Some i ∨ key ∈ bw_Committed w →
    bw_Objects w !! key = Some o → bw_Objects w' !! key = Some o ∨ (bw_Objects w' !! key = None ∧ finished key w);
  l_put : ∀ key o, validBundleStagingGCKey key = true → owner key w = Some i ∨ key ∈ bw_Committed w →
    bw_Objects w' !! key = Some o → bw_Objects w !! key = Some o
}.

Notation rely := (Programs.rely environment guarantee).
Notation stable := (Programs.stable environment inv guarantee).

Lemma rely_relied i w w' : rely i w w' → relied i w w'.
Proof.
  intros [He|(j & Hj & [Gn Gb Gi Gt Gr Gc Gw Gl Gm Gf Gs Gp])].
  - assert (Hid : ∀ r, ∃ r', Some r = Some r' ∧ identity r' = identity r ∧
              (pb_Status r = BundlePublicationReady → pb_Status r' = BundlePublicationReady)) by (intros r; by exists r).
    destruct He as [now Hnow|t [Ht _]|uploads _|k Hk]; split; cbn; try done; try (by intros; left); try (by intros b r ->; apply Hid); try (by intros b r key _ Hb Hk'; exists r).
    + intros k t Hk. by exists t.
    + intros k t Hk. by exists t.
    + intros j began Hj. rewrite lookup_insert_ne; [done|]. intros ->. congruence.
    + intros k' t Hk'. by exists t.
  - split; try done; try lia.
    + intros k t0 Hb. by rewrite Gb.
    + intros k t Hk. exists t. by rewrite Gt.
    + intros key Hk' Hn. destruct (Gw key Hk' Hn) as [E ?]. split; [|done]. rewrite E. by intros [= ->].
    + intros key o Hv Hor Ho. destruct (Gs key o Hv Ho) as [?|[[E Hn]|?]]; [by left| |by right].
      destruct Hor as [E'|?]; [|done]. rewrite E in E'. injection E' as ->. done.
    + intros key o Hv Hor Ho. destruct (Gp key o Hv Ho) as [?|[E Hn]]; [done|].
      destruct Hor as [E'|?]; [|done]. rewrite E in E'. injection E' as ->. done.
Qed.

(** ** Facts that keep *)
Lemma owner_mono w w' key i :
  (∀ u j, bw_Issued w !! u = Some j → bw_Issued w' !! u = Some j) → owner key w = Some i → owner key w' = Some i.
Proof. unfold owner. intros H. destruct (upload_of key) as [u|]; [|done]. apply H. Qed.

Lemma expired_relied i w w' key : relied i w w' → expired key w → expired key w'.
Proof.
  intros H (j & b & Ho & Hb & Hl). exists j, b. split_and!; [by eapply owner_mono; [apply (l_issued _ _ _ H)|]|by apply (l_began _ _ _ H)|].
  pose proof (l_now _ _ _ H). lia.
Qed.

Lemma finished_relied i w w' key : inv w' → relied i w w' → finished key w → finished key w'.
Proof.
  intros Hw' H [Hl Hor]. assert (Hc : key ∈ bw_Committed w ∨ key ∉ bw_Committed w) by (destruct (decide (key ∈ bw_Committed w)); auto).
  split.
  - intros Hl'. destruct Hc as [Hc|Hc]; [by apply Hl, (l_live _ _ _ H)|].
    destruct Hl' as (b & r & Hb & Hs & _). pose proof (i_keys _ Hw' _ _ _ Hb Hs) as Hc'.
    destruct (l_new _ _ _ H key Hc' Hc) as [_ Hne]. destruct Hor as [?|He]; [done|]. by apply Hne.
  - destruct Hor as [?|He]; [left; by apply (l_committed _ _ _ H)|right; by eapply expired_relied].
Qed.

Definition known (b : Z) (r0 : publication_row) (w : bundle_world) : Prop :=
  ∃ r, bd_Bundles (bw_DB w) !! b = Some r ∧ identity r = identity r0.

Definition ready (b : Z) (r0 : publication_row) (w : bundle_world) : Prop :=
  ∃ r, bd_Bundles (bw_DB w) !! b = Some r ∧ identity r = identity r0 ∧ pb_Status r = BundlePublicationReady.

Definition present (key : string) (w : bundle_world) : Prop :=
  validBundleStagingGCKey key = false ∧ is_Some (bw_Objects w !! key).

(** An upload's own staging object, before its commit. *)
Definition staged (i : nat) (key content : string) (w : bundle_world) : Prop :=
  owner key w = Some i ∧ key ∉ bw_Committed w ∧ validBundleStagingGCKey key = true ∧
  (expired key w ∨ ∃ o, bw_Objects w !! key = Some o ∧ ob_Content o = content).

(** The staging object of a claim, while there is one. *)
Definition claimable (key digest : string) (size : Z) (w : bundle_world) : Prop :=
  key ∈ bw_Committed w ∧ validBundleStagingGCKey key = true ∧ ∀ o, bw_Objects w !! key = Some o → holds digest size o.

(** A key that was ever committed stays with the row that took it. *)
Definition only (b : Z) (key : string) (w : bundle_world) : Prop :=
  key ∈ bw_Committed w ∧ ∀ b' r', bd_Bundles (bw_DB w) !! b' = Some r' → pb_StagingKey r' = Some key → b' = b.

Lemma only_stable i b key : stable i (only b key).
Proof.
  intros w w' _ _ H%rely_relied [Hc Ho]. split; [by apply (l_committed _ _ _ H)|]. intros b' r' Hb Hk.
  destruct (l_moves _ _ _ H b' r' key Hc Hb Hk) as (r & Hr & Hk'). by eapply Ho.
Qed.

Lemma issued_stable i u j : stable i (λ w, bw_Issued w !! u = Some j).
Proof. intros w w' _ _ H%rely_relied. apply (l_issued _ _ _ H). Qed.

Lemma known_stable i b r0 : stable i (known b r0).
Proof.
  intros w w' _ _ H%rely_relied (r & Hb & Hr). destruct (l_rows _ _ _ H _ _ Hb) as (r' & Hb' & Hr' & _).
  exists r'. split; [done|congruence].
Qed.

Lemma ready_stable i b r0 : stable i (ready b r0).
Proof.
  intros w w' _ _ H%rely_relied (r & Hb & Hr & Hs). destruct (l_rows _ _ _ H _ _ Hb) as (r' & Hb' & Hr' & Hk).
  exists r'. split_and!; [done|congruence|auto].
Qed.

Lemma present_stable i key : stable i (present key).
Proof. intros w w' _ _ H%rely_relied [Hv [o Ho]]. split; [done|]. by eapply (l_final _ _ _ H). Qed.

Lemma finished_stable i key : stable i (finished key).
Proof. intros w w' _ Hw' H%rely_relied. by apply (finished_relied i). Qed.

Lemma expired_stable i key : stable i (expired key).
Proof. intros w w' _ _ H%rely_relied. by apply (expired_relied i). Qed.

Lemma staged_stable i key content : stable i (staged i key content).
Proof.
  intros w w' _ _ H%rely_relied (Ho & Hn & Hv & Hor). split_and!; [by eapply owner_mono; [apply (l_issued _ _ _ H)|]| |done|].
  - intros Hc. by destruct (l_new _ _ _ H key Hc Hn).
  - destruct Hor as [He|(o & Hob & Hcont)]; [left; by eapply expired_relied|].
    destruct (l_staging _ _ _ H key o Hv ltac:(by left) Hob) as [?|(_ & _ & [?|?])]; [right; by exists o|done|].
    left. by eapply expired_relied.
Qed.

Lemma claimable_stable i key digest size : stable i (claimable key digest size).
Proof.
  intros w w' _ _ H%rely_relied (Hc & Hv & Ho). split_and!; [by apply (l_committed _ _ _ H)|done|].
  intros o Ho'. apply Ho. by eapply (l_put _ _ _ H); [|right|].
Qed.

(** ** The environment *)
Lemma row_ok_mono w w' r :
  row_ok w r → (∀ u j, bw_Issued w !! u = Some j → bw_Issued w' !! u = Some j) →
  (∀ k t, bd_Tenants (bw_DB w) !! k = Some t → ∃ t', bd_Tenants (bw_DB w') !! k = Some t' ∧ tn_ExternalID t' = tn_ExternalID t) →
  row_ok w' r.
Proof.
  intros [(t & key & Ht & ? & Hk & ? & ?) ? ? [i Hi] ? ? ? ?] Hiss Hten. split; try done; [|exists i; by apply Hiss].
  destruct (Hten _ _ Ht) as (t' & Ht' & E). exists t', key. by rewrite E.
Qed.

Lemma environment_ok w w' : inv w → environment w w' → inv w'.
Proof.
  intros Hw He. pose proof Hw as [It Ir Iu Irec Inow Ib Ii Ic Ik Io Ist Isd Il If Iy Icon Iown].
  destruct He as [now Hnow|t [Ht Huniq]|uploads Hsub|k Hk]; split; cbn; try done.
  - intros b r Hb. eapply row_ok_mono; [by eapply Ir|done|]. intros k t Hk. by exists t.
  - lia.
  - intros i b Hb. pose proof (Ib i b Hb). lia.
  - intros b r Hb. eapply row_ok_mono; [by eapply Ir|done|done].
  - intros b r Hb. eapply row_ok_mono; [by eapply Ir|done|]. intros k t Hk. by exists t.
  - intros tenant key record Hr. eapply Irec, lookup_weaken; [exact Hr|exact Hsub].
  - intros b r Hb. eapply row_ok_mono; [by eapply Ir|done|]. intros k' t Hk'. by exists t.
  - intros i b [[<- <-]|[_ Hb]]%lookup_insert_Some; [lia|by eapply Ib].
  - intros u i Hu. destruct (Ii u i Hu) as [b Hb]. exists b. rewrite lookup_insert_ne; [done|congruence].
  - intros key o Ho Hv. destruct (Ist key o Ho Hv) as (i & b & Hi & Hb & Hm). exists i, b. split_and!; try done.
    rewrite lookup_insert_ne; [done|congruence].
Qed.

(** ** Writing rows *)
Lemma elem_of_staging_keys d key :
  key ∈ staging_keys d ↔ ∃ b r, bd_Bundles d !! b = Some r ∧ pb_StagingKey r = Some key.
Proof.
  unfold staging_keys. rewrite elem_of_list_to_set, list_elem_of_omap. split.
  - intros ([b r] & Hb%elem_of_map_to_list & Hk). by exists b, r.
  - intros (b & r & Hb & Hk). exists (b, r). split; [by apply elem_of_map_to_list|done].
Qed.

(** A row that takes a staging object of thread [j] for the first time. *)
Definition takes_staging (j : nat) (w : bundle_world) (r' : publication_row) : Prop :=
  ∃ key o, pb_StagingKey r' = Some key ∧ key ∉ bw_Committed w ∧ validBundleStagingGCKey key = true ∧ owner key w = Some j ∧
    ¬ expired key w ∧ pb_Status r' ≠ BundlePublicationReady ∧ bw_Objects w !! key = Some o ∧ holds (pb_SHA256 r') (pb_SizeBytes r') o.

(** A row that keeps what it had, and becomes ready only over its final object. *)
Definition keeps_staging (w : bundle_world) (r r' : publication_row) : Prop :=
  pb_StagingKey r' = pb_StagingKey r ∧ (publication_open r' = true → publication_open r = true) ∧
  (pb_Status r' = BundlePublicationReady → pb_Status r = BundlePublicationReady ∨ is_Some (bw_Objects w !! pb_ObjectKey r)).

Lemma identity_eq r r' : identity r' = identity r →
  pb_ExternalID r' = pb_ExternalID r ∧ pb_Tenant r' = pb_Tenant r ∧ pb_SHA256 r' = pb_SHA256 r ∧ pb_ObjectKey r' = pb_ObjectKey r ∧
  pb_SizeBytes r' = pb_SizeBytes r ∧ row_metadata r' = row_metadata r.
Proof. unfold identity, row_metadata. intros [= -> -> -> -> -> -> -> _ ->]. done. Qed.

Lemma db_write_ok j w bundles' uploads' :
  inv w →
  (∀ b r, bd_Bundles (bw_DB w) !! b = Some r → ∃ r', bundles' !! b = Some r' ∧ identity r' = identity r ∧
     (pb_Status r = BundlePublicationReady → pb_Status r' = BundlePublicationReady)) →
  (∀ b r', bundles' !! b = Some r' → row_ok w r' ∧
     ((∃ r, bd_Bundles (bw_DB w) !! b = Some r ∧ identity r' = identity r ∧ keeps_staging w r r') ∨ takes_staging j w r') ∧
     ∀ o, bw_Objects w !! pb_ObjectKey r' = Some o → holds (pb_SHA256 r') (pb_SizeBytes r') o) →
  (∀ b r', bundles' !! b = Some r' → ∃ content, uploadable content ∧ sha256 content = pb_SHA256 r' ∧ len content = pb_SizeBytes r') →
  rows_unique bundles' →
  (∀ tenant key record, uploads' !! (tenant, key) = Some record → record_ok bundles' tenant record) →
  let w' := with_db (mkBundleDb (bd_Tenants (bw_DB w)) bundles' uploads') w in
  inv w' ∧ guarantee j w w'.
Proof.
  intros Hw Hrows Hok Hcontent Huniq Hrec w'. pose proof Hw as [It Ir Iu Irec Inow Ib Ii Ic Ik Io Ist Isd Il If Iy Icon Iown].
  assert (Hkeys : ∀ b r' key, bundles' !! b = Some r' → pb_StagingKey r' = Some key →
            (∃ r, bd_Bundles (bw_DB w) !! b = Some r ∧ identity r' = identity r ∧ pb_StagingKey r = Some key ∧ key ∈ bw_Committed w ∧
               (publication_open r' = true → publication_open r = true)) ∨
            key ∉ bw_Committed w ∧ validBundleStagingGCKey key = true ∧ owner key w = Some j ∧ ¬ expired key w ∧
              ∃ o, bw_Objects w !! key = Some o ∧ holds (pb_SHA256 r') (pb_SizeBytes r') o).
  { intros b r' key Hb Hk. destruct (Hok b r' Hb) as (_ & [(r & Hr & Hid & Hs & Hopen & _)|(k & o & Hk' & ? & ? & ? & ? & _ & ? & ?)] & _).
    - left. exists r. rewrite <-Hs. split_and!; try done. eapply Ik; [exact Hr|congruence].
    - right. assert (k = key) by congruence. subst. split_and!; try done. by exists o. }
  split.
  - split; cbn; try done.
    + intros b r' Hb. destruct (Hok b r' Hb) as [Hr _]. eapply row_ok_mono; [exact Hr|done|]. intros k t Hk. by exists t.
    + intros key. rewrite elem_of_union, elem_of_staging_keys. cbn. intros [Hc|(b & r' & Hb & Hk)]; [by apply Ic|].
      destruct (Hkeys b r' key Hb Hk) as [(r & _ & _ & _ & Hc & _)|(_ & Hv & Ho & _)]; [by apply Ic|]. split; [done|by exists j].
    + intros b r' key Hb Hk. apply elem_of_union_r, elem_of_staging_keys. by exists b, r'.
    + intros b r' key o Hb Hk Ho. destruct (Hkeys b r' key Hb Hk) as [(r & Hr & Hid & Hs & _)|(_ & _ & _ & _ & o' & Ho' & Hh)].
      * apply identity_eq in Hid as (_ & _ & -> & _ & -> & _). by eapply Isd.
      * rewrite Ho in Ho'. by injection Ho' as ->.
    + intros b r' key Hb Hk Hopen. destruct (Hkeys b r' key Hb Hk) as [(r & Hr & _ & Hs & _ & Hop)|(_ & _ & _ & _ & o' & Ho' & _)];
        [eapply Il; eauto|by exists o'].
    + intros b r' o Hb. by apply (Hok b r' Hb).
    + intros b r' Hb Hready. destruct (Hok b r' Hb) as (_ & [(r & Hr & Hid & _ & _ & Hto)|(? & ? & ? & ? & ? & ? & ? & Hn & _)] & _); [|done].
      apply identity_eq in Hid as (_ & _ & _ & -> & _). destruct (Hto Hready) as [?|?]; [by eapply Iy|done].
    + intros key o Ho Hv. destruct (Iown key o Ho Hv) as (b & r & Hb & Hkey). destruct (Hrows b r Hb) as (r' & Hb' & Hid & _).
      apply identity_eq in Hid as (_ & _ & _ & E & _). exists b, r'. by rewrite E.
  - split; cbn; try done.
    + apply union_subseteq_l.
    + intros key. rewrite elem_of_union, elem_of_staging_keys. cbn. intros [?|(b & r' & Hb & Hk)] Hn; [done|].
      destruct (Hkeys b r' key Hb Hk) as [(r & _ & _ & _ & Hc & _)|(_ & _ & Ho & He & _)]; done.
    + intros key Hc (b & r' & Hb & Hk & Hopen). cbn in Hb.
      destruct (Hkeys b r' key Hb Hk) as [(r & Hr & _ & Hs & _ & Hop)|(Hn & _)]; [|done]. exists b, r. auto.
    + intros b r' key Hc Hb Hk. destruct (Hkeys b r' key Hb Hk) as [(r & Hr & _ & Hs & _)|(Hn & _)]; [|done]. by exists r.
    + intros key o _ Ho. by left.
    + intros key o _ Ho. by left.
Qed.

Lemma record_ok_kept bundles bundles' tenant record :
  (∀ b r, bundles !! b = Some r → ∃ r', bundles' !! b = Some r' ∧ identity r' = identity r) →
  record_ok bundles tenant record → record_ok bundles' tenant record.
Proof.
  intros Hk (b & r & m & Hb & Ht & Hi & Hs & Hj). destruct (Hk b r Hb) as (r' & Hb' & Hid).
  apply identity_eq in Hid as (E1 & E2 & E3 & _ & _ & E4). exists b, r', m. rewrite E1, E2, E3, E4. done.
Qed.

(** One row changes, keeping its identity. *)
Lemma update_row_ok j w b r r' uploads' :
  inv w → bd_Bundles (bw_DB w) !! b = Some r → identity r' = identity r → row_ok w r' →
  (pb_Status r = BundlePublicationReady → pb_Status r' = BundlePublicationReady) →
  keeps_staging w r r' ∨ takes_staging j w r' →
  (∀ tenant key record, uploads' !! (tenant, key) = Some record →
     bd_Uploads (bw_DB w) !! (tenant, key) = Some record ∨ record_ok (bd_Bundles (bw_DB w)) tenant record) →
  let w' := with_db (mkBundleDb (bd_Tenants (bw_DB w)) (<[b := r']> (bd_Bundles (bw_DB w))) uploads') w in
  inv w' ∧ guarantee j w w'.
Proof.
  intros Hw Hb Hid Hrow Hready Hst Hup. pose proof Hw as [It Ir Iu Irec Inow Ib Ii Ic Ik Io Ist Isd Il If Iy Icon Iown].
  pose proof (identity_eq _ _ Hid) as (E1 & E2 & E3 & E4 & E5 & E6).
  assert (Hkept : ∀ b0 r0, bd_Bundles (bw_DB w) !! b0 = Some r0 → ∃ r1, <[b := r']> (bd_Bundles (bw_DB w)) !! b0 = Some r1 ∧
            identity r1 = identity r0 ∧ (pb_Status r0 = BundlePublicationReady → pb_Status r1 = BundlePublicationReady)).
  { intros b0 r0 H0. destruct (decide (b0 = b)) as [->|Hne].
    - assert (r0 = r) by congruence. subst. exists r'. rewrite lookup_insert_eq. done.
    - exists r0. by rewrite lookup_insert_ne. }
  apply db_write_ok; try done.
  - intros b0 r0 [[<- <-]|[Hne H0]]%lookup_insert_Some.
    + split_and!; [done| |].
      * destruct Hst as [?|?]; [left; by exists r|by right].
      * rewrite E3, E4, E5. intros o. by apply If with b.
    + split_and!; [by eapply Ir| |intros o; by apply If with b0]. left. exists r0. split_and!; try done. split; [done|split; auto].
  - intros b0 r0 [[<- <-]|[_ H0]]%lookup_insert_Some; [rewrite E3, E5|]; by eapply Icon.
  - assert (Hsk : ∀ b0 r0 key, b0 ≠ b → bd_Bundles (bw_DB w) !! b0 = Some r0 → pb_StagingKey r0 = Some key → pb_StagingKey r' = Some key → False).
    { intros b0 r0 key Hne H0 Hk0 Hk'. destruct Hst as [[Es _]|(k & o & Hk & Hn & _)].
      - apply Hne. eapply (ru_staging _ Iu); [exact H0|exact Hb|exact Hk0|congruence].
      - apply Hn. eapply Ik; [exact H0|congruence]. }
    split.
    + intros b1 b2 r1 r2 [[<- <-]|[H1 ?]]%lookup_insert_Some [[<- <-]|[H2 ?]]%lookup_insert_Some; try done; rewrite ?E1; intros E;
        (by eapply (ru_id _ Iu)).
    + intros b1 b2 r1 r2 [[<- <-]|[H1 ?]]%lookup_insert_Some [[<- <-]|[H2 ?]]%lookup_insert_Some; try done; rewrite ?E2, ?E3; intros E E';
        (by eapply (ru_digest _ Iu)).
    + intros b1 b2 r1 r2 key [[<- <-]|[H1 ?]]%lookup_insert_Some [[<- <-]|[H2 ?]]%lookup_insert_Some; try done; intros K1 K2.
      * by destruct (Hsk b2 r2 key).
      * by destruct (Hsk b1 r1 key).
      * by eapply (ru_staging _ Iu).
  - intros tenant key record Hr. apply (record_ok_kept (bd_Bundles (bw_DB w))).
    + intros b0 r0 H0. destruct (Hkept b0 r0 H0) as (r1 & ? & ? & _). by exists r1.
    + destruct (Hup _ _ _ Hr) as [Hold|?]; [by eapply Irec|done].
Qed.

(** A new row with a staging object of thread [j]. *)
Lemma insert_row_ok j w b r' uploads' :
  inv w → bd_Bundles (bw_DB w) !! b = None → row_ok w r' → takes_staging j w r' → bw_Objects w !! pb_ObjectKey r' = None →
  (∃ content, uploadable content ∧ sha256 content = pb_SHA256 r' ∧ len content = pb_SizeBytes r') →
  (∀ b0 r0, bd_Bundles (bw_DB w) !! b0 = Some r0 → pb_ExternalID r0 ≠ pb_ExternalID r' ∧
     (pb_Tenant r0 = pb_Tenant r' → pb_SHA256 r0 ≠ pb_SHA256 r')) →
  (∀ tenant key record, uploads' !! (tenant, key) = Some record →
     bd_Uploads (bw_DB w) !! (tenant, key) = Some record ∨ record_ok (<[b := r']> (bd_Bundles (bw_DB w))) tenant record) →
  let w' := with_db (mkBundleDb (bd_Tenants (bw_DB w)) (<[b := r']> (bd_Bundles (bw_DB w))) uploads') w in
  inv w' ∧ guarantee j w w'.
Proof.
  intros Hw Hb Hrow Hst Hfin Hcontent Hnew Hup. pose proof Hw as [It Ir Iu Irec Inow Ib Ii Ic Ik Io Ist Isd Il If Iy Icon Iown].
  assert (Hkept : ∀ b0 r0, bd_Bundles (bw_DB w) !! b0 = Some r0 → <[b := r']> (bd_Bundles (bw_DB w)) !! b0 = Some r0).
  { intros b0 r0 H0. rewrite lookup_insert_ne; [done|congruence]. }
  assert (Hsk : ∀ b0 r0 key, bd_Bundles (bw_DB w) !! b0 = Some r0 → pb_StagingKey r0 = Some key → pb_StagingKey r' = Some key → False).
  { intros b0 r0 key H0 Hk0 Hk'. destruct Hst as (k & o & Hk & Hn & _). apply Hn. eapply Ik; [exact H0|congruence]. }
  apply db_write_ok; try done.
  - intros b0 r0 H0. exists r0. auto.
  - intros b0 r0 [[<- <-]|[Hne H0]]%lookup_insert_Some.
    + split_and!; [done|by right|]. intros o Ho. congruence.
    + split_and!; [by eapply Ir| |intros o; by apply If with b0]. left. exists r0. split_and!; try done. split; [done|split; auto].
  - intros b0 r0 [[<- <-]|[_ H0]]%lookup_insert_Some; [done|by eapply Icon].
  - split.
    + intros b1 b2 r1 r2 [[<- <-]|[_ H1]]%lookup_insert_Some [[<- <-]|[_ H2]]%lookup_insert_Some E; try done.
      * by destruct (Hnew _ _ H2) as [[] _].
      * by destruct (Hnew _ _ H1) as [[] _].
      * by eapply (ru_id _ Iu).
    + intros b1 b2 r1 r2 [[<- <-]|[_ H1]]%lookup_insert_Some [[<- <-]|[_ H2]]%lookup_insert_Some E E'; try done.
      * by destruct (Hnew _ _ H2) as [_ []].
      * by destruct (Hnew _ _ H1) as [_ []].
      * by eapply (ru_digest _ Iu).
    + intros b1 b2 r1 r2 key [[<- <-]|[_ H1]]%lookup_insert_Some [[<- <-]|[_ H2]]%lookup_insert_Some K1 K2; try done.
      * by destruct (Hsk b2 r2 key).
      * by destruct (Hsk b1 r1 key).
      * by eapply (ru_staging _ Iu).
  - intros tenant key record Hr. destruct (Hup _ _ _ Hr) as [Hold|?]; [|done]. apply (record_ok_kept (bd_Bundles (bw_DB w))); [|by eapply Irec].
    intros b0 r0 H0. exists r0. auto.
Qed.
End Safety.
