(* ===== verification/BundleEffects.v ===== *)
(** * What the calls of the bundle service do

    The effect of every call on the invariant of [BundleSafety], with the facts
    its caller may keep. *)
From stdpp Require Import prelude gmap strings sorting.
From S2P Require Import Prelude.
From S2P Require Import GoText.
From S2P Require Import Encodings.
From S2P Require Import Programs.
From S2P Require Import Manifest.
From S2P Require Import Store.
From S2P Require Import JobWorker.
From S2P Require Import BundleArchive.
From S2P Require Import BundleCache.
From S2P Require Import CacheSafety.
From S2P Require Import Bundles.
From S2P Require Import BundleService.
From S2P Require Import BundleWorld.
From S2P Require Import BundleSafety.

Open Scope Z_scope.

(** ** Queries *)
Lemma select_row_Some {A} (p : A → bool) (m : gmap Z A) k x : select_row p m = Some (k, x) → m !! k = Some x ∧ p x = true.
Proof.
  unfold select_row. destruct (list_find _ _) as [[n [k' x']]|] eqn:H; [|done]. intros [= -> ->].
  apply list_find_Some in H as (Hn & Hp & _). split; [|done]. apply list_elem_of_lookup_2 in Hn. by apply elem_of_map_to_list in Hn.
Qed.

Lemma select_row_None {A} (p : A → bool) (m : gmap Z A) : select_row p m = None ↔ ∀ k x, m !! k = Some x → p x = false.
Proof.
  unfold select_row. rewrite fmap_None, list_find_None, Forall_forall. split.
  - intros H k x Hk. apply not_true_iff_false. by apply (H (k, x)), elem_of_map_to_list.
  - intros H [k x] Hk%elem_of_map_to_list Hp. cbn in Hp. by rewrite (H k x Hk) in Hp.
Qed.

Lemma select_row_unique {A} (p : A → bool) (m : gmap Z A) k x :
  m !! k = Some x → p x = true → (∀ k' x', m !! k' = Some x' → p x' = true → k' = k) → select_row p m = Some (k, x).
Proof.
  intros Hk Hp Hu. destruct (select_row p m) as [[k' x']|] eqn:H.
  - apply select_row_Some in H as [H1 H2]. pose proof (Hu _ _ H1 H2). subst. congruence.
  - rewrite select_row_None in H. by rewrite (H k x Hk) in Hp.
Qed.

Lemma update_one_ok where_ set e d r' d' :
  update_one where_ set e d = Ok (r', d') ↔
  ∃ b r, select_row where_ (bd_Bundles d) = Some (b, r) ∧ r' = set r ∧ d' = set_bundles (insert b (set r)) d.
Proof. unfold update_one. destruct (select_row _ _) as [[b r]|]; naive_solver. Qed.

Section Effects.
Context (json_policy : string → option TenantPolicy) (json_manifest : string → option Manifest)
        (metadata_json : BundleMetadata → string) (json_metadata : string → option BundleMetadata)
        (datetime3 : Z → Z) (sha256 : string → string) (grace drift : Z) (uploadable : string → Prop).
Context (sha256_length : ∀ s, len (sha256 s) = 32) (json_roundtrip : ∀ m, json_metadata (metadata_json m) = Some m)
        (no_collision : ∀ a b, uploadable a → uploadable b → sha256 a = sha256 b → len a = len b).

Context (datetime3_near : ∀ t, t - millisecond ≤ datetime3 t ≤ t + millisecond)
        (datetime3_idem : ∀ t, datetime3 (datetime3 t) = datetime3 t).

Notation rounded := (rounded datetime3).
Notation row_ok := (row_ok datetime3).
Notation inv := (inv metadata_json datetime3 sha256 drift uploadable).
Notation guarantee := (guarantee grace).
Notation stable := (Programs.stable environment inv guarantee).
Notation holds := (holds sha256).
Notation staged := (staged grace).
Notation expired := (expired grace).
Notation finished := (finished grace).
Notation claimable := (claimable sha256).
Notation takes_staging := (takes_staging sha256 grace).

Lemma guarantee_refl j w : guarantee j w w.
Proof.
  split; try done.
  - intros b r Hb. by exists r.
  - intros b r key _ Hb Hk. by exists r.
  - intros. by left.
  - intros. by left.
Qed.

(** ** Rows *)
Lemma row_tenant w b r : inv w → bd_Bundles (bw_DB w) !! b = Some r →
  ∃ t, bd_Tenants (bw_DB w) !! pb_Tenant r = Some t ∧ externalIDPattern (tn_ExternalID t) = true ∧
    pb_ObjectKey r = bundleObjectKey (tn_ExternalID t) (pb_SHA256 r).
Proof. intros Hw Hb. destruct (ro_tenant _ _ _ (i_rows _ _ _ _ _ _ Hw _ _ Hb)) as (t & key & ? & ? & ? & _). by exists t. Qed.

Lemma row_final w b r : inv w → bd_Bundles (bw_DB w) !! b = Some r → validBundleStagingGCKey (pb_ObjectKey r) = false.
Proof. intros Hw Hb. destruct (row_tenant _ _ _ Hw Hb) as (t & _ & Ht & ->). by apply final_key_not_staging. Qed.

Lemma object_key_unique w b1 b2 r1 r2 :
  inv w → bd_Bundles (bw_DB w) !! b1 = Some r1 → bd_Bundles (bw_DB w) !! b2 = Some r2 → pb_ObjectKey r1 = pb_ObjectKey r2 → b1 = b2.
Proof.
  intros Hw H1 H2 E. destruct (row_tenant _ _ _ Hw H1) as (t1 & Ht1 & Hp1 & E1). destruct (row_tenant _ _ _ Hw H2) as (t2 & Ht2 & Hp2 & E2).
  rewrite E1, E2 in E. apply bundleObjectKey_inj in E as [Et Es]; try done.
  pose proof (i_tenants _ _ _ _ _ _ Hw _ _ _ _ Ht1 Ht2 Et). by eapply (ru_digest _ (i_unique _ _ _ _ _ _ Hw)).
Qed.

Lemma row_staging_key w b r key : inv w → bd_Bundles (bw_DB w) !! b = Some r → pb_StagingKey r = Some key →
  validBundleStagingGCKey key = true ∧ key ∈ bw_Committed w.
Proof. intros Hw Hb Hk. pose proof (i_keys _ _ _ _ _ _ Hw _ _ _ Hb Hk) as Hc. split; [by apply (i_committed _ _ _ _ _ _ Hw)|done]. Qed.

(** ** The object store *)
Lemma put_ok i w key content modified :
  inv w → owner key w = Some i → key ∉ bw_Committed w → validBundleStagingGCKey key = true → near drift (bw_Now w) modified →
  let w' := put_object key (mkBundleObject content (hex_encode (sha256 content)) modified) w in
  inv w' ∧ guarantee i w w' ∧ staged i key content w'.
Proof.
  intros Hw Ho Hn Hv [Hm _] w'. pose proof Hw as [It Ir Iu Irec Inow Ib Ii Ic Ik Io Ist Isd Il If Iy Icon Iown].
  assert (Hlook : ∀ k o, bw_Objects w' !! k = Some o → k = key ∧ o = mkBundleObject content (hex_encode (sha256 content)) modified ∨
            k ≠ key ∧ bw_Objects w !! k = Some o).
  { cbn. intros k o [[<- <-]|[? ?]]%lookup_insert_Some; [by left|by right]. }
  assert (Hfin : ∀ b r, bd_Bundles (bw_DB w) !! b = Some r → pb_ObjectKey r ≠ key).
  { intros b r Hb <-. pose proof (row_final _ _ _ Hw Hb). congruence. }
  assert (Hstg : ∀ b r, bd_Bundles (bw_DB w) !! b = Some r → pb_StagingKey r ≠ Some key).
  { intros b r Hb E. by apply Hn, (Ik b r). }
  split_and!.
  - split; try done.
    + intros b r Hb. by destruct (Ir b r Hb).
    + intros k o [[-> ->]|[_ Hk]]%Hlook; [done|by apply Io with k].
    + intros k o [[-> ->]|[_ Hk]]%Hlook; [|by apply Ist]. intros _.
      assert (∃ u, upload_of key = Some u ∧ bw_Issued w !! u = Some i) as (u & Hu & Hi).
      { unfold owner in Ho. destruct (upload_of key) as [u|] eqn:Hu; [|done]. by exists u. }
      destruct (Ii u i Hi) as [b Hb]. pose proof (Ib i b Hb). exists i, b. split_and!; try done. cbn. lia.
    + intros b r k o Hb Hk [[-> _]|[_ Hko]]%Hlook; [by destruct (Hstg b r Hb)|by eapply Isd].
    + intros b r k Hb Hk Hop. cbn. destruct (decide (k = key)) as [->|Hne]; [by destruct (Hstg b r Hb)|].
      rewrite lookup_insert_ne by done. by eapply Il.
    + intros b r o Hb [[E _]|[_ Hk]]%Hlook; [by destruct (Hfin b r Hb)|by eapply If].
    + intros b r Hb Hr. cbn. rewrite lookup_insert_ne; [by eapply Iy|]. intros E. by apply (Hfin b r Hb).
    + intros k o [[-> _]|[_ Hk]]%Hlook; [congruence|by apply Iown with o].
  - split; try done.
    + intros b r Hb. by exists r.
    + intros b r k _ Hb Hk. by exists r.
    + intros k o _ Hk. cbn. destruct (decide (k = key)) as [->|]; [rewrite lookup_insert_eq|rewrite lookup_insert_ne by done]; by eexists.
    + intros k o _ Hk. cbn. destruct (decide (k = key)) as [->|]; [by right; left|left]. by rewrite lookup_insert_ne.
    + intros k o _ [[-> _]|[_ Hk]]%Hlook; [by right|by left].
  - split_and!; try done. right. eexists. split; [apply lookup_insert_eq|done].
Qed.

Lemma remove_ok i w key :
  inv w → validBundleStagingGCKey key = true → ¬ live key w →
  (owner key w = Some i ∧ key ∉ bw_Committed w) ∨ finished key w →
  let w' := with_objects (delete key) w in inv w' ∧ guarantee i w w'.
Proof.
  intros Hw Hv Hl Hor w'. pose proof Hw as [It Ir Iu Irec Inow Ib Ii Ic Ik Io Ist Isd Il If Iy Icon Iown].
  assert (Hlook : ∀ k o, bw_Objects w' !! k = Some o → k ≠ key ∧ bw_Objects w !! k = Some o).
  { cbn. intros k o [? ?]%lookup_delete_Some. done. }
  split.
  - split; try done.
    + intros b r Hb. by destruct (Ir b r Hb).
    + intros k o [_ Hk]%Hlook. by apply Io with k.
    + intros k o [_ Hk]%Hlook. by apply Ist.
    + intros b r k o Hb Hk [_ Hko]%Hlook. by eapply Isd.
    + intros b r k Hb Hk Hop. cbn. destruct (decide (k = key)) as [->|Hne]; [exfalso; apply Hl; by exists b, r|].
      rewrite lookup_delete_ne by done. by eapply Il.
    + intros b r o Hb [_ Hk]%Hlook. by eapply If.
    + intros b r Hb Hr. cbn. rewrite lookup_delete_ne; [by eapply Iy|]. intros ->. pose proof (row_final _ _ _ Hw Hb). congruence.
    + intros k o [_ Hk]%Hlook. by apply Iown with o.
  - split; try done.
    + intros b r Hb. by exists r.
    + intros b r k _ Hb Hk. by exists r.
    + intros k o Hvk Hk. cbn. rewrite lookup_delete_ne; [by exists o|]. intros ->. congruence.
    + intros k o _ Hk. cbn. destruct (decide (k = key)) as [->|]; [right|left; by rewrite lookup_delete_ne].
      destruct Hor as [?|?]; [by left|right]. by rewrite lookup_delete_eq.
    + intros k o _ [_ Hk]%Hlook. by left.
Qed.

Lemma copy_ok i w b r source o modified :
  inv w → bd_Bundles (bw_DB w) !! b = Some r → bw_Objects w !! source = Some o → holds (pb_SHA256 r) (pb_SizeBytes r) o →
  let w' := put_object (pb_ObjectKey r) (mkBundleObject (ob_Content o) (hex_encode (pb_SHA256 r)) modified) w in
  inv w' ∧ guarantee i w w' ∧ present (pb_ObjectKey r) w'.
Proof.
  intros Hw Hb Hso (Hh1 & Hh2 & Hh3) w'. pose proof Hw as [It Ir Iu Irec Inow Ib Ii Ic Ik Io Ist Isd Il If Iy Icon Iown].
  pose proof (row_final _ _ _ Hw Hb) as Hv. set (key := pb_ObjectKey r) in *.
  set (o' := mkBundleObject (ob_Content o) (hex_encode (pb_SHA256 r)) modified) in *.
  assert (Hlook : ∀ k o1, bw_Objects w' !! k = Some o1 → k = key ∧ o1 = o' ∨ k ≠ key ∧ bw_Objects w !! k = Some o1).
  { cbn. intros k o1 [[<- <-]|[? ?]]%lookup_insert_Some; [by left|by right]. }
  assert (Hstg : ∀ b r, bd_Bundles (bw_DB w) !! b = Some r → pb_StagingKey r ≠ Some key).
  { intros b0 r0 Hb0 E. destruct (row_staging_key _ _ _ _ Hw Hb0 E). congruence. }
  split_and!.
  - split; try done.
    + intros b0 r0 Hb0. by destruct (Ir b0 r0 Hb0).
    + intros k o1 [[-> ->]|[_ Hk]]%Hlook; [cbn; congruence|by apply Io with k].
    + intros k o1 [[-> ->]|[_ Hk]]%Hlook; [congruence|by apply Ist].
    + intros b0 r0 k o1 Hb0 Hk [[-> _]|[_ Hko]]%Hlook; [by destruct (Hstg b0 r0 Hb0)|by eapply Isd].
    + intros b0 r0 k Hb0 Hk Hop. cbn. destruct (decide (k = key)) as [->|Hne]; [by destruct (Hstg b0 r0 Hb0)|].
      rewrite lookup_insert_ne by done. by eapply Il.
    + intros b0 r0 o1 Hb0 [[E ->]|[_ Hk]]%Hlook; [|by eapply If].
      change (bd_Bundles (bw_DB w) !! b0 = Some r0) in Hb0. assert (b0 = b) as -> by (by eapply object_key_unique). assert (r0 = r) by congruence. subst. split_and!; try done; cbn; congruence.
    + intros b0 r0 Hb0 Hr. cbn. destruct (decide (pb_ObjectKey r0 = key)) as [->|]; [rewrite lookup_insert_eq; by eexists|].
      rewrite lookup_insert_ne by done. by eapply Iy.
    + intros k o1 [[-> _]|[_ Hk]]%Hlook; [intros _; by exists b, r|by apply Iown with o1].
  - split; try done.
    + intros b0 r0 Hb0. by exists r0.
    + intros b0 r0 k _ Hb0 Hk. by exists r0.
    + intros k o1 _ Hk. cbn. destruct (decide (k = key)) as [->|]; [rewrite lookup_insert_eq|rewrite lookup_insert_ne by done]; by eexists.
    + intros k o1 Hvk Hk. left. cbn. rewrite lookup_insert_ne; [done|]. intros <-. congruence.
    + intros k o1 Hvk [[-> _]|[_ Hk]]%Hlook; [congruence|by left].
  - split; [done|]. cbn. rewrite lookup_insert_eq. by eexists.
Qed.

(** ** Identifiers *)
Lemma issue_ok i w id :
  inv w → is_Some (bw_Began w !! i) → bw_Issued w !! id = None → let w' := issue id i w in inv w' ∧ guarantee i w w'.
Proof.
  intros Hw Hb Hn w'. pose proof Hw as [It Ir Iu Irec Inow Ib Ii Ic Ik Io Ist Isd Il If Iy Icon Iown].
  assert (Hiss : ∀ u j, bw_Issued w !! u = Some j → bw_Issued w' !! u = Some j).
  { intros u j Hu. cbn. rewrite lookup_insert_ne; [done|congruence]. }
  split.
  - split; try done.
    + intros b r Hr. eapply row_ok_mono; [by eapply Ir|done|]. intros k t Hk. by exists t.
    + cbn. intros u j [[<- <-]|[_ Hu]]%lookup_insert_Some; [done|by eapply Ii].
    + intros key Hk. destruct (Ic key Hk) as [? [j Hj]]. split; [done|]. exists j. by eapply owner_mono.
    + intros key o Ho Hv. destruct (Ist key o Ho Hv) as (j & began & Hj & ? & ?). exists j, began. split_and!; try done. by eapply owner_mono.
  - split; try done; try exact Hiss.
    + intros b r Hr. by exists r.
    + intros b r key _ Hr Hk. by exists r.
    + intros. by left.
    + intros. by left.
Qed.

(** The staging key of a fresh upload is nobody's. *)
Lemma fresh_key w t id d :
  inv w → bw_Issued w !! id = None → externalIDPattern t = true → externalIDPattern id = true → len d = 32 →
  stagingBundleObjectKey t id d ∉ bw_Committed w ∧ validBundleStagingGCKey (stagingBundleObjectKey t id d) = true ∧
  upload_of (stagingBundleObjectKey t id d) = Some id.
Proof.
  intros Hw Hn Ht Hid Hd. assert (Hu : upload_of (stagingBundleObjectKey t id d) = Some id).
  { unfold upload_of. by rewrite stagingBundleObjectKey_split. }
  split_and!; [|apply (valid_staging_key t _ d Ht Hd); by apply staging_key_valid|done].
  intros Hc. destruct (i_committed _ _ _ _ _ _ Hw _ Hc) as [_ [j Hj]]. unfold owner in Hj. rewrite Hu in Hj. cbn in Hj. congruence.
Qed.

(** ** Transactions *)
Lemma with_db_same w : inv w → with_db (bw_DB w) w = w.
Proof.
  intros Hw. unfold with_db. assert (bw_Committed w ∪ staging_keys (bw_DB w) = bw_Committed w) as ->; [|by destruct w].
  apply set_eq. intros key. rewrite elem_of_union, elem_of_staging_keys. split; [|by left].
  intros [?|(b & r & Hb & Hk)]; [done|]. by eapply (i_keys _ _ _ _ _ _ Hw).
Qed.

Lemma active_tenant_ok d tenantID k row :
  active_tenant d tenantID = Some (k, row) → bd_Tenants d !! k = Some row ∧ tn_ExternalID row = tenantID ∧ tn_Status row = "ACTIVE".
Proof. intros [Hk Hp]%select_row_Some. bool_to_prop. done. Qed.

(** A row that keeps its identity and its staging object. *)
Lemma publication_update_ok j w b r r' :
  inv w → bd_Bundles (bw_DB w) !! b = Some r → identity r' = identity r → pb_StagingKey r' = pb_StagingKey r →
  pb_DeletedAt r' = pb_DeletedAt r → pb_DeleteMarkedAt r' = None → 0 ≤ pb_AttemptCount r' →
  (∀ token, pb_LeaseToken r' = Some token → externalIDPattern token = true) → status_ok r' →
  (pb_Status r = BundlePublicationReady → pb_Status r' = BundlePublicationReady) →
  (publication_open r' = true → publication_open r = true) →
  (pb_Status r' = BundlePublicationReady → pb_Status r = BundlePublicationReady ∨ is_Some (bw_Objects w !! pb_ObjectKey r)) →
  let w' := with_db (set_bundles (insert b r') (bw_DB w)) w in inv w' ∧ guarantee j w w'.
Proof.
  intros Hw Hb Hid Hst Hd Hdm Ha Htok Hs Hr Hop Hto. pose proof (identity_eq _ _ Hid) as (E1 & E2 & E3 & E4 & E5 & E6).
  apply (update_row_ok metadata_json datetime3 sha256 grace drift uploadable j w b r r' (bd_Uploads (bw_DB w)) Hw Hb Hid); [|done|by left|by left].
  destruct (i_rows _ _ _ _ _ _ Hw _ _ Hb) as [(t & key & ? & ? & ? & ? & ?) Hmd Hcr ? [? ?] ? ? _].
  pose proof (f_equal bm_CreatedAt E6) as E7. cbn in E7. split; rewrite ?E1, ?E3, ?E6, ?E7; try done; [|split; congruence].
  exists t, key. rewrite ?E2, ?E3, ?E4, ?Hst. done.
Qed.

Lemma lookup_with_db b r' w : bd_Bundles (bw_DB (with_db (set_bundles (insert b r') (bw_DB w)) w)) = <[b := r']> (bd_Bundles (bw_DB w)).
Proof. done. Qed.

Record claim_of (claim : BundlePublicationClaim) (r0 : publication_row) : Prop := {
  cl_id : pb_ExternalID r0 = pc_BundleID claim;
  cl_key : pb_ObjectKey r0 = pc_ObjectKey claim;
  cl_digest : pb_SHA256 r0 = pc_RequestHash claim;
  cl_size : pb_SizeBytes r0 = pc_SizeBytes claim
}.

Definition claimed (claim : BundlePublicationClaim) (b : Z) (r0 : publication_row) (w : bundle_world) : Prop :=
  claim_of claim r0 ∧ known b r0 w ∧ claimable (pc_StagingKey claim) (pc_RequestHash claim) (pc_SizeBytes claim) w ∧
  only b (pc_StagingKey claim) w.

Lemma claimed_stable i claim b r0 : stable i (claimed claim b r0).
Proof.
  unfold claimed. apply stable_and; [apply stable_pure|]. apply stable_and; [apply known_stable|].
  apply stable_and; [apply claimable_stable|apply only_stable].
Qed.

Lemma claim_of_identity claim r r0 : identity r = identity r0 → claim_of claim r0 → claim_of claim r.
Proof. intros (E1 & _ & E3 & E4 & E5 & _)%identity_eq [? ? ? ?]. split; congruence. Qed.

(** The row a claim owns is the one it was made for. *)
Lemma owned_row w claim b r0 tenant b1 r1 :
  inv w → claimed claim b r0 w → select_row (owns_publication tenant claim) (bd_Bundles (bw_DB w)) = Some (b1, r1) →
  b1 = b ∧ bd_Bundles (bw_DB w) !! b = Some r1 ∧ identity r1 = identity r0 ∧ pb_Status r1 = BundlePublicationPublishing.
Proof.
  intros Hw (Hcl & (r & Hb & Hid) & _) [H1 Ho]%select_row_Some. unfold owns_publication, bundle_with_id in Ho. bool_to_prop.
  assert (b1 = b) as ->.
  { eapply (ru_id _ (i_unique _ _ _ _ _ _ Hw)); [done|done|]. pose proof (claim_of_identity _ _ _ Hid Hcl) as [? ? ? ?]. congruence. }
  assert (r1 = r) by congruence. subst. done.
Qed.

Lemma retired_key w b r' key :
  bd_Bundles (bw_DB w) !! b = Some r' → only b key w → publication_open r' = false → finished key w.
Proof.
  intros Hb [Hc Ho] Hop. split; [|by left]. intros (b1 & r1 & H1 & Hk & Hop1). assert (b1 = b) as -> by (by eapply Ho). congruence.
Qed.

Lemma publication_due_open now r : publication_due now r = true → pb_AbandonedAt r = None ∧ publication_open r = true.
Proof.
  unfold publication_due, publication_open. rewrite !andb_true_iff, !orb_true_iff, !andb_true_iff. intros [[_ Ha] Hs].
  split; [|tauto]. unfold is_none in Ha. by destruct (pb_AbandonedAt r).
Qed.

Lemma ClaimBundlePublication_ok j w tenantID bundleID leaseToken now leaseUntil answer d' :
  inv w → ClaimBundlePublication datetime3 tenantID bundleID leaseToken now leaseUntil (bw_DB w) = Ok (answer, d') →
  inv (with_db d' w) ∧ guarantee j w (with_db d' w) ∧
  ∀ claim, answer = Some claim → pc_BundleID claim = bundleID ∧ ∃ b r0, claimed claim b r0 (with_db d' w).
Proof.
  clear json_policy json_manifest datetime3_near datetime3_idem.
  intros Hw H. unfold ClaimBundlePublication in H. inv_ok. destruct x0 as [tenant row]. inv_ok.
  apply active_tenant_ok in H0 as (Ht & Eext & _). bool_to_prop.
  destruct (update_one _ _ _ _) as [[r' d1]|] eqn:Hup.
  2: { injection H1 as <- <-. rewrite with_db_same by done. split_and!; [done|apply guarantee_refl|done]. }
  rewrite bind_ok in H1. destruct H1 as (claim & Hscan & [= <- <-]).
  apply update_one_ok in Hup as (b & r & [Hb Hdue]%select_row_Some & -> & ->).
  rewrite !andb_true_iff, bool_decide_eq_true in Hdue. destruct Hdue as [[_ Eid] [Hab Hopen]%publication_due_open].
  pose proof (i_rows _ _ _ _ _ _ Hw _ _ Hb) as [(t & key & Htt & Hpt & Hok & Hkey & Hvk) [Hsha Hmd] _ Hiss [Hd Hdm] Hat Htok Hst].
  assert (Hra : pb_ReadyAt r = None).
  { unfold status_ok in Hst. unfold publication_open in Hopen. destruct (pb_Status r); naive_solver. }
  destruct (publication_update_ok j w b r (leased datetime3 leaseToken leaseUntil r) Hw Hb) as [Hinv Hg]; try done.
  - cbn. lia.
  - cbn. by intros token [= <-].
  - unfold status_ok. cbn. split_and!; try done; lia.
  - intros E. unfold publication_open in Hopen. by rewrite E in Hopen.
  - split_and!; [done|done|]. intros claim' [= <-].
    unfold scanBundlePublicationClaim in Hscan. rewrite bind_ok in Hscan. destruct Hscan as (u1 & _ & Hscan).
    rewrite bind_ok in Hscan. destruct Hscan as (u2 & _ & [= <-]). cbn. split; [done|].
    rewrite Hkey in *. cbn. exists b, r.
    assert (Hkey' : pb_StagingKey (leased datetime3 leaseToken leaseUntil r) = Some key) by done.
    destruct (row_staging_key _ b _ key Hinv (lookup_insert_eq _ _ _) Hkey') as [Hv Hc].
    split; [done|]. split; [exists (leased datetime3 leaseToken leaseUntil r); split; [apply lookup_insert_eq|done]|]. split.
    + split_and!; [done|done|]. intros o Ho. by apply (i_staged _ _ _ _ _ _ Hw b r key).
    + split; [done|]. intros b' r' Hb' Hk'. by eapply (ru_staging _ (i_unique _ _ _ _ _ _ Hinv) b' b r' _ key Hb' (lookup_insert_eq _ _ _)).
Qed.

(** A claim's row after its settlement: [r'] no longer open. *)
Lemma settled_row_ok j w claim b r0 r r' :
  inv w → claimed claim b r0 w → bd_Bundles (bw_DB w) !! b = Some r → identity r = identity r0 →
  pb_Status r = BundlePublicationPublishing → identity r' = identity r → pb_StagingKey r' = pb_StagingKey r →
  pb_DeletedAt r' = pb_DeletedAt r → pb_DeleteMarkedAt r' = pb_DeleteMarkedAt r → pb_AttemptCount r' = pb_AttemptCount r →
  pb_LeaseToken r' = None → (pb_ReadyAt r = None → pb_AbandonedAt r = None → status_ok r') →
  (pb_Status r' = BundlePublicationReady → is_Some (bw_Objects w !! pb_ObjectKey r)) →
  let w' := with_db (set_bundles (insert b r') (bw_DB w)) w in
  inv w' ∧ guarantee j w w' ∧ claimed claim b r0 w' ∧ bd_Bundles (bw_DB w') !! b = Some r' ∧
  (publication_open r' = false → finished (pc_StagingKey claim) w').
Proof.
  intros Hw Hcl Hb Hid0 Hpub Hid Hst Hd Hdm Ha Htok Hs Hto w'.
  pose proof (i_rows _ _ _ _ _ _ Hw _ _ Hb) as [_ _ _ _ [_ Hdm0] Hat _ Hsr]. unfold status_ok in Hsr. rewrite Hpub in Hsr.
  destruct Hsr as (_ & _ & Hr & Hab & _).
  destruct (publication_update_ok j w b r r' Hw Hb Hid Hst) as [Hinv Hg]; try congruence; try lia.
  - auto.
  - intros _. unfold publication_open. by rewrite Hpub.
  - intros E. right. auto.
  - fold w' in Hinv, Hg. assert (Hb' : bd_Bundles (bw_DB w') !! b = Some r') by apply lookup_insert_eq.
    destruct Hcl as (Hc & _ & (Hcc & Hcv & Hco) & [_ Honly]).
    assert (Honly' : only b (pc_StagingKey claim) w').
    { split; [by apply elem_of_union_l|]. cbn. intros b1 r1 [[<- _]|[_ H1]]%lookup_insert_Some Hk; [done|by eapply Honly]. }
    split_and!; try done.
    + split; [done|]. split; [exists r'; split; [done|congruence]|]. split; [|done].
      split_and!; [by apply elem_of_union_l|done|done].
    + intros Hop. by eapply retired_key.
Qed.

Lemma CompleteBundlePublication_ok j w claim b r0 readyAt u d' :
  inv w → claimed claim b r0 w → present (pc_ObjectKey claim) w → CompleteBundlePublication datetime3 claim readyAt (bw_DB w) = Ok (u, d') →
  inv (with_db d' w) ∧ guarantee j w (with_db d' w) ∧ ready b r0 (with_db d' w) ∧ finished (pc_StagingKey claim) (with_db d' w).
Proof.
  intros Hw Hcl [_ Hp] H. unfold CompleteBundlePublication in H. rewrite bind_ok in H. destruct H as (u1 & _ & H).
  rewrite bind_ok in H. destruct H as ([tenant row] & _ & H). rewrite bind_ok in H. destruct H as ([r' d1] & Hup & [= _ <-]).
  apply update_one_ok in Hup as (b1 & r & Hsel & -> & ->).
  destruct (owned_row _ _ _ _ _ _ _ Hw Hcl Hsel) as (-> & Hb & Hid & Hpub).
  destruct (settled_row_ok j w claim b r0 r (published datetime3 readyAt r) Hw Hcl Hb Hid Hpub) as (Hinv & Hg & _ & Hb' & Hfin); try done.
  - intros _. destruct (claim_of_identity _ _ _ Hid (proj1 Hcl)) as [_ -> _ _]. done.
  - split_and!; try done; [|by apply Hfin]. exists (published datetime3 readyAt r). done.
Qed.

Lemma FailBundlePublication_ok j w claim b r0 errorCode next maxAttempts abandoned d' :
  inv w → claimed claim b r0 w → FailBundlePublication datetime3 claim errorCode next maxAttempts (bw_DB w) = Ok (abandoned, d') →
  inv (with_db d' w) ∧ guarantee j w (with_db d' w) ∧ claimed claim b r0 (with_db d' w) ∧
  (abandoned = true → finished (pc_StagingKey claim) (with_db d' w)).
Proof.
  intros Hw Hcl H. unfold FailBundlePublication in H. rewrite bind_ok in H. destruct H as (u1 & _ & H).
  rewrite bind_ok in H. destruct H as ([tenant row] & _ & H). rewrite bind_ok in H. destruct H as ([r' d1] & Hup & [= <- <-]).
  apply update_one_ok in Hup as (b1 & r & Hsel & -> & ->).
  destruct (owned_row _ _ _ _ _ _ _ Hw Hcl Hsel) as (-> & Hb & Hid & Hpub). set (ab := maxAttempts <=? _).
  destruct (settled_row_ok j w claim b r0 r (failed_publication datetime3 ab errorCode next r) Hw Hcl Hb Hid Hpub) as (Hinv & Hg & Hcl' & Hb' & Hfin);
    try done; [|by unfold failed_publication; destruct ab|].
  - intros Hr Hab. unfold status_ok. by destruct ab; cbn; split_and!.
  - split_and!; try done. intros ->. by apply Hfin.
Qed.

Lemma SweepUnrecoverable_nothing w scan before limit now n d' :
  inv w → SweepUnrecoverableBundlePublications scan before limit now (bw_DB w) = Ok (n, d') → n = 0 ∧ d' = bw_DB w.
Proof.
  intros Hw H. unfold SweepUnrecoverableBundlePublications in H. rewrite bind_ok in H. destruct H as (u & _ & H).
  assert (omap (λ id, r ← bd_Bundles (bw_DB w) !! id; if unrecoverable before now r then Some (id, r) else None) scan = []) as E.
  { apply elem_of_nil_inv. intros [id r] (b & _ & Hb)%list_elem_of_omap. apply bind_Some in Hb as (r1 & Hb & Hu).
    destruct (ro_tenant _ _ _ (i_rows _ _ _ _ _ _ Hw _ _ Hb)) as (t & key & _ & _ & _ & Hk & _).
    unfold unrecoverable in Hu. by rewrite Hk in Hu. }
  rewrite E, take_nil in H. by injection H as <- <-.
Qed.

(** ** Reading *)
Lemma with_id_row bundles tenant bundleID b r :
  select_row (bundle_with_id tenant bundleID) bundles = Some (b, r) →
  bundles !! b = Some r ∧ pb_Tenant r = tenant ∧ pb_ExternalID r = bundleID.
Proof. intros [Hb Hp]%select_row_Some. unfold bundle_with_id in Hp. by bool_to_prop. Qed.

(** A bundle that clients can see. *)
Definition visible (bundleID : string) (w : bundle_world) : Prop := ∃ b r, ready b r w ∧ pb_ExternalID r = bundleID.

Lemma FindBundle_ok w tenantID bundleID metadata : FindBundle tenantID bundleID (bw_DB w) = Ok metadata → visible bundleID w.
Proof.
  intros H. unfold FindBundle in H. destruct (_ || _); [done|]. destruct (active_tenant _ _) as [[tenant row]|]; [|done].
  destruct (select_row _ _) as [[b r]|] eqn:Hs; [|done]. apply select_row_Some in Hs as [Hb Hv].
  unfold visible_bundle, bundle_with_id in Hv. bool_to_prop. exists b, r. split; [by exists r|done].
Qed.

Lemma IsBundleStagingReferenced_ok w key answer :
  inv w → IsBundleStagingReferenced key (bw_DB w) = Ok answer → answer = true ↔ live key w.
Proof.
  intros Hw H. unfold IsBundleStagingReferenced in H. destruct (negb _); [done|]. injection H as <-. rewrite is_some_true. split.
  - intros [[b r] [Hb Hp]%select_row_Some]. bool_to_prop. by exists b, r.
  - intros (b & r & Hb & Hk & Hop). destruct (select_row _ _) as [p|] eqn:Hs; [by exists p|]. rewrite select_row_None in Hs.
    specialize (Hs b r Hb). pose proof (ro_kept _ _ _ (i_rows _ _ _ _ _ _ Hw _ _ Hb)) as [Hd _].
    rewrite Hk, Hop, Hd, bool_decide_true in Hs; done.
Qed.

(** A record answers with the metadata of the row it names. *)
Lemma stored_metadata_ok (r metadata : BundleMetadata) :
  stored_metadata json_metadata (metadata_json r) = Ok metadata → metadata = r.
Proof.
  unfold stored_metadata. rewrite json_roundtrip. cbn [from_option mbind result_bind]. rewrite bind_ok. by intros (u & _ & [= <-]).
Qed.

Lemma FindBundleUpload_ok w tenantID keyDigest now lookup :
  inv w → FindBundleUpload json_metadata tenantID keyDigest now (bw_DB w) = Ok (Some lookup) →
  ∃ b r t, bd_Bundles (bw_DB w) !! b = Some r ∧ bd_Tenants (bw_DB w) !! pb_Tenant r = Some t ∧ tn_ExternalID t = tenantID ∧
    rounded (bl_Metadata lookup) = row_metadata r ∧ bl_RequestHash lookup = pb_SHA256 r ∧ bl_Status lookup = pb_Status r.
Proof.
  intros Hw H. unfold FindBundleUpload in H. destruct (negb _); [done|]. destruct (active_tenant _ _) as [[tenant t]|] eqn:Ht; [|done].
  apply active_tenant_ok in Ht as (Ht & Eext & _). destruct (bd_Uploads _ !! _) as [record|] eqn:Hr; [|done]. destruct (_ <=? _); [done|].
  destruct (select_row _ _) as [[b r]|] eqn:Hs; [|done]. rewrite bind_ok in H. destruct H as (u & _ & H). rewrite bind_ok in H.
  destruct H as (metadata & Hm & [= <-]). apply with_id_row in Hs as (Hb & Et & Ei).
  destruct (i_records _ _ _ _ _ _ Hw _ _ _ Hr) as (b1 & r1 & m & H1 & Et1 & Ei1 & Es1 & Ej & Em).
  assert (b1 = b) as -> by (eapply (ru_id _ (i_unique _ _ _ _ _ _ Hw)); [done|done|congruence]). assert (r1 = r) by congruence. subst r1.
  rewrite Ej in Hm. apply stored_metadata_ok in Hm as ->. exists b, r, t. rewrite Et. by split_and!.
Qed.

(** ** The commit of an upload *)

(** What a commit does to the row of the bundle: it takes the staging object, or
    keeps a row, or makes one. *)
Inductive committed_row (input : BundleCommitInput) (tenant newID now : Z) (d : bundle_db) :
    Z → publication_row → BundleCommitResult → Prop :=
| committed_revived b r metadata replay :
    bd_Bundles d !! b = Some r → rounded metadata = row_metadata r → pb_Tenant r = tenant → pb_SHA256 r = bi_RequestHash input →
    (pb_Status r = BundlePublicationAbandoned ∨ pb_StagingKey r = None) →
    committed_row input tenant newID now d b (revived datetime3 input r)
      (mkCommitResult metadata replay BundlePublicationPending (bi_StagingObjectKey input))
| committed_kept b r r' metadata replay :
    bd_Bundles d !! b = Some r → rounded metadata = row_metadata r → pb_Tenant r = tenant → pb_SHA256 r = bi_RequestHash input → r' = r ∨ r' = retained r →
    committed_row input tenant newID now d b r' (mkCommitResult metadata replay (pb_Status r) (null_string (pb_StagingKey r)))
| committed_new :
    (∀ b r, bd_Bundles d !! b = Some r → pb_ExternalID r ≠ bm_BundleID (bi_Metadata input) ∧
       (pb_Tenant r = tenant → pb_SHA256 r ≠ bi_RequestHash input)) →
    committed_row input tenant newID now d newID (new_publication datetime3 tenant now input)
      (mkCommitResult (bi_Metadata input) false BundlePublicationPending (bi_StagingObjectKey input)).

Lemma insert_same_row (d : bundle_db) b r : bd_Bundles d !! b = Some r → d = set_bundles (insert b r) d.
Proof. intros Hb. unfold set_bundles. rewrite insert_id by done. by destruct d. Qed.

(** The row that [bundle_with_id] finds for a row's own identifier. *)
Lemma own_id_row (d : bundle_db) b r b1 r1 p :
  rows_unique (bd_Bundles d) → bd_Bundles d !! b = Some r →
  select_row (λ x, bundle_with_id (pb_Tenant r) (pb_ExternalID r) x && p x) (bd_Bundles d) = Some (b1, r1) → b1 = b ∧ r1 = r ∧ p r = true.
Proof.
  intros Hu Hb [H1 Hp]%select_row_Some. rewrite andb_true_iff in Hp. destruct Hp as [Hw Hp]. unfold bundle_with_id in Hw. bool_to_prop.
  assert (b1 = b) as -> by (by eapply (ru_id _ Hu)). assert (r1 = r) by congruence. by subst.
Qed.

Lemma revive_row input (d : bundle_db) b r d' :
  rows_unique (bd_Bundles d) → bd_Bundles d !! b = Some r →
  reviveBundlePublication datetime3 (pb_Tenant r) (pb_ExternalID r) input d = Ok d' →
  d' = set_bundles (insert b (revived datetime3 input r)) d ∧ pb_SHA256 r = bi_RequestHash input ∧
  (pb_Status r = BundlePublicationAbandoned ∨ pb_StagingKey r = None).
Proof.
  intros Hu Hb H. unfold reviveBundlePublication in H. rewrite bind_ok in H. destruct H as ([r2 d2] & Hup & [= <-]).
  apply update_one_ok in Hup as (b1 & r1 & Hsel & -> & ->).
  assert (Hsel' : select_row (λ x, bundle_with_id (pb_Tenant r) (pb_ExternalID r) x &&
            (bool_decide (pb_SHA256 x = bi_RequestHash input) &&
             (bool_decide (pb_Status x = BundlePublicationAbandoned) || is_none (pb_StagingKey x)))) (bd_Bundles d) = Some (b1, r1)).
  { rewrite <-Hsel. unfold select_row. do 2 f_equal. apply list_find_ext. intros [k x]. by rewrite andb_assoc. }
  destruct (own_id_row d b r b1 r1 _ Hu Hb Hsel') as (-> & -> & Hp). rewrite andb_true_iff, orb_true_iff, !bool_decide_eq_true in Hp.
  destruct Hp as [? Hor]. split_and!; try done. unfold is_none in Hor. destruct Hor as [?|Hk]; [by left|right]. by destruct (pb_StagingKey r).
Qed.

Lemma retain_row (d : bundle_db) b r :
  rows_unique (bd_Bundles d) → bd_Bundles d !! b = Some r →
  let d' := match update_one (bundle_with_id (pb_Tenant r) (pb_ExternalID r)) retained ErrBundleUnavailable d with Ok (_, d') => d' | Err _ => d end in
  ∃ r', (r' = r ∨ r' = retained r) ∧ d' = set_bundles (insert b r') d.
Proof.
  intros Hu Hb. destruct (update_one _ _ _ _) as [[r1 d1]|] eqn:Hup; [|exists r; split; [by left|by apply insert_same_row]].
  apply update_one_ok in Hup as (b1 & r2 & [H1 Hw]%select_row_Some & -> & ->). unfold bundle_with_id in Hw. bool_to_prop.
  assert (b1 = b) as -> by (by eapply (ru_id _ Hu)). assert (r2 = r) by congruence. subst. exists (retained r). split; [by right|done].
Qed.

Lemma commit_bundle_row input tenant newID now (d : bundle_db) result d' :
  rows_unique (bd_Bundles d) → (∀ b r, bd_Bundles d !! b = Some r → rounded (row_metadata r) = row_metadata r) →
  commit_bundle datetime3 input tenant newID now d = Ok (result, d') →
  ∃ b r', committed_row input tenant newID now d b r' result ∧ d' = set_bundles (insert b r') d.
Proof.
  intros Hu Hd H. unfold commit_bundle in H. rewrite bind_ok in H. destruct H as (existing & Hfind & H).
  unfold findBundleByDigest in Hfind. destruct (select_row _ _) as [[b r]|] eqn:Hsel.
  - apply select_row_Some in Hsel as [Hb Hp]. bool_to_prop. unfold scanBundleMetadata in Hfind.
    destruct (_ && _); [|done]. injection Hfind as <-. subst tenant. cbn [row_metadata bm_BundleID] in H.
    destruct (bundlePublicationNeedsFreshStaging _ _).
    + rewrite bind_ok in H. destruct H as (d1 & Hr & [= <- <-]). apply (revive_row _ _ b) in Hr as (-> & ? & ?); [|done..].
      exists b, (revived datetime3 input r). split; [apply committed_revived; try done; by apply (Hd b)|done].
    + injection H as <- <-. destruct (retain_row d b r Hu Hb) as (r' & Hr' & ->). exists b, r'. split; [|done]. apply committed_kept; try done; by apply (Hd b).
  - injection Hfind as <-. rewrite bind_ok in H. destruct H as (u & Hg & [= <- <-]).
    exists newID, (new_publication datetime3 tenant now input). split; [|done]. apply committed_new.
    apply guard_err_ok in Hg. rewrite negb_true_iff in Hg. unfold duplicate_publication in Hg. apply not_true_iff_false in Hg. rewrite is_some_true in Hg.
    intros b r Hb. destruct (select_row _ _) as [q|] eqn:Hdup in Hg; [destruct Hg; by exists q|]. rewrite select_row_None in Hdup. specialize (Hdup b r Hb).
    rewrite orb_false_iff, andb_false_iff, !bool_decide_eq_false, Z.eqb_neq in Hdup. destruct Hdup as [? Hor]. split; [done|].
    intros <-. destruct Hor; done.
Qed.

Lemma replay_upload_row input tenant newID now record (d : bundle_db) b r m result d' :
  rows_unique (bd_Bundles d) → bd_Bundles d !! b = Some r → pb_Tenant r = tenant → pb_SHA256 r = ul_RequestHash record →
  ul_ResponseJSON record = metadata_json m → rounded m = row_metadata r → replay_upload datetime3 json_metadata input tenant record r d = Ok (result, d') →
  ∃ b r', committed_row input tenant newID now d b r' result ∧ d' = set_bundles (insert b r') d.
Proof.
  intros Hu Hb <- Hs Hj Em H. unfold replay_upload in H. rewrite bind_ok in H. destruct H as (u1 & _ & H). rewrite bind_ok in H.
  destruct H as (u2 & Hg & H). rewrite bind_ok in H. destruct H as (metadata & Hm & H). rewrite Hj in Hm. apply stored_metadata_ok in Hm as ->.
  apply guard_err_ok, bool_decide_eq_true in Hg. destruct (bundlePublicationNeedsFreshStaging _ _).
  - rewrite bind_ok in H. destruct H as (d1 & Hr & [= <- <-]). change (bm_BundleID m) with (bm_BundleID (rounded m)) in Hr. rewrite Em in Hr. apply (revive_row _ _ b) in Hr as (-> & ? & ?); [|done..].
    exists b, (revived datetime3 input r). split; [by apply committed_revived|done].
  - injection H as <- <-. exists b, r. split; [|by apply insert_same_row]. apply committed_kept; [done..|congruence|by left].
Qed.

Definition own_upload (j : nat) (input : BundleCommitInput) (content : string) (w : bundle_world) : Prop :=
  staged j (bi_StagingObjectKey input) content w ∧ is_Some (bw_Issued w !! bm_BundleID (bi_Metadata input)) ∧
  sha256 content = bi_RequestHash input ∧ len content = bm_SizeBytes (bi_Metadata input) ∧ uploadable content ∧
  millisecond < bm_CreatedAt (bi_Metadata input).

Lemma staged_in_time j w key content :
  inv w → in_time grace j w → staged j key content w →
  ¬ expired key w ∧ ∃ o, bw_Objects w !! key = Some o ∧ holds (sha256 content) (len content) o.
Proof.
  intros Hw (began & Hb & Hnow) (Ho & _ & _ & Hor). assert (He : ¬ expired key w).
  { intros (i & b & Ho' & Hb' & ?). assert (i = j) by congruence. subst. assert (b = began) by congruence. subst. lia. }
  split; [done|]. destruct Hor as [?|(o & Hob & <-)]; [done|]. exists o. split; [done|]. split_and!; try done.
  by apply (i_objects _ _ _ _ _ _ Hw key).
Qed.

Lemma valid_commit_input input :
  validBundleCommitInput json_manifest input = true → len (bi_RequestHash input) = 32 →
  externalIDPattern (bi_TenantID input) = true ∧ bi_ObjectKey input = bundleObjectKey (bi_TenantID input) (bi_RequestHash input) ∧
  validStagingObjectKey (bi_TenantID input) (bi_StagingObjectKey input) (hex_encode (bi_RequestHash input)) = true ∧
  bm_SHA256 (bi_Metadata input) = hex_encode (bi_RequestHash input) ∧ validBundleMetadata (bi_Metadata input) = true.
Proof.
  unfold validBundleCommitInput. intros H _. destruct (ParseManifest _ _); [|done]. bool_to_prop. done.
Qed.

Lemma new_metadata tenant now input :
  bm_SHA256 (bi_Metadata input) = hex_encode (bi_RequestHash input) →
  row_metadata (new_publication datetime3 tenant now input) = rounded (bi_Metadata input).
Proof. unfold row_metadata, BundleSafety.rounded. cbn. by intros <-. Qed.

Lemma rounded_idem m : rounded (rounded m) = rounded m.
Proof. unfold BundleSafety.rounded. cbn. by rewrite datetime3_idem. Qed.

Lemma rounded_row w r : row_ok w r → rounded (row_metadata r) = row_metadata r.
Proof. intros Hr. unfold BundleSafety.rounded, row_metadata. cbn. by rewrite (ro_created _ _ _ Hr). Qed.

Lemma rounded_valid m : validBundleMetadata m = true → millisecond < bm_CreatedAt m → validBundleMetadata (rounded m) = true.
Proof.
  unfold validBundleMetadata. cbn. rewrite !andb_true_iff, !negb_true_iff, !Z.eqb_neq. intros H Hc. pose proof (datetime3_near (bm_CreatedAt m)).
  unfold zero_time in *. tauto || intuition lia.
Qed.

(** Who answers a commit: a row of the tenant with the digest, and the staging
    object is taken or still the uploader's own. *)
Definition answers (j : nat) (input : BundleCommitInput) (content : string) (result : BundleCommitResult) (w : bundle_world) : Prop :=
  (∃ b r t, bd_Bundles (bw_DB w) !! b = Some r ∧ bd_Tenants (bw_DB w) !! pb_Tenant r = Some t ∧ tn_ExternalID t = bi_TenantID input ∧
     rounded (br_Metadata result) = row_metadata r ∧ pb_SHA256 r = bi_RequestHash input ∧ br_Status result = pb_Status r) ∧
  (br_StagingKey result = bi_StagingObjectKey input ∨ staged j (bi_StagingObjectKey input) content w).

Lemma kept_row_ok w r r' :
  r' = r ∨ r' = retained r → row_ok w r →
  row_ok w r' ∧ identity r' = identity r ∧ pb_StagingKey r' = pb_StagingKey r ∧ pb_Status r' = pb_Status r ∧ row_metadata r' = row_metadata r.
Proof.
  intros [->| ->] Hr; [done|]. split_and!; try done. destruct Hr as [Ht Hm Hcr Hi [Hd _] Ha Hk Hs]. split; try done.
Qed.

Lemma revived_row_ok w input r t content :
  row_ok w r → bd_Tenants (bw_DB w) !! pb_Tenant r = Some t → externalIDPattern (tn_ExternalID t) = true →
  (∃ c, uploadable c ∧ sha256 c = pb_SHA256 r ∧ len c = pb_SizeBytes r) → uploadable content → sha256 content = pb_SHA256 r →
  validStagingObjectKey (tn_ExternalID t) (bi_StagingObjectKey input) (hex_encode (pb_SHA256 r)) = true →
  row_ok w (revived datetime3 input r) ∧ len content = pb_SizeBytes r.
Proof.
  intros [(t' & key & Ht' & _ & Hok & _) Hm Hcr Hi [Hd _] _ _ _] Ht Hp (c & Hc & Hs & Hl) Hu Hsha Hv. split.
  - split; try done. exists t, (bi_StagingObjectKey input). assert (t' = t) by congruence. by subst.
  - rewrite <-Hl. apply no_collision; congruence.
Qed.

Lemma own_takes j w input content r' :
  inv w → in_time grace j w → own_upload j input content w → pb_StagingKey r' = Some (bi_StagingObjectKey input) →
  pb_Status r' ≠ BundlePublicationReady → pb_SHA256 r' = sha256 content → pb_SizeBytes r' = len content → takes_staging j w r'.
Proof.
  intros Hw Ht (Hs & _) Hk Hn Hd Hl. destruct (staged_in_time _ _ _ _ Hw Ht Hs) as (He & o & Ho & Hh). destruct Hs as (? & ? & ? & _).
  exists (bi_StagingObjectKey input), o. rewrite Hd, Hl. by split_and!.
Qed.

(** A staging object that no row takes stays its upload's. *)
Lemma staged_kept j w key content d' :
  staged j key content w → (∀ b r, bd_Bundles d' !! b = Some r → pb_StagingKey r ≠ Some key) → staged j key content (with_db d' w).
Proof.
  intros (Ho & Hn & Hv & Hor) Hd. split_and!; [done| |done|].
  - cbn. rewrite elem_of_union, elem_of_staging_keys. intros [?|(b & r & Hb & Hk)]; [done|]. by eapply Hd.
  - destruct Hor as [?|?]; [by left|by right].
Qed.

Lemma committed_row_ok j w input content tenant t newID now b r' result uploads' :
  inv w → in_time grace j w → own_upload j input content w → validBundleCommitInput json_manifest input = true →
  bd_Tenants (bw_DB w) !! tenant = Some t → tn_ExternalID t = bi_TenantID input → bd_Bundles (bw_DB w) !! newID = None →
  committed_row input tenant newID now (bw_DB w) b r' result →
  (∀ tenant key record, uploads' !! (tenant, key) = Some record →
     bd_Uploads (bw_DB w) !! (tenant, key) = Some record ∨ record_ok metadata_json datetime3 (<[b := r']> (bd_Bundles (bw_DB w))) tenant record) →
  let w' := with_db (mkBundleDb (bd_Tenants (bw_DB w)) (<[b := r']> (bd_Bundles (bw_DB w))) uploads') w in
  inv w' ∧ guarantee j w w' ∧ answers j input content result w'.
Proof.
  intros Hw Htime Hown Hvalid Ht Hext Hnew Hrow Hup w'. pose proof Hown as (Hstaged & Hiss & Hsha & Hlen & Hupl & Hcreated).
  destruct (valid_commit_input input Hvalid) as (Hpt & Hkey & Hvs & Hms & Hvm); [by rewrite <-Hsha|].
  assert (Hup' : ∀ r, bd_Bundles (bw_DB w) !! b = Some r → identity r' = identity r →
            ∀ tenant key record, uploads' !! (tenant, key) = Some record →
            bd_Uploads (bw_DB w) !! (tenant, key) = Some record ∨ record_ok metadata_json datetime3 (bd_Bundles (bw_DB w)) tenant record).
  { intros r Hb Hid tn key record Hr. destruct (Hup _ _ _ Hr) as [?|Hk]; [by left|right]. revert Hk. apply record_ok_kept.
    intros b0 r0 [[<- <-]|[_ H0]]%lookup_insert_Some; [by exists r|by exists r0]. }
  assert (Hanswer : pb_Tenant r' = tenant → rounded (br_Metadata result) = row_metadata r' → pb_SHA256 r' = bi_RequestHash input →
            br_Status result = pb_Status r' →
            ∃ b r t, bd_Bundles (bw_DB w') !! b = Some r ∧ bd_Tenants (bw_DB w') !! pb_Tenant r = Some t ∧ tn_ExternalID t = bi_TenantID input ∧
              rounded (br_Metadata result) = row_metadata r ∧ pb_SHA256 r = bi_RequestHash input ∧ br_Status result = pb_Status r).
  { intros <- ? ? ?. exists b, r', t. split_and!; try done. apply lookup_insert_eq. }
  destruct Hrow as [b r m replay Hb Em Etn Es Hold|b r r' m replay Hb Em Etn Es Hr|Hfresh].
  - subst tenant. rewrite <-Es in Hvs, Hsha. rewrite <-Hext in Hvs, Hpt. assert (Hid : identity (revived datetime3 input r) = identity r) by done.
    destruct (revived_row_ok w input r t content (i_rows _ _ _ _ _ _ Hw _ _ Hb) Ht Hpt (i_content _ _ _ _ _ _ Hw _ _ Hb) Hupl Hsha Hvs)
      as [Hrow Hsize].
    destruct (update_row_ok metadata_json datetime3 sha256 grace drift uploadable j w b r (revived datetime3 input r) uploads' Hw Hb Hid Hrow) as [Hi' Hg']; [| |by eapply Hup'|].
    + intros E. destruct Hold as [?|E']; [congruence|]. destruct (ro_tenant _ _ _ (i_rows _ _ _ _ _ _ Hw _ _ Hb)) as (? & ? & _ & _ & _ & ? & _). congruence.
    + right. eapply own_takes; try done; cbn; congruence.
    + split_and!; [done|done|]. split; [by apply Hanswer|by left].
  - subst tenant. destruct (kept_row_ok w r r' Hr (i_rows _ _ _ _ _ _ Hw _ _ Hb)) as (Hrow & Hid & Hst & Hss & Hm).
    apply identity_eq in Hid as Hid'. destruct Hid' as (_ & E2 & E3 & _).
    destruct (update_row_ok metadata_json datetime3 sha256 grace drift uploadable j w b r r' uploads' Hw Hb Hid Hrow) as [Hi' Hg']; [congruence| |by eapply Hup'|].
    + left. split_and!; [done|unfold publication_open; by rewrite Hss|left; congruence].
    + split_and!; [done|done|]. split; [apply Hanswer; cbn; congruence|right]. apply staged_kept; [done|]. destruct Hstaged as (_ & Hn & _).
      cbn. intros b0 r0 [[<- <-]|[_ H0]]%lookup_insert_Some E; apply Hn; [rewrite Hst in E|]; by eapply (i_keys _ _ _ _ _ _ Hw).
  - assert (Hmeta : row_metadata (new_publication datetime3 tenant now input) = rounded (bi_Metadata input)) by (by apply new_metadata).
    rewrite <-Hext in Hpt, Hkey, Hvs.
    destruct (insert_row_ok metadata_json datetime3 sha256 grace drift uploadable j w newID (new_publication datetime3 tenant now input) uploads' Hw Hnew) as [Hi' Hg']; try done.
    + split; try done; try lia; [exists t, (bi_StagingObjectKey input); by split_and!|rewrite Hmeta; split; [cbn; congruence|by apply rounded_valid]|cbn; apply datetime3_idem].
    + eapply own_takes; try done; cbn; congruence.
    + apply eq_None_not_Some. intros [o Ho]. cbn in Ho.
      destruct (i_owned _ _ _ _ _ _ Hw _ _ Ho) as (b0 & r0 & H0 & E0); [rewrite Hkey; by apply final_key_not_staging|].
      destruct (row_tenant _ _ _ Hw H0) as (t0 & Ht0 & Hp0 & Ek0). rewrite Ek0, Hkey in E0. apply bundleObjectKey_inj in E0 as [Et Es]; [|done..].
      pose proof (i_tenants _ _ _ _ _ _ Hw _ _ _ _ Ht0 Ht Et) as Etn. destruct (Hfresh b0 r0 H0) as [_ Hf]. by apply Hf.
    + by exists content.
    + split_and!; [done|done|]. split; [by apply Hanswer|by left].
Qed.

(** The record of an answered commit names the answering row. *)
Lemma new_record_ok input tenant newID now d b r' result :
  committed_row input tenant newID now d b r' result →
  bm_SHA256 (bi_Metadata input) = hex_encode (bi_RequestHash input) →
  record_ok metadata_json datetime3 (<[b := r']> (bd_Bundles d)) tenant (new_upload datetime3 metadata_json input result).
Proof.
  intros Hrow Hm. assert (Hr : rounded (br_Metadata result) = row_metadata r' ∧ pb_Tenant r' = tenant ∧ pb_SHA256 r' = bi_RequestHash input).
  { destruct Hrow as [b r m replay Hb Em Etn Es _|b r r' m replay Hb Em Etn Es [-> | ->]|_]; split_and!; try done. by rewrite new_metadata. }
  destruct Hr as (Er & Et & Es). exists b, r', (br_Metadata result). split_and!; try done; [apply lookup_insert_eq|].
  exact (eq_sym (f_equal bm_BundleID Er)).
Qed.

Lemma CommitBundleUpload_ok j w input content newID now result d' :
  inv w → in_time grace j w → own_upload j input content w → bd_Bundles (bw_DB w) !! newID = None →
  CommitBundleUpload datetime3 json_policy json_manifest metadata_json json_metadata input newID now (bw_DB w) = Ok (result, d') →
  inv (with_db d' w) ∧ guarantee j w (with_db d' w) ∧ answers j input content result (with_db d' w).
Proof.
  intros Hw Htime Hown Hnew H. unfold CommitBundleUpload in H. rewrite bind_ok in H. destruct H as (u1 & Hv%guard_err_ok & H).
  rewrite bind_ok in H. destruct H as ([tenant t] & Ht & H). rewrite bind_ok in H. destruct H as (policy & _ & H).
  rewrite bind_ok in H. destruct H as (u2 & _ & H). destruct (active_tenant _ _) as [[tn t']|] eqn:Hact; [|done]. injection Ht as -> ->.
  apply active_tenant_ok in Hact as (Ht & Hext & _). set (key := (tenant, bi_IdempotencyDigest input)) in *.
  set (d1 := match bd_Uploads (bw_DB w) !! key with Some _ => _ | None => _ end) in H.
  assert (Hd1 : bd_Tenants d1 = bd_Tenants (bw_DB w) ∧ bd_Bundles d1 = bd_Bundles (bw_DB w) ∧
            ∀ k record, bd_Uploads d1 !! k = Some record → bd_Uploads (bw_DB w) !! k = Some record).
  { unfold d1. destruct (bd_Uploads _ !! key); [|done]. destruct (_ <=? _); [|done]. split_and!; [done|done|].
    cbn. by intros k record [_ ?]%lookup_delete_Some. }
  clearbody d1. destruct Hd1 as (E1 & E2 & E3). pose proof (i_unique _ _ _ _ _ _ Hw) as Hu. rewrite <-E2 in Hu.
  destruct (valid_commit_input input Hv) as (_ & _ & _ & Hms & _); [destruct Hown as (_ & _ & <- & _); apply sha256_length|].
  assert (Hout : ∀ b r' up, committed_row input tenant newID now d1 b r' result →
            d' = mkBundleDb (bd_Tenants d1) (<[b := r']> (bd_Bundles d1)) up →
            (∀ tenant k record, up !! (tenant, k) = Some record → bd_Uploads (bw_DB w) !! (tenant, k) = Some record ∨
               record_ok metadata_json datetime3 (<[b := r']> (bd_Bundles d1)) tenant record) →
            inv (with_db d' w) ∧ guarantee j w (with_db d' w) ∧ answers j input content result (with_db d' w)).
  { intros b r' up Hrow -> Hup. rewrite E1, E2 in *. eapply (committed_row_ok j w input content tenant t newID now); try done.
    destruct Hrow; [eapply committed_revived|eapply committed_kept|eapply committed_new]; rewrite <-?E2; done. }
  destruct (record ← _; _) as [[record r]|] eqn:Hstored.
  - apply bind_Some in Hstored as (record1 & Hr & Hstored). apply bind_Some in Hstored as ([b r1] & Hsel & [= -> ->]).
    apply with_id_row in Hsel as (Hb & Et & Ei).
    pose proof (E3 _ _ Hr) as Hr'. destruct (i_records _ _ _ _ _ _ Hw _ _ _ Hr') as (b1 & r1 & m & H1 & Et1 & Ei1 & Es1 & Ej & Em).
    rewrite <-E2 in H1. assert (b1 = b) as -> by (eapply (ru_id _ Hu); [done|done|congruence]). assert (r1 = r) by congruence. subst r1.
    apply (replay_upload_row input tenant newID now record d1 b r m) in H as (b' & r' & Hrow & E); [|done..].
    eapply Hout; [exact Hrow|exact E|]. intros tn k rec Hk. left. by apply E3.
  - rewrite bind_ok in H. destruct H as ([result1 d2] & Hc & H). rewrite bind_ok in H. destruct H as (u3 & _ & [= -> <-]).
    apply commit_bundle_row in Hc as (b & r' & Hrow & ->); [|done|].
    2: { intros b r. rewrite E2. intros Hb. exact (rounded_row _ _ (i_rows _ _ _ _ _ _ Hw _ _ Hb)). }
    eapply Hout; [exact Hrow|done|]. cbn. intros tn k rec [[[= <- <-] <-]|[_ Hk]]%lookup_insert_Some; [right|left; by apply E3].
    by eapply new_record_ok.
Qed.
End Effects.
