(* ===== verification/BundleProofs.v ===== *)
(** * The programs of the bundle service are safe

    Rely-guarantee proofs, call by call, of the programs of [BundleService] over
    the world of [BundleWorld]. *)
From stdpp Require Import prelude gmap strings sorting.
From S2P Require Import Prelude.
From S2P Require Import GoText.
From S2P Require Import Encodings.
From S2P Require Import Programs.
From S2P Require Import Manifest.
From S2P Require Import Store.
From S2P Require Import JobWorker.
From S2P Require Import BundleArchive.
From S2P Require Import BundleCache.
From S2P Require Import CacheSafety.
From S2P Require Import Bundles.
From S2P Require Import BundleService.
From S2P Require Import BundleWorld.
From S2P Require Import BundleSafety.
From S2P Require Import BundleEffects.

Open Scope Z_scope.

Section Proofs.
Context (json_policy : string → option TenantPolicy) (json_manifest : string → option Manifest)
        (metadata_json : BundleMetadata → string) (json_metadata : string → option BundleMetadata)
        (datetime3 : Z → Z) (sha256 : string → string) (hmac_sha256 : string → string → string)
        (zip_OpenReader : string → option (list zip_File)) (grace drift : Z) (uploadable : string → Prop).
Context (sha256_length : ∀ s, len (sha256 s) = 32) (json_roundtrip : ∀ m, json_metadata (metadata_json m) = Some m)
        (no_collision : ∀ a b, uploadable a → uploadable b → sha256 a = sha256 b → len a = len b).
Context (datetime3_near : ∀ t, t - millisecond ≤ datetime3 t ≤ t + millisecond)
        (datetime3_idem : ∀ t, datetime3 (datetime3 t) = datetime3 t).

Notation exec := (exec json_policy json_manifest metadata_json json_metadata datetime3 grace drift).
Notation inv := (inv metadata_json datetime3 sha256 drift uploadable).
Notation guarantee := (guarantee grace).
Notation stable := (Programs.stable environment inv guarantee).
Notation steady := (Programs.steady environment inv guarantee).
Notation safe := (Programs.safe exec environment inv guarantee).
Notation staged := (staged grace).
Notation expired := (expired grace).
Notation finished := (finished grace).
Notation claimed := (claimed sha256).

(** ** Steady facts *)
Lemma steady_and P P' : steady P → steady P' → steady (λ w, P w ∧ P' w).
Proof. intros H H' i. apply stable_and; [apply H|apply H']. Qed.

Lemma steady_pure (P : Prop) : steady (λ _, P).
Proof. intros i. apply stable_pure. Qed.

Lemma steady_exists {A} (P : A → bundle_world → Prop) : (∀ a, steady (P a)) → steady (λ w, ∃ a, P a w).
Proof. intros H i w w' Hw Hw' Hr [a Ha]. exists a. exact (H a i w w' Hw Hw' Hr Ha). Qed.

Lemma steady_impl (P : Prop) (F : bundle_world → Prop) : (P → steady F) → steady (λ w, P → F w).
Proof. intros H i w w' Hw Hw' Hr HF HP. exact (H HP i w w' Hw Hw' Hr (HF HP)). Qed.

Lemma stable_exists {A} i (P : A → bundle_world → Prop) : (∀ a, stable i (P a)) → stable i (λ w, ∃ a, P a w).
Proof. intros H w w' Hw Hw' Hr [a Ha]. exists a. exact (H a w w' Hw Hw' Hr Ha). Qed.

Lemma stable_impl i (P : Prop) (F : bundle_world → Prop) : stable i F → stable i (λ w, P → F w).
Proof. intros H w w' Hw Hw' Hr HF HP. exact (H w w' Hw Hw' Hr (HF HP)). Qed.

(** The external identifier of a tenant. *)
Definition tenant_is (k : Z) (tenantID : string) (w : bundle_world) : Prop :=
  ∃ t, bd_Tenants (bw_DB w) !! k = Some t ∧ tn_ExternalID t = tenantID.

(** The bundle that answers an upload. *)
Definition bundle_of (tenantID digest : string) (metadata : BundleMetadata) (b : Z) (r : publication_row) (w : bundle_world) : Prop :=
  known b r w ∧ tenant_is (pb_Tenant r) tenantID w ∧ rounded datetime3 metadata = row_metadata r ∧ pb_SHA256 r = digest.

Definition begun (i : nat) (w : bundle_world) : Prop := is_Some (bw_Began w !! i).

Lemma known_steady b r : steady (known b r).
Proof. intros i. apply known_stable. Qed.

Lemma ready_steady b r : steady (ready b r).
Proof. intros i. apply ready_stable. Qed.

Lemma present_steady key : steady (present key).
Proof. intros i. apply present_stable. Qed.

Lemma finished_steady key : steady (finished key).
Proof. intros i. apply finished_stable. Qed.

Lemma expired_steady key : steady (expired key).
Proof. intros i. apply expired_stable. Qed.

Lemma claimed_steady claim b r : steady (claimed claim b r).
Proof. intros i. apply claimed_stable. Qed.

Lemma issued_steady id : steady (λ w, is_Some (bw_Issued w !! id)).
Proof. apply steady_exists. intros j i. apply issued_stable. Qed.

Lemma begun_steady j : steady (begun j).
Proof. intros i w w' _ _ H%rely_relied [b Hb]. exists b. by apply (l_began _ _ _ _ H). Qed.

Lemma tenant_is_steady k tenantID : steady (tenant_is k tenantID).
Proof.
  intros i w w' _ _ H%rely_relied (t & Ht & <-). destruct (l_tenants _ _ _ _ H _ _ Ht) as (t' & Ht' & E). by exists t'.
Qed.

Lemma bundle_of_steady tenantID digest metadata b r : steady (bundle_of tenantID digest metadata b r).
Proof.
  apply steady_and; [apply known_steady|]. apply steady_and; [apply tenant_is_steady|apply steady_pure].
Qed.

(** An upload's key before it is committed; nobody else touches it. *)
Definition reserved (i : nat) (key : string) (w : bundle_world) : Prop :=
  owner key w = Some i ∧ key ∉ bw_Committed w ∧ validBundleStagingGCKey key = true.

Lemma reserved_stable i key : stable i (reserved i key).
Proof.
  intros w w' _ _ H%rely_relied (Ho & Hn & Hv). split_and!; [by eapply owner_mono; [apply (l_issued _ _ _ _ H)|]| |done].
  intros Hc. by destruct (l_new _ _ _ _ H key Hc Hn).
Qed.

Lemma staged_reserved i key content w : staged i key content w → reserved i key w.
Proof. by intros (? & ? & ? & _). Qed.

(** ** Calls *)
Lemma safe_then {A B} i (p : bprog (fallible A)) (f : A → bprog (fallible B)) P (Q : fallible A → bundle_world → Prop) Q' :
  safe i p P Q → (∀ a, safe i (f a) (Q (Ok a)) Q') → (∀ e w, inv w → Q (Err e) w → Q' (Err e) w) → safe i (then_ok p f) P Q'.
Proof.
  intros Hp Hf He. eapply safe_bind; [exact Hp|]. intros [a|e]; [apply Hf|]. apply safe_ret. intros w Hw HQ. exact (He e w Hw HQ).
Qed.

(** A call that changes nothing. *)
Lemma safe_same i (c : bundle_call) P (Q : answer c → bundle_world → Prop) :
  (∀ r, stable i (Q r)) → (∀ w r w', inv w → P w → exec i c w r w' → w' = w ∧ Q r w) → safe i (call c) P Q.
Proof.
  intros HQ H. apply safe_call; [done|]. intros w r w' Hw HP Hx. destruct (H w r w' Hw HP Hx) as [-> ?].
  split_and!; [done|apply guarantee_refl|done].
Qed.

(** A transaction. *)
Lemma transact_ok {A} i (may : Prop) (f : bundle_db → result bundle_error (A * bundle_db)) (Q : fallible A → bundle_world → Prop)
    (w w' : bundle_world) r :
  inv w → transact may f w r w' → Q (Err ErrBundleUnavailable) w → (∀ e, f (bw_DB w) = Err e → Q (Err e) w) →
  (∀ a d, may → f (bw_DB w) = Ok (a, d) → inv (with_db d w) ∧ guarantee i w (with_db d w) ∧
     Q (Ok a) (with_db d w) ∧ Q (Err ErrBundleUnavailable) (with_db d w)) →
  inv w' ∧ guarantee i w w' ∧ Q r w'.
Proof.
  intros Hw Hx Hun Herr Hok. destruct Hx as [[-> ->]|Hx]; [split_and!; [done|apply guarantee_refl|done]|].
  destruct (f (bw_DB w)) as [[a d]|e] eqn:Hf.
  - destruct Hx as (Hm & -> & Hr). destruct (Hok a d Hm eq_refl) as (? & ? & ? & ?). split_and!; try done. by destruct Hr as [-> | ->].
  - destruct Hx as [-> ->]. split_and!; [done|apply guarantee_refl|by apply Herr].
Qed.

Ltac transaction i r w' Hw Hx :=
  match goal with |- _ ∧ _ ∧ ?X => match eval pattern r, w' in X with ?Q _ _ => eapply (transact_ok i _ _ Q) end end;
  [exact Hw|exact Hx|try done; try (by split_and!)|try done; try (by intros; split_and!)|].

Lemma safe_now i P : safe i (call CNow) P (λ _ _, True).
Proof. apply safe_same; [intros ?; apply stable_pure|]. by intros w r w' _ _ [_ ->]. Qed.

(** The clock, with a fact that keeps. *)
Lemma safe_now_keep i P : stable i P → safe i (call CNow) P (λ _ w, P w).
Proof. intros HP. apply safe_same; [done|]. by intros w r w' _ ? [_ ->]. Qed.

Lemma CClaim_safe i tenantID bundleID leaseToken now leaseUntil :
  safe i (call (CClaim tenantID bundleID leaseToken now leaseUntil)) (λ _, True)
    (λ r w, ∀ claim, r = Ok (Some claim) → pc_BundleID claim = bundleID ∧ ∃ b r0, claimed claim b r0 w).
Proof.
  apply safe_call.
  - intros r w w' Hw Hw' Hr H claim E. destruct (H claim E) as (Eid & b & r0 & Hc). split; [done|]. exists b, r0.
    exact (claimed_steady claim b r0 i w w' Hw Hw' Hr Hc).
  - intros w r w' Hw _ Hx. cbn in Hx. transaction i r w' Hw Hx.
    intros a d _ Hf. apply (ClaimBundlePublication_ok metadata_json datetime3 sha256 grace drift uploadable i) in Hf as (? & ? & Hc); [|done].
    split_and!; try done. intros claim [= ->]. by apply Hc.
Qed.

Lemma CComplete_safe i claim b r0 readyAt :
  safe i (call (CComplete claim readyAt)) (λ w, claimed claim b r0 w ∧ present (pc_ObjectKey claim) w)
    (λ r w, r = Ok tt → ready b r0 w ∧ finished (pc_StagingKey claim) w).
Proof.
  apply safe_call.
  - intros r. apply stable_impl, stable_and; [apply ready_stable|apply finished_stable].
  - intros w r w' Hw [Hc Hp] Hx. transaction i r w' Hw Hx.
    intros [] d _ Hf. apply (CompleteBundlePublication_ok metadata_json datetime3 sha256 grace drift uploadable i w claim b r0) in Hf as (? & ? & ? & ?); done.
Qed.

Lemma CFail_safe i claim b r0 errorCode next maxAttempts :
  safe i (call (CFail claim errorCode next maxAttempts)) (claimed claim b r0)
    (λ r w, claimed claim b r0 w ∧ (r = Ok true → finished (pc_StagingKey claim) w)).
Proof.
  apply safe_call.
  - intros r. apply stable_and; [apply claimed_stable|]. apply stable_impl, finished_stable.
  - intros w r w' Hw Hc Hx. transaction i r w' Hw Hx.
    intros a d _ Hf. apply (FailBundlePublication_ok metadata_json datetime3 sha256 grace drift uploadable i w claim b r0) in Hf as (? & ? & ? & Hf); [|done|done].
    split_and!; try done. intros [= ->]. by apply Hf.
Qed.

(** ** The object store *)
Lemma safe_require {A} i b e (P : bundle_world → Prop) (f : unit → bprog (fallible A)) Q :
  safe i (f tt) P Q → (b = false → ∀ w, inv w → P w → Q (Err e) w) → safe i (then_ok (require b e) f) P Q.
Proof. intros Hf He. unfold require. destruct b; [done|]. intros w Hw HP. by apply He. Qed.

Lemma CStat_safe i key P : stable i P → safe i (call (CStat key)) P (λ r w, P w).
Proof. intros HP. apply safe_same; [done|]. by intros w r w' _ ? [-> _]. Qed.

Lemma CPut_safe i key content :
  safe i (call (CPut key content (hex_encode (sha256 content)))) (reserved i key) (λ r w, ∀ n, r = Ok n → staged i key content w).
Proof.
  apply safe_call.
  - intros r w w' Hw Hw' Hr H n E. exact (staged_stable _ _ _ _ _ _ i key content w w' Hw Hw' Hr (H n E)).
  - intros w r w' Hw (Ho & Hn & Hv) [[-> ->]|(modified & Hnear & -> & Hr)].
    + split_and!; [done|apply guarantee_refl|done].
    + destruct (put_ok metadata_json datetime3 sha256 grace drift uploadable i w key content modified Hw Ho Hn Hv Hnear) as (? & ? & ?).
      split_and!; done.
Qed.

(** A staging object may go when its upload gives it up before the commit, or when
    it is finished. *)
Definition removable (i : nat) (key : string) (w : bundle_world) : Prop :=
  reserved i key w ∨ (validBundleStagingGCKey key = true ∧ finished key w).

Lemma removable_stable i key : stable i (removable i key).
Proof.
  apply stable_or; [apply reserved_stable|]. apply stable_and; [apply stable_pure|apply finished_stable].
Qed.

Lemma CRemove_safe i key : safe i (call (CRemove key)) (removable i key) (λ r _, r ≠ Err ErrBundleStagingReferenceRace).
Proof.
  apply safe_call; [intros; apply stable_pure|]. intros w r w' Hw Hr Hx. assert (Hg : inv w' ∧ guarantee i w w').
  2: { destruct Hg. split_and!; [done..|]. by destruct Hx as [[-> _]|[_ [-> | ->]]]. }
  destruct Hx as [[-> ->]|[-> _]]; [split; [done|apply guarantee_refl]|]. apply (remove_ok metadata_json datetime3 sha256 grace drift uploadable); [done| | |].
  - by destruct Hr as [(_ & _ & ?)|[? _]].
  - destruct Hr as [(_ & Hn & _)|[_ [? _]]]; [|done]. intros (b & r' & Hb & Hk & _). by apply Hn, (i_keys _ _ _ _ _ _ Hw b r').
  - destruct Hr as [(? & ? & _)|[_ ?]]; [by left|by right].
Qed.

Lemma CCopy_safe i claim b r0 :
  safe i (call (CCopy (pc_ObjectKey claim) (pc_StagingKey claim) (hex_encode (pc_RequestHash claim)))) (claimed claim b r0) (λ _ _, True).
Proof.
  apply safe_call; [intros; apply stable_pure|]. intros w r w' Hw ([_ Ekey Edig Esize] & (r1 & Hb & Hid) & (_ & _ & Hobj) & _) Hx.
  assert (Hg : inv w' ∧ guarantee i w w'); [|by destruct Hg]. destruct Hx as [[-> ->]|(o & modified & Ho & _ & -> & _)]; [split; [done|apply guarantee_refl]|].
  apply identity_eq in Hid as (_ & _ & E3 & E4 & E5 & _). rewrite <-Ekey, <-Edig, <-E4, <-E3.
  destruct (copy_ok metadata_json datetime3 sha256 grace drift uploadable i w b r1 (pc_StagingKey claim) o modified Hw Hb Ho) as (? & ? & _); [|done].
  rewrite E3, E5, Edig, Esize. by apply Hobj.
Qed.

(** ** Programs over the object store *)
Lemma safe_done {A} i (a : A) (P : bundle_world → Prop) (Q : A → bundle_world → Prop) :
  (∀ w, inv w → P w → Q a w) → safe i (mret a) P Q.
Proof. done. Qed.

Lemma Stage_safe i key content :
  safe i (Stage key content (len content) (sha256 content)) (reserved i key) (λ r w, r = Ok tt → staged i key content w).
Proof.
  apply safe_require; [|done]. eapply safe_then; [apply CPut_safe| |done]. intros n.
  apply safe_require; [|done]. eapply safe_then; [apply (CStat_safe _ _ (λ w, ∀ m, Ok (E:=bundle_error) n = Ok m → staged i key content w))| |done].
  { intros w w' Hw Hw' Hr H m E. exact (staged_stable _ _ _ _ _ _ i key content w w' Hw Hw' Hr (H m E)). }
  intros [info|]; apply safe_done; [|done]. intros w _ H _. by apply (H n).
Qed.

Lemma Discard_safe i key : safe i (Discard key) (removable i key) (λ r _, r ≠ Err ErrBundleStagingReferenceRace).
Proof. apply safe_require; [|done]. apply CRemove_safe. Qed.

(** The final object of a claim, if the answer says there is one. *)
Lemma CStat_final_safe i claim b r0 :
  safe i (call (CStat (pc_ObjectKey claim))) (claimed claim b r0)
    (λ r w, (∀ info, r = Ok (Some info) → present (pc_ObjectKey claim) w) ∧ claimed claim b r0 w).
Proof.
  apply safe_same.
  - intros r. apply stable_and; [|apply claimed_stable]. intros w w' Hw Hw' Hr H info E.
    exact (present_steady (pc_ObjectKey claim) i w w' Hw Hw' Hr (H info E)).
  - intros w r w' Hw Hc [-> Hr]. split_and!; [done| |done]. intros info ->. destruct Hr as [[= E]|[=]].
    destruct Hc as ([_ Ekey _ _] & (r1 & Hb & Hid) & _). split.
    + apply identity_eq in Hid as (_ & _ & _ & E4 & _). rewrite <-Ekey, <-E4. by eapply row_final.
    + destruct (bw_Objects w !! pc_ObjectKey claim); [by eexists|done].
Qed.

Lemma Promote_safe i claim b r0 :
  safe i (Promote (pc_StagingKey claim) (pc_ObjectKey claim) (pc_SizeBytes claim) (pc_RequestHash claim)) (claimed claim b r0)
    (λ r w, (r = Ok tt → present (pc_ObjectKey claim) w) ∧ claimed claim b r0 w).
Proof.
  pose proof (claimed_stable metadata_json datetime3 sha256 grace drift uploadable i claim b r0) as Hst.
  apply safe_require; [|done]. eapply safe_then; [apply CStat_final_safe| |by intros ? ? ? [_ ?]]. intros [info|].
  - apply safe_done. intros w _ [H Hc]. split; [|done]. intros _. by apply (H info).
  - eapply safe_then; [eapply safe_pre; [|apply (CStat_safe _ _ (claimed claim b r0) Hst)]; by intros w _ [_ ?]| |done].
    intros [info|]; [|by apply safe_done]. apply safe_require; [|done].
    eapply safe_then; [eapply safe_keep; [apply (claimed_steady claim b r0)|apply (CCopy_safe _ _ b r0)|]; by intros w _ ?| |by intros e w _ [_ ?]].
    intros []. eapply safe_then; [eapply safe_pre; [|apply CStat_final_safe]; by intros w _ [_ ?]| |by intros ? ? ? [_ ?]].
    intros [info'|]; apply safe_done; [|by intros w _ [_ ?]].
    intros w _ [H Hc]. split; [|done]. intros _. by apply (H info').
Qed.

(** ** Identifiers *)
Lemma CRandomID_safe i :
  safe i (call CRandomID) (begun i)
    (λ r w, ∀ id, r = Ok id → externalIDPattern id = true ∧ is_Some (bw_Issued w !! id) ∧
       ∀ t d, externalIDPattern t = true → len d = 32 → reserved i (stagingBundleObjectKey t id d) w).
Proof.
  apply safe_call.
  - intros r w w' Hw Hw' Hr H id E. destruct (H id E) as (Hp & Hi & Hk). split_and!; [done|exact (issued_steady id i w w' Hw Hw' Hr Hi)|].
    intros t d Ht Hd. exact (reserved_stable i _ w w' Hw Hw' Hr (Hk t d Ht Hd)).
  - intros w r w' Hw Hb [(e & -> & ->)|(id & -> & Hp & Hn & ->)]; [split_and!; [done|apply guarantee_refl|done]|].
    destruct (issue_ok metadata_json datetime3 sha256 grace drift uploadable i w id Hw Hb Hn) as [? ?].
    split_and!; [done|done|]. intros id' [= <-]. split_and!; [done|cbn; rewrite lookup_insert_eq; by eexists|].
    intros t d Ht Hd. destruct (fresh_key metadata_json datetime3 sha256 drift uploadable w t id d Hw Hn Ht Hp Hd) as (Hc & Hv & Hu).
    split_and!; [|done|done]. unfold owner. rewrite Hu. cbn. apply lookup_insert_eq.
Qed.

(** ** Publication *)
Lemma ready_same w b r0 b1 r1 :
  inv w → known b r0 w → ready b1 r1 w → pb_ExternalID r0 = pb_ExternalID r1 → ready b r0 w.
Proof.
  intros Hw (r & Hb & Hid) (r' & Hb' & Hid' & Hs) E. assert (b1 = b) as ->.
  { eapply (ru_id _ (i_unique _ _ _ _ _ _ Hw)); [done|done|]. apply identity_eq in Hid as (-> & _). apply identity_eq in Hid' as (-> & _). done. }
  exists r. assert (r' = r) by congruence. subst. done.
Qed.

Lemma claimed_removable i claim b r0 w : claimed claim b r0 w → finished (pc_StagingKey claim) w → removable i (pc_StagingKey claim) w.
Proof. intros (_ & _ & (_ & ? & _) & _) ?. by right. Qed.

Lemma visible_steady bundleID : steady (visible bundleID).
Proof. do 2 (apply steady_exists; intros ?). apply steady_and; [apply ready_steady|apply steady_pure]. Qed.

Lemma claimed_visible claim b r0 w : claimed claim b r0 w → ready b r0 w → visible (pc_BundleID claim) w.
Proof. intros ([? _ _ _] & _) ?. by exists b, r0. Qed.

Lemma CFindBundle_safe i tenantID bundleID :
  safe i (call (CFindBundle tenantID bundleID)) (λ _, True) (λ r w, ∀ metadata, r = Ok metadata → visible bundleID w).
Proof.
  apply safe_same.
  - intros r w w' Hw Hw' Hr H m E. exact (visible_steady bundleID i w w' Hw Hw' Hr (H m E)).
  - intros w r w' Hw _ [-> Hr]. split; [done|]. intros m ->. destruct Hr as [E|[=]]. symmetry in E. by eapply FindBundle_ok.
Qed.

(** The removal of a claim's staging object, once it is finished. *)
Lemma Discard_claim_safe i claim b r0 F :
  steady F → safe i (Discard (pc_StagingKey claim)) (λ w, (claimed claim b r0 w ∧ finished (pc_StagingKey claim) w) ∧ F w) (λ _ w, F w).
Proof.
  intros HF. eapply safe_weaken; [| |apply (safe_frame exec environment inv guarantee i _ _ _ _ HF (Discard_safe i _))].
  - intros w _ [[Hc Hf] ?]. split; [by eapply claimed_removable|done].
  - by intros r w _ [_ ?].
Qed.

Lemma CComplete_claim_safe i claim b r0 readyAt :
  safe i (call (CComplete claim readyAt)) (λ w, (present (pc_ObjectKey claim) w) ∧ claimed claim b r0 w)
    (λ r w, (r = Ok tt → ready b r0 w ∧ finished (pc_StagingKey claim) w) ∧ claimed claim b r0 w).
Proof.
  eapply safe_keep; [apply claimed_steady|apply (CComplete_safe i claim b r0)|]. by intros w _ [? ?].
Qed.

Lemma publishOwnedBundle_safe i config tenantID metadata digest :
  safe i (publishOwnedBundle config tenantID metadata digest) (begun i) (λ r w, r = Ok tt → visible (bm_BundleID metadata) w).
Proof.
  unfold publishOwnedBundle. eapply safe_then; [apply CRandomID_safe| |done]. intros leaseToken.
  eapply safe_bind; [eapply safe_pre; [|apply safe_now]; done|]. intros now.
  eapply safe_then; [apply CClaim_safe| |done]. intros [claim|].
  2: { eapply safe_bind; [eapply safe_pre; [|apply CFindBundle_safe]; done|]. intros [m|e]; apply safe_done; [|done]. intros w _ H _. by apply (H m). }
  destruct (negb _); [by apply safe_done|].
  apply safe_pre with (P := λ w, ∃ b r0, pc_BundleID claim = bm_BundleID metadata ∧ claimed claim b r0 w).
  { intros w _ H. destruct (H claim eq_refl) as (? & b & r0 & ?). by exists b, r0. }
  apply safe_exists. intros b. apply safe_exists. intros r0. apply safe_pure. intros Eid.
  eapply safe_bind; [apply Promote_safe|]. intros [[]|e].
  - eapply safe_bind; [apply safe_now_keep, stable_and; [apply stable_impl, present_stable|apply claimed_stable]|]. intros readyAt.
    eapply safe_then; [eapply safe_pre; [|apply (CComplete_claim_safe _ _ b r0)]; intros w _ [H ?]; split; [by apply H|done]| |done].
    intros []. eapply safe_bind; [eapply safe_pre; [|apply (Discard_claim_safe _ _ b r0 _ (visible_steady (pc_BundleID claim)))]|].
    + intros w _ [H Hc]. destruct (H eq_refl) as [Hr Hf]. split; [done|by eapply claimed_visible].
    + intros d. apply safe_done. intros w _ Hv _. by rewrite <-Eid.
  - eapply safe_bind; [eapply safe_pre; [|apply (CFail_safe _ _ b r0)]; by intros w _ [_ ?]|]. intros d. by apply safe_done.
Qed.

(** ** The reconciler *)
Lemma CSweep_safe i before limit : safe i (call (CSweep before limit)) (λ _, True) (λ _ _, True).
Proof.
  apply safe_call; [intros; apply stable_pure|]. intros w r w' Hw _ (scan & clock & _ & Hx). transaction i r w' Hw Hx.
  intros n d _ Hf. apply (SweepUnrecoverable_nothing metadata_json datetime3 sha256 drift uploadable) in Hf as [_ ->]; [|done].
  rewrite (with_db_same metadata_json datetime3 sha256 drift uploadable) by done. split_and!; [done|apply guarantee_refl|done|done].
Qed.

Lemma ClaimNext_safe i leaseToken now leaseUntil :
  safe i (ClaimNextBundlePublication leaseToken now leaseUntil) (λ _, True)
    (λ r w, ∀ claim, r = Ok (Some claim) → ∃ b r0, claimed claim b r0 w).
Proof.
  apply safe_require; [|done]. eapply safe_then; [apply (safe_same _ _ _ (λ _ _, True))| |done].
  { intros; apply stable_pure. }
  { by intros w r w' _ _ [-> _]. }
  intros [[tenantID bundleID]|]; [|by apply safe_done].
  eapply safe_weaken; [| |apply CClaim_safe]; [done|]. intros r w _ H claim E. by destruct (H claim E) as [_ ?].
Qed.

Lemma ReconcileOnce_safe i config : safe i (ReconcileOnce config) (begun i) (λ _ _, True).
Proof.
  unfold ReconcileOnce. eapply safe_bind; [apply (safe_now_keep _ _ (begun_steady i i))|]. intros now.
  eapply safe_bind; [apply CRandomID_safe|]. intros [leaseToken|e]; [|by apply safe_done].
  eapply safe_bind; [eapply safe_pre; [|apply ClaimNext_safe]; done|]. intros [[claim|]|e]; [| |by apply safe_done].
  2: { eapply safe_bind; [eapply safe_pre; [|apply CSweep_safe]; done|]. intros d. by apply safe_done. }
  apply safe_pre with (P := λ w, ∃ b r0, claimed claim b r0 w). { intros w _ H. by apply H. }
  apply safe_exists. intros b. apply safe_exists. intros r0.
  eapply safe_bind; [apply Promote_safe|]. intros [[]|e].
  - eapply safe_bind; [apply safe_now_keep, stable_and; [apply stable_impl, present_stable|apply claimed_stable]|]. intros readyAt.
    eapply safe_bind; [eapply safe_pre; [|apply (CComplete_claim_safe _ _ b r0)]; intros w _ [H ?]; split; [by apply H|done]|].
    intros [[]|e]; [|by apply safe_done].
    eapply safe_bind; [eapply safe_pre; [|apply (Discard_claim_safe _ _ b r0 (λ _, True) (steady_pure True))]|intros d; by apply safe_done].
    intros w _ [H Hc]. by destruct (H eq_refl) as [_ Hf].
  - eapply safe_bind; [eapply safe_pre; [|apply (CFail_safe _ _ b r0)]; by intros w _ [_ ?]|]. intros [[]|e']; [| |by apply safe_done].
    + eapply safe_bind; [eapply safe_pre; [|apply (Discard_claim_safe _ _ b r0 (λ _, True) (steady_pure True))]|intros d; by apply safe_done].
      intros w _ [Hc H]. split; [|done]. split; [done|by apply H].
    + eapply safe_bind; [apply (safe_done _ _ _ (λ _ _, True)); done|]. intros d. by apply safe_done.
Qed.
End Proofs.
