(* ===== verification/BundleThreads.v ===== *)
(** * The collector and the uploads are safe, and so are all threads

    The collector removes a staging object only when it is finished; an upload
    keeps its staging object until its commit took it. Together with the
    reconciler these are all the threads of the service. *)
From stdpp Require Import prelude gmap strings sorting.
From S2P Require Import Prelude.
From S2P Require Import GoText.
From S2P Require Import Encodings.
From S2P Require Import Programs.
From S2P Require Import Manifest.
From S2P Require Import Store.
From S2P Require Import JobWorker.
From S2P Require Import BundleArchive.
From S2P Require Import BundleCache.
From S2P Require Import CacheSafety.
From S2P Require Import Bundles.
From S2P Require Import BundleService.
From S2P Require Import BundleWorld.
From S2P Require Import BundleSafety.
From S2P Require Import BundleEffects.
From S2P Require Import BundleProofs.

Open Scope Z_scope.

Section Threads.
Context (json_policy : string → option TenantPolicy) (json_manifest : string → option Manifest)
        (metadata_json : BundleMetadata → string) (json_metadata : string → option BundleMetadata)
        (datetime3 : Z → Z) (sha256 : string → string) (hmac_sha256 : string → string → string)
        (zip_OpenReader : string → option (list zip_File)) (grace drift : Z) (uploadable : string → Prop).
Context (sha256_length : ∀ s, len (sha256 s) = 32) (json_roundtrip : ∀ m, json_metadata (metadata_json m) = Some m)
        (no_collision : ∀ a b, uploadable a → uploadable b → sha256 a = sha256 b → len a = len b).
Context (datetime3_near : ∀ t, t - millisecond ≤ datetime3 t ≤ t + millisecond)
        (datetime3_idem : ∀ t, datetime3 (datetime3 t) = datetime3 t).

Notation exec := (exec json_policy json_manifest metadata_json json_metadata datetime3 grace drift).
Notation inv := (inv metadata_json datetime3 sha256 drift uploadable).
Notation guarantee := (guarantee grace).
Notation stable := (Programs.stable environment inv guarantee).
Notation steady := (Programs.steady environment inv guarantee).
Notation safe := (Programs.safe exec environment inv guarantee).
Notation staged := (staged grace).
Notation expired := (expired grace).
Notation finished := (finished grace).
Notation claimed := (claimed sha256).

Notation removable := (removable grace).
Notation bundle_of := (bundle_of datetime3).

(** ** The collector *)

(** What a listing shows of a staging key: its upload began before. *)
Definition listed (key : string) (modified : Z) (w : bundle_world) : Prop :=
  ∃ i began, owner key w = Some i ∧ bw_Began w !! i = Some began ∧ began ≤ modified + drift.

Lemma listed_steady key modified : steady (listed key modified).
Proof.
  intros i w w' _ _ H%rely_relied (j & began & Ho & Hb & Hl). exists j, began. split_and!; [|by apply (l_began _ _ _ _ H)|done].
  by eapply owner_mono; [apply (l_issued _ _ _ _ H)|].
Qed.

Lemma now_steady now : steady (λ w, now ≤ bw_Now w).
Proof. intros i w w' _ _ H%rely_relied ?. pose proof (l_now _ _ _ _ H). lia. Qed.

Definition seen (now : Z) (candidates : list (string * Z)) (w : bundle_world) : Prop :=
  (∀ c, c ∈ candidates → validBundleStagingGCKey c.1 = true → listed c.1 c.2 w) ∧ now ≤ bw_Now w.

Lemma seen_steady now candidates : steady (seen now candidates).
Proof.
  apply steady_and; [|apply now_steady]. intros i w w' Hw Hw' Hr H c Hc Hv. exact (listed_steady c.1 c.2 i w w' Hw Hw' Hr (H c Hc Hv)).
Qed.

Lemma list_page_object startAfter maxKeys objects p :
  p ∈ list_page startAfter maxKeys objects → ∃ o, objects !! p.1 = Some o ∧ p.2 = ob_LastModified o.
Proof.
  unfold list_page. intros ([key o] & -> & H)%list_elem_of_fmap. apply elem_of_take in H as (n & Hn%list_elem_of_lookup_2 & _).
  apply list_elem_of_filter in Hn as [_ Hn]. rewrite merge_sort_Permutation in Hn. apply elem_of_map_to_list in Hn. by exists o.
Qed.

Lemma CList_safe i now after limit :
  safe i (call (CList after limit)) (λ w, now ≤ bw_Now w)
    (λ r w, r ≠ Err ErrBundleStagingReferenceRace ∧ (∀ page, r = Ok page → seen now page w)).
Proof.
  apply safe_same.
  - intros r. apply stable_and; [apply stable_pure|]. intros w w' Hw Hw' Hr H page E.
    exact (seen_steady now page i w w' Hw Hw' Hr (H page E)).
  - intros w r w' Hw Hnow [-> Hr]. split_and!; [done|by destruct Hr as [-> | ->]|]. intros page ->. destruct Hr as [[= ->]|[=]].
    split; [|done]. intros [key m] (o & Ho & ->)%list_page_object Hv. destruct (i_staging _ _ _ _ _ _ Hw _ _ Ho Hv) as (j & began & ? & ? & ?).
    exists j, began. split_and!; [done..|]. cbn. lia.
Qed.

(** Nothing that old can still be committed. *)
Lemma listed_expired config now c w :
  0 ≤ grace → 0 ≤ drift → grace + drift ≤ 20 * minute → hour ≤ gc_MinimumAge config → now ≤ bw_Now w →
  listed c.1 c.2 w → c.2 < now - gc_MinimumAge config → expired c.1 w.
Proof.
  intros Hg Hd Hgd Hage Hnow (j & began & ? & ? & ?) Hm. exists j, began. split_and!; [done..|].
  unfold maximumBundleOperationTimeout. unfold hour, minute, second, millisecond in *. lia.
Qed.

Lemma CReferenced_safe i key :
  safe i (call (CReferenced key)) (expired key)
    (λ r w, r ≠ Err ErrBundleStagingReferenceRace ∧ (r = Ok false → finished key w)).
Proof.
  apply safe_same; [intros r; apply stable_and; [apply stable_pure|apply stable_impl, finished_stable]|].
  intros w r w' Hw He [-> Hr]. split_and!; [done| |].
  - intros ->. destruct Hr as [E|[=]]. unfold IsBundleStagingReferenced in E. by destruct (negb _).
  - intros ->. destruct Hr as [E|[=]]. symmetry in E. apply (IsBundleStagingReferenced_ok metadata_json datetime3 sha256 drift uploadable) in E; [|done].
    split; [|by right]. intros Hl. by apply E in Hl.
Qed.

(** A finished object is referenced no more. *)
Lemma CReferenced_finished_safe i key :
  safe i (call (CReferenced key)) (finished key) (λ r w, (r ≠ Err ErrBundleStagingReferenceRace ∧ r ≠ Ok true) ∧ finished key w).
Proof.
  apply safe_same; [intros r; apply stable_and; [apply stable_pure|apply finished_stable]|].
  intros w r w' Hw Hf [-> Hr]. split_and!; [done| | |done].
  - intros ->. destruct Hr as [E|[=]]. unfold IsBundleStagingReferenced in E. by destruct (negb _).
  - intros ->. destruct Hr as [E|[=]]. symmetry in E. apply (IsBundleStagingReferenced_ok metadata_json datetime3 sha256 drift uploadable) in E; [|done].
    apply Hf. by apply E.
Qed.

Definition no_race {A} (r : fallible A) : Prop := r ≠ Err ErrBundleStagingReferenceRace.

Lemma no_race_err {A B} (e : bundle_error) : no_race (A:=A) (Err e) → no_race (A:=B) (Err e).
Proof. intros H [= ->]. by apply H. Qed.

Lemma collect_candidate_safe i cutoff c :
  validBundleStagingGCKey c.1 = true ∧ c.2 < cutoff →
  safe i (collect_candidate cutoff c) (expired c.1) (λ r _, no_race r).
Proof.
  intros [Hv Hm]. destruct c as [key m]. cbn in Hv, Hm. unfold collect_candidate. rewrite Hv. cbn [negb orb].
  destruct (_ || _); [by apply safe_done|]. cbn [fst].
  eapply safe_then; [apply CReferenced_safe| |by intros e w _ [H _]; eapply no_race_err]. intros [|]; [by apply safe_done|].
  eapply safe_then; [eapply safe_pre; [|apply CReferenced_finished_safe]; intros w _ [_ H]; by apply H|
                     |intros e w _ [[H _] _]; by eapply no_race_err]. intros [|]; [by apply safe_done|].
  eapply safe_then; [eapply safe_keep; [apply (finished_steady metadata_json datetime3 sha256 grace drift uploadable key)|apply Discard_safe|]| |].
  - intros w _ [_ H]. split; [|done]. right. by split.
  - intros []. eapply safe_then; [eapply safe_pre; [|apply CReferenced_finished_safe]; by intros w _ [_ ?]|
                       |intros e w _ [[H _] _]; by eapply no_race_err].
    intros [|]; apply safe_done; [|done]. by intros w _ [[_ H] _].
  - intros e w _ [H _]. by eapply no_race_err.
Qed.

Context (grace_bound : 0 ≤ grace) (drift_bound : 0 ≤ drift) (late_bound : grace + drift ≤ 20 * minute).

Lemma collect_safe i config now candidates removed :
  hour ≤ gc_MinimumAge config →
  (∀ c, c ∈ candidates → validBundleStagingGCKey c.1 = true ∧ c.2 < now - gc_MinimumAge config) →
  safe i (collect (now - gc_MinimumAge config) removed candidates) (seen now candidates) (λ r _, no_race r.2).
Proof.
  intros Hage. revert removed. induction candidates as [|c candidates IH]; intros removed Hc; [by apply safe_done|]. cbn [collect].
  destruct (Hc c ltac:(apply list_elem_of_here)) as [Hv Hm].
  eapply safe_bind; [eapply safe_keep; [apply (seen_steady now candidates)|apply collect_candidate_safe; by split|]|].
  - intros w _ [Hs Hnow]. split.
    + eapply (listed_expired config now c w); try done. apply Hs; [apply list_elem_of_here|done].
    + split; [|done]. intros c' Hc'. apply Hs. by apply list_elem_of_further.
  - assert (IH' : ∀ removed, safe i (collect (now - gc_MinimumAge config) removed candidates) (seen now candidates) (λ r _, no_race r.2)).
    { intros n. apply IH. intros c' Hc'. apply Hc. by apply list_elem_of_further. }
    intros [[|]|e].
    + eapply safe_pre; [|apply IH']. by intros w _ [_ ?].
    + eapply safe_pre; [|apply IH']. by intros w _ [_ ?].
    + apply safe_done. intros w _ [H _]. by eapply no_race_err.
Qed.

Lemma staging_candidates_ok before page c :
  c ∈ staging_candidates before page → c ∈ page ∧ validBundleStagingGCKey c.1 = true ∧ c.2 < before.
Proof. intros [Hp ?]%list_elem_of_filter. bool_to_prop. split_and!; [done|done|lia]. Qed.

Lemma CNow_before i : safe i (call CNow) (λ _, True) (λ now w, now ≤ bw_Now w).
Proof. apply safe_same; [intros now; apply now_steady|]. by intros w r w' _ _ [-> ->]. Qed.

Lemma SweepOnce_safe i config cursor :
  hour ≤ gc_MinimumAge config → safe i (SweepOnce config cursor) (λ _, True) (λ r _, no_race r.1.2).
Proof.
  intros Hage. unfold SweepOnce. eapply safe_bind; [apply CNow_before|]. intros now.
  eapply safe_bind with (Q := λ r w, no_race r ∧ ∀ page, r = Ok page → seen now page.1 w ∧
    ∀ c, c ∈ page.1 → validBundleStagingGCKey c.1 = true ∧ c.2 < now - gc_MinimumAge config).
  - apply safe_require; [|done]. eapply safe_then; [apply CList_safe| |].
    + intros page. apply safe_done. intros w _ [_ H]. split; [done|]. intros _ [= <-]. cbn [fst]. destruct (H page eq_refl) as [Hs Hnow].
      split; [split; [|done]|]; intros c Hc; destruct (staging_candidates_ok _ _ _ Hc) as (? & ? & ?); auto.
    + intros e w _ [H _]. split; [by eapply no_race_err|done].
  - intros [[candidates next]|e].
    + apply safe_pre with (P := λ w, (∀ c, c ∈ candidates → validBundleStagingGCKey c.1 = true ∧ c.2 < now - gc_MinimumAge config) ∧ seen now candidates w).
      { intros w _ [_ H]. by destruct (H _ eq_refl) as [? ?]. }
      apply safe_pure. intros Hc. eapply safe_bind; [by apply (collect_safe i config)|]. intros [n r]. apply safe_done. by intros w _ H.
    + apply safe_done. intros w _ [H _]. by eapply no_race_err.
Qed.

(** ** Uploads *)

(** The bundle that answers an upload, and that it is ready if the answer says so. *)
Definition answering (tenantID digest : string) (metadata : BundleMetadata) (status : BundlePublicationStatus) (w : bundle_world) : Prop :=
  ∃ b r0, bundle_of tenantID digest metadata b r0 w ∧ (status = BundlePublicationReady → ready b r0 w).

Lemma answering_steady tenantID digest metadata status : steady (answering tenantID digest metadata status).
Proof.
  do 2 (apply steady_exists; intros ?). apply steady_and; [apply bundle_of_steady|]. apply steady_impl. intros _. apply ready_steady.
Qed.

Lemma row_answering w b r t tenantID digest metadata status :
  bd_Bundles (bw_DB w) !! b = Some r → bd_Tenants (bw_DB w) !! pb_Tenant r = Some t → tn_ExternalID t = tenantID →
  rounded datetime3 metadata = row_metadata r → pb_SHA256 r = digest → status = pb_Status r → answering tenantID digest metadata status w.
Proof.
  intros Hb Ht Et Em Ed Es. exists b, r. split.
  - split_and!; [by exists r|by exists t|done|done].
  - intros E. exists r. split_and!; congruence.
Qed.

Definition commit_answer (i : nat) (input : BundleCommitInput) (r : fallible BundleCommitResult) (w : bundle_world) : Prop :=
  match r with
  | Ok result =>
      answering (bi_TenantID input) (bi_RequestHash input) (br_Metadata result) (br_Status result) w ∧
      (br_StagingKey result = bi_StagingObjectKey input ∨ reserved i (bi_StagingObjectKey input) w)
  | Err e => definite_error e = true → reserved i (bi_StagingObjectKey input) w
  end.

Lemma commit_answer_stable i input r : stable i (commit_answer i input r).
Proof.
  destruct r as [result|e].
  - apply stable_and; [apply answering_steady|]. apply stable_or; [apply stable_pure|apply reserved_stable].
  - apply stable_impl, reserved_stable.
Qed.

Lemma CCommit_safe i input content :
  safe i (call (CCommit input)) (own_upload sha256 grace uploadable i input content) (commit_answer i input).
Proof.
  apply safe_call; [apply commit_answer_stable|]. intros w r w' Hw Hown (newID & clock & Hnew & Hx). pose proof Hown as (Hst & _).
  eapply transact_ok; [exact Hw|exact Hx|by intros ?| |].
  - intros e _ _. by eapply staged_reserved.
  - intros result d Htime Hf.
    apply (CommitBundleUpload_ok json_policy json_manifest metadata_json json_metadata datetime3 sha256 grace drift uploadable sha256_length json_roundtrip no_collision
             datetime3_near datetime3_idem i w input content)
      in Hf as (Hinv & Hg & (b & r0 & t & Hb & Ht & Et & Em & Ed & Es) & Hkey); [|done..].
    split_and!; [done|done| |by intros ?]. split; [by eapply row_answering|]. destruct Hkey as [?|?]; [by left|right]. by eapply staged_reserved.
Qed.

Lemma CFindUpload_safe i tenantID keyDigest :
  safe i (call (CFindUpload tenantID keyDigest)) (begun i)
    (λ r w, (∀ lookup, r = Ok (Some lookup) → answering tenantID (bl_RequestHash lookup) (bl_Metadata lookup) (bl_Status lookup) w) ∧ begun i w).
Proof.
  apply safe_same.
  - intros r. apply stable_and; [|apply begun_steady]. intros w w' Hw Hw' Hr H lookup E.
    exact (answering_steady _ _ _ _ i w w' Hw Hw' Hr (H lookup E)).
  - intros w r w' Hw Hb (clock & -> & Hr). split_and!; [done| |done]. intros lookup ->. destruct Hr as [E|[=]]. symmetry in E.
    eapply (FindBundleUpload_ok metadata_json json_metadata datetime3 sha256 drift uploadable json_roundtrip) in E as (b & r & t & ? & ? & ? & ? & ? & ?); [|done].
    by eapply row_answering.
Qed.

(** A bundle of the tenant with the digest, published. *)
Definition durable (tenantID digest : string) (metadata : BundleMetadata) (w : bundle_world) : Prop :=
  ∃ b r0, bundle_of tenantID digest metadata b r0 w ∧ ready b r0 w.

Definition durable_answer (tenantID digest : string) (r : fallible (BundleMetadata * bool)) (w : bundle_world) : Prop :=
  ∀ metadata replay, r = Ok (metadata, replay) → durable tenantID digest metadata w.

Lemma answering_visible w tenantID digest metadata status :
  inv w → answering tenantID digest metadata status w → visible (bm_BundleID metadata) w → durable tenantID digest metadata w.
Proof.
  intros Hw (b & r0 & Hb & _) (b1 & r1 & Hr & E). exists b, r0. split; [done|]. destruct Hb as (Hk & _ & Em & _).
  apply (ready_same metadata_json datetime3 sha256 drift uploadable w b r0 b1 r1); [done..|]. rewrite E. exact (eq_sym (f_equal bm_BundleID Em)).
Qed.

Lemma publish_answer_safe i config tenantID digest metadata status replay :
  safe i (_ ⇐ publishOwnedBundle config tenantID metadata digest; mret (Ok (metadata, replay)))
    (λ w, answering tenantID digest metadata status w ∧ begun i w) (durable_answer tenantID digest).
Proof.
  eapply safe_then; [eapply safe_keep; [apply (answering_steady tenantID digest metadata status)|apply publishOwnedBundle_safe|by intros w _ [? ?]]| |done].
  intros []. apply safe_done. intros w Hw [Hv Ha] m b [= <- <-]. eapply answering_visible; [done|done|by apply Hv].
Qed.

Lemma CRandomID_reserved_safe i key :
  safe i (call CRandomID) (λ w, begun i w ∧ reserved i key w)
    (λ r w, ((∀ id, r = Ok id → is_Some (bw_Issued w !! id)) ∧ reserved i key w) ∧ begun i w).
Proof.
  apply safe_call.
  - intros r. apply stable_and; [|apply begun_steady]. apply stable_and; [|apply reserved_stable].
    intros w w' Hw Hw' Hr H id E. exact (issued_steady _ _ _ _ _ _ id i w w' Hw Hw' Hr (H id E)).
  - intros w r w' Hw [Hb Hres] [(e & -> & ->)|(id & -> & Hp & Hn & ->)]; [split_and!; try done; apply guarantee_refl|].
    destruct (issue_ok metadata_json datetime3 sha256 grace drift uploadable i w id Hw Hb Hn) as [? Hg].
    split_and!; try done.
    + intros id' [= <-]. cbn. rewrite lookup_insert_eq. by eexists.
    + destruct Hres as (Ho & Hnc & Hv). split_and!; [|done|done]. eapply owner_mono; [apply (g_issued _ _ _ _ Hg)|done].
Qed.

Lemma Discard_own_safe i key F :
  steady F → safe i (Discard key) (λ w, reserved i key w ∧ F w) (λ _ w, F w).
Proof.
  intros HF. eapply safe_weaken; [| |eapply (safe_frame exec environment inv guarantee i _ _ _ _ HF (Discard_safe _ _ _ _ _ _ _ _ _ i _))].
  - intros w _ [Hc ?]. split; [by left|done].
  - by intros r w _ [_ ?].
Qed.

(** What an answered commit leads to. *)
Lemma committed_safe i config tenantID digest (result : BundleCommitResult) key :
  safe i
    (_ ← (if bool_decide (br_StagingKey result = key) then mret (Ok tt) else Discard key);
     if bool_decide (br_Status result = BundlePublicationReady) then mret (Ok (br_Metadata result, br_Replay result))
     else if bool_decide (br_Status result = BundlePublicationAbandoned) then fail_with ErrBundleAbandoned
     else
       _ ⇐ publishOwnedBundle config tenantID (br_Metadata result) digest;
       mret (Ok (br_Metadata result, br_Replay result)))
    (λ w, (answering tenantID digest (br_Metadata result) (br_Status result) w ∧ (br_StagingKey result = key ∨ reserved i key w)) ∧ begun i w)
    (durable_answer tenantID digest).
Proof.
  eapply safe_bind with (Q := λ _ w, answering tenantID digest (br_Metadata result) (br_Status result) w ∧ begun i w).
  - case_bool_decide; [apply safe_done; by intros w _ [[? _] ?]|]. eapply safe_pre; [|apply Discard_own_safe, steady_and; [apply answering_steady|apply begun_steady]].
    by intros w _ [[? [?|?]] ?].
  - intros d. case_bool_decide as Hr; [|case_bool_decide; [by apply safe_done|apply publish_answer_safe]].
    apply safe_done. intros w _ [(b & r0 & Hb & Hready) _] m replay [= <- <-]. exists b, r0. auto.
Qed.

(** The clock is past the first millisecond of time. *)
Lemma CNow_late i P : stable i P → safe i (call CNow) P (λ now w, millisecond < now ∧ P w).
Proof.
  intros HP. apply safe_same; [intros now; apply stable_and; [apply stable_pure|exact HP]|].
  intros w r w' Hw ? [-> ->]. split_and!; [done|exact (i_now _ _ _ _ _ _ Hw)|done].
Qed.

Lemma stage_and_commit_safe i config tenantID keyDigest content manifestJSON manifest :
  externalIDPattern tenantID = true → uploadable content →
  safe i (stage_and_commit sha256 config tenantID keyDigest content manifestJSON manifest) (begun i)
    (durable_answer tenantID (sha256 content)).
Proof.
  intros Ht Hup. unfold stage_and_commit.
  eapply safe_then; [eapply safe_keep; [apply (begun_steady _ _ _ _ _ _ i)|apply CRandomID_safe|done]| |done]. intros uploadID.
  set (key := stagingBundleObjectKey tenantID uploadID (sha256 content)).
  eapply safe_then; [eapply safe_pre; [|apply (CRandomID_reserved_safe i key)]| |done].
  { intros w _ [H Hb]. split; [done|]. destruct (H uploadID eq_refl) as (_ & _ & Hk). by apply Hk. }
  intros bundleID.
  eapply safe_then; [eapply safe_keep; [apply (steady_and _ _ _ _ _ _ _ _ (issued_steady _ _ _ _ _ _ bundleID) (begun_steady _ _ _ _ _ _ i))|apply Stage_safe|]| |done].
  { intros w _ [[Hi ?] ?]. split_and!; [done|by apply Hi|done]. }
  intros []. eapply safe_bind; [apply CNow_late, stable_and; [apply stable_impl, staged_stable|apply stable_and; [apply issued_steady|apply begun_steady]]|].
  intros now. apply safe_pure. intros Hnow.
  eapply safe_bind; [eapply safe_keep; [apply (begun_steady _ _ _ _ _ _ i)|apply (CCommit_safe i _ content)|]|].
  { intros w _ [Hs [Hi Hb]]. split; [|done]. split_and!; try done. by apply Hs. }
  intros [result|e].
  - eapply safe_pre; [|apply committed_safe]. by intros w _ [[? ?] ?].
  - eapply safe_bind with (Q := λ _ _, True); [|intros d; by apply safe_done]. destruct (definite_error e) eqn:He; [|by apply safe_done].
    eapply safe_pre; [|apply (Discard_own_safe i key (λ _, True) (steady_pure _ _ _ _ _ _ True))]. intros w _ [H _]. split; [by apply H|done].
Qed.

Definition upload_answer (config : BundleServiceConfig) (tenantID : string) (source : stream) (r : fallible (BundleMetadata * bool))
    (w : bundle_world) : Prop :=
  ∀ metadata replay, r = Ok (metadata, replay) →
    ∃ content, read_upload (cf_MaxUploadBytes config) source = Ok content ∧ durable tenantID (sha256 content) metadata w.

(** A step that does not call. *)
Lemma safe_pure_then {A B} i (r : fallible A) (f : A → bprog (fallible B)) P Q :
  (∀ a, r = Ok a → safe i (f a) P Q) → (∀ e w, r = Err e → Q (Err e) w) → safe i (then_ok (mret r) f) P Q.
Proof. intros Hf He. destruct r as [a|e]; [by apply Hf|]. intros w _ _. by apply He. Qed.

(** A call that changes nothing and only fails or succeeds. *)
Lemma safe_idle i (c : bundle_call) P :
  stable i P → (∀ w r w', exec i c w r w' → w' = w) → safe i (call c) P (λ _ w, P w).
Proof. intros HP H. apply safe_same; [done|]. intros w r w' _ HPw Hx. split; [by eapply H|done]. Qed.

Lemma UploadWithAdmission_safe i config tenantID idempotencyKey source admission :
  (∀ content, read_upload (cf_MaxUploadBytes config) source = Ok content → uploadable content) →
  safe i (UploadWithAdmission json_manifest sha256 hmac_sha256 zip_OpenReader config tenantID idempotencyKey source admission) (begun i)
    (upload_answer config tenantID source).
Proof.
  intros Hup. pose proof (begun_steady metadata_json datetime3 sha256 grace drift uploadable i i) as Hst. unfold UploadWithAdmission, require.
  apply safe_pure_then; [|done]. intros [] Ht%guard_err_ok. apply safe_pure_then; [|done]. intros keyDigest _.
  eapply safe_then; [apply (safe_idle _ CTempFile _ Hst); by intros w r w' ->| |done]. intros [].
  apply safe_pure_then; [|done]. intros content Hread.
  eapply safe_then with (Q := λ _, begun i).
  { destruct admission; [|by apply safe_done]. apply (safe_idle _ (CAdmit _) _ Hst). by intros w r w' ->. }
  2: done.
  intros []. apply safe_pure_then; [|done]. intros [manifest manifestJSON] _.
  assert (Hweak : ∀ P p, safe i p P (durable_answer tenantID (sha256 content)) → safe i p P (upload_answer config tenantID source)).
  { intros P p. apply safe_weaken; [done|]. intros r w _ H m replay E. exists content. split; [done|by eapply H]. }
  eapply safe_then; [apply CFindUpload_safe| |done]. intros [lookup|].
  - case_bool_decide as Ed; [|by apply safe_done]. cbn [negb]. apply Hweak. case_bool_decide as Es.
    { apply safe_done. intros w _ [H _] m replay [= <- <-]. destruct (H lookup eq_refl) as (b & r0 & Hb & Hr). exists b, r0. rewrite <-Ed. auto. }
    destruct (negb _).
    + eapply safe_pre; [|apply (publish_answer_safe _ _ _ _ _ (bl_Status lookup))]. intros w _ [H ?]. split; [|done]. rewrite <-Ed. by apply H.
    + eapply safe_pre; [|apply stage_and_commit_safe; [done|by apply Hup]]. by intros w _ [_ ?].
  - apply Hweak. eapply safe_pre; [|apply stage_and_commit_safe; [done|by apply Hup]]. by intros w _ [_ ?].
Qed.

(** ** All threads *)
Definition outcome_ok (config : BundleServiceConfig) (i : nat) (outcome : bundle_outcome) (w : bundle_world) : Prop :=
  match outcome with
  | Uploaded tenantID source r => upload_answer config tenantID source r w
  | Reconciled _ => True
  | Collected r => no_race r.1.2
  end.

Lemma thread_safe i config collector p :
  hour ≤ gc_MinimumAge collector →
  bundle_thread json_manifest sha256 hmac_sha256 zip_OpenReader uploadable config collector p → safe i p (begun i) (outcome_ok config i).
Proof.
  intros Hage Hp. destruct Hp.
  - eapply safe_bind; [by apply UploadWithAdmission_safe|]. intros r. by apply safe_done.
  - eapply safe_bind; [apply ReconcileOnce_safe|]. intros r. by apply safe_done.
  - eapply safe_bind; [eapply safe_pre; [|by apply SweepOnce_safe]; done|]. intros r. by apply safe_done.
Qed.
End Threads.
