(* ===== verification/BundleProperties.v ===== *)
(** * What the bundle service promises

    Over every run of uploads, reconcilers and collectors: what an answered upload
    has left, that no staging object is lost, that a tenant has one bundle per
    content, and that a reconciler publishes what is due.

    The second part proves that the reconciler publishes what is due. *)
From stdpp Require Import prelude gmap strings sorting.
From S2P Require Import Prelude.
From S2P Require Import GoText.
From S2P Require Import Encodings.
From S2P Require Import Programs.
From S2P Require Import Manifest.
From S2P Require Import Store.
From S2P Require Import JobWorker.
From S2P Require Import BundleArchive.
From S2P Require Import BundleCache.
From S2P Require Import CacheSafety.
From S2P Require Import Bundles.
From S2P Require Import BundleService.
From S2P Require Import BundleWorld.
From S2P Require Import BundleSafety.
From S2P Require Import BundleEffects.
From S2P Require Import BundleProofs.
From S2P Require Import BundleThreads.

Open Scope Z_scope.

Section Properties.
Context (json_policy : string → option TenantPolicy) (json_manifest : string → option Manifest)
        (metadata_json : BundleMetadata → string) (json_metadata : string → option BundleMetadata)
        (datetime3 : Z → Z) (sha256 : string → string) (hmac_sha256 : string → string → string)
        (zip_OpenReader : string → option (list zip_File)) (grace drift : Z) (uploadable : string → Prop)
        (config : BundleServiceConfig) (collector : collector_config) (now : Z) (tenants : gmap Z tenant_row).

(** What the service relies on: digests of 32 bytes that do not collide on uploads
    of different sizes, JSON that decodes what it encoded, columns that round an
    instant by a millisecond at most, clocks and commits that are at most twenty
    minutes late together, a collector that was configured, external identifiers
    that are unique, and a start after the first millisecond of time. *)
Record bundle_assumptions : Prop := {
  as_sha256 : ∀ s, len (sha256 s) = 32;
  as_json : ∀ m, json_metadata (metadata_json m) = Some m;
  as_datetime3 : ∀ t, t - millisecond ≤ datetime3 t ≤ t + millisecond;
  as_datetime3_idem : ∀ t, datetime3 (datetime3 t) = datetime3 t;
  as_no_collision : ∀ a b, uploadable a → uploadable b → sha256 a = sha256 b → len a = len b;
  as_grace : 0 ≤ grace;
  as_drift : 0 ≤ drift;
  as_late : grace + drift ≤ 20 * minute;
  as_collector : ∃ raw, NewBundleStagingGarbageCollector raw = Some collector;
  as_tenants : ∀ k1 k2 t1 t2, tenants !! k1 = Some t1 → tenants !! k2 = Some t2 → tn_ExternalID t1 = tn_ExternalID t2 → k1 = k2;
  as_now : millisecond < now
}.
Context (assumptions : bundle_assumptions).

Notation inv := (inv metadata_json datetime3 sha256 drift uploadable).
Notation bundle_step := (bundle_step json_policy json_manifest metadata_json json_metadata datetime3 sha256 hmac_sha256 zip_OpenReader grace drift
  uploadable config collector).

Lemma initial_inv : inv (th_World (initial_bundles now tenants)).
Proof. split; try done. exact (as_tenants assumptions). exact (as_now assumptions). Qed.

Lemma collector_age : hour ≤ gc_MinimumAge collector.
Proof.
  destruct (as_collector assumptions) as [raw H]. unfold NewBundleStagingGarbageCollector in H. destruct (_ || _) eqn:E; [done|].
  injection H as <-. rewrite !orb_false_iff, Z.ltb_ge in E. unfold minimumBundleStagingGarbageAge in E. cbn in *. tauto.
Qed.

Lemma bundles_reachable_ok y : rtc bundle_step (initial_bundles now tenants) y →
  inv (th_World y) ∧ ∀ i a, th_Threads y !! i = Some (Done a) → outcome_ok datetime3 sha256 config i a (th_World y).
Proof.
  intros Hs. destruct assumptions as [].
  eapply (threads_safe _ environment _ inv (guarantee grace) (outcome_ok datetime3 sha256 config)) in Hs as [Hw Hd].
  - split; [done|]. intros i a Hi. by destruct (Hd i a Hi) as (_ & _ & _ & ?).
  - intros w w'. apply environment_ok.
  - intros i p w w' Hw (Hn & -> & Hp). assert (He : environment w (begin_thread i w)) by by apply env_begin.
    split_and!; [by eapply environment_ok|done|]. exists (begun i). split_and!; [apply begun_steady| |].
    + unfold begun. cbn. rewrite lookup_insert_eq. by eexists.
    + eapply thread_safe; try done. apply collector_age.
  - split; [apply initial_inv|done].
Qed.

(** C5: an upload that was answered is durable: whatever else uploads, publishes
    and collects, from then on the tenant has a published bundle with the answered
    metadata (its time of creation as the column keeps it) and the digest of the
    bytes that were sent, and the object under its final key is in the store, with
    that digest and the recorded size. *)
Theorem uploaded_bundle_durable y i tenantID source metadata replay :
  rtc bundle_step (initial_bundles now tenants) y →
  th_Threads y !! i = Some (Done (Uploaded tenantID source (Ok (metadata, replay)))) →
  ∃ content b r t o, read_upload (cf_MaxUploadBytes config) source = Ok content ∧
    bd_Bundles (bw_DB (th_World y)) !! b = Some r ∧ bd_Tenants (bw_DB (th_World y)) !! pb_Tenant r = Some t ∧
    tn_ExternalID t = tenantID ∧ row_metadata r = rounded datetime3 metadata ∧ pb_SHA256 r = sha256 content ∧ pb_Status r = BundlePublicationReady ∧
    pb_ObjectKey r = bundleObjectKey tenantID (sha256 content) ∧
    bw_Objects (th_World y) !! pb_ObjectKey r = Some o ∧ sha256 (ob_Content o) = sha256 content ∧
    len (ob_Content o) = bm_SizeBytes metadata.
Proof using assumptions.
  intros Hs Hi. destruct (bundles_reachable_ok y Hs) as [Hw Hout]. specialize (Hout i _ Hi metadata replay eq_refl).
  destruct Hout as (content & Hread & b & r0 & (_ & Ht & Em & Hd) & r & Hb & Hid & Hr). apply identity_eq in Hid as (_ & E2 & E3 & _ & E5 & E6).
  destruct Ht as (t & Ht & Et). rewrite <-E2 in Ht. rewrite <-E3 in Hd. destruct (i_ready _ _ _ _ _ _ Hw _ _ Hb Hr) as [o Ho].
  destruct (i_final _ _ _ _ _ _ Hw _ _ _ Hb Ho) as (Hh & Hl & _). destruct (ro_tenant _ _ _ (i_rows _ _ _ _ _ _ Hw _ _ Hb)) as (t' & _ & Ht' & _ & Ek & _).
  assert (t' = t) by congruence. subst t'. exists content, b, r, t, o. pose proof (f_equal bm_SizeBytes Em) as Es. cbn in Es. split_and!; try done; congruence.
Qed.

(** C4: no object that is still needed is ever lost: in every reachable state a
    published bundle has its final object, a bundle still to be published has its
    staging object, both with the recorded digest and size, and no collector has
    found that it removed an object that a bundle refers to. *)
Theorem bundle_objects_kept y :
  rtc bundle_step (initial_bundles now tenants) y →
  (∀ b r, bd_Bundles (bw_DB (th_World y)) !! b = Some r →
     (pb_Status r = BundlePublicationReady →
        ∃ o, bw_Objects (th_World y) !! pb_ObjectKey r = Some o ∧ holds sha256 (pb_SHA256 r) (pb_SizeBytes r) o) ∧
     (publication_open r = true →
        ∃ key o, pb_StagingKey r = Some key ∧ bw_Objects (th_World y) !! key = Some o ∧ holds sha256 (pb_SHA256 r) (pb_SizeBytes r) o)) ∧
  ∀ i removed r cursor, th_Threads y !! i = Some (Done (Collected (removed, r, cursor))) → r ≠ Err ErrBundleStagingReferenceRace.
Proof using assumptions.
  intros Hs. destruct (bundles_reachable_ok y Hs) as [Hw Hout]. split; [|intros i removed r cursor Hi; exact (Hout i _ Hi)].
  intros b r Hb. split; intros Hr.
  - destruct (i_ready _ _ _ _ _ _ Hw _ _ Hb Hr) as [o Ho]. exists o. split; [done|by eapply i_final].
  - destruct (ro_tenant _ _ _ (i_rows _ _ _ _ _ _ Hw _ _ Hb)) as (t & key & _ & _ & _ & Hk & _).
    destruct (i_live _ _ _ _ _ _ Hw _ _ _ Hb Hk Hr) as [o Ho]. exists key, o. split_and!; [done|done|by eapply i_staged].
Qed.

(** Content is stored once per tenant: two answered uploads of one tenant
    whose bytes have the same digest were answered with the same bundle. (The times of creation agree as the column keeps them.) *)
Lemma one_bundle_per_content y i1 i2 tenantID source1 source2 content1 content2 metadata1 metadata2 replay1 replay2 :
  rtc bundle_step (initial_bundles now tenants) y →
  th_Threads y !! i1 = Some (Done (Uploaded tenantID source1 (Ok (metadata1, replay1)))) →
  th_Threads y !! i2 = Some (Done (Uploaded tenantID source2 (Ok (metadata2, replay2)))) →
  read_upload (cf_MaxUploadBytes config) source1 = Ok content1 → read_upload (cf_MaxUploadBytes config) source2 = Ok content2 →
  sha256 content1 = sha256 content2 → rounded datetime3 metadata1 = rounded datetime3 metadata2.
Proof using assumptions.
  intros Hs H1 H2 R1 R2 E. destruct (bundles_reachable_ok y Hs) as [Hw Hout].
  destruct (Hout i1 _ H1 metadata1 replay1 eq_refl) as (c1 & R1' & b1 & r1 & ((q1 & Hb1 & Hq1) & (t1 & Ht1 & Et1) & -> & D1) & _).
  destruct (Hout i2 _ H2 metadata2 replay2 eq_refl) as (c2 & R2' & b2 & r2 & ((q2 & Hb2 & Hq2) & (t2 & Ht2 & Et2) & -> & D2) & _).
  apply identity_eq in Hq1 as (_ & E1 & S1 & _ & _ & <-). apply identity_eq in Hq2 as (_ & E2 & S2 & _ & _ & <-).
  assert (pb_Tenant r1 = pb_Tenant r2) by (eapply (i_tenants _ _ _ _ _ _ Hw); [done|done|congruence]).
  assert (b1 = b2) by (eapply (ru_digest _ (i_unique _ _ _ _ _ _ Hw)); [done|done|congruence|congruence]).
  congruence.
Qed.

Lemma status_columns r : status_ok r →
  (is_Some (pb_LeaseToken r) ↔ pb_Status r = BundlePublicationPublishing) ∧ (is_Some (pb_LeaseUntil r) ↔ pb_Status r = BundlePublicationPublishing) ∧
  (is_Some (pb_ReadyAt r) ↔ pb_Status r = BundlePublicationReady) ∧ (is_Some (pb_AbandonedAt r) ↔ pb_Status r = BundlePublicationAbandoned).
Proof.
  unfold status_ok. destruct (pb_Status r); intros H; destruct_and? H;
    repeat match goal with E : _ = None |- _ => rewrite E; clear E end; split_and!; split; first [done|by intros []].
Qed.

(** The rows of bundles keep the constraints of their table: metadata that
    reads back, keys that belong to the tenant and the digest, a lease exactly while
    publishing, a time of publication exactly when published, a time of abandonment
    exactly when abandoned, and one row per identifier, per content of a tenant and
    per staging object. *)
Lemma bundle_rows_well_formed y b r :
  rtc bundle_step (initial_bundles now tenants) y → bd_Bundles (bw_DB (th_World y)) !! b = Some r →
  scanBundleMetadata r = Some (row_metadata r) ∧
  (∃ t key, bd_Tenants (bw_DB (th_World y)) !! pb_Tenant r = Some t ∧ pb_ObjectKey r = bundleObjectKey (tn_ExternalID t) (pb_SHA256 r) ∧
     pb_StagingKey r = Some key ∧ validStagingObjectKey (tn_ExternalID t) key (hex_encode (pb_SHA256 r)) = true) ∧
  (is_Some (pb_LeaseToken r) ↔ pb_Status r = BundlePublicationPublishing) ∧ (is_Some (pb_LeaseUntil r) ↔ pb_Status r = BundlePublicationPublishing) ∧
  (is_Some (pb_ReadyAt r) ↔ pb_Status r = BundlePublicationReady) ∧ (is_Some (pb_AbandonedAt r) ↔ pb_Status r = BundlePublicationAbandoned) ∧
  ∀ b' r', bd_Bundles (bw_DB (th_World y)) !! b' = Some r' →
    pb_ExternalID r' = pb_ExternalID r ∨ (pb_Tenant r' = pb_Tenant r ∧ pb_SHA256 r' = pb_SHA256 r) ∨ pb_StagingKey r' = pb_StagingKey r → b' = b.
Proof using assumptions.
  intros Hs Hb. destruct (bundles_reachable_ok y Hs) as [Hw _].
  destruct (i_rows _ _ _ _ _ _ Hw _ _ Hb) as [(t & key & ? & ? & ? & Hk & ?) [Hl Hm] _ _ _ _ _ Hst].
  pose proof (status_columns r Hst) as (S1 & S2 & S3 & S4). split; [|split; [|do 4 (split; [done|])]].
  - unfold scanBundleMetadata. rewrite Hm, Hl. done.
  - exists t, key. done.
  - intros b' r' Hb' [?|[[? ?]|Hk']].
    + by eapply (ru_id _ (i_unique _ _ _ _ _ _ Hw)).
    + by eapply (ru_digest _ (i_unique _ _ _ _ _ _ Hw)).
    + eapply (ru_staging _ (i_unique _ _ _ _ _ _ Hw)); [done|done| |exact Hk]. congruence.
Qed.
End Properties.

(** * The reconciler makes progress

    A reconciler that nothing disturbs publishes the first publication that is
    due: it claims the row, promotes the staging object, completes the row and
    removes the staging object. *)
(** ** Undisturbed calls *)
Section Calm.
Context (json_policy : string → option TenantPolicy) (json_manifest : string → option Manifest)
        (metadata_json : BundleMetadata → string) (json_metadata : string → option BundleMetadata) (datetime3 : Z → Z) (grace : Z).
Context (i : nat) (fresh : gmap string nat → string) (newID : Z).

Definition settle {A} (f : bundle_db → result bundle_error (A * bundle_db)) (w : bundle_world) : fallible A * bundle_world :=
  match f (bw_DB w) with Ok (a, d) => (Ok a, with_db d w) | Err e => (Err e, w) end.

(** Every call does its work at once; identifiers are drawn by [fresh], and rows
    are inserted as [newID]. *)
Definition may_commit (w : bundle_world) : bool :=
  is_none (bd_Bundles (bw_DB w) !! newID) &&
  match bw_Began w !! i with Some began => bw_Now w <=? began + maximumBundleOperationTimeout + grace | None => false end.

Definition calm (c : bundle_call) : bundle_world → answer c * bundle_world :=
  match c with
  | CNow => λ w, (bw_Now w, w)
  | CRandomID => λ w,
      let id := fresh (bw_Issued w) in
      if externalIDPattern id && is_none (bw_Issued w !! id) then (Ok id, issue id i w) else (Err ErrBundleUnavailable, w)
  | CAdmit _ => λ w, (Ok tt, w)
  | CTempFile => λ w, (Ok tt, w)
  | CFindUpload tenantID keyDigest => λ w, (FindBundleUpload json_metadata tenantID keyDigest (bw_Now w) (bw_DB w), w)
  | CCommit input => λ w,
      if may_commit w
      then settle (CommitBundleUpload datetime3 json_policy json_manifest metadata_json json_metadata input newID (bw_Now w)) w
      else (Err ErrBundleUnavailable, w)
  | CClaim tenantID bundleID leaseToken now leaseUntil => settle (ClaimBundlePublication datetime3 tenantID bundleID leaseToken now leaseUntil)
  | CSelectNext now => λ w, (Ok (selectNextPublication now (bw_DB w)), w)
  | CComplete claim readyAt => settle (CompleteBundlePublication datetime3 claim readyAt)
  | CFail claim errorCode nextAttempt maxAttempts => settle (FailBundlePublication datetime3 claim errorCode nextAttempt maxAttempts)
  | CSweep before limit => λ w,
      settle (SweepUnrecoverableBundlePublications (map_to_list (bd_Bundles (bw_DB w))).*1 before limit (bw_Now w)) w
  | CFindBundle tenantID bundleID => λ w, (FindBundle tenantID bundleID (bw_DB w), w)
  | CReferenced key => λ w, (IsBundleStagingReferenced key (bw_DB w), w)
  | CPut key content sha => λ w, (Ok (len content), put_object key (mkBundleObject content sha (bw_Now w)) w)
  | CStat key => λ w, (Ok (object_info <$> bw_Objects w !! key), w)
  | CCopy destination source sha => λ w,
      match bw_Objects w !! source with
      | Some o => (Ok tt, put_object destination (mkBundleObject (ob_Content o) sha (bw_Now w)) w)
      | None => (Err ErrBundleUnavailable, w)
      end
  | CRemove key => λ w, (Ok tt, with_objects (delete key) w)
  | CList startAfter maxKeys => λ w, (Ok (list_page startAfter maxKeys (bw_Objects w)), w)
  end.

Lemma settle_ok {A} (may : Prop) (f : bundle_db → result bundle_error (A * bundle_db)) w :
  may → transact may f w (settle f w).1 (settle f w).2.
Proof. right. unfold settle. destruct (f (bw_DB w)) as [[a d]|e]; cbn; [split_and!; [done|done|by left]|done]. Qed.

Lemma calm_exec drift c w :
  0 ≤ drift → exec json_policy json_manifest metadata_json json_metadata datetime3 grace drift i c w (calm c w).1 (calm c w).2.
Proof.
  intros Hd. assert (Hnear : near drift (bw_Now w) (bw_Now w)) by (unfold near; lia). destruct c; cbn; try (split; [done|by left]); try (by apply settle_ok); try done.
  - destruct (externalIDPattern _ && _) eqn:E; [right|left; by eexists]. apply andb_true_iff in E as [? E]. exists (fresh (bw_Issued w)).
    split_and!; try done. unfold is_none in E. by destruct (bw_Issued w !! fresh (bw_Issued w)).
  - exists (bw_Now w). split; [done|by left].
  - destruct (may_commit w) eqn:E.
    + unfold may_commit, is_none in E. apply andb_true_iff in E as [Hn Hb]. exists newID, (bw_Now w). split; [by destruct (bd_Bundles (bw_DB w) !! newID)|].
      apply settle_ok. destruct (bw_Began w !! i) as [began|] eqn:Hi; [|done]. exists began. split; [done|lia].
    + destruct (exist_fresh (dom (bd_Bundles (bw_DB w)))) as [id Hn%not_elem_of_dom]. exists id, 0. split; [done|by left].
  - eexists _, (bw_Now w). split; [done|by apply settle_ok].
  - right. exists (bw_Now w). split_and!; [apply Hnear..|done|by left].
  - destruct (bw_Objects w !! source) as [o|] eqn:Ho; [right|by left]. exists o, (bw_Now w). split_and!; try done; [apply Hnear..|by left].
  - right. split; [done|by left].
Qed.

Lemma run_then {A B} (p : bprog (fallible A)) (f : A → bprog (fallible B)) w :
  run calm (then_ok p f) w = let '(r, w') := run calm p w in match r with Ok a => run calm (f a) w' | Err e => (Err e, w') end.
Proof. unfold then_ok. rewrite run_bind. destruct (run calm p w) as [[a|e] w']; done. Qed.

End Calm.

(** ** Queries that find their row *)
Section Progress.
Context (json_policy : string → option TenantPolicy) (json_manifest : string → option Manifest)
        (metadata_json : BundleMetadata → string) (json_metadata : string → option BundleMetadata)
        (datetime3 : Z → Z) (sha256 : string → string) (grace drift : Z) (uploadable : string → Prop) (sha256_length : ∀ s, len (sha256 s) = 32).
Notation inv := (inv metadata_json datetime3 sha256 drift uploadable).
Notation holds := (holds sha256).
Notation claimed := (claimed sha256).
Notation finished := (finished grace).
Notation calm := (calm json_policy json_manifest metadata_json json_metadata datetime3 grace).

Lemma active_tenant_found w k t :
  inv w → bd_Tenants (bw_DB w) !! k = Some t → tn_Status t = "ACTIVE" → active_tenant (bw_DB w) (tn_ExternalID t) = Some (k, t).
Proof.
  intros Hw Ht Hs. unfold active_tenant. apply select_row_unique; [done|by rewrite Hs, !bool_decide_true|].
  intros k' t' Ht' Hp. bool_to_prop. by eapply (i_tenants _ _ _ _ _ _ Hw).
Qed.

Lemma update_found w b r (p : publication_row → bool) set e :
  inv w → bd_Bundles (bw_DB w) !! b = Some r → p r = true → (∀ r', p r' = true → pb_ExternalID r' = pb_ExternalID r) →
  update_one p set e (bw_DB w) = Ok (set r, set_bundles (insert b (set r)) (bw_DB w)).
Proof.
  intros Hw Hb Hp Hid. apply update_one_ok. exists b, r. split_and!; [|done|done]. apply select_row_unique; [done|done|].
  intros b' r' Hb' Hp'. eapply (ru_id _ (i_unique _ _ _ _ _ _ Hw)); [done|done|by apply Hid].
Qed.

(** The claim of a due row. *)
Definition claim_for (t : tenant_row) (r : publication_row) (leaseToken key : string) : BundlePublicationClaim :=
  mkPublicationClaim (tn_ExternalID t) (pb_ExternalID r) (pb_ObjectKey r) key (pb_SHA256 r) (pb_SizeBytes r) leaseToken (pb_AttemptCount r + 1).

Lemma claim_for_valid w b r t leaseToken key :
  inv w → bd_Bundles (bw_DB w) !! b = Some r → bd_Tenants (bw_DB w) !! pb_Tenant r = Some t → pb_StagingKey r = Some key →
  externalIDPattern leaseToken = true → validBundlePublicationClaim (claim_for t r leaseToken key) = true ∧
  externalIDPattern (tn_ExternalID t) = true ∧ externalIDPattern (pb_ExternalID r) = true ∧ len (pb_SHA256 r) = 32 ∧ 0 < pb_SizeBytes r.
Proof.
  intros Hw Hb Ht Hk Htok. destruct (i_rows _ _ _ _ _ _ Hw _ _ Hb) as [(t' & key' & Ht' & Hp & Ho & Hk' & Hv) [Hl Hm] _ _ _ Ha _ _].
  assert (t' = t) by congruence. assert (key' = key) by congruence. subst. unfold validBundleMetadata in Hm. cbn in Hm. bool_to_prop.
  split_and!; try done. unfold validBundlePublicationClaim. cbn. rewrite !andb_true_iff, !Z.ltb_lt, bool_decide_eq_true. split_and!; try done. lia.
Qed.

Lemma ClaimBundlePublication_due w b r t leaseToken key now leaseUntil :
  inv w → bd_Bundles (bw_DB w) !! b = Some r → bd_Tenants (bw_DB w) !! pb_Tenant r = Some t → tn_Status t = "ACTIVE" →
  publication_due now r = true → pb_StagingKey r = Some key → externalIDPattern leaseToken = true → now < leaseUntil →
  ClaimBundlePublication datetime3 (tn_ExternalID t) (pb_ExternalID r) leaseToken now leaseUntil (bw_DB w) =
    Ok (Some (claim_for t r leaseToken key), set_bundles (insert b (leased datetime3 leaseToken leaseUntil r)) (bw_DB w)).
Proof.
  intros Hw Hb Ht Hact Hdue Hk Htok Hnow. destruct (claim_for_valid w b r t leaseToken key Hw Hb Ht Hk Htok) as (Hv & Hp & Hi & Hl & _).
  unfold ClaimBundlePublication. rewrite Hp, Hi, Htok, (proj2 (Z.ltb_lt _ _) Hnow), (active_tenant_found w _ t Hw Ht Hact). cbn [andb guard_err mbind result_bind from_option].
  rewrite (update_found w b r); [|done|done|by rewrite Hdue, Z.eqb_refl, bool_decide_true|intros r' Hp'; by bool_to_prop].
  unfold scanBundlePublicationClaim. cbn. rewrite Hl, Hk. cbn. unfold claim_for in Hv. by rewrite Hv.
Qed.

Lemma CompleteBundlePublication_owned w b r t leaseToken leaseUntil key readyAt :
  inv w → bd_Bundles (bw_DB w) !! b = Some (leased datetime3 leaseToken leaseUntil r) → bd_Tenants (bw_DB w) !! pb_Tenant r = Some t →
  tn_Status t = "ACTIVE" → pb_DeletedAt r = None → validBundlePublicationClaim (claim_for t r leaseToken key) = true → readyAt ≠ zero_time →
  CompleteBundlePublication datetime3 (claim_for t r leaseToken key) readyAt (bw_DB w) =
    Ok (tt, set_bundles (insert b (published datetime3 readyAt (leased datetime3 leaseToken leaseUntil r))) (bw_DB w)).
Proof.
  intros Hw Hb Ht Hact Hd Hv Hz. unfold CompleteBundlePublication. rewrite Hv, (proj2 (Z.eqb_neq _ _) Hz).
  cbn [claim_for pc_TenantID]. rewrite (active_tenant_found w _ t Hw Ht Hact). cbn [andb negb guard_err mbind result_bind from_option].
  rewrite (update_found w b (leased datetime3 leaseToken leaseUntil r)); [done|done|done| |].
  - unfold owns_publication, bundle_with_id, claim_for. cbn. by rewrite Hd, Z.eqb_refl, !bool_decide_true.
  - intros r' Hp. unfold owns_publication, bundle_with_id in Hp. by bool_to_prop.
Qed.

Lemma verify_holds size digest o : holds digest size o → verifyBundleObject (object_info o) size digest = true.
Proof. intros (_ & Hl & Hs). unfold verifyBundleObject. cbn. rewrite Hl, Hs, Z.eqb_refl, bool_decide_true; done. Qed.

(** A promotion leaves the final object. *)
Lemma run_Promote i fresh newID w stagingKey finalKey size digest :
  stagingKey ≠ "" → finalKey ≠ "" → 0 < size →
  (∀ o, bw_Objects w !! finalKey = Some o → holds digest size o) → (∃ o, bw_Objects w !! stagingKey = Some o ∧ holds digest size o) →
  ∃ w', run (calm i fresh newID) (Promote stagingKey finalKey size digest) w = (Ok tt, w') ∧
    bw_DB w' = bw_DB w ∧ bw_Now w' = bw_Now w ∧
    (w' = w ∧ is_Some (bw_Objects w !! finalKey) ∨
     ∃ o, bw_Objects w !! stagingKey = Some o ∧ w' = put_object finalKey (mkBundleObject (ob_Content o) (hex_encode digest) (bw_Now w)) w).
Proof.
  intros Hs Hf Hsize Hfinal (o & Ho & Hh). unfold Promote, require. rewrite !bool_decide_false by done.
  rewrite (proj2 (Z.ltb_lt _ _) Hsize). cbn [negb andb guard_err]. rewrite run_then. cbn [run mret prog_ret]. rewrite run_then. cbn [run call prog_bind calm].
  destruct (bw_Objects w !! finalKey) as [o'|] eqn:Ho'; cbn [fmap option_fmap option_map].
  - unfold verify_object, require. rewrite (verify_holds _ _ _ (Hfinal _ eq_refl)). exists w. split_and!; try done. left. split; [done|by eexists].
  - rewrite run_then. cbn [run call calm]. rewrite Ho. cbn [fmap option_fmap option_map]. rewrite run_then. unfold verify_object, require.
    rewrite (verify_holds _ _ _ Hh). cbn [run guard_err mret prog_ret]. rewrite run_then. cbn [run call calm]. rewrite Ho. cbn [run].
    set (o' := mkBundleObject (ob_Content o) (hex_encode digest) (bw_Now w)). exists (put_object finalKey o' w). split_and!; [|done|done|right; by exists o].
    rewrite run_then. cbn [run call calm put_object with_objects bw_Objects]. rewrite lookup_insert_eq. cbn [fmap option_fmap option_map].
    rewrite (verify_holds size digest); [done|]. destruct Hh as (? & ? & _). done.
Qed.

Lemma due_staged w b r now :
  inv w → bd_Bundles (bw_DB w) !! b = Some r → publication_due now r = true →
  ∃ key o, pb_StagingKey r = Some key ∧ key ≠ "" ∧ pb_ObjectKey r ≠ "" ∧ bw_Objects w !! key = Some o ∧ holds (pb_SHA256 r) (pb_SizeBytes r) o.
Proof.
  intros Hw Hb [_ Hopen]%publication_due_open. destruct (i_rows _ _ _ _ _ _ Hw _ _ Hb) as [(t & key & _ & Hp & Hok & Hk & _) _ _ _ _ _ _ _].
  destruct (i_live _ _ _ _ _ _ Hw _ _ _ Hb Hk Hopen) as [o Ho]. pose proof (i_keys _ _ _ _ _ _ Hw _ _ _ Hb Hk) as Hc.
  destruct (i_committed _ _ _ _ _ _ Hw _ Hc) as [Hv _]. exists key, o. split_and!; try done.
  - intros ->. vm_compute in Hv. discriminate Hv.
  - intros E. apply (f_equal split_slash) in E. rewrite Hok, bundleObjectKey_split in E by done. discriminate E.
  - by eapply i_staged.
Qed.

(** The whole of an undisturbed [ReconcileOnce]. *)
Lemma run_ReconcileOnce i fresh newID w config b r t :
  inv w → begun i w → externalIDPattern fresh = true → bw_Issued w !! fresh = None → 0 < cf_PublicationLease config →
  bd_Bundles (bw_DB w) !! b = Some r → bd_Tenants (bw_DB w) !! pb_Tenant r = Some t → tn_Status t = "ACTIVE" →
  publication_due (bw_Now w) r = true → selectNextPublication (bw_Now w) (bw_DB w) = Some (tn_ExternalID t, pb_ExternalID r) →
  ∃ w' r' key, run (calm i (λ _, fresh) newID) (ReconcileOnce config) w = ((true, Ok tt), w') ∧
    bd_Bundles (bw_DB w') !! b = Some r' ∧ identity r' = identity r ∧ pb_Status r' = BundlePublicationReady ∧
    pb_StagingKey r = Some key ∧ bw_Objects w' !! key = None.
Proof.
  intros Hw Hbegun Hfresh Hn Hlease Hb Ht Hact Hdue Hsel. pose proof (i_now _ _ _ _ _ _ Hw) as Hlate.
  assert (Hz : bw_Now w ≠ zero_time) by (unfold zero_time, millisecond in *; lia).
  destruct (issue_ok metadata_json datetime3 sha256 grace drift uploadable i w fresh Hw Hbegun Hn) as [Hw1 _]. set (w1 := issue fresh i w) in *.
  destruct (due_staged w1 b r (bw_Now w) Hw1 Hb Hdue) as (key & o & Hk & Hke & Hoe & Ho & Hh).
  set (until := bw_Now w + cf_PublicationLease config). set (claim := claim_for t r fresh key).
  assert (Hc : ClaimBundlePublication datetime3 (tn_ExternalID t) (pb_ExternalID r) fresh (bw_Now w) until (bw_DB w1) =
            Ok (Some claim, set_bundles (insert b (leased datetime3 fresh until r)) (bw_DB w1))) by (apply ClaimBundlePublication_due; try done; lia).
  destruct (ClaimBundlePublication_ok metadata_json datetime3 sha256 grace drift uploadable i _ _ _ _ _ _ _ _ Hw1 Hc) as (Hw2 & _ & _).
  set (w2 := with_db _ w1) in Hw2. assert (Hb2 : bd_Bundles (bw_DB w2) !! b = Some (leased datetime3 fresh until r)) by apply lookup_insert_eq.
  destruct (claim_for_valid w1 b r t fresh key Hw1 Hb Ht Hk Hfresh) as (Hv & Hp & Hid & Hl & Hsize).
  destruct (run_Promote i (λ _, fresh) newID w2 key (pb_ObjectKey r) (pb_SizeBytes r) (pb_SHA256 r)) as (w3 & Hprom & Edb & Enow & Hcases); try done.
  { intros o' Ho'. exact (i_final _ _ _ _ _ _ Hw2 b _ o' Hb2 Ho'). }
  { by exists o. }
  assert (Hw3 : inv w3).
  { destruct Hcases as [[-> _]|(o' & Ho' & ->)]; [done|].
    apply (copy_ok metadata_json datetime3 sha256 grace drift uploadable i w2 b (leased datetime3 fresh until r) key o' (bw_Now w2) Hw2 Hb2 Ho').
    exact (i_staged _ _ _ _ _ _ Hw2 b _ key o' Hb2 Hk Ho'). }
  assert (Hcomp : CompleteBundlePublication datetime3 claim (bw_Now w) (bw_DB w3) =
            Ok (tt, set_bundles (insert b (published datetime3 (bw_Now w) (leased datetime3 fresh until r))) (bw_DB w3))).
  { apply CompleteBundlePublication_owned; try done; [by rewrite Edb|by rewrite Edb|].
    by destruct (ro_kept _ _ _ (i_rows _ _ _ _ _ _ Hw1 _ _ Hb)). }
  eexists _, (published datetime3 (bw_Now w) (leased datetime3 fresh until r)), key. split.
  { unfold ReconcileOnce. rewrite run_bind. cbn [run call calm]. rewrite run_bind. cbn [run call calm]. rewrite Hfresh, Hn. cbn [andb is_none is_some negb].
    fold until. rewrite run_bind. unfold ClaimNextBundlePublication, require. rewrite Hfresh, (proj2 (Z.ltb_lt (bw_Now w) until)) by lia.
    rewrite run_then. cbn [run andb guard_err mret prog_ret]. rewrite run_then. cbn [run call calm]. fold w1. change (bw_DB w1) with (bw_DB w). rewrite Hsel.
    cbn [run call calm settle]. unfold settle. change (bw_DB w) with (bw_DB w1). rewrite Hc. fold w2. cbn [run].
    rewrite run_bind. cbn [claim claim_for pc_StagingKey pc_ObjectKey pc_SizeBytes pc_RequestHash]. rewrite Hprom.
    rewrite run_bind. cbn [run call calm]. rewrite Enow. change (bw_Now w2) with (bw_Now w). rewrite run_bind. cbn [run call calm]. unfold settle.
    fold claim. rewrite Hcomp. cbn [run]. rewrite run_bind. unfold Discard, require. rewrite bool_decide_false by done.
    cbn [negb guard_err]. rewrite run_then. cbn [run call calm mret prog_ret]. reflexivity. }
  split_and!; [apply lookup_insert_eq|done|done|done|apply lookup_delete_eq].
Qed.

(** ** Which publication comes first *)
Lemma due_before_asym a b : due_before a b = true → due_before b a = false.
Proof.
  unfold due_before. rewrite orb_true_iff, andb_true_iff, orb_false_iff, andb_false_iff, !Z.ltb_lt, !Z.ltb_ge, Z.eqb_eq, Z.eqb_neq. lia.
Qed.

Lemma due_before_neg_trans a b c : due_before a b = false → due_before b c = false → due_before a c = false.
Proof.
  unfold due_before. rewrite !orb_false_iff, !andb_false_iff, !Z.ltb_ge, !Z.eqb_neq. lia.
Qed.

Lemma due_candidates_elem now d b r t :
  ((b, r), t) ∈ due_candidates now d ↔
  bd_Bundles d !! b = Some r ∧ bd_Tenants d !! pb_Tenant r = Some t ∧ tn_Status t = "ACTIVE" ∧ publication_due now r = true.
Proof.
  unfold due_candidates. rewrite list_elem_of_omap. split.
  - intros ([b' r'] & Hin%elem_of_map_to_list & H). apply bind_Some in H as (t' & Ht & H). cbn in Ht, H.
    case_match eqn:E; [|done]. injection H as -> -> ->. bool_to_prop. done.
  - intros (Hb & Ht & Hs & Hd). exists (b, r). split; [by apply elem_of_map_to_list|]. cbn. rewrite Ht. cbn. by rewrite Hs, Hd, bool_decide_true.
Qed.

Lemma selectNextPublication_first now d b r t :
  bd_Bundles d !! b = Some r → bd_Tenants d !! pb_Tenant r = Some t → tn_Status t = "ACTIVE" → publication_due now r = true →
  ∃ b0 r0 t0, selectNextPublication now d = Some (tn_ExternalID t0, pb_ExternalID r0) ∧
    bd_Bundles d !! b0 = Some r0 ∧ bd_Tenants d !! pb_Tenant r0 = Some t0 ∧ tn_Status t0 = "ACTIVE" ∧ publication_due now r0 = true ∧
    (pb_NextAttemptAt r0 < pb_NextAttemptAt r ∨ pb_NextAttemptAt r0 = pb_NextAttemptAt r ∧ b0 ≤ b).
Proof.
  intros Hb Ht Hs Hd. assert (Hin : ((b, r), t) ∈ due_candidates now d) by by apply due_candidates_elem.
  unfold selectNextPublication. destruct (first_by due_before (due_candidates now d)) as [[[b0 r0] t0]|] eqn:E.
  - exists b0, r0, t0. split; [done|]. pose proof (first_by_elem _ _ _ E) as H0. apply due_candidates_elem in H0 as (? & ? & ? & ?).
    split_and!; try done. pose proof (first_by_least due_before _ _ due_before_asym due_before_neg_trans E _ Hin) as Hl.
    unfold due_before in Hl. cbn in Hl. rewrite orb_false_iff, andb_false_iff, !Z.ltb_ge, Z.eqb_neq in Hl. lia.
  - apply first_by_None in E. rewrite E in Hin. by apply not_elem_of_nil in Hin.
Qed.
End Progress.

(** ** The theorem *)
Section Liveness.
Context (json_policy : string → option TenantPolicy) (json_manifest : string → option Manifest)
        (metadata_json : BundleMetadata → string) (json_metadata : string → option BundleMetadata)
        (datetime3 : Z → Z) (sha256 : string → string) (hmac_sha256 : string → string → string)
        (zip_OpenReader : string → option (list zip_File)) (grace drift : Z) (uploadable : string → Prop)
        (config : BundleServiceConfig) (collector : collector_config) (now : Z) (tenants : gmap Z tenant_row).
Notation bundle_step := (bundle_step json_policy json_manifest metadata_json json_metadata datetime3 sha256 hmac_sha256 zip_OpenReader grace drift
  uploadable config collector).

(** C12: whatever has happened before, a reconciler that is not disturbed makes
    progress: when a publication of an active tenant is due, the one that has
    waited longest is published, its staging object is removed, and
    [ReconcileOnce] reports that there was something to do and no error. *)
Theorem reconciler_publishes_due y i fresh b r t :
  bundle_assumptions metadata_json json_metadata datetime3 sha256 grace drift uploadable collector now tenants →
  rtc bundle_step (initial_bundles now tenants) y →
  th_Threads y !! i = Some (result ← ReconcileOnce config; mret (Reconciled result)) → is_Some (bw_Began (th_World y) !! i) →
  externalIDPattern fresh = true → bw_Issued (th_World y) !! fresh = None → 0 < cf_PublicationLease config →
  bd_Bundles (bw_DB (th_World y)) !! b = Some r → bd_Tenants (bw_DB (th_World y)) !! pb_Tenant r = Some t → tn_Status t = "ACTIVE" →
  publication_due (bw_Now (th_World y)) r = true →
  ∃ b0 r0 y' r', bd_Bundles (bw_DB (th_World y)) !! b0 = Some r0 ∧ publication_due (bw_Now (th_World y)) r0 = true ∧
    (pb_NextAttemptAt r0 < pb_NextAttemptAt r ∨ pb_NextAttemptAt r0 = pb_NextAttemptAt r ∧ b0 ≤ b) ∧
    rtc bundle_step y y' ∧ th_Threads y' !! i = Some (Done (Reconciled (true, Ok tt))) ∧
    bd_Bundles (bw_DB (th_World y')) !! b0 = Some r' ∧ row_metadata r' = row_metadata r0 ∧ pb_Status r' = BundlePublicationReady ∧
    ∀ key, pb_StagingKey r0 = Some key → bw_Objects (th_World y') !! key = None.
Proof.
  intros Ha Hs Hi Hbegun Hfresh Hn Hlease Hb Ht Hact Hdue. pose proof (as_drift _ _ _ _ _ _ _ _ _ _ Ha) as Hdrift.
  destruct (bundles_reachable_ok _ json_manifest _ _ _ _ hmac_sha256 zip_OpenReader _ _ _ config _ now _ Ha y Hs) as [Hw _].
  destruct (selectNextPublication_first _ _ b r t Hb Ht Hact Hdue) as (b0 & r0 & t0 & Hsel & Hb0 & Ht0 & Hact0 & Hdue0 & Hle).
  destruct (run_ReconcileOnce json_policy json_manifest metadata_json json_metadata datetime3 sha256 grace drift uploadable i fresh 0 (th_World y) config b0 r0 t0)
    as (w' & r' & key & Hrun & Hb' & Hid & Hready & Hk & Hgone); try done.
  pose proof (run_reaches (BundleWorld.exec json_policy json_manifest metadata_json json_metadata datetime3 grace drift) environment
    (starts json_manifest sha256 hmac_sha256 zip_OpenReader uploadable config collector) (calm json_policy json_manifest metadata_json json_metadata datetime3 grace i (λ _, fresh) 0) i _ (th_World y) (th_Threads y)
    (λ c w, calm_exec json_policy json_manifest metadata_json json_metadata datetime3 grace i (λ _, fresh) 0 drift c w Hdrift) Hi) as Hr.
  rewrite run_bind, Hrun in Hr. cbn [run mret prog_ret] in Hr. exists b0, r0, (mkThreads w' (<[i := Done (Reconciled (true, Ok tt))]> (th_Threads y))), r'.
  split_and!; try done.
  - by destruct y.
  - apply lookup_insert_eq.
  - by apply identity_eq in Hid as (_ & _ & _ & _ & _ & ?).
  - intros key' Hk'. assert (key' = key) by congruence. by subst.
Qed.
End Liveness.
