(* ===== verification/BundleWitness.v ===== *)
(** * A bundle that is packed, opened, cached, uploaded and published *)
From stdpp Require Import prelude gmap strings countable.
From S2P Require Import Prelude.
From S2P Require Import GoText.
From S2P Require Import Encodings.
From S2P Require Import Programs.
From S2P Require Import Manifest.
From S2P Require Import Store.
From S2P Require Import StoreExample.
From S2P Require Import BundleArchive.
From S2P Require Import ArchiveSafety.
From S2P Require Import BundleCache.
From S2P Require Import CacheSafety.
From S2P Require Import Bundles.
From S2P Require Import BundleService.
From S2P Require Import BundleWorld.
From S2P Require Import BundleSafety.
From S2P Require Import BundleThreads.
From S2P Require Import BundleProperties.
Import Example.

Open Scope Z_scope.

(** ** Text for any countable data *)
Definition digit0 : Ascii.ascii := ascii_of_byte 48.
Definition digit1 : Ascii.ascii := ascii_of_byte 49.

Fixpoint pos_string (p : positive) : string :=
  match p with xH => "" | xO p => String digit0 (pos_string p) | xI p => String digit1 (pos_string p) end.

Fixpoint string_pos (s : string) : positive :=
  match s with "" => xH | String a s => if bool_decide (a = digit1) then xI (string_pos s) else xO (string_pos s) end.

Lemma string_pos_string p : string_pos (pos_string p) = p.
Proof. induction p as [p IH|p IH|]; cbn; by rewrite ?IH. Qed.

Lemma pos_string_valid p : valid_string (pos_string p) = true.
Proof.
  unfold valid_string. induction p as [p IH|p IH|]; [| |done]; cbn [pos_string]; rewrite runes_ascii_cons by (by vm_compute);
    cbn [forallb]; by rewrite IH.
Qed.

(** A digest of 32 bytes. *)
Definition digest (s : string) : string := stake 32 (s +:+ String.concat "" (repeat " " 32)).

Lemma digest_length s : len (digest s) = 32.
Proof. unfold digest, len. rewrite stake_length; [done|]. rewrite string_length_append. change (String.length (String.concat "" _)) with 32%nat. lia. Qed.

(** ** One archive *)
Definition text_entry (name data : string) : zip_File :=
  mkZipFile name true 0 zip_Deflate (len data) (len data) (Some (mkStream data true)).

Definition the_entries : list zip_File :=
  [text_entry reserved_name "manifest"; text_entry "cases/1.in" "1 2"; text_entry "cases/1.out" "3"].

Definition the_reader (file : string) : option (list zip_File) :=
  if bool_decide (file = "zip") then Some the_entries else None.

Definition the_limits : ArchiveLimits := mkArchiveLimits 8 100 100 1000 10.

Lemma the_reader_sizes file entries : the_reader file = Some entries → Forall uint64_sizes entries.
Proof.
  unfold the_reader. case_bool_decide; [|done]. intros [= <-]. repeat apply Forall_cons_2; try apply Forall_nil_2; vm_compute; by split_and!.
Qed.

Definition the_artifact : Artifact :=
  match OpenArchive json_manifest digest the_reader "zip" "manifest" the_limits with
  | Ok artifact => artifact
  | Err _ => mkArtifact manifest "" ∅ the_limits
  end.

(** The archive opens; its cases read within the total. *)
Lemma opened_archive_safe_witness :
  ParseManifest json_manifest "manifest" = Ok manifest ∧
  sumZ (λ p, len p.2) [("cases/1.in", "1 2"); ("cases/1.out", "3")] ≤ MaxTotalBytes the_limits.
Proof.
  destruct (opened_archive_safe json_manifest digest the_reader the_reader_sizes "zip" "manifest" the_limits the_artifact)
    as (_ & Hm & entries & _ & _ & _ & _ & _ & Htotal).
  - vm_compute. by split_and!.
  - vm_compute. reflexivity.
  - split; [exact Hm|]. apply Htotal.
    + vm_compute. repeat constructor; rewrite ?list_elem_of_In; cbn; intuition discriminate.
    + repeat apply Forall_cons_2; try apply Forall_nil_2; exists 100; vm_compute; reflexivity.
Defined.

(** It was inspected before, and a case reads back. *)
Lemma inspected_archive_opens_witness :
  ParseManifest json_manifest "manifest" = Ok manifest ∧
  ∃ artifact, OpenArchive json_manifest digest the_reader "zip" "manifest" the_limits = Ok artifact.
Proof.
  destruct (inspected_archive_opens json_manifest digest the_reader "zip" the_limits manifest "manifest" "manifest")
    as (Hm & _ & H).
  - vm_compute. by split_and!.
  - vm_compute. reflexivity.
  - split; [exact Hm|]. destruct H as (artifact & Ha & _); [exact Hm|vm_compute; discriminate|]. exists artifact. exact Ha.
Defined.

Lemma validateTextEntry_readText_witness :
  is_ok (validateTextEntry (add_files ∅ the_entries) "cases/1.in" 100) = is_ok (readText (add_files ∅ the_entries) "cases/1.in" 100) ∧
  is_ok (readText (add_files ∅ the_entries) "cases/1.in" 100) = true.
Proof. split; [apply (validateTextEntry_readText _ _ 100); vm_compute; discriminate|vm_compute; reflexivity]. Defined.

(** ** A container format *)
Fixpoint ones (n : nat) : string := match n with O => "" | S n => String digit1 (ones n) end.

Definition write_field (s t : string) : string := ones (String.length s) +:+ String digit0 (s +:+ t).

Definition write_zip (es : list (string * string)) : string := foldr (λ e t, write_field e.1 (write_field e.2 t)) "" es.

Fixpoint read_field (n : nat) (s : string) : option (string * string) :=
  match s with
  | "" => None
  | String a s => if bool_decide (a = digit1) then read_field (S n) s else Some (stake n s, sdrop n s)
  end.

Fixpoint read_entries (fuel : nat) (s : string) : option (list (string * string)) :=
  match fuel, s with
  | _, "" => Some []
  | O, _ => None
  | S fuel, _ =>
      '(name, s) ← read_field 0 s;
      '(data, s) ← read_field 0 s;
      es ← read_entries fuel s;
      Some ((name, data) :: es)
  end.

Lemma read_write_field s t : read_field 0 (write_field s t) = Some (s, t).
Proof.
  assert (H : ∀ k n, (n + k = String.length s)%nat → read_field n (ones k +:+ String digit0 (s +:+ t)) = Some (s, t)).
  { induction k as [|k IH]; intros n Hn.
    - cbn. rewrite bool_decide_false by done. replace n with (String.length s) by lia. by rewrite stake_append, sdrop_append.
    - cbn. apply IH. lia. }
  by apply H.
Qed.

Lemma read_write_entries es fuel : (length es ≤ fuel)%nat → read_entries fuel (write_zip es) = Some es.
Proof.
  revert fuel. induction es as [|[name data] es IH]; intros fuel Hf; [by destruct fuel|]. cbn in Hf. destruct fuel as [|fuel]; [lia|].
  cbn [write_zip foldr fst snd]. fold (write_zip es).
  assert (Hs : ∃ a s, write_field name (write_field data (write_zip es)) = String a s) by (unfold write_field; destruct (String.length name); cbn; eauto).
  destruct Hs as (a & s & E). cbn [read_entries]. rewrite E, <-E, read_write_field. cbn. rewrite read_write_field. cbn. by rewrite IH by lia.
Qed.

Lemma write_zip_length es : (length es ≤ String.length (write_zip es))%nat.
Proof.
  induction es as [|e es IH]; [done|]. cbn. fold (write_zip es). unfold write_field at 1. rewrite string_length_append. cbn.
  rewrite string_length_append. unfold write_field. rewrite string_length_append. cbn. rewrite string_length_append. lia.
Qed.

Definition read_zip (file : string) : option (list zip_File) :=
  es ← read_entries (String.length file) file;
  if forallb (λ e, len e.2 <? max_int64) es then Some ((λ e, text_entry e.1 e.2) <$> es) else None.

Lemma read_zip_sizes file entries : read_zip file = Some entries → Forall uint64_sizes entries.
Proof.
  unfold read_zip. intros (es & _ & H)%bind_Some. destruct (forallb _ _) eqn:E; [|done]. injection H as <-. rewrite forallb_forall in E.
  apply Forall_fmap, Forall_forall. intros e He. apply E in He. bool_to_prop. pose proof (len_nonneg e.2).
  unfold uint64_sizes, max_uint64, max_int64 in *. cbn. lia.
Qed.

Lemma read_write_zip es : NoDup es.*1 → Forall (λ e, len e.2 < max_int64) es →
  ∃ fs, read_zip (write_zip es) = Some fs ∧ Forall2 (written len) es fs.
Proof.
  intros _ Hs. exists ((λ e, text_entry e.1 e.2) <$> es). split.
  - unfold read_zip. rewrite read_write_entries by apply write_zip_length. cbn. assert (forallb (λ e, len e.2 <? max_int64) es = true) as ->; [|done].
    apply forallb_forall. intros e He. rewrite Forall_forall in Hs. apply Z.ltb_lt. auto.
  - clear Hs. induction es as [|e es IH]; [constructor|]. constructor; [by split|done].
Qed.

(** ** Encoding manifests and metadata *)
#[local] Instance Checker_countable : Countable Checker.
Proof.
  refine (inj_countable' (λ c, match c with CheckerExact => inl (inl tt) | CheckerToken => inl (inr tt) | CheckerSpecial => inr (inl tt) | CheckerOther raw => inr (inr raw) end)
    (λ x : (unit + unit) + (unit + string), match x with inl (inl _) => CheckerExact | inl (inr _) => CheckerToken | inr (inl _) => CheckerSpecial | inr (inr raw) => CheckerOther raw end) _).
  by intros [].
Defined.

#[local] Instance JudgeMode_countable : Countable JudgeMode.
Proof.
  refine (inj_countable' (λ c, match c with JudgeModeACM => inl (inl tt) | JudgeModeOI => inl (inr tt) | JudgeModeOther raw => inr raw end)
    (λ x : (unit + unit) + string, match x with inl (inl _) => JudgeModeACM | inl (inr _) => JudgeModeOI | inr raw => JudgeModeOther raw end) _).
  by intros [].
Defined.

#[local] Instance Case_countable : Countable Case.
Proof.
  refine (inj_countable' (λ c, (case_Weight c, case_ID c, (case_Input c, case_Output c))) (λ x, mkCase x.1.2 x.2.1 x.2.2 x.1.1) _). by intros [].
Defined.

#[local] Instance SpecialJudge_countable : Countable SpecialJudge.
Proof.
  refine (inj_countable' (λ c, ((sj_TimeLimitMillis c, sj_MemoryLimitMiB c), (sj_Language c, (sj_Source c, sj_SourceSHA256 c))))
    (λ x, mkSpecialJudge x.2.1 x.2.2.1 x.2.2.2 x.1.1 x.1.2) _). by intros [].
Defined.

#[local] Instance Manifest_countable : Countable Manifest.
Proof.
  refine (inj_countable' (λ m, ((m_SchemaVersion m, m_JudgeMode m, (m_Checker m, m_TotalScore m)), (TimeLimitMillis (m_Limits m), MemoryLimitMiB (m_Limits m)),
      (m_SpecialJudge m, m_Cases m)))
    (λ x, mkManifest x.1.1.1.1 x.1.1.1.2 x.1.1.2.1 (mkLimits x.1.2.1 x.1.2.2) x.1.1.2.2 x.2.1 x.2.2) _). by intros [? ? ? [] ? ? ?].
Defined.

#[local] Instance BundleMetadata_countable : Countable BundleMetadata.
Proof.
  refine (inj_countable' (λ m, ((bm_SizeBytes m, bm_CaseCount m, (bm_ManifestVersion m, bm_CreatedAt m)), (bm_BundleID m, bm_SHA256 m)))
    (λ x, mkBundleMetadata x.2.1 x.2.2 x.1.1.1 x.1.1.2 x.1.2.1 x.1.2.2) _). by intros [].
Defined.

Definition to_text {A} `{Countable A} (x : A) : string := pos_string (encode x).
Definition of_text {A} `{Countable A} (s : string) : option A := decode (string_pos s).

Lemma text_roundtrip {A} `{Countable A} (x : A) : of_text (to_text x) = Some x.
Proof. unfold of_text, to_text. by rewrite string_pos_string, decode_encode. Qed.

Lemma manifest_text m : Validate m = Ok tt → valid_string (to_text m) = true ∧ of_text (to_text m) = Some m.
Proof. intros _. split; [apply pos_string_valid|apply text_roundtrip]. Qed.

Definition case_files : gmap string string := {[ "cases/1.in" := "1 2"; "cases/1.out" := "3" ]}.
Definition wide_limits : ArchiveLimits := mkArchiveLimits 8 100000 100 1000000 10.

Lemma case_files_elem name data : case_files !! name = Some data → data = "1 2" ∨ data = "3".
Proof.
  unfold case_files. intros [[_ <-]|[_ [_ <-]%lookup_singleton_Some]]%lookup_insert_Some; [by left|by right].
Qed.

(** Packing the case of [manifest] and opening it again. *)
Lemma packed_archive_opens_witness :
  ∃ archive json artifact, WriteDeterministicArchive to_text write_zip manifest case_files = Ok (archive, json) ∧
    OpenArchive of_text digest read_zip archive json wide_limits = Ok artifact ∧ ar_Manifest artifact = manifest.
Proof.
  destruct (WriteDeterministicArchive to_text write_zip manifest case_files) as [[archive json]|e] eqn:E.
  2: { exfalso. revert E. unfold WriteDeterministicArchive. vm_compute. discriminate. }
  destruct (packed_archive_opens to_text of_text digest write_zip read_zip len read_zip_sizes read_write_zip manifest_text
    wide_limits manifest case_files archive json E) as (_ & artifact & Ha & Hm & _).
  - split.
    + vm_compute. by split_and!.
    + vm_compute. discriminate.
    + vm_compute. discriminate.
    + intros name data Hd. destruct (case_files_elem name data Hd) as [-> | ->]; (split; [reflexivity|vm_compute; discriminate]).
    + discriminate.
    + vm_compute. discriminate.
    + split; [vm_compute; discriminate|].
      intros name data Hd. destruct (case_files_elem name data Hd) as [-> | ->]; vm_compute; discriminate.
  - exists archive, json, artifact. split_and!; [reflexivity|exact Ha|exact Hm].
Defined.

(** ** A bundle in the cache *)
Definition in_order (m : cache_entries) : list (string * cacheEntry) := map_to_list m.

Definition zip_metadata : Metadata := mkMetadata "external/object.zip" (hex_encode (digest "zip")) 3.

Definition the_cache : Cache := mkCache 1000 100 hour.
Definition empty_cache : cache_system := initial_cache now0 ∅.

Lemma the_cache_new : NewCache "/cache" 1000 100 hour ∅ = Some (the_cache, ∅).
Proof. vm_compute. reflexivity. Qed.

Definition cached_as (p : resolve_phase) (files : cache_files) (entries : cache_entries) (flights : gmap string nat)
    (closed : gmap nat (result cache_error string)) : cache_system :=
  mkCacheSystem now0 (mkCacheState files entries flights) closed {[ 0%nat := (zip_metadata, p) ]}.

Lemma cached_moves p p' files files' entries entries' flights flights' closed :
  resolve_step digest the_cache 0 zip_metadata now0 closed p (mkCacheState files entries flights) p' (mkCacheState files' entries' flights') →
  cache_step digest the_cache (cached_as p files entries flights closed) (cached_as p' files' entries' flights' (close_flight 0 p closed)).
Proof.
  intros H. pose proof (cache_resolve digest the_cache (cached_as p files entries flights closed) 0 zip_metadata p p' _ (lookup_singleton_eq _ _) H) as Hs.
  cbn in Hs. rewrite insert_singleton_eq in Hs. exact Hs.
Qed.

Definition zip_target : string := cache_target (hex_encode (digest "zip")).
Definition zip_files_cached : cache_files := {[ zip_target := RegularFile "zip" ]}.
Definition zip_entry : cache_entries := {[ hex_encode (digest "zip") := mkCacheEntry zip_target 3 now0 ]}.
Definition zip_flight : gmap string nat := {[ hex_encode (digest "zip") := 0%nat ]}.

Lemma reach_resolved :
  rtc (cache_step digest the_cache) empty_cache (cached_as (Resolved (Ok zip_target)) zip_files_cached zip_entry ∅ {[ 0%nat := Ok zip_target ]}).
Proof.
  eapply rtc_l; [exact (cache_call digest the_cache empty_cache 0 zip_metadata eq_refl)|]. cbn.
  change (rtc (cache_step digest the_cache) (cached_as AtLookup ∅ ∅ ∅ ∅) (cached_as (Resolved (Ok zip_target)) zip_files_cached zip_entry ∅ {[ 0%nat := Ok zip_target ]})).
  eapply rtc_l; [apply (cached_moves AtLookup AtVerify ∅ ∅ ∅ ∅ ∅ zip_flight ∅);
                 exact (resolve_lookup digest the_cache 0 zip_metadata now0 ∅ (mkCacheState ∅ ∅ ∅) (mkCacheState ∅ ∅ ∅) eq_refl eq_refl)|].
  eapply rtc_l; [apply (cached_moves AtVerify AtRemove ∅ ∅ ∅ ∅ zip_flight zip_flight ∅); exact (resolve_verify digest the_cache 0 zip_metadata now0 ∅ (mkCacheState ∅ ∅ zip_flight))|].
  eapply rtc_l; [apply (cached_moves AtRemove AtOpen ∅ ∅ ∅ ∅ zip_flight zip_flight ∅); exact (resolve_remove digest the_cache 0 zip_metadata now0 ∅ (mkCacheState ∅ ∅ zip_flight))|].
  eapply rtc_l; [apply (cached_moves AtOpen (AtPublish "zip") ∅ ∅ ∅ ∅ zip_flight zip_flight ∅);
                 exact (resolve_open digest the_cache 0 zip_metadata now0 ∅ (mkCacheState ∅ ∅ zip_flight) (Opened (Some (mkStream "zip" true)) 3))|].
  eapply rtc_l; [apply (cached_moves (AtPublish "zip") AtRecord ∅ zip_files_cached ∅ ∅ zip_flight zip_flight ∅);
                 exact (resolve_publish digest the_cache 0 zip_metadata now0 ∅ (mkCacheState ∅ ∅ zip_flight) "zip")|].
  eapply rtc_l; [apply (cached_moves AtRecord (AtFinish (Ok zip_target)) zip_files_cached zip_files_cached ∅ zip_entry zip_flight zip_flight ∅);
                 refine (resolve_record digest the_cache 0 zip_metadata now0 ∅ (mkCacheState zip_files_cached ∅ zip_flight) in_order _); intros m; reflexivity|].
  eapply rtc_once. apply (cached_moves (AtFinish (Ok zip_target)) (Resolved (Ok zip_target)) zip_files_cached zip_files_cached zip_entry zip_entry zip_flight ∅ ∅).
  exact (resolve_finish digest the_cache 0 zip_metadata now0 ∅ (mkCacheState zip_files_cached zip_entry zip_flight) (Ok zip_target)).
Qed.

(** The resolved path holds the content of the digest. *)
Lemma resolved_bundle_authentic_witness :
  ∃ content, RegularFile "zip" = RegularFile content ∧ hex_encode (digest content) = hex_encode (digest "zip").
Proof.
  destruct (resolved_bundle_authentic digest json_manifest the_reader "/cache" 1000 100 hour ∅ the_cache ∅ now0
    (cached_as (Resolved (Ok zip_target)) zip_files_cached zip_entry ∅ {[ 0%nat := Ok zip_target ]}) 0 zip_metadata zip_target) as (_ & H & _).
  - exact the_cache_new.
  - vm_compute. reflexivity.
  - exact reach_resolved.
  - apply lookup_singleton_eq.
  - apply H. apply lookup_singleton_eq.
Defined.

Lemma cache_within_capacity_witness : map_sumZ ce_Size zip_entry ≤ 1000.
Proof.
  destruct (cache_within_capacity digest "/cache" 1000 100 hour ∅ the_cache ∅ now0
    (cached_as (Resolved (Ok zip_target)) zip_files_cached zip_entry ∅ {[ 0%nat := Ok zip_target ]})) as (H & _).
  - exact the_cache_new.
  - vm_compute. reflexivity.
  - exact reach_resolved.
  - exact H.
Defined.

(** A second call for the same digest waits for the first. *)
Definition two_calls : cache_system :=
  mkCacheSystem now0 (mkCacheState ∅ ∅ zip_flight) ∅ (<[1%nat := (zip_metadata, AtWait 0)]> {[ 0%nat := (zip_metadata, AtVerify) ]}).

Lemma reach_two_calls : rtc (cache_step digest the_cache) empty_cache two_calls.
Proof.
  eapply rtc_l; [exact (cache_call digest the_cache empty_cache 0 zip_metadata eq_refl)|].
  change (rtc (cache_step digest the_cache) (cached_as AtLookup ∅ ∅ ∅ ∅) two_calls).
  eapply rtc_l; [apply (cached_moves AtLookup AtVerify ∅ ∅ ∅ ∅ ∅ zip_flight ∅);
                 exact (resolve_lookup digest the_cache 0 zip_metadata now0 ∅ (mkCacheState ∅ ∅ ∅) (mkCacheState ∅ ∅ ∅) eq_refl eq_refl)|].
  eapply rtc_l; [exact (cache_call digest the_cache (cached_as AtVerify ∅ ∅ zip_flight ∅) 1 zip_metadata eq_refl)|]. cbn.
  set (y := mkCacheSystem _ _ _ _).
  eapply rtc_once. assert (Hi : cy_Calls y !! 1%nat = Some (zip_metadata, AtLookup)) by reflexivity.
  pose proof (cache_resolve digest the_cache y 1 zip_metadata AtLookup (AtWait 0) (mkCacheState ∅ ∅ zip_flight) Hi
    (resolve_join digest the_cache 1 zip_metadata now0 ∅ (mkCacheState ∅ ∅ zip_flight) (mkCacheState ∅ ∅ zip_flight) 0 eq_refl (lookup_singleton_eq _ _))) as H.
  exact H.
Qed.

Lemma cache_flights_coalesced_witness :
  (∃ m p, cy_Calls two_calls !! 0%nat = Some (m, p) ∧ running p = true ∧ md_SHA256 m = md_SHA256 zip_metadata) ∨
  ∃ outcome : result cache_error string, cy_Closed two_calls !! 0%nat = Some outcome.
Proof.
  destruct (cache_flights_coalesced digest "/cache" 1000 100 hour ∅ the_cache ∅ now0 two_calls) as [_ H].
  - exact the_cache_new.
  - vm_compute. reflexivity.
  - exact reach_two_calls.
  - destruct (H 1%nat zip_metadata 0%nat eq_refl) as [H0|(outcome & p & Ho & _)]; [left; exact H0|right; exists outcome; exact Ho].
Defined.

(** ** Uploads *)
Definition hmac (key message : string) : string := digest (key +:+ message).

Definition the_config : BundleServiceConfig :=
  mkBundleConfig 1000 the_limits 5000 512 day (String.concat "" (repeat "p" 32)) minute (5 * second) 8 day (30 * second).

Definition the_collector : collector_config := mkCollectorConfig (2 * hour) hour 100 (5 * second) 3 (30 * second).

(** Identifiers in the order they are drawn. *)
Definition draw (issued : gmap string nat) : string := id26 (nth (size issued) ["f"; "g"; "h"; "i"; "j"; "k"; "l"; "m"] "z").

Definition the_source : stream := mkStream "zip" true.
Definition to_millis (t : Z) : Z := t / millisecond * millisecond.

Lemma to_millis_near t : t - millisecond ≤ to_millis t ≤ t + millisecond.
Proof. unfold to_millis, millisecond. Z.div_mod_to_equations. lia. Qed.

Lemma to_millis_idem t : to_millis (to_millis t) = to_millis t.
Proof. unfold to_millis. by rewrite Z.div_mul by discriminate. Qed.

Definition is_zip (content : string) : Prop := content = "zip".

Definition upload_program (key : string) : prog answer bundle_outcome :=
  r ← UploadWithAdmission json_manifest digest hmac the_reader the_config tenantID key the_source false;
  mret (Uploaded tenantID the_source r).

Definition bundle_tenants : gmap Z tenant_row := tenants empty_store.

Abbreviation bundle_steps :=
  (rtc (bundle_step json_policy json_manifest to_text of_text to_millis digest hmac the_reader 0 0 is_zip the_config the_collector)).
Abbreviation calm_calls i newID := (calm json_policy json_manifest to_text of_text to_millis 0 i draw newID).

Lemma only_tenant k t : bundle_tenants !! k = Some t → k = 1.
Proof.
  intros H. change (({[ 1 := mkTenantRow tenantID "ACTIVE" "policy" None ]} : gmap Z tenant_row) !! k = Some t) in H.
  by apply lookup_singleton_Some in H as [<- _].
Qed.

Lemma the_assumptions : bundle_assumptions to_text of_text to_millis digest 0 0 is_zip the_collector now0 bundle_tenants.
Proof.
  split; try done.
  - exact digest_length.
  - exact text_roundtrip.
  - exact to_millis_near.
  - exact to_millis_idem.
  - by intros a b -> ->.
  - exists the_collector. reflexivity.
  - intros k1 k2 t1 t2 H1 H2 _. by rewrite (only_tenant _ _ H1), (only_tenant _ _ H2).
Qed.

Lemma read_zip_upload content : read_upload 1000 the_source = Ok content → content = "zip".
Proof. vm_compute. congruence. Qed.

(** A thread that starts and runs to its end. *)
Lemma runs_alone handler i p y :
  th_Threads y !! i = None → bw_Began (th_World y) !! i = None →
  bundle_thread json_manifest digest hmac the_reader is_zip the_config the_collector p →
  (∀ c w, exec json_policy json_manifest to_text of_text to_millis 0 0 i c w (handler c w).1 (handler c w).2) →
  let o := run handler p (begin_thread i (th_World y)) in
  bundle_steps y (mkThreads o.2 (<[i := Done o.1]> (<[i := p]> (th_Threads y)))).
Proof.
  intros Hi Hb Hp Hx. eapply rtc_l; [refine (step_start _ _ _ y i p (begin_thread i (th_World y)) Hi _); split_and!; done|].
  pose proof (run_reaches _ environment (starts json_manifest digest hmac the_reader is_zip the_config the_collector) handler i p (begin_thread i (th_World y))
    (<[i := p]> (th_Threads y)) Hx (lookup_insert_eq _ _ _)) as H. cbv zeta. destruct (run handler p _) as [a w']. exact H.
Qed.

Definition empty_service : threads := initial_bundles now0 bundle_tenants.
Definition first_run := run (calm_calls 0%nat 1) (upload_program "idempotency-key-1") (begin_thread 0 (th_World empty_service)).
Definition first_uploaded : threads :=
  mkThreads first_run.2 (<[0%nat := Done first_run.1]> (<[0%nat := upload_program "idempotency-key-1"]> (th_Threads empty_service))).

Lemma upload_thread key : bundle_thread json_manifest digest hmac the_reader is_zip the_config the_collector (upload_program key).
Proof. apply thread_upload. exact read_zip_upload. Qed.

Lemma calm_calls_exec i newID c w :
  exec json_policy json_manifest to_text of_text to_millis 0 0 i c w (calm_calls i newID c w).1 (calm_calls i newID c w).2.
Proof. by apply calm_exec. Qed.

Lemma reach_uploaded : bundle_steps empty_service first_uploaded.
Proof.
  exact (runs_alone (calm_calls 0%nat 1) 0 (upload_program "idempotency-key-1") empty_service eq_refl eq_refl (upload_thread _) (calm_calls_exec 0 1)).
Qed.

Definition second_run := run (calm_calls 1%nat 2) (upload_program "idempotency-key-2") (begin_thread 1 (th_World first_uploaded)).
Definition both_uploaded : threads :=
  mkThreads second_run.2 (<[1%nat := Done second_run.1]> (<[1%nat := upload_program "idempotency-key-2"]> (th_Threads first_uploaded))).

Lemma reach_both : bundle_steps empty_service both_uploaded.
Proof.
  etrans; [exact reach_uploaded|].
  assert (Hb : bw_Began first_run.2 !! 1%nat = None) by (vm_compute; reflexivity).
  exact (runs_alone (calm_calls 1%nat 2) 1 (upload_program "idempotency-key-2") first_uploaded eq_refl Hb (upload_thread _) (calm_calls_exec 1 2)).
Qed.

Definition zip_metadata_of (created : Z) : BundleMetadata := mkBundleMetadata (id26 "g") (hex_encode (digest "zip")) 3 1 1 created.

Lemma first_outcome : first_run.1 = Uploaded tenantID the_source (Ok (zip_metadata_of now0, false)).
Proof. vm_compute. reflexivity. Qed.

Lemma second_outcome : second_run.1 = Uploaded tenantID the_source (Ok (zip_metadata_of now0, true)).
Proof. vm_compute. reflexivity. Qed.

Lemma uploaded_bundle_durable_witness :
  ∃ o, bw_Objects first_run.2 !! bundleObjectKey tenantID (digest "zip") = Some o ∧ digest (ob_Content o) = digest "zip".
Proof.
  destruct (uploaded_bundle_durable json_policy json_manifest to_text of_text to_millis digest hmac the_reader 0 0 is_zip the_config the_collector now0 bundle_tenants
    the_assumptions first_uploaded 0 tenantID the_source (zip_metadata_of now0) false reach_uploaded) as (content & b & r & t & o & Hc & H).
  - unfold first_uploaded. cbn [th_Threads]. rewrite lookup_insert_eq, first_outcome. reflexivity.
  - destruct H as (_ & _ & _ & _ & _ & _ & Hk & Ho & Hd & _). apply read_zip_upload in Hc as ->. rewrite Hk in Ho. exists o. split; [exact Ho|exact Hd].
Defined.

Definition zip_row : publication_row :=
  default (new_publication to_millis 1 now0 (mkCommitInput "" "" "" "" "" "" 0 0 (zip_metadata_of now0) 0)) (bd_Bundles (bw_DB first_run.2) !! 1).

Lemma zip_row_there : bd_Bundles (bw_DB first_run.2) !! 1 = Some zip_row.
Proof. vm_compute. reflexivity. Qed.

Lemma bundle_objects_kept_witness :
  ∃ o, bw_Objects first_run.2 !! pb_ObjectKey zip_row = Some o ∧ holds digest (pb_SHA256 zip_row) (pb_SizeBytes zip_row) o.
Proof.
  destruct (bundle_objects_kept json_policy json_manifest to_text of_text to_millis digest hmac the_reader 0 0 is_zip the_config the_collector now0 bundle_tenants
    the_assumptions first_uploaded reach_uploaded) as [H _].
  apply (H 1 zip_row zip_row_there). vm_compute. reflexivity.
Defined.

Lemma bundle_rows_well_formed_witness : scanBundleMetadata zip_row = Some (row_metadata zip_row).
Proof.
  exact (proj1 (bundle_rows_well_formed json_policy json_manifest to_text of_text to_millis digest hmac the_reader 0 0 is_zip the_config the_collector now0
    bundle_tenants the_assumptions first_uploaded 1 zip_row reach_uploaded zip_row_there)).
Defined.

(** The same content under another key: the same bundle. *)
Lemma one_bundle_per_content_witness : rounded to_millis (zip_metadata_of now0) = rounded to_millis (zip_metadata_of now0) ∧ first_run.1 ≠ second_run.1.
Proof.
  split.
  - apply (one_bundle_per_content json_policy json_manifest to_text of_text to_millis digest hmac the_reader 0 0 is_zip the_config the_collector now0 bundle_tenants
      the_assumptions both_uploaded 0 1 tenantID the_source the_source "zip" "zip" (zip_metadata_of now0) (zip_metadata_of now0) false true reach_both).
    + unfold both_uploaded, first_uploaded. cbn [th_Threads]. rewrite !lookup_insert_ne by discriminate. rewrite lookup_insert_eq, first_outcome. reflexivity.
    + unfold both_uploaded. cbn [th_Threads]. rewrite lookup_insert_eq, second_outcome. reflexivity.
    + vm_compute. reflexivity.
    + vm_compute. reflexivity.
    + reflexivity.
  - rewrite first_outcome, second_outcome. discriminate.
Defined.

(** ** A reconciler after an upload that could not publish *)
Definition refuse_claims (c : bundle_call) : bundle_world → answer c * bundle_world :=
  match c with
  | CClaim _ _ _ _ _ => λ w, (Err ErrBundleUnavailable, w)
  | c => calm_calls 0%nat 1 c
  end.

Lemma refuse_claims_exec c w :
  exec json_policy json_manifest to_text of_text to_millis 0 0 0 c w (refuse_claims c w).1 (refuse_claims c w).2.
Proof. destruct c; first [apply (calm_calls_exec 0 1)|by left]. Qed.

Definition pending_run := run refuse_claims (upload_program "idempotency-key-1") (begin_thread 0 (th_World empty_service)).
Definition pending_upload : threads :=
  mkThreads pending_run.2 (<[0%nat := Done pending_run.1]> (<[0%nat := upload_program "idempotency-key-1"]> (th_Threads empty_service))).

Lemma reach_pending : bundle_steps empty_service pending_upload.
Proof. exact (runs_alone refuse_claims 0 (upload_program "idempotency-key-1") empty_service eq_refl eq_refl (upload_thread _) refuse_claims_exec). Qed.

Definition reconcile_program : prog answer bundle_outcome := result ← ReconcileOnce the_config; mret (Reconciled result).
Definition reconciling : threads :=
  mkThreads (begin_thread 1 (th_World pending_upload)) (<[1%nat := reconcile_program]> (th_Threads pending_upload)).

Lemma reach_reconciling : bundle_steps empty_service reconciling.
Proof.
  eapply rtc_r; [exact reach_pending|]. refine (step_start _ _ _ pending_upload 1 reconcile_program _ eq_refl _).
  split_and!; [vm_compute; reflexivity|reflexivity|apply thread_reconcile].
Qed.

Definition pending_row : publication_row := default zip_row (bd_Bundles (bw_DB (th_World reconciling)) !! 1).

Lemma pending_row_there : bd_Bundles (bw_DB (th_World reconciling)) !! 1 = Some pending_row.
Proof. vm_compute. reflexivity. Qed.

Lemma reconciler_publishes_due_witness :
  pb_Status pending_row = BundlePublicationPending ∧
  ∃ b y' r', bundle_steps reconciling y' ∧ bd_Bundles (bw_DB (th_World y')) !! b = Some r' ∧ pb_Status r' = BundlePublicationReady.
Proof.
  split; [vm_compute; reflexivity|].
  destruct (reconciler_publishes_due json_policy json_manifest to_text of_text to_millis digest hmac the_reader 0 0 is_zip the_config the_collector now0 bundle_tenants
    reconciling 1 (id26 "q") 1 pending_row (mkTenantRow tenantID "ACTIVE" "policy" None))
    as (b & r0 & y' & r' & _ & _ & _ & Hs & _ & Hb & _ & Hr & _).
  - exact the_assumptions.
  - exact reach_reconciling.
  - apply lookup_insert_eq.
  - exists now0. apply lookup_insert_eq.
  - vm_compute. reflexivity.
  - vm_compute. reflexivity.
  - vm_compute. reflexivity.
  - exact pending_row_there.
  - vm_compute. reflexivity.
  - reflexivity.
  - vm_compute. reflexivity.
  - exists b, y', r'. split_and!; [exact Hs|exact Hb|exact Hr].
Defined.
