(* ===== verification/SubmissionEvents.v ===== *)
(** * Judge requests and problem snapshots

    The event of a submission ([pkg/model/event.go], [consumer/event.go]), the rows
    it refers to ([pkg/model/task.go], [problem_version.go], [test_bundle.go]), the
    execution configuration of a published version ([service/problem_version.go]),
    and the handling of a batch of messages ([handleMessage] of
    [consumer/rocketmq.go]). *)
From stdpp Require Import prelude strings pretty.
From S2P Require Import Prelude.
From S2P Require Import GoText.
From S2P Require Import Manifest.

Open Scope Z_scope.

(** ** Rows and events *)
Record SubmissionRequested : Type := mkSubmissionRequested {
  sr_SchemaVersion : Z;
  sr_EventID : string;
  sr_SubmissionID : Z;
  sr_AttemptNo : Z;
  sr_ProblemID : Z;
  sr_UserID : Z;
  sr_Language : string
}.

Definition DeduplicationKey (event : SubmissionRequested) : string :=
  sr_EventID event +:+ "/" +:+ pretty (sr_SubmissionID event) +:+ "/" +:+ pretty (sr_AttemptNo event).

Inductive SubmissionStatus : Type :=
| SubmissionPending
| SubmissionAccepted
| SubmissionCompileError
| SubmissionWrongAnswer
| SubmissionTimeLimitExceeded
| SubmissionMemoryLimitExceeded
| SubmissionRuntimeError
| SubmissionSystemError
| SubmissionOutputLimitExceeded
| SubmissionOther (code : Z).

#[export] Instance SubmissionStatus_eq_dec : EqDecision SubmissionStatus.
Proof. solve_decision. Defined.

(** The columns of [Task] but for its two timestamps. *)
Record Task : Type := mkTask {
  tk_ID : Z;
  tk_ProblemID : Z;
  tk_ProblemVersionID : option Z;
  tk_UserID : Z;
  tk_Language : string;
  tk_Code : string;
  tk_Status : SubmissionStatus;
  tk_RunTime : option Z;
  tk_Memory : option Z;
  tk_JudgeInfo : option string;
  tk_Score : option Z;
  tk_ErrorMessage : option string
}.

(** The columns that judging reads. *)
Record ProblemVersion : Type := mkProblemVersion {
  pv_ID : Z;
  pv_ProblemID : Z;
  pv_State : string;
  pv_LimitsJSON : string;
  pv_JudgeConfigJSON : string
}.

Record TestBundle : Type := mkTestBundle {
  tb_ProblemVersionID : Z;
  tb_ObjectKey : string;
  tb_SHA256 : string;
  tb_SizeBytes : Z;
  tb_ManifestJSON : string
}.

(** ** Strict JSON: one document without unknown fields, and nothing after it *)
Definition json_space (a : Ascii.ascii) : bool := bool_decide (byte_of a ∈ [9; 10; 13; 32]).

(** [first] is [json.Decoder.Decode] with [DisallowUnknownFields]: the value and
    the bytes it leaves. A second [Decode] reports [io.EOF] when only white space
    is left. *)
Definition decodeStrictSnapshot {A} (first : string → option (A * string)) (data : string) : option A :=
  v ← first data;
  if string_forallb json_space v.2 then Some v.1 else None.

(** ** [DecodeSubmissionRequested] *)
Inductive event_error : Type :=
| ErrEventDecode
| ErrEventSchema
| ErrEventID
| ErrEventUUID
| ErrEventIdentifiers
| ErrEventLanguage.

Section Decode.
Context (json_event : string → option (SubmissionRequested * string)) (uuid_Parse : string → bool).

Definition DecodeSubmissionRequested (body : string) : result event_error SubmissionRequested :=
  event ← from_option (decodeStrictSnapshot json_event body) ErrEventDecode;
  _ ← guard_err (sr_SchemaVersion event =? 1) ErrEventSchema;
  let eventID := trim_space (sr_EventID event) in
  _ ← guard_err (negb (bool_decide (eventID = "") || (128 <? len eventID))) ErrEventID;
  _ ← guard_err (uuid_Parse eventID) ErrEventUUID;
  _ ← guard_err (negb ((sr_SubmissionID event <=? 0) || (sr_AttemptNo event <=? 0) || (sr_ProblemID event <=? 0) ||
                       (sr_UserID event <=? 0))) ErrEventIdentifiers;
  let language := trim_space (sr_Language event) in
  _ ← guard_err (negb (bool_decide (language = "") || (20 <? len language))) ErrEventLanguage;
  Ok (mkSubmissionRequested (sr_SchemaVersion event) eventID (sr_SubmissionID event) (sr_AttemptNo event)
        (sr_ProblemID event) (sr_UserID event) language).

(** ** [handleMessage] *)
Inductive ConsumeResult : Type :=
| ConsumeSuccess
| ConsumeRetryLater.

(** [process] is [ProcessEvent] of the processor and [permanent] is
    [callback.IsPermanent]. *)
Fixpoint handleMessage {W E} (process : W → SubmissionRequested → option E * W) (permanent : E → bool)
    (w : W) (msgs : list string) : ConsumeResult * W :=
  match msgs with
  | [] => (ConsumeSuccess, w)
  | body :: msgs =>
      match DecodeSubmissionRequested body with
      | Err _ => handleMessage process permanent w msgs
      | Ok event =>
          match process w event with
          | (None, w) => handleMessage process permanent w msgs
          | (Some e, w) =>
              if permanent e then handleMessage process permanent w msgs else (ConsumeRetryLater, w)
          end
      end
  end.
End Decode.

(** ** [ParseExecutionConfig] *)
Record ExecutionConfig : Type := mkExecutionConfig {
  xc_TimeLimitMillis : Z;
  xc_MemoryLimitMB : Z;
  xc_JudgeMode : JudgeMode;
  xc_Checker : Checker;
  xc_CheckerPinned : bool;
  xc_TotalScore : Z;
  xc_SpecialJudge : bool;
  xc_SpecialJudgeLanguage : string;
  xc_SpecialJudgeSource : string
}.

Record versionLimits : Type := mkVersionLimits {
  vl_TimeLimit : Z;
  vl_MemoryLimit : Z;
  vl_TotalScore : option Z
}.

Record versionJudgeConfig : Type := mkVersionJudgeConfig {
  vj_SpecialJudge : option bool;
  vj_SpecialJudgeCode : option string;
  vj_SpecialJudgeLanguage : option string;
  vj_JudgeMode : option Z;
  vj_Checker : option string;
  vj_Difficulty : option Z
}.

Inductive config_error : Type :=
| ErrVersionMissing
| ErrLimitsJSON
| ErrLimitsBounds
| ErrTotalScore
| ErrJudgeConfigJSON
| ErrJudgeConfigFields
| ErrTotalScoreRequired
| ErrJudgeMode
| ErrSpecialSource
| ErrSpecialLanguage
| ErrStaleChecker
| ErrConfigChecker
| ErrCheckerDisagrees.

(** [bundle.Checker(raw)]. *)
Definition Checker_of (raw : string) : Checker :=
  if bool_decide (raw = "exact") then CheckerExact
  else if bool_decide (raw = "token") then CheckerToken
  else if bool_decide (raw = "special") then CheckerSpecial
  else CheckerOther raw.

Definition maxSpecialJudgeCode : Z := Z.shiftl 4 20.

Section Config.
Context (json_limits : string → option (versionLimits * string))
        (json_judge : string → option (versionJudgeConfig * string)).

(** The [switch] on the judge mode: the mode and the total score. *)
Definition config_mode (limits : versionLimits) (mode : Z) : result config_error (JudgeMode * Z) :=
  if mode =? 0 then Ok (JudgeModeACM, 0)
  else if mode =? 1 then
    total ← from_option (vl_TotalScore limits) ErrTotalScoreRequired;
    Ok (JudgeModeOI, total)
  else Err ErrJudgeMode.

(** The checker fields: the checker, whether it is pinned, and the language and the
    source of the special judge. *)
Definition config_special (judge : versionJudgeConfig) (special : bool) :
    result config_error (Checker * bool * string * string) :=
  if special then
    match vj_SpecialJudgeCode judge, vj_SpecialJudgeLanguage judge with
    | Some code, Some language =>
        _ ← guard_err (negb (blank code || (maxSpecialJudgeCode <? len code))) ErrSpecialSource;
        _ ← from_option (ResolveLanguage language) ErrSpecialLanguage;
        Ok (CheckerSpecial, true, language, code)
    | _, _ => Err ErrSpecialSource
    end
  else
    match vj_SpecialJudgeCode judge, vj_SpecialJudgeLanguage judge with
    | None, None => Ok (CheckerExact, false, "", "")
    | _, _ => Err ErrStaleChecker
    end.

Definition config_checker (judge : versionJudgeConfig) (special : bool) (checker : Checker) (pinned : bool) :
    result config_error (Checker * bool) :=
  match vj_Checker judge with
  | None => Ok (checker, pinned)
  | Some raw =>
      let checker := Checker_of raw in
      _ ← guard_err (IsCanonicalChecker checker) ErrConfigChecker;
      _ ← guard_err (negb ((special && negb (bool_decide (checker = CheckerSpecial))) ||
                           (negb special && bool_decide (checker = CheckerSpecial)))) ErrCheckerDisagrees;
      Ok (checker, true)
  end.

Definition ParseExecutionConfig (version : option ProblemVersion) : result config_error ExecutionConfig :=
  version ← from_option version ErrVersionMissing;
  limits ← from_option (decodeStrictSnapshot json_limits (pv_LimitsJSON version)) ErrLimitsJSON;
  _ ← guard_err (negb ((vl_TimeLimit limits <=? 0) || (86400000 <? vl_TimeLimit limits) ||
                       (vl_MemoryLimit limits <=? 0) || (2147483647 <? vl_MemoryLimit limits))) ErrLimitsBounds;
  _ ← guard_err (match vl_TotalScore limits with
                 | Some total => negb ((total <=? 0) || (1000000000 <? total))
                 | None => true
                 end) ErrTotalScore;
  judge ← from_option (decodeStrictSnapshot json_judge (pv_JudgeConfigJSON version)) ErrJudgeConfigJSON;
  match vj_SpecialJudge judge, vj_JudgeMode judge with
  | Some special, Some judgeMode =>
      mode ← config_mode limits judgeMode;
      fields ← config_special judge special;
      let '(checker, pinned, language, source) := fields in
      checked ← config_checker judge special checker pinned;
      Ok (mkExecutionConfig (vl_TimeLimit limits) (vl_MemoryLimit limits) mode.1 checked.1 checked.2 mode.2
            special language source)
  | _, _ => Err ErrJudgeConfigFields
  end.
End Config.
