(* ===== verification/TaskRegistry.v ===== *)
(** * The registry of judge tasks

    [internal/service/task_registry.go]: duplicate events of one task are
    coalesced, and a result is kept until it is published. Calls of [Process]
    interleave between their critical sections.

    The second part proves what it guarantees. *)
From stdpp Require Import prelude gmap strings.
From S2P Require Import Prelude.
From S2P Require Import Callback.

Open Scope Z_scope.

(** An entry with its address: the code reads and writes entries in the map only,
    and compares addresses. [te_Done] is the channel. *)
Record taskEntry : Type := mkTaskEntry {
  te_Address : nat;
  te_Processing : bool;
  te_Done : nat;
  te_Result : option Result;
  te_Complete : bool;
  te_LastUsed : Z
}.

Record TaskRegistry : Type := mkTaskRegistry { tr_Capacity : Z; tr_TTL : Z }.

Definition NewTaskRegistry (capacity ttl : Z) : TaskRegistry :=
  mkTaskRegistry (if capacity <=? 0 then 10000 else capacity) (if ttl <=? 0 then hour else ttl).

Notation task_entries := (gmap string taskEntry).

(** The map, the channels that are closed, and the next address. *)
Record registry_state : Type := mkRegistryState {
  rs_Entries : task_entries;
  rs_Closed : gset nat;
  rs_Next : nat
}.

Definition set_entries (f : task_entries → task_entries) (s : registry_state) : registry_state :=
  mkRegistryState (f (rs_Entries s)) (rs_Closed s) (rs_Next s).

(** ** Dropping completed entries *)
Definition completed_expired (registry : TaskRegistry) (now : Z) (e : taskEntry) : bool :=
  te_Complete e && negb (te_Processing e) && (tr_TTL registry <=? now - te_LastUsed e).

Definition pruneCompleted (registry : TaskRegistry) (now : Z) : registry_state → registry_state :=
  set_entries (filter (λ p : string * taskEntry, completed_expired registry now p.2 = false)).

Definition registry_full (registry : TaskRegistry) (entries : task_entries) : bool :=
  tr_Capacity registry <=? Z.of_nat (size entries).

Section Evict.
(** The order in which the runtime iterates over the map. *)
Context (iteration : task_entries → list (string * taskEntry)).

(** The loop of [evictOldestCompleted] over the oldest key and time so far. *)
Definition older_completed (oldest : string * Z) (p : string * taskEntry) : string * Z :=
  if negb (te_Complete p.2) || te_Processing p.2 then oldest
  else if bool_decide (oldest.1 = "") || (te_LastUsed p.2 <? oldest.2) then (p.1, te_LastUsed p.2)
  else oldest.

Definition evictOldestCompleted (registry : TaskRegistry) (s : registry_state) : registry_state :=
  if negb (registry_full registry (rs_Entries s)) then s
  else
    let oldestKey := (foldl older_completed ("", zero_time) (iteration (rs_Entries s))).1 in
    if bool_decide (oldestKey = "") then s else set_entries (delete oldestKey) s.

(** ** [claim] *)
Inductive claim_result : Type :=
| ClaimFull
| ClaimCompleted
| ClaimWait (done : nat)
| ClaimOwned (entry : nat) (cached : option Result).

Definition touched (now : Z) (e : taskEntry) : taskEntry :=
  mkTaskEntry (te_Address e) (te_Processing e) (te_Done e) (te_Result e) (te_Complete e) now.

Definition claim (registry : TaskRegistry) (now : Z) (key : string) (s : registry_state) : claim_result * registry_state :=
  let s := pruneCompleted registry now s in
  match rs_Entries s !! key with
  | Some e =>
      let s := set_entries (insert key (touched now e)) s in
      if te_Complete e then (ClaimCompleted, s)
      else if te_Processing e then (ClaimWait (te_Done e), s)
      else
        (ClaimOwned (te_Address e) (te_Result e),
         mkRegistryState (<[key := mkTaskEntry (te_Address e) true (rs_Next s) (te_Result e) (te_Complete e) now]> (rs_Entries s))
           (rs_Closed s) (S (rs_Next s)))
  | None =>
      let s := evictOldestCompleted registry s in
      if registry_full registry (rs_Entries s) then (ClaimFull, s)
      else
        let address := rs_Next s in
        (ClaimOwned address None,
         mkRegistryState (<[key := mkTaskEntry address true (S address) None false now]> (rs_Entries s)) (rs_Closed s) (S (S address)))
  end.
End Evict.

(** ** The updates of an owned entry; each does nothing when the entry is gone. *)
Definition owned_entry (key : string) (entry : nat) (s : registry_state) : option taskEntry :=
  e ← rs_Entries s !! key;
  if decide (te_Address e = entry) then Some e else None.

Definition rememberResult (key : string) (entry : nat) (r : Result) (s : registry_state) : registry_state :=
  match owned_entry key entry s with
  | None => s
  | Some e => set_entries (insert key (mkTaskEntry (te_Address e) (te_Processing e) (te_Done e) (Some r) (te_Complete e) (te_LastUsed e))) s
  end.

Definition finishExecutionFailure (key : string) (entry : nat) (s : registry_state) : registry_state :=
  match owned_entry key entry s with
  | None => s
  | Some e => mkRegistryState (delete key (rs_Entries s)) ({[te_Done e]} ∪ rs_Closed s) (rs_Next s)
  end.

Definition finishPublish (key : string) (entry : nat) (complete : bool) (now : Z) (s : registry_state) : registry_state :=
  match owned_entry key entry s with
  | None => s
  | Some e =>
      mkRegistryState (<[key := mkTaskEntry (te_Address e) false (te_Done e) (te_Result e) complete now]> (rs_Entries s))
        ({[te_Done e]} ∪ rs_Closed s) (rs_Next s)
  end.

(** ** [Process] *)
Section Process.
(** The errors of [execute] and [publish], and [callback.IsPermanent] on them. *)
Context {E : Type} (permanent : E → bool).

Inductive process_error : Type :=
| ErrRegistryFull
| ErrProcessContext
| ErrProcess (e : E).

Inductive process_phase : Type :=
| AtClaim
| AtDone (done : nat)
| AtExecute (entry : nat)
| AtExecuteFailed (entry : nat) (e : E)
| AtRemember (entry : nat) (r : Result)
| AtPublishResult (entry : nat) (r : Result)
| AtFinishPublish (entry : nat) (outcome : option E)
| Processed (outcome : option process_error).

(** What the outside sees: an execution that gave a result, and a publication that
    need not be repeated, or must be. *)
Inductive task_event : Type :=
| TaskExecuted (key : string) (r : Result)
| TaskPublished (key : string) (r : Result) (complete : bool).

(** The argument of [finishPublish]. *)
Definition publish_complete (outcome : option E) : bool :=
  match outcome with None => true | Some e => permanent e end.

Definition after_claim (c : claim_result) : process_phase :=
  match c with
  | ClaimFull => Processed (Some ErrRegistryFull)
  | ClaimCompleted => Processed None
  | ClaimWait done => AtDone done
  | ClaimOwned entry None => AtExecute entry
  | ClaimOwned entry (Some r) => AtPublishResult entry r
  end.

(** One statement of a call that processes [key]. *)
Inductive process_step (registry : TaskRegistry) (key : string) (now : Z) :
    process_phase → registry_state → process_phase → registry_state → list task_event → Prop :=
| process_claim s iteration c s' : (∀ m, iteration m ≡ₚ map_to_list m) → claim iteration registry now key s = (c, s') →
    process_step registry key now AtClaim s (after_claim c) s' []
| process_woken s done : done ∈ rs_Closed s → process_step registry key now (AtDone done) s AtClaim s []
| process_cancelled s done : process_step registry key now (AtDone done) s (Processed (Some ErrProcessContext)) s []
| process_executed s entry r : process_step registry key now (AtExecute entry) s (AtRemember entry r) s [TaskExecuted key r]
| process_execute_failed s entry e : process_step registry key now (AtExecute entry) s (AtExecuteFailed entry e) s []
| process_failed s entry e : process_step registry key now (AtExecuteFailed entry e) s (Processed (Some (ErrProcess e)))
    (finishExecutionFailure key entry s) []
| process_remember s entry r : process_step registry key now (AtRemember entry r) s (AtPublishResult entry r)
    (rememberResult key entry r s) []
| process_publish s entry r outcome : process_step registry key now (AtPublishResult entry r) s (AtFinishPublish entry outcome) s
    [TaskPublished key r (publish_complete outcome)]
| process_finish s entry outcome : process_step registry key now (AtFinishPublish entry outcome) s
    (Processed (ErrProcess <$> outcome)) (finishPublish key entry (publish_complete outcome) now s) [].

(** All calls over one registry, and what the outside has seen. *)
Record registry_system : Type := mkRegistrySystem {
  ry_Now : Z;
  ry_State : registry_state;
  ry_Calls : gmap nat (string * process_phase);
  ry_Events : list task_event
}.

Inductive registry_step (registry : TaskRegistry) (y : registry_system) : registry_system → Prop :=
| registry_tick now : ry_Now y ≤ now →
    registry_step registry y (mkRegistrySystem now (ry_State y) (ry_Calls y) (ry_Events y))
| registry_call i key : ry_Calls y !! i = None →
    registry_step registry y (mkRegistrySystem (ry_Now y) (ry_State y) (<[i := (key, AtClaim)]> (ry_Calls y)) (ry_Events y))
| registry_process i key p p' s' events : ry_Calls y !! i = Some (key, p) →
    process_step registry key (ry_Now y) p (ry_State y) p' s' events →
    registry_step registry y (mkRegistrySystem (ry_Now y) s' (<[i := (key, p')]> (ry_Calls y)) (ry_Events y ++ events)).

Definition initial_registry (now : Z) : registry_system := mkRegistrySystem now (mkRegistryState ∅ ∅ 0) ∅ [].
End Process.
Arguments process_phase : clear implicits.
Arguments process_error : clear implicits.
Arguments registry_system : clear implicits.

(** * What the registry of tasks guarantees

    A task has one owner at a time, waiting calls are woken, and what the outside
    sees of a task is a run of a small machine: execute once, then publish that
    very result until it is delivered. *)
#[export] Instance Result_eq_dec : EqDecision Result.
Proof. solve_decision. Defined.

(** ** The machine of one task *)
Inductive task_state : Type :=
| TaskOpen
| TaskHeld (r : Result)
| TaskDelivered.

Definition held (st : task_state) : bool := match st with TaskHeld _ => true | _ => false end.

Definition task_next (st : task_state) (event : task_event) : option task_state :=
  match event, st with
  | TaskExecuted _ _, TaskHeld _ => None
  | TaskExecuted _ r, _ => Some (TaskHeld r)
  | TaskPublished _ r complete, TaskHeld r' =>
      if decide (r = r') then Some (if complete then TaskDelivered else TaskHeld r) else None
  | TaskPublished _ _ _, _ => None
  end.

Definition event_key (event : task_event) : string :=
  match event with TaskExecuted key _ => key | TaskPublished key _ _ => key end.

Definition history (key : string) (events : list task_event) : option task_state :=
  foldl (λ st event, st ≫= λ st, task_next st event) (Some TaskOpen) (filter (λ event, event_key event = key) events).

Lemma history_snoc key events event :
  history key (events ++ [event]) =
    if decide (event_key event = key) then history key events ≫= λ st, task_next st event else history key events.
Proof.
  unfold history. rewrite filter_app. case_decide as H.
  - by rewrite filter_cons_True, filter_nil, foldl_snoc by done.
  - by rewrite filter_cons_False, filter_nil, app_nil_r by done.
Qed.

Lemma history_delivered key events :
  history key events = Some TaskDelivered → ∃ r, TaskPublished key r true ∈ events.
Proof.
  induction events as [|event events IH] using rev_ind; [done|]. rewrite history_snoc. setoid_rewrite elem_of_app.
  case_decide as E; [|naive_solver]. destruct (history key events) as [st|] eqn:Hh; [|done]. cbn.
  destruct event as [k r|k r c], st as [|r'|]; try done. cbn in *. case_decide; [|done]. destruct c; [|done]. subst. intros _. exists r'.
  right. by apply list_elem_of_singleton.
Qed.

Section Registry.
Context {E : Type} (permanent : E → bool) (registry : TaskRegistry).

Notation phase := (process_phase E).
Notation calls := (gmap nat (string * phase)).

(** The entry a call owns. *)
Definition entry_of (p : phase) : option nat :=
  match p with
  | AtExecute a | AtExecuteFailed a _ | AtRemember a _ | AtPublishResult a _ | AtFinishPublish a _ => Some a
  | _ => None
  end.

Definition owner_ok (p : phase) (result : option Result) (st : task_state) : Prop :=
  match p with
  | AtExecute _ | AtExecuteFailed _ _ => result = None ∧ held st = false
  | AtRemember _ r => result = None ∧ st = TaskHeld r
  | AtPublishResult _ r => result = Some r ∧ st = TaskHeld r
  | AtFinishPublish _ outcome => ∃ r, result = Some r ∧
      st = if publish_complete permanent outcome then TaskDelivered else TaskHeld r
  | _ => True
  end.

Definition no_owner (c : calls) (key : string) : Prop := ∀ i p, c !! i = Some (key, p) → entry_of p = None.

Definition one_owner (c : calls) (key : string) (i : nat) (p : phase) : Prop :=
  c !! i = Some (key, p) ∧ ∀ j q, c !! j = Some (key, q) → is_Some (entry_of q) → j = i.

(** What the map, the calls and the history say of one task. *)
Inductive key_case (c : calls) (s : registry_state) (key : string) (st : task_state) : Prop :=
| key_absent : rs_Entries s !! key = None → no_owner c key → held st = false → key_case c s key st
| key_owned e i p : rs_Entries s !! key = Some e → te_Processing e = true → te_Complete e = false →
    te_Done e ∉ rs_Closed s → one_owner c key i p → entry_of p = Some (te_Address e) → owner_ok p (te_Result e) st → key_case c s key st
| key_held e r : rs_Entries s !! key = Some e → te_Processing e = false → te_Complete e = false → no_owner c key →
    te_Result e = Some r → st = TaskHeld r → key_case c s key st
| key_delivered e : rs_Entries s !! key = Some e → te_Processing e = false → te_Complete e = true → no_owner c key →
    st = TaskDelivered → key_case c s key st.

Definition woken (s : registry_state) (key : string) (done : nat) : Prop :=
  done ∈ rs_Closed s ∨ ∃ e, rs_Entries s !! key = Some e ∧ te_Processing e = true ∧ te_Done e = done.

Record key_ok (c : calls) (events : list task_event) (s : registry_state) (key : string) : Prop := {
  ko_case : ∃ st, history key events = Some st ∧ key_case c s key st;
  ko_wait : ∀ i done, c !! i = Some (key, AtDone done) → woken s key done;
  ko_processed : ∀ i, c !! i = Some (key, Processed None) → ∃ r, TaskPublished key r true ∈ events
}.

Record registry_ok (c : calls) (events : list task_event) (s : registry_state) : Prop := {
  ro_keys : ∀ key, key_ok c events s key;
  ro_done : ∀ key e, rs_Entries s !! key = Some e → (te_Done e < rs_Next s)%nat;
  ro_closed : ∀ done, done ∈ rs_Closed s → (done < rs_Next s)%nat;
  ro_inj : ∀ k1 k2 e1 e2, rs_Entries s !! k1 = Some e1 → rs_Entries s !! k2 = Some e2 →
    te_Processing e1 = true → te_Processing e2 = true → te_Done e1 = te_Done e2 → k1 = k2;
  ro_size : Z.of_nat (size (rs_Entries s)) ≤ tr_Capacity registry
}.

(** ** Forgetting completed entries *)
Definition forgotten (s s' : registry_state) : Prop :=
  rs_Closed s' = rs_Closed s ∧ rs_Next s' = rs_Next s ∧ rs_Entries s' ⊆ rs_Entries s ∧
  ∀ key e, rs_Entries s !! key = Some e → rs_Entries s' !! key = Some e ∨ te_Complete e = true ∧ te_Processing e = false.

Lemma forgotten_trans s1 s2 s3 : forgotten s1 s2 → forgotten s2 s3 → forgotten s1 s3.
Proof.
  intros (C1 & N1 & S1 & D1) (C2 & N2 & S2 & D2). split_and!; [congruence|congruence|by etrans|].
  intros key e He. destruct (D1 key e He) as [He2|?]; [by apply D2|by right].
Qed.

Lemma forgotten_refl s : forgotten s s.
Proof. split_and!; try done. intros key e He. by left. Qed.

Lemma prune_forgotten now s : forgotten s (pruneCompleted registry now s).
Proof.
  split_and!; try done; [apply map_filter_subseteq|]. intros key e He. unfold pruneCompleted, set_entries. cbn.
  destruct (completed_expired registry now e) eqn:Hx.
  - right. unfold completed_expired in Hx. by destruct (te_Complete e), (te_Processing e).
  - left. by apply map_lookup_filter_Some.
Qed.

Lemma foldl_older_completed l oldest :
  oldest.1 = "" ∨ (∃ e, (oldest.1, e) ∈ l ∧ te_Complete e = true ∧ te_Processing e = false) →
  ∀ l', l' ⊆ l → let best := foldl older_completed oldest l' in
  best.1 = "" ∨ ∃ e, (best.1, e) ∈ l ∧ te_Complete e = true ∧ te_Processing e = false.
Proof.
  intros Ho l'. revert oldest Ho. induction l' as [|[k e] l' IH]; intros oldest Ho Hl; [done|]. cbn [foldl]. apply IH.
  - unfold older_completed. cbn. destruct (te_Complete e) eqn:Hc, (te_Processing e) eqn:Hp; cbn; try exact Ho.
    destruct (bool_decide _ || _); [|exact Ho]. cbn. right. exists e. split; [apply Hl; by left|done].
  - intros x Hx. apply Hl. by right.
Qed.

Lemma evict_forgotten iteration s :
  (∀ m, iteration m ≡ₚ map_to_list m) → forgotten s (evictOldestCompleted iteration registry s).
Proof.
  intros Hperm. unfold evictOldestCompleted. destruct (negb _); [apply forgotten_refl|].
  set (best := foldl older_completed _ _). case_bool_decide as Hn; [apply forgotten_refl|].
  destruct (foldl_older_completed (iteration (rs_Entries s)) ("", zero_time) ltac:(by left) _ ltac:(reflexivity))
    as [?|(e & He & Hc & Hp)]; [done|]. change (foldl _ _ _) with best in He. rewrite Hperm in He. apply elem_of_map_to_list in He.
  split_and!; try done; [apply delete_subseteq|]. intros k e' Hk. cbn. destruct (decide (k = best.1)) as [->|Hne].
  - right. by simplify_eq.
  - left. by rewrite lookup_delete_ne.
Qed.

Lemma claim_cases iteration now key s c s' :
  (∀ m, iteration m ≡ₚ map_to_list m) → claim iteration registry now key s = (c, s') →
  ∃ s0, forgotten s s0 ∧
    match c with
    | ClaimFull => rs_Entries s0 !! key = None ∧ s' = s0
    | ClaimCompleted => ∃ e, rs_Entries s0 !! key = Some e ∧ te_Complete e = true ∧ s' = set_entries (insert key (touched now e)) s0
    | ClaimWait done => ∃ e, rs_Entries s0 !! key = Some e ∧ te_Complete e = false ∧ te_Processing e = true ∧ done = te_Done e ∧
        s' = set_entries (insert key (touched now e)) s0
    | ClaimOwned entry cached => ∃ e, te_Processing e = false ∧ te_Complete e = false ∧ te_Address e = entry ∧ te_Result e = cached ∧
        (rs_Entries s0 !! key = Some e ∨
         rs_Entries s0 !! key = None ∧ cached = None ∧ Z.of_nat (size (rs_Entries s0)) < tr_Capacity registry) ∧
        ∃ done next, (rs_Next s0 ≤ done < next)%nat ∧
          s' = mkRegistryState (<[key := mkTaskEntry entry true done cached false now]> (rs_Entries s0)) (rs_Closed s0) next
    end.
Proof.
  intros Hperm. unfold claim. set (s1 := pruneCompleted registry now s). pose proof (prune_forgotten now s : forgotten s s1) as Hf.
  destruct (rs_Entries s1 !! key) as [e|] eqn:He.
  - destruct (te_Complete e) eqn:Hc; [intros [= <- <-]; exists s1; split; [done|by exists e]|].
    destruct (te_Processing e) eqn:Hp; intros [= <- <-]; exists s1; (split; [done|]); [by exists e|].
    exists e. split_and!; try done; [by left|]. exists (rs_Next s1), (S (rs_Next s1)). split; [lia|].
    cbn. by rewrite insert_insert_eq.
  - pose proof (evict_forgotten iteration s1 Hperm) as He2. set (s2 := evictOldestCompleted _ _ _) in *.
    assert (Hn : rs_Entries s2 !! key = None).
    { destruct He2 as (_ & _ & Hs & _). by eapply lookup_weaken_None. }
    destruct (registry_full registry (rs_Entries s2)) eqn:Hfull; intros [= <- <-]; exists s2; (split; [by eapply forgotten_trans|]); [done|].
    exists (mkTaskEntry (rs_Next s2) false 0 None false now). split_and!; try done.
    + right. unfold registry_full in Hfull. apply Z.leb_gt in Hfull. done.
    + exists (S (rs_Next s2)), (S (S (rs_Next s2))). split; [lia|done].
Qed.

Lemma forgotten_ok c events s s' : registry_ok c events s → forgotten s s' → registry_ok c events s'.
Proof.
  intros [Hk Hd Hc Hi Hz] (Ec & En & Hs & Hf). assert (Hw : ∀ key e, rs_Entries s' !! key = Some e → rs_Entries s !! key = Some e)
    by (intros key e He; by eapply lookup_weaken).
  split; rewrite ?Ec, ?En; eauto.
  - intros key. destruct (Hk key) as [(st & Hst & Hcase) Hwait Hproc]. split; try done.
    + exists st. split; [done|]. destruct (rs_Entries s' !! key) as [e|] eqn:He'.
      * pose proof (Hw _ _ He') as He. destruct Hcase; simplify_eq; [by eapply key_owned; rewrite ?Ec|by eapply key_held|by eapply key_delivered].
      * destruct Hcase as [Hn Ho Hh|e i p He Hp Hcp Hd' Ho _ _|e r He Hp Hcp Ho _ _|e He Hp Hcp Ho ->].
        -- by apply key_absent.
        -- destruct (Hf key e He) as [?|[? ?]]; congruence.
        -- destruct (Hf key e He) as [?|[? ?]]; congruence.
        -- by apply key_absent.
    + intros i done Hi'. destruct (Hwait i done Hi') as [?|(e & He & Hp & Hde)]; [left; by rewrite Ec|]. right. exists e.
      destruct (Hf key e He) as [?|[_ ?]]; [done|congruence].
  - etransitivity; [|exact Hz]. apply inj_le. by apply map_subseteq_size.
Qed.

(** ** One step *)
Lemma no_owner_insert c key i p' : no_owner c key → entry_of p' = None → no_owner (<[i := (key, p')]> c) key.
Proof. intros Hn Hp j q [[<- [= <-]]|[_ Hj]]%lookup_insert_Some; [done|by eapply Hn]. Qed.

Lemma owner_leaves c key i p p' : one_owner c key i p → entry_of p' = None → no_owner (<[i := (key, p')]> c) key.
Proof.
  intros [_ Ho] Hp j q [[<- [= <-]]|[Hne Hj]]%lookup_insert_Some; [done|]. destruct (entry_of q) eqn:Hq; [|done].
  destruct Hne. symmetry. eapply Ho; [done|by rewrite Hq].
Qed.

Lemma owner_moves c key i p p' : one_owner c key i p → one_owner (<[i := (key, p')]> c) key i p'.
Proof.
  intros [_ Ho]. split; [apply lookup_insert_eq|]. intros j q [[<- _]|[_ Hj]]%lookup_insert_Some Hq; [done|by eapply Ho].
Qed.

Lemma owner_enters c key i p' : no_owner c key → one_owner (<[i := (key, p')]> c) key i p'.
Proof.
  intros Ho. split; [apply lookup_insert_eq|]. intros j q [[<- _]|[_ Hj]]%lookup_insert_Some [a Hq]; [done|].
  by rewrite (Ho j q Hj) in Hq.
Qed.

Lemma owner_stays c key i p p' j q :
  one_owner c key j q → is_Some (entry_of q) → c !! i = Some (key, p) → entry_of p = None → entry_of p' = None →
  one_owner (<[i := (key, p')]> c) key j q.
Proof.
  intros [Hj Ho] Hs Hi Hp Hp'. split.
  - rewrite lookup_insert_ne; [done|]. intros ->. rewrite Hi in Hj. simplify_eq. rewrite Hp in Hs. by destruct Hs.
  - intros j' q' [[<- [= <-]]|[_ Hj']]%lookup_insert_Some [a Hq']; [congruence|by eapply Ho].
Qed.

Lemma history_app_other key events events' :
  Forall (λ event, event_key event ≠ key) events' → history key (events ++ events') = history key events.
Proof.
  intros H. unfold history. rewrite filter_app, (filter_none _ events'), app_nil_r; [done|].
  intros event He. rewrite Forall_forall in H. by apply H.
Qed.

(** The other tasks do not notice a step of [key]. *)
Lemma key_ok_other c events events' s s' i key p' k :
  key_ok c events s k → k ≠ key → (∀ q, c !! i = Some (k, q) → False) → rs_Entries s' !! k = rs_Entries s !! k →
  rs_Closed s ⊆ rs_Closed s' → (∀ e, rs_Entries s !! k = Some e → te_Processing e = true → te_Done e ∉ rs_Closed s → te_Done e ∉ rs_Closed s') →
  Forall (λ event, event_key event = key) events' → key_ok (<[i := (key, p')]> c) (events ++ events') s' k.
Proof.
  intros [(st & Hst & Hcase) Hwait Hproc] Hne Hi He Hsub Hopen Hev.
  assert (Hc : ∀ j q, <[i := (key, p')]> c !! j = Some (k, q) ↔ c !! j = Some (k, q)).
  { intros j q. rewrite lookup_insert_Some. split; [intros [[_ ?]|[_ ?]]; [congruence|done]|]. intros Hj. right. split; [|done].
    intros <-. by eapply Hi. }
  assert (Hno : no_owner c k → no_owner (<[i := (key, p')]> c) k) by (intros Ho j q Hj%Hc; by eapply Ho).
  split.
  - exists st. rewrite history_app_other; [|eapply Forall_impl; [exact Hev|]; intros event ->; done]. split; [done|].
    destruct Hcase as [Hn Ho Hh|e j p Hs Hp Hcp Hd [Hj Ho] Ha Hok|e r Hs Hp Hcp Ho Hr ->|e Hs Hp Hcp Ho ->]; rewrite <-He in *.
    + apply key_absent; auto.
    + eapply (key_owned _ _ _ _ e j p); try done; [by eapply Hopen|]. split; [by apply Hc|]. intros j' q Hj'%Hc. by apply Ho.
    + eapply (key_held _ _ _ _ e r); auto.
    + eapply (key_delivered _ _ _ _ e); auto.
  - intros j done Hj%Hc. destruct (Hwait j done Hj) as [?|(e & Hs & ?)]; [left; by apply Hsub|right; exists e; by rewrite He].
  - intros j Hj%Hc. destruct (Hproc j Hj) as [r Hr]. exists r. apply elem_of_app. by left.
Qed.

Lemma step_ok c events events' s s' i key p p' :
  registry_ok c events s → c !! i = Some (key, p) →
  (∀ k, k ≠ key → rs_Entries s' !! k = rs_Entries s !! k) → (rs_Next s ≤ rs_Next s')%nat → rs_Closed s ⊆ rs_Closed s' →
  (∀ done, done ∈ rs_Closed s' → done ∈ rs_Closed s ∨ ∃ e, rs_Entries s !! key = Some e ∧ te_Processing e = true ∧ te_Done e = done) →
  (∀ e', rs_Entries s' !! key = Some e' → (te_Done e' < rs_Next s')%nat ∧ (te_Processing e' = true →
     (∃ e, rs_Entries s !! key = Some e ∧ te_Processing e = true ∧ te_Done e = te_Done e') ∨ (rs_Next s ≤ te_Done e')%nat)) →
  Z.of_nat (size (rs_Entries s')) ≤ tr_Capacity registry → Forall (λ event, event_key event = key) events' →
  key_ok (<[i := (key, p')]> c) (events ++ events') s' key → registry_ok (<[i := (key, p')]> c) (events ++ events') s'.
Proof.
  intros [Rk Rd Rc Ri Rz] Hi Hsame Hnext Hsub Hclosed Hkey Hsize Hev Hown. split.
  - intros k. destruct (decide (k = key)) as [->|Hne]; [done|]. eapply key_ok_other; eauto; [congruence|].
    intros e He Hp Hn Hin. destruct (Hclosed _ Hin) as [?|(e0 & He0 & Hp0 & Hd)]; [done|]. apply Hne. by eapply Ri.
  - intros k e He. destruct (decide (k = key)) as [->|Hne]; [by apply Hkey|]. rewrite Hsame in He by done. specialize (Rd k e He). lia.
  - intros done Hin. destruct (Hclosed _ Hin) as [Hc|(e & He & _ & <-)]; [specialize (Rc _ Hc)|specialize (Rd _ _ He)]; lia.
  - assert (Hcross : ∀ k e e', k ≠ key → rs_Entries s !! k = Some e → rs_Entries s' !! key = Some e' → te_Processing e = true →
              te_Processing e' = true → te_Done e = te_Done e' → False).
    { intros k e e' Hne He He' Hp Hp' Hd. destruct (Hkey e' He') as [_ [(e0 & He0 & Hp0 & Hd0)|Hge]]; [done| |].
      - apply Hne. eapply Ri; eauto. congruence.
      - specialize (Rd k e He). lia. }
    intros k1 k2 e1 e2 H1 H2 P1 P2 Hd. destruct (decide (k1 = key)) as [->|N1], (decide (k2 = key)) as [->|N2]; [done| | |].
    + rewrite Hsame in H2 by done. exfalso. by eapply Hcross.
    + rewrite Hsame in H1 by done. exfalso. by eapply Hcross.
    + rewrite !Hsame in H1, H2 by done. by eapply Ri.
  - done.
Qed.

(** The task of the step itself. *)
Lemma key_ok_step c events events' s s' i key p p' :
  key_ok c events s key → (∀ done, woken s key done → woken s' key done) → (∀ done, p' = AtDone done → woken s' key done) →
  (p' = Processed None → ∃ r, TaskPublished key r true ∈ events ++ events') →
  (∃ st, history key (events ++ events') = Some st ∧ key_case (<[i := (key, p')]> c) s' key st) →
  c !! i = Some (key, p) → key_ok (<[i := (key, p')]> c) (events ++ events') s' key.
Proof.
  intros [_ Hwait Hproc] Hw Hd Hp Hcase Hi. split; [done| |].
  - intros j done [[<- [= Ed]]|[_ Hj]]%lookup_insert_Some; [by apply Hd|]. eapply Hw, Hwait, Hj.
  - intros j [[<- [= Ed]]|[_ Hj]]%lookup_insert_Some; [by apply Hp|]. destruct (Hproc j Hj) as [r Hr]. exists r. apply elem_of_app. by left.
Qed.

(** The step of an owner is a step of the one owner of its task. *)
Lemma owner_case c events s i key p a :
  key_ok c events s key → c !! i = Some (key, p) → entry_of p = Some a →
  ∃ st e, history key events = Some st ∧ rs_Entries s !! key = Some e ∧ te_Processing e = true ∧ te_Complete e = false ∧
    te_Done e ∉ rs_Closed s ∧ te_Address e = a ∧ one_owner c key i p ∧ owner_ok p (te_Result e) st.
Proof.
  intros [(st & Hst & Hcase) _ _] Hi Ha. exists st.
  destruct Hcase as [Hn Ho _|e j q He Hp Hcp Hd [Hj Ho] Ha' Hok|e r He Hp Hcp Ho _ _|e He Hp Hcp Ho _]; try (by rewrite (Ho i p Hi) in Ha).
  assert (i = j) as -> by (eapply Ho; [done|by rewrite Ha]). rewrite Hi in Hj. simplify_eq. exists e. by split_and!.
Qed.

Lemma owned_entry_found key e s : rs_Entries s !! key = Some e → owned_entry key (te_Address e) s = Some e.
Proof. intros He. unfold owned_entry. rewrite He. cbn. by rewrite decide_True. Qed.

(** A step of an owner that keeps the entry processing, up to its result. *)
Lemma owner_keeps_ok c events events' s i key p p' a a' r' :
  registry_ok c events s → c !! i = Some (key, p) → entry_of p = Some a → entry_of p' = Some a' → a' = a →
  Forall (λ event, event_key event = key) events' → (∀ st e, history key events = Some st → rs_Entries s !! key = Some e →
    owner_ok p (te_Result e) st → ∃ st', history key (events ++ events') = Some st' ∧ owner_ok p' (default (te_Result e) r') st') →
  registry_ok (<[i := (key, p')]> c) (events ++ events')
    (match r' with None => s | Some _ =>
       match rs_Entries s !! key with None => s | Some e =>
         set_entries (insert key (mkTaskEntry (te_Address e) (te_Processing e) (te_Done e) (default (te_Result e) r') (te_Complete e) (te_LastUsed e))) s end end).
Proof.
  intros Hok Hi Ha Ha' -> Hev Hnext. destruct (owner_case _ _ _ _ _ _ _ (ro_keys _ _ _ Hok key) Hi Ha) as (st & e & Hst & He & Hp & Hc & Hd & <- & Ho & Hown).
  destruct (Hnext st e Hst He Hown) as (st' & Hst' & Hown'). rewrite He. set (e' := mkTaskEntry _ _ _ _ _ _). set (s' := match r' with None => s | _ => _ end).
  assert (Hs' : rs_Closed s' = rs_Closed s ∧ rs_Next s' = rs_Next s ∧ (∀ k, k ≠ key → rs_Entries s' !! k = rs_Entries s !! k) ∧
    rs_Entries s' !! key = Some (if r' then e' else e) ∧ size (rs_Entries s') = size (rs_Entries s)).
  { unfold s'. destruct r'; cbn; split_and!; try done.
    - intros k Hk. by rewrite lookup_insert_ne.
    - apply lookup_insert_eq.
    - rewrite map_size_insert_Some; [done|by rewrite He]. }
  clearbody s'. destruct Hs' as (Ec & En & Eo & Ek & Ez).
  assert (Hf : ∀ f : taskEntry → nat, f e' = f e → f (if r' then e' else e) = f e) by (intros f Hf; by destruct r').
  assert (Hb : te_Processing (if r' then e' else e) = true ∧ te_Complete (if r' then e' else e) = false ∧
            te_Result (if r' then e' else e) = default (te_Result e) r') by (by destruct r').
  destruct Hb as (Hp' & Hc' & Hr'). pose proof (Hf te_Done eq_refl) as Hd'. pose proof (Hf te_Address eq_refl) as Hadr. set (e2 := if r' then e' else e) in *.
  eapply step_ok; [exact Hok|exact Hi|exact Eo|lia|by rewrite Ec|intros done; rewrite Ec; by left| |rewrite Ez; apply Hok|done|].
  - intros e0 [= <-]%(eq_trans (eq_sym Ek)). rewrite Hd', En. split; [by eapply Hok|]. intros _. left. by exists e.
  - eapply (key_ok_step _ _ _ s); try done; [apply Hok| |by destruct p'|by destruct p'|].
    + intros done [?|(e0 & He0 & _ & <-)]; [left; by rewrite Ec|]. right. exists e2. simplify_eq. by rewrite Hd'.
    + exists st'. split; [done|]. eapply (key_owned _ _ _ _ e2 i p'); try done; [by rewrite Hd', Ec|by eapply owner_moves|by rewrite Ha', Hadr|by rewrite Hr'].
Qed.

(** A step of a call that owns nothing and becomes no owner: it may touch the
    entry of its task. *)
Lemma visitor_ok c events s i key p p' now :
  registry_ok c events s → c !! i = Some (key, p) → entry_of p = None → entry_of p' = None →
  (∀ done, p' = AtDone done → woken s key done) → (p' = Processed None → ∃ r, TaskPublished key r true ∈ events) →
  registry_ok (<[i := (key, p')]> c) events s ∧
  registry_ok (<[i := (key, p')]> c) events
    (match rs_Entries s !! key with None => s | Some e => set_entries (insert key (touched now e)) s end).
Proof.
  intros Hok Hi Hp Hp' Hd Hproc.
  assert (H : ∀ touch : bool, registry_ok (<[i := (key, p')]> c) (events ++ [])
    (match rs_Entries s !! key with None => s | Some e => if touch then set_entries (insert key (touched now e)) s else s end)).
  { intros touch. set (s' := match rs_Entries s !! key with None => s | _ => _ end).
    assert (Hs' : rs_Closed s' = rs_Closed s ∧ rs_Next s' = rs_Next s ∧ (∀ k, k ≠ key → rs_Entries s' !! k = rs_Entries s !! k) ∧
      rs_Entries s' !! key = (λ e, if touch then touched now e else e) <$> rs_Entries s !! key ∧ size (rs_Entries s') = size (rs_Entries s)).
    { unfold s'. destruct (rs_Entries s !! key) as [e|] eqn:He; [|by rewrite He]. destruct touch; [|by rewrite He]. cbn. split_and!; try done.
      - intros k Hk. by rewrite lookup_insert_ne.
      - apply lookup_insert_eq.
      - rewrite map_size_insert_Some; [done|by rewrite He]. }
    clearbody s'. destruct Hs' as (Ec & En & Eo & Ek & Ez).
    assert (Hw : ∀ done, woken s key done → woken s' key done).
    { intros done [?|(e & He & Hpr & <-)]; [left; by rewrite Ec|]. right. rewrite He in Ek. eexists. split; [exact Ek|]. by destruct touch. }
    eapply step_ok; [exact Hok|exact Hi|exact Eo|lia|by rewrite Ec|intros done; rewrite Ec; by left| |rewrite Ez; apply Hok|done|].
    - intros e' He'. rewrite Ek in He'. apply fmap_Some in He' as (e & He & ->). rewrite En. pose proof (ro_done _ _ _ Hok key e He).
      split; [by destruct touch|]. intros Hpr. left. exists e. by destruct touch.
    - eapply (key_ok_step _ _ _ s); try done; [apply Hok|intros done Hdone; by apply Hw, Hd|by rewrite app_nil_r|].
      destruct (ro_keys _ _ _ Hok key) as [(st & Hst & Hcase) _ _]. exists st. split; [by rewrite app_nil_r|].
      destruct Hcase as [Hn Ho Hh|e j q He Hpr Hcp Hdn Ho Ha Hown|e r He Hpr Hcp Ho Hr ->|e He Hpr Hcp Ho ->].
      + rewrite Hn in Ek. apply key_absent; [done|by apply no_owner_insert|done].
      + rewrite He in Ek. eapply (key_owned _ _ _ _ _ j q Ek); try (by destruct touch); [rewrite Ec; by destruct touch|].
        eapply owner_stays; try done.
      + rewrite He in Ek. eapply (key_held _ _ _ _ _ r Ek); try (by destruct touch). by apply no_owner_insert.
      + rewrite He in Ek. eapply (key_delivered _ _ _ _ _ Ek); try (by destruct touch). by apply no_owner_insert. }
  pose proof (H false) as H0. pose proof (H true) as H1. rewrite app_nil_r in H0, H1. split; [|done]. by destruct (rs_Entries s !! key).
Qed.

Lemma claim_ok c events s i key iteration now r s' :
  (∀ m, iteration m ≡ₚ map_to_list m) → registry_ok c events s → c !! i = Some (key, AtClaim) →
  claim iteration registry now key s = (r, s') → registry_ok (<[i := (key, after_claim r)]> c) events s'.
Proof.
  intros Hperm Hok Hi Hclaim. apply claim_cases in Hclaim as (s0 & Hf & Hr); [|done].
  apply (forgotten_ok _ _ _ _ Hok) in Hf as Hok0. clear Hok Hf. pose proof (ro_keys _ _ _ Hok0 key) as Hko.
  destruct r as [| |done|entry cached].
  - destruct Hr as [_ ->]. by eapply visitor_ok.
  - destruct Hr as (e & He & Hc & ->). destruct (visitor_ok c events s0 i key AtClaim (Processed None) now Hok0 Hi) as [_ H]; try done; [|by rewrite He in H].
    intros _. destruct Hko as [(st & Hst & Hcase) _ _]. eapply history_delivered. destruct Hcase; simplify_eq; congruence.
  - destruct Hr as (e & He & Hc & Hp & -> & ->). destruct (visitor_ok c events s0 i key AtClaim (AtDone (te_Done e)) now Hok0 Hi) as [_ H]; try done; [|by rewrite He in H].
    intros done [= <-]. right. by exists e.
  - destruct Hr as (e & Hp & Hc & <- & <- & He & done & next & Hnext & ->).
    assert (Hcase : ∃ st, history key events = Some st ∧ no_owner c key ∧
              match te_Result e with None => held st = false | Some r => st = TaskHeld r end ∧
              (∀ d, woken s0 key d → d ∈ rs_Closed s0)).
    { destruct Hko as [(st & Hst & Hcase) _ _]. exists st. split; [done|].
      destruct He as [He|(He & Hn & _)].
      - assert (Hw : ∀ d, woken s0 key d → d ∈ rs_Closed s0) by (intros d [?|(e0 & He0 & Hp0 & _)]; [done|congruence]).
        destruct Hcase as [| |e0 r He0 _ _ Ho Hr ->|]; try congruence. rewrite He in He0. injection He0 as <-. by rewrite Hr.
      - assert (Hw : ∀ d, woken s0 key d → d ∈ rs_Closed s0) by (intros d [?|(e0 & He0 & _)]; [done|congruence]).
        rewrite Hn. destruct Hcase; try congruence. done. }
    destruct Hcase as (st & Hst & Hno & Hres & Hw). set (e' := mkTaskEntry _ _ _ _ _ _). rewrite <-(app_nil_r events).
    assert (Hcl : done ∉ rs_Closed s0) by (intros Hin%(ro_closed _ _ _ Hok0); lia).
    set (p' := after_claim _). assert (Hp' : entry_of p' = Some (te_Address e) ∧ owner_ok p' (te_Result e) st).
    { unfold p'. destruct (te_Result e) as [r|]; done. }
    destruct Hp' as [Hp' Hown].
    eapply step_ok; [exact Hok0|exact Hi| |cbn; lia|done|by left| | |done|]; cbn [rs_Entries rs_Next rs_Closed].
    + intros k Hk. by rewrite lookup_insert_ne.
    + intros e0 [= <-]%(eq_trans (eq_sym (lookup_insert_eq _ _ _))). cbn. split; [lia|]. intros _. right. lia.
    + pose proof (ro_size _ _ _ Hok0). destruct He as [He|(He & _ & Hs)]; [rewrite map_size_insert_Some; [done|by rewrite He]|].
      rewrite map_size_insert_None by done. lia.
    + eapply (key_ok_step _ _ _ s0); try done; [intros d Hd; left; by apply Hw|by intros d ->|by intros ->|]. exists st. rewrite app_nil_r. split; [done|].
      eapply (key_owned _ _ _ _ e' i p'); try done; [apply lookup_insert_eq|by apply owner_enters].
Qed.

(** An owner that leaves closes its channel. *)
Lemma owner_leaves_ok c events s i key p outcome a entries' e :
  registry_ok c events s → c !! i = Some (key, p) → entry_of p = Some a → rs_Entries s !! key = Some e →
  (∀ k, k ≠ key → entries' !! k = rs_Entries s !! k) → (size entries' ≤ size (rs_Entries s))%nat →
  (outcome = None → ∃ r, TaskPublished key r true ∈ events) →
  (∀ st, history key events = Some st → owner_ok p (te_Result e) st →
     match entries' !! key with
     | None => held st = false
     | Some e' => te_Processing e' = false ∧ te_Done e' = te_Done e ∧
         if te_Complete e' then st = TaskDelivered else ∃ r, te_Result e' = Some r ∧ st = TaskHeld r
     end) →
  registry_ok (<[i := (key, Processed outcome)]> c) events (mkRegistryState entries' ({[te_Done e]} ∪ rs_Closed s) (rs_Next s)).
Proof.
  intros Hok Hi Ha He Ho Hsize Hproc Hcase. destruct (owner_case _ _ _ _ _ _ _ (ro_keys _ _ _ Hok key) Hi Ha)
    as (st & e0 & Hst & He0 & Hp & Hc & Hd & Hadr & Hone & Hown). rewrite He in He0. injection He0 as <-. specialize (Hcase st Hst Hown).
  rewrite <-(app_nil_r events). eapply step_ok; [exact Hok|exact Hi|exact Ho|done|cbn; set_solver| | | |done|]; cbn [rs_Entries rs_Closed rs_Next].
  - intros done [->%elem_of_singleton|?]%elem_of_union; [right; by exists e|by left].
  - intros e' He'. rewrite He' in Hcase. destruct Hcase as (Hp' & Hd' & _). replace (te_Done e') with (te_Done e). split; [by eapply Hok|congruence].
  - pose proof (ro_size _ _ _ Hok). lia.
  - eapply (key_ok_step _ _ _ s); try done; [apply Hok| |rewrite app_nil_r; by intros [= ->]; apply Hproc|].
    + intros done [?|(e0 & He0 & _ & <-)]; left; cbn; [set_solver|]. rewrite He in He0. injection He0 as <-. set_solver.
    + exists st. rewrite app_nil_r. split; [done|]. pose proof (owner_leaves _ _ _ _ (Processed outcome) Hone eq_refl) as Hno.
      destruct (entries' !! key) as [e'|] eqn:He'; [|by apply key_absent]. destruct Hcase as (Hp' & _ & Hcase).
      destruct (te_Complete e') eqn:Hc'; [by eapply key_delivered|]. destruct Hcase as (r & Hr & ->). by eapply key_held.
Qed.

Lemma process_step_ok c events s i key now p s' p' events' :
  registry_ok c events s → c !! i = Some (key, p) → process_step permanent registry key now p s p' s' events' →
  registry_ok (<[i := (key, p')]> c) (events ++ events') s'.
Proof.
  intros Hok Hi Hstep. pose proof (ro_keys _ _ _ Hok key) as Hko.
  destruct Hstep as [s iteration r s' Hperm Hclaim|s done Hd|s done|s entry r|s entry e|s entry e|s entry r|s entry r outcome|s entry outcome];
    rewrite ?app_nil_r.
  - by eapply claim_ok.
  - by eapply (visitor_ok _ _ _ _ _ _ _ 0).
  - by eapply (visitor_ok _ _ _ _ _ _ _ 0).
  - eapply (owner_keeps_ok c events [_] s i key _ (AtRemember entry r) entry entry None); try done; [by apply Forall_singleton|].
    intros st e Hst He [Hr Hh]. exists (TaskHeld r). rewrite history_snoc, Hst. cbn. rewrite decide_True by done. by destruct st.
  - rewrite <-(app_nil_r events). eapply (owner_keeps_ok c events [] s i key _ (AtExecuteFailed entry e) entry entry None); try done.
    intros st e0 Hst He Hown. exists st. by rewrite app_nil_r.
  - destruct (owner_case _ _ _ _ _ _ _ Hko Hi eq_refl) as (st & e0 & Hst & He & _ & _ & _ & <- & _ & Hown).
    unfold finishExecutionFailure. rewrite owned_entry_found by done. eapply owner_leaves_ok; try done.
    + intros k Hk. by rewrite lookup_delete_ne.
    + apply map_subseteq_size, delete_subseteq.
    + rewrite lookup_delete_eq. by intros ? _ [_ ?].
  - destruct (owner_case _ _ _ _ _ _ _ Hko Hi eq_refl) as (st & e0 & Hst & He & _ & _ & _ & Hadr & _ & Hown).
    pose proof (owner_keeps_ok c events [] s i key _ (AtPublishResult entry r) entry entry (Some (Some r)) Hok Hi eq_refl eq_refl eq_refl ltac:(done)) as H.
    rewrite app_nil_r, He, Hadr in H. unfold rememberResult. rewrite <-Hadr, owned_entry_found, Hadr by done. apply H.
    intros st0 e1 Hst0 He1 [_ ->]. by exists (TaskHeld r).
  - eapply (owner_keeps_ok c events [_] s i key _ (AtFinishPublish entry outcome) entry entry None); try done; [by apply Forall_singleton|].
    intros st e Hst He [Hr ->]. rewrite history_snoc, Hst. cbn. rewrite !decide_True by done. eexists. split; [done|]. by exists r.
  - destruct (owner_case _ _ _ _ _ _ _ Hko Hi eq_refl) as (st & e0 & Hst & He & _ & _ & _ & <- & _ & Hown).
    unfold finishPublish. rewrite owned_entry_found by done. eapply owner_leaves_ok; try done.
    + intros k Hk. by rewrite lookup_insert_ne.
    + rewrite map_size_insert_Some; [done|by rewrite He].
    + intros Ho. destruct outcome; [done|]. destruct Hown as (r & _ & ->). by eapply history_delivered.
    + rewrite lookup_insert_eq. cbn. intros st0 Hst0 (r & Hr & ->). destruct (publish_complete _ _); split_and!; try done. by exists r.
Qed.

Lemma registry_step_ok y y' :
  registry_ok (ry_Calls y) (ry_Events y) (ry_State y) → registry_step permanent registry y y' →
  registry_ok (ry_Calls y') (ry_Events y') (ry_State y').
Proof.
  intros Hok [now _|i key Hi|i key p p' s' events' Hi Hstep]; cbn; [done| |by eapply process_step_ok].
  destruct Hok as [Rk Rd Rc Ri Rz]. split; try done. intros k. destruct (Rk k) as [(st & Hst & Hcase) Hwait Hproc].
  assert (Hc : ∀ j q, <[i := (key, AtClaim)]> (ry_Calls y) !! j = Some (k, q) → q = AtClaim ∨ ry_Calls y !! j = Some (k, q)).
  { intros j q [[_ [= _ <-]]|[_ ?]]%lookup_insert_Some; auto. }
  assert (Hn : no_owner (ry_Calls y) k → no_owner (<[i := (key, AtClaim)]> (ry_Calls y)) k).
  { intros Ho j q [->|Hj]%Hc; [done|by eapply Ho]. }
  split.
  - exists st. split; [done|]. destruct Hcase as [| e j q He Hp Hcp Hd [Hj Ho] Ha Hown| |]; [apply key_absent; auto| |eapply key_held; eauto|eapply key_delivered; eauto].
    eapply (key_owned _ _ _ _ e j q); try done. split; [rewrite lookup_insert_ne; [done|congruence]|].
    intros j' q' [->|Hj']%Hc [x Hx]; [done|]. by eapply Ho.
  - intros j ch [?|Hj]%Hc; [done|by eapply Hwait, Hj].
  - intros j [?|Hj]%Hc; [done|by eapply Hproc, Hj].
Qed.

Lemma reachable_registry now y :
  0 ≤ tr_Capacity registry → rtc (registry_step permanent registry) (initial_registry now) y →
  registry_ok (ry_Calls y) (ry_Events y) (ry_State y).
Proof.
  intros Hcap. eapply (rtc_preserves _ (λ y, registry_ok (ry_Calls y) (ry_Events y) (ry_State y))); [intros a b; apply registry_step_ok|].
  split; cbn; try done. intros key. split; try done. exists TaskOpen. split; [done|]. by apply key_absent.
Qed.

(** A task has one owner. In every state that any interleaving of calls can
    reach, at most one call executes or publishes a task; the registry holds its
    entry, whose channel is open, so the checks of the code that an entry is still
    there always succeed and no channel is closed twice; a call that waits waits
    for a channel that is closed or that the running owner of its task will close;
    and the registry never holds more tasks than its capacity. *)
Lemma task_has_one_owner capacity ttl now y :
  registry = NewTaskRegistry capacity ttl → rtc (registry_step permanent registry) (initial_registry now) y →
  (∀ i j key p q a b, ry_Calls y !! i = Some (key, p) → ry_Calls y !! j = Some (key, q) →
     entry_of p = Some a → entry_of q = Some b → i = j) ∧
  (∀ i key p a, ry_Calls y !! i = Some (key, p) → entry_of p = Some a →
     ∃ e, owned_entry key a (ry_State y) = Some e ∧ te_Processing e = true ∧ te_Complete e = false ∧ te_Done e ∉ rs_Closed (ry_State y)) ∧
  (∀ i key done, ry_Calls y !! i = Some (key, AtDone done) →
     done ∈ rs_Closed (ry_State y) ∨
     ∃ j p a e, ry_Calls y !! j = Some (key, p) ∧ entry_of p = Some a ∧ owned_entry key a (ry_State y) = Some e ∧ te_Done e = done) ∧
  Z.of_nat (size (rs_Entries (ry_State y))) ≤ tr_Capacity registry.
Proof.
  intros Hnew Hs. assert (Hcap : 0 ≤ tr_Capacity registry).
  { subst registry. unfold NewTaskRegistry. cbn. destruct (Z.leb_spec capacity 0); lia. }
  pose proof (reachable_registry now y Hcap Hs) as Hok.
  pose proof (λ i key p a H, owner_case _ _ _ i key p a (ro_keys _ _ _ Hok key) H) as Hown. split_and!.
  - intros i j key p q a b Hi Hj Ha Hb. destruct (Hown _ _ _ _ Hj Hb) as (st & e & _ & _ & _ & _ & _ & _ & [_ Ho] & _). eapply Ho; [exact Hi|by eexists].
  - intros i key p a Hi Ha. destruct (Hown _ _ _ _ Hi Ha) as (st & e & _ & He & Hp & Hc & Hd & <- & _). exists e. split; [by apply owned_entry_found|done].
  - intros i key ch Hi. destruct (ko_wait _ _ _ _ (ro_keys _ _ _ Hok key) i ch Hi) as [?|(e & He & Hp & Hd)]; [by left|right].
    destruct (ko_case _ _ _ _ (ro_keys _ _ _ Hok key)) as (st & _ & Hcase).
    destruct Hcase as [|e' j q He' _ _ _ [Hj _] Ha _| |]; try congruence. exists j, q, (te_Address e'), e'.
    split_and!; try done; [by apply owned_entry_found|congruence].
  - apply Hok.
Qed.

(** C18: What the outside sees of a task is a run of its machine: a task is
    executed only when no result of it is waiting to be delivered, every
    publication carries the result of the last execution, and a result that was not
    delivered is still in the registry, or in the hands of the owner that is about
    to put it there. A call that returns without an error (so that its event is
    acknowledged) returns after the result of its task was delivered, or was refused
    for good. *)
Theorem task_results_delivered capacity ttl now y key :
  registry = NewTaskRegistry capacity ttl → rtc (registry_step permanent registry) (initial_registry now) y →
  ∃ st, history key (ry_Events y) = Some st ∧
    (∀ r, st = TaskHeld r → ∃ e, rs_Entries (ry_State y) !! key = Some e ∧ te_Complete e = false ∧
       (te_Result e = Some r ∨ ∃ i a, ry_Calls y !! i = Some (key, AtRemember a r))) ∧
    (∀ i, ry_Calls y !! i = Some (key, Processed None) → ∃ r, TaskPublished key r true ∈ ry_Events y).
Proof.
  intros Hnew Hs. assert (Hcap : 0 ≤ tr_Capacity registry).
  { subst registry. unfold NewTaskRegistry. cbn. destruct (Z.leb_spec capacity 0); lia. }
  pose proof (reachable_registry now y Hcap Hs) as Hok. destruct (ro_keys _ _ _ Hok key) as [(st & Hst & Hcase) _ Hproc].
  exists st. split_and!; try done. intros r ->. destruct Hcase as [_ _ ?|e i p He _ Hc _ [Hi _] Ha Hown|e r' He _ Hc _ Hr [= ->]|]; try done.
  - exists e. split_and!; try done. destruct p as [| | | |a r'|a r'|a outcome|]; try done.
    + by destruct Hown as [_ ?].
    + by destruct Hown as [_ ?].
    + destruct Hown as [_ [= ->]]. right. by exists i, a.
    + destruct Hown as [? [= ->]]. by left.
    + destruct Hown as (r' & ? & Ey). destruct (publish_complete _ _); [done|]. injection Ey as ->. by left.
  - exists e. split_and!; try done. by left.
Qed.
End Registry.
