(* ===== verification/LegacyJudge.v ===== *)
(** * Judging a submission of the first API

    From an event to a callback: [service/judge_service.go],
    [service/hidden_test_executor.go], [ExecuteArtifact] of
    [service/bundle_batch_pipeline.go] and [Open] of [bundle/provider.go]. The
    canonical execution is that of [BatchPipeline]; events are serialised per task
    by [TaskRegistry]. *)
From stdpp Require Import prelude gmap strings.
From S2P Require Import Prelude.
From S2P Require Import GoText.
From S2P Require Import Manifest.
From S2P Require Import Scheduler.
From S2P Require Import Callback.
From S2P Require Import Sandbox.
From S2P Require Import BundleArchive.
From S2P Require Import BundleCache.
From S2P Require Import BatchPipeline.
From S2P Require Import TaskRegistry.
From S2P Require Import SubmissionEvents.

Open Scope Z_scope.

(** ** Results the service makes itself *)
Definition systemErrorResult (summary : string) : Result :=
  mkResult "" 0 0 StatusSystemError 0 0 0 None None "" (TruncateUTF16 summary 65536) "".

Definition withResultIdentity (r : Result) (event : SubmissionRequested) : Result :=
  mkResult (sr_EventID event) (sr_SubmissionID event) (sr_AttemptNo event) (res_Status r) (res_ExitCode r)
    (res_TimeUsedMillis r) (res_MemoryUsedKB r) (res_Score r) (res_TotalScore r) (res_Stdout r) (res_Stderr r)
    (res_CompileError r).

(** ** Errors; [callback.IsPermanent] looks for the wrapper [Permanent]. *)
Inductive permanent_reason : Type :=
| SubmissionMissing
| SubmissionTerminal
| SubmissionMismatch.

Inductive legacy_error : Type :=
| LegacyPermanent (reason : permanent_reason)
| LegacyStore
| LegacyRequest
| LegacyBundle (e : cache_error)
| LegacyExecution (e : exec_error)
| LegacyPublish (e : publish_failure).

Definition legacy_permanent (e : legacy_error) : bool :=
  match e with
  | LegacyPermanent _ => true
  | LegacyPublish e => failure_permanent e
  | _ => false
  end.

Section Judge.
(** The sandboxes, as in [BatchPipeline]. *)
Context {S : Type} `{SandboxSelector S}.
Context (rpc : list (string * BatchRequest) → string → BatchRequest →
               result rpc_error (list (option BatchEvent))).
Context (request_size : BatchRequest → Z) (case_size : BatchCase → Z) (size_tag size_varint : Z → Z).
Context (json_checker_output : string → option specialJudgeOutput).
(** [sha256.Sum256]; tokens are framed with its hexadecimal form. *)
Context (sha256 : string → string).
Local Notation sha256_hex := (λ s, hex_encode (sha256 s)).

(** ** [BatchBundlePipeline.ExecuteArtifact] *)
Definition special_judge_agrees (config : ExecutionConfig) (artifact : CaseArtifact) (m : Manifest) : bool :=
  match art_ReadSpecialJudge artifact, m_SpecialJudge m with
  | Some _, Some sj => xc_SpecialJudge config && bool_decide (xc_SpecialJudgeLanguage config = sj_Language sj)
  | _, _ => false
  end.

Definition special_source_agrees (config : ExecutionConfig) (artifact : CaseArtifact) : bool :=
  match art_ReadSpecialJudge artifact with
  | Some (Some source) => bool_decide (source = xc_SpecialJudgeSource config)
  | _ => false
  end.

(** Why a configuration does not fit the manifest, if it does not. *)
Definition artifact_disagreement (config : ExecutionConfig) (artifact : CaseArtifact) : option string :=
  let m := art_Manifest artifact in
  if (xc_TimeLimitMillis config <=? 0) || (xc_MemoryLimitMB config <=? 0)
  then Some "immutable execution limits must be positive"
  else if negb (TimeLimitMillis (m_Limits m) =? xc_TimeLimitMillis config) ||
          negb (MemoryLimitMiB (m_Limits m) =? xc_MemoryLimitMB config)
  then Some "immutable execution limits disagree with test bundle manifest"
  else if negb (bool_decide (xc_JudgeMode config = m_JudgeMode m))
  then Some "immutable judge mode disagrees with test bundle manifest"
  else if xc_CheckerPinned config && negb (bool_decide (xc_Checker config = m_Checker m))
  then Some "immutable checker disagrees with test bundle manifest"
  else if bool_decide (m_JudgeMode m = JudgeModeOI) &&
          match m_TotalScore m with None => true | Some total => negb (xc_TotalScore config =? total) end
  then Some "immutable total score disagrees with test bundle manifest"
  else if bool_decide (m_Checker m = CheckerSpecial) then
    if negb (special_judge_agrees config artifact m)
    then Some "immutable special judge metadata disagrees with test bundle manifest"
    else if negb (special_source_agrees config artifact)
    then Some "immutable special judge source disagrees with test bundle manifest"
    else None
  else if xc_SpecialJudge config
  then Some "immutable special judge config requires a special checker bundle"
  else None.

Definition canonical_request (submission : Task) : CanonicalExecutionRequest :=
  mkCanonicalRequest (tk_Language submission) (tk_Code submission) true.

Definition ExecuteArtifact (p : BatchBundlePipeline) (submission : option Task) (config : ExecutionConfig)
    (artifact : option CaseArtifact) (env : exec_env S) : result legacy_error Result * exec_env S :=
  match submission, artifact with
  | Some submission, Some artifact =>
      match artifact_disagreement config artifact with
      | Some summary => (Ok (systemErrorResult summary), env)
      | None =>
          match ExecuteCanonical rpc request_size case_size size_tag size_varint sha256_hex json_checker_output
                  p (canonical_request submission) artifact env with
          | (Ok r, env) => (Ok (CallbackResult r), env)
          | (Err e, env) => (Err (LegacyExecution e), env)
          end
      end
  | _, _ => (Err LegacyRequest, env)
  end.

(** ** [Provider.Open] *)
Context (json_manifest : string → option Manifest) (zip_OpenReader : string → option (list zip_File)).
(** The call of [Cache.Resolve] made here, and the files of the cache when the
    archive is opened. *)
Context (resolve : Metadata → result cache_error string) (files : cache_files) (limits : ArchiveLimits).

Definition OpenMetadata (metadata : Metadata) (manifestJSON : string) : result cache_error Artifact :=
  _ ← guard_err (negb (len manifestJSON =? 0)) CacheInvalid;
  path ← resolve metadata;
  open_resolved sha256 json_manifest zip_OpenReader limits files path manifestJSON.

Definition provider_Open (metadata : option TestBundle) : result cache_error Artifact :=
  match metadata with
  | None => Err CacheInvalid
  | Some b =>
      _ ← guard_err (negb (tb_ProblemVersionID b <=? 0)) CacheInvalid;
      OpenMetadata (mkMetadata (tb_ObjectKey b) (tb_SHA256 b) (tb_SizeBytes b)) (tb_ManifestJSON b)
  end.

Definition to_option {E A} (r : result E A) : option A := match r with Ok a => Some a | Err _ => None end.

(** An archive as the artifact that is executed. *)
Definition case_artifact (artifact : Artifact) : CaseArtifact :=
  BatchPipeline.mkArtifact (ar_Manifest artifact) (λ c, to_option (ReadCase artifact c))
    (Some (to_option (ReadSpecialJudge sha256 artifact))).

(** ** [HiddenTestExecutor.Execute]; [close_fails] says whether [Close] does. *)
Context (close_fails : bool).

Definition hidden_Execute (p : BatchBundlePipeline) (submission : Task) (config : ExecutionConfig)
    (metadata : option TestBundle) (env : exec_env S) : result legacy_error Result * exec_env S :=
  match provider_Open metadata with
  | Err e =>
      if BundleCache.IsInvalid e then (Ok (systemErrorResult "immutable test bundle is invalid"), env)
      else (Err (LegacyBundle e), env)
  | Ok artifact =>
      match ExecuteArtifact p (Some submission) config (Some (case_artifact artifact)) env with
      | (Ok r, env) => (Ok (if close_fails then systemErrorResult "immutable test bundle could not be closed" else r), env)
      | (Err e, env) => (Err e, env)
      end
  end.

(** ** [JudgeService] *)
Context (GetSubmissionByID : Z → option (option Task))
        (GetProblemVersionByID : Z → option (option ProblemVersion))
        (GetTestBundleByProblemVersionID : Z → option (option TestBundle)).
Context (json_limits : string → option (versionLimits * string))
        (json_judge : string → option (versionJudgeConfig * string)).

Definition version_available (event : SubmissionRequested) (id : Z) (version : option ProblemVersion) : bool :=
  match version with
  | None => false
  | Some v => (pv_ID v =? id) && (pv_ProblemID v =? sr_ProblemID event) && bool_decide (pv_State v = "PUBLISHED")
  end.

Definition bundle_available (id : Z) (bundle : option TestBundle) : bool :=
  match bundle with
  | None => false
  | Some b => tb_ProblemVersionID b =? id
  end.

(** What [execute] checks about the submission before it is judged. *)
Definition admit_submission (event : SubmissionRequested) (submission : option Task) : result legacy_error Task :=
  match submission with
  | None => Err (LegacyPermanent SubmissionMissing)
  | Some s =>
      _ ← guard_err (bool_decide (tk_Status s = SubmissionPending)) (LegacyPermanent SubmissionTerminal);
      _ ← guard_err ((tk_ProblemID s =? sr_ProblemID event) && (tk_UserID s =? sr_UserID event) &&
                     bool_decide (tk_Language s = sr_Language event)) (LegacyPermanent SubmissionMismatch);
      Ok s
  end.

(** [execute] once the submission is admitted and its version is known. *)
Definition execute_version (p : BatchBundlePipeline) (event : SubmissionRequested) (submission : Task) (id : Z)
    (env : exec_env S) : result legacy_error Result * exec_env S :=
  let unusable summary := (Ok (withResultIdentity (systemErrorResult summary) event), env) in
  match GetProblemVersionByID id with
  | None => (Err LegacyStore, env)
  | Some version =>
      if negb (version_available event id version) then unusable "immutable problem version is unavailable"
      else
        match ParseExecutionConfig json_limits json_judge version with
        | Err _ => unusable "immutable problem version is invalid or unsupported"
        | Ok config =>
            match GetTestBundleByProblemVersionID id with
            | None => (Err LegacyStore, env)
            | Some bundle =>
                if negb (bundle_available id bundle) then unusable "immutable test bundle is unavailable"
                else
                  match hidden_Execute p submission config bundle env with
                  | (Ok r, env) => (Ok (withResultIdentity r event), env)
                  | (Err e, env) => (Err e, env)
                  end
            end
        end
  end.

Definition execute (p : BatchBundlePipeline) (event : SubmissionRequested) (env : exec_env S) :
    result legacy_error Result * exec_env S :=
  match GetSubmissionByID (sr_SubmissionID event) with
  | None => (Err LegacyStore, env)
  | Some submission =>
      match admit_submission event submission with
      | Err e => (Err e, env)
      | Ok submission =>
          match tk_ProblemVersionID submission with
          | Some id =>
              if id <=? 0
              then (Ok (withResultIdentity (systemErrorResult "submission has no immutable problem version") event), env)
              else execute_version p event submission id env
          | None => (Ok (withResultIdentity (systemErrorResult "submission has no immutable problem version") event), env)
          end
      end
  end.
End Judge.

(** ** [ProcessEvent]: events that are judged through one registry *)
Definition legacy_registry (configured : option TaskRegistry) : TaskRegistry :=
  match configured with Some registry => registry | None => NewTaskRegistry 10000 (6 * hour) end.

(** The callback of [Publish] to the registry. *)
Definition publish_result (r : Result) (http : http_outcome) : option legacy_error :=
  match Publish r http with Ok _ => None | Err f => Some (LegacyPublish f) end.

Definition process_permanent (e : process_error legacy_error) : bool :=
  match e with ErrProcess e => legacy_permanent e | _ => false end.

Section Service.
(** What [JudgeService.execute] may return for an event when the submission store
    answers with a row, no row or an error ([None]); and the events that
    [DecodeSubmissionRequested] accepts. *)
Context (executes : SubmissionRequested → option (option Task) → result legacy_error Result → Prop)
        (received : SubmissionRequested → Prop).

(** The history of the services: what the submission store answered to a call that
    executed its event, with the outcome; and what the backend answered to a result. *)
Inductive service_record : Type :=
| Judged (call : nat) (event : SubmissionRequested) (row : option (option Task)) (out : result legacy_error Result)
| Answered (call : nat) (r : Result) (http : http_outcome).

(** The functions [ProcessEvent] passes to [Process], and what they record. *)
Definition service_outcome (i : nat) (event : SubmissionRequested) (p p' : process_phase legacy_error)
    (records : list service_record) : Prop :=
  match p, p' with
  | AtExecute _, AtRemember _ r => ∃ row, executes event row (Ok r) ∧ records = [Judged i event row (Ok r)]
  | AtExecute _, AtExecuteFailed _ e => ∃ row, executes event row (Err e) ∧ records = [Judged i event row (Err e)]
  | AtPublishResult _ r, AtFinishPublish _ outcome => ∃ http, outcome = publish_result r http ∧ records = [Answered i r http]
  | _, _ => records = []
  end.

Record judge_system : Type := mkJudgeSystem {
  jy_Registry : registry_system legacy_error;
  jy_Events : gmap nat SubmissionRequested;
  jy_Records : list service_record
}.

Inductive judge_step (registry : TaskRegistry) (y : judge_system) : judge_system → Prop :=
| judge_tick now : ry_Now (jy_Registry y) ≤ now →
    judge_step registry y (mkJudgeSystem
      (mkRegistrySystem now (ry_State (jy_Registry y)) (ry_Calls (jy_Registry y)) (ry_Events (jy_Registry y)))
      (jy_Events y) (jy_Records y))
| judge_event i event : received event → ry_Calls (jy_Registry y) !! i = None →
    judge_step registry y (mkJudgeSystem
      (mkRegistrySystem (ry_Now (jy_Registry y)) (ry_State (jy_Registry y))
         (<[i := (DeduplicationKey event, AtClaim)]> (ry_Calls (jy_Registry y))) (ry_Events (jy_Registry y)))
      (<[i := event]> (jy_Events y)) (jy_Records y))
| judge_process i event key p p' s' events records :
    jy_Events y !! i = Some event → ry_Calls (jy_Registry y) !! i = Some (key, p) → service_outcome i event p p' records →
    process_step legacy_permanent registry key (ry_Now (jy_Registry y)) p (ry_State (jy_Registry y)) p' s' events →
    judge_step registry y (mkJudgeSystem
      (mkRegistrySystem (ry_Now (jy_Registry y)) s' (<[i := (key, p')]> (ry_Calls (jy_Registry y)))
         (ry_Events (jy_Registry y) ++ events)) (jy_Events y) (jy_Records y ++ records)).

Definition initial_judge (now : Z) : judge_system := mkJudgeSystem (initial_registry now) ∅ [].
End Service.
