(* ===== verification/LegacyContract.v ===== *)
(** * What a judged submission of the first API guarantees

    Every result of [execute] can be published, up to one known exception, and a
    verdict other than SYSTEM_ERROR comes from the published version, an archive of
    the digest the submission refers to and a run of its code on the sandboxes.

    The second part is the service over its registry and the consumer before it. *)
From stdpp Require Import prelude gmap strings pretty.
From S2P Require Import Prelude.
From S2P Require Import GoText.
From S2P Require Import Encodings.
From S2P Require Import Manifest.
From S2P Require Import Scheduler.
From S2P Require Import Callback.
From S2P Require Import Sandbox.
From S2P Require Import BatchPipeline.
From S2P Require Import BatchContract.
From S2P Require Import Runner.
From S2P Require Import BundleArchive.
From S2P Require Import ArchiveSafety.
From S2P Require Import BundleCache.
From S2P Require Import CacheSafety.
From S2P Require Import TaskRegistry.
From S2P Require Import SubmissionEvents.
From S2P Require Import LegacyJudge.

Open Scope Z_scope.


Section Decode.
Context (json_event : string → option (SubmissionRequested * string)) (uuid_Parse : string → bool).

End Decode.

(** ** The contract of the callback *)

(** The results the callback contract refuses: a compile error with points. *)
Definition scored_compile_failure (r : Result) : Prop :=
  res_Status r = StatusCompileError ∧ ∃ s, res_Score r = Some s ∧ s ≠ 0.

Definition identified (event : SubmissionRequested) : Prop :=
  blank (sr_EventID event) = false ∧ len (sr_EventID event) ≤ 128 ∧ 0 < sr_SubmissionID event ∧ 0 < sr_AttemptNo event.

Lemma system_error_contract event summary :
  identified event → result_contract (withResultIdentity (systemErrorResult summary) event).
Proof.
  intros (H1 & H2 & H3 & H4). pose proof (TruncateUTF16_bound summary 65536) as Hb.
  split; cbn -[UTF16Len TruncateUTF16]; try done; try lia.
Qed.

Lemma canonical_contract m r event :
  identified event → canonical_wf m r → let r' := withResultIdentity (CallbackResult r) event in
  result_contract r' ↔ ¬ scored_compile_failure r'.
Proof.
  intros (H1 & H2 & H3 & H4) Hr r'. destruct (cw_metrics _ _ Hr) as [Ht Hm]. destruct (cw_text _ _ Hr) as (Herr & Hce & Hcet).
  destruct (cw_status _ _ Hr) as [Hk _]. unfold timeCap, memoryCap in *.
  assert (Hred : UTF16Len redacted ≤ 32768 ∧ blank redacted = false) by (split; vm_compute; done).
  split.
  - intros [_ _ Hs _ _] (Hc & s & Es & Hne). rewrite Es in Hs. destruct (res_TotalScore r'); [|done].
    destruct Hs as (_ & _ & [[_ ?]|[? _]]); done.
  - intros Hn. split; cbn -[UTF16Len blank redacted Z.mul]; try done; try lia.
    + pose proof (cw_score _ _ Hr) as Hs. case_decide as E; [|destruct Hs as (-> & -> & _); done].
      destruct Hs as (Hs & Es & Et & Hv). destruct (canonical_score_range m r Hr E) as [Htot Hsc]. cbn in Htot, Hsc.
      rewrite Es, Et. split_and!; [lia..|]. destruct (decide (can_Status r = StatusCompileError)) as [Ec|Ec].
      * left. split; [done|]. destruct (decide (sumZ case_points (can_Cases r) = 0)) as [|Hnz]; [done|]. destruct Hn.
        split; [done|]. exists (sumZ case_points (can_Cases r)). done.
      * right. split; [done|]. rewrite (Hv Ec). destruct Hs as [[_ ?]|Hall]; [done|].
        destruct (points_total _ _ (oi_positive m (cw_manifest _ _ Hr) E) Hall) as [_ Hfull].
        case_decide as D1; case_decide as D2; tauto.
    + split_and!; [by vm_compute|done|]. destruct Hce as [->| ->]; [by vm_compute|apply Hred].
    + split_and!; [done|by apply Hr|]. intros Ec. rewrite (Hcet Ec). apply Hred.
Qed.

(** ** Configurations *)
Record config_ok (c : ExecutionConfig) : Prop := {
  xo_time : 0 < xc_TimeLimitMillis c ≤ maxExecutionMillis;
  xo_memory : 0 < xc_MemoryLimitMB c ≤ maxMemoryMiB;
  xo_mode : xc_JudgeMode c = JudgeModeACM ∧ xc_TotalScore c = 0 ∨
            xc_JudgeMode c = JudgeModeOI ∧ 0 < xc_TotalScore c ≤ maxTotalScore;
  xo_checker : xc_Checker c ∈ canonicalCheckers ∧ (xc_CheckerPinned c = false → xc_Checker c = CheckerExact);
  xo_special :
    if xc_SpecialJudge c then
      xc_Checker c = CheckerSpecial ∧ xc_CheckerPinned c = true ∧ is_Some (ResolveLanguage (xc_SpecialJudgeLanguage c)) ∧
      blank (xc_SpecialJudgeSource c) = false ∧ len (xc_SpecialJudgeSource c) ≤ maxSpecialJudgeCode
    else xc_Checker c ≠ CheckerSpecial ∧ xc_SpecialJudgeLanguage c = "" ∧ xc_SpecialJudgeSource c = ""
}.

Section Config.
Context (json_limits : string → option (versionLimits * string))
        (json_judge : string → option (versionJudgeConfig * string)).

Lemma config_special_ok judge special checker pinned language source :
  config_special judge special = Ok (checker, pinned, language, source) →
  if special then checker = CheckerSpecial ∧ pinned = true ∧ is_Some (ResolveLanguage language) ∧ blank source = false ∧
    len source ≤ maxSpecialJudgeCode
  else checker = CheckerExact ∧ pinned = false ∧ language = "" ∧ source = "".
Proof.
  unfold config_special. destruct special, (vj_SpecialJudgeCode judge), (vj_SpecialJudgeLanguage judge); try done.
  - intros ([] & Hs%guard_err_ok & H)%bind_ok. apply bind_ok in H as (l & Hl%from_option_ok & [= <- <- <- <-]).
    apply negb_true_iff in Hs. bool_to_prop. split_and!; [done|done|by eexists|done|lia].
  - by intros [= <- <- <- <-].
Qed.

Lemma config_checker_ok judge special checker pinned checked :
  config_checker judge special checker pinned = Ok checked →
  checked = (checker, pinned) ∨
  checked.2 = true ∧ checked.1 ∈ canonicalCheckers ∧ (special = true ↔ checked.1 = CheckerSpecial).
Proof.
  unfold config_checker. destruct (vj_Checker judge) as [raw|]; [|by intros [= <-]; left].
  intros ([] & Hc%guard_err_ok & H)%bind_ok. apply bind_ok in H as ([] & Ha%guard_err_ok & [= <-]). right. cbn.
  split_and!; [done| |].
  - unfold IsCanonicalChecker in Hc. apply existsb_exists in Hc as (c & Hc & E%bool_decide_eq_true). subst c.
    by apply list_elem_of_In.
  - destruct special, (bool_decide_reflect (Checker_of raw = CheckerSpecial)); naive_solver.
Qed.

Lemma ParseExecutionConfig_ok version config :
  ParseExecutionConfig json_limits json_judge version = Ok config → config_ok config.
Proof.
  unfold ParseExecutionConfig. intros (v & _ & H)%bind_ok. apply bind_ok in H as (limits & _ & H).
  apply bind_ok in H as ([] & Hb%guard_err_ok & H). apply bind_ok in H as ([] & Ht%guard_err_ok & H).
  apply bind_ok in H as (judge & _ & H). destruct (vj_SpecialJudge judge) as [special|]; [|done].
  destruct (vj_JudgeMode judge) as [mode|]; [|done]. apply bind_ok in H as ([jm total] & Hm & H).
  apply bind_ok in H as ([[[checker pinned] language] source] & Hs & H). apply bind_ok in H as ([checker' pinned'] & Hc & [= <-]).
  apply config_special_ok in Hs. apply config_checker_ok in Hc. apply negb_true_iff in Hb. bool_to_prop.
  assert (Hmode : jm = JudgeModeACM ∧ total = 0 ∨ jm = JudgeModeOI ∧ 0 < total ≤ maxTotalScore).
  { unfold config_mode in Hm. destruct (mode =? 0); [injection Hm as <- <-; by left|]. destruct (mode =? 1); [|done].
    apply bind_ok in Hm as (t & Et%from_option_ok & [= <- <-]). right. rewrite Et in Ht. apply negb_true_iff in Ht. bool_to_prop.
    unfold maxTotalScore. split; [done|lia]. }
  unfold canonicalCheckers in *. split; cbn; unfold maxExecutionMillis, maxMemoryMiB; [lia|lia|done| |].
  - destruct Hc as [[= -> ->]|(Ep & ? & _)]; [|cbn in Ep; by rewrite Ep]. destruct special.
    + destruct Hs as (-> & -> & _). split; [set_solver|done].
    + destruct Hs as (-> & -> & _). split; [set_solver|done].
  - destruct Hc as [[= -> ->]|(Ep & _ & Hsp)]; cbn in *; destruct special; naive_solver.
Qed.
End Config.

(** ** Verdicts *)
Section Verdict.
Context {S : Type} `{SandboxSelector S}.
Context (rpc : list (string * BatchRequest) → string → BatchRequest →
               result rpc_error (list (option BatchEvent))).
Context (request_size : BatchRequest → Z) (case_size : BatchCase → Z) (size_tag size_varint : Z → Z)
        (json_checker_output : string → option specialJudgeOutput) (sha256 : string → string).
Context (json_manifest : string → option Manifest) (zip_OpenReader : string → option (list zip_File))
        (resolve : Metadata → result cache_error string) (files : cache_files) (limits : ArchiveLimits) (close_fails : bool).
Context (GetSubmissionByID : Z → option (option Task))
        (GetProblemVersionByID : Z → option (option ProblemVersion))
        (GetTestBundleByProblemVersionID : Z → option (option TestBundle)).
Context (json_limits : string → option (versionLimits * string))
        (json_judge : string → option (versionJudgeConfig * string)).
Local Notation execute :=
  (execute rpc request_size case_size size_tag size_varint json_checker_output sha256 json_manifest zip_OpenReader
     resolve files limits close_fails GetSubmissionByID GetProblemVersionByID GetTestBundleByProblemVersionID json_limits json_judge).
Local Notation hidden_Execute :=
  (hidden_Execute rpc request_size case_size size_tag size_varint json_checker_output sha256 json_manifest zip_OpenReader
     resolve files limits close_fails).
Local Notation ExecuteArtifact :=
  (ExecuteArtifact rpc request_size case_size size_tag size_varint json_checker_output sha256).
Local Notation ParseExecutionConfig := (ParseExecutionConfig json_limits json_judge).
Local Notation provider_Open := (provider_Open sha256 json_manifest zip_OpenReader resolve files limits).

(** The manifest is the one the configuration was made for. *)
Definition config_agrees (config : ExecutionConfig) (m : Manifest) : Prop :=
  TimeLimitMillis (m_Limits m) = xc_TimeLimitMillis config ∧ MemoryLimitMiB (m_Limits m) = xc_MemoryLimitMB config ∧
  m_JudgeMode m = xc_JudgeMode config ∧ (xc_CheckerPinned config = true → m_Checker m = xc_Checker config) ∧
  (m_JudgeMode m = JudgeModeOI → m_TotalScore m = Some (xc_TotalScore config)) ∧
  (m_Checker m = CheckerSpecial ↔ xc_SpecialJudge config = true).

Lemma artifact_agrees config artifact :
  artifact_disagreement config artifact = None → config_agrees config (art_Manifest artifact).
Proof.
  unfold artifact_disagreement. destruct (_ || _); [done|]. destruct (_ || _) eqn:Hl; [done|].
  destruct (bool_decide_reflect (xc_JudgeMode config = m_JudgeMode (art_Manifest artifact))) as [Em|]; [cbn [negb]|done].
  destruct (xc_CheckerPinned config && _) eqn:Hc; [done|].
  destruct (bool_decide (m_JudgeMode _ = _) && _) eqn:Ht; [done|]. intros Hs.
  apply orb_false_iff in Hl as [Hl1 Hl2]. apply negb_false_iff, Z.eqb_eq in Hl1, Hl2.
  split_and!; try done.
  - intros Ep. rewrite Ep in Hc. apply negb_false_iff, bool_decide_eq_true in Hc. done.
  - intros Eo. rewrite bool_decide_eq_true_2 in Ht by done. destruct (m_TotalScore _); [|done].
    apply negb_false_iff, Z.eqb_eq in Ht. by rewrite Ht.
  - case_bool_decide as Es; [|destruct (xc_SpecialJudge config); done]. split; [intros _|done].
    destruct (special_judge_agrees config artifact _) eqn:Ea; [|done]. unfold special_judge_agrees in Ea.
    destruct (art_ReadSpecialJudge artifact); [|done]. destruct (m_SpecialJudge _); [|done]. by apply andb_true_iff in Ea as [? _].
Qed.

Lemma ExecuteArtifact_ok p submission config artifact env r env' :
  ExecuteArtifact p (Some submission) config (Some artifact) env = (Ok r, env') →
  (∃ summary, r = systemErrorResult summary ∧ env' = env) ∨
  ∃ cr request, config_agrees config (art_Manifest artifact) ∧ canonical_wf (art_Manifest artifact) cr ∧
    judged_run rpc (λ s, hex_encode (sha256 s)) (tk_Language submission) (tk_Code submission) artifact
      (env_calls env) (env_calls env') cr request ∧
    r = CallbackResult cr.
Proof.
  unfold LegacyJudge.ExecuteArtifact. destruct (artifact_disagreement _ _) as [summary|] eqn:Ha.
  - intros [= <- <-]. left. by exists summary.
  - destruct (ExecuteCanonical _ _ _ _ _ _ _ _ _ _ _) as [[cr|] env1] eqn:He; [|done]. intros [= <- <-]. right.
    pose proof (ExecuteCanonical_run _ _ _ _ _ _ _ _ _ _ _ _ _ He) as [request Hrun]. exists cr, request.
    split_and!; [by apply artifact_agrees|by eapply ExecuteCanonical_wf|exact Hrun|done].
Qed.

Lemma provider_Open_ok b artifact :
  provider_Open (Some b) = Ok artifact →
  ∃ path, resolve (mkMetadata (tb_ObjectKey b) (tb_SHA256 b) (tb_SizeBytes b)) = Ok path ∧
    open_resolved sha256 json_manifest zip_OpenReader limits files path (tb_ManifestJSON b) = Ok artifact.
Proof.
  unfold LegacyJudge.provider_Open. intros ([] & _ & H1)%bind_ok. unfold OpenMetadata in H1.
  apply bind_ok in H1 as ([] & _ & H1). apply bind_ok in H1 as (path & Hp & H1). eauto.
Qed.

Lemma OpenArchive_valid file database artifact :
  OpenArchive json_manifest sha256 zip_OpenReader file database limits = Ok artifact →
  ParseManifest json_manifest database = Ok (ar_Manifest artifact) ∧
  ∃ entries, zip_OpenReader file = Some entries ∧ archive_valid json_manifest sha256 limits entries artifact.
Proof.
  intros Ho. destruct (ValidateArchiveLimits limits) eqn:Hl; [by apply OpenArchive_ok in Ho as (_ & ? & ?)|].
  unfold OpenArchive in Ho. by rewrite Hl in Ho.
Qed.

(** A result made by the judging of an admitted submission: what the rows say, and
    the run of the submission's code on the artifact that was opened. *)
Record judged_by (event : SubmissionRequested) (s : Task) (v : ProblemVersion) (b : TestBundle) (artifact : Artifact)
    (before after : list (string * BatchRequest)) (r : Result) : Prop := {
  jb_submission : GetSubmissionByID (sr_SubmissionID event) = Some (Some s) ∧ tk_Status s = SubmissionPending ∧
    tk_ProblemID s = sr_ProblemID event ∧ tk_UserID s = sr_UserID event ∧ tk_Language s = sr_Language event;
  jb_version : tk_ProblemVersionID s = Some (pv_ID v) ∧ GetProblemVersionByID (pv_ID v) = Some (Some v) ∧
    pv_ProblemID v = sr_ProblemID event ∧ pv_State v = "PUBLISHED";
  jb_bundle : GetTestBundleByProblemVersionID (pv_ID v) = Some (Some b) ∧ tb_ProblemVersionID b = pv_ID v ∧
    provider_Open (Some b) = Ok artifact;
  jb_config : ∃ config, ParseExecutionConfig (Some v) = Ok config ∧ config_ok config ∧ config_agrees config (ar_Manifest artifact);
  jb_result : ∃ cr request, canonical_wf (ar_Manifest artifact) cr ∧
    judged_run rpc (λ s, hex_encode (sha256 s)) (tk_Language s) (tk_Code s) (case_artifact sha256 artifact) before after cr request ∧
    r = withResultIdentity (CallbackResult cr) event
}.

(** An artifact is the bundle of the row: it was read from an archive with the
    row's digest, which holds the row's manifest, the texts of the cases and the
    source of the special judge with the digest the manifest gives. *)
Record authentic (b : TestBundle) (artifact : Artifact) (content : string) (entries : list zip_File) : Prop := {
  au_digest : hex_encode (sha256 content) = to_lower (tb_SHA256 b);
  au_archive : zip_OpenReader content = Some entries;
  au_manifest : ParseManifest json_manifest (tb_ManifestJSON b) = Ok (ar_Manifest artifact) ∧
    ∃ archived, entry_text entries (MaxManifestBytes limits) reserved_name archived ∧
      ParseManifest json_manifest archived = Ok (ar_Manifest artifact);
  au_cases : ∀ c input output, art_ReadCase (case_artifact sha256 artifact) c = Some (input, output) →
    entry_text entries (MaxCaseBytes limits) (case_Input c) input ∧ entry_text entries (MaxCaseBytes limits) (case_Output c) output;
  au_special : ∀ source, art_ReadSpecialJudge (case_artifact sha256 artifact) = Some (Some source) →
    ∃ sj, m_SpecialJudge (ar_Manifest artifact) = Some sj ∧ hex_encode (sha256 source) = sj_SourceSHA256 sj ∧
      entry_text entries maxSpecialJudgeSourceBytes (sj_Source sj) source
}.

Lemma OpenArchive_authentic b content artifact :
  hex_encode (sha256 content) = to_lower (tb_SHA256 b) →
  OpenArchive json_manifest sha256 zip_OpenReader content (tb_ManifestJSON b) limits = Ok artifact →
  ∃ entries, authentic b artifact content entries.
Proof.
  intros Hd (Hm & entries & Hz & Hv)%OpenArchive_valid. exists entries.
  assert (Htext : ∀ name limit data, readText (ar_Files artifact) name limit = Ok data → entry_text entries limit name data).
  { intros name limit data [Hb _]%readText_ok. eapply archive_entry_text; [exact Hv|exact Hb]. }
  pose proof (av_limits _ _ _ _ _ Hv) as El. split; try done.
  - split; [done|]. exists (ar_ManifestJSON artifact). split; [|by apply Hv]. eapply archive_entry_text; [exact Hv|apply Hv].
  - intros c input output. cbn. unfold ReadCase. rewrite El. destruct (readText _ (case_Input c) _) as [i|] eqn:Hi; [|done]. cbn.
    destruct (readText _ (case_Output c) _) as [o|] eqn:Ho; [|done]. intros [= <- <-]. split; by apply Htext.
  - intros source. cbn. unfold ReadSpecialJudge. destruct (m_SpecialJudge _) as [sj|]; [|done].
    destruct (readText _ (sj_Source sj) _) as [src|] eqn:Hs; [|done]. cbn.
    case_bool_decide as Hdig; [|done]. intros [= <-]. exists sj. split_and!; [done..|]. by apply Htext.
Qed.

(** The cache the provider resolves through: the files when the archive is opened,
    and a call of [Resolve] for each path it was given. *)
Definition cache_answers (y : cache_system) : Prop :=
  files = cs_Files (cy_State y) ∧
  ∀ metadata path, resolve metadata = Ok path → ∃ id, cy_Calls y !! id = Some (lower_metadata metadata, Resolved (Ok path)).

Lemma provider_Open_authentic cache y b artifact :
  cache_ok sha256 cache y → cache_answers y → provider_Open (Some b) = Ok artifact →
  ∃ content entries, authentic b artifact content entries.
Proof.
  intros Hok [Ef Hres] (path & Hp & Ho)%provider_Open_ok. destruct (Hres _ _ Hp) as [id Hid].
  rewrite Ef in Ho.  destruct (opened_authentic _ _ _ _ _ _ _ _ _ _ _ Hok Hid Ho) as (content & Hd & Ha). exists content. by apply OpenArchive_authentic.
Qed.

Definition refused (event : SubmissionRequested) (r : Result) : Prop :=
  ∃ summary, r = withResultIdentity (systemErrorResult summary) event.

Lemma hidden_Execute_ok p s config b env r env' :
  hidden_Execute p s config (Some b) env = (Ok r, env') →
  (∃ summary, r = systemErrorResult summary ∧ (env' = env ∨ close_fails = true)) ∨
  ∃ artifact cr request, provider_Open (Some b) = Ok artifact ∧ config_agrees config (ar_Manifest artifact) ∧
    canonical_wf (ar_Manifest artifact) cr ∧
    judged_run rpc (λ s, hex_encode (sha256 s)) (tk_Language s) (tk_Code s) (case_artifact sha256 artifact)
      (env_calls env) (env_calls env') cr request ∧
    r = CallbackResult cr.
Proof.
  unfold LegacyJudge.hidden_Execute. destruct (provider_Open (Some b)) as [artifact|e] eqn:Ho.
  - destruct (ExecuteArtifact _ _ _ _ _) as [[r1|] env1] eqn:He; [|done].
    intros [= <- <-]. destruct close_fails; [left; by eexists; split; [done|right]|].
    apply ExecuteArtifact_ok in He as [(summary & -> & ->)|(cr & request & ? & ? & ? & ->)]; [left; eauto|right].
    by exists artifact, cr, request.
  - destruct (BundleCache.IsInvalid e); [|done]. intros [= <- <-]. left. eauto.
Qed.

Lemma admit_submission_ok event submission s :
  admit_submission event submission = Ok s →
  submission = Some s ∧ tk_Status s = SubmissionPending ∧ tk_ProblemID s = sr_ProblemID event ∧
  tk_UserID s = sr_UserID event ∧ tk_Language s = sr_Language event.
Proof.
  unfold admit_submission. destruct submission as [s0|]; [|done]. intros ([] & H1%guard_err_ok & H2)%bind_ok.
  apply bind_ok in H2 as ([] & H2%guard_err_ok & [= <-]). bool_to_prop. done.
Qed.


Lemma execute_ok p event env r env' :
  execute p event env = (Ok r, env') →
  refused event r ∧ (env' = env ∨ close_fails = true) ∨
  ∃ s v b artifact, judged_by event s v b artifact (env_calls env) (env_calls env') r.
Proof.
  unfold LegacyJudge.execute. destruct (GetSubmissionByID _) as [submission|] eqn:Hs; [|done].
  destruct (admit_submission event submission) as [s|] eqn:Ha; [|done].
  apply admit_submission_ok in Ha as (-> & Hp & E1 & E2 & E3).
  assert (Hr : ∀ summary, refused event (withResultIdentity (systemErrorResult summary) event)) by (intros summary; by exists summary).
  destruct (tk_ProblemVersionID s) as [id|] eqn:Hid; [|intros [= <- <-]; left; auto].
  destruct (id <=? 0); [intros [= <- <-]; left; auto|]. unfold execute_version.
  destruct (GetProblemVersionByID id) as [version|] eqn:Hv; [|done].
  destruct (version_available event id version) eqn:Hav; [cbn [negb]|intros [= <- <-]; left; auto].
  destruct version as [v|]; [|done]. cbn in Hav.
  apply andb_true_iff in Hav as [[Ev%Z.eqb_eq Ep%Z.eqb_eq]%andb_true_iff Est%bool_decide_eq_true]. subst id.
  destruct (ParseExecutionConfig (Some v)) as [config|] eqn:Hc; [|intros [= <- <-]; left; auto].
  destruct (GetTestBundleByProblemVersionID _) as [bundle|] eqn:Hb; [|done].
  destruct (bundle_available _ bundle) eqn:Hba; [cbn [negb]|intros [= <- <-]; left; auto].
  destruct bundle as [b|]; [|done]. cbn in Hba. apply Z.eqb_eq in Hba.
  destruct (hidden_Execute _ _ _ _ _) as [[r1|] env1] eqn:He; [|done]. intros [= <- <-].
  apply hidden_Execute_ok in He as [(summary & -> & Henv)|(artifact & cr & request & Ho & Hagree & Hcr & Hrun & ->)]; [left; auto|right].
  exists s, v, b, artifact. split; try done; [|by exists cr, request]. exists config. split_and!; try done. by eapply ParseExecutionConfig_ok.
Qed.

(** What is published can be published, but for one case. *)
Lemma execute_contract p event env r env' :
  identified event → execute p event env = (Ok r, env') → result_contract r ↔ ¬ scored_compile_failure r.
Proof.
  intros Hid [[(summary & ->) _]|(s & v & b & artifact & [_ _ _ _ (cr & request & Hcr & _ & ->)])]%execute_ok.
  - split; [by intros _ [? _]|]. intros _. by apply system_error_contract.
  - by eapply canonical_contract.
Qed.

(** C15: A verdict is given only by what the submission refers to. When [execute]
    answers for an event, over any state the bundle cache can reach and any selector
    of sandboxes, the result carries the identity of the event; and either the service
    itself reports SYSTEM_ERROR, without having contacted a sandbox (unless the archive
    could not be closed afterwards), or the submission is pending and is the one the
    event describes, its problem version is published and belongs to its problem, the
    limits, mode, checker and total score the version pins are within bounds and are
    those of the manifest, and the result is a canonical one for that manifest, made by
    running the submission's code in its language on the cases of an archive whose
    bytes have the digest of the bundle's row and which holds that very manifest, the
    row's own: the calls made are requests with that code and the texts of the
    archive's cases, followed, for a special checker only, by requests with the source
    of the archive's special judge; the last request for the code was answered with the
    validated events the verdict is read from. Such a result meets the contract of the
    callback, except a compile error with points. *)
Theorem verdict_of_published_version p event env r env' directory maxBytes maxObjectBytes ttl files0 cache files1 now y :
  NewCache directory maxBytes maxObjectBytes ttl files0 = Some (cache, files1) → ch_MaxBytes cache < Z.shiftl 1 62 →
  rtc (cache_step sha256 cache) (initial_cache now files1) y → cache_answers y →
  identified event → execute p event env = (Ok r, env') →
  (res_ResultID r = sr_EventID event ∧ res_SubmissionID r = sr_SubmissionID event ∧ res_AttemptNo r = sr_AttemptNo event) ∧
  (res_Status r = StatusSystemError ∧ (env' = env ∨ close_fails = true) ∨
   ∃ s v b artifact content entries,
     judged_by event s v b artifact (env_calls env) (env_calls env') r ∧ authentic b artifact content entries) ∧
  (result_contract r ↔ ¬ scored_compile_failure r).
Proof.
  intros Hnew Hcap Hs Hcache Hid He. pose proof (execute_contract _ _ _ _ _ Hid He) as Hc.
  pose proof (reachable_cache _ _ _ _ _ _ _ _ _ _ Hnew Hcap Hs) as Hok.
  apply execute_ok in He as [[(summary & ->) Henv]|(s & v & b & artifact & Hj)].
  - split_and!; try done. by left.
  - pose proof (jb_bundle _ _ _ _ _ _ _ _ Hj) as (_ & _ & Ho). pose proof (jb_result _ _ _ _ _ _ _ _ Hj) as (cr & request & _ & _ & ->).
    destruct (provider_Open_authentic _ _ _ _ Hok Hcache Ho) as (content & entries & ?).
    split_and!; try done. right. by exists s, v, b, artifact, content, entries.
Qed.

End Verdict.

(** * Events, results and acknowledgements of the first API, together

    Concurrent calls of [ProcessEvent] over one registry: what is published under a
    key answers the events of that key, and an event that [handleMessage]
    acknowledges is settled. *)
(** ** Over any executor *)
Section System.
Context (executes : SubmissionRequested → option (option Task) → result legacy_error Result → Prop)
        (received : SubmissionRequested → Prop) (registry : TaskRegistry).
Local Notation step := (judge_step executes received registry).















End System.

(** ** Messages *)
Section Messages.
Context (json_event : string → option (SubmissionRequested * string)) (uuid_Parse : string → bool).
Context {W E : Type} (process : W → SubmissionRequested → option E * W) (permanent : E → bool).
Local Notation decode := (DecodeSubmissionRequested json_event uuid_Parse).
Local Notation handle := (handleMessage json_event uuid_Parse process permanent).

(** An outcome that needs no second delivery. *)
Definition settled (outcome : option E) : bool := match outcome with None => true | Some e => permanent e end.

Inductive consumed : W → list string → W → Prop :=
| consumed_nil w : consumed w [] w
| consumed_invalid w e body msgs w' : decode body = Err e → consumed w msgs w' → consumed w (body :: msgs) w'
| consumed_event w event outcome w1 body msgs w' : decode body = Ok event → process w event = (outcome, w1) →
    settled outcome = true → consumed w1 msgs w' → consumed w (body :: msgs) w'.

(** C17: A batch is acknowledged exactly when each of its messages was discarded as
    invalid, processed, or rejected for good; otherwise the messages before the
    first one that must be retried were so consumed, and the rest was not touched. *)
Theorem handleMessage_acknowledges w msgs w' :
  (handle w msgs = (ConsumeSuccess, w') ↔ consumed w msgs w') ∧
  (handle w msgs = (ConsumeRetryLater, w') ↔ ∃ before body after event w1 e,
     msgs = before ++ body :: after ∧ consumed w before w1 ∧ decode body = Ok event ∧
     process w1 event = (Some e, w') ∧ permanent e = false).
Proof.
  split.
  - split.
    + revert w. induction msgs as [|body msgs IH]; intros w; cbn; [intros [= ->]; constructor|].
      destruct (decode body) as [event|e] eqn:Hd; [|intros H; eapply consumed_invalid; eauto].
      destruct (process w event) as [[e|] w1] eqn:Hp; [|intros H; eapply consumed_event; eauto].
      destruct (permanent e) eqn:He; [|done]. intros H. eapply consumed_event; eauto.
    + induction 1 as [w|w e body msgs w' Hd _ IH|w event outcome w1 body msgs w' Hd Hp Hs _ IH]; cbn; [done|by rewrite Hd|].
      rewrite Hd, Hp. destruct outcome as [e|]; [|done]. cbn in Hs. by rewrite Hs.
  - split.
    + revert w. induction msgs as [|body msgs IH]; intros w; cbn; [done|].
      destruct (decode body) as [event|e] eqn:Hd.
      * destruct (process w event) as [[e|] w1] eqn:Hp.
        -- destruct (permanent e) eqn:He.
           ++ intros (before & body' & after & event' & w2 & e' & -> & Hc & Hrest)%IH.
              exists (body :: before), body', after, event', w2, e'. split_and!; try apply Hrest; [done|].
              by eapply consumed_event.
           ++ intros [= <-]. exists [], body, msgs, event, w, e. split_and!; try done. constructor.
        -- intros (before & body' & after & event' & w2 & e' & -> & Hc & Hrest)%IH.
           exists (body :: before), body', after, event', w2, e'. split_and!; try apply Hrest; [done|]. by eapply consumed_event.
      * intros (before & body' & after & event' & w2 & e' & -> & Hc & Hrest)%IH.
        exists (body :: before), body', after, event', w2, e'. split_and!; try apply Hrest; [done|]. by eapply consumed_invalid.
    + intros (before & body & after & event & w1 & e & -> & Hc & Hd & Hp & He).
      induction Hc as [w|w e0 b msgs w1 Hd0 _ IH|w event0 outcome w0 b msgs w1 Hd0 Hp0 Hs _ IH]; cbn.
      * by rewrite Hd, Hp, He.
      * rewrite Hd0. by apply IH.
      * rewrite Hd0, Hp0. destruct outcome as [e0|]; [|by apply IH]. cbn in Hs. rewrite Hs. by apply IH.
Qed.
End Messages.

(** ** Over the judge service *)
Section Service.
Context {S : Type} `{SandboxSelector S}.
Context (rpc : list (string * BatchRequest) → string → BatchRequest →
               result rpc_error (list (option BatchEvent))).
Context (request_size : BatchRequest → Z) (case_size : BatchCase → Z) (size_tag size_varint : Z → Z)
        (json_checker_output : string → option specialJudgeOutput) (sha256 : string → string).
Context (json_manifest : string → option Manifest) (zip_OpenReader : string → option (list zip_File)) (limits : ArchiveLimits).
Context (json_limits : string → option (versionLimits * string))
        (json_judge : string → option (versionJudgeConfig * string)).
Context (json_event : string → option (SubmissionRequested * string)) (uuid_Parse : string → bool).
Context (p : BatchBundlePipeline).







End Service.
