(* ===== verification/LegacyPipelines.v ===== *)
(** * The older execution pipelines

    [service/bundle_pipeline.go]: the cases of a bundle run one by one, each with
    its own RPC; [service/execution_pipeline.go]: one run without a bundle. The
    server is now started with [BatchBundlePipeline]; these are kept and exported.

    The second part proves what their results mean. *)
From stdpp Require Import prelude gmap strings pretty.
From S2P Require Import Prelude.
From S2P Require Import GoText.
From S2P Require Import Manifest.
From S2P Require Import Scheduler.
From S2P Require Import Callback.
From S2P Require Import Sandbox.
From S2P Require Import BatchPipeline.
From S2P Require Import SubmissionEvents.
From S2P Require Import LegacyJudge.
From S2P Require Import LegacyContract.

Open Scope Z_scope.

(** ** The [Execute] RPC *)
Record ExecuteRequest : Type := mkExecuteRequest {
  eq_Language : string;
  eq_SourceCode : string;
  eq_Stdin : string;
  eq_Timeout : Z;
  eq_MemoryLimit : Z;
  eq_ExpectedOutput : string
}.

(** A response with its diagnostics. *)
Record SandboxResponse : Type := mkSandboxResponse {
  sp_Response : ExecuteResponse;
  sp_Stderr : string;
  sp_Error : string;
  sp_CompileError : string
}.

(** The selector, and the calls so far. *)
Record run_env (S : Type) : Type := mkRunEnv {
  rn_selector : S;
  rn_calls : list (string * ExecuteRequest)
}.
Arguments mkRunEnv {S} _ _.
Arguments rn_selector {S} _.
Arguments rn_calls {S} _.

Section Run.
Context {S : Type} `{SandboxSelector S}.
(** What a sandbox answers: a response, which may be nil, or a gRPC code. *)
Context (rpc : list (string * ExecuteRequest) → string → ExecuteRequest → result grpc_code (option SandboxResponse)).

(** ** [BundlePipeline] *)
Definition NewBundlePipeline (maxInfra : Z) : Z := if maxInfra <=? 0 then 3 else maxInfra.

Definition case_request (submission : Task) (config : ExecutionConfig) (checker : Checker) (input expected : string) : ExecuteRequest :=
  mkExecuteRequest (tk_Language submission) (tk_Code submission) input (timeoutSeconds (xc_TimeLimitMillis config))
    (boundedInt32 (xc_MemoryLimitMB config)) (if bool_decide (checker = CheckerExact) then expected else "").

(** The retry loop of [executeCase] with [fuel] attempts left; [Ok None] is the
    exhausted infrastructure. *)
Fixpoint case_loop (fuel : nat) (lastRetryable : option grpc_code) (receivedInvalid : bool) (request : ExecuteRequest)
    (env : run_env S) : result exec_error (option SandboxResponse) * run_env S :=
  match fuel with
  | O =>
      match lastRetryable with
      | Some code => if receivedInvalid then (Ok None, env) else (Err (ErrAttemptsExhausted code), env)
      | None => (Ok None, env)
      end
  | Datatypes.S fuel =>
      match sel_select (rn_selector env) with
      | (Err e, s) => (Err (ErrSelectSandbox e), mkRunEnv s (rn_calls env))
      | (Ok address, s) =>
          let outcome := rpc (rn_calls env) address request in
          let env := mkRunEnv s (rn_calls env ++ [(address, request)]) in
          match outcome with
          | Err code =>
              if retryable code then case_loop fuel (Some code) receivedInvalid request env
              else (Err (ErrSandboxRPC code), env)
          | Ok None => case_loop fuel lastRetryable true request env
          | Ok (Some response) =>
              if isKnownContestantStatus (er_Status (sp_Response response)) then (Ok (Some response), env)
              else case_loop fuel lastRetryable true request env
          end
      end
  end.

Definition executeCase (maxInfraAttempts : Z) (request : ExecuteRequest) (env : run_env S) :
    result exec_error (option SandboxResponse) * run_env S :=
  case_loop (Z.to_nat maxInfraAttempts) None false request env.

(** The status of a case after the local comparison. *)
Definition sequential_status (checker : Checker) (response : ExecuteResponse) (expected : string) : Status :=
  if bool_decide (er_Status response = "Accepted") && negb (outputsMatch checker (er_Stdout response) expected)
  then StatusWrongAnswer else mapBundleStatus (er_Status response).

(** What the loop of [ExecuteArtifact] makes of a response. *)
Definition sequential_update (r : Result) (summaries : list string) (response : ExecuteResponse) (status : Status) : Result :=
  mkResult "" 0 0 status (er_ExitCode response)
    (Z.max (res_TimeUsedMillis r) (boundedMetric (er_TimeUsed response) 86400000))
    (Z.max (res_MemoryUsedKB r) (boundedMetric (er_MemoryUsed response) 2147483647))
    None None "" (TruncateUTF16 (join_with ";" summaries) 65536)
    (if bool_decide (status = StatusCompileError) then "compilation failed; diagnostics redacted" else res_CompileError r).

Definition exhausted_update (r : Result) (summaries : list string) : Result :=
  mkResult "" 0 0 StatusSystemError (res_ExitCode r) (res_TimeUsedMillis r) (res_MemoryUsedKB r) None None ""
    (TruncateUTF16 (join_with ";" summaries) 65536) (res_CompileError r).

Definition accepted_result (r : Result) : Result :=
  mkResult "" 0 0 (res_Status r) 0 (res_TimeUsedMillis r) (res_MemoryUsedKB r) None None "" (res_Stderr r) (res_CompileError r).

Fixpoint sequential_loop (maxInfraAttempts : Z) (submission : Task) (config : ExecutionConfig) (artifact : CaseArtifact)
    (cases : list Case) (r : Result) (summaries : list string) (env : run_env S) : result exec_error Result * run_env S :=
  match cases with
  | [] => (Ok (accepted_result r), env)
  | testCase :: cases =>
      match art_ReadCase artifact testCase with
      | None => (Ok (systemErrorResult "bundle case could not be read"), env)
      | Some (input, expected) =>
          let checker := m_Checker (art_Manifest artifact) in
          match executeCase maxInfraAttempts (case_request submission config checker input expected) env with
          | (Err e, env) => (Err e, env)
          | (Ok None, env) =>
              (Ok (exhausted_update r (summaries ++ ["case=" +:+ case_ID testCase +:+ " status=SYSTEM_ERROR"])), env)
          | (Ok (Some response), env) =>
              let response := sp_Response response in
              let status := sequential_status checker response expected in
              let summaries := summaries ++ [case_summary (case_ID testCase) (er_Status response) status] in
              let r := sequential_update r summaries response status in
              if bool_decide (status = StatusAccepted)
              then sequential_loop maxInfraAttempts submission config artifact cases r summaries env
              else (Ok r, env)
          end
      end
  end.

Definition sequential_start : Result := mkResult "" 0 0 StatusAccepted 0 0 0 None None "" "" "".

Definition sequential_ExecuteArtifact (maxInfraAttempts : Z) (submission : option Task) (config : ExecutionConfig)
    (artifact : option CaseArtifact) (env : run_env S) : result exec_error Result * run_env S :=
  match submission, artifact with
  | Some submission, Some artifact =>
      if (xc_TimeLimitMillis config <=? 0) || (xc_MemoryLimitMB config <=? 0) then (Err ErrRequestRequired, env)
      else
        match Validate (art_Manifest artifact) with
        | Err _ => (Ok (systemErrorResult "bundle manifest became invalid"), env)
        | Ok _ =>
            sequential_loop maxInfraAttempts submission config artifact (m_Cases (art_Manifest artifact)) sequential_start [] env
        end
  | _, _ => (Err ErrRequestRequired, env)
  end.

(** ** [ExecutionPipeline] *)
Record Problem : Type := mkProblem { pb_TimeLimit : Z; pb_MemoryLimit : Z }.

Inductive run_failure : Type :=
| RunRequired
| RunSelect (e : selector_error)
| RunRPC (code : grpc_code)
| RunNoResponse.

Definition executeResponse (submission : option Task) (problem : option Problem) (env : run_env S) :
    result run_failure SandboxResponse * run_env S :=
  match submission, problem with
  | Some submission, Some problem =>
      match sel_select (rn_selector env) with
      | (Err e, s) => (Err (RunSelect e), mkRunEnv s (rn_calls env))
      | (Ok address, s) =>
          let request := mkExecuteRequest (tk_Language submission) (tk_Code submission) ""
                           (timeoutSeconds (pb_TimeLimit problem)) (boundedInt32 (pb_MemoryLimit problem)) "" in
          let outcome := rpc (rn_calls env) address request in
          (match outcome with
           | Err code => Err (RunRPC code)
           | Ok None => Err RunNoResponse
           | Ok (Some response) => Ok response
           end, mkRunEnv s (rn_calls env ++ [(address, request)]))
      end
  | _, _ => (Err RunRequired, env)
  end.

(** A slice of bytes, which may cut a rune. *)
Definition truncate (value : string) (limit : Z) : string :=
  if len value <=? limit then value else stake (Z.to_nat limit) value.

Fixpoint firstDiagnostic (values : list string) : string :=
  match values with
  | [] => ""
  | value :: values =>
      let value := trim_space value in
      if negb (bool_decide (value = "")) then truncate value 4096 else firstDiagnostic values
  end.

Definition diagnosed_compile_error (status : Status) (response : SandboxResponse) : string :=
  let compileError := TruncateUTF16 (trim_space (sp_CompileError response)) 32768 in
  if bool_decide (status = StatusCompileError) && bool_decide (compileError = "") then
    let diagnostic := TruncateUTF16 (firstDiagnostic [sp_Error response; sp_Stderr response]) 32768 in
    if bool_decide (diagnostic = "") then "compiler failed without diagnostics" else diagnostic
  else compileError.

Definition single_result (response : SandboxResponse) : Result :=
  let r := sp_Response response in
  let status := mapCallbackStatus (er_Status r) in
  mkResult "" 0 0
    (if bool_decide (status = StatusAccepted) && negb (er_ExitCode r =? 0) then StatusSystemError else status)
    (er_ExitCode r) (boundedMetric (er_TimeUsed r) 86400000) (boundedMetric (er_MemoryUsed r) max_int32) None None
    (TruncateUTF16 (er_Stdout r) 65536) (TruncateUTF16 (sp_Stderr response) 65536) (diagnosed_compile_error status response).

Definition single_Execute (submission : option Task) (problem : option Problem) (env : run_env S) :
    result run_failure Result * run_env S :=
  match executeResponse submission problem env with
  | (Err e, env) => (Err e, env)
  | (Ok response, env) => (Ok (single_result response), env)
  end.

(** [Run] writes the outcome into the submission. *)
Definition MapSandboxStatus (status : string) : SubmissionStatus :=
  if bool_decide (status = "Accepted") then SubmissionAccepted
  else if bool_decide (status = "Compile Error") then SubmissionCompileError
  else if bool_decide (status = "Wrong Answer") then SubmissionWrongAnswer
  else if bool_decide (status = "Time Limit Exceeded") then SubmissionTimeLimitExceeded
  else if bool_decide (status = "Memory Limit Exceeded") then SubmissionMemoryLimitExceeded
  else if bool_decide (status = "Runtime Error") then SubmissionRuntimeError
  else if bool_decide (status = "Output Limit Exceeded") then SubmissionOutputLimitExceeded
  else SubmissionSystemError.

Definition boundedInt (value : Z) : Z := if value <? 0 then 0 else if max_int64 <? value then max_int64 else value.

(** The JSON of the anonymous struct; [omitempty] drops empty strings. *)
Definition json_optional (name value : string) : string :=
  if bool_decide (value = "") then "" else "," +:+ json_key name +:+ json_string value.

Definition judge_info (response : SandboxResponse) : string :=
  "{" +:+ json_key "status" +:+ json_string (er_Status (sp_Response response)) +:+ "," +:+
  json_key "exitCode" +:+ pretty (er_ExitCode (sp_Response response)) +:+
  json_optional "diagnostic" (firstDiagnostic [sp_Error response; sp_Stderr response]) +:+
  json_optional "compileError" (truncate (trim_space (sp_CompileError response)) 4096) +:+ "}".

Definition applySandboxResult (submission : Task) (response : SandboxResponse) : Task :=
  let status := MapSandboxStatus (er_Status (sp_Response response)) in
  mkTask (tk_ID submission) (tk_ProblemID submission) (tk_ProblemVersionID submission) (tk_UserID submission)
    (tk_Language submission) (tk_Code submission) status
    (Some (boundedInt (er_TimeUsed (sp_Response response)))) (Some (boundedInt (er_MemoryUsed (sp_Response response))))
    (Some (judge_info response)) (tk_Score submission)
    (if bool_decide (status = SubmissionSystemError) && negb (bool_decide (sp_Error response = ""))
     then Some (truncate (sp_Error response) 4096) else None).

Definition single_Run (submission : Task) (problem : option Problem) (env : run_env S) : result run_failure Task * run_env S :=
  match executeResponse (Some submission) problem env with
  | (Err e, env) => (Err e, env)
  | (Ok response, env) => (Ok (applySandboxResult submission response), env)
  end.
End Run.

(** * What the older pipelines guarantee

    The verdict of the sequential pipeline is that of the first case that does not
    pass, a pass is what a sandbox answered to that very case, and every result of
    either pipeline meets the contract of the callback. *)
(** ** Diagnostics *)
Lemma truncate_visible s : visible s → visible (truncate s 4096).
Proof. intros Hs. unfold truncate. destruct (_ <=? _); [done|]. apply stake_visible; [lia|done]. Qed.

Lemma firstDiagnostic_visible values : firstDiagnostic values ≠ "" → visible (firstDiagnostic values).
Proof.
  induction values as [|value values IH]; cbn; [done|]. case_bool_decide as Hv; cbn [negb]; [done|].
  intros _. by apply truncate_visible, trim_space_visible.
Qed.

Lemma diagnosed_compile_error_ok status response :
  UTF16Len (diagnosed_compile_error status response) ≤ 32768 ∧
  (status = StatusCompileError → blank (diagnosed_compile_error status response) = false).
Proof.
  unfold diagnosed_compile_error. set (text := trim_space (sp_CompileError response)).
  set (diagnostic := firstDiagnostic _). pose proof (TruncateUTF16_bound text 32768). pose proof (TruncateUTF16_bound diagnostic 32768).
  assert (Hv : ∀ t, (t ≠ "" → visible t) → TruncateUTF16 t 32768 ≠ "" → blank (TruncateUTF16 t 32768) = false).
  { intros t Ht Hne. apply visible_blank, TruncateUTF16_visible; [lia|]. apply Ht. intros ->. by apply Hne. }
  assert (Hd : blank (TruncateUTF16 diagnostic 32768) = false ∨ TruncateUTF16 diagnostic 32768 = "").
  { destruct (decide (TruncateUTF16 diagnostic 32768 = "")); [by right|left]. apply Hv; [apply firstDiagnostic_visible|done]. }
  case_bool_decide as E1; case_bool_decide as E2; cbn [andb].
  - case_bool_decide as E3; split; [by vm_compute|by intros _; vm_compute|lia|by intros _; destruct Hd].
  - split; [lia|]. intros _. apply Hv; [apply trim_space_visible|done].
  - split; [lia|done].
  - split; [lia|done].
Qed.

Lemma mapCallbackStatus_valid s : known_status (mapCallbackStatus s) = true.
Proof. unfold mapCallbackStatus. by repeat case_bool_decide. Qed.

Section Pipelines.
Context {S : Type} `{SandboxSelector S}.
Context (rpc : list (string * ExecuteRequest) → string → ExecuteRequest → result grpc_code (option SandboxResponse)).

(** Every result of [ExecutionPipeline.Execute] for an event with an identity
    meets the contract of the callback, whatever the sandbox answers: texts are cut
    to their bounds, metrics are clamped, an accepted run has exit code 0, and a
    compile error carries a text that is not white space, although the diagnostic it
    may be taken from is cut at a byte. *)
Lemma single_result_contract submission problem event env r env' :
  identified event → single_Execute rpc submission problem env = (Ok r, env') →
  result_contract (withResultIdentity r event).
Proof.
  intros (H1 & H2 & H3 & H4). unfold single_Execute. destruct (executeResponse _ _ _ _) as [[response|] env1]; [|done].
  intros [= <- <-]. set (status := mapCallbackStatus (er_Status (sp_Response response))).
  destruct (diagnosed_compile_error_ok status response) as [Hlen Hce].
  pose proof (boundedMetric_range (er_TimeUsed (sp_Response response)) 86400000 ltac:(lia)).
  pose proof (boundedMetric_range (er_MemoryUsed (sp_Response response)) max_int32 ltac:(done)). unfold max_int32 in *.
  pose proof (TruncateUTF16_bound (er_Stdout (sp_Response response)) 65536).
  pose proof (TruncateUTF16_bound (sp_Stderr response) 65536).
  split; unfold single_result, max_int32;
    cbn -[UTF16Len TruncateUTF16 blank boundedMetric diagnosed_compile_error mapCallbackStatus known_status]; fold status.
  - done.
  - lia.
  - done.
  - split_and!; [lia|lia|done].
  - pose proof (mapCallbackStatus_valid (er_Status (sp_Response response))) as Hk. fold status in Hk.
    destruct (bool_decide_reflect (status = StatusAccepted)) as [Ea|Ea]; cbn [andb].
    + destruct (Z.eqb_spec (er_ExitCode (sp_Response response)) 0) as [E0|E0]; cbn [negb].
      * split_and!; [done|done|]. intros Ec. by apply Hce.
      * done.
    + split_and!; [done|done|]. done.
Qed.

(** ** The sequential pipeline *)
Section Sequential.
Context (maxInfraAttempts : Z) (submission : Task) (config : ExecutionConfig) (artifact : CaseArtifact).
Local Notation checker := (m_Checker (art_Manifest artifact)).
Local Notation loop := (sequential_loop rpc maxInfraAttempts submission config artifact).

(** A call of the log that ran the case and the status its answer is given. *)
Definition case_run (calls : list (string * ExecuteRequest)) (c : Case) (status : Status) : Prop :=
  ∃ input expected prior address response,
    art_ReadCase artifact c = Some (input, expected) ∧
    (prior ++ [(address, case_request submission config checker input expected)]) `prefix_of` calls ∧
    rpc prior address (case_request submission config checker input expected) = Ok (Some response) ∧
    isKnownContestantStatus (er_Status (sp_Response response)) = true ∧
    status = sequential_status checker (sp_Response response) expected.

Lemma case_loop_ok fuel last invalid request env out env' :
  case_loop rpc fuel last invalid request env = (out, env') →
  rn_calls env `prefix_of` rn_calls env' ∧
  ∀ response, out = Ok (Some response) → isKnownContestantStatus (er_Status (sp_Response response)) = true ∧
    ∃ prior address, (prior ++ [(address, request)]) `prefix_of` rn_calls env' ∧ rpc prior address request = Ok (Some response).
Proof.
  revert last invalid env. induction fuel as [|fuel IH]; intros last invalid env; cbn.
  - destruct last; [destruct invalid|]; by intros [= <- <-].
  - destruct (sel_select (rn_selector env)) as [[address|] s]; [|by intros [= <- <-]].
    destruct (rpc (rn_calls env) address request) as [[response|]|code] eqn:Hr.
    + destruct (isKnownContestantStatus _) eqn:Hk.
      * intros [= <- <-]. cbn. split; [by eexists|]. intros response' [= <-]. split; [done|]. by exists (rn_calls env), address.
      * intros [Hp Hrest]%IH. cbn in Hp. split; [by eapply prefix_app_l|done].
    + intros [Hp Hrest]%IH. cbn in Hp. split; [by eapply prefix_app_l|done].
    + destruct (retryable code); [|intros [= <- <-]; cbn; split; [by eexists|done]].
      intros [Hp Hrest]%IH. cbn in Hp. split; [by eapply prefix_app_l|done].
Qed.

(** What the loop keeps about the result so far. *)
Record partial_ok (r : Result) : Prop := {
  po_scores : res_Score r = None ∧ res_TotalScore r = None ∧ res_Stdout r = "";
  po_metrics : 0 ≤ res_TimeUsedMillis r ≤ 172800000 ∧ 0 ≤ res_MemoryUsedKB r ≤ 2147483647;
  po_status : known_status (res_Status r) = true;
  po_text : UTF16Len (res_Stderr r) ≤ 65536 ∧ UTF16Len (res_CompileError r) ≤ 32768 ∧
            (res_Status r = StatusCompileError → blank (res_CompileError r) = false)
}.

Lemma partial_contract event r :
  identified event → partial_ok r → (res_Status r = StatusAccepted → res_ExitCode r = 0) → result_contract (withResultIdentity r event).
Proof.
  intros (H1 & H2 & H3 & H4) [(E1 & E2 & E3) Hm Hk (Ht & Hc & Hb)] He.
  split; unfold withResultIdentity; cbn [res_ResultID res_SubmissionID res_AttemptNo res_Status res_ExitCode res_TimeUsedMillis
    res_MemoryUsedKB res_Score res_TotalScore res_Stdout res_Stderr res_CompileError]; rewrite ?E1, ?E2, ?E3; try done.
Qed.

Lemma sequential_status_known response expected : known_status (sequential_status checker response expected) = true.
Proof. unfold sequential_status. destruct (_ && _); [done|]. apply mapCallbackStatus_valid. Qed.

Lemma sequential_update_ok r summaries response status :
  partial_ok r → known_status status = true → partial_ok (sequential_update r summaries response status).
Proof.
  intros [_ [Ht Hm] _ (_ & Hc & _)] Hk. pose proof (TruncateUTF16_bound (join_with ";" summaries) 65536).
  pose proof (boundedMetric_range (er_TimeUsed response) 86400000 ltac:(lia)).
  pose proof (boundedMetric_range (er_MemoryUsed response) 2147483647 ltac:(lia)).
  split; unfold sequential_update; cbn -[UTF16Len TruncateUTF16 blank boundedMetric known_status]; try done; [lia|].
  split_and!; [lia|by case_bool_decide; [vm_compute|]|]. intros ->. by rewrite bool_decide_eq_true_2.
Qed.

Lemma sequential_loop_ok cases r summaries env r' env' :
  partial_ok r → res_Status r = StatusAccepted → loop cases r summaries env = (Ok r', env') →
  partial_ok r' ∧ (res_Status r' = StatusAccepted → res_ExitCode r' = 0) ∧ rn_calls env `prefix_of` rn_calls env' ∧
  (res_Status r' = StatusSystemError ∨ ∃ passed rest, cases = passed ++ rest ∧
     Forall (λ c, case_run (rn_calls env') c StatusAccepted) passed ∧
     match rest with
     | [] => res_Status r' = StatusAccepted
     | c :: _ => res_Status r' ≠ StatusAccepted ∧ case_run (rn_calls env') c (res_Status r')
     end).
Proof.
  revert r summaries env. induction cases as [|c cases IH]; intros r summaries env Hr Ha; cbn -[case_summary].
  - intros [= <- <-]. destruct Hr as [H1 H2 H3 H4]. split_and!; [by split|done|done|by right; exists [], []].
  - destruct (art_ReadCase artifact c) as [[input expected]|] eqn:Hread.
    2:{ intros [= <- <-]. pose proof (TruncateUTF16_bound "bundle case could not be read" 65536).
        split_and!; [|done|done|by left]. by split; cbn -[UTF16Len TruncateUTF16]; try lia. }
    unfold executeCase. destruct (case_loop _ _ _ _ _ _) as [[[response|]|e] env1] eqn:Hc; [| |done].
    + apply case_loop_ok in Hc as [Hp Hc]. destruct (Hc response eq_refl) as (Hk & prior & address & Hpre & Hrpc). clear Hc.
      set (status := sequential_status checker (sp_Response response) expected).
      set (r1 := sequential_update r _ _ status).
      assert (Hr1 : partial_ok r1) by (apply sequential_update_ok; [done|apply sequential_status_known]).
      assert (Hrun : ∀ calls, rn_calls env1 `prefix_of` calls → case_run calls c status).
      { intros calls Hcalls. exists input, expected, prior, address, response. split_and!; try done. by etrans. }
      case_bool_decide as Hs.
      * intros Hl. apply IH in Hl as (? & ? & Hp1 & Hv); [|done|done]. split_and!; [done|done|by etrans|].
        destruct Hv as [?|(passed & rest & -> & Hpass & Hrest)]; [by left|right]. exists (c :: passed), rest.
        split_and!; try done. constructor; [|done]. rewrite <-Hs. by apply Hrun.
      * intros [= <- <-]. split_and!; [done|done|done|]. right. exists [], (c :: cases). split_and!; [done|done|done|].
        by apply Hrun.
    + apply case_loop_ok in Hc as [Hp _]. intros [= <- <-]. split_and!; [|done|done|by left].
      destruct Hr as [H1 H2 H3 (_ & H4 & H5)].
      pose proof (TruncateUTF16_bound (join_with ";" (summaries ++ ["case=" +:+ case_ID c +:+ " status=SYSTEM_ERROR"])) 65536).
      split; unfold exhausted_update; cbn -[UTF16Len TruncateUTF16 join_with]; try done.
Qed.
End Sequential.

(** The sequential pipeline gives the verdict of the first case that does not
    pass. An accepted result has a sandbox call for every case of the manifest, in
    which a sandbox answered that very case with a contestant status and the output
    matched the expected one; any other verdict of a contestant is that of a call
    for the first case that did not pass; and every result meets the contract of
    the callback. *)
Lemma sequential_verdict maxInfraAttempts submission config artifact event env r env' :
  identified event →
  sequential_ExecuteArtifact rpc maxInfraAttempts (Some submission) config (Some artifact) env = (Ok r, env') →
  result_contract (withResultIdentity r event) ∧
  (res_Status r = StatusSystemError ∨ ∃ passed rest, m_Cases (art_Manifest artifact) = passed ++ rest ∧
     Forall (λ c, case_run submission config artifact (rn_calls env') c StatusAccepted) passed ∧
     match rest with
     | [] => res_Status r = StatusAccepted
     | c :: _ => res_Status r ≠ StatusAccepted ∧ case_run submission config artifact (rn_calls env') c (res_Status r)
     end).
Proof.
  intros Hid. unfold sequential_ExecuteArtifact. destruct (_ || _); [done|]. destruct (Validate _).
  - intros Hl. apply sequential_loop_ok in Hl as (Hp & He & _ & Hv); [|by split; cbn; vm_compute|done].
    split; [by apply partial_contract|done].
  - intros [= <- <-]. split; [by apply system_error_contract|by left].
Qed.
End Pipelines.
