(* ===== verification/Credentials.v ===== *)
(** * Tenants, API keys and their authentication

    [external/api_key.go], [credential.go] and [provision.go], which write the rows,
    and [httpapi/auth.go], which authenticates a request against them.

    The second part proves what an issued key opens. *)
From stdpp Require Import prelude gmap strings pretty.
From S2P Require Import Prelude.
From S2P Require Import GoText.
From S2P Require Import Encodings.
From S2P Require Import Manifest.
From S2P Require Import BatchPipeline.
From S2P Require Import Store.
From S2P Require Import Webhook.
From S2P Require Import Ciphers.

Open Scope Z_scope.

(** ** Scopes *)
Inductive Scope : Type :=
| ScopeCapabilitiesRead
| ScopeBundleWrite
| ScopeBundleRead
| ScopeJobSubmit
| ScopeJobRead
| ScopeJobCancel
| ScopeOther (raw : string).

#[export] Instance Scope_eq_dec : EqDecision Scope.
Proof. solve_decision. Defined.

Definition scope_string (s : Scope) : string :=
  match s with
  | ScopeCapabilitiesRead => "capabilities:read"
  | ScopeBundleWrite => "bundle:write"
  | ScopeBundleRead => "bundle:read"
  | ScopeJobSubmit => "job:submit"
  | ScopeJobRead => "job:read"
  | ScopeJobCancel => "job:cancel"
  | ScopeOther raw => raw
  end.

Definition validScopes : list Scope :=
  [ScopeCapabilitiesRead; ScopeBundleWrite; ScopeBundleRead; ScopeJobSubmit; ScopeJobRead; ScopeJobCancel].

Definition scope_of (raw : string) : Scope :=
  default (ScopeOther raw) (list_find (λ s, scope_string s = raw) validScopes ≫= λ p, Some p.2).

(** The loop of [decodeScopes] over the decoded names. *)
Fixpoint scopes_valid (seen : list Scope) (scopes : list Scope) : bool :=
  match scopes with
  | [] => true
  | scope :: scopes =>
      if negb (bool_decide (scope ∈ validScopes)) then false
      else if bool_decide (scope ∈ seen) then false
      else scopes_valid (scope :: seen) scopes
  end.

(** ** Rows *)
Record key_row : Type := mkKeyRow {
  ak_Tenant : Z;
  ak_LookupPrefix : string;
  ak_Digest : string;
  ak_ScopesJSON : string;
  ak_ExpiresAt : option Z;
  ak_RevokedAt : option Z
}.

Record provisioned_callback : Type := mkProvisionedCallback {
  pc_ExternalID : string;
  pc_Tenant : Z;
  pc_Destination : CallbackDestination;
  pc_Secret : EncryptedCallbackSecret
}.

Record credential_db : Type := mkCredentialDb {
  cd_Tenants : gmap Z tenant_row;
  cd_Keys : gmap Z key_row;
  cd_Callbacks : gmap Z provisioned_callback
}.

(** The tenant an [INSERT ... SELECT] finds: external ids are unique. *)
Definition select_tenant (tenantID : string) (d : credential_db) : option Z :=
  fst <$> (list_find (λ p : Z * tenant_row, tn_ExternalID p.2 = tenantID ∧ tn_Status p.2 = "ACTIVE") (map_to_list (cd_Tenants d))
           ≫= λ p, Some p.2).

(** ** Random identifiers; [entropy] is what [io.ReadFull] read, if it could. *)
Inductive provision_error : Type :=
| ProvisionName
| ProvisionPolicy
| ProvisionRandom
| ProvisionTenantID
| ProvisionScopes
| ProvisionExpiry
| ProvisionPepper
| ProvisionDestination
| ProvisionUnsafe
| ProvisionEncrypt
| ProvisionDatabase
| ProvisionNoTenant.

Definition generateExternalID (entropy : option string) : result provision_error string :=
  bytes ← from_option entropy ProvisionRandom;
  let value := base32_encode bytes in
  _ ← guard_err (externalIDPattern value) ProvisionRandom;
  Ok value.

Record APIKeyMaterial : Type := mkAPIKeyMaterial {
  km_Plaintext : string;
  km_LookupPrefix : string;
  km_Digest : string
}.

Definition apiKeyPrefixBytes : nat := 9.
Definition apiKeySecretBytes : nat := 32.
Definition apiKeyRandomBytes : nat := apiKeyPrefixBytes + apiKeySecretBytes.

(** The JSON of a policy, as [json.Marshal] writes it. *)
Definition json_number (name : string) (value : Z) : string := json_key name +:+ pretty value.

Definition policy_json (p : TenantPolicy) : string :=
  "{" +:+ json_number "maxQueuedJobs" (MaxQueuedJobs p) +:+ "," +:+ json_number "maxRunningJobs" (MaxRunningJobs p) +:+ "," +:+
  json_number "maxSourceBytes" (MaxSourceBytes p) +:+ "," +:+ json_number "maxRetainedBundles" (MaxRetainedBundles p) +:+ "," +:+
  json_number "dailyExecutionMillis" (DailyExecutionMillis p) +:+ "," +:+
  json_number "maxInfrastructureTries" (MaxInfrastructureTries p) +:+ "," +:+
  json_number "maxTimeLimitMillis" (MaxTimeLimitMillis p) +:+ "," +:+
  json_number "maxMemoryLimitMiB" (MaxMemoryLimitMiB p) +:+ "}".

Fixpoint json_strings (values : list string) : string :=
  match values with
  | [] => ""
  | [value] => json_string value
  | value :: values => json_string value +:+ "," +:+ json_strings values
  end.

(** The JSON of a list of scopes; an empty one, which Go writes as [null] or [[]],
    is refused either way. *)
Definition scopes_json (scopes : list Scope) : string := "[" +:+ json_strings (scope_string <$> scopes) +:+ "]".

Section Credentials.
Context (hmac_sha256 : string → string → string).
(** [json.Unmarshal] into a list of strings. *)
Context (json_string_list : string → option (list string)).
(** The rounding of a [DATETIME(3)] column. *)
Context (datetime3 : Z → Z).

Definition decodeScopes (encoded : string) : option (list Scope) :=
  names ← json_string_list encoded;
  let scopes := scope_of <$> names in
  if bool_decide (scopes = []) then None else if scopes_valid [] scopes then Some scopes else None.

(** ** [GenerateAPIKey] *)
Definition GenerateAPIKey (entropy : option string) (pepper : string) : result provision_error APIKeyMaterial :=
  _ ← guard_err (negb (len pepper <? 32)) ProvisionPepper;
  bytes ← from_option entropy ProvisionRandom;
  let prefix := base32_encode (stake apiKeyPrefixBytes bytes) in
  let secret := base64_encode (sdrop apiKeyPrefixBytes bytes) in
  let plaintext := "croj_" +:+ prefix +:+ "_" +:+ secret in
  Ok (mkAPIKeyMaterial plaintext prefix (hmac_sha256 pepper plaintext)).

(** ** [Provisioner] *)
Definition CreateTenant (name : string) (policy : TenantPolicy) (entropy : option string) (newID : Z) (d : credential_db) :
    result provision_error (string * credential_db) :=
  let name := trim_space name in
  _ ← guard_err (negb ((len name <? 2) || (128 <? len name))) ProvisionName;
  _ ← guard_err (policy_validate policy) ProvisionPolicy;
  tenantID ← generateExternalID entropy;
  _ ← guard_err (bool_decide (cd_Tenants d !! newID = None ∧ Forall (λ p, tn_ExternalID p.2 ≠ tenantID) (map_to_list (cd_Tenants d))))
        ProvisionDatabase;
  Ok (tenantID, mkCredentialDb (<[newID := mkTenantRow tenantID "ACTIVE" (policy_json policy) None]> (cd_Tenants d)) (cd_Keys d) (cd_Callbacks d)).

Definition CreateAPIKey (tenantID : string) (scopes : list Scope) (expiresAt : option Z) (pepper : string) (now : Z)
    (entropy : option string) (newID : Z) (d : credential_db) : result provision_error (APIKeyMaterial * credential_db) :=
  _ ← guard_err (externalIDPattern tenantID) ProvisionTenantID;
  _ ← from_option (decodeScopes (scopes_json scopes)) ProvisionScopes;
  _ ← guard_err (match expiresAt with Some at_ => now <? at_ | None => true end) ProvisionExpiry;
  material ← GenerateAPIKey entropy pepper;
  tenant ← from_option (select_tenant tenantID d) ProvisionNoTenant;
  _ ← guard_err (bool_decide (cd_Keys d !! newID = None ∧
                   Forall (λ p, ak_LookupPrefix p.2 ≠ km_LookupPrefix material) (map_to_list (cd_Keys d)))) ProvisionDatabase;
  let row := mkKeyRow tenant (km_LookupPrefix material) (km_Digest material) (scopes_json scopes) (datetime3 <$> expiresAt) None in
  Ok (material, mkCredentialDb (cd_Tenants d) (<[newID := row]> (cd_Keys d)) (cd_Callbacks d)).

(** [CanonicalCallbackDestination] and [Encrypt] are those of [Ciphers];
    [resolves] says that [resolvePublicCallback] of [CallbackTransport] succeeds. *)
Context (canonical : string → option CallbackDestination) (resolves : string → bool)
        (encrypt : string → string → string → string → option EncryptedCallbackSecret).

Definition CreateCallback (tenantID rawDestination : string) (idEntropy secretEntropy : option string) (newID : Z) (d : credential_db) :
    result provision_error (string * string * credential_db) :=
  _ ← guard_err (externalIDPattern tenantID) ProvisionTenantID;
  destination ← from_option (canonical rawDestination) ProvisionDestination;
  _ ← guard_err (resolves (cd_Host destination)) ProvisionUnsafe;
  callbackID ← generateExternalID idEntropy;
  bytes ← from_option secretEntropy ProvisionRandom;
  let secret := "croj_whsec_" +:+ base64_encode bytes in
  encrypted ← from_option (encrypt tenantID callbackID (cd_URL destination) secret) ProvisionEncrypt;
  tenant ← from_option (select_tenant tenantID d) ProvisionNoTenant;
  _ ← guard_err (bool_decide (cd_Callbacks d !! newID = None ∧
                   Forall (λ p, pc_ExternalID p.2 ≠ callbackID) (map_to_list (cd_Callbacks d)))) ProvisionDatabase;
  Ok (callbackID, secret,
      mkCredentialDb (cd_Tenants d) (cd_Keys d)
        (<[newID := mkProvisionedCallback callbackID tenant destination encrypted]> (cd_Callbacks d))).

(** ** [FindCredentialByPrefix] *)
Record Credential : Type := mkCredential {
  cred_TenantID : string;
  cred_Digest : string;
  cred_Scopes : list Scope;
  cred_ExpiresAt : option Z;
  cred_RevokedAt : option Z
}.

(** The rows of the join, of which there is at most one. *)
Definition joined_keys (prefix : string) (d : credential_db) : list (tenant_row * key_row) :=
  p ← map_to_list (cd_Keys d);
  match cd_Tenants d !! ak_Tenant p.2 with
  | Some tenant => if decide (ak_LookupPrefix p.2 = prefix ∧ tn_Status tenant = "ACTIVE") then [(tenant, p.2)] else []
  | None => []
  end.

(** [None] is an error of the store. *)
Definition FindCredentialByPrefix (prefix : string) (d : credential_db) : option (option Credential) :=
  match joined_keys prefix d with
  | [] => Some None
  | (tenant, key) :: _ =>
      if bool_decide (tn_ExternalID tenant = "") || negb (len (ak_Digest key) =? 32) then None
      else
        scopes ← decodeScopes (ak_ScopesJSON key);
        Some (Some (mkCredential (tn_ExternalID tenant) (ak_Digest key) scopes (ak_ExpiresAt key) (ak_RevokedAt key)))
  end.

(** ** [Authenticator] *)
Inductive auth_error : Type :=
| ErrUnauthenticated
| ErrAuthenticationUnavailable.

Record Principal : Type := mkPrincipal {
  pr_TenantID : string;
  pr_Scopes : list Scope
}.

Definition principal_Has (p : Principal) (scope : Scope) : bool := bool_decide (scope ∈ pr_Scopes p).

Definition alphanumeric (a : Ascii.ascii) : bool := upper a || lower a || digit a.

(** [^[A-Za-z0-9]{8,24}$] *)
Definition keyPrefixPattern (s : string) : bool := in_range 8 24 (len s) && string_forallb alphanumeric s.

(** The text before the first separator, and after it. *)
Fixpoint cut_at (sep : Z) (s : string) : option (string * string) :=
  match s with
  | "" => None
  | String a s => if byte_of a =? sep then Some ("", s) else p ← cut_at sep s; Some (String a p.1, p.2)
  end.

Fixpoint trim_left_spaces (s : string) : string :=
  match s with
  | String a t => if byte_of a =? 32 then trim_left_spaces t else s
  | "" => ""
  end.

Definition key_blank (a : Ascii.ascii) : bool := bool_decide (byte_of a ∈ [32; 9; 13; 10]).

(** [EqualFold] with "Bearer": none of its letters folds outside ASCII. *)
Definition parseBearerKey (authorization : string) : option (string * string) :=
  p ← cut_at 32 authorization;
  if negb (bool_decide (to_lower p.1 = "bearer")) then None
  else
    let key := trim_left_spaces p.2 in
    if bool_decide (key = "") || negb (string_forallb (λ a, negb (key_blank a)) key) then None
    else
      first ← cut_at 95 key;
      second ← cut_at 95 first.2;
      if negb (bool_decide (first.1 = "croj")) || negb (keyPrefixPattern second.1) then None
      else
        secret ← base64_decode second.2;
        if len secret =? 32 then Some (key, second.1) else None.

Definition expired (now : Z) (expiresAt : option Z) : bool :=
  match expiresAt with Some at_ => negb (now <? at_) | None => false end.

Definition Authenticate (pepper authorization : string) (now : Z) (d : credential_db) : result auth_error Principal :=
  match parseBearerKey authorization with
  | None => Err ErrUnauthenticated
  | Some (key, prefix) =>
      match FindCredentialByPrefix prefix d with
      | None => Err ErrAuthenticationUnavailable
      | Some None => Err ErrUnauthenticated
      | Some (Some credential) =>
          if negb (len (cred_Digest credential) =? 32) ||
             negb (bool_decide (hmac_sha256 pepper key = cred_Digest credential)) then Err ErrUnauthenticated
          else if bool_decide (cred_TenantID credential = "") || is_some (cred_RevokedAt credential) ||
                  expired now (cred_ExpiresAt credential) then Err ErrUnauthenticated
          else Ok (mkPrincipal (cred_TenantID credential) (cred_Scopes credential))
      end
  end.
End Credentials.

(** * What an API key opens, and what nothing else does *)
(** ** Text *)
Lemma cut_at_app sep x r :
  0 ≤ sep ≤ 255 → string_forallb (λ a, negb (byte_of a =? sep)) x = true →
  cut_at sep (x +:+ String (ascii_of_byte sep) r) = Some (x, r).
Proof.
  intros Hr Hx. induction x as [|a x IH]; cbn in *.
  - by rewrite byte_of_ascii_of_byte, Z.eqb_refl by lia.
  - apply andb_true_iff in Hx as [Ha%negb_true_iff Hx]. rewrite Ha, IH by done. done.
Qed.

Lemma base32_digits_chars n v : string_forallb base32_char (base32_digits n v) = true.
Proof.
  induction n as [|n IH]; [done|]. cbn [base32_digits string_forallb]. rewrite IH, andb_true_r.
  pose proof (Z.mod_pos_bound (v / 32 ^ Z.of_nat n) 32 ltac:(lia)). unfold base32_char, base32_digit, lower, in_range.
  destruct (Z.ltb_spec ((v / 32 ^ Z.of_nat n) `mod` 32) 26); rewrite byte_of_ascii_of_byte by lia; lia.
Qed.

Lemma base32_encode_chars s : string_forallb base32_char (base32_encode s) = true.
Proof. apply base32_digits_chars. Qed.

Lemma base32_char_alphanumeric a : base32_char a = true → alphanumeric a = true.
Proof. unfold base32_char, alphanumeric, lower, upper, digit, in_range. lia. Qed.

Lemma base32_char_plain a : base32_char a = true → negb (byte_of a =? 95) = true ∧ negb (key_blank a) = true.
Proof.
  unfold base32_char, lower, in_range, key_blank. intros H. split; [lia|]. rewrite bool_decide_eq_false_2; [done|].
  rewrite !not_elem_of_cons. pose proof (not_elem_of_nil (byte_of a)). split_and!; try done; lia.
Qed.

Lemma base64_char_not_blank a : base64_char a = true → negb (key_blank a) = true.
Proof.
  intros H. pose proof H as Hp. unfold key_blank. rewrite bool_decide_eq_false_2; [done|]. intros Hin.
  assert (E : ascii_of_byte (byte_of a) = a) by apply ascii_of_byte_of.
  repeat (apply elem_of_cons in Hin as [Hin|Hin]; [rewrite Hin in E; subst a; done|]). by apply elem_of_nil in Hin.
Qed.

Lemma string_forallb_append p x y : string_forallb p (x +:+ y) = string_forallb p x && string_forallb p y.
Proof. induction x as [|a x IH]; cbn; [done|]. by rewrite IH, andb_assoc. Qed.

Lemma base32_encode_length s : len (base32_encode s) = Z.max 0 ((8 * len s + 4) / 5).
Proof. unfold base32_encode, len. rewrite base32_digits_length. lia. Qed.

(** ** Keys *)

(** The text of a generated key is read back as itself and its prefix. *)
Lemma parse_generated bytes :
  String.length bytes = apiKeyRandomBytes →
  let prefix := base32_encode (stake apiKeyPrefixBytes bytes) in
  let key := "croj_" +:+ prefix +:+ "_" +:+ base64_encode (sdrop apiKeyPrefixBytes bytes) in
  parseBearerKey ("Bearer " +:+ key) = Some (key, prefix).
Proof.
  intros Hl prefix key. set (secret := base64_encode (sdrop apiKeyPrefixBytes bytes)) in *.
  assert (Hpc : string_forallb base32_char prefix = true) by apply base32_encode_chars.
  assert (Hcut : cut_at 32 ("Bearer " +:+ key) = Some ("Bearer", key)) by reflexivity.
  assert (Htrim : trim_left_spaces key = key) by reflexivity.
  assert (Hfirst : cut_at 95 key = Some ("croj", prefix +:+ "_" +:+ secret)) by reflexivity.
  assert (Hsecond : cut_at 95 (prefix +:+ "_" +:+ secret) = Some (prefix, secret)).
  { apply (cut_at_app 95 prefix secret); [lia|]. eapply string_forallb_impl; [|exact Hpc]. intros a Ha. by apply base32_char_plain. }
  assert (Hblank : string_forallb (λ a, negb (key_blank a)) key = true).
  { unfold key. rewrite !string_forallb_append. repeat (apply andb_true_iff; split); try done.
    - eapply string_forallb_impl; [|exact Hpc]. intros a Ha. by apply base32_char_plain.
    - eapply string_forallb_impl; [apply base64_char_not_blank|]. apply base64_encode_chars. }
  assert (Hpat : keyPrefixPattern prefix = true).
  { unfold keyPrefixPattern. apply andb_true_iff. split.
    - unfold prefix. rewrite base32_encode_length. unfold len. rewrite stake_length; [done|]. rewrite Hl. unfold apiKeyRandomBytes. lia.
    - eapply string_forallb_impl; [apply base32_char_alphanumeric|done]. }
  assert (Hsecret : base64_decode secret = Some (sdrop apiKeyPrefixBytes bytes)) by apply base64_roundtrip.
  unfold parseBearerKey. rewrite Hcut. cbn [mbind option_bind fst snd]. rewrite Htrim, Hblank.
  rewrite Hfirst. cbn [mbind option_bind fst snd]. rewrite Hsecond. cbn [mbind option_bind fst snd]. rewrite Hpat, Hsecret.
  cbn -[len sdrop]. unfold len. rewrite sdrop_length, Hl. done.
Qed.

Lemma scope_of_string s : s ∈ validScopes → scope_of (scope_string s) = s.
Proof. unfold validScopes. intros H. repeat (apply elem_of_cons in H as [->|H]; [done|]). by apply elem_of_nil in H. Qed.

Lemma scopes_valid_in seen scopes : scopes_valid seen scopes = true → Forall (λ s, s ∈ validScopes) scopes.
Proof.
  revert seen. induction scopes as [|s scopes IH]; intros seen; cbn [scopes_valid]; [constructor|].
  case_bool_decide; [|done]. cbn [negb]. case_bool_decide; [done|]. intros Hs. constructor; [done|by eapply IH].
Qed.

Section Keys.
Context (hmac_sha256 : string → string → string) (json_string_list : string → option (list string)) (datetime3 : Z → Z).
Local Notation Authenticate := (Authenticate hmac_sha256 json_string_list).
Local Notation CreateAPIKey := (CreateAPIKey hmac_sha256 json_string_list datetime3).
Local Notation decodeScopes := (decodeScopes json_string_list).

Lemma joined_keys_elem prefix d tenant key :
  (tenant, key) ∈ joined_keys prefix d ↔
  ∃ id, cd_Keys d !! id = Some key ∧ cd_Tenants d !! ak_Tenant key = Some tenant ∧ ak_LookupPrefix key = prefix ∧ tn_Status tenant = "ACTIVE".
Proof.
  unfold joined_keys. rewrite list_elem_of_bind. split.
  - intros ([id k] & Hin & Hk). apply elem_of_map_to_list in Hk. cbn in Hin. destruct (cd_Tenants d !! ak_Tenant k) as [t|] eqn:Ht; [|by apply elem_of_nil in Hin].
    case_decide as Hd; [|by apply elem_of_nil in Hin]. apply list_elem_of_singleton in Hin as [= -> ->]. exists id. naive_solver.
  - intros (id & Hk & Ht & Hp & Hs). exists (id, key). split; [|by apply elem_of_map_to_list]. cbn. rewrite Ht, decide_True by done.
    by apply list_elem_of_singleton.
Qed.

(** What the authentication of a request establishes. *)
Lemma Authenticate_ok pepper authorization now d p :
  Authenticate pepper authorization now d = Ok p →
  ∃ key prefix id row tenant, parseBearerKey authorization = Some (key, prefix) ∧
    cd_Keys d !! id = Some row ∧ ak_LookupPrefix row = prefix ∧ ak_Digest row = hmac_sha256 pepper key ∧
    ak_RevokedAt row = None ∧ expired now (ak_ExpiresAt row) = false ∧
    cd_Tenants d !! ak_Tenant row = Some tenant ∧ tn_Status tenant = "ACTIVE" ∧ tn_ExternalID tenant ≠ "" ∧
    pr_TenantID p = tn_ExternalID tenant ∧ decodeScopes (ak_ScopesJSON row) = Some (pr_Scopes p).
Proof.
  unfold Credentials.Authenticate. destruct (parseBearerKey authorization) as [[key prefix]|]; [|done].
  unfold FindCredentialByPrefix. destruct (joined_keys prefix d) as [|[tenant row] rest] eqn:Hj; [done|].
  assert (Hin : (tenant, row) ∈ joined_keys prefix d) by (rewrite Hj; left).
  apply joined_keys_elem in Hin as (id & Hk & Ht & Hp & Hs).
  destruct (_ || _) eqn:H1; [done|]. destruct (Credentials.decodeScopes _ _) as [scopes|] eqn:Hsc; [|done]. cbn [mbind option_bind].
  cbn [cred_Digest cred_TenantID cred_RevokedAt cred_ExpiresAt cred_Scopes]. destruct (negb (_ =? 32) || _) eqn:H2; [done|].
  destruct (_ || _ || _) eqn:H3; [done|]. intros [= <-].
  destruct (ak_RevokedAt row) eqn:Hrev; cbn in H3; [by rewrite orb_true_r in H3|]. bool_to_prop.
  exists key, prefix, id, row, tenant. split_and!; try done.
Qed.

Lemma GenerateAPIKey_ok bytes pepper material :
  GenerateAPIKey hmac_sha256 (Some bytes) pepper = Ok material →
  km_LookupPrefix material = base32_encode (stake apiKeyPrefixBytes bytes) ∧
  km_Plaintext material = "croj_" +:+ km_LookupPrefix material +:+ "_" +:+ base64_encode (sdrop apiKeyPrefixBytes bytes) ∧
  km_Digest material = hmac_sha256 pepper (km_Plaintext material).
Proof. unfold GenerateAPIKey. destruct (negb _); [|done]. by intros [= <-]. Qed.

Lemma select_tenant_ok tenantID d i :
  select_tenant tenantID d = Some i → ∃ tenant, cd_Tenants d !! i = Some tenant ∧ tn_ExternalID tenant = tenantID ∧ tn_Status tenant = "ACTIVE".
Proof.
  unfold select_tenant. intros ([i' t] & ([j q] & Hf & [= ->])%bind_Some & ->)%fmap_Some. apply list_find_Some in Hf as (Hl & [? ?] & _).
  apply list_elem_of_lookup_2, elem_of_map_to_list in Hl. cbn in *. eauto.
Qed.

Lemma scopes_round scopes : Forall (.∈ validScopes) scopes → scope_of <$> (scope_string <$> scopes) = scopes.
Proof.
  intros Hv. induction Hv as [|s scopes Hs _ IH]; [done|]. cbn [fmap list_fmap]. f_equal; [|exact IH].
  unfold validScopes in Hs. rewrite !elem_of_cons, elem_of_nil in Hs. by destruct_or?; subst.
Qed.

Lemma CreateAPIKey_ok tenantID scopes expiresAt pepper now bytes newID d material d' :
  (∀ scopes, Forall (.∈ validScopes) scopes → json_string_list (scopes_json scopes) = Some (scope_string <$> scopes)) →
  Forall (.∈ validScopes) scopes →
  CreateAPIKey tenantID scopes expiresAt pepper now (Some bytes) newID d = Ok (material, d') →
  externalIDPattern tenantID = true ∧ decodeScopes (scopes_json scopes) = Some scopes ∧
  GenerateAPIKey hmac_sha256 (Some bytes) pepper = Ok material ∧
  (∀ id row, cd_Keys d !! id = Some row → ak_LookupPrefix row ≠ km_LookupPrefix material) ∧
  ∃ i tenant, cd_Tenants d !! i = Some tenant ∧ tn_ExternalID tenant = tenantID ∧ tn_Status tenant = "ACTIVE" ∧
    d' = mkCredentialDb (cd_Tenants d)
      (<[newID := mkKeyRow i (km_LookupPrefix material) (km_Digest material) (scopes_json scopes) (datetime3 <$> expiresAt) None]> (cd_Keys d))
      (cd_Callbacks d).
Proof.
  intros Hjson Hvalid. unfold Credentials.CreateAPIKey. intros ([] & Ht%guard_err_ok & H)%bind_ok.
  apply bind_ok in H as (decoded & Hd%from_option_ok & H). apply bind_ok in H as ([] & _ & H).
  apply bind_ok in H as (m & Hm & H). apply bind_ok in H as (i & (tenant & Hi & He & Hs)%from_option_ok%select_tenant_ok & H).
  apply bind_ok in H as ([] & Hfree%guard_err_ok%bool_decide_eq_true & [= <- <-]).
  split_and!; try done.
  - rewrite Hd. unfold Credentials.decodeScopes in Hd. rewrite Hjson in Hd by done. cbn [mbind option_bind] in Hd.
    rewrite scopes_round in Hd by done. case_bool_decide; [done|]. by destruct (scopes_valid _ _).
  - intros id row Hrow. destruct Hfree as [_ Hf]. rewrite Forall_forall in Hf. apply (Hf (id, row)). by apply elem_of_map_to_list.
  - by exists i, tenant.
Qed.

(** C21: An API key opens its tenant and nothing else does so under its prefix. For a
    key created with scopes of the API, a request that bears the text of the key is
    authenticated, as long as the key has not expired, as the tenant and with the
    scopes it was created for; and a request with the key's prefix is authenticated
    only if its key has the same HMAC, before the expiry, and as that same principal. *)
Theorem issued_key_opens_its_tenant tenantID scopes expiresAt pepper now bytes newID d material d' :
  (∀ scopes, Forall (.∈ validScopes) scopes → json_string_list (scopes_json scopes) = Some (scope_string <$> scopes)) →
  Forall (.∈ validScopes) scopes →
  (∀ key message, len (hmac_sha256 key message) = 32) → String.length bytes = apiKeyRandomBytes →
  CreateAPIKey tenantID scopes expiresAt pepper now (Some bytes) newID d = Ok (material, d') →
  let principal := mkPrincipal tenantID scopes in
  (∀ later, expired later (datetime3 <$> expiresAt) = false →
     Authenticate pepper ("Bearer " +:+ km_Plaintext material) later d' = Ok principal) ∧
  (∀ authorization key later p, parseBearerKey authorization = Some (key, km_LookupPrefix material) →
     Authenticate pepper authorization later d' = Ok p →
     hmac_sha256 pepper key = hmac_sha256 pepper (km_Plaintext material) ∧ expired later (datetime3 <$> expiresAt) = false ∧ p = principal).
Proof.
  intros Hjson Hvalid Hmac Hbytes Hc principal. apply CreateAPIKey_ok in Hc as (Hpat & Hscopes & Hgen & Hfree & i & tenant & Hi & He & Hs & ->); [|done..].
  apply GenerateAPIKey_ok in Hgen as (Hprefix & Hplain & Hdigest).
  set (prefix := km_LookupPrefix material) in *. set (plaintext := km_Plaintext material) in *.
  set (row := mkKeyRow _ _ _ _ _ _). set (d' := mkCredentialDb _ _ _). assert (Hne : tn_ExternalID tenant ≠ "") by (rewrite He; by intros ->).
  assert (Hjoin : ∀ t k, (t, k) ∈ joined_keys prefix d' → t = tenant ∧ k = row).
  { intros t k (id & Hk & Ht & Hp & _)%joined_keys_elem. cbn in *. apply lookup_insert_Some in Hk as [[<- <-]|[_ Hk]].
    - cbn in Ht. by simplify_eq.
    - exfalso. by eapply Hfree. }
  split.
  - intros later Hlater. unfold Credentials.Authenticate. pose proof (parse_generated bytes Hbytes) as Hparse. cbv zeta in Hparse.
    rewrite <-Hprefix in Hparse. fold prefix in Hparse. rewrite <-Hplain in Hparse. rewrite Hparse. unfold FindCredentialByPrefix.
    destruct (joined_keys prefix _) as [|[t k] rest] eqn:Hj.
    + exfalso. apply (not_elem_of_nil (tenant, row)). rewrite <-Hj. apply joined_keys_elem. exists newID. cbn. by rewrite lookup_insert_eq.
    + destruct (Hjoin t k) as [-> ->]; [left|]. cbn [ak_Digest row ak_ScopesJSON ak_ExpiresAt ak_RevokedAt].
      rewrite Hdigest, Hmac, bool_decide_eq_false_2, Hscopes by done. cbn -[expired]. rewrite Hmac, bool_decide_eq_true_2, bool_decide_eq_false_2 by done.
      cbn -[expired]. rewrite Hlater. cbn. unfold principal. by rewrite He.
  - intros authorization key later p Hparse Ha. apply Authenticate_ok in Ha as (key' & prefix' & id & row' & t & Hp & Hk & Hpre & Hdig & _ & Hexp & Ht & Hst & _ & Hid & Hsc).
    rewrite Hparse in Hp. injection Hp as <- <-.
    destruct (Hjoin t row') as [-> ->]; [apply joined_keys_elem; by exists id|]. cbn [row ak_Digest ak_ExpiresAt ak_ScopesJSON] in Hdig, Hexp, Hsc. split_and!; [by rewrite <-Hdigest, Hdig|done|].
    rewrite Hscopes in Hsc. destruct p as [a b]. cbn [pr_TenantID pr_Scopes] in *. injection Hsc as <-. unfold principal. congruence.
Qed.
End Keys.
