(* ===== verification/ApiQuota.v ===== *)
(** * API quotas, [external/quota.go] and [redis_quota.go]

    A token bucket per tenant and kind, kept by a Lua script in Redis. Redis
    computes with binary floating point and stores decimal text: [fl] rounds the
    exact value, which is all that is assumed of it. *)
From Stdlib Require Import QArith Qround Qminmax Lqa.
From stdpp Require Import prelude gmap strings.
From S2P Require Import Prelude.
From S2P Require Import GoText.

Open Scope Z_scope.

(** ** Requests *)
Inductive QuotaKind : Type :=
| QuotaJudgeSubmit
| QuotaBundleUploadBytes
| QuotaKindOther (raw : string).

Definition quota_kind_string (kind : QuotaKind) : string :=
  match kind with
  | QuotaJudgeSubmit => "judge-submit"
  | QuotaBundleUploadBytes => "bundle-upload-bytes"
  | QuotaKindOther raw => raw
  end.

Definition maximumRedisQuotaCapacity : Z := 2147483648.
Definition maximumRedisQuotaRefillPeriod : Z := hour.

Record QuotaLimit : Type := mkQuotaLimit {
  ql_Capacity : Z;
  ql_RefillPeriod : Z
}.

Definition quota_Validate (limit : QuotaLimit) : bool :=
  negb ((ql_Capacity limit <=? 0) || (maximumRedisQuotaCapacity <? ql_Capacity limit) ||
        (ql_RefillPeriod limit <? millisecond) || (maximumRedisQuotaRefillPeriod <? ql_RefillPeriod limit)).

Record QuotaRequest : Type := mkQuotaRequest {
  qr_TenantID : string;
  qr_Kind : QuotaKind;
  qr_Cost : Z;
  qr_Limit : QuotaLimit
}.

Record QuotaDecision : Type := mkQuotaDecision {
  qd_Allowed : bool;
  qd_RetryAfter : Z
}.

Inductive quota_error : Type :=
| ErrQuotaUnavailable
| ErrQuotaInvalid.

Definition validateQuotaRequest (request : QuotaRequest) : bool :=
  negb (blank (qr_TenantID request) || (128 <? len (qr_TenantID request))) &&
  match qr_Kind request with QuotaKindOther _ => false | _ => true end &&
  quota_Validate (qr_Limit request) &&
  negb ((qr_Cost request <=? 0) || (ql_Capacity (qr_Limit request) <? qr_Cost request)).

(** [Duration.Milliseconds]. *)
Definition period_ms (limit : QuotaLimit) : Z := Z.quot (ql_RefillPeriod limit) millisecond.

(** [NewRedisQuota]: [^[a-zA-Z0-9:_-]{1,64}$] of the trimmed prefix. *)
Definition quota_prefix_char (a : Ascii.ascii) : bool :=
  let b := byte_of a in
  in_range 48 58 b || in_range 65 90 b || in_range 97 122 b || (b =? 95) || (b =? 45).

Definition NewRedisQuota (prefix : string) : option string :=
  let prefix := trim_space prefix in
  if in_range 1 64 (len prefix) && string_forallb quota_prefix_char prefix then Some prefix else None.

(** ** The script *)
Record bucket : Type := mkBucket {
  bk_Tokens : Q;
  bk_UpdatedMS : Z;
  bk_ExpiresMS : Z
}.

Section Script.
Context (fl : Q → Q).

Definition refill (capacity period elapsed : Z) : Q := inject_Z (elapsed * capacity) / inject_Z period.

(** The hash as the script reads it: an expired key is gone. *)
Definition live_bucket (now : Z) (state : option bucket) : option bucket :=
  match state with
  | Some b => if bk_ExpiresMS b <=? now then None else Some b
  | None => None
  end.

Definition refilled (capacity period now : Z) (state : option bucket) : Q :=
  let '(tokens, updated) := match live_bucket now state with
                            | Some b => (bk_Tokens b, bk_UpdatedMS b)
                            | None => (inject_Z capacity, now)
                            end in
  let elapsed := Z.min period (Z.max 0 (now - updated)) in
  Qmin (inject_Z capacity) (fl (tokens + refill capacity period elapsed)).

Definition redisTokenBucketScript (capacity period cost now : Z) (state : option bucket) : (Z * Z) * option bucket :=
  let tokens := refilled capacity period now state in
  let allowed := Qle_bool (inject_Z cost) tokens in
  let retry := if allowed then 0 else Qceiling (fl ((inject_Z cost - tokens) * inject_Z period / inject_Z capacity)) in
  let tokens := if allowed then (tokens - inject_Z cost)%Q else tokens in
  ((if allowed then 1 else 0, retry), Some (mkBucket (fl tokens) now (now + Z.max (period * 2) (retry + period)))).
End Script.

(** ** [RedisQuota.Allow] *)
Inductive redis_value : Type :=
| RedisInteger (value : Z)
| RedisText (text : string)
| RedisOther.

Section Allow.
Context (sha256 : string → string) (ParseInt : string → option Z).

Definition quota_key (prefix tenantID : string) (kind : QuotaKind) : string :=
  prefix +:+ ":quota:{" +:+ hex_encode (sha256 tenantID) +:+ "}:" +:+ quota_kind_string kind.

Definition quotaInteger (value : redis_value) : option Z :=
  match value with
  | RedisInteger value => Some value
  | RedisText text => ParseInt text
  | RedisOther => None
  end.

(** What [Allow] makes of the reply: [None] is an error of the call, and a reply
    that is not a list is an empty one. *)
Definition quota_reply (limit : QuotaLimit) (reply : option (list redis_value)) : result quota_error QuotaDecision :=
  match reply with
  | Some [first; second] =>
      match quotaInteger first, quotaInteger second with
      | Some allowed, Some retry =>
          if negb ((allowed =? 0) || (allowed =? 1)) then Err ErrQuotaUnavailable
          else if (retry <? 0) || (period_ms limit <? retry) then Err ErrQuotaUnavailable
          else Ok (mkQuotaDecision (allowed =? 1) (retry * millisecond))
      | _, _ => Err ErrQuotaUnavailable
      end
  | _ => Err ErrQuotaUnavailable
  end.

(** [Allow] over the keys of Redis at a time of its clock. A call that fails may
    have run the script, [Some true], or not. *)
Definition Allow (fl : Q → Q) (prefix : string) (request : QuotaRequest) (now : Z) (fault : option bool) (keys : gmap string bucket) :
    result quota_error QuotaDecision * gmap string bucket :=
  if negb (validateQuotaRequest request) then (Err ErrQuotaInvalid, keys)
  else
    let key := quota_key prefix (qr_TenantID request) (qr_Kind request) in
    let '((allowed, retry), state) :=
      redisTokenBucketScript fl (ql_Capacity (qr_Limit request)) (period_ms (qr_Limit request)) (qr_Cost request) now (keys !! key) in
    let after := partial_alter (λ _, state) key keys in
    match fault with
    | None => (quota_reply (qr_Limit request) (Some [RedisInteger allowed; RedisInteger retry]), after)
    | Some applied => (quota_reply (qr_Limit request) None, if applied then after else keys)
    end.
End Allow.

(** ** The rate *)

(** What is assumed of the rounding: it is monotone, exact on the integers of its
    range, and never more than [epsilon] above the exact value. *)
Record rounding (fl : Q → Q) (epsilon : Q) : Prop := {
  rd_mono : ∀ a b, (a <= b)%Q → (fl a <= fl b)%Q;
  rd_int : ∀ z, 0 ≤ z ≤ 2 ^ 53 → (fl (inject_Z z) == inject_Z z)%Q;
  rd_above : ∀ q, (0 <= q <= inject_Z (2 ^ 53))%Q → (fl q <= q + epsilon)%Q;
  rd_epsilon : (0 <= epsilon <= 1)%Q
}.

Section Rate.
Context (fl : Q → Q) (epsilon : Q) (laws : rounding fl epsilon).
Context (capacity period : Z) (capacity_ok : 0 < capacity ≤ 2 ^ 31) (period_ok : 0 < period ≤ 3600000).
Local Open Scope Q_scope.

Local Notation refill := (refill capacity period).
Local Notation script := (redisTokenBucketScript fl capacity period).
Local Notation refilled := (refilled fl capacity period).

Lemma refill_rate e : refill e == inject_Z e * (inject_Z capacity / inject_Z period).
Proof.
  unfold ApiQuota.refill. rewrite inject_Z_mult. field. intros H.
  assert (0 < inject_Z period) by (rewrite <-(Zlt_Qlt 0); lia). lra.
Qed.

Lemma rate_pos : 0 < inject_Z capacity / inject_Z period.
Proof. apply Qlt_shift_div_l; [rewrite <-(Zlt_Qlt 0); lia|]. rewrite Qmult_0_l, <-(Zlt_Qlt 0). lia. Qed.

Lemma refill_add a b : refill (a + b) == refill a + refill b.
Proof. rewrite !refill_rate, inject_Z_plus. ring. Qed.

Lemma refill_le a b : (a ≤ b)%Z → refill a <= refill b.
Proof. intros H. rewrite !refill_rate. apply Qmult_le_compat_r; [by rewrite <-Zle_Qle|]. pose proof rate_pos. lra. Qed.

Lemma refill_zero : refill 0 == 0.
Proof. rewrite refill_rate. ring. Qed.

Lemma refill_period : refill period == inject_Z capacity.
Proof.
  unfold ApiQuota.refill. rewrite inject_Z_mult. field. intros H.
  assert (0 < inject_Z period) by (rewrite <-(Zlt_Qlt 0); lia). lra.
Qed.

Lemma fl_nonneg q : 0 <= q → 0 <= fl q.
Proof.
  intros H. pose proof (rd_mono _ _ laws 0 q H) as Hm. pose proof (rd_int _ _ laws 0 ltac:(lia)) as H0.
  change (inject_Z 0) with 0 in H0. lra.
Qed.

(** What a bucket may hold at a time. *)
Definition level (state : option bucket) (t : Z) : Q :=
  match state with
  | Some b => Qmin (inject_Z capacity) (bk_Tokens b + refill (Z.max 0 (t - bk_UpdatedMS b)))
  | None => inject_Z capacity
  end.

Definition bucket_ok (state : option bucket) : Prop :=
  ∀ b, state = Some b → 0 <= bk_Tokens b <= inject_Z capacity + epsilon ∧ (bk_UpdatedMS b + 2 * period ≤ bk_ExpiresMS b)%Z.

Lemma capacity_range : 0 < inject_Z capacity <= inject_Z (2 ^ 31).
Proof. split; [rewrite <-(Zlt_Qlt 0)|rewrite <-Zle_Qle]; lia. Qed.

Lemma refill_nonneg e : (0 ≤ e)%Z → 0 <= refill e.
Proof. intros H. pose proof (refill_le 0 e H). pose proof refill_zero. lra. Qed.

Lemma fl_refill tokens e : 0 <= tokens <= inject_Z capacity + epsilon → (0 ≤ e ≤ period)%Z →
  0 <= fl (tokens + refill e) <= tokens + refill e + epsilon.
Proof.
  intros Ht He. pose proof (refill_nonneg e ltac:(lia)) as H0. pose proof (refill_le e period ltac:(lia)) as H1.
  pose proof refill_period. pose proof capacity_range. pose proof (rd_epsilon _ _ laws).
  split; [apply fl_nonneg; lra|]. apply (rd_above _ _ laws). split; [lra|].
  change (inject_Z (2 ^ 53)) with (9007199254740992 # 1). change (inject_Z (2 ^ 31)) with (2147483648 # 1) in *. lra.
Qed.

(** The script never finds more than time has refilled. *)
Lemma refilled_bound state t now :
  bucket_ok state → (t ≤ now)%Z →
  0 <= refilled now state <= inject_Z capacity ∧ refilled now state <= level state t + refill (now - t) + epsilon.
Proof.
  intros Hok Ht. pose proof capacity_range as Hc. pose proof (rd_epsilon _ _ laws) as He. pose proof (refill_nonneg (now - t) ltac:(lia)) as Hr.
  unfold ApiQuota.refilled, live_bucket. destruct state as [b|]; cbn [level].
  - destruct (Hok b eq_refl) as [Htok Hexp]. destruct (Z.leb_spec (bk_ExpiresMS b) now) as [Hx|Hx].
    + rewrite Z.sub_diag. replace (Z.min period (Z.max 0 0)) with 0%Z by lia.
      pose proof (fl_refill (inject_Z capacity) 0 ltac:(lra) ltac:(lia)) as Hf.
      split; [split; [apply Q.min_glb; lra|apply Q.le_min_l]|]. eapply Qle_trans; [apply Q.le_min_l|].
      pose proof (refill_le (2 * period) (Z.max 0 (t - bk_UpdatedMS b) + (now - t)) ltac:(lia)) as H2.
      rewrite refill_add in H2. pose proof (refill_le period (2 * period) ltac:(lia)). pose proof refill_period.
      destruct (Q.min_spec (inject_Z capacity) (bk_Tokens b + refill (Z.max 0 (t - bk_UpdatedMS b)))) as [[_ ->]|[_ ->]]; lra.
    + set (e := Z.min period (Z.max 0 (now - bk_UpdatedMS b))).
      pose proof (fl_refill (bk_Tokens b) e Htok ltac:(lia)) as Hf.
      split; [split; [apply Q.min_glb; lra|apply Q.le_min_l]|].
      destruct (Q.min_spec (inject_Z capacity) (bk_Tokens b + refill (Z.max 0 (t - bk_UpdatedMS b)))) as [[_ ->]|[_ ->]].
      * eapply Qle_trans; [apply Q.le_min_l|]. lra.
      * eapply Qle_trans; [apply Q.le_min_r|].
        pose proof (refill_le e (Z.max 0 (t - bk_UpdatedMS b) + (now - t)) ltac:(lia)) as H2. rewrite refill_add in H2. lra.
  - rewrite Z.sub_diag. replace (Z.min period (Z.max 0 0)) with 0%Z by lia.
    pose proof (fl_refill (inject_Z capacity) 0 ltac:(lra) ltac:(lia)) as Hf.
    split; [split; [apply Q.min_glb; lra|apply Q.le_min_l]|]. eapply Qle_trans; [apply Q.le_min_l|]. lra.
Qed.

(** One run of the script. *)
Lemma script_step state cost t now allowed retry state' :
  bucket_ok state → (t ≤ now)%Z → (0 < cost ≤ capacity)%Z → script cost now state = ((allowed, retry), state') →
  bucket_ok state' ∧ (allowed = 0 ∨ allowed = 1)%Z ∧ (0 ≤ retry ≤ period)%Z ∧
  level state' now <= level state t + refill (now - t) + 2 * epsilon - inject_Z (allowed * cost).
Proof.
  intros Hok Ht Hcost. destruct (refilled_bound state t now Hok Ht) as [Hr Hl]. unfold redisTokenBucketScript.
  set (tokens := refilled now state) in *. pose proof capacity_range as Hc. pose proof (rd_epsilon _ _ laws) as He.
  assert (Hcq : 0 < inject_Z cost <= inject_Z capacity) by (split; [rewrite <-(Zlt_Qlt 0)|rewrite <-Zle_Qle]; lia).
  assert (Hstate : ∀ q retry, 0 <= q <= inject_Z capacity → (0 ≤ retry)%Z →
    let state' := Some (mkBucket (fl q) now (now + Z.max (period * 2) (retry + period))) in
    bucket_ok state' ∧ level state' now <= q + epsilon).
  { intros q retry' Hq Hretry. assert (Hfl : 0 <= fl q <= q + epsilon).
    { split; [apply fl_nonneg; lra|]. apply (rd_above _ _ laws). split; [lra|].
      change (inject_Z (2 ^ 53)) with (9007199254740992 # 1). change (inject_Z (2 ^ 31)) with (2147483648 # 1) in *. lra. }
    split; [intros b [= <-]; cbn; split; [lra|lia]|]. cbn. eapply Qle_trans; [apply Q.le_min_r|].
    replace (Z.max 0 (now - now)) with 0%Z by lia. pose proof refill_zero. lra. }
  destruct (Qle_bool (inject_Z cost) tokens) eqn:Ha; intros [= <- <- <-].
  - apply Qle_bool_iff in Ha. destruct (Hstate (tokens - inject_Z cost) 0%Z ltac:(lra) ltac:(lia)) as [Hb Hv].
    split; [done|]. split; [by right|]. split; [lia|]. rewrite Z.mul_1_l. cbn zeta in Hv. lra.
  - assert (Hlt : tokens < inject_Z cost).
    { apply Qnot_le_lt. intros Hle. apply Qle_bool_iff in Hle. by rewrite Hle in Ha. }
    set (x := (inject_Z cost - tokens) * inject_Z period / inject_Z capacity).
    assert (Hp : 0 < inject_Z period) by (rewrite <-(Zlt_Qlt 0); lia).
    assert (Hx : 0 <= x <= inject_Z period).
    { split; [apply Qle_shift_div_l; [lra|]; rewrite Qmult_0_l; apply Qmult_le_0_compat; lra|].
      apply Qle_shift_div_r; [lra|]. rewrite (Qmult_comm (inject_Z period)). apply Qmult_le_compat_r; lra. }
    assert (Hretry : (0 ≤ Qceiling (fl x) ≤ period)%Z).
    { split.
      - rewrite <-(Qceiling_Z 0). apply Qceiling_resp_le. apply fl_nonneg. lra.
      - rewrite <-(Qceiling_Z period). apply Qceiling_resp_le. rewrite <-(rd_int _ _ laws period) by lia. apply (rd_mono _ _ laws). lra. }
    destruct (Hstate tokens (Qceiling (fl x)) ltac:(lra) ltac:(lia)) as [Hb Hv].
    split; [done|]. split; [by left|]. split; [lia|]. rewrite Z.mul_0_l. change (inject_Z 0) with 0. cbn zeta in Hv. lra.
Qed.
End Rate.

(** ** Calls of [Allow] over one Redis *)
Section Calls.
Context (sha256 : string → string) (ParseInt : string → option Z) (fl : Q → Q) (epsilon : Q) (laws : rounding fl epsilon)
        (prefix : string).
Local Notation Allow := (Allow sha256 ParseInt fl prefix).
Local Notation request_key request := (quota_key sha256 prefix (qr_TenantID request) (qr_Kind request)).

Record quota_call : Type := mkQuotaCall {
  qc_Request : QuotaRequest;
  qc_Now : Z;
  qc_Fault : option bool
}.

(** The cost that calls for one key were granted. *)
Fixpoint granted (key : string) (calls : list quota_call) (keys : gmap string bucket) : Z :=
  match calls with
  | [] => 0
  | c :: calls =>
      let '(out, keys) := Allow (qc_Request c) (qc_Now c) (qc_Fault c) keys in
      (if bool_decide (request_key (qc_Request c) = key)
       then match out with Ok d => if qd_Allowed d then qr_Cost (qc_Request c) else 0 | Err _ => 0 end
       else 0) + granted key calls keys
  end.

(** The clock of Redis does not go back, from [t] to [until]. *)
Fixpoint times_from (t until : Z) (calls : list quota_call) : Prop :=
  match calls with
  | [] => t ≤ until
  | c :: calls => t ≤ qc_Now c ∧ times_from (qc_Now c) until calls
  end.

Lemma times_from_until t until calls : times_from t until calls → t ≤ until.
Proof. revert t. induction calls as [|c calls IH]; cbn; intros t; [done|]. intros [? ?%IH]. lia. Qed.

Lemma times_from_earlier s t until calls : s ≤ t → times_from t until calls → times_from s until calls.
Proof. destruct calls; cbn; [lia|]. intros ? [? ?]. split; [lia|done]. Qed.

Lemma quota_request_limits request :
  validateQuotaRequest request = true →
  0 < ql_Capacity (qr_Limit request) ≤ 2 ^ 31 ∧ 0 < period_ms (qr_Limit request) ≤ 3600000 ∧
  0 < qr_Cost request ≤ ql_Capacity (qr_Limit request).
Proof.
  unfold validateQuotaRequest, quota_Validate, maximumRedisQuotaCapacity, maximumRedisQuotaRefillPeriod, period_ms, hour, minute, second, millisecond.
  intros H. bool_to_prop. split_and!; try lia; Z.quot_rem_to_equations; lia.
Qed.

Section Key.
Context (key : string) (limit : QuotaLimit).
Local Notation capacity := (ql_Capacity limit).
Local Notation period := (period_ms limit).
Context (capacity_ok : 0 < capacity ≤ 2 ^ 31) (period_ok : 0 < period ≤ 3600000).
Local Open Scope Q_scope.

Lemma granted_level calls keys t until :
  bucket_ok epsilon capacity period (keys !! key) → times_from t until calls →
  Forall (λ c, request_key (qc_Request c) = key → qr_Limit (qc_Request c) = limit) calls →
  inject_Z (granted key calls keys) <=
    level capacity period (keys !! key) t + refill capacity period (until - t) + 2 * epsilon * inject_Z (Z.of_nat (length calls)).
Proof.
  revert keys t. induction calls as [|c calls IH]; intros keys t Hok Ht Hlim.
  - cbn in Ht. cbn [granted length]. change (inject_Z 0) with 0. pose proof (refill_nonneg capacity period capacity_ok period_ok (until - t) ltac:(lia)).
    destruct (refilled_bound fl epsilon laws capacity period capacity_ok period_ok _ t t Hok ltac:(lia)) as [? ?].
    rewrite Z.sub_diag in *. pose proof (refill_zero capacity period period_ok). change (inject_Z (Z.of_nat 0)) with 0.
    assert (0 <= level capacity period (keys !! key) t); [|lra].
    unfold level. destruct (keys !! key) as [b|] eqn:Hb; [|pose proof (capacity_range capacity capacity_ok); lra].
    destruct (Hok b eq_refl) as [[? _] _]. apply Q.min_glb; [pose proof (capacity_range capacity capacity_ok); lra|].
    pose proof (refill_nonneg capacity period capacity_ok period_ok (Z.max 0 (t - bk_UpdatedMS b)) ltac:(lia)). lra.
  - destruct Ht as [Ht Hrest]. apply Forall_cons in Hlim as [Hc Hlim]. cbn [granted length].
    rewrite Nat2Z.inj_succ, <-Z.add_1_l, inject_Z_plus. change (inject_Z 1) with 1. pose proof (rd_epsilon _ _ laws) as He.
    pose proof (times_from_earlier t (qc_Now c) until calls Ht Hrest) as Hrest_t.
    set (n := inject_Z (Z.of_nat (length calls))) in *.
    assert (Hsame : ∀ keys', keys' !! key = keys !! key →
      inject_Z (granted key calls keys') <= level capacity period (keys !! key) t + refill capacity period (until - t) + 2 * epsilon * (1 + n)).
    { intros keys' E. pose proof (IH keys' t ltac:(by rewrite E) Hrest_t Hlim) as H. rewrite E in H. lra. }
    unfold Allow. destruct (validateQuotaRequest (qc_Request c)) eqn:Hv; cbn [negb].
    2:{ case_bool_decide; rewrite Z.add_0_l; by apply Hsame. }
    destruct (redisTokenBucketScript _ _ _ _ _ _) as [[allowed retry] state'] eqn:Hs.
    apply quota_request_limits in Hv as (_ & _ & Hcost).
    case_bool_decide as Ek.
    + specialize (Hc Ek). rewrite Hc in *. rewrite Ek in Hs.
      destruct (script_step fl epsilon laws capacity period capacity_ok period_ok _ _ _ _ _ _ _ Hok Ht Hcost Hs) as (Hok' & Ha & Hretry & Hlevel).
      assert (Hafter : inject_Z (granted key calls (partial_alter (λ _, state') (request_key (qc_Request c)) keys)) <=
        level capacity period (keys !! key) t + refill capacity period (until - t) + 2 * epsilon * (1 + n) - inject_Z (allowed * qr_Cost (qc_Request c))).
      { rewrite Ek. pose proof (IH (partial_alter (λ _, state') key keys) (qc_Now c)) as H. rewrite lookup_partial_alter_eq in H.
        specialize (H Hok' Hrest Hlim). pose proof (refill_add capacity period period_ok (qc_Now c - t) (until - qc_Now c)) as Hadd.
        replace (qc_Now c - t + (until - qc_Now c))%Z with (until - t)%Z in Hadd by lia. lra. }
      destruct (qc_Fault c) as [applied|].
      * cbn [quota_reply]. rewrite Z.add_0_l. destruct applied; [|by apply Hsame].
        assert (0 <= inject_Z (allowed * qr_Cost (qc_Request c))) by (rewrite <-(Zle_Qle 0); destruct Ha as [-> | ->]; lia). lra.
      * unfold quota_reply, quotaInteger. rewrite (proj2 (Z.ltb_ge retry 0)), (proj2 (Z.ltb_ge period retry)) by lia. cbn [orb].
        rewrite inject_Z_plus. destruct Ha as [-> | ->]; cbn [Z.eqb Pos.eqb orb negb qd_Allowed]; rewrite ?Z.mul_0_l, ?Z.mul_1_l in Hafter;
          change (inject_Z 0) with 0 in *; lra.
    + destruct (qc_Fault c) as [[]|]; rewrite Z.add_0_l; apply Hsame; try done; by rewrite lookup_partial_alter_ne.
Qed.
End Key.

(** C22: The rate of a tenant's requests is bounded. Over calls of [Allow] for any
    tenants and kinds, in the order Redis runs them and with calls that fail before or
    after the script ran, the cost granted under one key between two times is at most
    the capacity plus what the time between them refills, up to the rounding of
    Redis; expiry of the key gives nothing away. And a valid call that reaches Redis
    always gets a decision, with a delay to wait of at most the refill period. *)
Theorem quota_rate_bounded key limit calls keys t until :
  quota_Validate limit = true → bucket_ok epsilon (ql_Capacity limit) (period_ms limit) (keys !! key) → times_from t until calls →
  Forall (λ c, request_key (qc_Request c) = key → qr_Limit (qc_Request c) = limit) calls →
  (inject_Z (granted key calls keys) <=
     inject_Z (ql_Capacity limit) + inject_Z ((until - t) * ql_Capacity limit) / inject_Z (period_ms limit) +
     2 * epsilon * inject_Z (Z.of_nat (length calls)))%Q ∧
  (∀ request now, validateQuotaRequest request = true → request_key request = key → qr_Limit request = limit →
     ∃ d keys', Allow request now None keys = (Ok d, keys') ∧ bucket_ok epsilon (ql_Capacity limit) (period_ms limit) (keys' !! key) ∧
       0 ≤ qd_RetryAfter d ≤ ql_RefillPeriod limit).
Proof.
  intros Hv Hok Ht Hlim.
  assert (Hl : 0 < ql_Capacity limit ≤ 2 ^ 31 ∧ 0 < period_ms limit ≤ 3600000).
  { unfold quota_Validate, maximumRedisQuotaCapacity, maximumRedisQuotaRefillPeriod, period_ms, hour, minute, second, millisecond in *.
    bool_to_prop. split; [lia|]. Z.quot_rem_to_equations; lia. }
  destruct Hl as [Hcap Hper]. split.
  - pose proof (granted_level key limit Hcap Hper calls keys t until Hok Ht Hlim) as H. unfold refill in H.
    assert (Hle : (level (ql_Capacity limit) (period_ms limit) (keys !! key) t <= inject_Z (ql_Capacity limit))%Q); [|lra].
    unfold level. destruct (keys !! key); [apply Q.le_min_l|lra].
  - intros request now Hreq Hk Hq. unfold ApiQuota.Allow. rewrite Hreq. cbn [negb].
    destruct (redisTokenBucketScript _ _ _ _ _ _) as [[allowed retry] state'] eqn:Hs.
    apply quota_request_limits in Hreq as (_ & _ & Hcost). rewrite Hq in Hs, Hcost. rewrite Hk in Hs |- *.
    destruct (script_step fl epsilon laws _ _ Hcap Hper _ _ _ _ _ _ _ Hok (Z.le_refl now) Hcost Hs) as (Hok' & Ha & Hretry & _).
    rewrite Hq. unfold quota_reply, quotaInteger. rewrite (proj2 (Z.ltb_ge retry 0)), (proj2 (Z.ltb_ge (period_ms limit) retry)) by lia.
    exists (mkQuotaDecision (allowed =? 1) (retry * millisecond)), (partial_alter (λ _, state') key keys).
    rewrite lookup_partial_alter_eq. split; [by destruct Ha as [-> | ->]|]. split; [done|]. cbn [qd_RetryAfter].
    clear -Hretry Hper. unfold period_ms, millisecond in *. Z.quot_rem_to_equations. lia.
Qed.
End Calls.
