(* ===== verification/HttpServer.v ===== *)
(** * The HTTP server of the external API

    First what it uses of [net/url] and [strconv]; then [internal/httpapi]:
    [problem.go], [capabilities.go], and the construction and authentication of
    [server.go]. *)
From stdpp Require Import prelude gmap strings pretty.
From S2P Require Import Prelude.
From S2P Require Import GoText.
From S2P Require Import Encodings.
From S2P Require Import Manifest.
From S2P Require Import Credentials.
From S2P Require Import SubmissionEvents.
From S2P Require Import Bundles.
From S2P Require Import Store.
From S2P Require Import JobListing.
From S2P Require Import Submission.
From S2P Require Import ApiQuota.

Open Scope Z_scope.

(** [url.QueryUnescape] *)
Fixpoint QueryUnescape (s : string) : option string :=
  match s with
  | "" => Some ""
  | String a t =>
      if byte_of a =? 37 then
        match t with
        | String b (String c t) =>
            high ← hex_value b; low ← hex_value c; rest ← QueryUnescape t;
            Some (String (ascii_of_byte (16 * high + low)) rest)
        | _ => None
        end
      else rest ← QueryUnescape t; Some (String (if byte_of a =? 43 then ascii_of_byte 32 else a) rest)
  end.

Definition maximumQueryParameters : Z := 10000.

Definition contains_byte (b : Z) (s : string) : bool := negb (string_forallb (λ a, negb (byte_of a =? b)) s).

(** The pairs of a query, in order; [None] when one of them is malformed. *)
Fixpoint query_pairs (parts : list string) : option (list (string * string)) :=
  match parts with
  | [] => Some []
  | part :: parts =>
      if bool_decide (part = "") then query_pairs parts
      else if contains_byte 59 part then None
      else
        let '(key, value) := default (part, "") (cut_at 61 part) in
        key ← QueryUnescape key; value ← QueryUnescape value; pairs ← query_pairs parts;
        Some ((key, value) :: pairs)
  end.

Definition ParseQuery (query : string) : option (list (string * string)) :=
  let parts := split_on 38 query in
  if maximumQueryParameters <? Z.of_nat (length parts) then None else query_pairs parts.

(** [Values] of a key: those of its pairs, in order. *)
Definition values_of (key : string) (pairs : list (string * string)) : list string :=
  snd <$> filter (λ p, p.1 = key) pairs.

(** [Values.Get] *)
Definition values_Get (key : string) (pairs : list (string * string)) : string := default "" (head (values_of key pairs)).

(** [strconv.Atoi] *)
Fixpoint decimal_value (acc : Z) (s : string) : option Z :=
  match s with
  | "" => Some acc
  | String a s => if digit a then decimal_value (10 * acc + (byte_of a - 48)) s else None
  end.

Definition Atoi (s : string) : option Z :=
  let '(negative, digits) :=
    match s with
    | String a t => if byte_of a =? 45 then (true, t) else if byte_of a =? 43 then (false, t) else (false, s)
    | "" => (false, "")
    end in
  if bool_decide (digits = "") then None
  else
    value ← decimal_value 0 digits;
    let value := if negative : bool then - value else value in
    if (min_int64 <=? value) && (value <=? max_int64) then Some value else None.

(** * The HTTP server of the external API

    [internal/httpapi]: [problem.go], [capabilities.go], and the construction of the
    server and the authentication of requests of [server.go]. A handler is a function
    from a request and the world to a response and the world. *)
(** ** Capabilities *)
Definition maximumV1CaseCount : Z := 256.
Definition maximumJobRequestEncodingExpansion : Z := 6.
Definition maximumJobRequestEnvelopeBytes : Z := 65536.
Definition maximumV1SourceBytes : Z := Z.quot (max_int64 - maximumJobRequestEnvelopeBytes) maximumJobRequestEncodingExpansion.

Record LanguageCapability : Type := mkLanguageCapability {
  lc_ID : string;
  lc_DisplayName : string;
  lc_Runtime : string
}.

Record CapabilityLimits : Type := mkCapabilityLimits {
  cl_MaxSourceBytes : Z;
  cl_MaxBundleBytes : Z;
  cl_MaxCaseBytes : Z;
  cl_MaxCaseCount : Z;
  cl_MaxTimeLimitMillis : Z;
  cl_MaxMemoryLimitMiB : Z
}.

Record Capabilities : Type := mkCapabilities {
  cap_APIVersion : string;
  cap_Languages : list LanguageCapability;
  cap_JudgeModes : list string;
  cap_Checkers : list string;
  cap_Limits : CapabilityLimits
}.

Definition limits_complete (l : CapabilityLimits) : bool :=
  negb ((cl_MaxSourceBytes l <=? 0) || (maximumV1SourceBytes <? cl_MaxSourceBytes l) || (cl_MaxBundleBytes l <=? 0) ||
        (cl_MaxCaseBytes l <=? 0) || (cl_MaxCaseCount l <=? 0) || (maximumV1CaseCount <? cl_MaxCaseCount l) ||
        (cl_MaxTimeLimitMillis l <=? 0) || (cl_MaxMemoryLimitMiB l <=? 0)).

(** [capabilityLanguageIDPattern] is the pattern of a submission's language. *)
Definition language_capability_ok (l : LanguageCapability) : bool :=
  languageIDPattern (lc_ID l) && negb (bool_decide (lc_DisplayName l = "")) && negb (bool_decide (lc_Runtime l = "")) &&
  match ResolveLanguage (lc_ID l) with
  | Some definition => bool_decide (DisplayName definition = lc_DisplayName l) && bool_decide (Runtime definition = lc_Runtime l)
  | None => false
  end.

Definition normalizeCapabilities (value : Capabilities) : option Capabilities :=
  if negb (bool_decide (cap_APIVersion value = "v1")) || bool_decide (cap_Languages value = []) ||
     negb (limits_complete (cap_Limits value)) then None
  else if negb (forallb language_capability_ok (cap_Languages value)) then None
  else if negb (forallb (λ checker, IsCanonicalChecker (Checker_of checker)) (cap_Checkers value)) then None
  else if negb (forallb (λ mode, bool_decide (mode = "ACM") || bool_decide (mode = "OI")) (cap_JudgeModes value)) then None
  else Some value.

(** ** The server *)
Record Server : Type := mkServer {
  sv_Capabilities : Capabilities;
  sv_Jobs : bool;
  sv_JobWriteLimit : option QuotaLimit;
  sv_Bundles : bool;
  sv_BundleWriteLimit : option QuotaLimit;
  sv_BundleUploads : option Z;
  sv_BundleOperationTimeout : Z;
  sv_JobBodyReadTimeout : Z;
  sv_JobBodyReaders : Z;
  sv_JobSubmitTimeout : Z
}.

(** The options, each with the arguments that are not nil. *)
Inductive ServerOption : Type :=
| WithBundleOperationTimeout (timeout : Z)
| WithJobWriteQuota (limit : QuotaLimit)
| WithJobService
| WithBundleUploadConcurrency (maximum : Z)
| WithJobBodyProtection (readTimeout maximumConcurrency : Z)
| WithJobSubmitTimeout (timeout : Z)
| WithBundleApplication
| WithBundleWriteQuota (limit : QuotaLimit).

Definition maximumBundleOperationTimeout : Z := 40 * minute.
Definition maximumJobSubmitTimeout : Z := 30 * minute.

Definition apply_option (s : Server) (o : ServerOption) : option Server :=
  match o with
  | WithBundleOperationTimeout timeout =>
      if (timeout <? minute) || (maximumBundleOperationTimeout <? timeout) then None
      else Some (mkServer (sv_Capabilities s) (sv_Jobs s) (sv_JobWriteLimit s) (sv_Bundles s) (sv_BundleWriteLimit s) (sv_BundleUploads s)
                   timeout (sv_JobBodyReadTimeout s) (sv_JobBodyReaders s) (sv_JobSubmitTimeout s))
  | WithJobWriteQuota limit =>
      if negb (quota_Validate limit) then None
      else Some (mkServer (sv_Capabilities s) (sv_Jobs s) (Some limit) (sv_Bundles s) (sv_BundleWriteLimit s) (sv_BundleUploads s)
                   (sv_BundleOperationTimeout s) (sv_JobBodyReadTimeout s) (sv_JobBodyReaders s) (sv_JobSubmitTimeout s))
  | WithJobService =>
      Some (mkServer (sv_Capabilities s) true (sv_JobWriteLimit s) (sv_Bundles s) (sv_BundleWriteLimit s) (sv_BundleUploads s)
              (sv_BundleOperationTimeout s) (sv_JobBodyReadTimeout s) (sv_JobBodyReaders s) (sv_JobSubmitTimeout s))
  | WithBundleUploadConcurrency maximum =>
      if (maximum <? 1) || (1024 <? maximum) then None
      else Some (mkServer (sv_Capabilities s) (sv_Jobs s) (sv_JobWriteLimit s) (sv_Bundles s) (sv_BundleWriteLimit s) (Some maximum)
                   (sv_BundleOperationTimeout s) (sv_JobBodyReadTimeout s) (sv_JobBodyReaders s) (sv_JobSubmitTimeout s))
  | WithJobBodyProtection readTimeout maximumConcurrency =>
      if (readTimeout <? second) || (5 * minute <? readTimeout) then None
      else if (maximumConcurrency <? 1) || (4096 <? maximumConcurrency) then None
      else Some (mkServer (sv_Capabilities s) (sv_Jobs s) (sv_JobWriteLimit s) (sv_Bundles s) (sv_BundleWriteLimit s) (sv_BundleUploads s)
                   (sv_BundleOperationTimeout s) readTimeout maximumConcurrency (sv_JobSubmitTimeout s))
  | WithJobSubmitTimeout timeout =>
      if (timeout <=? 0) || (maximumJobSubmitTimeout <? timeout) then None
      else Some (mkServer (sv_Capabilities s) (sv_Jobs s) (sv_JobWriteLimit s) (sv_Bundles s) (sv_BundleWriteLimit s) (sv_BundleUploads s)
                   (sv_BundleOperationTimeout s) (sv_JobBodyReadTimeout s) (sv_JobBodyReaders s) timeout)
  | WithBundleApplication =>
      Some (mkServer (sv_Capabilities s) (sv_Jobs s) (sv_JobWriteLimit s) true (sv_BundleWriteLimit s) (sv_BundleUploads s)
              (sv_BundleOperationTimeout s) (sv_JobBodyReadTimeout s) (sv_JobBodyReaders s) (sv_JobSubmitTimeout s))
  | WithBundleWriteQuota limit =>
      if negb (quota_Validate limit) then None
      else Some (mkServer (sv_Capabilities s) (sv_Jobs s) (sv_JobWriteLimit s) (sv_Bundles s) (Some limit) (sv_BundleUploads s)
                   (sv_BundleOperationTimeout s) (sv_JobBodyReadTimeout s) (sv_JobBodyReaders s) (sv_JobSubmitTimeout s))
  end.

Fixpoint apply_options (s : Server) (options : list ServerOption) : option Server :=
  match options with
  | [] => Some s
  | o :: options => s ← apply_option s o; apply_options s options
  end.

(** The checks of [NewServer] after the options; a limit is set together with its
    quota, and the capacity of none is 0. *)
Definition finish_server (s : Server) : option Server :=
  if sv_Jobs s && negb (is_some (sv_JobWriteLimit s)) then None
  else if sv_Bundles s && negb (is_some (sv_BundleWriteLimit s)) then None
  else if sv_Bundles s && (default 0 (ql_Capacity <$> sv_BundleWriteLimit s) <? cl_MaxBundleBytes (cap_Limits (sv_Capabilities s))) then None
  else if sv_Bundles s && negb (is_some (sv_BundleUploads s))
  then Some (mkServer (sv_Capabilities s) (sv_Jobs s) (sv_JobWriteLimit s) (sv_Bundles s) (sv_BundleWriteLimit s) (Some 4)
               (sv_BundleOperationTimeout s) (sv_JobBodyReadTimeout s) (sv_JobBodyReaders s) (sv_JobSubmitTimeout s))
  else Some s.

Definition NewServer (capabilities : Capabilities) (options : list ServerOption) : option Server :=
  capabilities ← normalizeCapabilities capabilities;
  s ← apply_options (mkServer capabilities false None false None None (20 * minute) (2 * minute) 64 (3 * minute)) options;
  finish_server s.

(** ** Requests and responses *)
Inductive deadline_outcome : Type :=
| DeadlineSet
| DeadlineUnsupported
| DeadlineFailed.

(** How the bytes of a body end. *)
Inductive body_end : Type :=
| EndEOF
| EndTimeout
| EndFailed.

Inductive part_end : Type :=
| PartEnds
| PartTooLarge
| PartFails.

(** The first part of a multipart body: its names, its bytes and how they end, and
    whether no part follows. *)
Record multipart_part : Type := mkPart {
  mp_FormName : string;
  mp_FileName : string;
  mp_Data : string;
  mp_End : part_end;
  mp_Last : bool
}.

(** A request: the values of a header, the body as bytes or as the first part of a
    multipart body limited to a number of bytes ([None] when there is none), the
    outcome of [SetReadDeadline], and whether the rest of the body can be drained. *)
Record http_request : Type := mkHttpRequest {
  hr_Method : string;
  hr_Path : string;
  hr_RawQuery : string;
  hr_Header : gmap string (list string);
  hr_ContentLength : Z;
  hr_Body : string;
  hr_BodyEnd : body_end;
  hr_Part : Z → option multipart_part;
  hr_Deadline : deadline_outcome;
  hr_Drains : bool
}.

Definition header_Values (request : http_request) (name : string) : list string := default [] (hr_Header request !! name).

Record Problem : Type := mkProblem {
  pm_Type : string;
  pm_Title : string;
  pm_Status : Z;
  pm_Detail : string;
  pm_RequestID : string
}.

Definition problemFor (status : Z) (kind title detail requestID : string) : Problem :=
  mkProblem ("https://coderushoj.dev/problems/" +:+ kind) title status detail requestID.

Record CaseResultView : Type := mkCaseResultView {
  cv_CaseID : string;
  cv_Verdict : string;
  cv_TimeMillis : Z;
  cv_MemoryBytes : Z;
  cv_Score : option Z;
  cv_MaxScore : option Z
}.

Record JobResultView : Type := mkJobResultView {
  rv_Verdict : string;
  rv_CompileStatus : string;
  rv_TimeMillis : Z;
  rv_MemoryBytes : Z;
  rv_Score : option Z;
  rv_TotalScore : option Z;
  rv_Cases : list CaseResultView
}.

Record JobView : Type := mkJobView {
  jv_JobID : string;
  jv_Status : string;
  jv_StatusURL : string;
  jv_CreatedAt : Z;
  jv_ClientReference : string;
  jv_FailureCode : string;
  jv_Result : option JobResultView
}.

Record JobListPage : Type := mkJobListPage {
  jp_Items : list JobView;
  jp_NextCursor : string
}.

Inductive response_body : Type :=
| BodyProblem (problem : Problem)
| BodyCapabilities (value : Capabilities)
| BodyJob (view : JobView)
| BodyJobs (page : JobListPage)
| BodyBundle (metadata : BundleMetadata).

Notation header := (gmap string string).

Record http_response : Type := mkHttpResponse {
  rp_Status : Z;
  rp_Header : header;
  rp_Body : response_body
}.

Definition no_store (contentType : string) (h : header) : header :=
  <["Content-Type" := contentType]> (<["Cache-Control" := "no-store"]> h).

Definition writeProblem (h : header) (problem : Problem) : http_response :=
  mkHttpResponse (pm_Status problem) (no_store "application/problem+json" h) (BodyProblem problem).

Definition writeJSON (h : header) (status : Z) (body : response_body) : http_response :=
  mkHttpResponse status (no_store "application/json" h) body.

Definition notFound (h : header) (detail requestID : string) : http_response :=
  writeProblem h (problemFor 404 "not-found" "Resource not found" detail requestID).

Definition methodNotAllowed (h : header) (allow detail requestID : string) : http_response :=
  writeProblem (<["Allow" := allow]> h) (problemFor 405 "method-not-allowed" "Method not allowed" detail requestID).

(** ** The world of the handlers: the services, the job bodies being read, and the
    bundles being uploaded. *)
Record http_world (W : Type) : Type := mkHttpWorld {
  hw_Services : W;
  hw_Readers : Z;
  hw_Uploads : Z
}.
Arguments mkHttpWorld {W} _ _ _.
Arguments hw_Services {W} _.
Arguments hw_Readers {W} _.
Arguments hw_Uploads {W} _.

Definition set_services {W} (w : http_world W) (services : W) : http_world W := mkHttpWorld services (hw_Readers w) (hw_Uploads w).

(** ** [authenticate] *)
Section Authenticate.
Context {W : Type} (authenticator : W → string → result auth_error Principal).

Definition unauthorized (h : header) (requestID : string) : http_response :=
  writeProblem (<["WWW-Authenticate" := "Bearer realm=" +:+ json_string "coderushoj-judge"]> h)
    (problemFor 401 "unauthorized" "Authentication required" "Provide a valid active API key." requestID).

Definition has_comma (s : string) : bool := negb (string_forallb (λ a, negb (byte_of a =? 44)) s).

Definition authenticate (w : W) (h : header) (request : http_request) (requestID : string) (scope : Scope) : result http_response Principal :=
  let authorization := header_Values request "Authorization" in
  if match authorization with [] => false | [value] => has_comma value | _ => true end then Err (unauthorized h requestID)
  else
    match authenticator w (default "" (head authorization)) with
    | Err ErrAuthenticationUnavailable =>
        Err (writeProblem (<["Retry-After" := "5"]> h)
               (problemFor 503 "authentication-unavailable" "Authentication temporarily unavailable" "Retry the request later." requestID))
    | Err ErrUnauthenticated => Err (unauthorized h requestID)
    | Ok principal =>
        if principal_Has principal scope then Ok principal
        else Err (writeProblem h (problemFor 403 "insufficient-scope" "Insufficient scope" "The API key does not grant this operation." requestID))
    end.

Definition handleCapabilities (server : Server) (w : http_world W) (h : header) (request : http_request) (requestID : string) :
    http_response * http_world W :=
  if negb (bool_decide (hr_Method request = "GET")) then (methodNotAllowed h "GET" "Use GET for this resource." requestID, w)
  else
    match authenticate (hw_Services w) h request requestID ScopeCapabilitiesRead with
    | Err response => (response, w)
    | Ok _ => (writeJSON h 200 (BodyCapabilities (sv_Capabilities server)), w)
    end.
End Authenticate.
