(* ===== verification/HttpJobs.v ===== *)
(** * Judge jobs over HTTP

    [internal/httpapi/jobs.go] and the job service of [mysql_job_service.go].

    A submission calls its admission back in the middle of its own work: the service
    is a program that acts on the store and asks for the admission, which the handler
    answers once ([sync.Once]). *)
From stdpp Require Import prelude gmap strings pretty.
From S2P Require Import Prelude.
From S2P Require Import GoText.
From S2P Require Import Encodings.
From S2P Require Import HttpServer.
From S2P Require Import JobState.
From S2P Require Import Manifest.
From S2P Require Import SubmissionEvents.
From S2P Require Import Store.
From S2P Require Import JobRepository.
From S2P Require Import JobListing.
From S2P Require Import Submission.
From S2P Require Import Credentials.
From S2P Require Import ApiQuota.

Open Scope Z_scope.

(** ** Data and errors *)
Record SubmitJobCommand : Type := mkSubmitCommand {
  sj_BundleID : string;
  sj_Language : string;
  sj_SourceCode : string;
  sj_StopOnFailure : bool;
  sj_CallbackID : string;
  sj_ClientReference : string
}.

Record JobListQuery : Type := mkListQuery {
  lq_Cursor : string;
  lq_Limit : Z;
  lq_Status : string
}.

(** [jobQuotaAdmissionError], or another error of the quota. *)
Inductive admission_error : Type :=
| AdmissionUnavailable
| AdmissionRetryAfter (delay : Z)
| AdmissionFailed.

Inductive job_error : Type :=
| ErrJobNotFound
| ErrJobIdempotencyConflict
| ErrJobInvalid
| ErrJobQuotaExceeded
| ErrJobUnavailable
| ErrJobContext
| ErrJobAdmission (e : admission_error).

Inductive repository_error : Type :=
| RepositoryFailed (e : external_error)
| RepositoryAdmission (e : admission_error).

(** ** Programs that ask for an admission *)
Inductive admitted (W Q E A : Type) : Type :=
| Finish (r : result E A)
| Act (f : W → W) (k : W → admitted W Q E A)
| Admit (q : Q) (k : option admission_error → admitted W Q E A).
Arguments Finish {W Q E A} r.
Arguments Act {W Q E A} f k.
Arguments Admit {W Q E A} q k.

(** Every call is answered. *)
Fixpoint run_asking {W Q E A} (ask : Q → W → option admission_error * W) (p : admitted W Q E A) (w : W) : result E A * W :=
  match p with
  | Finish r => (r, w)
  | Act f k => run_asking ask (k w) (f w)
  | Admit q k => let '(answer, w) := ask q w in run_asking ask (k answer) w
  end.

(** [admit] is asked at the first call, whose answer is kept. *)
Fixpoint run_admitted {W E A} (ask : W → option admission_error * W) (memo : option (option admission_error))
    (p : admitted W unit E A) (w : W) : result E A * W :=
  match p with
  | Finish r => (r, w)
  | Act f k => run_admitted ask memo (k w) (f w)
  | Admit _ k =>
      match memo with
      | Some answer => run_admitted ask memo (k answer) w
      | None => let '(answer, w) := ask w in run_admitted ask (Some answer) (k answer) w
      end
  end.

(** ** The interfaces *)
Class DurableJobRepository (W : Type) : Type := {
  repository_Submit : string → string → JudgeJobRequest → admitted W unit repository_error (ExternalJobRecord * bool);
  repository_List : W → string → JobListOptions → result external_error JobListResult;
  repository_Get : W → string → string → result external_error ExternalJobRecord;
  repository_Cancel : W → string → string → result external_error ExternalJobRecord * W
}.

Class JobService (W : Type) : Type := {
  service_Submit : string → string → SubmitJobCommand → admitted W unit job_error (JobView * bool);
  service_List : W → string → JobListQuery → result job_error JobListPage;
  service_Get : W → string → string → result job_error JobView;
  service_Cancel : W → string → string → result job_error JobView * W
}.

(** ** [MySQLJobService] *)
Definition publicJobStatus (status : JobStatus) : result job_error string :=
  match status with
  | JobStatusQueued => Ok "QUEUED"
  | JobStatusRunning => Ok "RUNNING"
  | JobStatusSucceeded => Ok "SUCCEEDED"
  | JobStatusFailed => Ok "FAILED"
  | JobStatusCancelled => Ok "CANCELLED"
  | JobStatusUnknown _ => Err ErrJobUnavailable
  end.

(** [external.JobStatus(s)] *)
Definition job_status_of (s : string) : JobStatus :=
  if bool_decide (s = "QUEUED") then JobStatusQueued
  else if bool_decide (s = "RUNNING") then JobStatusRunning
  else if bool_decide (s = "SUCCEEDED") then JobStatusSucceeded
  else if bool_decide (s = "FAILED") then JobStatusFailed
  else if bool_decide (s = "CANCELLED") then JobStatusCancelled
  else JobStatusUnknown s.

Definition case_view (item : DurableCaseResult) : CaseResultView :=
  mkCaseResultView (dc_CaseID item) (dc_Verdict item) (dc_TimeMillis item) (dc_MemoryBytes item) (dc_Score item) (dc_MaxScore item).

Definition result_view (r : DurableJobResult) : JobResultView :=
  mkJobResultView (dr_Verdict r) (dr_CompileStatus r) (dr_TimeMillis r) (dr_MemoryBytes r) (dr_Score r) (dr_TotalScore r)
    (case_view <$> dr_Cases r).

Definition publicJobView (job : ExternalJobRecord) : result job_error JobView :=
  status ← publicJobStatus (ej_Status job);
  mret (mkJobView (ej_ExternalID job) status "" (ej_CreatedAt job) (ej_ClientReference job)
          (if bool_decide (ej_Status job = JobStatusFailed) then ej_FailureCode job else "")
          (result_view <$> ej_Result job)).

Definition mapRepositoryJobError (e : external_error) : job_error :=
  match e with
  | ErrExternalJobNotFound => ErrJobNotFound
  | ErrExternalJobConflict => ErrJobIdempotencyConflict
  | ErrQueuedQuotaExceeded => ErrJobQuotaExceeded
  | ErrExternalJobInvalid | ErrInvalidJobCursor => ErrJobInvalid
  | ErrExternalJobUnavailable => ErrJobUnavailable
  | _ => ErrJobUnavailable
  end.

Definition map_repository {A} (r : result external_error A) : result job_error A :=
  match r with Ok a => Ok a | Err e => Err (mapRepositoryJobError e) end.

Definition submit_result (admissionErr : option admission_error) (r : result repository_error (ExternalJobRecord * bool)) :
    result job_error (JobView * bool) :=
  match r with
  | Ok (job, replayed) => view ← publicJobView job; mret (view, replayed)
  | Err (RepositoryFailed e) => Err (mapRepositoryJobError e)
  | Err (RepositoryAdmission e) =>
      match admissionErr with
      | Some a => Err (ErrJobAdmission a)
      | None => Err ErrJobUnavailable
      end
  end.

(** The callback that keeps the last answer in [admissionErr]. *)
Fixpoint submit_through {W} (admissionErr : option admission_error) (p : admitted W unit repository_error (ExternalJobRecord * bool)) :
    admitted W unit job_error (JobView * bool) :=
  match p with
  | Finish r => Finish (submit_result admissionErr r)
  | Act f k => Act f (λ w, submit_through admissionErr (k w))
  | Admit q k => Admit q (λ answer, submit_through answer (k answer))
  end.

Section MySQLJobService.
Context {W : Type} `{DurableJobRepository W}.

Definition mysql_Submit (tenantID idempotencyKey : string) (command : SubmitJobCommand) : admitted W unit job_error (JobView * bool) :=
  match ResolveLanguage (sj_Language command) with
  | None => Finish (Err ErrJobInvalid)
  | Some language =>
      submit_through None
        (repository_Submit tenantID idempotencyKey
           (mkJobRequest (sj_BundleID command) (SandboxID language) (sj_SourceCode command) (sj_StopOnFailure command)
              (sj_CallbackID command) (sj_ClientReference command)))
  end.

Fixpoint job_views (records : list ExternalJobRecord) : result job_error (list JobView) :=
  match records with
  | [] => Ok []
  | job :: records => view ← publicJobView job; views ← job_views records; mret (view :: views)
  end.

Definition mysql_List (w : W) (tenantID : string) (query : JobListQuery) : result job_error JobListPage :=
  result ← map_repository (repository_List w tenantID (mkListOptions (lq_Cursor query) (lq_Limit query) (job_status_of (lq_Status query))));
  views ← job_views (lr_Jobs result);
  mret (mkJobListPage views (lr_NextCursor result)).

Definition mysql_Get (w : W) (tenantID jobID : string) : result job_error JobView :=
  job ← map_repository (repository_Get w tenantID jobID);
  publicJobView job.

Definition mysql_Cancel (w : W) (tenantID jobID : string) : result job_error JobView * W :=
  let '(out, w) := repository_Cancel w tenantID jobID in
  (job ← map_repository out; publicJobView job, w).

#[export] Instance MySQLJobService : JobService W := {|
  service_Submit := mysql_Submit;
  service_List := mysql_List;
  service_Get := mysql_Get;
  service_Cancel := mysql_Cancel
|}.
End MySQLJobService.

(** ** Reading a request *)
(** What a JSON decoder that refuses unknown fields makes of the bytes it is given:
    a first document and the bytes after it, a document still incomplete, or an error. *)
Inductive first_json (A : Type) : Type :=
| FirstValue (value : A) (rest : string)
| FirstIncomplete
| FirstMalformed.
Arguments FirstValue {A} value rest.
Arguments FirstIncomplete {A}.
Arguments FirstMalformed {A}.

Inductive decode_error : Type :=
| DecodeTimeout
| DecodeInvalid.

(** [decodeStrictJSON]: a body longer than [maximum] fails where it exceeds it. *)
Definition decodeStrictJSON {A} (first_value : string → first_json A) (request : http_request) (maximum : Z) : result decode_error A :=
  let body := stake (Z.to_nat maximum) (hr_Body request) in
  let ending := if maximum <? len (hr_Body request) then EndFailed else hr_BodyEnd request in
  match first_value body with
  | FirstValue value rest =>
      match ending with
      | EndEOF => if string_forallb json_space rest then Ok value else Err DecodeInvalid
      | _ => Err DecodeInvalid
      end
  | FirstIncomplete => match ending with EndTimeout => Err DecodeTimeout | _ => Err DecodeInvalid end
  | FirstMalformed => Err DecodeInvalid
  end.

Definition maximumJobRequestBytes (maxSourceBytes : Z) : Z :=
  maxSourceBytes * maximumJobRequestEncodingExpansion + maximumJobRequestEnvelopeBytes.

(** [EqualFold] with texts none of whose letters folds outside ASCII. *)
Definition hasApplicationJSONContentType (ParseMediaType : string → option (string * list (string * string))) (values : list string) : bool :=
  match values with
  | [value] =>
      match ParseMediaType value with
      | None => false
      | Some (mediaType, parameters) =>
          bool_decide (to_lower mediaType = "application/json") &&
          forallb (λ p, bool_decide (to_lower p.1 = "charset") && bool_decide (to_lower p.2 = "utf-8")) parameters
      end
  | _ => false
  end.

Definition list_parameter (key : string) : bool :=
  bool_decide (key = "cursor") || bool_decide (key = "limit") || bool_decide (key = "status").

Definition public_status (s : string) : bool := bool_decide (s ∈ ["QUEUED"; "RUNNING"; "SUCCEEDED"; "FAILED"; "CANCELLED"]).

Definition parseJobListQuery (request : http_request) : option JobListQuery :=
  pairs ← ParseQuery (hr_RawQuery request);
  if negb (forallb (λ p, list_parameter p.1 && (Z.of_nat (length (values_of p.1 pairs)) =? 1)) pairs) then None
  else
    let cursor := values_Get "cursor" pairs in
    if 512 <? len cursor then None
    else
      limit ← (let raw := values_Get "limit" pairs in
               if bool_decide (raw = "") then Some 50
               else limit ← Atoi raw; if (limit <? 1) || (100 <? limit) then None else Some limit);
      status ← (let raw := values_Get "status" pairs in
                if bool_decide (raw = "") then Some "" else if public_status raw then Some raw else None);
      Some (mkListQuery cursor limit status).

(** ** Errors *)
(** The ceiling of a delay in seconds, at least one. [Duration.Seconds] is exact
    enough for its ceiling below [2^22] seconds; a quota asks for an hour at most. *)
Definition retry_seconds (delay : Z) : Z := Z.max 1 (- ((- delay) / second)).

Definition writeJobError (h : header) (requestID : string) (e : job_error) : http_response :=
  match e with
  | ErrJobAdmission AdmissionUnavailable =>
      writeProblem (<["Retry-After" := "5"]> h)
        (problemFor 503 "quota-unavailable" "Quota temporarily unavailable" "Retry the request later." requestID)
  | ErrJobAdmission (AdmissionRetryAfter delay) =>
      writeProblem (<["Retry-After" := pretty (retry_seconds delay)]> h)
        (problemFor 429 "quota-exceeded" "Quota exceeded" "Retry after the indicated delay." requestID)
  | ErrJobNotFound =>
      writeProblem h (problemFor 404 "job-not-found" "Judge job not found" "The requested judge job does not exist." requestID)
  | ErrJobIdempotencyConflict =>
      writeProblem h (problemFor 409 "idempotency-conflict" "Idempotency conflict"
                        "The Idempotency-Key is already bound to a different request." requestID)
  | ErrJobInvalid =>
      writeProblem h (problemFor 422 "invalid-job" "Judge job is invalid" "The job could not be accepted under tenant policy." requestID)
  | ErrJobQuotaExceeded =>
      writeProblem (<["Retry-After" := "5"]> h)
        (problemFor 429 "job-quota-exceeded" "Judge job quota exceeded" "Wait for queued work to finish before retrying." requestID)
  | ErrJobUnavailable =>
      writeProblem (<["Retry-After" := "5"]> h)
        (problemFor 503 "job-service-unavailable" "Judge job service unavailable" "Retry the request later." requestID)
  | ErrJobContext | ErrJobAdmission AdmissionFailed =>
      writeProblem h (problemFor 500 "internal-error" "Internal server error" "The request could not be completed." requestID)
  end.

(** ** The body of a submission *)
Definition closeUnreadRequestBody (h : header) : header := <["Connection" := "close"]> h.

(** Whether the reading of the body is over, the header and the readers. *)
Record body_reading : Type := mkReading {
  rd_Finished : bool;
  rd_Header : header;
  rd_Readers : Z
}.

Definition finishBodyRead (request : http_request) (s : body_reading) : body_reading :=
  if rd_Finished s then s
  else
    mkReading true
      (match hr_Deadline request with
       | DeadlineUnsupported => closeUnreadRequestBody (rd_Header s)
       | _ => if hr_Drains request then rd_Header s else <["Connection" := "close"]> (rd_Header s)
       end)
      (rd_Readers s - 1).

Section Jobs.
Context {W : Type} `{JobService W}.
Context (authenticator : W → string → result auth_error Principal) (quota_Allow : QuotaRequest → W → result quota_error QuotaDecision * W).
Context (first_command : string → first_json SubmitJobCommand) (ParseMediaType : string → option (string * list (string * string))).

(** The closure [admit]; [NewServer] refuses a job service without a write limit. *)
Definition admit_submission (server : Server) (tenantID : string) (w : W) : option admission_error * W :=
  let '(out, w) := quota_Allow (mkQuotaRequest tenantID QuotaJudgeSubmit 1 (default (mkQuotaLimit 0 0) (sv_JobWriteLimit server))) w in
  (match out with
   | Err ErrQuotaUnavailable => Some AdmissionUnavailable
   | Err _ => Some AdmissionFailed
   | Ok decision => if qd_Allowed decision then None else Some (AdmissionRetryAfter (qd_RetryAfter decision))
   end, w).

(** From the content type to the end of the reading: the key and the command, or
    the response. *)
Definition read_submission (server : Server) (request : http_request) (requestID : string) (s : body_reading) :
    result http_response (string * SubmitJobCommand) * body_reading :=
  let finished := finishBodyRead request s in
  let h := rd_Header finished in
  if negb (hasApplicationJSONContentType ParseMediaType (header_Values request "Content-Type")) then
    (Err (writeProblem h (problemFor 415 "unsupported-media-type" "Unsupported media type"
                            "Use Content-Type: application/json for judge job submissions." requestID)), finished)
  else
    match header_Values request "Idempotency-Key" with
    | [idempotencyKey] =>
        if negb (ValidateIdempotencyKey idempotencyKey) then
          (Err (writeProblem h (problemFor 400 "invalid-idempotency-key" "Invalid Idempotency-Key"
                                  "Provide 16 to 128 visible ASCII characters." requestID)), finished)
        else
          match decodeStrictJSON first_command request (maximumJobRequestBytes (cl_MaxSourceBytes (cap_Limits (sv_Capabilities server)))) with
          | Err DecodeTimeout =>
              (Err (writeProblem (<["Retry-After" := "1"]> (<["Connection" := "close"]> h))
                      (problemFor 408 "request-body-timeout" "Request body timeout"
                         "Retry the request with a complete JSON body before the read deadline." requestID)), finished)
          | Err DecodeInvalid =>
              (Err (writeProblem h (problemFor 400 "invalid-json" "Invalid request body"
                                      "Provide one JSON object containing only documented fields." requestID)), finished)
          | Ok command => (Ok (idempotencyKey, command), finished)
          end
    | _ =>
        (Err (writeProblem h (problemFor 400 "invalid-idempotency-key" "Invalid Idempotency-Key"
                                "Provide exactly one Idempotency-Key header." requestID)), finished)
    end.

Definition with_status_url (view : JobView) : JobView :=
  if bool_decide (jv_StatusURL view = "")
  then mkJobView (jv_JobID view) (jv_Status view) ("/api/v1/judge-jobs/" +:+ jv_JobID view) (jv_CreatedAt view)
         (jv_ClientReference view) (jv_FailureCode view) (jv_Result view)
  else view.

Definition submit_command (server : Server) (h : header) (requestID tenantID idempotencyKey : string) (command : SubmitJobCommand) (w : W) :
    http_response * W :=
  let '(out, w) := run_admitted (admit_submission server tenantID) None (service_Submit tenantID idempotencyKey command) w in
  (match out with
   | Err e => writeJobError h requestID (match e with ErrJobContext => ErrJobUnavailable | _ => e end)
   | Ok (view, replayed) =>
       let view := with_status_url view in
       let h := <["Location" := jv_StatusURL view]> h in
       writeJSON (if replayed : bool then <["Idempotent-Replay" := "true"]> h else h) 202 (BodyJob view)
   end, w).

Definition submit_refused (h : header) (kind title requestID : string) : http_response :=
  writeProblem (<["Retry-After" := "1"]> (closeUnreadRequestBody h))
    (problemFor 503 kind title "Retry the judge job submission later." requestID).

Definition handleJobSubmit (server : Server) (w : http_world W) (h : header) (request : http_request) (requestID : string) :
    http_response * http_world W :=
  match authenticate authenticator (hw_Services w) h request requestID ScopeJobSubmit with
  | Err response => (response, w)
  | Ok principal =>
      match hr_Deadline request with
      | DeadlineFailed =>
          (submit_refused h "submit-read-protection-unavailable" "Submit read protection unavailable" requestID, w)
      | _ =>
          if sv_JobBodyReaders server <=? hw_Readers w then
            (submit_refused h "submit-capacity-exhausted" "Submit capacity exhausted" requestID, w)
          else
            let '(out, s) := read_submission server request requestID (mkReading false h (hw_Readers w + 1)) in
            let '(response, services) :=
              match out with
              | Err response => (response, hw_Services w)
              | Ok (idempotencyKey, command) =>
                  submit_command server (rd_Header s) requestID (pr_TenantID principal) idempotencyKey command (hw_Services w)
              end in
            (response, mkHttpWorld services (rd_Readers (finishBodyRead request s)) (hw_Uploads w))
      end
  end.

(** ** Listing, reading and cancelling *)
Definition handleJobList (w : http_world W) (h : header) (request : http_request) (requestID : string) : http_response * http_world W :=
  (match authenticate authenticator (hw_Services w) h request requestID ScopeJobRead with
   | Err response => response
   | Ok principal =>
       match parseJobListQuery request with
       | None =>
           writeProblem h (problemFor 400 "invalid-list-query" "Invalid list query"
                             "Use only cursor, limit (1-100), and a documented status." requestID)
       | Some query =>
           match service_List (hw_Services w) (pr_TenantID principal) query with
           | Err ErrJobInvalid =>
               writeProblem h (problemFor 400 "invalid-list-query" "Invalid list query"
                                 "Use an untampered cursor issued for this tenant and status filter." requestID)
           | Err e => writeJobError h requestID e
           | Ok page => writeJSON h 200 (BodyJobs page)
           end
       end
   end, w).

Definition handleJobGet (w : http_world W) (h : header) (request : http_request) (requestID jobID : string) : http_response * http_world W :=
  (if negb (bool_decide (hr_Method request = "GET")) then methodNotAllowed h "GET" "Use GET to read a judge job." requestID
   else
     match authenticate authenticator (hw_Services w) h request requestID ScopeJobRead with
     | Err response => response
     | Ok principal =>
         match service_Get (hw_Services w) (pr_TenantID principal) jobID with
         | Err e => writeJobError h requestID e
         | Ok view => writeJSON h 200 (BodyJob view)
         end
     end, w).

Definition handleJobCancel (w : http_world W) (h : header) (request : http_request) (requestID jobID : string) : http_response * http_world W :=
  if negb (bool_decide (hr_Method request = "POST")) then (methodNotAllowed h "POST" "Use POST to cancel a judge job." requestID, w)
  else
    match authenticate authenticator (hw_Services w) h request requestID ScopeJobCancel with
    | Err response => (response, w)
    | Ok principal =>
        let '(out, services) := service_Cancel (hw_Services w) (pr_TenantID principal) jobID in
        (match out with
         | Err e => writeJobError h requestID e
         | Ok view => writeJSON h 200 (BodyJob view)
         end, set_services w services)
    end.

Definition handleJobCollection (server : Server) (w : http_world W) (h : header) (request : http_request) (requestID : string) :
    http_response * http_world W :=
  if bool_decide (hr_Method request = "POST") then handleJobSubmit server w h request requestID
  else if bool_decide (hr_Method request = "GET") then handleJobList w h request requestID
  else (methodNotAllowed h "GET, POST" "Use POST to submit a judge job." requestID, w).

(** [TrimPrefix] *)
Definition trim_prefix (prefix s : string) : string := if has_prefix prefix s then sdrop (String.length prefix) s else s.

Definition handleJobs (server : Server) (w : http_world W) (h : header) (request : http_request) (requestID : string) :
    http_response * http_world W :=
  if bool_decide (hr_Path request = "/api/v1/judge-jobs") then handleJobCollection server w h request requestID
  else
    let missing := (notFound h "The requested judge job does not exist." requestID, w) in
    match split_on 47 (trim_prefix "/api/v1/judge-jobs/" (hr_Path request)) with
    | [jobID] => if externalIDPattern jobID then handleJobGet w h request requestID jobID else missing
    | [jobID; operation] =>
        if bool_decide (operation = "cancel") && externalIDPattern jobID then handleJobCancel w h request requestID jobID else missing
    | _ => missing
    end.
End Jobs.
