(* ===== verification/HttpBundles.v ===== *)
(** * Bundles over HTTP, and the routing of requests

    [internal/httpapi/bundles.go] and [ServeHTTP] of [server.go]. *)
From stdpp Require Import prelude gmap strings pretty.
From S2P Require Import Prelude.
From S2P Require Import GoText.
From S2P Require Import HttpServer.
From S2P Require Import Manifest.
From S2P Require Import Bundles.
From S2P Require Import Submission.
From S2P Require Import SubmissionEvents.
From S2P Require Import Credentials.
From S2P Require Import ApiQuota.
From S2P Require Import HttpJobs.

Open Scope Z_scope.

(** ** The uploaded file *)
Inductive source_end : Type :=
| SourceEOF
| SourceTooLarge
| SourceUnexpectedPart
| SourceFailed.

Record upload_source : Type := mkSource {
  us_Data : string;
  us_End : source_end
}.

(** [singleMultipartFile]: the bytes of the part, whose end is that of the file only
    when no part follows. *)
Definition singleMultipartFile (part : multipart_part) : upload_source :=
  mkSource (mp_Data part)
    (match mp_End part with
     | PartEnds => if mp_Last part then SourceEOF else SourceUnexpectedPart
     | PartTooLarge => SourceTooLarge
     | PartFails => SourceFailed
     end).

(** ** The application *)
Inductive upload_error : Type :=
| UploadFailed (e : bundle_error)
| UploadSourceFailed (e : source_end)
| UploadAdmission (e : admission_error)
| UploadLimitUnavailable.

Class BundleApplication (W : Type) : Type := {
  application_Upload : string → string → upload_source → admitted W Z upload_error (BundleMetadata * bool);
  application_Get : W → string → string → result bundle_error BundleMetadata
}.

(** ** [writeBundleProblem] *)
(** The header a case sets and its problem; the status 503 asks for a retry. *)
Definition bundle_problem (requestID : string) (e : upload_error) : option string * Problem :=
  let invalid := (None, problemFor 400 "invalid-bundle" "Invalid bundle upload"
                          "Provide one valid immutable bundle ZIP and an Idempotency-Key." requestID) in
  let too_large := (None, problemFor 413 "bundle-too-large" "Bundle too large" "The bundle exceeds the configured upload limit." requestID) in
  let unavailable := (None, problemFor 503 "bundle-unavailable" "Bundle service unavailable"
                              "The bundle operation could not be completed." requestID) in
  match e with
  | UploadAdmission AdmissionUnavailable =>
      (Some "5", problemFor 503 "quota-unavailable" "Quota temporarily unavailable" "Retry the request later." requestID)
  | UploadAdmission (AdmissionRetryAfter delay) =>
      (Some (pretty (retry_seconds delay)), problemFor 429 "quota-exceeded" "Quota exceeded" "Retry after the indicated delay." requestID)
  | UploadFailed ErrBundleTooLarge | UploadSourceFailed SourceTooLarge => too_large
  | UploadFailed ErrInvalidBundle | UploadFailed ErrInvalidIdempotency | UploadSourceFailed SourceUnexpectedPart => invalid
  | UploadFailed ErrIdempotencyConflict =>
      (None, problemFor 409 "idempotency-conflict" "Idempotency conflict"
               "The Idempotency-Key was already used for different content." requestID)
  | UploadFailed ErrBundleNotFound =>
      (None, problemFor 404 "not-found" "Resource not found" "The requested API resource does not exist." requestID)
  | UploadFailed ErrBundlePublishing =>
      (Some "2", problemFor 503 "bundle-publishing" "Bundle publication in progress" "Retry this idempotent upload later." requestID)
  | _ => unavailable
  end.

Definition writeBundleProblem (h : header) (requestID : string) (e : upload_error) : http_response :=
  let '(retry, problem) := bundle_problem requestID e in
  let h := match retry with Some seconds => <["Retry-After" := seconds]> h | None => h end in
  writeProblem (if (pm_Status problem =? 503) && bool_decide (default "" (h !! "Retry-After") = "")
                then <["Retry-After" := "5"]> h else h) problem.

(** ** The handlers *)
Definition multipartEnvelopeBytes : Z := 1048576.

Section Bundles.
Context {W : Type} `{BundleApplication W}.
Context (authenticator : W → string → result auth_error Principal) (quota_Allow : QuotaRequest → W → result quota_error QuotaDecision * W).

(** The closure given to [UploadWithAdmission]. *)
Definition admit_upload (server : Server) (tenantID : string) (actualBytes : Z) (w : W) : option admission_error * W :=
  let '(out, w) := quota_Allow (mkQuotaRequest tenantID QuotaBundleUploadBytes actualBytes
                                  (default (mkQuotaLimit 0 0) (sv_BundleWriteLimit server))) w in
  (match out with
   | Err ErrQuotaUnavailable => Some AdmissionUnavailable
   | Err _ => Some AdmissionFailed
   | Ok decision => if qd_Allowed decision then None else Some (AdmissionRetryAfter (qd_RetryAfter decision))
   end, w).

(** From the limit of the request to the response, while the upload has its slot. *)
Definition upload_bundle (server : Server) (w : W) (h : header) (request : http_request) (requestID tenantID idempotencyKey : string) :
    http_response * W :=
  let maxBundleBytes := cl_MaxBundleBytes (cap_Limits (sv_Capabilities server)) in
  if (maxBundleBytes <=? 0) || (max_int64 - multipartEnvelopeBytes <? maxBundleBytes)
  then (writeBundleProblem h requestID UploadLimitUnavailable, w)
  else
    let maximumRequestBytes := maxBundleBytes + multipartEnvelopeBytes in
    if maximumRequestBytes <? hr_ContentLength request then (writeBundleProblem h requestID (UploadFailed ErrBundleTooLarge), w)
    else
      match hr_Part request maximumRequestBytes with
      | None => (writeBundleProblem h requestID (UploadFailed ErrInvalidBundle), w)
      | Some part =>
          if negb (bool_decide (mp_FormName part = "bundle")) || bool_decide (mp_FileName part = "")
          then (writeBundleProblem h requestID (UploadFailed ErrInvalidBundle), w)
          else
            let '(out, w) := run_asking (admit_upload server tenantID) (application_Upload tenantID idempotencyKey (singleMultipartFile part)) w in
            (match out with
             | Err e => writeBundleProblem h requestID e
             | Ok (metadata, replay) =>
                 writeJSON (<["Location" := "/api/v1/bundles/" +:+ bm_BundleID metadata]> h) (if replay : bool then 200 else 201)
                   (BodyBundle metadata)
             end, w)
      end.

Definition serveBundleCollection (server : Server) (w : http_world W) (h : header) (request : http_request) (requestID : string) :
    http_response * http_world W :=
  if negb (sv_Bundles server) then (notFound h "The requested API resource does not exist." requestID, w)
  else if negb (bool_decide (hr_Method request = "POST")) then (methodNotAllowed h "POST" "Use POST for this resource." requestID, w)
  else
    match authenticate authenticator (hw_Services w) h request requestID ScopeBundleWrite with
    | Err response => (response, w)
    | Ok principal =>
        match header_Values request "Idempotency-Key" with
        | [idempotencyKey] =>
            if negb (bool_decide (hr_RawQuery request = "")) || bool_decide (idempotencyKey = "")
            then (writeBundleProblem h requestID (UploadFailed ErrInvalidIdempotency), w)
            else if default 0 (sv_BundleUploads server) <=? hw_Uploads w then
              (writeProblem (<["Retry-After" := "1"]> h)
                 (problemFor 503 "upload-capacity-exhausted" "Upload capacity exhausted" "Retry the bundle upload later." requestID), w)
            else
              let uploads := hw_Uploads w + 1 in
              let '(response, services) :=
                upload_bundle server (hw_Services w) h request requestID (pr_TenantID principal) idempotencyKey in
              (response, mkHttpWorld services (hw_Readers w) (uploads - 1))
        | _ => (writeBundleProblem h requestID (UploadFailed ErrInvalidIdempotency), w)
        end
    end.

Definition serveBundleMetadata (server : Server) (w : http_world W) (h : header) (request : http_request) (requestID : string) :
    http_response * http_world W :=
  (if negb (sv_Bundles server) then notFound h "The requested API resource does not exist." requestID
   else if negb (bool_decide (hr_Method request = "GET")) then methodNotAllowed h "GET" "Use GET for this resource." requestID
   else
     match authenticate authenticator (hw_Services w) h request requestID ScopeBundleRead with
     | Err response => response
     | Ok principal =>
         let bundleID := trim_prefix "/api/v1/bundles/" (hr_Path request) in
         if bool_decide (bundleID = "") || contains_byte 47 bundleID || negb (bool_decide (hr_RawQuery request = ""))
         then writeBundleProblem h requestID (UploadFailed ErrBundleNotFound)
         else
           match application_Get (hw_Services w) (pr_TenantID principal) bundleID with
           | Err e => writeBundleProblem h requestID (UploadFailed e)
           | Ok metadata => writeJSON h 200 (BodyBundle metadata)
           end
     end, w).

Context `{JobService W} (first_command : string → first_json SubmitJobCommand)
        (ParseMediaType : string → option (string * list (string * string))).

Definition ServeHTTP (server : Server) (w : http_world W) (request : http_request) (requestID : string) : http_response * http_world W :=
  let h : header := {["X-Request-Id" := requestID]} in
  let path := hr_Path request in
  if bool_decide (path = "/api/v1/capabilities") then handleCapabilities authenticator server w h request requestID
  else if sv_Bundles server && bool_decide (path = "/api/v1/bundles") then serveBundleCollection server w h request requestID
  else if sv_Bundles server && has_prefix "/api/v1/bundles/" path then serveBundleMetadata server w h request requestID
  else if sv_Jobs server && (bool_decide (path = "/api/v1/judge-jobs") || has_prefix "/api/v1/judge-jobs/" path)
  then handleJobs authenticator quota_Allow first_command ParseMediaType server w h request requestID
  else (notFound h "The requested API resource does not exist." requestID, w).
End Bundles.
