(* ===== verification/HttpSafety.v ===== *)
(** * The HTTP layer keeps tenants apart

    A request acts on the services, and is answered from them, only for the principal
    its credentials name and within the scopes of its key; the slots it takes are given
    back; an admission is asked once; every refusal carries the headers its status
    asks for.

    The second part is what every response carries. *)
From stdpp Require Import prelude gmap strings pretty.
From S2P Require Import Prelude.
From S2P Require Import GoText.
From S2P Require Import JobState.
From S2P Require Import Manifest.
From S2P Require Import Bundles.
From S2P Require Import Store.
From S2P Require Import Submission.
From S2P Require Import Credentials.
From S2P Require Import ApiQuota.
From S2P Require Import HttpServer.
From S2P Require Import HttpJobs.
From S2P Require Import HttpBundles.
From S2P Require Import BatchPipeline.
From S2P Require Import JobRepository.

Open Scope Z_scope.

(** ** The credential of a request *)
Definition request_credential (request : http_request) : option string :=
  match header_Values request "Authorization" with
  | [] => Some ""
  | [value] => if has_comma value then None else Some value
  | _ => None
  end.

Section Requests.
Context {W : Type} `{JobService W} `{BundleApplication W}.
Context (authenticator : W → string → result auth_error Principal) (quota_Allow : QuotaRequest → W → result quota_error QuotaDecision * W).
Context (first_command : string → first_json SubmitJobCommand) (ParseMediaType : string → option (string * list (string * string))).
Local Notation ServeHTTP := (ServeHTTP authenticator quota_Allow first_command ParseMediaType).

Definition authorised (w : W) (request : http_request) (scope : Scope) (principal : Principal) : Prop :=
  ∃ credential, request_credential request = Some credential ∧ authenticator w credential = Ok principal ∧ scope ∈ pr_Scopes principal.

Lemma authenticate_ok w h request requestID scope principal :
  authenticate authenticator w h request requestID scope = Ok principal → authorised w request scope principal.
Proof.
  unfold authenticate, authorised, request_credential, principal_Has.
  destruct (header_Values request "Authorization") as [|value [|? ?]]; [| |discriminate]; cbn [head default from_option id]; unfold id.
  - destruct (authenticator w "") as [p|[]] eqn:Ha; try discriminate. case_bool_decide; [|discriminate]. intros [= ->]. eauto.
  - destruct (has_comma value); [discriminate|]. destruct (authenticator w value) as [p|[]] eqn:Ha; try discriminate.
    case_bool_decide; [|discriminate]. intros [= ->]. eauto.
Qed.

Lemma authenticate_err w h request requestID scope response :
  authenticate authenticator w h request requestID scope = Err response → ∃ problem, rp_Body response = BodyProblem problem.
Proof.
  unfold authenticate, unauthorized, writeProblem. intros Ha.
  repeat (case_match; simplify_eq; try (eexists; reflexivity)).
Qed.

(** ** What a request does and shows *)
Definition submission_run (server : Server) (tenantID key : string) (command : SubmitJobCommand) (w : W) : result job_error (JobView * bool) * W :=
  run_admitted (admit_submission quota_Allow server tenantID) None (service_Submit tenantID key command) w.

Definition upload_run (server : Server) (tenantID key : string) (part : multipart_part) (w : W) :
    result upload_error (BundleMetadata * bool) * W :=
  run_asking (admit_upload quota_Allow server tenantID) (application_Upload tenantID key (singleMultipartFile part)) w.

(** The path under which jobs are submitted and listed. *)
Definition job_collection : string := "/api/v1/judge-jobs".

(** The operations on the services: the job requests that make them, the scope each
    needs, what it does to them and what it shows. *)
Inductive operation (server : Server) (request : http_request) (tenantID : string) (w : W) : Scope → W → response_body → Prop :=
| op_capabilities :
    operation server request tenantID w ScopeCapabilitiesRead w (BodyCapabilities (sv_Capabilities server))
| op_submit key command out w' body :
    hr_Method request = "POST" → hr_Path request = job_collection →
    header_Values request "Idempotency-Key" = [key] → ValidateIdempotencyKey key = true →
    decodeStrictJSON first_command request (maximumJobRequestBytes (cl_MaxSourceBytes (cap_Limits (sv_Capabilities server)))) = Ok command →
    submission_run server tenantID key command w = (out, w') →
    (match out with Ok (view, _) => body = BodyJob (with_status_url view) | Err _ => ∃ problem, body = BodyProblem problem end) →
    operation server request tenantID w ScopeJobSubmit w' body
| op_list query page :
    hr_Method request = "GET" → hr_Path request = job_collection →
    parseJobListQuery request = Some query → service_List w tenantID query = Ok page →
    operation server request tenantID w ScopeJobRead w (BodyJobs page)
| op_get jobID view :
    hr_Method request = "GET" → hr_Path request ≠ job_collection →
    service_Get w tenantID jobID = Ok view → operation server request tenantID w ScopeJobRead w (BodyJob view)
| op_cancel jobID out w' body :
    hr_Method request = "POST" → hr_Path request ≠ job_collection →
    service_Cancel w tenantID jobID = (out, w') →
    (match out with Ok view => body = BodyJob view | Err _ => ∃ problem, body = BodyProblem problem end) →
    operation server request tenantID w ScopeJobCancel w' body
| op_upload key part out w' body :
    header_Values request "Idempotency-Key" = [key] → mp_FormName part = "bundle" →
    upload_run server tenantID key part w = (out, w') →
    (match out with Ok (metadata, _) => body = BodyBundle metadata | Err _ => ∃ problem, body = BodyProblem problem end) →
    operation server request tenantID w ScopeBundleWrite w' body
| op_metadata bundleID metadata :
    application_Get w tenantID bundleID = Ok metadata → operation server request tenantID w ScopeBundleRead w (BodyBundle metadata).

(** A request that is refused changes nothing and shows a problem; one that is served
    is an operation for its principal. *)
Definition answered (server : Server) (request : http_request) (w w' : W) (body : response_body) : Prop :=
  (w' = w ∧ ∃ problem, body = BodyProblem problem) ∨
  (∃ scope principal, authorised w request scope principal ∧ operation server request (pr_TenantID principal) w scope w' body).

Definition answers (server : Server) (request : http_request) (w : http_world W) (r : http_response * http_world W) : Prop :=
  answered server request (hw_Services w) (hw_Services r.2) (rp_Body r.1) ∧ hw_Readers r.2 = hw_Readers w ∧ hw_Uploads r.2 = hw_Uploads w.

Lemma answers_problem server request w response :
  (∃ problem, rp_Body response = BodyProblem problem) → answers server request w (response, w).
Proof. intros Hp. split; [by left|done]. Qed.

Lemma writeProblem_body h problem : ∃ p, rp_Body (writeProblem h problem) = BodyProblem p.
Proof. by eexists. Qed.

Lemma writeBundleProblem_body h requestID e : ∃ p, rp_Body (writeBundleProblem h requestID e) = BodyProblem p.
Proof. unfold writeBundleProblem. destruct (bundle_problem requestID e). by eexists. Qed.

Lemma writeJobError_body h requestID e : ∃ p, rp_Body (writeJobError h requestID e) = BodyProblem p.
Proof. destruct e as [| | | | | |[]]; by eexists. Qed.

#[local] Hint Resolve answers_problem writeProblem_body writeBundleProblem_body writeJobError_body authenticate_err : http.

Lemma served server request w scope principal w' body :
  authorised w request scope principal → operation server request (pr_TenantID principal) w scope w' body →
  answered server request w w' body.
Proof. right. eauto. Qed.

Lemma handleCapabilities_answers server w h request requestID :
  answers server request w (handleCapabilities authenticator server w h request requestID).
Proof.
  unfold handleCapabilities, methodNotAllowed. case_match; [eauto with http|].
  destruct (authenticate _ _ _ _ _ _) as [principal|response] eqn:Ha; [|eauto with http].
  split; [|done]. eapply served; [by eapply authenticate_ok|constructor].
Qed.

Lemma read_submission_spec server request requestID s out s' :
  read_submission first_command ParseMediaType server request requestID s = (out, s') →
  s' = finishBodyRead request s ∧
  match out with
  | Err response => ∃ problem, rp_Body response = BodyProblem problem
  | Ok (key, command) =>
      header_Values request "Idempotency-Key" = [key] ∧ ValidateIdempotencyKey key = true ∧
      decodeStrictJSON first_command request (maximumJobRequestBytes (cl_MaxSourceBytes (cap_Limits (sv_Capabilities server)))) = Ok command
  end.
Proof.
  unfold read_submission. intros Hr.
  destruct (negb (hasApplicationJSONContentType _ _)); [injection Hr as <- <-; eauto with http|].
  destruct (header_Values request "Idempotency-Key") as [|key [|? ?]]; [injection Hr as <- <-; eauto with http| |injection Hr as <- <-; eauto with http].
  destruct (negb (ValidateIdempotencyKey key)) eqn:Hk; [injection Hr as <- <-; eauto with http|]. apply negb_false_iff in Hk.
  destruct (decodeStrictJSON _ _ _) as [command|[]]; injection Hr as <- <-; eauto with http.
Qed.

Lemma finishBodyRead_once request s : finishBodyRead request (finishBodyRead request s) = finishBodyRead request s.
Proof. unfold finishBodyRead. by destruct (rd_Finished s) eqn:Hf; rewrite ?Hf. Qed.

Lemma reading_over request h readers :
  rd_Readers (finishBodyRead request (finishBodyRead request (mkReading false h (readers + 1)))) = readers.
Proof. rewrite finishBodyRead_once. unfold finishBodyRead. cbn. lia. Qed.

Lemma submit_command_answers server h request requestID w principal key command :
  hr_Method request = "POST" → hr_Path request = job_collection → authorised w request ScopeJobSubmit principal →
  header_Values request "Idempotency-Key" = [key] → ValidateIdempotencyKey key = true →
  decodeStrictJSON first_command request (maximumJobRequestBytes (cl_MaxSourceBytes (cap_Limits (sv_Capabilities server)))) = Ok command →
  let '(response, w') := submit_command quota_Allow server h requestID (pr_TenantID principal) key command w in
  answered server request w w' (rp_Body response).
Proof.
  intros Hpost Hpath Ha Hkey Hvalid Hdecode. unfold submit_command. destruct (run_admitted _ _ _ _) as [out services] eqn:Hrun.
  eapply served; [exact Ha|]. eapply op_submit; [done..|exact Hrun|].
  destruct out as [[view replayed]|e]; [done|apply writeJobError_body].
Qed.

Lemma handleJobSubmit_answers server w h request requestID :
  hr_Method request = "POST" → hr_Path request = job_collection → answers server request w (handleJobSubmit authenticator quota_Allow first_command ParseMediaType server w h request requestID).
Proof.
  intros Hpost Hpath. unfold handleJobSubmit, submit_refused. destruct (authenticate _ _ _ _ _ _) as [principal|response] eqn:Ha; [|eauto with http].
  apply authenticate_ok in Ha.
  assert (Hread : answers server request w
    (let '(out, s) := read_submission first_command ParseMediaType server request requestID (mkReading false h (hw_Readers w + 1)) in
     let '(response, services) :=
       match out with
       | Err response => (response, hw_Services w)
       | Ok (idempotencyKey, command) =>
           submit_command quota_Allow server (rd_Header s) requestID (pr_TenantID principal) idempotencyKey command (hw_Services w)
       end in
     (response, mkHttpWorld services (rd_Readers (finishBodyRead request s)) (hw_Uploads w)))).
  { destruct (read_submission _ _ _ _ _ _) as [out s] eqn:Hr. apply read_submission_spec in Hr as [-> Hout].
    destruct out as [[key command]|response].
    - destruct Hout as (Hkey & Hvalid & Hdecode).
      pose proof (submit_command_answers server (rd_Header (finishBodyRead request (mkReading false h (hw_Readers w + 1)))) request requestID
                    _ _ _ _ Hpost Hpath Ha Hkey Hvalid Hdecode) as Hanswer.
      destruct (submit_command _ _ _ _ _ _ _ _) as [response services]. split; [exact Hanswer|].
      split; [apply reading_over|done].
    - split; [by left|]. split; [apply reading_over|done]. }
  destruct (hr_Deadline request); [| |by eauto with http]; (destruct (sv_JobBodyReaders server <=? hw_Readers w); [by eauto with http|exact Hread]).
Qed.

Lemma handleJobList_answers server w h request requestID :
  hr_Method request = "GET" → hr_Path request = job_collection →
  answers server request w (handleJobList authenticator w h request requestID).
Proof.
  intros Hget Hpath. unfold handleJobList. destruct (authenticate _ _ _ _ _ _) as [principal|response] eqn:Ha; [|eauto with http].
  destruct (parseJobListQuery request) as [query|] eqn:Hq; [|eauto with http].
  destruct (service_List _ _ _) as [page|e] eqn:Hl; [|by destruct e; eauto with http].
  split; [|done]. eapply served; [by eapply authenticate_ok|by econstructor].
Qed.

Lemma handleJobGet_answers server w h request requestID jobID :
  hr_Path request ≠ job_collection → answers server request w (handleJobGet authenticator w h request requestID jobID).
Proof.
  intros Hpath. unfold handleJobGet, methodNotAllowed.
  destruct (bool_decide_reflect (hr_Method request = "GET")) as [Hget|]; cbn [negb]; [|by eauto with http].
  destruct (authenticate _ _ _ _ _ _) as [principal|response] eqn:Ha; [|eauto with http].
  destruct (service_Get _ _ _) as [view|e] eqn:Hl; [|eauto with http].
  split; [|done]. eapply served; [by eapply authenticate_ok|by econstructor].
Qed.

Lemma handleJobCancel_answers server w h request requestID jobID :
  hr_Path request ≠ job_collection → answers server request w (handleJobCancel authenticator w h request requestID jobID).
Proof.
  intros Hpath. unfold handleJobCancel, methodNotAllowed.
  destruct (bool_decide_reflect (hr_Method request = "POST")) as [Hpost|]; cbn [negb]; [|by eauto with http].
  destruct (authenticate _ _ _ _ _ _) as [principal|response] eqn:Ha; [|eauto with http].
  destruct (service_Cancel _ _ _) as [out services] eqn:Hc. split; [|done].
  eapply served; [by eapply authenticate_ok|]. cbn [fst snd hw_Services set_services].
  eapply op_cancel; [done..|exact Hc|]. destruct out as [view|e]; [done|apply writeJobError_body].
Qed.

Lemma handleJobs_answers server w h request requestID :
  answers server request w (handleJobs authenticator quota_Allow first_command ParseMediaType server w h request requestID).
Proof.
  unfold handleJobs, handleJobCollection, notFound, methodNotAllowed.
  destruct (bool_decide_reflect (hr_Path request = "/api/v1/judge-jobs")) as [Hpath|Hpath];
    [|repeat case_match; eauto using handleJobGet_answers, handleJobCancel_answers with http].
  destruct (bool_decide_reflect (hr_Method request = "POST")); [by apply handleJobSubmit_answers|].
  destruct (bool_decide_reflect (hr_Method request = "GET")); [by apply handleJobList_answers|eauto with http].
Qed.

Lemma serveBundleCollection_answers server w h request requestID :
  answers server request w (serveBundleCollection authenticator quota_Allow server w h request requestID).
Proof.
  unfold serveBundleCollection, notFound, methodNotAllowed. case_match; [eauto with http|]. case_match; [eauto with http|].
  destruct (authenticate _ _ _ _ _ _) as [principal|response] eqn:Ha; [|eauto with http]. apply authenticate_ok in Ha.
  destruct (header_Values request "Idempotency-Key") as [|key [|? ?]] eqn:Hkey; [eauto with http| |eauto with http].
  case_match; [eauto with http|]. case_match; [eauto with http|].
  destruct (upload_bundle _ _ _ _ _ _ _ _) as [response services] eqn:Hup.
  split; [|simpl; split; [done|lia]]. cbn [fst snd hw_Services].
  assert (Hrefused : ∀ e, (writeBundleProblem h requestID e, hw_Services w) = (response, services) →
    answered server request (hw_Services w) services (rp_Body response)).
  { intros e [= <- <-]. left. split; [done|apply writeBundleProblem_body]. }
  unfold upload_bundle in Hup. case_match; [eauto|]. case_match; [eauto|].
  destruct (hr_Part request _) as [part|]; [|eauto].
  destruct (negb (bool_decide (mp_FormName part = "bundle")) || bool_decide (mp_FileName part = "")) eqn:Hpart; [eauto|].
  apply orb_false_iff in Hpart as [Hname _]. apply negb_false_iff, bool_decide_eq_true in Hname.
  destruct (run_asking _ _ _) as [out services'] eqn:Hrun. eapply served; [exact Ha|]. injection Hup as <- <-.
  eapply op_upload; [done..|exact Hrun|]. destruct out as [[metadata replay]|e]; [done|apply writeBundleProblem_body].
Qed.

Lemma serveBundleMetadata_answers server w h request requestID :
  answers server request w (serveBundleMetadata authenticator server w h request requestID).
Proof.
  unfold serveBundleMetadata, notFound, methodNotAllowed. case_match; [eauto with http|]. case_match; [eauto with http|].
  destruct (authenticate _ _ _ _ _ _) as [principal|response] eqn:Ha; [|eauto with http].
  case_match; [eauto with http|]. destruct (application_Get _ _ _) as [metadata|e] eqn:Hg; [|eauto with http].
  split; [|done]. eapply served; [by eapply authenticate_ok|by econstructor].
Qed.

Lemma ServeHTTP_answers server w request requestID : answers server request w (ServeHTTP server w request requestID).
Proof.
  unfold HttpBundles.ServeHTTP, notFound.
  repeat (case_match; [eauto using handleCapabilities_answers, serveBundleCollection_answers, serveBundleMetadata_answers,
                         handleJobs_answers with http|]).
  eauto with http.
Qed.

(** C23: A request acts only for the tenant its credential names. Whatever the services,
    the quota and the authenticator do, the answer to a request is a problem that
    changes nothing, or one operation of the services for the tenant of the principal
    the authenticator made of the single Authorization value, a principal that holds
    the scope of that operation: the services end as that operation leaves them and
    the body shows only what it returned. The slots of the body readers and of the
    uploads are as many after the request as before, on every path. *)
Theorem requests_act_for_their_principal (server : Server) (w : http_world W) (request : http_request) (requestID : string) :
  let '(response, w') := ServeHTTP server w request requestID in
  answered server request (hw_Services w) (hw_Services w') (rp_Body response) ∧
  hw_Readers w' = hw_Readers w ∧ hw_Uploads w' = hw_Uploads w.
Proof. pose proof (ServeHTTP_answers server w request requestID) as Hok. by destruct (ServeHTTP _ _ _ _). Qed.
End Requests.

(** * The responses of the HTTP layer

    Every response repeats the request id and forbids caching, and every refusal
    carries the header its status asks for; the body of a job request has room for
    every job the limits allow; an admission is asked once. *)
(** ** Well-formed responses *)
Definition has_header (h : header) (name : string) : Prop := ∃ value, h !! name = Some value ∧ value ≠ "".

Definition problem_ok (h : header) (status : Z) : Prop :=
  400 ≤ status ≤ 599 ∧ (status = 401 → has_header h "WWW-Authenticate") ∧ (status = 405 → has_header h "Allow") ∧
  (status = 429 ∨ status = 503 → has_header h "Retry-After").

Definition response_ok (requestID : string) (r : http_response) : Prop :=
  rp_Header r !! "X-Request-Id" = Some requestID ∧ rp_Header r !! "Cache-Control" = Some "no-store" ∧
  match rp_Body r with
  | BodyProblem problem =>
      rp_Header r !! "Content-Type" = Some "application/problem+json" ∧ pm_Status problem = rp_Status r ∧
      pm_RequestID problem = requestID ∧ problem_ok (rp_Header r) (rp_Status r)
  | _ =>
      rp_Header r !! "Content-Type" = Some "application/json" ∧
      (rp_Status r = 200 ∨ (rp_Status r = 201 ∨ rp_Status r = 202) ∧ has_header (rp_Header r) "Location")
  end.

Lemma has_header_insert h name value other :
  value ≠ "" → has_header h name ∨ other = name → has_header (<[other := value]> h) name.
Proof.
  intros Hv Hh. destruct (decide (other = name)) as [->|Hn]; [exists value; by rewrite lookup_insert_eq|].
  destruct Hh as [(v & Hl & Hv')|]; [|done]. exists v. by rewrite lookup_insert_ne.
Qed.

Lemma writeProblem_ok h status kind title detail requestID :
  h !! "X-Request-Id" = Some requestID → problem_ok h status →
  response_ok requestID (writeProblem h (problemFor status kind title detail requestID)).
Proof.
  intros Hid (Hr & H401 & H405 & Hretry). unfold response_ok, writeProblem, no_store. cbn [rp_Header rp_Body rp_Status pm_Status problemFor].
  rewrite !lookup_insert_ne by done. split; [exact Hid|]. split; [by rewrite lookup_insert_eq|]. split; [by rewrite lookup_insert_eq|].
  split; [done|]. split; [done|]. unfold problem_ok.
  split; [done|]. repeat split; intros Hs; (apply has_header_insert; [done|left]); (apply has_header_insert; [done|left]); eauto.
Qed.

Lemma writeJSON_ok h status body requestID :
  h !! "X-Request-Id" = Some requestID → (∀ problem, body ≠ BodyProblem problem) →
  status = 200 ∨ (status = 201 ∨ status = 202) ∧ has_header h "Location" →
  response_ok requestID (writeJSON h status body).
Proof.
  intros Hid Hbody Hs. unfold response_ok, writeJSON, no_store. cbn [rp_Header rp_Body rp_Status].
  rewrite !lookup_insert_ne by done. split; [exact Hid|]. split; [by rewrite lookup_insert_eq|].
  assert (Hj : (<["Content-Type":="application/json"]> (<["Cache-Control":="no-store"]> h) : header) !! "Content-Type" = Some "application/json")
    by apply lookup_insert_eq.
  assert (Hl : status = 200 ∨ (status = 201 ∨ status = 202) ∧
               has_header (<["Content-Type":="application/json"]> (<["Cache-Control":="no-store"]> h)) "Location").
  { destruct Hs as [|[? ?]]; [by left|right]. split; [done|]. by do 2 (apply has_header_insert; [done|left]). }
  destruct body; [by edestruct Hbody|..]; by split.
Qed.

(** A problem with a header set for it: the header is the one of the status. *)
Ltac problem_ok :=
  apply writeProblem_ok;
  [by rewrite ?lookup_insert_ne
  |split; [lia|]; repeat split; intros Hstatus; try lia;
   repeat (apply has_header_insert; [first [done|apply pretty_Z_nonempty]|auto; try left])].

Lemma methodNotAllowed_ok h allow detail requestID :
  h !! "X-Request-Id" = Some requestID → allow ≠ "" → response_ok requestID (methodNotAllowed h allow detail requestID).
Proof. intros Hid Ha. unfold methodNotAllowed. problem_ok. Qed.

Lemma notFound_ok h detail requestID : h !! "X-Request-Id" = Some requestID → response_ok requestID (notFound h detail requestID).
Proof. intros Hid. unfold notFound. problem_ok. Qed.

Lemma writeJobError_ok h requestID e : h !! "X-Request-Id" = Some requestID → response_ok requestID (writeJobError h requestID e).
Proof. intros Hid. destruct e as [| | | | | |[]]; cbn [writeJobError]; problem_ok. Qed.

Lemma bundle_problem_ok requestID e :
  let '(retry, problem) := bundle_problem requestID e in
  ∃ status kind title detail, problem = problemFor status kind title detail requestID ∧ 400 ≤ status ≤ 599 ∧ status ≠ 401 ∧ status ≠ 405 ∧
    (status = 429 → is_Some retry) ∧ (∀ seconds, retry = Some seconds → seconds ≠ "").
Proof.
  destruct e as [[]|[]|[]|]; cbn; do 4 eexists; (split; [reflexivity|]); repeat split; try lia; try done;
    intros ? [= <-]; solve [done|apply pretty_Z_nonempty].
Qed.

Lemma writeBundleProblem_ok h requestID e :
  h !! "X-Request-Id" = Some requestID → h !! "Retry-After" = None → response_ok requestID (writeBundleProblem h requestID e).
Proof.
  intros Hid Hnone. unfold writeBundleProblem. pose proof (bundle_problem_ok requestID e) as Hp.
  destruct (bundle_problem requestID e) as [retry problem]. destruct Hp as (status & kind & title & detail & -> & Hr & H401 & H405 & H429 & Hs).
  cbn [pm_Status problemFor]. apply writeProblem_ok.
  - destruct retry; case_match; by rewrite ?lookup_insert_ne by done.
  - split; [done|]. split; [lia|]. split; [lia|]. intros Hstatus. destruct retry as [seconds|].
    + specialize (Hs _ eq_refl). rewrite lookup_insert_eq. cbn [default from_option id]. unfold id. rewrite (bool_decide_eq_false_2 _ Hs), andb_false_r.
      apply has_header_insert; [done|by right].
    + destruct Hstatus as [Hstatus|Hstatus]; [by destruct (H429 Hstatus)|]. rewrite Hnone, Hstatus. cbn. apply has_header_insert; [done|by right].
Qed.

Section Responses.
Context {W : Type} `{JobService W} `{BundleApplication W}.
Context (authenticator : W → string → result auth_error Principal) (quota_Allow : QuotaRequest → W → result quota_error QuotaDecision * W).
Context (first_command : string → first_json SubmitJobCommand) (ParseMediaType : string → option (string * list (string * string))).

Lemma authenticate_response w h request requestID scope response :
  h !! "X-Request-Id" = Some requestID → authenticate authenticator w h request requestID scope = Err response →
  response_ok requestID response.
Proof.
  intros Hid. unfold authenticate, unauthorized. intros Ha.
  repeat (case_match; simplify_eq; try (problem_ok; fail)).
Qed.

#[local] Hint Resolve methodNotAllowed_ok notFound_ok writeJobError_ok writeBundleProblem_ok authenticate_response : http.
#[local] Hint Extern 1 (_ ≠ _) => done : http.
#[local] Hint Extern 0 (response_ok _ (_, _).1) => progress cbn [fst] : http.

Lemma finishBodyRead_id request s requestID :
  rd_Header s !! "X-Request-Id" = Some requestID → rd_Header (finishBodyRead request s) !! "X-Request-Id" = Some requestID.
Proof.
  intros Hid. unfold finishBodyRead, closeUnreadRequestBody. repeat case_match; cbn [rd_Header]; by rewrite ?lookup_insert_ne by done.
Qed.

Lemma read_submission_response server request requestID s out s' :
  rd_Header s !! "X-Request-Id" = Some requestID →
  read_submission first_command ParseMediaType server request requestID s = (out, s') →
  rd_Header s' !! "X-Request-Id" = Some requestID ∧
  match out with Err response => response_ok requestID response | Ok _ => True end.
Proof.
  intros Hid Hr. apply (finishBodyRead_id request) in Hid. unfold read_submission in Hr.
  repeat (case_match; simplify_eq; try (split; [exact Hid|by problem_ok])); by split.
Qed.

Lemma submit_command_response server h requestID tenantID key command w :
  h !! "X-Request-Id" = Some requestID →
  response_ok requestID (submit_command quota_Allow server h requestID tenantID key command w).1.
Proof.
  intros Hid. unfold submit_command. destruct (run_admitted _ _ _ _) as [[[view replayed]|e] w']; cbn [fst]; [|by apply writeJobError_ok].
  assert (Hurl : jv_StatusURL (with_status_url view) ≠ "") by (unfold with_status_url; case_bool_decide; [simpl; destruct (jv_JobID view); done|done]).
  apply writeJSON_ok; [destruct replayed; by rewrite ?lookup_insert_ne by done|done|].
  right. split; [by right|].
  destruct replayed; [apply has_header_insert; [done|left]|]; (apply has_header_insert; [done|by right]).
Qed.

Lemma submit_refused_ok h kind title requestID :
  h !! "X-Request-Id" = Some requestID → response_ok requestID (submit_refused h kind title requestID).
Proof. intros Hid. unfold submit_refused, closeUnreadRequestBody. problem_ok. Qed.

Lemma handleJobSubmit_response server w h request requestID :
  h !! "X-Request-Id" = Some requestID →
  response_ok requestID (handleJobSubmit authenticator quota_Allow first_command ParseMediaType server w h request requestID).1.
Proof.
  intros Hid. unfold handleJobSubmit. destruct (authenticate _ _ _ _ _ _) as [principal|response] eqn:Ha; [|eauto with http].
  destruct (read_submission _ _ _ _ _ _) as [out s] eqn:Hr. apply read_submission_response in Hr as [Hs Hout]; [|exact Hid].
  destruct (hr_Deadline request); [| |by apply submit_refused_ok];
    (destruct (sv_JobBodyReaders server <=? hw_Readers w); [by apply submit_refused_ok|]);
    (destruct out as [[key command]|response]; [|exact Hout]);
    pose proof (submit_command_response server _ requestID (pr_TenantID principal) key command (hw_Services w) Hs) as Hok;
    by destruct (submit_command _ _ _ _ _ _ _ _).
Qed.

Lemma handleJobs_response server w h request requestID :
  h !! "X-Request-Id" = Some requestID →
  response_ok requestID (handleJobs authenticator quota_Allow first_command ParseMediaType server w h request requestID).1.
Proof.
  intros Hid. unfold handleJobs, handleJobCollection, handleJobList, handleJobGet, handleJobCancel.
  destruct (bool_decide (hr_Path request = "/api/v1/judge-jobs")).
  { case_bool_decide; [by apply handleJobSubmit_response|]. case_bool_decide; [|cbn [fst]; by eauto with http].
    destruct (authenticate _ _ _ _ _ _) as [principal|response] eqn:Ha; [|eauto with http]. cbn [fst].
    destruct (parseJobListQuery request); [|problem_ok]. destruct (service_List _ _ _) as [page|e]; [apply writeJSON_ok; [done..|by left]|].
    destruct e; cbv beta iota; first [by apply writeJobError_ok|problem_ok]. }
  destruct (split_on _ _) as [|jobID [|operation [|? ?]]]; [by eauto with http| | |by eauto with http].
  - case_match; [|by eauto with http]. cbn [fst]. case_match; [by eauto with http|].
    destruct (authenticate _ _ _ _ _ _) as [principal|response] eqn:Ha; [|eauto with http].
    destruct (service_Get _ _ _); [apply writeJSON_ok; [done..|by left]|eauto with http].
  - case_match; [|by eauto with http]. case_match; [by eauto with http|].
    destruct (authenticate _ _ _ _ _ _) as [principal|response] eqn:Ha; [|eauto with http].
    destruct (service_Cancel _ _ _) as [[view|e] services]; cbn [fst]; [apply writeJSON_ok; [done..|by left]|eauto with http].
Qed.

Lemma upload_bundle_response server w h request requestID tenantID key :
  h !! "X-Request-Id" = Some requestID → h !! "Retry-After" = None →
  response_ok requestID (upload_bundle quota_Allow server w h request requestID tenantID key).1.
Proof.
  intros Hid Hnone. unfold upload_bundle. case_match; [by eauto with http|]. case_match; [by eauto with http|].
  destruct (hr_Part request _) as [part|]; [|by eauto with http]. case_match; [by eauto with http|].
  destruct (run_asking _ _ _) as [[[metadata replay]|e] w']; cbn [fst]; [|by eauto with http].
  apply writeJSON_ok; [by rewrite lookup_insert_ne|done|]. destruct replay; [by left|right].
  split; [by left|]. apply has_header_insert; [done|by right].
Qed.

(** C25: Every response of the API carries the headers its status asks for. For every
    server, world and request, the response repeats the request id and forbids caching;
    a problem is a problem+json whose status is that of the response, between 400 and
    599, with WWW-Authenticate on 401, Allow on 405, and a delay to retry after on 429
    and 503; any other body is JSON under 200, or under 201 or 202 with the location of
    what was created. *)
Theorem responses_carry_their_headers (server : Server) (w : http_world W) (request : http_request) (requestID : string) :
  response_ok requestID (ServeHTTP authenticator quota_Allow first_command ParseMediaType server w request requestID).1.
Proof.
  unfold ServeHTTP. set (h := {["X-Request-Id" := requestID]}).
  assert (Hid : h !! "X-Request-Id" = Some requestID) by apply lookup_singleton_eq.
  assert (Hnone : h !! "Retry-After" = None) by by apply lookup_singleton_ne.
  case_match.
  { unfold handleCapabilities. case_match; [by eauto with http|]. destruct (authenticate _ _ _ _ _ _) as [principal|response] eqn:Ha; [|eauto with http].
    apply writeJSON_ok; [done..|by left]. }
  case_match.
  { unfold serveBundleCollection. case_match; [by eauto with http|]. case_match; [by eauto with http|].
    destruct (authenticate _ _ _ _ _ _) as [principal|response] eqn:Ha; [|eauto with http].
    destruct (header_Values request "Idempotency-Key") as [|key [|? ?]]; [by eauto with http| |by eauto with http].
    case_match; [by eauto with http|]. case_match; [cbn [fst]; problem_ok|].
    pose proof (upload_bundle_response server (hw_Services w) h request requestID (pr_TenantID principal) key Hid Hnone) as Hok.
    by destruct (upload_bundle _ _ _ _ _ _ _ _). }
  case_match.
  { unfold serveBundleMetadata. cbn [fst]. case_match; [by eauto with http|]. case_match; [by eauto with http|].
    destruct (authenticate _ _ _ _ _ _) as [principal|response] eqn:Ha; [|eauto with http].
    case_match; [by eauto with http|]. destruct (application_Get _ _ _); [apply writeJSON_ok; [done..|by left]|by eauto with http]. }
  case_match; [by apply handleJobs_response|by eauto with http].
Qed.
End Responses.
