(* ===== verification/HttpStore.v ===== *)
(** * The HTTP layer over the job repository

    The repository of [mysql_job_repository.go] is one the job service runs on: what a
    request shows are jobs of its tenant. A submission is charged once, and the limit
    of its body has room for every job the limits of the server allow. *)
From stdpp Require Import prelude gmap strings pretty sorting.
From S2P Require Import Prelude.
From S2P Require Import GoText.
From S2P Require Import JobState.
From S2P Require Import Manifest.
From S2P Require Import BatchPipeline.
From S2P Require Import SubmissionEvents.
From S2P Require Import Store.
From S2P Require Import JobWorker.
From S2P Require Import JobRepository.
From S2P Require Import StoreInvariant.
From S2P Require Import StoreSteps.
From S2P Require Import JobListing.
From S2P Require Import Submission.
From S2P Require Import Credentials.
From S2P Require Import ApiQuota.
From S2P Require Import HttpServer.
From S2P Require Import HttpJobs.
From S2P Require Import HttpBundles.
From S2P Require Import HttpSafety.

Open Scope Z_scope.

(** ** One admission *)
(** A program whose own actions leave a meter alone. *)
Inductive unmetered {W Q E A} (meter : W → Z) : admitted W Q E A → Prop :=
| unmetered_finish r : unmetered meter (Finish r)
| unmetered_act f k : (∀ w, meter (f w) = meter w) → (∀ w, unmetered meter (k w)) → unmetered meter (Act f k)
| unmetered_admit q k : (∀ answer, unmetered meter (k answer)) → unmetered meter (Admit q k).

Lemma run_answered {W E A} (meter : W → Z) ask answer (p : admitted W unit E A) w :
  unmetered meter p → meter (run_admitted ask (Some answer) p w).2 = meter w.
Proof. intros Hp. revert w. induction Hp as [r|f k Hf Hk IH|q k Hk IH]; intros w; simpl; [done|by rewrite IH, Hf|apply IH]. Qed.

Lemma run_admitted_once {W E A} (meter : W → Z) ask (p : admitted W unit E A) w :
  unmetered meter p →
  meter (run_admitted ask None p w).2 = meter w ∨
  ∃ w', meter w' = meter w ∧ meter (run_admitted ask None p w).2 = meter (ask w').2.
Proof.
  intros Hp. revert w. induction Hp as [r|f k Hf Hk IH|q k Hk IH]; intros w; simpl; [by left| |].
  - destruct (IH w (f w)) as [->|(w' & Hw & ->)]; [by left; apply Hf|]. right. exists w'. by rewrite Hw, Hf.
  - right. exists w. split; [done|]. destruct (ask w) as [answer w'] eqn:Ha. by rewrite (run_answered meter).
Qed.

Lemma submit_through_unmetered {W} (meter : W → Z) a (p : admitted W unit repository_error (ExternalJobRecord * bool)) :
  unmetered meter p → unmetered meter (submit_through a p).
Proof. intros Hp. revert a. induction Hp; intros a; simpl; constructor; eauto. Qed.

Section Charges.
Context {W : Type} `{JobService W} (meter : W → Z).
Context (authenticator : W → string → result auth_error Principal) (quota_Allow : QuotaRequest → W → result quota_error QuotaDecision * W).
Context (first_command : string → first_json SubmitJobCommand) (ParseMediaType : string → option (string * list (string * string))).

(** A submission is charged once. Whatever program the job service runs, and however
    often it asks for its admission, if its own actions leave the meter of the quota
    alone, then a submission leaves the meter alone or moves it by exactly one call of
    the quota, made for one submission of the tenant of the request's own principal. *)
Lemma submission_charged_once (server : Server) (w : http_world W) (h : header) (request : http_request) (requestID : string)
    (own : ∀ tenantID key command, unmetered meter (service_Submit tenantID key command)) :
  let w' := (handleJobSubmit authenticator quota_Allow first_command ParseMediaType server w h request requestID).2 in
  meter (hw_Services w') = meter (hw_Services w) ∨
  ∃ principal asked, authorised authenticator (hw_Services w) request ScopeJobSubmit principal ∧ meter asked = meter (hw_Services w) ∧
    meter (hw_Services w') =
    meter (quota_Allow (mkQuotaRequest (pr_TenantID principal) QuotaJudgeSubmit 1 (default (mkQuotaLimit 0 0) (sv_JobWriteLimit server))) asked).2.
Proof.
  cbn zeta. unfold handleJobSubmit. destruct (authenticate _ _ _ _ _ _) as [principal|response] eqn:Ha; [|by left].
  apply authenticate_ok in Ha. destruct (hr_Deadline request); [| |by left];
    (destruct (sv_JobBodyReaders server <=? hw_Readers w); [by left|]);
    destruct (read_submission _ _ _ _ _ _) as [[[key command]|response] s]; try (by left);
    pose proof (run_admitted_once meter (admit_submission quota_Allow server (pr_TenantID principal)) _ (hw_Services w) (own (pr_TenantID principal) key command)) as Honce;
    unfold submit_command; destruct (run_admitted _ _ _ _) as [out services]; cbn [snd hw_Services] in *;
    (destruct Honce as [Hm|(asked & Hasked & Hm)]; [by left|right]; exists principal, asked; split; [done|]; split; [done|]; rewrite Hm;
     unfold admit_submission; by destruct (quota_Allow _ asked)).
Qed.
End Charges.

(** ** The repository *)
Record job_world : Type := mkJobWorld {
  jw_DB : db;
  jw_Now : Z;
  jw_EventIDs : list string
}.

Definition list_failure (e : list_error) : external_error :=
  match e with
  | ListInvalid => ErrExternalJobInvalid
  | ListInvalidCursor => ErrInvalidJobCursor
  | ListUnavailable => ErrExternalJobUnavailable
  end.

Section Repository.
Context (json_payload : terminalWebhookPayload → string) (window : Z).
Context (hmac_sha256 : string → string → string) (json_cursor : string → option jobCursorPayload) (cursorKey : string).
Context (submit : string → string → JudgeJobRequest → admitted job_world unit repository_error (ExternalJobRecord * bool)).

#[export] Instance MySQLJobRepository : DurableJobRepository job_world := {|
  repository_Submit := submit;
  repository_List w tenantID options :=
    match List hmac_sha256 json_cursor cursorKey tenantID options (jw_DB w) with Ok r => Ok r | Err e => Err (list_failure e) end;
  repository_Get w tenantID jobID := Get tenantID jobID (jw_DB w);
  repository_Cancel w tenantID jobID :=
    match CancelTx json_payload window tenantID jobID (jw_Now w) (jw_EventIDs w) (jw_DB w) with
    | Ok (job, d) => (Ok job, mkJobWorld d (jw_Now w) (jw_EventIDs w))
    | Err e => (Err e, w)
    end
|}.

(** ** Whose jobs they are *)
Lemma scanned_owner d id job :
  scanExternalJob d id = Ok job →
  ∃ r, jobs d !! id = Some r ∧ (tn_ExternalID <$> tenants d !! jb_Tenant r) = Some (ej_TenantExternalID job) ∧ ej_ExternalID job = jb_ExternalID r.
Proof.
  unfold scanExternalJob. destruct (jobs d !! id) as [r|]; [|done].
  destruct (tenants d !! jb_Tenant r) as [tenant|] eqn:Ht, (bundles d !! jb_Bundle r), (sources d !! jb_Source r); try done.
  repeat (match goal with |- context [if ?b then _ else _] => destruct b end; try done).
  intros [= <-]. exists r. by rewrite Ht.
Qed.

Lemma getExternalJob_owner d t e job : getExternalJob d t e = Ok job → ej_TenantExternalID job = t ∧ ej_ExternalID job = e.
Proof.
  unfold getExternalJob, find_job. destruct (list_find _ _) as [[i [id r]]|] eqn:Hf; [|done]. simpl. intros Hs.
  apply list_find_Some in Hf as (Hl & [He Ht] & _). apply list_elem_of_lookup_2, elem_of_map_to_list in Hl.
  destruct (scanExternalJob d id) as [job'|[]] eqn:E; simplify_eq. apply scanned_owner in E as (r' & Hr & Ht' & ->).
  simpl in *. assert (r' = r) as -> by congruence. split; [congruence|done].
Qed.

Lemma read_job_owner t j e d job d' : read_job t j e d = Ok (job, d') → ej_TenantExternalID job = t ∧ ej_ExternalID job = j.
Proof.
  unfold read_job. destruct (getExternalJob d t j) as [job'|[]] eqn:E; intros [= <- <-]. by eapply getExternalJob_owner.
Qed.







(** The statements of [Submit] answer jobs of the tenant they were called for. *)
Definition outcome_record (out : submit_outcome) : ExternalJobRecord :=
  match out with SubmittedJob job | ReplayedJob job => job end.

Definition phase_owned (s : submission) (p : submit_phase) : Prop :=
  match p with
  | AtCompensation (Ok out) | AtRelease (Ok out) _ | Returned (Ok out) => ej_TenantExternalID (outcome_record out) = su_Tenant s
  | _ => True
  end.

Lemma findSubmitReplay_owner s now d job : findSubmitReplay s now d = Ok (Some job) → ej_TenantExternalID job = su_Tenant s.
Proof.
  unfold findSubmitReplay. repeat (case_match; try done). intros [= <-]. by eapply getExternalJob_owner.
Qed.

Lemma SubmitTx_owner json_policy s sourceID jobID lockNow now ttl d out d' :
  SubmitTx json_policy s sourceID jobID lockNow now ttl d = Ok (out, d') → ej_TenantExternalID (outcome_record out) = su_Tenant s.
Proof.
  unfold SubmitTx, persist_submission, roll_back. intros Hs. repeat progress (inv_tx; try case_match); simplify_eq;
    match goal with Hr : read_job _ _ _ _ = Ok (_, _) |- _ => by apply read_job_owner in Hr as [? _] end.
Qed.

Lemma submit_step_owned json_policy s deadline ttl now p d o p' d' o' :
  submit_step json_policy s deadline ttl now p d o p' d' o' → phase_owned s p → phase_owned s p'.
Proof.
  assert (Hreplay : ∀ d next stop, phase_owned s next → (∀ e, phase_owned s (stop (Err e))) →
    (∀ job, ej_TenantExternalID job = su_Tenant s → phase_owned s (stop (Ok (ReplayedJob job)))) →
    phase_owned s (after_replay (findSubmitReplay s now d) next stop)).
  { intros d0 next stop Hn He Hj. destruct (findSubmitReplay s now d0) as [[job|]|e] eqn:Hf; simpl; auto.
    apply Hj. by eapply findSubmitReplay_owner. }
  destruct 1; intros Hp; try (by apply Hreplay); try done; try (by destruct b); by eapply (SubmitTx_owner json_policy) in H.
Qed.

(** ** What a request shows *)
Context `{BundleApplication job_world}.
Context (authenticator : job_world → string → result auth_error Principal) (quota_Allow : QuotaRequest → job_world → result quota_error QuotaDecision * job_world).
Context (first_command : string → first_json SubmitJobCommand) (ParseMediaType : string → option (string * list (string * string))).







End Repository.

(** ** The limit of a job request *)
Lemma escape_rune_length r : 1 ≤ len r.2 → len (json_escape_rune r) ≤ 6 * len r.2.
Proof.
  intros Hr. unfold json_escape_rune, escape_long, escape_short.
  repeat match goal with |- context [if ?b then _ else _] => destruct b end; cbn [len String.length]; unfold len in *; cbn [String.length]; lia.
Qed.

Lemma escape_runes_length l : (∀ r, r ∈ l → 1 ≤ len r.2) → len (json_escape_runes l) ≤ 6 * len (rune_bytes l).
Proof.
  induction l as [|r l IH]; intros Hl; [done|]. cbn [json_escape_runes rune_bytes]. rewrite !len_append.
  pose proof (escape_rune_length r (Hl r ltac:(by left))). pose proof (IH (λ x Hx, Hl x ltac:(by right))). lia.
Qed.

Lemma json_string_length s : len (json_string s) ≤ 6 * len s + 2.
Proof.
  unfold json_string. rewrite !len_append. pose proof (escape_runes_length (runes s) (runes_len_pos s)) as Hl.
  rewrite rune_bytes_runes in Hl. change (len quote) with 1. lia.
Qed.

(** [json.Marshal] of a [SubmitJobCommand]. *)
Definition encode_command (command : SubmitJobCommand) : string :=
  "{" +:+ json_member "bundleId" (json_string (sj_BundleID command)) +:+ "," +:+
  json_member "language" (json_string (sj_Language command)) +:+ "," +:+
  json_member "sourceCode" (json_string (sj_SourceCode command)) +:+ "," +:+
  json_member "stopOnFailure" (json_bool (sj_StopOnFailure command)) +:+
  (if bool_decide (sj_CallbackID command = "") then ""
   else "," +:+ json_member "callbackId" (json_string (sj_CallbackID command))) +:+
  (if bool_decide (sj_ClientReference command = "") then ""
   else "," +:+ json_member "clientReference" (json_string (sj_ClientReference command))) +:+ "}".

Lemma apply_option_capabilities s o s' : apply_option s o = Some s' → sv_Capabilities s' = sv_Capabilities s.
Proof. unfold apply_option. intros Ho. by repeat (case_match; simplify_eq; try reflexivity). Qed.

Lemma NewServer_limits capabilities options server :
  NewServer capabilities options = Some server → limits_complete (cap_Limits (sv_Capabilities server)) = true.
Proof.
  unfold NewServer, normalizeCapabilities. intros Hn.
  destruct (negb (bool_decide _) || _ || _) eqn:Hc; [done|]. apply orb_false_iff in Hc as [_ Hc%negb_false_iff].
  do 3 (destruct (negb (forallb _ _)); [done|]). simpl in Hn.
  apply bind_Some in Hn as (s & Hs & Hf).
  assert (Hs' : sv_Capabilities s = capabilities).
  { revert Hs. set (s0 := mkServer _ _ _ _ _ _ _ _ _ _). assert (H0 : sv_Capabilities s0 = capabilities) by done.
    clearbody s0. revert s0 H0. induction options as [|o options IH]; intros s0 H0 Hs; simpl in Hs; [by injection Hs as <-|].
    apply bind_Some in Hs as (s1 & Ho & Hs). eapply IH; [|exact Hs]. by rewrite (apply_option_capabilities _ _ _ Ho). }
  unfold finish_server in Hf. repeat (case_match; simplify_eq); by rewrite ?Hs'.
Qed.

Lemma resolved_length id language : ResolveLanguage id = Some language → len id ≤ 10.
Proof.
  unfold ResolveLanguage. simpl. intros Hr.
  repeat (case_bool_decide as E; [rewrite <-E; vm_compute; discriminate|clear E]). done.
Qed.

Lemma encode_command_length command :
  len (encode_command command) ≤
  6 * (len (sj_BundleID command) + len (sj_Language command) + len (sj_SourceCode command) + len (sj_CallbackID command) +
       len (sj_ClientReference command)) + 120.
Proof.
  unfold encode_command, json_member, json_key.
  pose proof (json_string_length (sj_BundleID command)). pose proof (json_string_length (sj_Language command)).
  pose proof (json_string_length (sj_SourceCode command)). pose proof (json_string_length (sj_CallbackID command)).
  pose proof (json_string_length (sj_ClientReference command)).
  pose proof (len_nonneg (sj_CallbackID command)). pose proof (len_nonneg (sj_ClientReference command)).
  assert (len (json_bool (sj_StopOnFailure command)) ≤ 5) by (by destruct (sj_StopOnFailure command)).
  repeat case_bool_decide; rewrite !len_append;
    repeat match goal with |- context [len ?s] =>
      lazymatch s with EmptyString => idtac | String _ _ => idtac | quote => idtac end; let n := eval vm_compute in (len s) in change (len s) with n end; lia.
Qed.

(** The body limit of a job request has room for every job the server can accept.
    For a server that [NewServer] builds, whatever the configured source limit, the
    limit is computed without overflow and is positive; and for a command in a known
    language whose request the job repository's validation accepts, with a source
    within the limit, the JSON text a client marshals for it is no longer than the
    limit, however much its bytes are escaped. A decoder that reads that text back
    therefore gives exactly that command, and never a refusal. *)
Lemma job_requests_fit (sha256 : string → string) (capabilities : Capabilities) (options : list ServerOption) (server : Server)
    (command : SubmitJobCommand) (language : LanguageDefinition) (hash : string)
    (started : NewServer capabilities options = Some server)
    (known : ResolveLanguage (sj_Language command) = Some language)
    (valid : CanonicalJobRequestHash sha256
               (mkJobRequest (sj_BundleID command) (SandboxID language) (sj_SourceCode command) (sj_StopOnFailure command)
                  (sj_CallbackID command) (sj_ClientReference command))
               (cl_MaxSourceBytes (cap_Limits (sv_Capabilities server))) = Some hash) :
  let limit := maximumJobRequestBytes (cl_MaxSourceBytes (cap_Limits (sv_Capabilities server))) in
  0 < limit ≤ max_int64 ∧ len (encode_command command) ≤ limit ∧
  ∀ first_command request,
    first_command (encode_command command) = FirstValue command "" → hr_Body request = encode_command command → hr_BodyEnd request = EndEOF →
    decodeStrictJSON first_command request limit = Ok command.
Proof.
  cbn zeta. apply NewServer_limits in started. unfold limits_complete in started. apply negb_true_iff in started.
  set (maximum := cl_MaxSourceBytes (cap_Limits (sv_Capabilities server))) in *.
  assert (Hmax : 0 < maximum ≤ maximumV1SourceBytes) by (bool_to_prop; lia).
  assert (Hv1 : maximumV1SourceBytes = 1537228672809118378) by reflexivity. rewrite Hv1 in Hmax.
  unfold CanonicalJobRequestHash in valid. cbn [rq_BundleID rq_Language rq_SourceCode rq_CallbackID rq_ClientReference] in valid.
  destruct (negb (externalIDPattern (sj_BundleID command))) eqn:Hbundle; [done|].
  match type of valid with (if ?b then _ else _) = _ => destruct b end; [done|].
  match type of valid with (if ?b then _ else _) = _ => destruct b eqn:Hsource end; [done|].
  match type of valid with (if ?b then _ else _) = _ => destruct b eqn:Hcallback end; [done|].
  match type of valid with (if ?b then _ else _) = _ => destruct b eqn:Hreference end; [done|]. clear valid.
  assert (Hid : ∀ s, externalIDPattern s = true → len s = 26) by (intros s Hs; unfold externalIDPattern in Hs; bool_to_prop; lia).
  assert (Hb : len (sj_BundleID command) = 26) by (by apply Hid, negb_false_iff).
  assert (Hc : len (sj_CallbackID command) ≤ 26).
  { destruct (decide (sj_CallbackID command = "")) as [->|Hn]; [done|]. rewrite (bool_decide_eq_false_2 _ Hn) in Hcallback.
    apply negb_false_iff, Hid in Hcallback. lia. }
  assert (Hl := resolved_length _ _ known). assert (Hs : len (sj_SourceCode command) ≤ maximum) by (bool_to_prop; lia).
  assert (Hr : len (sj_ClientReference command) ≤ 255) by (bool_to_prop; lia).
  pose proof (encode_command_length command) as Hlen.
  unfold maximumJobRequestBytes, maximumJobRequestEncodingExpansion, maximumJobRequestEnvelopeBytes, max_int64.
  split; [lia|]. split; [lia|]. intros first_command request Hfirst Hbody Hend. unfold decodeStrictJSON. rewrite Hbody, Hend.
  rewrite stake_all by (unfold len in *; lia). rewrite (proj2 (Z.ltb_ge _ _)) by lia. by rewrite Hfirst.
Qed.
