(* ===== verification/SandboxClient.v ===== *)
(** * The sandbox client, [internal/sandbox/client.go]

    The guard on the event stream of a batch, the loop that receives it, and the
    cache of gRPC connections that all calls share.

    The second part proves what it guarantees. *)
From stdpp Require Import prelude gmap strings.
From S2P Require Import Prelude.
From S2P Require Import GoText.
From S2P Require Import Sandbox.
From S2P Require Import BatchPipeline.

Open Scope Z_scope.

(** ** The stream guard *)
Definition maxBatchMessageBytesV1 : Z := Z.shiftl 64 20.
Definition maxBatchResponseBytesV1 : Z := maxBatchMessageBytesV1.

Record batchStreamGuard : Type := mkStreamGuard {
  sg_MaxEvents : Z;
  sg_MaxBytes : Z;
  sg_Events : Z;
  sg_Bytes : Z;
  sg_Terminal : bool
}.

(** The reasons of [ErrInvalidBatchStream]. *)
Inductive stream_error : Type :=
| NilEvent
| EventAfterTerminal
| TooManyEvents
| TooManyBytes
| TerminalMissing.

Section Stream.
(** [proto.Size] of an event. *)
Context (event_size : BatchEvent → Z).

Definition is_terminal (event : BatchEvent) : bool :=
  bool_decide (ev_Kind event = COMPLETED) || bool_decide (ev_Kind event = COMPILE_ERROR).

Definition observe (guard : batchStreamGuard) (event : option BatchEvent) : result stream_error batchStreamGuard :=
  match event with
  | None => Err NilEvent
  | Some event =>
      if sg_Terminal guard then Err EventAfterTerminal
      else
        let events := wrap_int64 (sg_Events guard + 1) in
        let bytes := wrap_int64 (sg_Bytes guard + event_size event) in
        if sg_MaxEvents guard <? events then Err TooManyEvents
        else if sg_MaxBytes guard <? bytes then Err TooManyBytes
        else Ok (mkStreamGuard (sg_MaxEvents guard) (sg_MaxBytes guard) events bytes (is_terminal event))
  end.

Definition finish (guard : batchStreamGuard) : result stream_error unit :=
  if sg_Terminal guard then Ok tt else Err TerminalMissing.

(** ** Receiving a batch *)

(** What [Recv] returns; a stream answers any number of calls. *)
Inductive received : Type :=
| ReceivedEvent (event : option BatchEvent)
| ReceivedEOF
| ReceivedError (code : grpc_code).

(** The loop of [ExecuteBatch], from the [n]-th message on; without a result when
    the fuel is spent. *)
Fixpoint receive (fuel : nat) (recv : nat → received) (n : nat) (guard : batchStreamGuard) (events : list (option BatchEvent)) :
    option (result rpc_error (list (option BatchEvent))) :=
  match fuel with
  | O => None
  | S fuel =>
      match recv n with
      | ReceivedEOF => Some (match finish guard with Ok _ => Ok events | Err _ => Err RpcInvalidBatchStream end)
      | ReceivedError code => Some (Err (RpcCode code))
      | ReceivedEvent event =>
          match observe guard event with
          | Err _ => Some (Err RpcInvalidBatchStream)
          | Ok guard => receive fuel recv (S n) guard (events ++ [event])
          end
      end
  end.

Definition newBatchGuard (request : BatchRequest) : batchStreamGuard :=
  mkStreamGuard (Z.of_nat (length (br_Cases request)) + 1) maxBatchResponseBytesV1 0 0 false.

(** One message more than the guard lets pass, and the end. *)
Definition receive_fuel (request : BatchRequest) : nat := length (br_Cases request) + 3.

Definition receiveBatch (request : BatchRequest) (recv : nat → received) : option (result rpc_error (list (option BatchEvent))) :=
  receive (receive_fuel request) recv 0 (newBatchGuard request) [].
End Stream.

Definition batchRPCTimeout (base : Z) (request : BatchRequest) : Z :=
  if Z.of_nat (length (br_Cases request)) <=? 1 then base
  else
    let caseTimeoutSeconds := if br_Timeout request <=? 0 then 1 else br_Timeout request in
    let caseTimeoutSeconds := if 30 <? caseTimeoutSeconds then 30 else caseTimeoutSeconds in
    wrap_int64 (base + wrap_int64 (wrap_int64 ((Z.of_nat (length (br_Cases request)) - 1) * caseTimeoutSeconds) * second)).

(** ** The connections *)

(** An entry; a connection belongs to one entry, so it also serves as its address. *)
Record connectionEntry : Type := mkConnection {
  cn_Connection : nat;
  cn_LastUsed : Z;
  cn_InUse : Z
}.

Record Client : Type := mkClient { cl_Timeout : Z; cl_MaxConns : Z; cl_IdleTTL : Z }.

Definition NewClientWithCache (timeout maxConnections idleTTL : Z) : Client :=
  mkClient (if timeout <=? 0 then 30 * second else timeout) (if maxConnections <=? 0 then 128 else maxConnections)
    (if idleTTL <=? 0 then 5 * minute else idleTTL).

Definition NewClient (timeout : Z) : Client := NewClientWithCache timeout 128 (5 * minute).

Notation connections := (gmap string connectionEntry).

(** The map under the mutex, whether the client is closed, the connections that
    [Close] has yet to close, those that were closed (latest first), and the number
    created so far. *)
Record client_state : Type := mkClientState {
  ct_Conns : connections;
  ct_Closed : bool;
  ct_Closing : list nat;
  ct_ClosedConns : list nat;
  ct_Created : nat
}.

Definition set_conns (conns : connections) (closed : list nat) (s : client_state) : client_state :=
  mkClientState conns (ct_Closed s) (ct_Closing s) (closed ++ ct_ClosedConns s) (ct_Created s).

Definition is_idle (client : Client) (now : Z) (e : connectionEntry) : bool :=
  (cn_InUse e =? 0) && (cl_IdleTTL client <=? now - cn_LastUsed e).

Definition pruneIdle (client : Client) (now : Z) (s : client_state) : client_state :=
  set_conns (filter (λ p : string * connectionEntry, is_idle client now p.2 = false) (ct_Conns s))
    ((λ p, cn_Connection p.2) <$> map_to_list (filter (λ p : string * connectionEntry, is_idle client now p.2 = true) (ct_Conns s))) s.

Inductive acquire_error : Type :=
| ErrClientClosed
| ErrCacheFull
| ErrDial.

Section Acquire.
(** The order in which the runtime iterates over the map. *)
Context (iteration : connections → list (string * connectionEntry)).

(** The loop of [evictOldestIdle]. *)
Definition older_idle (oldest : option (string * connectionEntry)) (p : string * connectionEntry) :
    option (string * connectionEntry) :=
  if negb (cn_InUse p.2 =? 0) then oldest
  else match oldest with
       | None => Some p
       | Some o => if cn_LastUsed p.2 <? cn_LastUsed o.2 then Some p else oldest
       end.

Definition evictOldestIdle (s : client_state) : client_state :=
  match foldl older_idle None (iteration (ct_Conns s)) with
  | None => s
  | Some (address, e) => set_conns (delete address (ct_Conns s)) [cn_Connection e] s
  end.

Definition conns_full (client : Client) (s : client_state) : bool := cl_MaxConns client <=? Z.of_nat (size (ct_Conns s)).

(** [dialled] says whether [grpc.NewClient] succeeds. *)
Definition acquire (client : Client) (now : Z) (dialled : bool) (address : string) (s : client_state) :
    result acquire_error nat * client_state :=
  if ct_Closed s then (Err ErrClientClosed, s)
  else
    let s := pruneIdle client now s in
    match ct_Conns s !! address with
    | Some e =>
        (Ok (cn_Connection e), set_conns (<[address := mkConnection (cn_Connection e) now (cn_InUse e + 1)]> (ct_Conns s)) [] s)
    | None =>
        let s := if conns_full client s then evictOldestIdle s else s in
        if conns_full client s then (Err ErrCacheFull, s)
        else if negb dialled then (Err ErrDial, s)
        else
          let connection := ct_Created s in
          (Ok connection,
           mkClientState (<[address := mkConnection connection now 1]> (ct_Conns s)) (ct_Closed s) (ct_Closing s) (ct_ClosedConns s)
             (S connection))
    end.
End Acquire.

Definition release (client : Client) (now : Z) (address : string) (connection : nat) (s : client_state) : client_state :=
  match ct_Conns s !! address with
  | Some e =>
      if bool_decide (cn_Connection e = connection) then
        let s := set_conns (<[address := mkConnection connection now (if 0 <? cn_InUse e then cn_InUse e - 1 else cn_InUse e)]> (ct_Conns s)) [] s in
        if ct_Closed s then s else pruneIdle client now s
      else s
  | None => s
  end.

(** The part of [Close] under the mutex; a second [Close] does nothing. *)
Definition close_client (s : client_state) : client_state :=
  if ct_Closed s then s
  else mkClientState ∅ true ((λ p, cn_Connection p.2) <$> map_to_list (ct_Conns s)) (ct_ClosedConns s) (ct_Created s).

(** ** All calls over one client *)
Inductive client_phase : Type :=
| AtAcquire
| AtCall (connection : nat)
| CallReturned (failure : option acquire_error).

Record client_system : Type := mkClientSystem {
  cy_Clock : Z;
  cy_Client : client_state;
  cy_Callers : gmap nat (string * client_phase)
}.

Definition after_acquire (r : result acquire_error nat) : client_phase :=
  match r with Ok connection => AtCall connection | Err e => CallReturned (Some e) end.

Inductive client_step (client : Client) (y : client_system) : client_system → Prop :=
| client_tick now : cy_Clock y ≤ now → client_step client y (mkClientSystem now (cy_Client y) (cy_Callers y))
| client_call i address : cy_Callers y !! i = None → address ≠ "" →
    client_step client y (mkClientSystem (cy_Clock y) (cy_Client y) (<[i := (address, AtAcquire)]> (cy_Callers y)))
| client_acquire i address iteration dialled r s' : cy_Callers y !! i = Some (address, AtAcquire) →
    (∀ m, iteration m ≡ₚ map_to_list m) → acquire iteration client (cy_Clock y) dialled address (cy_Client y) = (r, s') →
    client_step client y (mkClientSystem (cy_Clock y) s' (<[i := (address, after_acquire r)]> (cy_Callers y)))
| client_release i address connection : cy_Callers y !! i = Some (address, AtCall connection) →
    client_step client y (mkClientSystem (cy_Clock y) (release client (cy_Clock y) address connection (cy_Client y))
      (<[i := (address, CallReturned None)]> (cy_Callers y)))
| client_close : client_step client y (mkClientSystem (cy_Clock y) (close_client (cy_Client y)) (cy_Callers y))
| client_close_next connection rest : ct_Closing (cy_Client y) = connection :: rest →
    client_step client y (mkClientSystem (cy_Clock y)
      (mkClientState (ct_Conns (cy_Client y)) (ct_Closed (cy_Client y)) rest (connection :: ct_ClosedConns (cy_Client y)) (ct_Created (cy_Client y)))
      (cy_Callers y)).

Definition initial_client (now : Z) : client_system := mkClientSystem now (mkClientState ∅ false [] [] 0) ∅.

(** * What the sandbox client guarantees

    A batch is received in a bounded number of messages, whatever a sandbox sends,
    and handed on exactly when its stream is complete and within its budgets; a
    connection is closed once, and never under a running call unless the client
    itself is closed. *)
(** ** Receiving *)
Section Stream.
Context (event_size : BatchEvent → Z).

(** A complete stream within its budgets: one terminal event, at the end. *)
Record complete_stream (maxEvents maxBytes : Z) (events : list BatchEvent) : Prop := {
  cst_terminal : ∃ init final, events = init ++ [final] ∧ is_terminal final = true ∧ Forall (λ e, is_terminal e = false) init;
  cst_count : Z.of_nat (length events) ≤ maxEvents;
  cst_bytes : sumZ event_size events ≤ maxBytes
}.

(** The guard after it has let [events] pass. *)
Definition guard_after (maxEvents maxBytes : Z) (events : list BatchEvent) : batchStreamGuard :=
  mkStreamGuard maxEvents maxBytes (Z.of_nat (length events)) (sumZ event_size events)
    (match last events with Some e => is_terminal e | None => false end).

Section Bounds.
Context (maxEvents maxBytes : Z) (events_fit : 0 ≤ maxEvents < max_int64) (bytes_fit : 0 ≤ maxBytes ≤ maxBatchResponseBytesV1)
        (size_fits : ∀ e, 0 ≤ event_size e ≤ maxBatchMessageBytesV1).

(** What holds of the events that were let pass. *)
Definition passed (events : list BatchEvent) : Prop :=
  Z.of_nat (length events) ≤ maxEvents ∧ sumZ event_size events ≤ maxBytes ∧
  ∀ init final, events = init ++ [final] → Forall (λ e, is_terminal e = false) init.

Lemma observe_passed events event guard :
  passed events → observe event_size (guard_after maxEvents maxBytes events) (Some event) = Ok guard ↔
  guard = guard_after maxEvents maxBytes (events ++ [event]) ∧ passed (events ++ [event]).
Proof using events_fit bytes_fit size_fits.
  intros (Hc & Hb & Ht). unfold observe. cbn [sg_Terminal sg_Events sg_Bytes sg_MaxEvents sg_MaxBytes guard_after].
  assert (Hlen : length (events ++ [event]) = S (length events)) by (rewrite length_app; cbn; lia).
  assert (Hsum : sumZ event_size (events ++ [event]) = sumZ event_size events + event_size event) by (rewrite sumZ_app; cbn; lia).
  pose proof (size_fits event) as Hs. pose proof (sumZ_nonneg event_size events ltac:(apply Forall_forall; intros; apply size_fits)) as H0.
  change maxBatchResponseBytesV1 with 67108864 in bytes_fit. change maxBatchMessageBytesV1 with 67108864 in Hs.
  rewrite (wrap_int64_id (Z.of_nat _ + 1)), (wrap_int64_id (sumZ _ _ + _)) by (unfold min_int64, max_int64 in *; lia).
  unfold passed, guard_after. rewrite last_snoc, Hlen, Hsum.
  assert (Hprev : match last events with Some e => is_terminal e | None => false end = true →
            ¬ (∀ init final, events ++ [event] = init ++ [final] → Forall (λ e, is_terminal e = false) init)).
  { destruct (last events) as [e|] eqn:El; [|done]. apply last_Some in El as [l ->]. intros He Hall.
    specialize (Hall _ _ eq_refl). apply Forall_app in Hall as [_ Hall]. rewrite Forall_singleton in Hall. cbn in Hall. by rewrite He in Hall. }
  destruct (match last events with Some e => is_terminal e | None => false end) eqn:El.
  { split; [done|]. intros (_ & _ & _ & H). by destruct Hprev. }
  assert (Hall : ∀ init final, events ++ [event] = init ++ [final] → Forall (λ e, is_terminal e = false) init).
  { intros init final [-> <-]%app_inj_tail. destruct init as [|x l _] using rev_ind; [done|].
    rewrite last_snoc in El. apply Forall_app. split; [by eapply Ht|by apply Forall_singleton]. }
  destruct (Z.ltb_spec maxEvents (Z.of_nat (length events) + 1)); [split; [done|lia]|].
  destruct (Z.ltb_spec maxBytes (sumZ event_size events + event_size event)); [split; [done|lia]|].
  replace (Z.of_nat (S (length events))) with (Z.of_nat (length events) + 1) by lia.
  split; [intros [= <-]|intros [-> _]; done]. split; [done|]. split_and!; [lia|lia|done].
Qed.

Lemma receive_passed recv fuel events :
  passed events → maxEvents + 2 - Z.of_nat (length events) ≤ Z.of_nat fuel →
  ∃ r, receive event_size fuel recv (length events) (guard_after maxEvents maxBytes events) (Some <$> events) = Some r ∧
    ∀ out, r = Ok out ↔ ∃ more, out = Some <$> events ++ more ∧
      (∀ k e, more !! k = Some e → recv (length events + k)%nat = ReceivedEvent (Some e)) ∧
      recv (length (events ++ more)) = ReceivedEOF ∧ complete_stream maxEvents maxBytes (events ++ more).
Proof using events_fit bytes_fit size_fits.
  revert events. induction fuel as [|fuel IH]; intros events Hp Hf; [destruct Hp; lia|]. cbn [receive].
  destruct (recv (length events)) as [[event|]| |code] eqn:Hr.
  - destruct (observe _ _ _) as [guard|e] eqn:Ho.
    + apply observe_passed in Ho as [-> Hp']; [|done].
      assert (Hl : length (events ++ [event]) = S (length events)) by (rewrite length_app; cbn; lia).
      destruct (IH (events ++ [event]) Hp') as (r & Hrec & Hiff); [rewrite Hl; lia|].
      rewrite Hl, fmap_app in Hrec. exists r. split; [done|]. intros out. rewrite Hiff. split.
      * intros (more & -> & Hm & Heof & Hok). exists (event :: more). rewrite <-app_assoc in *. split_and!; try done.
        intros [|k] e; [intros [= <-]; by rewrite Nat.add_0_r|]. intros Hk. rewrite <-(Hm _ _ Hk), Hl. f_equal. cbn. lia.
      * intros ([|e more] & -> & Hm & Heof & Hok); [rewrite app_nil_r, Hr in Heof; done|].
        pose proof (Hm 0%nat e eq_refl) as He. rewrite Nat.add_0_r, Hr in He. injection He as <-.
        exists more. rewrite <-app_assoc. split_and!; try done. intros k e' Hk. rewrite Hl. rewrite <-(Hm (S k) e' Hk). f_equal. lia.
    + exists (Err RpcInvalidBatchStream). split; [done|]. intros out. split; [done|].
      intros ([|e' more] & -> & Hm & Heof & [Ht Hc Hb]); [rewrite app_nil_r, Hr in Heof; done|]. exfalso.
      pose proof (Hm 0%nat e' eq_refl) as He. rewrite Nat.add_0_r, Hr in He. injection He as <-.
      assert (Hok : passed (events ++ [event])).
      { rewrite cons_middle, app_assoc in Ht, Hc, Hb. rewrite length_app in Hc. rewrite sumZ_app in Hb.
        pose proof (sumZ_nonneg event_size more ltac:(apply Forall_forall; intros; apply size_fits)). split_and!; [lia|lia|].
        intros init final E. rewrite E in Ht. destruct Ht as (init' & final' & E' & _ & Hall).
        destruct more as [|x more _] using rev_ind; [rewrite app_nil_r in E'; by apply app_inj_tail in E' as [-> _]|].
        rewrite app_assoc in E'. apply app_inj_tail in E' as [<- _]. by apply Forall_app in Hall as [[? _]%Forall_app _]. }
      assert (Ho' : observe event_size (guard_after maxEvents maxBytes events) (Some event) = Ok (guard_after maxEvents maxBytes (events ++ [event])))
        by by apply observe_passed. congruence.
  - exists (Err RpcInvalidBatchStream). split; [done|]. intros out. split; [done|].
    intros ([|e' more] & -> & Hm & Heof & _); [rewrite app_nil_r, Hr in Heof; done|].
    pose proof (Hm 0%nat e' eq_refl) as He. rewrite Nat.add_0_r, Hr in He. done.
  - destruct Hp as (Hc & Hb & Ht). eexists. split; [done|]. intros out. unfold finish. cbn [sg_Terminal guard_after].
    assert (Hnil : ∀ more, (∀ k e, more !! k = Some e → recv (length events + k)%nat = ReceivedEvent (Some e)) → more = []).
    { intros [|e more] Hm; [done|]. pose proof (Hm 0%nat e eq_refl) as He. rewrite Nat.add_0_r, Hr in He. done. }
    destruct (last events) as [e|] eqn:El.
    + apply last_Some in El as [init ->]. destruct (is_terminal e) eqn:He.
      * split.
        -- intros [= <-]. exists []. rewrite app_nil_r. split_and!; try done. split; [|done|done]. exists init, e. split_and!; try done. by eapply Ht.
        -- intros (more & -> & Hm & _). by rewrite (Hnil more Hm), app_nil_r.
      * split; [done|]. intros (more & -> & Hm & _ & [(i & f & E & Hf' & _) _ _]). rewrite (Hnil more Hm), app_nil_r in E.
        apply app_inj_tail in E as [_ ->]. congruence.
    + apply last_None in El as ->. split; [done|]. intros (more & -> & Hm & _ & [(i & f & E & _) _ _]). rewrite (Hnil more Hm) in E. by destruct i.
  - exists (Err (RpcCode code)). split; [done|]. intros out. split; [done|].
    intros ([|e' more] & -> & Hm & Heof & _); [rewrite app_nil_r, Hr in Heof; done|].
    pose proof (Hm 0%nat e' eq_refl) as He. rewrite Nat.add_0_r, Hr in He. done.
Qed.
End Bounds.
End Stream.

Lemma valid_batch_complete event_size request events :
  validateBatchEvents request events = true → ∃ evs, events = Some <$> evs ∧
    ∀ maxBytes, sumZ event_size evs ≤ maxBytes →
      complete_stream event_size (Z.of_nat (length (br_Cases request)) + 1) maxBytes evs.
Proof.
  intros [(r & -> & _)|[cases [-> _ _ _ (rest & Hids & _)]]]%validateBatchEvents_shape.
  - exists [mkBatchEvent COMPILE_ERROR "" (Some r)]. split; [done|]. intros maxBytes Hb. split; [|cbn; lia|done].
    exists [], (mkBatchEvent COMPILE_ERROR "" (Some r)). split_and!; done.
  - exists (((λ c, mkBatchEvent CASE_RESULT c.1 (Some c.2)) <$> cases) ++ [mkBatchEvent COMPLETED "" None]). split.
    + rewrite fmap_app. f_equal. by rewrite <-list_fmap_compose.
    + intros maxBytes Hb. split; [|rewrite length_app, length_fmap; cbn|done].
      * eexists _, _. split_and!; [done|done|]. apply Forall_fmap, Forall_true. done.
      * apply (f_equal length) in Hids. rewrite length_app, !length_fmap in Hids. lia.
Qed.

(** C19: A batch is received in a bounded number of messages, whatever the sandbox
    sends, and nothing is lost or let through: [ExecuteBatch] returns events exactly
    when they are what the stream delivered before it ended, with one terminal
    event, the last, at most one event per case besides, and at most 64 MiB in all.
    In particular every stream that the pipeline would find valid passes the guard. *)
Theorem received_batch_exact event_size request recv :
  (∀ e, 0 ≤ event_size e ≤ maxBatchMessageBytesV1) → Z.of_nat (length (br_Cases request)) < max_int64 - 1 →
  ∃ r, receiveBatch event_size request recv = Some r ∧
    (∀ out, r = Ok out ↔ ∃ events, out = Some <$> events ∧
       (∀ k e, events !! k = Some e → recv k = ReceivedEvent (Some e)) ∧ recv (length events) = ReceivedEOF ∧
       complete_stream event_size (Z.of_nat (length (br_Cases request)) + 1) maxBatchResponseBytesV1 events) ∧
    ∀ events, validateBatchEvents request (Some <$> events) = true → sumZ event_size events ≤ maxBatchResponseBytesV1 →
      (∀ k e, events !! k = Some e → recv k = ReceivedEvent (Some e)) → recv (length events) = ReceivedEOF → r = Ok (Some <$> events).
Proof.
  intros Hsize Hcases. set (n := Z.of_nat (length (br_Cases request))) in *.
  destruct (receive_passed event_size (n + 1) maxBatchResponseBytesV1 ltac:(lia) ltac:(by vm_compute) Hsize recv (receive_fuel request) [])
    as (r & Hr & Hiff).
  - split_and!; [cbn; lia|done|]. by intros [|? ?] ? ?.
  - cbn. unfold receive_fuel. lia.
  - exists r. split; [exact Hr|]. split; [exact Hiff|]. intros events Hv Hb Hm Heof. apply Hiff.
    exists events. split_and!; try done. destruct (valid_batch_complete event_size _ _ Hv) as (evs & E & Hok).
    apply list_fmap_eq_inj in E as <-; [by apply Hok|]. by intros x y [= ->].
Qed.

(** ** Connections *)
#[export] Instance acquire_error_eq_dec : EqDecision acquire_error.
Proof. solve_decision. Defined.

#[export] Instance client_phase_eq_dec : EqDecision client_phase.
Proof. solve_decision. Defined.

Definition conn_ids (conns : connections) : list nat := (λ p, cn_Connection p.2) <$> map_to_list conns.

Lemma conn_ids_insert a e conns : conns !! a = None → conn_ids (<[a := e]> conns) ≡ₚ cn_Connection e :: conn_ids conns.
Proof. intros Ha. unfold conn_ids. by rewrite map_to_list_insert. Qed.

Lemma conn_ids_delete a e conns : conns !! a = Some e → conn_ids conns ≡ₚ cn_Connection e :: conn_ids (delete a conns).
Proof. intros Ha. rewrite <-conn_ids_insert by apply lookup_delete_eq. by rewrite insert_delete_id. Qed.

Lemma conn_ids_update a e e' conns :
  conns !! a = Some e → cn_Connection e' = cn_Connection e → conn_ids (<[a := e']> conns) ≡ₚ conn_ids conns.
Proof.
  intros Ha E. rewrite (conn_ids_delete a e conns Ha), <-E, <-insert_delete_eq. apply conn_ids_insert, lookup_delete_eq.
Qed.

Lemma conn_ids_split (f : connectionEntry → bool) conns :
  conn_ids (filter (λ p : string * connectionEntry, f p.2 = true) conns) ++
  conn_ids (filter (λ p : string * connectionEntry, f p.2 = false) conns) ≡ₚ conn_ids conns.
Proof.
  induction conns as [|a e conns Ha IH] using map_ind; [done|]. rewrite (conn_ids_insert a e conns Ha).
  assert (Hn : ∀ b, filter (λ p : string * connectionEntry, f p.2 = b) conns !! a = None).
  { intros b. apply map_lookup_filter_None. by left. }
  destruct (f e) eqn:Hf.
  - rewrite map_filter_insert_True, map_filter_insert_False, delete_id by (cbn; congruence).
    rewrite conn_ids_insert by apply Hn. cbn. by rewrite IH.
  - rewrite map_filter_insert_False, delete_id, map_filter_insert_True by (cbn; congruence).
    rewrite conn_ids_insert by apply Hn. by rewrite <-Permutation_middle, IH.
Qed.

Notation callers := (gmap nat (string * client_phase)).

(** How many calls use a connection of an address. *)
Definition uses (address : string) (connection : nat) (p : string * client_phase) : Z :=
  if decide (p = (address, AtCall connection)) then 1 else 0.

Definition in_use (calls : callers) (address : string) (connection : nat) : Z := map_sumZ (uses address connection) calls.

Lemma in_use_insert calls i p q a k :
  calls !! i = Some p → in_use (<[i := q]> calls) a k = in_use calls a k - uses a k p + uses a k q.
Proof. apply map_sumZ_insert_old. Qed.

Lemma uses_range a k p : 0 ≤ uses a k p ≤ 1.
Proof. unfold uses. case_decide; lia. Qed.

Lemma in_use_pos (calls : callers) i a k : calls !! i = Some (a, AtCall k) → 1 ≤ in_use calls a k.
Proof.
  intros Hi. unfold in_use. rewrite (map_sumZ_delete _ _ _ _ Hi). unfold uses at 1. rewrite decide_True by done.
  pose proof (map_sumZ_nonneg (uses a k) (delete i calls) ltac:(intros; apply uses_range)). lia.
Qed.

Lemma in_use_none (calls : callers) a k : (∀ i, calls !! i ≠ Some (a, AtCall k)) → in_use calls a k = 0.
Proof.
  intros Hn. pose proof (map_sumZ_nonneg (uses a k) calls ltac:(intros; apply uses_range)) as H0. unfold in_use in *.
  assert (map_sumZ (uses a k) calls ≤ 0); [|lia]. unfold map_sumZ. transitivity (sumZ (λ _ : nat * _, 0) (map_to_list calls)).
  - apply sumZ_le, Forall_forall. intros [i p] Hp%elem_of_map_to_list. unfold uses. cbn. case_decide as E; [|done]. subst. by destruct (Hn i).
  - by induction (map_to_list calls).
Qed.

Section Connections.
Context (client : Client).

Record client_ok (calls : callers) (s : client_state) : Prop := {
  co_use : ∀ a e, ct_Conns s !! a = Some e → cn_InUse e = in_use calls a (cn_Connection e);
  co_ids : conn_ids (ct_Conns s) ++ ct_Closing s ++ ct_ClosedConns s ≡ₚ seq 0 (ct_Created s);
  co_shut : ct_Closed s = true → ct_Conns s = ∅;
  co_open : ct_Closed s = false → ct_Closing s = [];
  co_held : ∀ i a k, calls !! i = Some (a, AtCall k) →
    (k < ct_Created s)%nat ∧ (ct_Closed s = false → ∃ e, ct_Conns s !! a = Some e ∧ cn_Connection e = k);
  co_size : Z.of_nat (size (ct_Conns s)) ≤ cl_MaxConns client
}.

(** Closing connections that nobody uses. *)
Definition shed (s s' : client_state) : Prop :=
  (ct_Closed s' = ct_Closed s ∧ ct_Created s' = ct_Created s ∧ ct_Closing s' = ct_Closing s) ∧ ct_Conns s' ⊆ ct_Conns s ∧
  (∀ a e, ct_Conns s !! a = Some e → ct_Conns s' !! a = Some e ∨ cn_InUse e = 0) ∧
  conn_ids (ct_Conns s') ++ ct_ClosedConns s' ≡ₚ conn_ids (ct_Conns s) ++ ct_ClosedConns s.

Lemma shed_refl s : shed s s.
Proof. split_and!; try done. intros a e He. by left. Qed.

Lemma shed_trans s1 s2 s3 : shed s1 s2 → shed s2 s3 → shed s1 s3.
Proof.
  intros ((C1 & N1 & L1) & S1 & D1 & P1) ((C2 & N2 & L2) & S2 & D2 & P2). split_and!; [congruence..|by etrans| |by rewrite P2].
  intros a e He. destruct (D1 a e He) as [H|?]; [by apply D2|by right].
Qed.

Lemma prune_shed now s : shed s (pruneIdle client now s).
Proof.
  split_and!; cbn; try done; [apply map_filter_subseteq| |].
  - intros a e He. destruct (is_idle client now e) eqn:Hi; [right|left; by apply map_lookup_filter_Some].
    unfold is_idle in Hi. bool_to_prop. done.
  - fold (conn_ids (filter (λ p : string * connectionEntry, is_idle client now p.2 = true) (ct_Conns s))).
    rewrite <-(conn_ids_split (is_idle client now) (ct_Conns s)). solve_Permutation.
Qed.

Lemma foldl_older_idle l oldest :
  (∀ p, oldest = Some p → p ∈ l ∧ cn_InUse p.2 = 0) → ∀ l', l' ⊆ l →
  ∀ p, foldl older_idle oldest l' = Some p → p ∈ l ∧ cn_InUse p.2 = 0.
Proof.
  intros Ho l'. revert oldest Ho. induction l' as [|x l' IH]; intros oldest Ho Hl; [done|]. cbn [foldl]. apply IH.
  - intros p. unfold older_idle. destruct (Z.eqb_spec (cn_InUse x.2) 0) as [E|]; cbn; [|by apply Ho].
    assert (x ∈ l ∧ cn_InUse x.2 = 0) by (split; [apply Hl; by left|done]).
    destruct oldest as [o|]; [destruct (_ <? _)|]; intros [= <-]; auto.
  - intros p Hp. apply Hl. by right.
Qed.

Lemma evict_shed iteration s : (∀ m, iteration m ≡ₚ map_to_list m) → shed s (evictOldestIdle iteration s).
Proof.
  intros Hperm. unfold evictOldestIdle. destruct (foldl _ _ _) as [[a e]|] eqn:Hf; [|apply shed_refl].
  apply (foldl_older_idle (iteration (ct_Conns s))) in Hf as [Ha Hu]; [|done|done].
  rewrite Hperm in Ha. apply elem_of_map_to_list in Ha. cbn in Ha, Hu. split_and!; cbn; try done; [apply delete_subseteq| |].
  - intros b e' Hb. destruct (decide (b = a)) as [->|]; [right; by simplify_eq|left; by rewrite lookup_delete_ne].
  - rewrite (conn_ids_delete a e _ Ha). cbn. solve_Permutation.
Qed.

Lemma shed_ok calls s s' : client_ok calls s → shed s s' → client_ok calls s'.
Proof.
  intros [Cu Ci Cs Co Ch Cz] ((Hc & Hn & Hl) & Hs & Hd & Hp). split; rewrite ?Hc, ?Hn, ?Hl; try done.
  - intros a e He. apply Cu. by eapply lookup_weaken.
  - rewrite <-Ci, (Permutation_app_comm (ct_Closing s)), (Permutation_app_comm (ct_Closing s)), !app_assoc. by rewrite Hp.
  - intros E%Cs. apply map_empty. intros a. eapply lookup_weaken_None; [|exact Hs]. by rewrite E, lookup_empty.
  - intros i a k Hi. destruct (Ch i a k Hi) as [? Hh]. split; [done|]. intros E. destruct (Hh E) as (e & He & <-).
    exists e. destruct (Hd a e He) as [?|Hz]; [done|]. apply in_use_pos in Hi. rewrite (Cu a e He) in Hz. lia.
  - etransitivity; [|exact Cz]. apply inj_le. by apply map_subseteq_size.
Qed.

(** A step of a call that neither held nor gets a connection. *)
Lemma no_use_ok calls s i a p p' :
  client_ok calls s → calls !! i = Some (a, p) → (∀ k, p ≠ AtCall k) → (∀ k, p' ≠ AtCall k) → client_ok (<[i := (a, p')]> calls) s.
Proof.
  intros [Cu Ci Cs Co Ch Cz] Hi Hp Hp'. split; try done.
  - intros b e He. rewrite (in_use_insert _ _ _ _ _ _ Hi), (Cu b e He). unfold uses. rewrite !decide_False; [lia| |]; intros [= _ ?]; naive_solver.
  - intros j b k [[<- [= _ E]]|[_ Hj]]%lookup_insert_Some; [by destruct (Hp' k)|by eapply Ch].
Qed.

(** A step of a call that gets or gives back the connection of an entry. *)
Lemma entry_ok calls s i a p p' e n now :
  client_ok calls s → calls !! i = Some (a, p) → ct_Conns s !! a = Some e → ct_Closed s = false →
  n = cn_InUse e - uses a (cn_Connection e) (a, p) + uses a (cn_Connection e) (a, p') →
  (∀ k, p = AtCall k → k = cn_Connection e) → (∀ k, p' = AtCall k → k = cn_Connection e) →
  client_ok (<[i := (a, p')]> calls) (set_conns (<[a := mkConnection (cn_Connection e) now n]> (ct_Conns s)) [] s).
Proof.
  intros [Cu Ci Cs Co Ch Cz] Hi He Hopen -> Hp Hp'. split; cbn.
  - intros b e' [[<- <-]|[Hne Hb]]%lookup_insert_Some; cbn.
    + by rewrite (in_use_insert _ _ _ _ _ _ Hi), (Cu a e He).
    + rewrite (in_use_insert _ _ _ _ _ _ Hi), (Cu b e' Hb). unfold uses. rewrite !(decide_False (P := (a, _) = _)); [lia|congruence..].
  - by rewrite (conn_ids_update a e).
  - congruence.
  - exact Co.
  - intros j b k [[<- [= <- E]]|[Hne Hj]]%lookup_insert_Some.
    + specialize (Hp' k E). subst k. split.
      * assert (Hin : cn_Connection e ∈ seq 0 (ct_Created s)); [|apply elem_of_seq in Hin; lia].
        rewrite <-Ci, (conn_ids_delete a e _ He). by left.
      * intros _. eexists. by rewrite lookup_insert_eq.
    + destruct (Ch j b k Hj) as [? Hh]. split; [done|]. intros _. destruct (Hh Hopen) as (e' & He' & <-).
      destruct (decide (b = a)) as [->|Hb]; [|exists e'; by rewrite lookup_insert_ne].
      simplify_eq. eexists. by rewrite lookup_insert_eq.
  - rewrite map_size_insert_Some; [done|by rewrite He].
Qed.

Lemma acquire_ok calls s i a iteration now dialled r s' :
  (∀ m, iteration m ≡ₚ map_to_list m) → client_ok calls s → calls !! i = Some (a, AtAcquire) →
  acquire iteration client now dialled a s = (r, s') → client_ok (<[i := (a, after_acquire r)]> calls) s'.
Proof.
  intros Hperm Hok Hi. unfold acquire. destruct (ct_Closed s) eqn:Hc; [intros [= <- <-]; by eapply no_use_ok|].
  pose proof (shed_ok _ _ _ Hok (prune_shed now s)) as Hok1. cbv zeta. set (s1 := pruneIdle client now s) in *.
  assert (Hc1 : ct_Closed s1 = false) by done. clearbody s1. clear Hok. destruct (ct_Conns s1 !! a) as [e|] eqn:He.
  - intros [= <- <-]. eapply entry_ok; try done.
    + unfold uses. rewrite decide_False by done. rewrite decide_True by done. lia.
    + by intros k [= ->].
  - set (s2 := if conns_full client s1 then _ else _).
    assert (Hs2 : shed s1 s2) by (unfold s2; destruct (conns_full client s1); [by apply evict_shed|apply shed_refl]).
    pose proof (shed_ok _ _ _ Hok1 Hs2) as Hok2. destruct (conns_full client s2) eqn:Hfull; [intros [= <- <-]; by eapply no_use_ok|].
    destruct dialled; [|intros [= <- <-]; by eapply no_use_ok]. intros [= <- <-].
    assert (Ha : ct_Conns s2 !! a = None) by (destruct Hs2 as (_ & Hs & _); by eapply lookup_weaken_None).
    assert (Hc2 : ct_Closed s2 = false) by (destruct Hs2 as [[-> _] _]; done).
    clearbody s2. destruct Hok2 as [Cu Ci Cs Co Ch Cz].
    assert (Hfresh : ∀ b, in_use calls b (ct_Created s2) = 0).
    { intros b. apply in_use_none. intros j Hj. destruct (Ch _ _ _ Hj) as [? _]. lia. }
    split; cbn [ct_Conns ct_Closing ct_ClosedConns ct_Created ct_Closed].
    + intros b e [[<- <-]|[Hne Hb]]%lookup_insert_Some; cbn; rewrite (in_use_insert _ _ _ _ _ _ Hi).
      * rewrite Hfresh. unfold uses. rewrite decide_False by done. by rewrite decide_True.
      * rewrite (Cu b e Hb). unfold uses. rewrite !decide_False; [lia|congruence..].
    + rewrite conn_ids_insert by done. cbn [cn_Connection]. rewrite seq_S, <-Ci. cbn [app Nat.add]. solve_Permutation.
    + congruence.
    + exact Co.
    + intros j b k [[<- [= <- <-]]|[Hne Hj]]%lookup_insert_Some.
      * split; [lia|]. intros _. eexists. by rewrite lookup_insert_eq.
      * destruct (Ch j b k Hj) as [? Hh]. split; [lia|]. intros _. destruct (Hh Hc2) as (e & He' & <-). exists e.
        rewrite lookup_insert_ne; [done|congruence].
    + unfold conns_full in Hfull. apply Z.leb_gt in Hfull. rewrite map_size_insert_None by done. lia.
Qed.

Lemma client_release_ok calls s i a k now :
  client_ok calls s → calls !! i = Some (a, AtCall k) → client_ok (<[i := (a, CallReturned None)]> calls) (release client now a k s).
Proof.
  intros Hok Hi. unfold release. destruct (ct_Closed s) eqn:Hc.
  - rewrite (co_shut _ _ Hok Hc), lookup_empty. destruct Hok as [Cu Ci Cs Co Ch Cz]. split; try done.
    + intros b e He. rewrite (Cs Hc), lookup_empty in He. done.
    + intros j b k' [[<- [= _ E]]|[_ Hj]]%lookup_insert_Some. split; [by eapply Ch|congruence].
  - destruct (co_held _ _ Hok i a k Hi) as [_ Hh]. destruct (Hh Hc) as (e & He & <-). rewrite He. rewrite bool_decide_true by done.
    pose proof (co_use _ _ Hok a e He) as Hu. pose proof (in_use_pos _ _ _ _ Hi) as H1. cbn [set_conns ct_Closed]. rewrite Hc.
    eapply shed_ok; [|apply prune_shed]. rewrite (proj2 (Z.ltb_lt 0 (cn_InUse e))) by lia.
    eapply entry_ok; try done.
    + unfold uses. rewrite decide_True by done. rewrite decide_False by done. lia.
    + by intros k [= ->].
Qed.

Lemma client_step_ok y y' : client_ok (cy_Callers y) (cy_Client y) → client_step client y y' → client_ok (cy_Callers y') (cy_Client y').
Proof.
  intros Hok [now _|i a Hi _|i a iteration dialled r s' Hi Hperm Hacq|i a k Hi| |k rest Hrest]; cbn.
  - done.
  - destruct Hok as [Cu Ci Cs Co Ch Cz]. split; try done.
    + intros b e He. rewrite (Cu b e He). unfold in_use. rewrite map_sumZ_insert_new by done. unfold uses at 2. by rewrite decide_False.
    + intros j b k [[<- [= _ E]]|[_ Hj]]%lookup_insert_Some. by eapply Ch.
  - by eapply acquire_ok.
  - by apply client_release_ok.
  - unfold close_client. destruct (ct_Closed _) eqn:Hc; [done|]. destruct Hok as [Cu Ci Cs Co Ch Cz]. split; cbn; try done.
    + by rewrite <-Ci, (Co Hc).
    + intros i a k Hi. split; [by eapply Ch|done].
    + rewrite map_size_empty. lia.
  - destruct Hok as [Cu Ci Cs Co Ch Cz]. split; try done; cbn.
    + rewrite <-Ci, Hrest. cbn. solve_Permutation.
    + intros Hc. by rewrite (Co Hc) in Hrest.
Qed.
End Connections.

(** C20: A connection is closed at most once, and never under a running call while
    the client is open. In every state that any interleaving of calls with [Close]
    can reach, at most [maxConns] connections are cached; a call that runs while
    the client is open uses the cached connection of its address, whose count is the
    number of the calls that use it; and every connection that was created is
    exactly one of cached, about to be closed by [Close], and closed. *)
Theorem sandbox_connections_safe timeout maxConnections idleTTL now y :
  let client := NewClientWithCache timeout maxConnections idleTTL in
  rtc (client_step client) (initial_client now) y →
  let s := cy_Client y in
  Z.of_nat (size (ct_Conns s)) ≤ cl_MaxConns client ∧
  (∀ i address connection, cy_Callers y !! i = Some (address, AtCall connection) → ct_Closed s = false →
     connection ∉ ct_ClosedConns s ∧
     ∃ e, ct_Conns s !! address = Some e ∧ cn_Connection e = connection ∧ cn_InUse e = in_use (cy_Callers y) address connection) ∧
  conn_ids (ct_Conns s) ++ ct_Closing s ++ ct_ClosedConns s ≡ₚ seq 0 (ct_Created s) ∧ NoDup (ct_ClosedConns s).
Proof.
  intros client Hs s. assert (Hok : client_ok client (cy_Callers y) s).
  { eapply (rtc_preserves _ (λ y, client_ok client (cy_Callers y) (cy_Client y))); [intros a b; apply client_step_ok| |exact Hs].
    split; cbn; try done; try (intros; by rewrite lookup_empty in *).
    rewrite map_size_empty. unfold client, NewClientWithCache. cbn. destruct (Z.leb_spec maxConnections 0); lia. }
  destruct Hok as [Cu Ci Cs Co Ch Cz]. assert (Hnd : NoDup (conn_ids (ct_Conns s) ++ ct_Closing s ++ ct_ClosedConns s)).
  { rewrite Ci. apply NoDup_seq. }
  split_and!; try done.
  - intros i a k Hi Hc. destruct (Ch i a k Hi) as [_ Hh]. destruct (Hh Hc) as (e & He & <-). split; [|exists e; split_and!; try done; by apply Cu].
    intros Hin. apply NoDup_app in Hnd as (_ & Hd & _). eapply Hd; [|apply elem_of_app; right; exact Hin].
    apply list_elem_of_fmap. exists (a, e). split; [done|by apply elem_of_map_to_list].
  - apply NoDup_app in Hnd as (_ & _ & Hnd). by apply NoDup_app in Hnd as (_ & _ & ?).
Qed.
