(* ===== verification/Discovery.v ===== *)
(** * Addresses of sandboxes and name servers: [internal/discovery/kubernetes.go] and the
    resolver of [internal/consumer/rocketmq.go]

    The ready endpoints of a Kubernetes Service, and the name servers of RocketMQ with
    the addresses that were last found for them. The addresses are those of [net]:
    [JoinHostPort] and [SplitHostPort]. [net.ParseIP] and DNS are parameters. The second
    part proves which addresses come out, and that they can be taken apart again. *)
From stdpp Require Import prelude gmap strings sorting pretty.
From S2P Require Import Prelude.
From S2P Require Import GoText.
From S2P Require Import Manifest.
From S2P Require Import HttpServer.
From S2P Require Import Scheduler.

Open Scope Z_scope.

(** ** [net.JoinHostPort] and [net.SplitHostPort] *)
Definition JoinHostPort (host port : string) : string :=
  if contains_byte 58 host then "[" +:+ host +:+ "]:" +:+ port else host +:+ ":" +:+ port.

(** The place of the first and of the last such byte. *)
Fixpoint index_byte (b : Z) (s : string) : option nat :=
  match s with
  | "" => None
  | String a s => if byte_of a =? b then Some O else S <$> index_byte b s
  end.

Fixpoint last_index (b : Z) (s : string) : option nat :=
  match s with
  | "" => None
  | String a s =>
      match last_index b s with
      | Some i => Some (S i)
      | None => if byte_of a =? b then Some O else None
      end
  end.

(** The checks of brackets that are out of place, from [j] and [k] on. *)
Definition unexpected_bracket (j k : nat) (hostport : string) : bool :=
  contains_byte 91 (sdrop j hostport) || contains_byte 93 (sdrop k hostport).

Definition SplitHostPort (hostport : string) : option (string * string) :=
  i ← last_index 58 hostport;
  let port := sdrop (S i) hostport in
  if bool_decide (stake 1 hostport = "[") then
    finish ← index_byte 93 hostport;
    if negb (S finish =? i)%nat then None
    else if unexpected_bracket 1 (S finish) hostport then None
    else Some (stake (finish - 1) (sdrop 1 hostport), port)
  else
    let host := stake i hostport in
    if contains_byte 58 host then None
    else if unexpected_bracket 0 0 hostport then None
    else Some (host, port).

(** [sort.Strings] over the keys of a map. *)
Definition sorted_keys (keys : gset string) : list string := merge_sort String.le (elements keys).

(** ** Endpoints of a Service *)
Record EndpointPort : Type := mkEndpointPort {
  ep_Name : option string;
  ep_Port : option Z;
  ep_Protocol : option string
}.

Record Endpoint : Type := mkEndpoint {
  en_Addresses : list string;
  en_Ready : option bool;
  en_Terminating : option bool
}.

Record EndpointSlice : Type := mkEndpointSlice {
  es_Ports : list EndpointPort;
  es_Endpoints : list Endpoint
}.

Fixpoint endpointPort (ports : list EndpointPort) (name : string) : option Z :=
  match ports with
  | [] => None
  | port :: ports =>
      match ep_Name port, ep_Port port with
      | Some n, Some number =>
          if negb (bool_decide (n = name)) then endpointPort ports name
          else if match ep_Protocol port with Some protocol => negb (bool_decide (protocol = "TCP")) | None => false end
               then endpointPort ports name
          else Some number
      | _, _ => endpointPort ports name
      end
  end.

(** The endpoints that the loop does not pass over. *)
Definition endpoint_serves (endpoint : Endpoint) : bool :=
  match en_Ready endpoint with
  | Some true => match en_Terminating endpoint with Some true => false | _ => true end
  | _ => false
  end.

Definition slice_addresses (portName : string) (slice : EndpointSlice) : list string :=
  match endpointPort (es_Ports slice) portName with
  | None => []
  | Some port =>
      filter (λ e, endpoint_serves e = true) (es_Endpoints slice) ≫= λ endpoint,
      (λ address, JoinHostPort address (pretty port)) <$> en_Addresses endpoint
  end.

Definition EndpointAddresses (slices : list EndpointSlice) (portName : string) : list string :=
  sorted_keys (list_to_set (slices ≫= slice_addresses portName)).

(** [KubernetesDiscovery.Endpoints], with what the API answers. *)
Definition Endpoints (answer : option (list EndpointSlice)) (portName : string) : result unit (list string) :=
  match answer with
  | None => Err tt
  | Some slices => Ok (EndpointAddresses slices portName)
  end.

(** ** Name servers *)
Record nameServerEndpoint : Type := mkNameServer {
  ns_host : string;
  ns_port : string;
  ns_ipLiteral : bool
}.

Record nameServerResolver : Type := mkResolver {
  nr_endpoints : list nameServerEndpoint;
  nr_lastGood : list string
}.

Section Resolver.
(** [ParseIP] gives the text of the address, and a lookup is numbered by its endpoint. *)
Context (ParseIP : string → option string).

Definition parse_name_server (part : string) : option nameServerEndpoint :=
  let address := trim_space part in
  if bool_decide (address = "") then None
  else
    '(host, port) ← SplitHostPort address;
    if bool_decide (host = "") || bool_decide (port = "") then None
    else Some (mkNameServer host port (is_some (ParseIP host))).

Definition newRocketMQNameServerResolver (raw : string) : option nameServerResolver :=
  if blank raw then None
  else
    endpoints ← mapM parse_name_server (split_on 59 raw);
    Some (mkResolver endpoints []).

(** The addresses of one endpoint; [None] where the code falls back. *)
Definition resolve_endpoint (lookup : string → option (list string)) (endpoint : nameServerEndpoint) : option (list string) :=
  if ns_ipLiteral endpoint then Some [JoinHostPort (ns_host endpoint) (ns_port endpoint)]
  else
    match lookup (ns_host endpoint) with
    | None | Some [] => None
    | Some addresses => mapM (λ address, ip ← ParseIP (trim_space address); Some (JoinHostPort ip (ns_port endpoint))) addresses
    end.

Fixpoint resolve_endpoints (lookup : nat → string → option (list string)) (i : nat) (endpoints : list nameServerEndpoint)
  : option (gset string) :=
  match endpoints with
  | [] => Some ∅
  | endpoint :: endpoints =>
      addresses ← resolve_endpoint (lookup i) endpoint;
      resolved ← resolve_endpoints lookup (S i) endpoints;
      Some (list_to_set addresses ∪ resolved)
  end.

Definition Resolve (lookup : nat → string → option (list string)) (resolver : nameServerResolver)
  : list string * nameServerResolver :=
  match resolve_endpoints lookup 0 (nr_endpoints resolver) with
  | None => (nr_lastGood resolver, resolver)
  | Some resolved =>
      if bool_decide (resolved = ∅) then (nr_lastGood resolver, resolver)
      else let addresses := sorted_keys resolved in (addresses, mkResolver (nr_endpoints resolver) addresses)
  end.
End Resolver.

(** The checks of [NewRocketMQConsumer], with its resolver; the processor is not nil. *)
Definition NewRocketMQConsumer ParseIP (nameServer group topic : string) (maxReconsumeTimes : Z) : option nameServerResolver :=
  if bool_decide (nameServer = "") || bool_decide (group = "") || bool_decide (topic = "") || (maxReconsumeTimes <=? 0) then None
  else newRocketMQNameServerResolver ParseIP nameServer.

(** Several calls, one after the other. *)
Fixpoint Resolve_all ParseIP (lookups : list (nat → string → option (list string))) (resolver : nameServerResolver)
  : list (list string) * nameServerResolver :=
  match lookups with
  | [] => ([], resolver)
  | lookup :: lookups =>
      let (addresses, resolver) := Resolve ParseIP lookup resolver in
      let (rest, resolver) := Resolve_all ParseIP lookups resolver in
      (addresses :: rest, resolver)
  end.

(** ** Round trip of an address *)
Lemma index_byte_append b s t :
  contains_byte b s = false → index_byte b (s +:+ t) = (λ i, String.length s + i)%nat <$> index_byte b t.
Proof.
  unfold contains_byte. induction s as [|a s IH]; cbn.
  - intros _. by destruct (index_byte b t).
  - intros [Ha Hs]%negb_false_iff%andb_true_iff. apply negb_true_iff in Ha. rewrite Ha, IH by (by rewrite Hs).
    by destruct (index_byte b t).
Qed.

Lemma last_index_none b s : contains_byte b s = false → last_index b s = None.
Proof.
  unfold contains_byte. induction s as [|a s IH]; cbn; [done|].
  intros [Ha Hs]%negb_false_iff%andb_true_iff. apply negb_true_iff in Ha. rewrite IH by (by rewrite Hs). by rewrite Ha.
Qed.

Lemma last_index_append b s t i : last_index b t = Some i → last_index b (s +:+ t) = Some (String.length s + i)%nat.
Proof. intros H. induction s as [|a s IH]; cbn; [done|]. by rewrite IH. Qed.

Lemma contains_byte_append b s t : contains_byte b (s +:+ t) = contains_byte b s || contains_byte b t.
Proof. unfold contains_byte. induction s as [|a s IH]; cbn; [done|]. by destruct (byte_of a =? b); cbn. Qed.

Definition plain_port (port : string) : Prop :=
  contains_byte 58 port = false ∧ contains_byte 91 port = false ∧ contains_byte 93 port = false.

Lemma SplitHostPort_JoinHostPort host port :
  plain_port port → contains_byte 91 host = false → contains_byte 93 host = false →
  SplitHostPort (JoinHostPort host port) = Some (host, port).
Proof.
  intros (Hp58 & Hp91 & Hp93) Hh91 Hh93. unfold JoinHostPort.
  assert (∀ s, last_index 58 (s +:+ ":" +:+ port) = Some (String.length s)) as Hlast.
  { intros s. rewrite (last_index_append _ s _ 0); [f_equal; lia|]. cbn. by rewrite last_index_none. }
  destruct (contains_byte 58 host) eqn:Hcolon; unfold SplitHostPort.
  - replace ("[" +:+ host +:+ "]:" +:+ port) with (("[" +:+ host +:+ "]") +:+ ":" +:+ port)
      by (rewrite !string_append_assoc; done).
    rewrite Hlast. cbn [mbind option_bind]. rewrite !string_append_assoc.
    assert (sdrop 1 ("[" +:+ host +:+ "]" +:+ ":" +:+ port) = host +:+ "]:" +:+ port) as Hrest by done.
    assert (index_byte 93 ("[" +:+ host +:+ "]" +:+ ":" +:+ port) = Some (S (String.length host))) as ->.
    { change (S <$> index_byte 93 (host +:+ "]:" +:+ port) = Some (S (String.length host))).
      rewrite index_byte_append by done. assert (index_byte 93 ("]:" +:+ port) = Some O) as -> by done. cbn. do 2 f_equal. apply Nat.add_0_r. }
    rewrite bool_decide_true by done. cbn [mbind option_bind].
    replace (String.length ("[" +:+ host +:+ "]")) with (S (S (String.length host)))
      by (rewrite !string_length_append; cbn; lia).
    rewrite Nat.eqb_refl. cbn [negb].
    assert (sdrop (S (S (String.length host))) ("[" +:+ host +:+ "]" +:+ ":" +:+ port) = ":" +:+ port) as Hafter.
    { rewrite <- !string_append_assoc. rewrite (string_append_assoc _ ":" port). apply sdrop_append.
      rewrite !string_length_append. cbn. lia. }
    assert (sdrop (S (S (S (String.length host)))) ("[" +:+ host +:+ "]" +:+ ":" +:+ port) = port) as Hport.
    { rewrite <- !string_append_assoc. apply sdrop_append. rewrite !string_length_append. cbn. lia. }
    unfold unexpected_bracket. rewrite Hrest, Hafter, Hport, !contains_byte_append, Hh91, Hp91, Hp93. cbn.
    rewrite Nat.sub_0_r. by rewrite stake_append.
  - rewrite Hlast. cbn [mbind option_bind].
    rewrite bool_decide_false.
    2:{ destruct host as [|a host]; cbn; [done|]. intros [= ->]. discriminate Hh91. }
    assert (sdrop (S (String.length host)) (host +:+ ":" +:+ port) = port) as ->.
    { rewrite <- string_append_assoc, sdrop_append by (rewrite string_length_append; cbn; lia). done. }
    assert (unexpected_bracket 0 0 (host +:+ ":" +:+ port) = false) as ->.
    { unfold unexpected_bracket. cbn [sdrop]. by rewrite !contains_byte_append, Hh91, Hh93, Hp91, Hp93. }
    by rewrite stake_append, Hcolon.
Qed.

Lemma contains_byte_stake b n s : contains_byte b s = false → contains_byte b (stake n s) = false.
Proof. rewrite <- (stake_sdrop n s) at 1. rewrite contains_byte_append. by intros [? _]%orb_false_iff. Qed.

Lemma contains_byte_sdrop b n m s : (n ≤ m)%nat → contains_byte b (sdrop n s) = false → contains_byte b (sdrop m s) = false.
Proof.
  revert n s. induction m as [|m IH]; intros [|n] s Hle; try done; [lia| |].
  - destruct s as [|a s]; [done|]. unfold contains_byte in *. cbn. intros H. apply (IH 0%nat); [lia|].
    apply negb_false_iff, andb_true_iff in H as [_ H]. by apply negb_false_iff.
  - destruct s as [|a s]; [done|]. cbn. apply IH. lia.
Qed.

Lemma last_index_after b s i : last_index b s = Some i → contains_byte b (sdrop (S i) s) = false.
Proof.
  revert i. induction s as [|a s IH]; [done|]. intros i. cbn [last_index].
  destruct (last_index b s) as [j|] eqn:Hj.
  - intros [= <-]. by apply IH.
  - destruct (byte_of a =? b); [|done]. intros [= <-]. cbn [sdrop].
    clear IH. revert Hj. induction s as [|c s IH]; [done|]. cbn [last_index].
    destruct (last_index b s); [done|]. destruct (byte_of c =? b) eqn:Hc; [done|]. intros _.
    unfold contains_byte in *. cbn [string_forallb]. rewrite Hc. by apply IH.
Qed.

Lemma index_byte_before b s i : index_byte b s = Some i → contains_byte b (stake i s) = false.
Proof.
  revert i. induction s as [|a s IH]; [done|]. intros i. cbn [index_byte].
  destruct (byte_of a =? b) eqn:Ha; [by intros [= <-]|]. intros (j & Hj & ->)%fmap_Some.
  unfold contains_byte. cbn [stake string_forallb]. rewrite Ha. by apply IH.
Qed.

Lemma SplitHostPort_plain hostport host port :
  SplitHostPort hostport = Some (host, port) →
  plain_port port ∧ contains_byte 91 host = false ∧ contains_byte 93 host = false.
Proof.
  unfold SplitHostPort. intros H. apply bind_Some in H as (i & Hi & H). pose proof (last_index_after _ _ _ Hi) as Hport.
  destruct (bool_decide _) eqn:Hbracket.
  - apply bind_Some in H as (e & He & H). destruct (S e =? i)%nat eqn:Hei; [|done]. apply Nat.eqb_eq in Hei.
    cbn [negb] in H. destruct (unexpected_bracket _ _ _) eqn:Hb; [done|]. injection H as <- <-.
    apply orb_false_iff in Hb as [Hb1 Hb2]. split_and!; [split_and!|..].
    + done.
    + apply (contains_byte_sdrop _ 1 (S i)); [lia|done].
    + apply (contains_byte_sdrop _ (S e) (S i)); [lia|done].
    + by apply contains_byte_stake.
    + apply index_byte_before in He. destruct e as [|e]; [done|]. destruct hostport as [|a hostport]; [done|].
      cbn. rewrite Nat.sub_0_r. unfold contains_byte in *. cbn in He.
      apply negb_false_iff, andb_true_iff in He as [_ He]. by apply negb_false_iff.
  - destruct (contains_byte 58 (stake i hostport)) eqn:Hc; [done|].
    destruct (unexpected_bracket _ _ _) eqn:Hb; [done|]. injection H as <- <-.
    apply orb_false_iff in Hb as [Hb1 Hb2]. cbn [sdrop] in Hb1, Hb2. split_and!; [split_and!|..].
    + done.
    + apply (contains_byte_sdrop _ 0 (S i)); [lia|done].
    + apply (contains_byte_sdrop _ 0 (S i)); [lia|done].
    + by apply contains_byte_stake.
    + by apply contains_byte_stake.
Qed.

(** ** Which addresses come out *)
Lemma sorted_keys_ok keys :
  Sorted String.le (sorted_keys keys) ∧ NoDup (sorted_keys keys) ∧ ∀ a, a ∈ sorted_keys keys ↔ a ∈ keys.
Proof.
  unfold sorted_keys. split_and!.
  - apply Sorted_merge_sort. apply _.
  - rewrite merge_sort_Permutation. apply NoDup_elements.
  - intros a. rewrite merge_sort_Permutation. apply elem_of_elements.
Qed.

(** A port that carries TCP under a name; a port without a protocol carries TCP. *)
Definition tcp_port (portName : string) (port : EndpointPort) (number : Z) : Prop :=
  ep_Name port = Some portName ∧ ep_Port port = Some number ∧ (ep_Protocol port = None ∨ ep_Protocol port = Some "TCP").

(** The port of a slice is the first such port. *)
Definition slice_port (slice : EndpointSlice) (portName : string) (number : Z) : Prop :=
  ∃ before port after, es_Ports slice = before ++ port :: after ∧ tcp_port portName port number ∧
    Forall (λ other, ∀ n, ¬ tcp_port portName other n) before.

(** The address of an endpoint that says it is ready, and does not say that it
    terminates, on the port of its slice. *)
Definition ready_address (slices : list EndpointSlice) (portName a : string) : Prop :=
  ∃ slice endpoint address number,
    slice ∈ slices ∧ endpoint ∈ es_Endpoints slice ∧ en_Ready endpoint = Some true ∧ en_Terminating endpoint ≠ Some true ∧
    address ∈ en_Addresses endpoint ∧ slice_port slice portName number ∧ a = JoinHostPort address (pretty number).

Lemma endpoint_serves_iff endpoint :
  endpoint_serves endpoint = true ↔ en_Ready endpoint = Some true ∧ en_Terminating endpoint ≠ Some true.
Proof. unfold endpoint_serves. destruct (en_Ready endpoint) as [[]|], (en_Terminating endpoint) as [[]|]; naive_solver. Qed.

Lemma endpointPort_cons port ports name number :
  endpointPort (port :: ports) name = Some number ↔
  tcp_port name port number ∨ (∀ n, ¬ tcp_port name port n) ∧ endpointPort ports name = Some number.
Proof.
  unfold tcp_port. cbn [endpointPort]. destruct (ep_Name port) as [n|]; [|naive_solver]. destruct (ep_Port port) as [k|]; [|naive_solver].
  destruct (bool_decide_reflect (n = name)) as [->|]; cbn [negb]; [|naive_solver].
  destruct (ep_Protocol port) as [protocol|]; [|naive_solver].
  destruct (bool_decide_reflect (protocol = "TCP")) as [->|]; cbn [negb]; naive_solver.
Qed.

Lemma endpointPort_iff slice name number : endpointPort (es_Ports slice) name = Some number ↔ slice_port slice name number.
Proof.
  unfold slice_port. induction (es_Ports slice) as [|port ports IH]; [split; [done|by intros ([] & ? & ? & ? & _)]|].
  rewrite endpointPort_cons, IH. split.
  - intros [Hp|(Hn & before & port' & after & -> & Hp & Hb)].
    + exists [], port, ports. split; [done|]. split; [exact Hp|constructor].
    + exists (port :: before), port', after. split; [done|]. split; [exact Hp|by constructor].
  - intros ([|p0 before] & port' & after & Heq & Hp & Hb); simplify_eq/=; [by left|right].
    apply Forall_cons in Hb as [Hn Hb]. split; [done|]. by exists before, port', after.
Qed.

Lemma slice_addresses_ok portName slice a :
  a ∈ slice_addresses portName slice ↔
  ∃ endpoint address number, endpoint ∈ es_Endpoints slice ∧ en_Ready endpoint = Some true ∧ en_Terminating endpoint ≠ Some true ∧
    address ∈ en_Addresses endpoint ∧ slice_port slice portName number ∧ a = JoinHostPort address (pretty number).
Proof.
  unfold slice_addresses. setoid_rewrite <-endpointPort_iff. destruct (endpointPort (es_Ports slice) portName) as [port|].
  - rewrite list_elem_of_bind. setoid_rewrite list_elem_of_fmap. setoid_rewrite list_elem_of_filter. setoid_rewrite endpoint_serves_iff. split.
    + intros (e & (address & -> & Haddr) & [Hr Ht] & He). by exists e, address, port.
    + intros (e & address & port' & He & Hr & Ht & Haddr & [= <-] & ->). exists e. split; [by exists address|done].
  - rewrite elem_of_nil. split; [done|]. by intros (? & ? & ? & _ & _ & _ & _ & ? & _).
Qed.

Lemma EndpointAddresses_ok slices portName a : a ∈ EndpointAddresses slices portName ↔ ready_address slices portName a.
Proof.
  unfold EndpointAddresses, ready_address. rewrite (proj2 (proj2 (sorted_keys_ok _))), elem_of_list_to_set, list_elem_of_bind.
  setoid_rewrite slice_addresses_ok. split.
  - intros (slice & (e & address & port & ?) & Hslice). by exists slice, e, address, port.
  - intros (slice & e & address & port & Hslice & ?). exists slice. split; [by exists e, address, port|done].
Qed.

(** C35: after a refresh from the API the scheduler has exactly the addresses of the
    endpoints that say they are ready and do not say they terminate, on the first port
    of their slice that has the configured name, a number, and TCP or no protocol, each
    once and in order; and a sandbox it selects is one of them; it fails only when
    there is none. A refresh that fails leaves its endpoints alone. *)
Theorem selected_sandbox_ready s answer portName excluded :
  scheduler_wf s → match answer with Some slices => Z.of_nat (length (EndpointAddresses slices portName)) < max_int64 | None => True end →
  let s' := (Refresh s (Endpoints answer portName)).2 in
  match answer with
  | None => s' = s
  | Some slices =>
      Sorted String.le (endpoints s') ∧ NoDup (endpoints s') ∧
      (∀ a, a ∈ endpoints s' ↔ ready_address slices portName a) ∧
      match SelectSandboxExcluding s' excluded with
      | (Ok a, _) => ready_address slices portName a ∧ a ∉ excluded
      | (Err _, _) => ∀ a, ready_address slices portName a → a ∈ excluded
      end
  end.
Proof.
  intros Hwf Hlen. destruct answer as [slices|]; [|done]. cbn zeta.
  assert (endpoints (Refresh s (Endpoints (Some slices) portName)).2 = EndpointAddresses slices portName) as Heq.
  { cbn. by destruct (EndpointAddresses slices portName). }
  pose proof (Refresh_wf s (Endpoints (Some slices) portName) Hwf Hlen) as Hwf'.
  pose proof (SelectSandboxExcluding_spec _ excluded Hwf') as Hspec. rewrite Heq in *.
  destruct (sorted_keys_ok (list_to_set (slices ≫= slice_addresses portName))) as (Hsorted & Hnd & _).
  split_and!; [done|done|intros a; apply EndpointAddresses_ok|].
  destruct (SelectSandboxExcluding _ _) as [[a|e] s''].
  - destruct Hspec as (Ha & Hx & _). split; [|done]. by apply EndpointAddresses_ok.
  - intros a Ha. apply Hspec. by apply EndpointAddresses_ok.
Qed.

(** ** Name servers *)
Section Servers.
Context (ParseIP : string → option string).
(** The text of an address has no brackets. *)
Hypothesis ParseIP_plain : ∀ s ip, ParseIP s = Some ip → contains_byte 91 ip = false ∧ contains_byte 93 ip = false.

Definition server_plain (endpoint : nameServerEndpoint) : Prop :=
  plain_port (ns_port endpoint) ∧ contains_byte 91 (ns_host endpoint) = false ∧ contains_byte 93 (ns_host endpoint) = false.

Lemma new_resolver_plain raw resolver :
  newRocketMQNameServerResolver ParseIP raw = Some resolver → Forall server_plain (nr_endpoints resolver) ∧ nr_lastGood resolver = [].
Proof.
  unfold newRocketMQNameServerResolver. destruct (blank raw); [done|]. intros (es & Hes & [= <-])%bind_Some. split; [|done]. cbn.
  apply mapM_Some_1 in Hes. eapply Forall2_Forall_r; [exact Hes|]. apply Forall_forall. intros part _ endpoint.
  unfold parse_name_server. destruct (bool_decide _); [done|]. intros ([host port] & Hsplit & H)%bind_Some.
  destruct (_ || _); [done|]. injection H as <-. by apply SplitHostPort_plain in Hsplit.
Qed.

(** Every address that is found can be taken apart again. *)
Lemma resolve_endpoint_split lookup endpoint addresses a :
  server_plain endpoint → resolve_endpoint ParseIP lookup endpoint = Some addresses → a ∈ addresses →
  ∃ host, SplitHostPort a = Some (host, ns_port endpoint).
Proof using ParseIP_plain.
  intros (Hport & H91 & H93). unfold resolve_endpoint. destruct (ns_ipLiteral endpoint).
  - intros [= <-] ->%list_elem_of_singleton. eexists. by apply SplitHostPort_JoinHostPort.
  - destruct (lookup (ns_host endpoint)) as [[|ip ips]|]; [done| |done]. intros Hm%mapM_Some_1 [i Hi]%list_elem_of_lookup.
    destruct (Forall2_lookup_r _ _ _ _ _ Hm Hi) as (x & _ & Hx). apply bind_Some in Hx as (ip' & Hip & [= <-]).
    apply ParseIP_plain in Hip as []. eexists. by apply SplitHostPort_JoinHostPort.
Qed.

Lemma resolve_endpoints_ok lookup i es resolved :
  resolve_endpoints ParseIP lookup i es = Some resolved →
  ∀ a, a ∈ resolved ↔ ∃ j endpoint addresses,
    es !! j = Some endpoint ∧ resolve_endpoint ParseIP (lookup (i + j)%nat) endpoint = Some addresses ∧ a ∈ addresses.
Proof.
  revert i resolved. induction es as [|e es IH]; intros i resolved; cbn.
  - intros [= <-] a. split; [set_solver|]. by intros (j & ? & ? & Hj & _).
  - intros (addresses & He & H)%bind_Some a. apply bind_Some in H as (rest & Hrest & [= <-]).
    rewrite elem_of_union, elem_of_list_to_set, (IH _ _ Hrest). split.
    + intros [Ha|(j & e' & as' & Hj & H & Ha)].
      * exists 0%nat, e, addresses. by rewrite Nat.add_0_r.
      * exists (S j), e', as'. by rewrite Nat.add_succ_r.
    + intros ([|j] & e' & as' & Hj & H & Ha); cbn in Hj.
      * left. rewrite Nat.add_0_r in H. congruence.
      * right. exists j, e', as'. by rewrite Nat.add_succ_r in H.
Qed.

(** What one call answers. *)
Definition resolution lookup (resolver : nameServerResolver) (addresses : list string) : Prop :=
  Sorted String.le addresses ∧ NoDup addresses ∧ addresses ≠ [] ∧
  (∀ i endpoint, nr_endpoints resolver !! i = Some endpoint → is_Some (resolve_endpoint ParseIP (lookup i) endpoint)) ∧
  ∀ a, a ∈ addresses ↔ ∃ i endpoint found,
    nr_endpoints resolver !! i = Some endpoint ∧ resolve_endpoint ParseIP (lookup i) endpoint = Some found ∧ a ∈ found.

Lemma resolve_endpoints_all lookup i es resolved j endpoint :
  resolve_endpoints ParseIP lookup i es = Some resolved → es !! j = Some endpoint →
  is_Some (resolve_endpoint ParseIP (lookup (i + j)%nat) endpoint).
Proof.
  revert i resolved j. induction es as [|e es IH]; intros i resolved j; [done|]. cbn.
  intros (addresses & He & H)%bind_Some. apply bind_Some in H as (rest & Hrest & _). destruct j as [|j]; cbn.
  - intros [= <-]. rewrite Nat.add_0_r. eauto.
  - rewrite Nat.add_succ_r. by apply (IH (S i) rest).
Qed.

Lemma Resolve_ok lookup resolver :
  let (addresses, resolver') := Resolve ParseIP lookup resolver in
  nr_endpoints resolver' = nr_endpoints resolver ∧ nr_lastGood resolver' = addresses ∧
  (addresses = nr_lastGood resolver ∨ resolution lookup resolver addresses).
Proof.
  unfold Resolve. destruct (resolve_endpoints ParseIP lookup 0 (nr_endpoints resolver)) as [resolved|] eqn:Hr; [|by eauto].
  case_bool_decide as Hempty; [by eauto|]. cbn. split_and!; [done|done|]. right.
  destruct (sorted_keys_ok resolved) as (Hs & Hnd & Hin). pose proof (resolve_endpoints_ok _ _ _ _ Hr) as Hmem.
  split_and!; [done|done| | |].
  - intros Hnil. apply Hempty. apply set_eq. intros a. rewrite <- Hin, Hnil, elem_of_nil. set_solver.
  - intros i endpoint. exact (resolve_endpoints_all _ 0 _ _ i _ Hr).
  - intros a. rewrite Hin. apply Hmem.
Qed.

(** Each answer of a sequence of calls is that of its call or the one before. *)
Definition answers_follow (last : list string) (answers : list (list string)) (i : nat) (addresses : list string) : Prop :=
  addresses = (match i with O => last | S j => default [] (answers !! j) end).

Lemma Resolve_all_ok lookups resolver :
  let answers := (Resolve_all ParseIP lookups resolver).1 in
  length answers = length lookups ∧
  ∀ i lookup addresses, lookups !! i = Some lookup → answers !! i = Some addresses →
    answers_follow (nr_lastGood resolver) answers i addresses ∨ resolution lookup resolver addresses.
Proof.
  revert resolver. induction lookups as [|lookup lookups IH]; intros resolver; [done|]. cbn.
  pose proof (Resolve_ok lookup resolver) as H. destruct (Resolve ParseIP lookup resolver) as [addresses resolver'].
  destruct H as (Hes & Hlast & Hcase). specialize (IH resolver'). cbn zeta in IH.
  destruct (Resolve_all ParseIP lookups resolver') as [rest resolver'']. cbn in *. destruct IH as [Hlen IH].
  split; [by rewrite Hlen|]. intros [|i] l a; cbn.
  - intros [= <-] [= <-]. exact Hcase.
  - intros Hl Ha. destruct (IH i l a Hl Ha) as [H|H].
    + left. unfold answers_follow in *. destruct i as [|i]; cbn; [by rewrite H|exact H].
    + right. unfold resolution in *. by rewrite Hes in H.
Qed.
End Servers.

(** C36: each call of the resolver answers with exactly the addresses that all its
    endpoints resolve to at that call, each once and in order, or with the answer of the
    call before; once it has found name servers it always answers with some. The host and
    port of every address can be told apart, and the port is that of an endpoint. *)
Theorem name_servers_resolved ParseIP raw resolver lookups :
  (∀ s ip, ParseIP s = Some ip → contains_byte 91 ip = false ∧ contains_byte 93 ip = false) →
  newRocketMQNameServerResolver ParseIP raw = Some resolver →
  let answers := (Resolve_all ParseIP lookups resolver).1 in
  length answers = length lookups ∧
  ∀ i lookup addresses, lookups !! i = Some lookup → answers !! i = Some addresses →
    (addresses = (match i with O => [] | S i => default [] (answers !! i) end) ∨ resolution ParseIP lookup resolver addresses) ∧
    (∀ j earlier, (j < i)%nat → answers !! j = Some earlier → earlier ≠ [] → addresses ≠ []) ∧
    (∀ a, a ∈ addresses → ∃ host port endpoint, SplitHostPort a = Some (host, port) ∧ endpoint ∈ nr_endpoints resolver ∧ port = ns_port endpoint).
Proof.
  intros Hplain Hnew. apply new_resolver_plain in Hnew as [Hes Hlast].
  pose proof (Resolve_all_ok ParseIP Hplain lookups resolver) as H. cbn zeta in *. rewrite Hlast in H.
  destruct (Resolve_all ParseIP lookups resolver) as [answers final]. cbn in *. destruct H as [Hlen H]. split; [done|].
  intros i. induction i as [i IH] using lt_wf_ind. intros lookup addresses Hl Ha.
  assert (∀ j, i = S j → ∃ l previous, lookups !! j = Some l ∧ answers !! j = Some previous) as Hprev.
  { intros j ->. pose proof (lookup_lt_Some _ _ _ Ha).
    destruct (lookup_lt_is_Some_2 answers j) as [previous Hp]; [lia|]. destruct (lookup_lt_is_Some_2 lookups j) as [l Hlj]; [lia|]. eauto. }
  pose proof (H i lookup addresses Hl Ha) as Hcase. split_and!; [exact Hcase| |].
  - intros j earlier Hj Hearlier Hne. destruct Hcase as [Hcase|(_ & _ & ? & _)]; [|done]. destruct i as [|i]; [lia|].
    destruct (Hprev i eq_refl) as (l & previous & Hlp & Hp). unfold answers_follow in Hcase. rewrite Hp in Hcase. cbn in Hcase. subst.
    destruct (decide (j = i)) as [->|Hji]; [congruence|].
    destruct (IH i ltac:(lia) l previous Hlp Hp) as (_ & Hmono & _). apply (Hmono j earlier); [lia|done|done].
  - intros a Hin. destruct Hcase as [Hcase|(_ & _ & _ & _ & Hmem)].
    + unfold answers_follow in Hcase. destruct i as [|i]; [subst; by apply elem_of_nil in Hin|].
      destruct (Hprev i eq_refl) as (l & previous & Hlp & Hp). rewrite Hp in Hcase. cbn in Hcase. subst.
      destruct (IH i ltac:(lia) l previous Hlp Hp) as (_ & _ & Hsplit). by apply Hsplit.
    + apply Hmem in Hin as (k & endpoint & found & Hk & Hfound & Hin). rewrite Forall_forall in Hes.
      assert (endpoint ∈ nr_endpoints resolver) as He by by eapply list_elem_of_lookup_2.
      destruct (resolve_endpoint_split _ Hplain _ _ _ _ (Hes _ He) Hfound Hin) as [host Hhost].
      by exists host, (ns_port endpoint), endpoint.
Qed.
