(* ===== verification/Migrations.v ===== *)
(** * Schema migrations, [internal/external/migrate.go]

    The embedded migrations and the history of those applied, and the application of
    migrations: several processes may apply them at once, over one database with a
    named lock, and each may fail or die between any two statements. The second part
    proves that a database that was ever interrupted is migrated as one that never was.

    The statements, the checks of the information schema and the state they act on are
    parameters. *)
From stdpp Require Import prelude gmap strings sorting.
From S2P Require Import Prelude.
From S2P Require Import GoText.
From S2P Require Import Manifest.
From S2P Require Import HttpServer.

Open Scope Z_scope.

Record Migration : Type := mkMigration {
  mi_Version : Z;
  mi_Name : string;
  mi_Checksum : string;
  mi_SQL : string
}.

(** ** The statements of a migration *)
(** [strings.Split]; [skip] bytes of a separator are still to be passed. *)
Fixpoint split_text (sep : string) (skip : nat) (s : string) : list string :=
  match s with
  | "" => [""]
  | String a t =>
      match skip with
      | S skip => split_text sep skip t
      | O =>
          if has_prefix sep s then "" :: split_text sep (String.length sep - 1) t
          else match split_text sep 0 t with
               | part :: parts => String a part :: parts
               | [] => [String a ""]
               end
      end
  end.

Fixpoint count_byte (b : Z) (s : string) : Z :=
  match s with "" => 0 | String a s => (if byte_of a =? b then 1 else 0) + count_byte b s end.

Definition last_byte (s : string) : option Z := byte_of <$> String.get (String.length s - 1) s.

(** One section, without its semicolon. *)
Definition migration_statement (section : string) : option string :=
  let statement := trim_space section in
  if bool_decide (statement = "") then None
  else if negb (count_byte 59 statement =? 1) || negb (bool_decide (last_byte statement = Some 59)) then None
  else Some (trim_space (stake (String.length statement - 1) statement)).

Definition splitMigrationStatements (script : string) : option (list string) :=
  if blank script then None else mapM migration_statement (split_text "-- migrate:split" 0 script).

(** ** Errors a statement may be replayed over *)
Inductive sql_error : Type :=
| MySQLError (number : Z)
| OtherError.

(** What is left of a line after the blanks at its end. *)
Fixpoint drop_blanks (s : list Ascii.ascii) : list Ascii.ascii :=
  match s with
  | a :: t => if (byte_of a =? 32) || (byte_of a =? 9) then drop_blanks t else s
  | [] => []
  end.

Definition trim_blanks_right (s : string) : string :=
  String.string_of_list_ascii (reverse (drop_blanks (reverse (String.list_ascii_of_string s)))).

(** [migrationReplayErrorsPattern] on one line: its prefix, decimal numbers between
    commas, and blanks up to the end of the line. *)
Definition replay_line (line : string) : option (list string) :=
  let prefix := "-- migrate:replay-errors " in
  if negb (has_prefix prefix line) then None
  else
    let numbers := split_on 44 (trim_blanks_right (sdrop (String.length prefix) line)) in
    if forallb (λ s, negb (bool_decide (s = "")) && string_forallb digit s) numbers then Some numbers else None.

(** The first line that matches. *)
Fixpoint first_match (lines : list string) : option (list string) :=
  match lines with
  | [] => None
  | line :: lines => match replay_line line with Some numbers => Some numbers | None => first_match lines end
  end.

Definition isExplicitlyReplayableMigrationError (statement : string) (e : sql_error) : bool :=
  match first_match (split_on 10 statement), e with
  | Some numbers, MySQLError number =>
      existsb (λ raw, match decimal_value 0 raw with Some n => (n <? 65536) && (n =? number) | None => false end) numbers
  | _, _ => false
  end.

(** ** [Migrations] *)
(** [^([0-9]{3})_([a-z0-9_]+)\.sql$] *)
Definition migrationNamePattern (s : string) : option (string * string) :=
  let digits := stake 3 s in
  let rest := sdrop 4 s in
  let name := stake (String.length rest - 4) rest in
  if (len digits =? 3) && string_forallb digit digits && bool_decide (stake 1 (sdrop 3 s) = "_") && (1 <=? len name) &&
     string_forallb (λ a, lower a || digit a || is_char 95 a) name && bool_decide (sdrop (String.length rest - 4) rest = ".sql")
  then Some (digits, name) else None.

Inductive migrations_error : Type :=
| MigrationFilename (name : string)
| MigrationVersion (name : string)
| MigrationDuplicate (version : Z)
| MigrationStatements (name : string)
| MigrationGap (version : Z).

(** An entry of the embedded directory: its name and its content, [None] for a
    directory. *)
Notation migration_entry := (string * option string)%type.

Section Embedded.
Context (sha256_hex : string → string).

Fixpoint read_migrations (seen : list Z) (entries : list migration_entry) : result migrations_error (list Migration) :=
  match entries with
  | [] => Ok []
  | (_, None) :: entries => read_migrations seen entries
  | (file, Some body) :: entries =>
      '(digits, name) ← from_option (migrationNamePattern file) (MigrationFilename file);
      version ← from_option (Atoi digits) (MigrationVersion file);
      _ ← guard_err (0 <? version) (MigrationVersion file);
      _ ← guard_err (negb (bool_decide (version ∈ seen))) (MigrationDuplicate version);
      _ ← from_option (splitMigrationStatements body) (MigrationStatements file);
      migrations ← read_migrations (version :: seen) entries;
      mret (mkMigration version name (sha256_hex body) body :: migrations)
  end.

Definition older_version (a b : Migration) : Prop := mi_Version a ≤ mi_Version b.

#[export] Instance older_version_dec a b : Decision (older_version a b).
Proof. unfold older_version. apply _. Defined.

(** The check that versions are contiguous from [version]. *)
Fixpoint contiguous (version : Z) (migrations : list Migration) : option migrations_error :=
  match migrations with
  | [] => None
  | m :: migrations => if mi_Version m =? version then contiguous (version + 1) migrations else Some (MigrationGap (mi_Version m))
  end.

Definition Migrations (entries : list migration_entry) : result migrations_error (list Migration) :=
  migrations ← read_migrations [] entries;
  let migrations := merge_sort older_version migrations in
  match contiguous 1 migrations with Some e => Err e | None => Ok migrations end.
End Embedded.

(** ** The history *)
Notation history_table := (gmap Z (string * string)).

Inductive apply_error : Type :=
| ApplyLock
| ApplyHistory
| ApplyMissing (version : Z)
| ApplyNameDrift (version : Z)
| ApplyChecksumDrift (version : Z)
| ApplyUnknown (version : Z)
| ApplyParse (version : Z)
| ApplyStatement (version : Z)
| ApplyPostcondition (version : Z)
| ApplyRecord (version : Z)
| ApplyRelease
| ApplyCrashed.

Fixpoint history_matches (migrations : list Migration) (h : history_table) : result apply_error unit :=
  match migrations with
  | [] => Ok tt
  | m :: migrations =>
      match h !! mi_Version m with
      | None => Err (ApplyMissing (mi_Version m))
      | Some (name, checksum) =>
          _ ← guard_err (bool_decide (name = mi_Name m)) (ApplyNameDrift (mi_Version m));
          _ ← guard_err (bool_decide (checksum = mi_Checksum m)) (ApplyChecksumDrift (mi_Version m));
          history_matches migrations h
      end
  end.

(** The versions that no migration has. *)
Definition unknown_versions {A} (migrations : list Migration) (h : gmap Z A) : list Z :=
  filter (λ version, version ∉ (mi_Version <$> migrations)) (map_to_list h).*1.

Definition known_versions {A} (migrations : list Migration) (h : gmap Z A) : result apply_error unit :=
  match unknown_versions migrations h with [] => Ok tt | version :: _ => Err (ApplyUnknown version) end.

(** [validateMigrationHistory]; the version is the key of the table. *)
Definition validateMigrationHistory (migrations : list Migration) (h : history_table) : result apply_error unit :=
  _ ← history_matches migrations h;
  known_versions migrations h.

(** The checks of [applyMigrations] before it applies anything. *)
Fixpoint checksums_match (migrations : list Migration) (applied : gmap Z string) : result apply_error unit :=
  match migrations with
  | [] => Ok tt
  | m :: migrations =>
      _ ← guard_err (match applied !! mi_Version m with Some checksum => bool_decide (checksum = mi_Checksum m) | None => true end)
            (ApplyChecksumDrift (mi_Version m));
      checksums_match migrations applied
  end.

Definition check_applied (migrations : list Migration) (applied : gmap Z string) : result apply_error unit :=
  _ ← checksums_match migrations applied;
  known_versions migrations applied.

(** ** Applying them *)
(** The database: the schema with its data, the history, absent before it is created,
    and the session that holds the named lock. *)
Record migration_db (S : Type) : Type := mkMigrationDB {
  md_Schema : S;
  md_History : option history_table;
  md_Lock : option nat
}.
Arguments mkMigrationDB {S} _ _ _.
Arguments md_Schema {S} _.
Arguments md_History {S} _.
Arguments md_Lock {S} _.

(** How a call to the database goes: as it should, failing without an effect, with its
    effect but a failure reported, or the process and its session die before it. *)
Inductive call_outcome : Type := Fine | Refused | Lost | Crash.

(** The call that [applyMigrations] makes next. [T] is what a session has of its own,
    the temporary tables. [applied] is what the code read of the history, [rest] the
    migrations after the current one. *)
Inductive migrator (T : Type) : Type :=
| AtLock
| AtCreate (session : T)
| AtRead (session : T)
| AtStatements (m : Migration) (todo : list string) (rest : list Migration) (applied : gmap Z string) (session : T)
| AtPostcondition (m : Migration) (rest : list Migration) (applied : gmap Z string) (session : T)
| AtRecord (m : Migration) (rest : list Migration) (applied : gmap Z string) (session : T)
| AtRelease (outcome : option apply_error)
| Returned (outcome : option apply_error).
Arguments AtLock {T}.
Arguments AtCreate {T} _.
Arguments AtRead {T} _.
Arguments AtStatements {T} _ _ _ _ _.
Arguments AtPostcondition {T} _ _ _ _.
Arguments AtRecord {T} _ _ _ _.
Arguments AtRelease {T} _.
Arguments Returned {T} _.

Section Apply.
Context {S T : Type}.
(** What a statement does, or the error it fails with; what a new session has; and
    whether the schema meets what the code requires after migration 3, 4, 5 or 6. *)
Context (exec : string → T * S → result sql_error (T * S)).
Context (new_session : T).
Context (query : Z → S → bool).

Definition validateMigrationPostconditions (m : Migration) (schema : S) : bool :=
  match find (λ p : Z * string, (mi_Version m =? p.1) && bool_decide (mi_Name m = p.2))
          [(3, "durable_job_fencing"); (4, "tenant_policy_execution_ceilings"); (5, "durable_webhook_outbox");
           (6, "execution_accounting_retention")] with
  | Some (version, _) => query version schema
  | None => true
  end.

(** One statement as the code takes it: a declared error is passed over. *)
Definition advance (statement : string) (p : T * S) : option (T * S) :=
  match exec statement p with
  | Ok p' => Some p'
  | Err e => if isExplicitlyReplayableMigrationError statement e then Some p else None
  end.

Fixpoint advance_all (statements : list string) (p : T * S) : option (T * S) :=
  match statements with
  | [] => Some p
  | statement :: statements => advance statement p ≫= advance_all statements
  end.

(** The head of the loop over the migrations, up to its next call. *)
Fixpoint next_migration (rest : list Migration) (applied : gmap Z string) (session : T) : migrator T :=
  match rest with
  | [] => AtRelease None
  | m :: rest =>
      match applied !! mi_Version m with
      | Some _ => next_migration rest applied session
      | None =>
          match splitMigrationStatements (mi_SQL m) with
          | None => AtRelease (Some (ApplyParse (mi_Version m)))
          | Some [] => AtPostcondition m rest applied session
          | Some statements => AtStatements m statements rest applied session
          end
      end
  end.

Definition set_lock (lock : option nat) (db : migration_db S) : migration_db S :=
  mkMigrationDB (md_Schema db) (md_History db) lock.
Definition set_schema (schema : S) (db : migration_db S) : migration_db S :=
  mkMigrationDB schema (md_History db) (md_Lock db).
Definition set_history (h : history_table) (db : migration_db S) : migration_db S :=
  mkMigrationDB (md_Schema db) (Some h) (md_Lock db).

(** The end of the session of [c], which releases its lock. *)
Definition end_session (c : nat) (db : migration_db S) : migration_db S :=
  if bool_decide (md_Lock db = Some c) then set_lock None db else db.

(** One call of [applyMigrations] by the process with session [c]. A call that is lost
    has its effect, and then the code returns its error. *)
Definition migrator_step (migrations : list Migration) (c : nat) (o : call_outcome) (p : migrator T) (db : migration_db S)
  : migrator T * migration_db S :=
  match p, o with
  | Returned r, _ => (Returned r, db)
  | _, Crash => (Returned (Some ApplyCrashed), end_session c db)
  | AtLock, Fine =>
      match md_Lock db with
      | None => (AtCreate new_session, set_lock (Some c) db)
      | Some _ => (Returned (Some ApplyLock), db)
      end
  | AtLock, _ => (Returned (Some ApplyLock), db)
  | AtCreate t, Fine => (AtRead t, set_history (default ∅ (md_History db)) db)
  | AtCreate t, Lost => (AtRelease (Some ApplyHistory), set_history (default ∅ (md_History db)) db)
  | AtCreate _, _ => (AtRelease (Some ApplyHistory), db)
  | AtRead t, Fine =>
      match md_History db with
      | None => (AtRelease (Some ApplyHistory), db)
      | Some h =>
          let applied := snd <$> h in
          match check_applied migrations applied with
          | Err e => (AtRelease (Some e), db)
          | Ok _ => (next_migration migrations applied t, db)
          end
      end
  | AtRead _, _ => (AtRelease (Some ApplyHistory), db)
  | AtStatements m (s :: todo) rest applied t, Fine =>
      match advance s (t, md_Schema db) with
      | Some (t, schema) =>
          (match todo with [] => AtPostcondition m rest applied t | _ => AtStatements m todo rest applied t end, set_schema schema db)
      | None => (AtRelease (Some (ApplyStatement (mi_Version m))), db)
      end
  | AtStatements m (s :: todo) rest applied t, Lost =>
      (AtRelease (Some (ApplyStatement (mi_Version m))),
       match advance s (t, md_Schema db) with Some (_, schema) => set_schema schema db | None => db end)
  | AtStatements m _ _ _ _, _ => (AtRelease (Some (ApplyStatement (mi_Version m))), db)
  | AtPostcondition m rest applied t, Fine =>
      if validateMigrationPostconditions m (md_Schema db) then (AtRecord m rest applied t, db)
      else (AtRelease (Some (ApplyPostcondition (mi_Version m))), db)
  | AtPostcondition m _ _ _, _ => (AtRelease (Some (ApplyPostcondition (mi_Version m))), db)
  | AtRecord m rest applied t, Refused => (AtRelease (Some (ApplyRecord (mi_Version m))), db)
  | AtRecord m rest applied t, _ =>
      match md_History db with
      | None => (AtRelease (Some (ApplyRecord (mi_Version m))), db)
      | Some h =>
          match h !! mi_Version m, o with
          | Some _, _ => (AtRelease (Some (ApplyRecord (mi_Version m))), db)
          | None, Fine => (next_migration rest applied t, set_history (<[mi_Version m := (mi_Name m, mi_Checksum m)]> h) db)
          | None, _ => (AtRelease (Some (ApplyRecord (mi_Version m))), set_history (<[mi_Version m := (mi_Name m, mi_Checksum m)]> h) db)
          end
      end
  | AtRelease r, Fine => (Returned r, end_session c db)
  | AtRelease r, Lost => (Returned (Some (default ApplyRelease r)), end_session c db)
  | AtRelease r, _ => (Returned (Some (default ApplyRelease r)), db)
  end.

(** [ValidateMigrations]. *)
Fixpoint validate_postconditions (migrations : list Migration) (schema : S) : result apply_error unit :=
  match migrations with
  | [] => Ok tt
  | m :: migrations =>
      _ ← guard_err (validateMigrationPostconditions m schema) (ApplyPostcondition (mi_Version m));
      validate_postconditions migrations schema
  end.

Definition ValidateMigrations (migrations : list Migration) (db : migration_db S) : result apply_error unit :=
  h ← from_option (md_History db) ApplyHistory;
  _ ← validateMigrationHistory migrations h;
  validate_postconditions migrations (md_Schema db).
End Apply.

(** ** Several processes over one database *)
Section Processes.
Context {S T : Type}.
Context (exec : string → T * S → result sql_error (T * S)) (new_session : T) (query : Z → S → bool).

(** All the migrations there will be, and how many of them the program of each session
    embeds: older and newer programs run over the same database. *)
Context (all : list Migration) (program : nat → nat).

Definition embedded (c : nat) : list Migration := take (program c) all.

Notation processes := (gmap nat (migrator T)).

(** A process starts, makes its next call, or closes its session after it returned. *)
Inductive migrators_step : processes * migration_db S → processes * migration_db S → Prop :=
| migrator_starts ps db c :
    ps !! c = None → migrators_step (ps, db) (<[c := AtLock]> ps, db)
| migrator_calls ps db c p o p' db' :
    ps !! c = Some p →
    migrator_step exec new_session query (embedded c) c o p db = (p', db') →
    migrators_step (ps, db) (<[c := p']> ps, db')
| migrator_disconnects ps db c r :
    ps !! c = Some (Returned r) → migrators_step (ps, db) (ps, end_session c db).

(** The specification: the migrations in their order. Each is attempted any number of
    times, from its first statement and up to any of them, and is carried out once in
    full, with its postcondition. The index counts the migrations carried out. *)
Inductive migrated (initial : S) : nat → S → Prop :=
| migrated_none : migrated initial 0 initial
| migrated_attempt n m statements k t schema t' schema' :
    migrated initial n schema →
    all !! n = Some m → splitMigrationStatements (mi_SQL m) = Some statements →
    advance_all exec (take k statements) (t, schema) = Some (t', schema') →
    migrated initial n schema'
| migrated_full n m statements t schema t' schema' :
    migrated initial n schema →
    all !! n = Some m → splitMigrationStatements (mi_SQL m) = Some statements →
    advance_all exec statements (t, schema) = Some (t', schema') →
    validateMigrationPostconditions query m schema' = true →
    migrated initial (Datatypes.S n) schema'.

(** The history of the first [n] migrations. *)
Definition history_entry (m : Migration) : Z * (string * string) := (mi_Version m, (mi_Name m, mi_Checksum m)).
Definition recorded (n : nat) : history_table := list_to_map (history_entry <$> take n all).

Definition history_holds (n : nat) (h : option history_table) : Prop :=
  match h with None => n = O | Some h => h = recorded n end.
End Processes.

(** Between taking the lock and giving it back. *)
Definition holds_lock {T} (p : migrator T) : bool :=
  match p with AtLock | Returned _ => false | _ => true end.

(** ** What the embedded migrations are *)
Lemma read_migrations_parse sha256_hex entries seen migrations :
  read_migrations sha256_hex seen entries = Ok migrations →
  Forall (λ m, is_Some (splitMigrationStatements (mi_SQL m))) migrations.
Proof.
  revert seen migrations. induction entries as [|[file [body|]] entries IH]; intros seen migrations; cbn.
  - intros [= <-]. constructor.
  - intros ([digits name] & _ & (version & _ & (_ & _ & (_ & _ & (ss & Hss & (ms & Hms & Hret)%bind_ok)%bind_ok)%bind_ok)%bind_ok)%bind_ok)%bind_ok.
    injection Hret as <-. constructor; [|by eapply IH].
    apply from_option_ok in Hss. cbn. rewrite Hss. eauto.
  - apply IH.
Qed.

Lemma contiguous_versions version migrations i m :
  contiguous version migrations = None → migrations !! i = Some m → mi_Version m = version + Z.of_nat i.
Proof.
  revert version i. induction migrations as [|m' migrations IH]; intros version i; [done|]. cbn.
  case_match eqn:Hv; [|done]. intros Hc Hi. apply Z.eqb_eq in Hv. destruct i as [|i].
  - injection Hi as <-. lia.
  - apply (IH _ i) in Hc; [lia|done].
Qed.

Lemma Migrations_ok sha256_hex entries all :
  Migrations sha256_hex entries = Ok all →
  ∀ i m, all !! i = Some m → mi_Version m = Z.of_nat i + 1 ∧ is_Some (splitMigrationStatements (mi_SQL m)).
Proof.
  unfold Migrations. intros (ms & Hms & H)%bind_ok. destruct (contiguous 1 _) eqn:Hc; [done|]. injection H as <-.
  intros i m Hi. split.
  - rewrite (contiguous_versions _ _ _ _ Hc Hi). lia.
  - apply read_migrations_parse in Hms. rewrite Forall_forall in Hms. apply Hms.
    apply list_elem_of_lookup_2 in Hi. by rewrite merge_sort_Permutation in Hi.
Qed.

(** ** The history *)
Section Histories.
Context (all : list Migration).
Hypothesis all_ok : ∀ i m, all !! i = Some m → mi_Version m = Z.of_nat i + 1 ∧ is_Some (splitMigrationStatements (mi_SQL m)).

Lemma recorded_lookup n i m :
  all !! i = Some m → recorded all n !! mi_Version m = if decide (i < n)%nat then Some (mi_Name m, mi_Checksum m) else None.
Proof using all_ok.
  intros Hi. induction n as [|n IH]; [done|]. unfold recorded in *.
  destruct (all !! n) as [m'|] eqn:Hn.
  - rewrite (take_S_r _ _ _ Hn), fmap_app, list_to_map_app. cbn.
    pose proof (proj1 (all_ok _ _ Hi)). pose proof (proj1 (all_ok _ _ Hn)).
    destruct (decide (i = n)) as [->|Hne].
    + simplify_eq. rewrite decide_True by lia. rewrite lookup_union_r by (rewrite IH, decide_False by lia; done). by rewrite lookup_insert_eq.
    + rewrite lookup_union_l by (rewrite lookup_insert_ne by lia; apply lookup_empty). rewrite IH.
      destruct (decide (i < n)%nat); [rewrite decide_True by lia|rewrite decide_False by lia]; done.
  - apply lookup_ge_None in Hn. pose proof (lookup_lt_Some _ _ _ Hi).
    rewrite take_ge in IH |- * by lia. rewrite IH, !decide_True by lia. done.
Qed.

Lemma recorded_version n v x : recorded all n !! v = Some x → ∃ i m, (i < n)%nat ∧ all !! i = Some m ∧ v = mi_Version m.
Proof.
  unfold recorded. intros H%elem_of_list_to_map_2. apply list_elem_of_fmap in H as (m & [= -> ->] & Hm).
  apply list_elem_of_lookup in Hm as [i Hi]. apply lookup_take_Some in Hi as [Hi ?]. eauto.
Qed.

Lemma recorded_insert n m :
  all !! n = Some m → <[mi_Version m := (mi_Name m, mi_Checksum m)]> (recorded all n) = recorded all (S n).
Proof using all_ok.
  intros Hn. apply map_eq. intros v. destruct (decide (v = mi_Version m)) as [->|Hne].
  - by rewrite lookup_insert_eq, (recorded_lookup _ _ _ Hn), decide_True by lia.
  - rewrite lookup_insert_ne by done. destruct (recorded all n !! v) eqn:H, (recorded all (S n) !! v) eqn:H'; [..|done].
    + destruct (recorded_version _ _ _ H) as (i & m' & Hi & Hm' & ->).
      rewrite (recorded_lookup _ _ _ Hm'), decide_True in H by lia. rewrite (recorded_lookup _ _ _ Hm'), decide_True in H' by lia. congruence.
    + destruct (recorded_version _ _ _ H) as (i & m' & Hi & Hm' & ->). rewrite (recorded_lookup _ _ _ Hm'), decide_True in H' by lia. done.
    + destruct (recorded_version _ _ _ H') as (i & m' & Hi & Hm' & ->).
      rewrite (recorded_lookup _ _ _ Hm') in H. destruct (decide (i < n)%nat); [done|].
      assert (i = n) as -> by lia. congruence.
Qed.

Lemma known_versions_ok {A} ms (h : gmap Z A) :
  (∀ v x, h !! v = Some x → v ∈ mi_Version <$> ms) → known_versions ms h = Ok tt.
Proof.
  intros Hh. unfold known_versions. destruct (unknown_versions ms h) as [|v vs] eqn:Hu; [done|].
  assert (v ∈ unknown_versions ms h) as Hin by (rewrite Hu; left).
  unfold unknown_versions in Hin. apply list_elem_of_filter in Hin as [Hnot Hin]. destruct Hnot.
  apply list_elem_of_fmap in Hin as ([v' x] & -> & Hx). apply elem_of_map_to_list in Hx. by eapply Hh.
Qed.

Lemma known_ok {A} k n (h : gmap Z A) :
  known_versions (take k all) h = Ok tt → (∀ i m, (i < n)%nat → all !! i = Some m → is_Some (h !! mi_Version m)) →
  (n ≤ length all)%nat → (n ≤ length (take k all))%nat.
Proof using all_ok.
  unfold known_versions. destruct (unknown_versions _ h) eqn:Hu; [|done]. intros _ Hh Hn.
  destruct (decide (n ≤ length (take k all))%nat) as [|Hgt]; [done|exfalso].
  destruct (lookup_lt_is_Some_2 all (length (take k all))) as [m Hm]; [lia|].
  assert (length (take k all) < n)%nat as Hlt by lia. destruct (Hh _ _ Hlt Hm) as [x Hx].
  assert (mi_Version m ∈ unknown_versions (take k all) h) as Hin; [|rewrite Hu in Hin; by apply not_elem_of_nil in Hin].
  unfold unknown_versions. apply list_elem_of_filter. split.
  - intros (m' & Hv & Hm')%list_elem_of_fmap. apply list_elem_of_lookup in Hm' as [j Hj]. pose proof (lookup_lt_Some _ _ _ Hj).
    apply lookup_take_Some in Hj as [Hj _].
    pose proof (proj1 (all_ok _ _ Hj)). pose proof (proj1 (all_ok _ _ Hm)). lia.
  - apply list_elem_of_fmap. exists (mi_Version m, x). split; [done|]. by apply elem_of_map_to_list.
Qed.

Lemma recorded_valid n : (n ≤ length all)%nat → validateMigrationHistory (take n all) (recorded all n) = Ok tt.
Proof using all_ok.
  intros Hn. unfold validateMigrationHistory.
  assert (∀ ms, (∀ m, m ∈ ms → m ∈ take n all) → history_matches ms (recorded all n) = Ok tt) as Hmatch.
  { induction ms as [|m ms IH]; [done|]. intros Hin. cbn.
    assert (m ∈ take n all) as [i Hi]%list_elem_of_lookup by (apply Hin; left). apply lookup_take_Some in Hi as [Hi Hlt].
    rewrite (recorded_lookup _ _ _ Hi), decide_True by lia. rewrite !bool_decide_true by done. cbn.
    apply IH. intros m' Hm'. apply Hin. by right. }
  rewrite Hmatch by done. cbn. apply known_versions_ok. intros v x Hx.
  destruct (recorded_version _ _ _ Hx) as (i & m & Hi & Hm & ->).
  apply list_elem_of_fmap_2. apply list_elem_of_lookup. exists i. by apply lookup_take_Some.
Qed.

Lemma recorded_applied n : check_applied all (snd <$> recorded all n) = Ok tt.
Proof using all_ok.
  unfold check_applied.
  assert (∀ ms, (∀ m, m ∈ ms → m ∈ all) → checksums_match ms (snd <$> recorded all n) = Ok tt) as Hmatch.
  { induction ms as [|m ms IH]; [done|]. intros Hin. cbn.
    assert (m ∈ all) as [i Hi]%list_elem_of_lookup by (apply Hin; left).
    rewrite lookup_fmap, (recorded_lookup _ _ _ Hi).
    assert (checksums_match ms (snd <$> recorded all n) = Ok tt) as Hms by (apply IH; intros m' Hm'; apply Hin; by right).
    destruct (decide (i < n)%nat); cbn; rewrite ?bool_decide_true by done; exact Hms. }
  rewrite Hmatch by done. cbn. apply known_versions_ok. intros v x Hx. rewrite lookup_fmap in Hx.
  destruct (recorded all n !! v) as [y|] eqn:Hy; [|done].
  destruct (recorded_version _ _ _ Hy) as (i & m & Hi & Hm & ->).
  apply list_elem_of_fmap_2. by eapply list_elem_of_lookup_2.
Qed.

Lemma recorded_rest n :
  foldl (λ h m, <[mi_Version m := (mi_Name m, mi_Checksum m)]> h) (recorded all n) (drop n all) = recorded all (length all).
Proof using all_ok.
  remember (drop n all) as rest eqn:Hrest. revert n Hrest. induction rest as [|m rest IH]; intros n Hrest.
  - assert (length all ≤ n)%nat as Hn.
    { apply (f_equal length) in Hrest. rewrite length_drop in Hrest. cbn in Hrest. lia. }
    cbn. unfold recorded. by rewrite (take_ge all n), firstn_all by done.
  - cbn. assert (all !! n = Some m) as Hm by (rewrite <- (Nat.add_0_r n), <- lookup_drop, <- Hrest; done).
    rewrite (recorded_insert _ _ Hm). apply IH. rewrite (drop_S _ _ _ Hm) in Hrest. by injection Hrest.
Qed.
End Histories.

(** ** The invariant *)
Section Invariant.
Context {S T : Type}.
Context (exec : string → T * S → result sql_error (T * S)) (new_session : T) (query : Z → S → bool).
Context (all : list Migration) (program : nat → nat) (initial : S).
Hypothesis all_ok : ∀ i m, all !! i = Some m → mi_Version m = Z.of_nat i + 1 ∧ is_Some (splitMigrationStatements (mi_SQL m)).

Notation processes := (gmap nat (migrator T)).
Notation migrated := (migrated exec query all initial).
Notation embedded := (embedded all program).
Notation step c := (migrator_step exec new_session query (embedded c) c).

(** The loop is at migration [n], and takes none of the later ones for applied. *)
Definition at_migration (n c : nat) (m : Migration) (rest : list Migration) (applied : gmap Z string) : Prop :=
  all !! n = Some m ∧ (n < length (embedded c))%nat ∧ rest = drop (Datatypes.S n) (embedded c) ∧
  ∀ i m', (n ≤ i)%nat → all !! i = Some m' → applied !! mi_Version m' = None.

(** The statements up to [todo] were carried out in this session. *)
Definition under_way (n : nat) (m : Migration) (todo : list string) (session : T) (schema : S) : Prop :=
  ∃ before t0 schema0,
    splitMigrationStatements (mi_SQL m) = Some (before ++ todo) ∧ migrated n schema0 ∧
    advance_all exec before (t0, schema0) = Some (session, schema).

Definition migrator_holds (n : nat) (db : migration_db S) (c : nat) (p : migrator T) : Prop :=
  (holds_lock p = true → md_Lock db = Some c) ∧
  match p with
  | AtLock | AtCreate _ => True
  | AtRead _ => is_Some (md_History db)
  | AtStatements m todo rest applied t =>
      is_Some (md_History db) ∧ at_migration n c m rest applied ∧ under_way n m todo t (md_Schema db)
  | AtPostcondition m rest applied t =>
      is_Some (md_History db) ∧ at_migration n c m rest applied ∧ under_way n m [] t (md_Schema db)
  | AtRecord m rest applied t =>
      is_Some (md_History db) ∧ at_migration n c m rest applied ∧ under_way n m [] t (md_Schema db) ∧
      validateMigrationPostconditions query m (md_Schema db) = true
  | AtRelease r => r = None → is_Some (md_History db) ∧ n = length (embedded c)
  | Returned r => r = None → (length (embedded c) ≤ n)%nat
  end.

Definition database_holds (n : nat) (db : migration_db S) : Prop :=
  (n ≤ length all)%nat ∧ history_holds all n (md_History db) ∧ migrated n (md_Schema db).

Definition system_holds (st : processes * migration_db S) : Prop :=
  ∃ n, database_holds n st.2 ∧ ∀ c p, st.1 !! c = Some p → migrator_holds n st.2 c p.

Lemma advance_all_app before after p :
  advance_all exec (before ++ after) p = advance_all exec before p ≫= advance_all exec after.
Proof.
  revert p. induction before as [|s before IH]; intros p; [done|]. cbn.
  destruct (advance exec s p); cbn; [apply IH|done].
Qed.

(** What an attempt leaves, wherever it stops. *)
Lemma under_way_migrated n m todo t schema :
  all !! n = Some m → under_way n m todo t schema → migrated n schema.
Proof.
  intros Hm (before & t0 & schema0 & Hsplit & Hmig & Hadv).
  eapply (migrated_attempt _ _ _ _ _ _ _ (length before)); [done|done|done|]. by rewrite take_app_length.
Qed.

(** A process without the lock does not depend on what the others do. *)
Lemma migrator_holds_other n n' db db' c p :
  migrator_holds n db c p → md_Lock db ≠ Some c → (n ≤ n')%nat → migrator_holds n' db' c p.
Proof.
  intros [Hlock Hp] Hne Hn. destruct p; try (by exfalso; apply Hne, Hlock); split; try done.
  intros Hr. specialize (Hp Hr). lia.
Qed.

(** The loop over the migrations comes to the first that is not recorded. *)
Lemma next_migration_holds n c rest applied t db :
  md_Lock db = Some c → database_holds n db → is_Some (md_History db) → (n ≤ length (embedded c))%nat →
  (∀ i m, (n ≤ i)%nat → all !! i = Some m → applied !! mi_Version m = None) →
  rest = drop n (embedded c) → migrator_holds n db c (next_migration rest applied t).
Proof using all_ok.
  intros Hlock (Hn & Hh & Hmig) Hhist Hle Happ Hrest. destruct rest as [|m rest]; cbn.
  - split; [done|]. intros _. split; [done|]. assert (length (drop n (embedded c)) = O) as Hl by by rewrite <- Hrest.
    rewrite length_drop in Hl. lia.
  - assert (embedded c !! n = Some m) as Hm.
    { rewrite <- (Nat.add_0_r n), <- lookup_drop, <- Hrest. done. }
    assert (all !! n = Some m) as Hall by (apply lookup_take_Some in Hm as [? _]; done).
    rewrite (Happ n m) by done.
    assert (at_migration n c m rest applied) as Hat.
    { split_and!; [done|by eapply lookup_lt_Some| |done].
      rewrite (drop_S _ _ _ Hm) in Hrest. by injection Hrest. }
    destruct (proj2 (all_ok _ _ Hall)) as [ss Hss]. rewrite Hss.
    destruct ss; split; try done; split_and!; try done; exists [], t, (md_Schema db); by rewrite Hss.
Qed.

Lemma next_migration_skips n ms applied (t : T) :
  (∀ i m, (i < n)%nat → ms !! i = Some m → is_Some (applied !! mi_Version m)) →
  next_migration ms applied t = next_migration (drop n ms) applied t.
Proof.
  intros Happ. induction n as [|n IH]; [done|].
  rewrite IH; [|intros i m Hi; apply Happ; lia].
  destruct (ms !! n) as [m|] eqn:Hm.
  - rewrite (drop_S _ _ _ Hm). cbn. destruct (Happ n m) as [x ->]; [lia|done|done].
  - apply lookup_ge_None in Hm. by rewrite !drop_ge by lia.
Qed.

(** ** Each call keeps it *)
Lemma end_session_holds n c db : database_holds n db → database_holds n (end_session c db).
Proof. unfold end_session. by case_bool_decide. Qed.

Lemma at_lock_holds n c o db p' db' :
  database_holds n db → step c o AtLock db = (p', db') →
  database_holds n db' ∧ migrator_holds n db' c p' ∧ (md_Lock db = None ∨ db' = end_session c db ∨ db' = db).
Proof.
  intros Hdb. destruct o; cbn; [destruct (md_Lock db) eqn:Hlock|..]; intros [= <- <-];
    (split; [try done; by apply end_session_holds|split; [done|eauto]]).
Qed.

Lemma at_create_holds n c o t db p' db' :
  database_holds n db → migrator_holds n db c (AtCreate t) → step c o (AtCreate t) db = (p', db') →
  database_holds n db' ∧ migrator_holds n db' c p'.
Proof.
  intros (Hn & Hh & Hmig) [Hlock _]. specialize (Hlock eq_refl).
  assert (history_holds all n (Some (default ∅ (md_History db)))) as Hcreate.
  { destruct (md_History db); cbn in *; [done|by subst]. }
  destruct o; cbn; intros [= <- <-]; try (split; [split_and!; done|split; eauto; done]).
  split; [by apply end_session_holds|done].
Qed.

Lemma check_applied_known migrations applied : check_applied migrations applied = Ok tt → known_versions migrations applied = Ok tt.
Proof. by intros (_ & _ & H)%bind_ok. Qed.

Lemma at_read_holds n c o t db p' db' :
  database_holds n db → migrator_holds n db c (AtRead t) → step c o (AtRead t) db = (p', db') →
  database_holds n db' ∧ migrator_holds n db' c p'.
Proof using all_ok.
  intros Hdb [Hlock [h Hh]]. specialize (Hlock eq_refl).
  destruct o; cbn; rewrite ?Hh; [destruct (check_applied _ _) as [[]|e] eqn:Hcheck| | |]; intros [= <- <-];
    try (split; [try done; by apply end_session_holds|split; done]).
  split; [done|]. pose proof Hdb as (Hn & Hhist & _). rewrite Hh in Hhist. cbn in Hhist. subst h.
  assert (∀ i m, all !! i = Some m → (snd <$> recorded all n) !! mi_Version m = if decide (i < n)%nat then Some (mi_Checksum m) else None) as Hlook.
  { intros i m Hi. rewrite lookup_fmap, (recorded_lookup _ all_ok _ _ _ Hi). by destruct (decide (i < n)%nat). }
  assert (∀ i m, (i < n)%nat → all !! i = Some m → is_Some ((snd <$> recorded all n) !! mi_Version m)) as Hbelow.
  { intros i m Hi Hm. rewrite (Hlook _ _ Hm), decide_True by done. eauto. }
  apply check_applied_known in Hcheck.
  assert (n ≤ length (embedded c))%nat as Hle by (eapply (known_ok _ all_ok); eauto).
  rewrite (next_migration_skips n) by (intros i m Hi [Hm _]%lookup_take_Some; by apply (Hbelow i)).
  apply next_migration_holds; try done.
  intros i m Hi Hm. rewrite (Hlook _ _ Hm), decide_False by lia. done.
Qed.

Lemma at_statements_holds n c o m todo rest applied t db p' db' :
  database_holds n db → migrator_holds n db c (AtStatements m todo rest applied t) →
  step c o (AtStatements m todo rest applied t) db = (p', db') →
  database_holds n db' ∧ migrator_holds n db' c p'.
Proof.
  intros Hdb [Hlock (Hh & Hat & Hway)]. specialize (Hlock eq_refl).
  assert (∀ s todo' t' schema', todo = s :: todo' → advance exec s (t, md_Schema db) = Some (t', schema') →
    under_way n m todo' t' schema') as Hnext.
  { intros s todo' t' schema' -> Hadv. destruct Hway as (before & t0 & schema0 & Hsplit & Hmig & Hbefore).
    exists (before ++ [s]), t0, schema0. rewrite <- app_assoc. split_and!; [done|done|].
    rewrite advance_all_app, Hbefore. cbn. by rewrite Hadv. }
  assert (∀ t' schema' todo', under_way n m todo' t' schema' → database_holds n (set_schema schema' db)) as Hset.
  { intros t' schema' todo' Hway'. destruct Hdb as (Hn & Hhist & _). split_and!; [done|done|].
    eapply under_way_migrated; [|exact Hway']. apply Hat. }
  destruct o; (destruct todo as [|s todo]; cbn;
    [|try (destruct (advance exec s _) as [[t' schema']|] eqn:Hadv)]); intros [= <- <-];
    try (split; [try done; by apply end_session_holds|split; done]);
    specialize (Hnext _ _ _ _ eq_refl Hadv); (split; [by eapply Hset|]); destruct todo; split; done.
Qed.

Lemma at_postcondition_holds n c o m rest applied t db p' db' :
  database_holds n db → migrator_holds n db c (AtPostcondition m rest applied t) →
  step c o (AtPostcondition m rest applied t) db = (p', db') →
  database_holds n db' ∧ migrator_holds n db' c p'.
Proof.
  intros Hdb [Hlock (Hh & Hat & Hway)]. specialize (Hlock eq_refl).
  destruct o; cbn; [destruct (validateMigrationPostconditions _ _ _) eqn:Hpost|..]; intros [= <- <-];
    (split; [try done; by apply end_session_holds|split; done]).
Qed.

Lemma at_record_holds n c o m rest applied t db p' db' :
  database_holds n db → migrator_holds n db c (AtRecord m rest applied t) →
  step c o (AtRecord m rest applied t) db = (p', db') →
  ∃ n', (n ≤ n')%nat ∧ database_holds n' db' ∧ migrator_holds n' db' c p'.
Proof using all_ok.
  intros Hdb [Hlock ([h Hh] & Hat & Hway & Hpost)]. specialize (Hlock eq_refl).
  pose proof Hdb as (Hn & Hhist & Hmig). rewrite Hh in Hhist. cbn in Hhist. subst h.
  pose proof Hat as (Hm & Hlt & Hrest & Happ).
  assert (database_holds (Datatypes.S n) (set_history (<[mi_Version m:=(mi_Name m, mi_Checksum m)]> (recorded all n)) db)) as Hrec.
  { split_and!; [by eapply lookup_lt_Some|by apply recorded_insert|].
    destruct Hway as (before & t0 & schema0 & Hsplit & Hmig0 & Hadv). rewrite app_nil_r in Hsplit.
    cbn. eapply migrated_full; [exact Hmig0|done|done|exact Hadv|done]. }
  destruct o; cbn; rewrite ?Hh, ?(recorded_lookup _ all_ok _ _ _ Hm), ?decide_False by lia; intros [= <- <-].
  - exists (Datatypes.S n). split_and!; [lia|done|]. apply next_migration_holds; try done.
    intros i m' Hi Hm'. apply (Happ i); [lia|done].
  - exists n. by split_and!.
  - exists (Datatypes.S n). split_and!; [lia|done|done].
  - exists n. split_and!; [done|by apply end_session_holds|done].
Qed.

Lemma at_release_holds n c o r db p' db' :
  database_holds n db → migrator_holds n db c (AtRelease r) → step c o (AtRelease r) db = (p', db') →
  database_holds n db' ∧ migrator_holds n db' c p'.
Proof.
  intros Hdb [Hlock Hr]. destruct o; cbn; intros [= <- <-];
    (split; [try done; by apply end_session_holds|split; [done|]]); destruct r; try done.
  intros H. destruct (Hr H) as [_ ->]. done.
Qed.

(** A call of one process: the count of migrations carried out does not decrease, and
    nothing changes while another process has the lock. *)
Lemma migrator_step_holds n c o p db p' db' :
  database_holds n db → migrator_holds n db c p → step c o p db = (p', db') →
  ∃ n', (n ≤ n')%nat ∧ database_holds n' db' ∧ migrator_holds n' db' c p' ∧
    (md_Lock db ≠ Some c → md_Lock db = None ∨ (n' = n ∧ db' = db)).
Proof using all_ok.
  intros Hdb Hp Hstep.
  assert (md_Lock db ≠ Some c → holds_lock p = false) as Hnot.
  { intros Hne. destruct (holds_lock p) eqn:H; [|done]. destruct Hp as [Hp _]. by specialize (Hp H). }
  destruct p as [|t|t|m todo rest applied t|m rest applied t|m rest applied t|r|r].
  - destruct (at_lock_holds _ _ _ _ _ _ Hdb Hstep) as (? & ? & Hcase). exists n. split_and!; try done.
    intros Hne. destruct Hcase as [?|[->|?]]; [by left| |by right]. right. unfold end_session. by rewrite bool_decide_false.
  - destruct (at_create_holds _ _ _ _ _ _ _ Hdb Hp Hstep). exists n. split_and!; try done. intros Hne. by specialize (Hnot Hne).
  - destruct (at_read_holds _ _ _ _ _ _ _ Hdb Hp Hstep). exists n. split_and!; try done. intros Hne. by specialize (Hnot Hne).
  - destruct (at_statements_holds _ _ _ _ _ _ _ _ _ _ _ Hdb Hp Hstep). exists n. split_and!; try done. intros Hne. by specialize (Hnot Hne).
  - destruct (at_postcondition_holds _ _ _ _ _ _ _ _ _ _ Hdb Hp Hstep). exists n. split_and!; try done. intros Hne. by specialize (Hnot Hne).
  - destruct (at_record_holds _ _ _ _ _ _ _ _ _ _ Hdb Hp Hstep) as (n' & ? & ? & ?). exists n'. split_and!; try done.
    intros Hne. by specialize (Hnot Hne).
  - destruct (at_release_holds _ _ _ _ _ _ _ Hdb Hp Hstep). exists n. split_and!; try done. intros Hne. by specialize (Hnot Hne).
  - destruct o; injection Hstep as <- <-; exists n; split_and!; try done; by right.
Qed.

Lemma migrators_step_holds st st' :
  system_holds st → migrators_step exec new_session query all program st st' → system_holds st'.
Proof using all_ok.
  intros (n & Hdb & Hps) Hstep. inversion Hstep; subst; unfold system_holds; cbn in *.
  - exists n. split; [done|]. intros c' p [[<- <-]|[_ Hc']]%lookup_insert_Some; [done|by apply Hps].
  - destruct (migrator_step_holds _ _ _ _ _ _ _ Hdb (Hps _ _ H) H0) as (n' & Hle & Hdb' & Hp' & Hother).
    exists n'. split; [done|]. intros c' q [[<- <-]|[Hne Hc']]%lookup_insert_Some; [done|]. specialize (Hps _ _ Hc').
    destruct (decide (md_Lock db = Some c')) as [Hl|Hl]; [|by eapply migrator_holds_other].
    destruct Hother as [?|[-> ->]]; [congruence|congruence|done].
  - exists n. split; [by apply end_session_holds|]. intros c' q Hc'. specialize (Hps _ _ Hc').
    destruct (decide (md_Lock db = Some c')) as [Hl|Hl]; [|by eapply migrator_holds_other].
    unfold end_session. case_bool_decide as Hb; [|done]. assert (c' = c) as -> by congruence.
    rewrite H in Hc'. injection Hc' as <-. destruct Hps. by split.
Qed.
End Invariant.

(** ** Interrupted and concurrent runs *)
(** C26: however processes that embed older or newer migrations run at once, fail at a
    call or die between two of them, the database is always that of the specification:
    the migrations carried out in order, each after any number of broken-off attempts
    and under its postcondition, and the history is exactly theirs. At most one process
    is past the lock; one that returned without an error has its migrations carried out,
    and the history passes validation when it has the lock for the last time. *)
Theorem migrations_crash_safe {S T} (exec : string → T * S → result sql_error (T * S)) (new_session : T)
    (query : Z → S → bool) sha256_hex entries all (program : nat → nat) (initial : S) ps db :
  Migrations sha256_hex entries = Ok all →
  rtc (migrators_step exec new_session query all program) (∅, mkMigrationDB initial None None) (ps, db) →
  ∃ n, history_holds all n (md_History db) ∧ migrated exec query all initial n (md_Schema db) ∧
    (∀ c c' p p', ps !! c = Some p → ps !! c' = Some p' → holds_lock p = true → holds_lock p' = true → c = c') ∧
    (∀ c, ps !! c = Some (Returned None) → (length (embedded all program c) ≤ n)%nat) ∧
    (∀ c, ps !! c = Some (AtRelease None) →
       ∃ h, md_History db = Some h ∧ validateMigrationHistory (embedded all program c) h = Ok tt).
Proof.
  intros Hall Hrun. pose proof (Migrations_ok _ _ _ Hall) as Hok.
  assert (system_holds exec query all program initial (ps, db)) as (n & (Hn & Hh & Hmig) & Hps).
  { eapply (rtc_preserves _ (system_holds exec query all program initial)); [| |exact Hrun].
    - intros st st' Hs H. by eapply migrators_step_holds.
    - exists O. split; [|done]. split_and!; [cbn; lia|done|constructor]. }
  cbn in *. exists n. split_and!; [done|done| | |].
  - intros c c' p p' Hc Hc' Hp Hp'. destruct (Hps _ _ Hc) as [Hl _], (Hps _ _ Hc') as [Hl' _].
    rewrite (Hl Hp) in Hl'. by injection (Hl' Hp').
  - intros c Hc. destruct (Hps _ _ Hc) as [_ Hr]. by apply Hr.
  - intros c Hc. destruct (Hps _ _ Hc) as [_ Hr]. destruct (Hr eq_refl) as [[h Hsome] Hlen].
    exists h. split; [done|]. rewrite Hsome in Hh. cbn in Hh. subst h.
    assert (embedded all program c = take n all) as ->.
    { unfold embedded in *. rewrite length_take in Hlen. rewrite Hlen, <- (firstn_all all) at 1. by rewrite take_take. }
    by apply recorded_valid.
Qed.

(** ** A run on its own *)
Section Undisturbed.
Context {S T : Type}.
Context (exec : string → T * S → result sql_error (T * S)) (new_session : T) (query : Z → S → bool).
Context (migrations : list Migration) (c : nat).

(** Every migration in turn. *)
Fixpoint carry_out (rest : list Migration) (p : T * S) : option (T * S) :=
  match rest with
  | [] => Some p
  | m :: rest =>
      statements ← splitMigrationStatements (mi_SQL m);
      p ← advance_all exec statements p;
      if validateMigrationPostconditions query m p.2 then carry_out rest p else None
  end.

(** What the process goes through when every call succeeds. *)
Definition undisturbed_step (st : migrator T * migration_db S) : migrator T * migration_db S :=
  migrator_step exec new_session query migrations c Fine st.1 st.2.

Notation goes_to := (λ st st', ∃ calls, Nat.iter calls undisturbed_step st = st').

Lemma goes_step st st' : goes_to (undisturbed_step st) st' → goes_to st st'.
Proof. intros [k Hk]. exists (Datatypes.S k). by rewrite Nat.iter_succ_r. Qed.

Lemma goes_on st st' st'' : goes_to st st' → goes_to st' st'' → goes_to st st''.
Proof. intros [k <-] [k' <-]. exists (k' + k)%nat. by rewrite Nat.iter_add. Qed.

Lemma statements_go m todo rest applied t t' schema' db :
  advance_all exec todo (t, md_Schema db) = Some (t', schema') →
  goes_to (match todo with [] => AtPostcondition m rest applied t | _ => AtStatements m todo rest applied t end, db)
    (AtPostcondition m rest applied t', set_schema schema' db).
Proof.
  revert t db. induction todo as [|s todo IH]; intros t db.
  - cbn. intros [= <- <-]. exists O. by destruct db.
  - intros H. apply goes_step. unfold undisturbed_step. cbn in H |- *.
    destruct (advance exec s (t, md_Schema db)) as [[t1 schema1]|]; [|done]. cbn in H.
    exact (IH t1 (set_schema schema1 db) H).
Qed.

Definition with_entries (rest : list Migration) (h : history_table) : history_table :=
  foldl (λ h m, <[mi_Version m := (mi_Name m, mi_Checksum m)]> h) h rest.

Lemma migrations_go rest applied t t' schema' db h :
  carry_out rest (t, md_Schema db) = Some (t', schema') → md_History db = Some h →
  Forall (λ m, applied !! mi_Version m = None ∧ h !! mi_Version m = None) rest → NoDup (mi_Version <$> rest) →
  goes_to (next_migration rest applied t, db)
    (AtRelease None, mkMigrationDB schema' (Some (with_entries rest h)) (md_Lock db)).
Proof.
  revert t db h. induction rest as [|m rest IH]; intros t db h.
  - cbn. intros [= <- <-] Hh _ _. exists O. destruct db. cbn in *. by subst.
  - cbn. intros Hc Hh [[Happ Hnew] Hall]%Forall_cons [Hnot Hnd]%NoDup_cons. rewrite Happ.
    destruct (splitMigrationStatements (mi_SQL m)) as [ss|]; [|done]. cbn in Hc.
    destruct (advance_all exec ss (t, md_Schema db)) as [[t1 schema1]|] eqn:Hadv; [|done]. cbn in Hc.
    destruct (validateMigrationPostconditions query m schema1) eqn:Hpost; [|done].
    eapply goes_on.
    { pose proof (statements_go m ss rest applied _ _ _ _ Hadv) as H. destruct ss; exact H. }
    apply goes_step. unfold undisturbed_step. cbn. rewrite Hpost.
    apply goes_step. unfold undisturbed_step. cbn. rewrite Hh, Hnew.
    apply (IH t1 (set_history _ (set_schema schema1 db)) _); [done|done| |done].
    apply Forall_forall. intros m' Hm'. rewrite Forall_forall in Hall. destruct (Hall _ Hm'). split; [done|].
    rewrite lookup_insert_ne; [done|]. intros Heq. apply Hnot. rewrite Heq. by apply list_elem_of_fmap_2.
Qed.
End Undisturbed.

(** C27: a process that runs alone over a free lock and a valid history, and whose
    remaining statements and checks go through, returns without an error after finitely
    many calls. It leaves the schema that carrying out every migration not yet recorded
    gives, the full history, and the lock free. *)
Theorem undisturbed_run_applies {S T} (exec : string → T * S → result sql_error (T * S)) (new_session : T)
    (query : Z → S → bool) sha256_hex entries all c n db t schema :
  Migrations sha256_hex entries = Ok all →
  md_Lock db = None → history_holds all n (md_History db) →
  carry_out exec query (drop n all) (new_session, md_Schema db) = Some (t, schema) →
  ∃ calls,
    Nat.iter calls (undisturbed_step exec new_session query all c) (AtLock, db) =
      (Returned None, mkMigrationDB schema (Some (recorded all (length all))) None) ∧
    validateMigrationHistory all (recorded all (length all)) = Ok tt.
Proof.
  intros Hall Hlock Hh Hcarry. pose proof (Migrations_ok _ _ _ Hall) as Hok.
  assert (default ∅ (md_History db) = recorded all n) as Hdef.
  { destruct (md_History db); cbn in *; by subst. }
  assert (∃ calls, Nat.iter calls (undisturbed_step exec new_session query all c) (AtLock, db) =
    (Returned None, mkMigrationDB schema (Some (recorded all (length all))) None)) as [calls Hcalls].
  { apply goes_step. unfold undisturbed_step at 2. cbn. rewrite Hlock.
    apply goes_step. unfold undisturbed_step at 2. cbn. rewrite Hdef.
    apply goes_step. unfold undisturbed_step at 2. cbn. rewrite recorded_applied by done.
    rewrite (next_migration_skips n).
    2:{ intros i m Hi Hm. rewrite lookup_fmap, (recorded_lookup _ Hok _ _ _ Hm), decide_True by done. eauto. }
    eapply goes_on.
    - apply (migrations_go _ _ _ _ _ _ (snd <$> recorded all n) _ _ _ (set_history (recorded all n) (set_lock (Some c) db)) (recorded all n)
        Hcarry eq_refl).
      + apply Forall_forall. intros m [i Hi]%list_elem_of_lookup. rewrite lookup_drop in Hi.
        rewrite lookup_fmap, (recorded_lookup _ Hok _ _ _ Hi), decide_False by lia. done.
      + apply NoDup_alt. intros i j v (mi & -> & Hi)%list_lookup_fmap_Some_1 (mj & Heq & Hj)%list_lookup_fmap_Some_1.
        rewrite lookup_drop in Hi, Hj. pose proof (proj1 (Hok _ _ Hi)). pose proof (proj1 (Hok _ _ Hj)). lia.
    - apply goes_step. unfold undisturbed_step. cbn. unfold end_session. cbn. rewrite bool_decide_true by done.
      unfold with_entries. rewrite recorded_rest by done. by exists O. }
  exists calls. split; [done|]. rewrite <- (firstn_all all) at 1. by apply recorded_valid.
Qed.
