(* ===== verification/AppRuntime.v ===== *)
(** * The external runtime, [internal/app/runtime.go] and [cmd/external_runtime.go]

    The configuration of the HTTP server with its timeouts, and the handler in front of
    the API. The second part proves that the timeouts leave room for what they must. *)
From stdpp Require Import prelude gmap strings.
From S2P Require Import Prelude.
From S2P Require Import ApiQuota.
From S2P Require Import HttpServer.

Open Scope Z_scope.

(** ** The configuration of the HTTP server *)
Record RuntimeConfig : Type := mkRuntimeConfig {
  rc_Enabled : bool;
  rc_ListenAddress : string;
  rc_ReadinessTimeout : Z;
  rc_ShutdownTimeout : Z;
  rc_MaximumBundleBytes : Z;
  rc_MinimumBundleUploadBytesPerSecond : Z;
  rc_ReadHeaderTimeout : Z;
  rc_ReadTimeout : Z;
  rc_WriteTimeout : Z;
  rc_IdleTimeout : Z
}.

(** One turn of the loop of [normalizeHTTPTimeouts]. *)
Definition normalize_timeout (value fallback maximum : Z) : option Z :=
  let value := or_default value fallback in
  if (value <? 0) || (maximum <? value) then None else Some value.

(** The seconds that a bundle of [bytes] takes at [rate] bytes per second. *)
Definition transfer_seconds (bytes rate : Z) : Z :=
  let seconds := bytes `quot` rate in
  if bytes `rem` rate =? 0 then seconds else wrap_int64 (seconds + 1).

Definition requestFramingAllowance : Z := 2 * minute.
Definition publicationResponseAllowance : Z := 5 * minute.

Definition normalizeHTTPTimeouts (config : RuntimeConfig) : option RuntimeConfig :=
  readHeader ← normalize_timeout (rc_ReadHeaderTimeout config) (5 * second) minute;
  read ← normalize_timeout (rc_ReadTimeout config) (15 * minute) (30 * minute);
  write ← normalize_timeout (rc_WriteTimeout config) (20 * minute) (40 * minute);
  idle ← normalize_timeout (rc_IdleTimeout config) (60 * second) (10 * minute);
  let bytes := rc_MaximumBundleBytes config in
  let with_rate rate :=
    mkRuntimeConfig (rc_Enabled config) (rc_ListenAddress config) (rc_ReadinessTimeout config) (rc_ShutdownTimeout config)
      bytes rate readHeader read write idle in
  let rate := rc_MinimumBundleUploadBytesPerSecond config in
  if (bytes <? 0) || (rate <? 0) then None
  else if bytes =? 0 then Some (with_rate rate)
  else
    let rate := or_default rate (2 ^ 20) in
    if (read <? requestFramingAllowance) || (wrap_int64 (read - requestFramingAllowance) `quot` second <? transfer_seconds bytes rate)
    then None
    else if wrap_int64 (write - read) <? publicationResponseAllowance then None
    else Some (with_rate rate).

Definition requiredProbes : list string := ["mysql"; "redis"; "minio"; "sandbox"].

(** [NewRuntime], for a handler that is not nil: the workers and probes as whether they
    are there. *)
Definition NewRuntime (config : RuntimeConfig) (workers : list bool) (probes : string → bool) : option RuntimeConfig :=
  if negb (rc_Enabled config) then Some config
  else if bool_decide (rc_ListenAddress config = "") || (rc_ShutdownTimeout config <=? 0) then None
  else
    readiness ←
      (if rc_ReadinessTimeout config =? 0 then Some (2 * second)
       else if (rc_ReadinessTimeout config <? 0) || (30 * second <? rc_ReadinessTimeout config) then None
       else Some (rc_ReadinessTimeout config));
    config ← normalizeHTTPTimeouts
      (mkRuntimeConfig (rc_Enabled config) (rc_ListenAddress config) readiness (rc_ShutdownTimeout config)
         (rc_MaximumBundleBytes config) (rc_MinimumBundleUploadBytesPerSecond config) (rc_ReadHeaderTimeout config)
         (rc_ReadTimeout config) (rc_WriteTimeout config) (rc_IdleTimeout config));
    if forallb id workers && forallb probes requiredProbes then Some config else None.

Definition responseWriteAllowance : Z := 30 * second.

Definition validateExternalOperationTimeouts (writeTimeout jobBodyReadTimeout jobSubmitTimeout bundleOperationTimeout : Z) : bool :=
  negb (writeTimeout <? wrap_int64 (bundleOperationTimeout + responseWriteAllowance)) &&
  negb (writeTimeout <? wrap_int64 (wrap_int64 (jobBodyReadTimeout + jobSubmitTimeout) + responseWriteAllowance)).

(** The part of [newExternalRuntime] that the timeouts go through: they are compared
    before the server is made with them, and the runtime after it. *)
Definition newExternalRuntime (config : RuntimeConfig) (capabilities : Capabilities) (jobLimit bundleLimit : QuotaLimit)
    (jobBodyReadTimeout jobSubmitTimeout bundleOperationTimeout uploads bodies : Z) (workers : list bool) (probes : string → bool)
  : option (Server * RuntimeConfig) :=
  if forallb (λ duration, 0 <? duration)
       [rc_ShutdownTimeout config; rc_ReadinessTimeout config; rc_ReadHeaderTimeout config; rc_ReadTimeout config;
        rc_WriteTimeout config; rc_IdleTimeout config; jobBodyReadTimeout; jobSubmitTimeout; bundleOperationTimeout] &&
     validateExternalOperationTimeouts (rc_WriteTimeout config) jobBodyReadTimeout jobSubmitTimeout bundleOperationTimeout
  then
    server ← NewServer capabilities
      [WithJobService; WithJobWriteQuota jobLimit; WithBundleApplication; WithBundleWriteQuota bundleLimit;
       WithBundleUploadConcurrency uploads; WithBundleOperationTimeout bundleOperationTimeout;
       WithJobBodyProtection jobBodyReadTimeout bodies; WithJobSubmitTimeout jobSubmitTimeout];
    config ← NewRuntime
      (mkRuntimeConfig true (rc_ListenAddress config) (rc_ReadinessTimeout config) (rc_ShutdownTimeout config)
         (rc_MaximumBundleBytes config) (rc_MinimumBundleUploadBytesPerSecond config) (rc_ReadHeaderTimeout config)
         (rc_ReadTimeout config) (rc_WriteTimeout config) (rc_IdleTimeout config)) workers probes;
    Some (server, config)
  else None.

(** ** The handler *)
Inductive runtime_response (A : Type) : Type :=
| StatusOnly (status : Z)
| ShuttingDown (response : http_response)
| FromAPI (response : A).
Arguments StatusOnly {A} _.
Arguments ShuttingDown {A} _.
Arguments FromAPI {A} _.

Definition writeShutdownProblem (requestID : string) : http_response :=
  mkHttpResponse 503
    (<["X-Request-Id" := requestID]> (<["Retry-After" := "5"]> (no_store "application/problem+json" ∅)))
    (BodyProblem (problemFor 503 "shutting-down" "Service shutting down" "Retry the request later." requestID)).

(** [check] is the outcome of a probe within the timeout of readiness. *)
Definition serveReadiness {A} (config : RuntimeConfig) (check : string → bool) (request : http_request) : runtime_response A :=
  if negb (bool_decide (hr_Method request = "GET")) || negb (rc_Enabled config) then StatusOnly 503
  else if forallb check requiredProbes then StatusOnly 204 else StatusOnly 503.

Definition Handler {A} (config : RuntimeConfig) (shuttingDown : bool) (requestID : string) (check : string → bool)
    (api : http_request → A) (request : http_request) : runtime_response A :=
  if shuttingDown then ShuttingDown (writeShutdownProblem requestID)
  else if bool_decide (hr_Path request = "/livez") then
    if negb (bool_decide (hr_Method request = "GET")) || negb (rc_Enabled config) then StatusOnly 405 else StatusOnly 204
  else if bool_decide (hr_Path request = "/readyz") then serveReadiness config check request
  else FromAPI (api request).

(** ** What the timeouts leave room for *)
Lemma normalize_timeout_ok value fallback maximum v :
  0 ≤ fallback ≤ maximum → normalize_timeout value fallback maximum = Some v →
  0 ≤ v ≤ maximum ∧ (value ≠ 0 → v = value).
Proof.
  unfold normalize_timeout, or_default. intros Hf. destruct (value =? 0) eqn:Hz; case_match eqn:Hb; [done| |done|]; intros [= <-];
    bool_to_prop; lia.
Qed.

Lemma transfer_seconds_ok bytes rate limit :
  0 ≤ bytes ≤ max_int64 → 0 < rate → transfer_seconds bytes rate ≤ limit → bytes ≤ rate * limit.
Proof.
  unfold transfer_seconds. intros Hb Hr.
  pose proof (Z.quot_rem bytes rate ltac:(lia)) as Heq. pose proof (Z.rem_bound_pos bytes rate ltac:(lia) ltac:(lia)) as Hrem.
  pose proof (Z.quot_pos bytes rate ltac:(lia) ltac:(lia)) as Hq.
  destruct (bytes `rem` rate =? 0) eqn:Hz; bool_to_prop; intros Hl.
  - rewrite Heq, Hz. nia.
  - rewrite wrap_int64_id in Hl; [nia|]. unfold min_int64, max_int64 in *. nia.
Qed.

Lemma normalizeHTTPTimeouts_ok config c :
  normalizeHTTPTimeouts config = Some c → rc_MaximumBundleBytes config ≤ max_int64 →
  rc_MaximumBundleBytes c = rc_MaximumBundleBytes config ∧
  0 ≤ rc_ReadTimeout c ≤ 30 * minute ∧ 0 ≤ rc_WriteTimeout c ≤ 40 * minute ∧
  (rc_WriteTimeout config ≠ 0 → rc_WriteTimeout c = rc_WriteTimeout config) ∧
  (0 < rc_MaximumBundleBytes c →
     0 < rc_MinimumBundleUploadBytesPerSecond c ∧
     rc_MaximumBundleBytes c * second ≤ rc_MinimumBundleUploadBytesPerSecond c * (rc_ReadTimeout c - requestFramingAllowance) ∧
     rc_ReadTimeout c + publicationResponseAllowance ≤ rc_WriteTimeout c).
Proof.
  unfold normalizeHTTPTimeouts. intros H Hmax.
  apply bind_Some in H as (rh & Hrh & H). apply bind_Some in H as (r & Hr & H). apply bind_Some in H as (w & Hw & H).
  apply bind_Some in H as (i & Hi & H). cbn zeta in H.
  apply normalize_timeout_ok in Hr as [Hr _]; [|by cbv]. apply normalize_timeout_ok in Hw as [Hw Hw']; [|by cbv].
  assert (∀ z, 0 ≤ z ≤ 40 * minute → min_int64 ≤ z ≤ max_int64) as Hfit by (unfold min_int64, max_int64, minute, second; lia).
  destruct ((rc_MaximumBundleBytes config <? 0) || _) eqn:Hneg; [done|].
  destruct (rc_MaximumBundleBytes config =? 0) eqn:Hzero; [injection H as <-; cbn; bool_to_prop; split_and!; lia|].
  destruct ((r <? requestFramingAllowance) || _) eqn:Hread; [done|].
  destruct (wrap_int64 (w - r) <? publicationResponseAllowance) eqn:Hwrite; [done|]. injection H as <-. cbn.
  apply orb_false_iff in Hread as [Hread Htransfer]. bool_to_prop.
  unfold requestFramingAllowance, publicationResponseAllowance in *.
  rewrite wrap_int64_id in Htransfer by (apply Hfit; unfold minute, second in *; lia).
  rewrite wrap_int64_id in Hwrite by (unfold min_int64, max_int64, minute, second in *; lia).
  split_and!; try done; try lia. intros Hpos.
  assert (0 < or_default (rc_MinimumBundleUploadBytesPerSecond config) (2 ^ 20)) as Hrate.
  { unfold or_default. destruct (rc_MinimumBundleUploadBytesPerSecond config =? 0) eqn:E; bool_to_prop; lia. }
  apply transfer_seconds_ok in Htransfer; [|lia|done].
  pose proof (Z.mul_quot_le (r - 2 * minute) second ltac:(lia) ltac:(done)) as [_ Hle].
  split_and!; [done| |lia].
  apply (Z.mul_le_mono_nonneg_l _ _ (or_default (rc_MinimumBundleUploadBytesPerSecond config) (2 ^ 20))) in Hle; [|lia].
  apply (Z.mul_le_mono_nonneg_r _ _ second) in Htransfer; [|done]. lia.
Qed.

Lemma NewServer_timeouts capabilities jobLimit bundleLimit body submit bundle uploads bodies server :
  NewServer capabilities
    [WithJobService; WithJobWriteQuota jobLimit; WithBundleApplication; WithBundleWriteQuota bundleLimit;
     WithBundleUploadConcurrency uploads; WithBundleOperationTimeout bundle;
     WithJobBodyProtection body bodies; WithJobSubmitTimeout submit] = Some server →
  (sv_BundleOperationTimeout server = bundle ∧ minute ≤ bundle ≤ 40 * minute) ∧
  (sv_JobBodyReadTimeout server = body ∧ second ≤ body ≤ 5 * minute) ∧
  (sv_JobSubmitTimeout server = submit ∧ 0 < submit ≤ 30 * minute).
Proof.
  unfold NewServer. intros H. apply bind_Some in H as (caps & _ & H). apply bind_Some in H as (s & Hs & Hfinish).
  assert ((sv_BundleOperationTimeout s = bundle ∧ minute ≤ bundle ≤ 40 * minute) ∧
    (sv_JobBodyReadTimeout s = body ∧ second ≤ body ≤ 5 * minute) ∧
    (sv_JobSubmitTimeout s = submit ∧ 0 < submit ≤ 30 * minute)) as Hgoal.
  { cbn in Hs.
    repeat match type of Hs with
    | context [if ?b then None else _] => destruct b eqn:?; cbn in Hs; [discriminate|]
    end.
    injection Hs as <-. cbn. unfold maximumBundleOperationTimeout, maximumJobSubmitTimeout in *. bool_to_prop. lia. }
  unfold finish_server in Hfinish. repeat (destruct (_ && _) in Hfinish; [try done|]); by injection Hfinish as <-.
Qed.

Lemma NewRuntime_ok config workers probes c :
  rc_Enabled config = true → NewRuntime config workers probes = Some c →
  ∃ readiness, 0 < readiness ≤ 30 * second ∧ rc_ReadinessTimeout c = readiness ∧ forallb probes requiredProbes = true ∧
    0 < rc_ShutdownTimeout c ∧
    normalizeHTTPTimeouts
      (mkRuntimeConfig (rc_Enabled config) (rc_ListenAddress config) readiness (rc_ShutdownTimeout config)
         (rc_MaximumBundleBytes config) (rc_MinimumBundleUploadBytesPerSecond config) (rc_ReadHeaderTimeout config)
         (rc_ReadTimeout config) (rc_WriteTimeout config) (rc_IdleTimeout config)) = Some c.
Proof.
  unfold NewRuntime. intros -> H. cbn [negb] in H. destruct (bool_decide _ || _) eqn:Hs; [done|].
  apply bind_Some in H as (readiness & Hready & H). apply bind_Some in H as (c' & Hc & H).
  destruct (forallb id workers && _) eqn:Hall; [|done]. injection H as <-.
  assert (0 < readiness ≤ 30 * second) as Hrange.
  { destruct (rc_ReadinessTimeout config =? 0) eqn:Hz; [injection Hready as <-; by cbv|].
    destruct ((rc_ReadinessTimeout config <? 0) || _) eqn:Hr; [done|]. injection Hready as <-. bool_to_prop. lia. }
  assert (rc_ReadinessTimeout c' = readiness ∧ rc_ShutdownTimeout c' = rc_ShutdownTimeout config) as [Hr' Hs'].
  { clear -Hc. unfold normalizeHTTPTimeouts in Hc.
    repeat (apply bind_Some in Hc as (? & _ & Hc)). cbn in Hc.
    repeat (destruct (_ : bool) in Hc; [try done; try by injection Hc as <-|]). by injection Hc as <-. }
  bool_to_prop. exists readiness. split_and!; try done; try lia.
Qed.

(** C30: when the external runtime starts, the deadlines of its operations fit the
    server's write timeout with the allowance to write a response, without overflow;
    reading a request may take as long as the largest bundle needs at the minimum rate
    and two minutes; and five minutes are left to publish it. Readiness and shutdown are
    bounded, and every probe is there. *)
Theorem startup_timeouts_sound config capabilities jobLimit bundleLimit body submit bundle uploads bodies workers probes server c :
  rc_MaximumBundleBytes config ≤ max_int64 →
  newExternalRuntime config capabilities jobLimit bundleLimit body submit bundle uploads bodies workers probes = Some (server, c) →
  sv_BundleOperationTimeout server + responseWriteAllowance ≤ rc_WriteTimeout c ∧
  sv_JobBodyReadTimeout server + sv_JobSubmitTimeout server + responseWriteAllowance ≤ rc_WriteTimeout c ∧
  (∀ size, 0 < size ≤ rc_MaximumBundleBytes c →
     0 < rc_MinimumBundleUploadBytesPerSecond c ∧
     size * second ≤ rc_MinimumBundleUploadBytesPerSecond c * (rc_ReadTimeout c - requestFramingAllowance) ∧
     rc_ReadTimeout c + publicationResponseAllowance ≤ rc_WriteTimeout c) ∧
  0 < rc_ReadinessTimeout c ≤ 30 * second ∧ 0 < rc_ShutdownTimeout c ∧ (∀ name, name ∈ requiredProbes → probes name = true).
Proof.
  unfold newExternalRuntime. intros Hmax H. destruct (forallb _ _ && _) eqn:Hvalid; [|done].
  apply andb_true_iff in Hvalid as [Hpos Hvalid].
  apply bind_Some in H as (s & Hserver & H). apply bind_Some in H as (c' & Hruntime & H). injection H as -> ->.
  apply NewServer_timeouts in Hserver as ([-> Hbundle] & [-> Hbody] & [-> Hsubmit]).
  apply NewRuntime_ok in Hruntime as (readiness & Hready & <- & Hprobes & Hshutdown & Hnorm); [|done].
  apply normalizeHTTPTimeouts_ok in Hnorm as (_ & Hread & _ & Hwrite & Hsize); [|done]. cbn in Hwrite.
  cbn in Hpos. unfold validateExternalOperationTimeouts in Hvalid. bool_to_prop.
  unfold responseWriteAllowance in *.
  assert (∀ z, 0 ≤ z ≤ 80 * minute → wrap_int64 z = z) as Hid.
  { intros z Hz. apply wrap_int64_id. unfold min_int64, max_int64, minute, second in *. lia. }
  rewrite Hwrite by lia. rewrite !Hid in * by (unfold minute, second in *; rewrite ?Hid; unfold minute, second; lia).
  split_and!; try lia.
  - intros size [Hs Hle]. destruct Hsize as (Hrate & Hfits & Hpub); [lia|]. split_and!; [done|unfold second in *; lia|lia].
  - intros name Hname. rewrite forallb_forall in Hprobes. apply Hprobes. by apply list_elem_of_In.
Qed.
