(* ===== verification/Shutdown.v ===== *)
(** * Start and stop of the process: [Run] of [internal/app/runtime.go],
    [cmd/legacy_runtime.go] and [cmd/main.go]

    [Run] of the external runtime beside its workers and requests, the supervision of the
    queue consumer, and [main] around both, as steps that interleave. The second part
    proves that the process gives up its databases last, and can always be stopped. *)
From stdpp Require Import prelude gmap.
From S2P Require Import Prelude.

(** ** [Runtime.Run] *)
(** The errors that [Run] returns. *)
Inductive run_error : Type :=
| ListenFailed
| WorkerFailed (worker : nat)
| ServeFailed
| WorkersShutdown
| ServerShutdown.

(** What a worker has returned: nothing yet, a failure, or no error that counts. *)
Inductive worker_status : Type := WorkerRuns | WorkerEnded (failed : bool).

#[export] Instance worker_status_eq_dec : EqDecision worker_status.
Proof. solve_decision. Defined.

(** Where [Run] is: before it listens with the number of workers it will start, then with
    [runErr] and the error of the shutdown of the workers. *)
Inductive run_phase : Type :=
| RunListen (workers : nat)
| RunSelect
| RunShuttingDown (runErr : option run_error)
| RunStopWorkers (runErr : option run_error)
| RunWaitWorkers (runErr : option run_error)
| RunShutdownServer (runErr workersErr : option run_error)
| RunReturned (err : option run_error).

(** [ru_Errors] is [errorsChannel], [ru_Served] what [serverDone] holds, [ru_Requests] the
    requests in the API, and [ru_Expired] whether the time to shut down is over. *)
Record run_state : Type := mkRun {
  ru_Phase : run_phase;
  ru_Workers : list worker_status;
  ru_Errors : list run_error;
  ru_Served : option run_error;
  ru_Requests : nat;
  ru_ShuttingDown : bool;
  ru_Stopped : bool;
  ru_Expired : bool
}.

Definition run_start (workers : nat) : run_state :=
  mkRun (RunListen workers) [] [] None 0 false false false.

Definition at_phase (phase : run_phase) (s : run_state) : run_state :=
  mkRun phase (ru_Workers s) (ru_Errors s) (ru_Served s) (ru_Requests s) (ru_ShuttingDown s) (ru_Stopped s) (ru_Expired s).

(** A worker returns: its error is sent if the channel has room for it. *)
Definition end_worker (w : nat) (failed : bool) (s : run_state) : run_state :=
  let errors := if failed && (length (ru_Errors s) <? length (ru_Workers s) + 1)%nat then ru_Errors s ++ [WorkerFailed w] else ru_Errors s in
  mkRun (ru_Phase s) (<[w := WorkerEnded failed]> (ru_Workers s)) errors (ru_Served s) (ru_Requests s) (ru_ShuttingDown s)
    (ru_Stopped s) (ru_Expired s).

Definition set_requests (requests : nat) (s : run_state) : run_state :=
  mkRun (ru_Phase s) (ru_Workers s) (ru_Errors s) (ru_Served s) requests (ru_ShuttingDown s) (ru_Stopped s) (ru_Expired s).

Definition all_ended (workers : list worker_status) : bool := forallb (λ w, negb (bool_decide (w = WorkerRuns))) workers.

(** The first error there is, in the order of the returns of [Run]. *)
Definition first_error (errors : list (option run_error)) : option run_error :=
  foldr (λ e rest, match e with Some _ => e | None => rest end) None errors.

(** What [Run] itself does next; [cancelled] is whether its context is. *)
Inductive run_goes (cancelled : bool) : run_state → run_state → Prop :=
| run_listen_fails s n :
    ru_Phase s = RunListen n → run_goes cancelled s (at_phase (RunReturned (Some ListenFailed)) s)
| run_listens s n :
    ru_Phase s = RunListen n →
    run_goes cancelled s
      (mkRun RunSelect (replicate n WorkerRuns) (ru_Errors s) (ru_Served s) (ru_Requests s) (ru_ShuttingDown s) (ru_Stopped s) (ru_Expired s))
| run_context_done s :
    ru_Phase s = RunSelect → cancelled = true → run_goes cancelled s (at_phase (RunShuttingDown None) s)
| run_worker_error s e errors :
    ru_Phase s = RunSelect → ru_Errors s = e :: errors →
    run_goes cancelled s
      (mkRun (RunShuttingDown (Some e)) (ru_Workers s) errors (ru_Served s) (ru_Requests s) (ru_ShuttingDown s) (ru_Stopped s) (ru_Expired s))
| run_serve_error s e :
    ru_Phase s = RunSelect → ru_Served s = Some e → run_goes cancelled s (at_phase (RunShuttingDown (Some e)) s)
| run_shutting_down s e :
    ru_Phase s = RunShuttingDown e →
    run_goes cancelled s
      (mkRun (RunStopWorkers e) (ru_Workers s) (ru_Errors s) (ru_Served s) (ru_Requests s) true (ru_Stopped s) (ru_Expired s))
| run_stop_workers s e :
    ru_Phase s = RunStopWorkers e →
    run_goes cancelled s
      (mkRun (RunWaitWorkers e) (ru_Workers s) (ru_Errors s) (ru_Served s) (ru_Requests s) (ru_ShuttingDown s) true (ru_Expired s))
| run_workers_done s e :
    ru_Phase s = RunWaitWorkers e → all_ended (ru_Workers s) = true → run_goes cancelled s (at_phase (RunShutdownServer e None) s)
| run_workers_timeout s e :
    ru_Phase s = RunWaitWorkers e → ru_Expired s = true →
    run_goes cancelled s (at_phase (RunShutdownServer e (Some WorkersShutdown)) s)
| run_server_done s e we :
    ru_Phase s = RunShutdownServer e we → ru_Requests s = O → run_goes cancelled s (at_phase (RunReturned (first_error [e; we])) s)
| run_server_timeout s e we :
    ru_Phase s = RunShutdownServer e we → ru_Expired s = true →
    run_goes cancelled s (at_phase (RunReturned (first_error [e; we; Some ServerShutdown])) s)
| run_time_passes s e :
    (ru_Phase s = RunWaitWorkers e ∨ ∃ we, ru_Phase s = RunShutdownServer e we) →
    run_goes cancelled s
      (mkRun (ru_Phase s) (ru_Workers s) (ru_Errors s) (ru_Served s) (ru_Requests s) (ru_ShuttingDown s) (ru_Stopped s) true).

(** Whether the server takes connections. *)
Definition server_open (s : run_state) : bool :=
  match ru_Phase s with RunListen _ | RunReturned _ => false | _ => true end.

(** What goes on around it. A request that arrives during the shutdown is refused by the
    handler and does not reach the API. *)
Inductive run_surroundings : run_state → run_state → Prop :=
| worker_returns s w failed :
    ru_Workers s !! w = Some WorkerRuns → run_surroundings s (end_worker w failed s)
| serve_fails s :
    ru_Phase s = RunSelect → ru_Served s = None →
    run_surroundings s
      (mkRun (ru_Phase s) (ru_Workers s) (ru_Errors s) (Some ServeFailed) (ru_Requests s) (ru_ShuttingDown s) (ru_Stopped s) (ru_Expired s))
| request_arrives s :
    server_open s = true →
    run_surroundings s (set_requests (if ru_ShuttingDown s then ru_Requests s else ru_Requests s + 1)%nat s)
| request_ends s n :
    ru_Requests s = S n → run_surroundings s (set_requests n s).

(** ** [legacyRuntime.Run] *)
(** A consumer: made, started, refused to start, and whether [Shutdown] was called. *)
Record consumer_status : Type := mkConsumer { cs_Starts : nat; cs_Started : bool; cs_Shutdowns : nat }.

(** Where the supervisor is, with the consumer it has. *)
Inductive legacy_phase : Type :=
| LegacyLoop
| LegacyCreate
| LegacyStart (consumer : nat)
| LegacyDiscard (consumer : nat)
| LegacyRetry
| LegacyRunning (consumer : nat)
| LegacyReturned (shutdown_failed : bool).

Record legacy_state : Type := mkLegacy { lg_Phase : legacy_phase; lg_Consumers : list consumer_status }.

Definition legacy_start : legacy_state := mkLegacy LegacyLoop [].

Definition started_consumer (ok : bool) (c : consumer_status) : consumer_status :=
  mkConsumer (S (cs_Starts c)) ok (cs_Shutdowns c).
Definition shut_consumer (c : consumer_status) : consumer_status :=
  mkConsumer (cs_Starts c) (cs_Started c) (S (cs_Shutdowns c)).

(** [cancelled] is whether the context is. A consumer that is not ready is made or
    started anew after a delay; [Run] returns the cause of the cancellation, joined with
    the error of a shutdown. *)
Inductive legacy_goes (cancelled : bool) : legacy_state → legacy_state → Prop :=
| legacy_cancelled cs :
    cancelled = true → legacy_goes cancelled (mkLegacy LegacyLoop cs) (mkLegacy (LegacyReturned false) cs)
| legacy_goes_on cs :
    cancelled = false → legacy_goes cancelled (mkLegacy LegacyLoop cs) (mkLegacy LegacyCreate cs)
| legacy_not_created cs :
    legacy_goes cancelled (mkLegacy LegacyCreate cs) (mkLegacy LegacyRetry cs)
| legacy_created cs :
    legacy_goes cancelled (mkLegacy LegacyCreate cs) (mkLegacy (LegacyStart (length cs)) (cs ++ [mkConsumer 0 false 0]))
| legacy_started cs c :
    legacy_goes cancelled (mkLegacy (LegacyStart c) cs) (mkLegacy (LegacyRunning c) (alter (started_consumer true) c cs))
| legacy_not_started cs c :
    legacy_goes cancelled (mkLegacy (LegacyStart c) cs) (mkLegacy (LegacyDiscard c) (alter (started_consumer false) c cs))
| legacy_discarded cs c :
    legacy_goes cancelled (mkLegacy (LegacyDiscard c) cs) (mkLegacy LegacyRetry (alter shut_consumer c cs))
| legacy_retry_cancelled cs :
    cancelled = true → legacy_goes cancelled (mkLegacy LegacyRetry cs) (mkLegacy (LegacyReturned false) cs)
| legacy_retries cs :
    legacy_goes cancelled (mkLegacy LegacyRetry cs) (mkLegacy LegacyLoop cs)
| legacy_stops cs c failed :
    cancelled = true →
    legacy_goes cancelled (mkLegacy (LegacyRunning c) cs) (mkLegacy (LegacyReturned failed) (alter shut_consumer c cs)).

(** ** [main] *)
Inductive main_phase : Type :=
| MainSelect
| MainExternal
| MainLegacy
| MainCloseLegacy
| MainCloseExternal
| MainCloseSandbox
| MainExited.

(** The context, the two runtimes that are enabled, whether the goroutine around the
    external one has sent its result, and what was closed. *)
Record process_state : Type := mkProcess {
  pr_Main : main_phase;
  pr_Cancelled : bool;
  pr_External : option run_state;
  pr_ExternalDone : bool;
  pr_Legacy : option legacy_state;
  pr_Closed : list main_phase
}.

Definition run_returned (s : run_state) : bool := match ru_Phase s with RunReturned _ => true | _ => false end.
Definition legacy_returned (s : legacy_state) : bool := match lg_Phase s with LegacyReturned _ => true | _ => false end.

(** What [main] waits for. *)
Definition external_done (p : process_state) : bool := match pr_External p with Some _ => pr_ExternalDone p | None => true end.
Definition legacy_done (p : process_state) : bool := match pr_Legacy p with Some s => legacy_returned s | None => true end.

Definition main_at (phase : main_phase) (closed : list main_phase) (p : process_state) : process_state :=
  mkProcess phase (pr_Cancelled p) (pr_External p) (pr_ExternalDone p) (pr_Legacy p) (closed ++ pr_Closed p).

(** [main], and the goroutines it started, without the workers, requests and consumers. *)
Inductive process_goes : process_state → process_state → Prop :=
| main_signal p :
    pr_Main p = MainSelect →
    process_goes p (mkProcess MainExternal true (pr_External p) (pr_ExternalDone p) (pr_Legacy p) (pr_Closed p))
| main_cancelled p :
    pr_Main p = MainSelect → pr_Cancelled p = true → process_goes p (main_at MainExternal [] p)
| main_external p :
    pr_Main p = MainExternal → external_done p = true → process_goes p (main_at MainLegacy [] p)
| main_legacy p :
    pr_Main p = MainLegacy → legacy_done p = true → process_goes p (main_at MainCloseLegacy [] p)
| main_close_legacy p :
    pr_Main p = MainCloseLegacy → process_goes p (main_at MainCloseExternal [MainCloseLegacy] p)
| main_close_external p :
    pr_Main p = MainCloseExternal → process_goes p (main_at MainCloseSandbox [MainCloseExternal] p)
| main_close_sandbox p :
    pr_Main p = MainCloseSandbox → process_goes p (main_at MainExited [MainCloseSandbox] p)
| external_runs p s s' :
    pr_External p = Some s → run_goes (pr_Cancelled p) s s' →
    process_goes p (mkProcess (pr_Main p) (pr_Cancelled p) (Some s') (pr_ExternalDone p) (pr_Legacy p) (pr_Closed p))
| external_returns p s :
    pr_External p = Some s → run_returned s = true →
    process_goes p (mkProcess (pr_Main p) true (pr_External p) true (pr_Legacy p) (pr_Closed p))
| legacy_runs p s s' :
    pr_Legacy p = Some s → legacy_goes (pr_Cancelled p) s s' →
    process_goes p (mkProcess (pr_Main p) (pr_Cancelled p) (pr_External p) (pr_ExternalDone p) (Some s') (pr_Closed p)).

Inductive lifetime_step : process_state → process_state → Prop :=
| process_itself p p' : process_goes p p' → lifetime_step p p'
| process_surroundings p s s' :
    pr_External p = Some s → run_surroundings s s' →
    lifetime_step p (mkProcess (pr_Main p) (pr_Cancelled p) (Some s') (pr_ExternalDone p) (pr_Legacy p) (pr_Closed p)).

(** [main] after both runtimes are made: at least one is enabled. *)
Definition process_start (external : option nat) (legacy : bool) : process_state :=
  mkProcess MainSelect false (run_start <$> external) false (if legacy then Some legacy_start else None) [].

(** ** The invariant of [Run] *)
Definition run_error_holds (cancelled : bool) (s : run_state) (e : option run_error) : Prop :=
  match e with
  | None => cancelled = true
  | Some (WorkerFailed w) => ru_Workers s !! w = Some (WorkerEnded true)
  | Some ServeFailed => True
  | Some _ => False
  end.

Definition run_phase_holds (cancelled : bool) (s : run_state) : Prop :=
  match ru_Phase s with
  | RunListen _ => ru_Workers s = [] ∧ ru_Errors s = []
  | RunSelect => ∀ w, ru_Workers s !! w = Some (WorkerEnded true) → WorkerFailed w ∈ ru_Errors s
  | RunShuttingDown e => run_error_holds cancelled s e
  | RunStopWorkers e => ru_ShuttingDown s = true ∧ run_error_holds cancelled s e
  | RunWaitWorkers e => ru_ShuttingDown s = true ∧ ru_Stopped s = true ∧ run_error_holds cancelled s e
  | RunShutdownServer e we =>
      ru_ShuttingDown s = true ∧ ru_Stopped s = true ∧ run_error_holds cancelled s e ∧
      match we with None => all_ended (ru_Workers s) = true | Some we => we = WorkersShutdown end
  | RunReturned None =>
      ru_ShuttingDown s = true ∧ ru_Stopped s = true ∧ cancelled = true ∧ all_ended (ru_Workers s) = true ∧ ru_Requests s = O
  | RunReturned (Some (WorkerFailed w)) => ru_ShuttingDown s = true ∧ ru_Stopped s = true ∧ ru_Workers s !! w = Some (WorkerEnded true)
  | RunReturned (Some ListenFailed) => ru_Workers s = []
  | RunReturned (Some _) => ru_ShuttingDown s = true ∧ ru_Stopped s = true
  end.

Record run_holds (cancelled : bool) (s : run_state) : Prop := {
  rh_phase : run_phase_holds cancelled s;
  rh_errors : ∀ e, e ∈ ru_Errors s → ∃ w, e = WorkerFailed w ∧ ru_Workers s !! w = Some (WorkerEnded true);
  rh_distinct : NoDup (ru_Errors s);
  rh_served : ∀ e, ru_Served s = Some e → e = ServeFailed
}.

(** The channel has room for every error. *)
Lemma errors_fit cancelled s : run_holds cancelled s → (length (ru_Errors s) ≤ length (ru_Workers s))%nat.
Proof.
  intros H. destruct H as [_ Herr Hnd _].
  rewrite <- (length_seq (length (ru_Workers s)) 0), <- (length_fmap WorkerFailed).
  apply submseteq_length, NoDup_submseteq; [done|].
  intros e (w & -> & Hw)%Herr. apply list_elem_of_fmap_2. apply elem_of_seq. apply lookup_lt_Some in Hw. lia.
Qed.

Lemma all_ended_insert workers w failed : all_ended workers = true → all_ended (<[w := WorkerEnded failed]> workers) = true.
Proof.
  unfold all_ended. rewrite !forallb_forall. intros H x Hx%list_elem_of_In%list_elem_of_lookup.
  destruct Hx as [i [(_ & <- & _)|[_ Hi]]%list_lookup_insert_Some]; [done|].
  apply H, list_elem_of_In. by eapply list_elem_of_lookup_2.
Qed.

Lemma run_error_cancelled cancelled s e : run_error_holds cancelled s e → run_error_holds true s e.
Proof. by destruct e as [[]|]. Qed.

Lemma run_holds_cancelled cancelled s : run_holds cancelled s → run_holds true s.
Proof.
  intros [Hp ? ? ?]. split; try done. unfold run_phase_holds in *.
  pose proof (run_error_cancelled cancelled s) as He. destruct (ru_Phase s) as [| |e|e|e|e we|[[]|]]; destruct_and?; split_and?; auto.
Qed.

Lemma run_error_workers cancelled s s' e :
  (∀ w, ru_Workers s !! w = Some (WorkerEnded true) → ru_Workers s' !! w = Some (WorkerEnded true)) →
  run_error_holds cancelled s e → run_error_holds cancelled s' e.
Proof. destruct e as [[]|]; cbn; naive_solver. Qed.

(** What does not touch the phase and the errors keeps the invariant. *)
Lemma end_worker_holds cancelled s w failed :
  run_holds cancelled s → ru_Workers s !! w = Some WorkerRuns → run_holds cancelled (end_worker w failed s).
Proof.
  intros H Hw. pose proof (errors_fit _ _ H) as Hfit. destruct H as [Hp Herr Hnd Hserved].
  assert (∀ v, ru_Workers s !! v = Some (WorkerEnded true) → <[w := WorkerEnded failed]> (ru_Workers s) !! v = Some (WorkerEnded true)) as Hkeep.
  { intros v Hv. rewrite list_lookup_insert_ne; [done|]. intros ->. congruence. }
  pose proof (lookup_lt_Some _ _ _ Hw) as Hlt.
  assert (∀ e, run_error_holds cancelled s e → run_error_holds cancelled (end_worker w failed s) e) as Hrun.
  { intros e. by apply run_error_workers. }
  assert ((length (ru_Errors s) <? length (ru_Workers s) + 1)%nat = true) as Hroom by (apply Nat.ltb_lt; lia).
  assert (ru_Errors (end_worker w failed s) = if failed then ru_Errors s ++ [WorkerFailed w] else ru_Errors s) as Herrors.
  { unfold end_worker. rewrite Hroom. by destruct failed. }
  split.
  - unfold run_phase_holds in *. change (ru_Phase (end_worker w failed s)) with (ru_Phase s).
    destruct (ru_Phase s) as [n| |e|e|e|e we|[[]|]]; try (destruct_and?; split_and?; by auto).
    + destruct Hp as [Hnil _]. by rewrite Hnil in Hw.
    + intros v. rewrite Herrors. cbn. intros [(-> & Heq & _)|[_ Hv]]%list_lookup_insert_Some.
      * injection Heq as ->. apply elem_of_app. right. by left.
      * apply Hp in Hv. destruct failed; [apply elem_of_app; by left|done].
    + destruct Hp as (? & ? & ? & Hwe). split_and!; try done; [by apply Hrun|]. destruct we; [done|]. by apply all_ended_insert.
    + cbn. by rewrite Hp in Hw.
    + destruct Hp as (? & ? & ? & Hall & ?). split_and!; try done. by apply all_ended_insert.
  - intros e. rewrite Herrors. destruct failed.
    + intros [He|He%list_elem_of_singleton]%elem_of_app.
      * destruct (Herr _ He) as (v & -> & Hv). eauto.
      * exists w. split; [done|]. cbn. by apply list_lookup_insert_eq.
    + intros He. destruct (Herr _ He) as (v & -> & Hv). eauto.
  - rewrite Herrors. destruct failed; [|done]. apply NoDup_app. split_and!; [done| |apply NoDup_singleton].
    intros e He ->%list_elem_of_singleton. destruct (Herr _ He) as (v & [= <-] & Hv). congruence.
  - done.
Qed.

Lemma run_surroundings_holds cancelled s s' : run_holds cancelled s → run_surroundings s s' → run_holds cancelled s'.
Proof.
  intros H Hs. destruct Hs as [s w failed Hw|s Hp Hserved|s Hopen|s n Hn]; [by apply end_worker_holds|..];
    destruct H as [Hphase Herr Hnd Hsv]; split; try done.
  - cbn. by intros e [= <-].
  - unfold run_phase_holds, server_open in *. cbn. destruct (ru_Phase s) as [| |e|e|e|e we|[[]|]]; done.
  - unfold run_phase_holds in *. cbn. destruct (ru_Phase s) as [| |e|e|e|e we|[[]|]]; try done.
    destruct Hphase as (_ & _ & _ & _ & Hzero). by rewrite Hn in Hzero.
Qed.

(** What [Run] returns: the first of its three errors. *)
Lemma returned_holds cancelled s e we last :
  run_error_holds cancelled s e → ru_ShuttingDown s = true → ru_Stopped s = true →
  match we with None => all_ended (ru_Workers s) = true | Some we => we = WorkersShutdown end →
  (last = None ∧ ru_Requests s = O ∨ last = Some ServerShutdown) →
  run_phase_holds cancelled (at_phase (RunReturned (first_error [e; we; last])) s).
Proof.
  intros He Hs Ht Hwe Hlast. unfold run_phase_holds. cbn.
  destruct e as [[]|]; try done. destruct we as [we|]; [by subst|]. destruct Hlast as [[-> Hr]| ->]; done.
Qed.

Lemma run_goes_holds cancelled s s' : run_holds cancelled s → run_goes cancelled s s' → run_holds cancelled s'.
Proof.
  intros [Hphase Herr Hnd Hsv] Hs. unfold run_phase_holds in Hphase.
  destruct Hs as [s n Hp|s n Hp|s Hp Hc|s e es Hp He|s e Hp He|s e Hp|s e Hp|s e Hp Hall|s e Hp Hx|s e we Hp Hr|s e we Hp Hx|s e Hp];
    try rewrite Hp in Hphase; split; try done; try (cbn; intros; by eauto).
  - by destruct Hphase.
  - cbn. intros w Hw%lookup_replicate. by destruct Hw.
  - destruct Hphase as [_ Hnil]. cbn. rewrite Hnil. by intros ? ?%elem_of_nil.
  - unfold run_phase_holds. cbn. destruct (Herr e) as (w & -> & Hw); [rewrite He; by left|]. done.
  - cbn. intros e' He'. apply Herr. rewrite He. by right.
  - cbn. rewrite He in Hnd. by inversion Hnd.
  - unfold run_phase_holds. cbn. by rewrite (Hsv e He).
  - unfold run_phase_holds. cbn. destruct_and?. by split_and!.
  - unfold run_phase_holds. cbn. destruct_and?. by split_and!.
  - unfold run_phase_holds. cbn. destruct_and?. by split_and!.
  - destruct Hphase as (? & ? & ? & ?). rewrite <- (app_nil_r [e; we]).
    replace (first_error ([e; we] ++ [])) with (first_error [e; we; None]) by (by destruct e, we). apply returned_holds; eauto.
  - destruct Hphase as (? & ? & ? & ?). apply returned_holds; eauto.
Qed.

Lemma run_start_holds n : run_holds false (run_start n).
Proof. split; try done; [by cbn; intros ? ?%elem_of_nil|apply NoDup_nil_2]. Qed.

(** [Run] does not wait for ever: without any help it returns once it is to stop. *)
Lemma run_can_return s : run_holds true s → ∃ s', rtc (run_goes true) s s' ∧ run_returned s' = true.
Proof.
  intros H.
  assert (∀ s e we, ru_Phase s = RunShutdownServer e we → ∃ s', rtc (run_goes true) s s' ∧ run_returned s' = true) as Hserver.
  { intros t e we Hp. eexists. split.
    - eapply rtc_l; [eapply run_time_passes; right; by exists we|]. apply rtc_once. by eapply run_server_timeout.
    - done. }
  assert (∀ s e, ru_Phase s = RunWaitWorkers e → ∃ s', rtc (run_goes true) s s' ∧ run_returned s' = true) as Hwait.
  { intros t e Hp. edestruct Hserver as (s' & Hs' & Hr); [|exists s'; split; [|exact Hr]].
    2:{ eapply rtc_l; [eapply run_time_passes; by left|]. eapply rtc_l; [by eapply run_workers_timeout|exact Hs']. }
    done. }
  assert (∀ s e, ru_Phase s = RunStopWorkers e → ∃ s', rtc (run_goes true) s s' ∧ run_returned s' = true) as Hstop.
  { intros t e Hp. edestruct Hwait as (s' & Hs' & Hr); [|exists s'; split; [|exact Hr]].
    2:{ eapply rtc_l; [by eapply run_stop_workers|exact Hs']. }
    done. }
  assert (∀ s e, ru_Phase s = RunShuttingDown e → ∃ s', rtc (run_goes true) s s' ∧ run_returned s' = true) as Hshut.
  { intros t e Hp. edestruct Hstop as (s' & Hs' & Hr); [|exists s'; split; [|exact Hr]].
    2:{ eapply rtc_l; [by eapply run_shutting_down|exact Hs']. }
    done. }
  destruct (ru_Phase s) as [n| |e|e|e|e we|err] eqn:Hp; [..|exists s; unfold run_returned; by rewrite Hp]; eauto.
  - eexists. split; [apply rtc_once; by eapply run_listen_fails|done].
  - edestruct Hshut as (s' & Hs' & Hr); [|exists s'; split; [|exact Hr]].
    2:{ eapply rtc_l; [by eapply run_context_done|exact Hs']. }
    done.
Qed.

(** ** The supervisor of consumers *)
Definition current_consumer (phase : legacy_phase) : option nat :=
  match phase with LegacyStart c | LegacyDiscard c | LegacyRunning c => Some c | _ => None end.

(** The current consumer is the last one made; the others were started once and shut down
    once. *)
Definition consumer_holds (phase : legacy_phase) (i : nat) (k : consumer_status) : Prop :=
  if bool_decide (current_consumer phase = Some i)
  then cs_Shutdowns k = O ∧ cs_Starts k = (match phase with LegacyStart _ => 0 | _ => 1 end)%nat ∧
       cs_Started k = (match phase with LegacyRunning _ => true | _ => false end)
  else cs_Shutdowns k = 1%nat ∧ cs_Starts k = 1%nat.

Definition legacy_holds (cancelled : bool) (s : legacy_state) : Prop :=
  (∀ i k, lg_Consumers s !! i = Some k → consumer_holds (lg_Phase s) i k) ∧
  (∀ c, current_consumer (lg_Phase s) = Some c → (c < length (lg_Consumers s))%nat) ∧
  (legacy_returned s = true → cancelled = true).

Lemma consumers_alter phase phase' c f (cs : list consumer_status) :
  (∀ i k, cs !! i = Some k → consumer_holds phase i k) →
  (∀ k, consumer_holds phase c k → consumer_holds phase' c (f k)) →
  (∀ i k, i ≠ c → consumer_holds phase i k → consumer_holds phase' i k) →
  ∀ i k, alter f c cs !! i = Some k → consumer_holds phase' i k.
Proof.
  intros Hcs Hc Hother i k. destruct (decide (i = c)) as [->|Hne].
  - rewrite list_lookup_alter, decide_True by done. intros (k' & Hk & ->)%fmap_Some. eauto.
  - rewrite list_lookup_alter_ne by done. eauto.
Qed.

Lemma consumer_idle phase phase' i k :
  current_consumer phase = None → current_consumer phase' = None → consumer_holds phase i k → consumer_holds phase' i k.
Proof. unfold consumer_holds. by intros -> ->. Qed.

Lemma consumer_other phase phase' c i k :
  current_consumer phase = Some c → (current_consumer phase' = Some c ∨ current_consumer phase' = None) → i ≠ c →
  consumer_holds phase i k → consumer_holds phase' i k.
Proof.
  unfold consumer_holds. intros -> Hphase' Hne. rewrite bool_decide_false by congruence.
  destruct Hphase' as [-> | ->]; rewrite ?bool_decide_false by congruence; done.
Qed.

Lemma consumer_current phase c k :
  current_consumer phase = Some c →
  consumer_holds phase c k ↔
  cs_Shutdowns k = O ∧ cs_Starts k = (match phase with LegacyStart _ => 0 | _ => 1 end)%nat ∧
  cs_Started k = (match phase with LegacyRunning _ => true | _ => false end).
Proof. unfold consumer_holds. intros ->. by rewrite bool_decide_true. Qed.

Lemma consumer_shut phase c k :
  current_consumer phase = None → consumer_holds phase c k ↔ cs_Shutdowns k = 1%nat ∧ cs_Starts k = 1%nat.
Proof. unfold consumer_holds. by intros ->. Qed.

(** A step that only touches the current consumer. *)
Lemma legacy_alter cancelled phase phase' c f cs :
  legacy_holds cancelled (mkLegacy phase cs) → current_consumer phase = Some c →
  (current_consumer phase' = Some c ∨ current_consumer phase' = None) →
  (∀ k, consumer_holds phase c k → consumer_holds phase' c (f k)) →
  (legacy_returned (mkLegacy phase' (alter f c cs)) = true → cancelled = true) →
  legacy_holds cancelled (mkLegacy phase' (alter f c cs)).
Proof.
  intros (Hcs & Hcur & _) Hphase Hphase' Hf Hret. split_and!; [|cbn|done].
  - cbn. eapply consumers_alter; [exact Hcs|exact Hf|]. intros i k Hne. by eapply consumer_other.
  - intros c' Hc'. rewrite length_alter. destruct Hphase' as [H|H]; [|congruence].
    assert (c' = c) as -> by congruence. by apply Hcur.
Qed.

Lemma legacy_idle cancelled phase phase' cs :
  legacy_holds cancelled (mkLegacy phase cs) → current_consumer phase = None → current_consumer phase' = None →
  (legacy_returned (mkLegacy phase' cs) = true → cancelled = true) → legacy_holds cancelled (mkLegacy phase' cs).
Proof.
  intros (Hcs & _ & _) Hphase Hphase' Hret. split_and!; [|cbn; congruence|done].
  intros i k Hi. cbn in *. eapply consumer_idle; [exact Hphase|exact Hphase'|by apply Hcs].
Qed.

Lemma legacy_goes_holds cancelled s s' : legacy_holds cancelled s → legacy_goes cancelled s s' → legacy_holds cancelled s'.
Proof.
  intros H Hs. destruct Hs as [cs Hc|cs Hc|cs|cs|cs c|cs c|cs c|cs Hc|cs|cs c failed Hc].
  - by eapply legacy_idle.
  - by eapply legacy_idle.
  - by eapply legacy_idle.
  - destruct H as (Hcs & _ & _). split_and!; [|cbn; intros c [= <-]; rewrite length_app; cbn; lia|done].
    intros i k. cbn. rewrite lookup_app_Some. intros [Hi|[Hle Hi]].
    + pose proof (lookup_lt_Some _ _ _ Hi). specialize (Hcs _ _ Hi). unfold consumer_holds in *. cbn in *.
      rewrite bool_decide_false by (intros [= Heq]; lia). done.
    + apply list_lookup_singleton_Some in Hi as [Hi <-].
      replace i with (length cs) by lia. by apply (consumer_current (LegacyStart _)).
  - eapply legacy_alter; [exact H|done|by left| |done].
    intros k (? & Hk & ?)%(consumer_current (LegacyStart c)); [|done]. apply (consumer_current (LegacyRunning c)); [done|]. cbn. by rewrite Hk.
  - eapply legacy_alter; [exact H|done|by left| |done].
    intros k (? & Hk & ?)%(consumer_current (LegacyStart c)); [|done]. apply (consumer_current (LegacyDiscard c)); [done|]. cbn. by rewrite Hk.
  - eapply legacy_alter; [exact H|done|by right| |done].
    intros k (Hk & ? & ?)%(consumer_current (LegacyDiscard c)); [|done]. apply consumer_shut; [done|]. cbn. by rewrite Hk.
  - by eapply legacy_idle.
  - by eapply legacy_idle.
  - eapply legacy_alter; [exact H|done|by right| |done].
    intros k (Hk & ? & ?)%(consumer_current (LegacyRunning c)); [|done]. apply consumer_shut; [done|]. cbn. by rewrite Hk.
Qed.

Lemma legacy_holds_cancelled cancelled s : legacy_holds cancelled s → legacy_holds true s.
Proof. by intros (? & ? & ?). Qed.

Lemma legacy_can_return s : legacy_holds true s → ∃ s', rtc (legacy_goes true) s s' ∧ legacy_returned s' = true.
Proof.
  intros _. destruct s as [phase cs].
  assert (∀ cs, ∃ s', rtc (legacy_goes true) (mkLegacy LegacyRetry cs) s' ∧ legacy_returned s' = true) as Hretry.
  { intros cs'. eexists. split; [apply rtc_once; by apply legacy_retry_cancelled|done]. }
  assert (∀ c cs, ∃ s', rtc (legacy_goes true) (mkLegacy (LegacyDiscard c) cs) s' ∧ legacy_returned s' = true) as Hdiscard.
  { intros c cs'. edestruct Hretry as (s' & Hs' & Hr). exists s'. split; [|exact Hr]. eapply rtc_l; [apply legacy_discarded|exact Hs']. }
  destruct phase as [| |c|c| |c|b]; [..|by eexists]; eauto.
  - eexists. split; [apply rtc_once; by apply legacy_cancelled|done].
  - edestruct Hretry as (s' & Hs' & Hr). exists s'. split; [|exact Hr]. eapply rtc_l; [apply legacy_not_created|exact Hs'].
  - edestruct Hdiscard as (s' & Hs' & Hr). exists s'. split; [|exact Hr]. eapply rtc_l; [apply legacy_not_started|exact Hs'].
  - eexists. split; [apply rtc_once; by apply (legacy_stops _ _ _ false)|done].
Qed.

(** ** The process *)
(** What [main] has closed when it comes to a phase. *)
Definition closed_before (phase : main_phase) : list main_phase :=
  match phase with
  | MainCloseExternal => [MainCloseLegacy]
  | MainCloseSandbox => [MainCloseExternal; MainCloseLegacy]
  | MainExited => [MainCloseSandbox; MainCloseExternal; MainCloseLegacy]
  | _ => []
  end.

Definition main_waited (p : process_state) : Prop :=
  match pr_Main p with
  | MainSelect => True
  | MainExternal => pr_Cancelled p = true
  | MainLegacy => pr_Cancelled p = true ∧ external_done p = true
  | _ => pr_Cancelled p = true ∧ external_done p = true ∧ legacy_done p = true
  end.

Record process_holds (p : process_state) : Prop := {
  ph_external : ∀ s, pr_External p = Some s → run_holds (pr_Cancelled p) s;
  ph_done : pr_ExternalDone p = true → pr_Cancelled p = true ∧ ∀ s, pr_External p = Some s → run_returned s = true;
  ph_legacy : ∀ s, pr_Legacy p = Some s → legacy_holds (pr_Cancelled p) s;
  ph_main : main_waited p;
  ph_closed : pr_Closed p = closed_before (pr_Main p)
}.

Lemma run_goes_on_returned cancelled s s' : run_returned s = true → run_goes cancelled s s' → False.
Proof. unfold run_returned. intros Hr Hs. destruct Hs as [| | | | | | | | | | |s e [H|[we H]]]; rewrite ?H in Hr; by try (destruct (ru_Phase s)). Qed.

Lemma legacy_goes_on_returned cancelled s s' : legacy_returned s = true → legacy_goes cancelled s s' → False.
Proof. unfold legacy_returned. intros Hr Hs. by destruct Hs. Qed.

Lemma run_surroundings_returned s s' : run_surroundings s s' → run_returned s = true → run_returned s' = true.
Proof. intros Hs. by destruct Hs. Qed.

Lemma process_goes_holds p p' : process_holds p → process_goes p p' → process_holds p'.
Proof.
  intros [Hext Hdone Hleg Hmain Hclosed] Hp. unfold main_waited in Hmain.
  destruct Hp as [p Hm|p Hm Hc|p Hm He|p Hm Hl|p Hm|p Hm|p Hm|p s s' Hs Hgo|p s Hs Hret|p s s' Hs Hgo];
    try rewrite Hm in Hmain; try rewrite Hm in Hclosed; split; cbn; try done; try (by rewrite Hclosed).
  - intros s Hs. eapply run_holds_cancelled. by apply Hext.
  - intros Hd. split; [done|]. by apply Hdone.
  - intros s Hs. eapply legacy_holds_cancelled. by apply Hleg.
  - destruct Hmain. by split_and!.
  - intros t [= <-]. eapply run_goes_holds; [by apply Hext|done].
  - intros Hd. destruct (Hdone Hd) as [? Hr]. destruct (run_goes_on_returned _ _ _ (Hr _ Hs) Hgo).
  - unfold main_waited in *. cbn. unfold external_done, legacy_done in *. cbn. rewrite Hs in Hmain. exact Hmain.
  - intros t Ht. eapply run_holds_cancelled. by apply Hext.
  - intros _. split; [done|]. intros t Ht. congruence.
  - intros t Ht. eapply legacy_holds_cancelled. by apply Hleg.
  - unfold main_waited in *. unfold external_done, legacy_done in *. cbn. rewrite Hs in *.
    destruct (pr_Main p); naive_solver.
  - intros t [= <-]. eapply legacy_goes_holds; [by apply Hleg|done].
  - unfold main_waited in *. unfold external_done, legacy_done in *. cbn. rewrite Hs in Hmain.
    assert (legacy_returned s = true → legacy_returned s' = true) as Hkeep.
    { intros Hr. destruct (legacy_goes_on_returned _ _ _ Hr Hgo). }
    destruct (pr_Main p); naive_solver.
Qed.

Lemma process_step_holds p p' : process_holds p → lifetime_step p p' → process_holds p'.
Proof.
  intros Hp Hstep. destruct Hstep as [p p' Hgo|p s s' Hs Hgo]; [by eapply process_goes_holds|].
  destruct Hp as [Hext Hdone Hleg Hmain Hclosed]. split; cbn; try done.
  - intros t [= <-]. eapply run_surroundings_holds; [by apply Hext|done].
  - intros Hd. destruct (Hdone Hd) as [? Hr]. split; [done|]. intros t [= <-]. eapply run_surroundings_returned; [done|by apply Hr].
  - unfold main_waited, external_done, legacy_done in *. cbn. rewrite Hs in Hmain. exact Hmain.
Qed.

Lemma process_start_holds external legacy : process_holds (process_start external legacy).
Proof.
  split; cbn; try done.
  - intros s Hs. destruct external as [n|]; [|done]. injection Hs as <-. apply run_start_holds.
  - intros s Hs. destruct legacy; [|done]. injection Hs as <-. split_and!; done.
Qed.

Lemma process_reached external legacy p : rtc lifetime_step (process_start external legacy) p → process_holds p.
Proof. apply rtc_preserves; [apply process_step_holds|apply process_start_holds]. Qed.

(** ** What the process promises *)
(** C28: the databases and the sandbox client are closed only after both runtimes have
    returned, in the order of their use. If the external runtime returned without an error
    then every worker had ended and no request was in the API; if it returned a worker's
    error that worker failed. Every consumer was started once and shut down once. Until
    the runtime stops it forgets no failure of a worker, and while the supervisor runs
    there is one consumer at a time. *)
Theorem process_closes_last external legacy p :
  rtc lifetime_step (process_start external legacy) p →
  (pr_Closed p ≠ [] →
     pr_Cancelled p = true ∧
     (∀ s, pr_External p = Some s → ∃ err, ru_Phase s = RunReturned err ∧
        (err = None → all_ended (ru_Workers s) = true ∧ ru_Requests s = O) ∧
        (∀ w, err = Some (WorkerFailed w) → ru_Workers s !! w = Some (WorkerEnded true))) ∧
     (∀ s, pr_Legacy p = Some s → legacy_returned s = true ∧
        Forall (λ c, cs_Starts c = 1%nat ∧ cs_Shutdowns c = 1%nat) (lg_Consumers s))) ∧
  (∀ s w, pr_External p = Some s → ru_Phase s = RunSelect → ru_Workers s !! w = Some (WorkerEnded true) →
     WorkerFailed w ∈ ru_Errors s) ∧
  (∀ s i j ki kj, pr_Legacy p = Some s → lg_Consumers s !! i = Some ki → lg_Consumers s !! j = Some kj →
     cs_Shutdowns ki = O → cs_Shutdowns kj = O → i = j).
Proof.
  intros [Hext Hdone Hleg Hmain Hclosed]%process_reached. split_and!.
  - intros Hne. rewrite Hclosed in Hne.
    assert (pr_Cancelled p = true ∧ external_done p = true ∧ legacy_done p = true) as (Hc & He & Hl).
    { unfold main_waited in Hmain. by destruct (pr_Main p). }
    split_and!; [done| |].
    + intros s Hs. unfold external_done in He. rewrite Hs in He. destruct (Hdone He) as [_ Hr]. specialize (Hr _ Hs).
      unfold run_returned in Hr. destruct (ru_Phase s) as [| | | | | |err] eqn:Hp; try done. exists err.
      pose proof (rh_phase _ _ (Hext _ Hs)) as Hphase. unfold run_phase_holds in Hphase. rewrite Hp in Hphase.
      split_and!; [done| |]; [intros ->; by destruct Hphase as (_ & _ & _ & ? & ?)|intros w ->; by destruct Hphase as (_ & _ & ?)].
    + intros s Hs. unfold legacy_done in Hl. rewrite Hs in Hl. split; [done|]. apply Forall_forall.
      intros k [i Hi]%list_elem_of_lookup. destruct (Hleg _ Hs) as (Hcs & _ & _). specialize (Hcs _ _ Hi).
      apply consumer_shut in Hcs; [tauto|]. unfold legacy_returned in Hl. by destruct (lg_Phase s).
  - intros s w Hs Hp Hw. pose proof (rh_phase _ _ (Hext _ Hs)) as Hphase. unfold run_phase_holds in Hphase. rewrite Hp in Hphase. by apply Hphase.
  - intros s i j ki kj Hs Hi Hj Hki Hkj. destruct (Hleg _ Hs) as (Hcs & _ & _).
    pose proof (Hcs _ _ Hi) as H1. pose proof (Hcs _ _ Hj) as H2. unfold consumer_holds in H1, H2.
    case_bool_decide as E1; [|lia]. case_bool_decide as E2; [|lia]. congruence.
Qed.

(** The steps of a part are steps of the process. *)
Lemma external_rtc p s s' :
  pr_External p = Some s → rtc (run_goes (pr_Cancelled p)) s s' →
  rtc process_goes p (mkProcess (pr_Main p) (pr_Cancelled p) (Some s') (pr_ExternalDone p) (pr_Legacy p) (pr_Closed p)).
Proof.
  destruct p as [phase cancelled external finished legacy closed]. cbn. intros ->.
  apply (rtc_congruence (λ s, mkProcess phase cancelled (Some s) finished legacy closed)).
  intros t t' Ht. by apply (external_runs (mkProcess phase cancelled (Some t) finished legacy closed) t t').
Qed.

Lemma legacy_rtc p s s' :
  pr_Legacy p = Some s → rtc (legacy_goes (pr_Cancelled p)) s s' →
  rtc process_goes p (mkProcess (pr_Main p) (pr_Cancelled p) (pr_External p) (pr_ExternalDone p) (Some s') (pr_Closed p)).
Proof.
  destruct p as [phase cancelled external finished legacy closed]. cbn. intros ->.
  apply (rtc_congruence (λ s, mkProcess phase cancelled external finished (Some s) closed)).
  intros t t' Ht. by apply (legacy_runs (mkProcess phase cancelled external finished (Some t) closed) t t').
Qed.

(** Once the context is cancelled both runtimes can come to their ends. *)
Lemma external_can_finish p :
  process_holds p → pr_Cancelled p = true →
  ∃ p', rtc process_goes p p' ∧ pr_Main p' = pr_Main p ∧ pr_Cancelled p' = true ∧ external_done p' = true ∧ process_holds p'.
Proof.
  intros Hp Hc. destruct (pr_External p) as [s|] eqn:Hs; [|exists p; unfold external_done; rewrite Hs; done].
  pose proof (ph_external _ Hp _ Hs) as H. rewrite Hc in H. destruct (run_can_return _ H) as (s' & Hs' & Hr).
  rewrite <- Hc in Hs'. eapply (external_rtc _ _ _ Hs) in Hs'.
  assert (rtc process_goes p (mkProcess (pr_Main p) true (Some s') true (pr_Legacy p) (pr_Closed p))) as Hrun.
  { etrans; [exact Hs'|]. apply rtc_once. by apply (external_returns (mkProcess _ _ (Some s') _ _ _) s'). }
  eexists. split; [exact Hrun|]. split_and!; try done.
  revert Hrun. by apply rtc_preserves; [apply process_goes_holds|].
Qed.

Lemma legacy_can_finish p :
  process_holds p → pr_Cancelled p = true → external_done p = true →
  ∃ p', rtc process_goes p p' ∧ pr_Main p' = pr_Main p ∧ external_done p' = true ∧ legacy_done p' = true.
Proof.
  intros Hp Hc He. destruct (pr_Legacy p) as [s|] eqn:Hs; [|exists p; unfold legacy_done; rewrite Hs; done].
  pose proof (ph_legacy _ Hp _ Hs) as H. rewrite Hc in H. destruct (legacy_can_return _ H) as (s' & Hs' & Hr).
  rewrite <- Hc in Hs'. eapply (legacy_rtc _ _ _ Hs) in Hs'. by eexists.
Qed.

Lemma main_can_exit p :
  pr_Main p ≠ MainSelect → external_done p = true → legacy_done p = true → ∃ p', rtc process_goes p p' ∧ pr_Main p' = MainExited.
Proof.
  intros Hne He Hl.
  assert (∀ p, pr_Main p = MainCloseSandbox → ∃ p', rtc process_goes p p' ∧ pr_Main p' = MainExited) as H3.
  { intros q Hq. eexists. split; [apply rtc_once; by apply main_close_sandbox|done]. }
  assert (∀ p, pr_Main p = MainCloseExternal → ∃ p', rtc process_goes p p' ∧ pr_Main p' = MainExited) as H2.
  { intros q Hq. edestruct H3 as (p' & Hp' & Hm); [|exists p'; split; [eapply rtc_l; [by apply main_close_external|exact Hp']|done]]. done. }
  assert (∀ p, pr_Main p = MainCloseLegacy → ∃ p', rtc process_goes p p' ∧ pr_Main p' = MainExited) as H1.
  { intros q Hq. edestruct H2 as (p' & Hp' & Hm); [|exists p'; split; [eapply rtc_l; [by apply main_close_legacy|exact Hp']|done]]. done. }
  assert (∀ p, pr_Main p = MainLegacy → legacy_done p = true → ∃ p', rtc process_goes p p' ∧ pr_Main p' = MainExited) as H0.
  { intros q Hq Hd. edestruct H1 as (p' & Hp' & Hm); [|exists p'; split; [eapply rtc_l; [by apply main_legacy|exact Hp']|done]]. done. }
  destruct (pr_Main p) eqn:Hm; [done| |by eapply H0|by eapply H1|by eapply H2|by eapply H3|by exists p].
  edestruct (H0 (main_at MainLegacy [] p)) as (p' & Hp' & Hm'); [done|done|].
  exists p'. split; [eapply rtc_l; [by apply main_external|exact Hp']|done].
Qed.

(** C29: whatever has happened, the process can be stopped without the help of its workers
    and requests: a signal and the passing of time bring [main] to its end. *)
Theorem process_can_stop external legacy p :
  rtc lifetime_step (process_start external legacy) p → ∃ p', rtc process_goes p p' ∧ pr_Main p' = MainExited.
Proof.
  intros Hp%process_reached.
  assert (∃ q, rtc process_goes p q ∧ pr_Main q ≠ MainSelect ∧ pr_Cancelled q = true) as (q & Hpq & Hq & Hc).
  { pose proof (ph_main _ Hp) as Hmain. unfold main_waited in Hmain. destruct (pr_Main p) eqn:Hm;
      [eexists; split; [apply rtc_once; by apply main_signal|done]|exists p; rewrite Hm; naive_solver..]. }
  assert (process_holds q) as Hhq by (revert Hpq; by apply rtc_preserves; [apply process_goes_holds|]).
  destruct (external_can_finish q Hhq Hc) as (r & Hqr & Hmr & Hcr & Her & Hhr).
  destruct (legacy_can_finish r Hhr Hcr Her) as (t & Hrt & Hmt & Het & Hlt).
  destruct (main_can_exit t) as (u & Htu & Hu); [congruence|done|done|].
  exists u. split; [|done]. etrans; [exact Hpq|]. etrans; [exact Hqr|]. by etrans.
Qed.
