(* ===== verification/LegacyWitness.v ===== *)
(** * A submission of the first API, at concrete inputs

    One event is judged against the fleet of [JudgeWitness] with the bundle of
    [BundleWitness], delivered once, and the runs of the task registry and of the
    sandbox client it goes through; the addresses of sandboxes and name servers. *)
From stdpp Require Import prelude gmap strings.
From S2P Require Import Prelude.
From S2P Require Import GoText.
From S2P Require Import Encodings.
From S2P Require Import Manifest.
From S2P Require Import Scheduler.
From S2P Require Import Callback.
From S2P Require Import Sandbox.
From S2P Require Import BatchPipeline.
From S2P Require Import JudgeWitness.
From S2P Require Import Store.
From S2P Require Import StoreExample.
From S2P Require Import BundleArchive.
From S2P Require Import BundleCache.
From S2P Require Import BundleWitness.
From S2P Require Import SubmissionEvents.
From S2P Require Import TaskRegistry.
From S2P Require Import LegacyJudge.
From S2P Require Import LegacyContract.
From S2P Require Import SandboxClient.
From S2P Require Import HttpServer.
From S2P Require Import Discovery.
Import Example.

Open Scope Z_scope.

(** ** The submission *)
Definition the_event : SubmissionRequested := mkSubmissionRequested 1 "event-1" 7 1 5 9 "go".
Definition the_task : Task := mkTask 7 5 (Some 3) 9 "go" "package main" SubmissionPending None None None None None.
Definition the_version : ProblemVersion := mkProblemVersion 3 5 "PUBLISHED" "limits" "judge".
Definition the_bundle : TestBundle := mkTestBundle 3 "external/object.zip" (hex_encode (digest "zip")) 3 "manifest".

(** The call of [Resolve] of [BundleWitness]. *)
#[local] Instance Metadata_eq_dec : EqDecision Metadata.
Proof. solve_decision. Defined.

Definition the_resolve (metadata : Metadata) : result cache_error string :=
  if decide (lower_metadata metadata = zip_metadata) then Ok zip_target else Err CacheFailed.

Definition the_cache_state : cache_system :=
  cached_as (Resolved (Ok zip_target)) zip_files_cached zip_entry ∅ {[ 0%nat := Ok zip_target ]}.

Lemma the_cache_answers : cache_answers the_resolve zip_files_cached the_cache_state.
Proof.
  split; [reflexivity|]. intros metadata path. unfold the_resolve. case_decide as E; [|done]. intros [= <-].
  exists 0%nat. rewrite E. apply lookup_singleton_eq.
Qed.

Definition the_limits_json (s : string) : option (versionLimits * string) := Some (mkVersionLimits 1000 256 None, "").
Definition the_judge_json (s : string) : option (versionJudgeConfig * string) :=
  Some (mkVersionJudgeConfig (Some false) None None (Some 0) (Some "exact") None, "").

Definition the_run :=
  execute plus_rpc (λ _, 100) (λ _, 100) (λ _, 1) (λ _, 1) (λ _, None) digest json_manifest the_reader
    the_resolve zip_files_cached the_limits false (λ _, Some (Some the_task)) (λ _, Some (Some the_version))
    (λ _, Some (Some the_bundle)) the_limits_json the_judge_json plus_pipeline the_event plus_env.

Definition the_result : Result := match the_run with (Ok r, _) => r | _ => systemErrorResult "" end.

Lemma the_event_identified : identified the_event.
Proof. vm_compute. by split_and!. Qed.

Lemma the_run_ok : ∃ env', the_run = (Ok the_result, env').
Proof. eexists. vm_compute. reflexivity. Qed.

(** The verdict is that of the published version, on the bundle of its digest. *)
Lemma verdict_of_published_version_witness :
  res_Status the_result = StatusAccepted ∧ res_SubmissionID the_result = 7 ∧ result_contract the_result ∧
  ∃ content b, tb_SHA256 b = hex_encode (digest "zip") ∧ hex_encode (digest content) = to_lower (tb_SHA256 b).
Proof.
  destruct the_run_ok as [env' Hrun].
  destruct (verdict_of_published_version (S := Scheduler) _ _ _ _ _ _ _ _ _ _ _ _ _ _ _ _ _ _ _ _ _ _ _ "/cache" 1000 100 hour ∅ the_cache ∅ now0 _
    the_cache_new ltac:(vm_compute; reflexivity) reach_resolved the_cache_answers the_event_identified Hrun)
    as ((_ & Hid & _) & Hverdict & Hcontract).
  split; [vm_compute; reflexivity|]. split; [exact Hid|]. split; [apply Hcontract; vm_compute; intros [? _]; discriminate|].
  destruct Hverdict as [[Hsys _]|(s & v & b & artifact & content & entries & Hj & Ha)]; [vm_compute in Hsys; discriminate|].
  exists content, b. destruct (jb_bundle _ _ _ _ _ _ _ _ _ _ _ _ _ _ _ _ _ _ _ _ Hj) as [Hb _]. injection Hb as <-.
  split; [reflexivity|exact (au_digest _ _ _ _ _ _ _ _ Ha)].
Defined.

(** ** One delivery through the registry *)
Definition a_registry : TaskRegistry := NewTaskRegistry 4 hour.
Definition a_result : Result := withResultIdentity (systemErrorResult "late") the_event.

Lemma claim_fresh registry now key :
  registry_full registry (∅ : task_entries) = false →
  claim map_to_list registry now key (mkRegistryState ∅ ∅ 0) =
  (ClaimOwned 0 None, mkRegistryState {[key := mkTaskEntry 0 true 1 None false now]} ∅ 2).
Proof.
  intros Hroom. unfold claim, pruneCompleted, set_entries. cbn [rs_Entries rs_Closed rs_Next].
  rewrite map_filter_empty, lookup_empty. unfold evictOldestCompleted. cbn [rs_Entries]. rewrite Hroom. cbn. by rewrite ?Hroom.
Qed.

Lemma registry_run :
  ∃ y : registry_system unit, rtc (registry_step (λ _, false) a_registry) (initial_registry 0) y ∧
    ry_Calls y !! 0%nat = Some ("task", Processed None).
Proof.
  assert (Hroom : registry_full a_registry ∅ = false) by reflexivity. revert Hroom. generalize a_registry, a_result, "task".
  intros registry r key Hroom. eexists. split.
  - eapply rtc_l; [apply (registry_call _ _ _ 0 key), lookup_empty|].
    eapply rtc_l; [eapply (registry_process _ _ _ 0); [apply lookup_insert_eq|eapply (process_claim _ _ _ _ _ map_to_list); [done|by apply claim_fresh]]|].
    eapply rtc_l; [eapply (registry_process _ _ _ 0); [apply lookup_insert_eq|exact (process_executed _ _ _ _ _ 0 r)]|].
    eapply rtc_l; [eapply (registry_process _ _ _ 0); [apply lookup_insert_eq|exact (process_remember _ _ _ _ _ _ _)]|].
    eapply rtc_l; [eapply (registry_process _ _ _ 0); [apply lookup_insert_eq|exact (process_publish _ _ _ _ _ _ _ None)]|].
    eapply rtc_l; [eapply (registry_process _ _ _ 0); [apply lookup_insert_eq|exact (process_finish _ _ _ _ _ _ _)]|].
    apply rtc_refl.
  - apply lookup_insert_eq.
Qed.

Lemma task_results_delivered_witness :
  ∃ y : registry_system unit, rtc (registry_step (λ _, false) a_registry) (initial_registry 0) y ∧
    ∃ r, TaskPublished "task" r true ∈ ry_Events y.
Proof.
  destruct registry_run as (y & Hrun & Hcall). exists y. split; [exact Hrun|].
  destruct (task_results_delivered (λ _, false) a_registry 4 hour 0 y "task" eq_refl Hrun) as (st & _ & _ & Hp).
  exact (Hp _ Hcall).
Defined.

Lemma task_has_one_owner_witness :
  ∃ y : registry_system unit, rtc (registry_step (λ _, false) a_registry) (initial_registry 0) y ∧
    Z.of_nat (size (rs_Entries (ry_State y))) ≤ 4.
Proof.
  destruct registry_run as (y & Hrun & _). exists y. split; [exact Hrun|].
  exact (proj2 (proj2 (proj2 (task_has_one_owner (λ _, false) a_registry 4 hour 0 y eq_refl Hrun)))).
Defined.









(** ** The sandbox client *)
Definition the_stream (n : nat) : received :=
  match n with
  | O => ReceivedEvent (Some (mkBatchEvent CASE_RESULT "one" (Some (mkExecuteResponse "Accepted" 0 "3" 12 2048))))
  | S O => ReceivedEvent (Some (mkBatchEvent COMPLETED "" None))
  | _ => ReceivedEOF
  end.

Lemma received_batch_exact_witness :
  ∃ events, receiveBatch (λ _, 100) plus_request the_stream = Some (Ok (Some <$> events)) ∧ length events = 2%nat ∧
    ∀ k e, events !! k = Some e → the_stream k = ReceivedEvent (Some e).
Proof.
  destruct (received_batch_exact (λ _, 100) plus_request the_stream) as (r & Hr & Hexact & _); [intros e; vm_compute; by split|vm_compute; reflexivity|].
  assert (Hok : ∃ out, r = Ok out ∧ length out = 2%nat) by (vm_compute in Hr; injection Hr as <-; eexists; split; reflexivity).
  destruct Hok as (out & Hok & Hlen). destruct (proj1 (Hexact out) Hok) as (events & He & Hstream & _).
  exists events. rewrite Hr, Hok, He. rewrite He, length_fmap in Hlen. split; [reflexivity|]. split; [exact Hlen|exact Hstream].
Defined.

Lemma client_run :
  ∃ y, rtc (client_step (NewClientWithCache second 2 minute)) (initial_client 0) y ∧ cy_Callers y !! 0%nat = Some ("sandbox-a", AtCall 0).
Proof.
  eexists. split.
  - eapply rtc_l; [eapply (client_call _ _ 0 "sandbox-a"); [reflexivity|discriminate]|].
    eapply rtc_l; [eapply (client_acquire _ _ 0 "sandbox-a" map_to_list true); [reflexivity|intros m; reflexivity|vm_compute; reflexivity]|].
    apply rtc_refl.
  - reflexivity.
Qed.

Lemma sandbox_connections_safe_witness :
  ∃ y, rtc (client_step (NewClientWithCache second 2 minute)) (initial_client 0) y ∧
    cy_Callers y !! 0%nat = Some ("sandbox-a", AtCall 0) ∧ (ct_Closed (cy_Client y) = false → 0%nat ∉ ct_ClosedConns (cy_Client y)).
Proof.
  destruct client_run as (y & Hrun & Hcall). exists y. split; [exact Hrun|]. split; [exact Hcall|].
  destruct (sandbox_connections_safe second 2 minute 0 y Hrun) as (_ & Hopen & _). intros Hc.
  exact (proj1 (Hopen _ _ _ Hcall Hc)).
Defined.

(** ** Sandboxes and name servers *)
Definition a_slice : EndpointSlice :=
  mkEndpointSlice [mkEndpointPort (Some "grpc") (Some 8080) None]
    [mkEndpoint ["10.0.0.3"] (Some true) (Some false); mkEndpoint ["10.0.0.4"] (Some false) None;
     mkEndpoint ["10.0.0.5"] (Some true) (Some true); mkEndpoint ["2001:db8::1"] (Some true) None].

Lemma selected_sandbox_ready_witness :
  EndpointAddresses [a_slice] "grpc" = ["10.0.0.3:8080"; "[2001:db8::1]:8080"] ∧
  ready_address [a_slice] "grpc" "10.0.0.3:8080".
Proof.
  split; [vm_compute; reflexivity|].
  assert (scheduler_wf New) as Hwf by (split; cbn; lia).
  pose proof (selected_sandbox_ready New (Some [a_slice]) "grpc" ∅ Hwf) as H.
  destruct H as (_ & _ & Hin & _); [vm_compute; reflexivity|].
  apply Hin. vm_compute. left.
Defined.

(** Texts of digits and dots are addresses. *)
Definition parse_dotted (s : string) : option string :=
  if string_forallb (λ a, digit a || is_char 46 a) s then Some s else None.

Definition answers_of (host : string) (addresses : list string) (_ : nat) (s : string) : option (list string) :=
  if bool_decide (s = host) then Some addresses else None.

Definition three_lookups : list (nat → string → option (list string)) :=
  [answers_of "mq.local" ["10.0.0.12"; "10.0.0.11"]; answers_of "other" []; answers_of "mq.local" ["10.0.0.12"]].

Definition a_resolver : nameServerResolver :=
  default (mkResolver [] []) (newRocketMQNameServerResolver parse_dotted "mq.local:9876; 10.0.0.9:9876").

Lemma parse_dotted_plain s ip : parse_dotted s = Some ip → contains_byte 91 ip = false ∧ contains_byte 93 ip = false.
Proof.
  unfold parse_dotted. destruct (string_forallb _ s) eqn:H; [|done]. intros [= <-]. unfold contains_byte.
  induction s as [|a s IH]; [done|]. cbn [string_forallb] in *. apply andb_true_iff in H as [Ha Hs].
  destruct (IH Hs) as [H91 H93]. apply negb_false_iff in H91, H93.
  assert (byte_of a ≠ 91 ∧ byte_of a ≠ 93) as [N1 N2].
  { apply orb_true_iff in Ha as [Ha|Ha]; [unfold digit in Ha; apply in_range_true in Ha|unfold is_char in Ha; apply Z.eqb_eq in Ha]; lia. }
  rewrite (proj2 (Z.eqb_neq _ _) N1), (proj2 (Z.eqb_neq _ _) N2), H91, H93. done.
Qed.

Lemma name_servers_resolved_witness :
  (Resolve_all parse_dotted three_lookups a_resolver).1 =
    [["10.0.0.11:9876"; "10.0.0.12:9876"; "10.0.0.9:9876"]; ["10.0.0.11:9876"; "10.0.0.12:9876"; "10.0.0.9:9876"];
     ["10.0.0.12:9876"; "10.0.0.9:9876"]] ∧
  length (Resolve_all parse_dotted three_lookups a_resolver).1 = 3%nat.
Proof.
  split; [vm_compute; reflexivity|].
  destruct (name_servers_resolved parse_dotted "mq.local:9876; 10.0.0.9:9876" a_resolver three_lookups) as [H _].
  - exact parse_dotted_plain.
  - vm_compute. reflexivity.
  - exact H.
Defined.
