(* ===== verification/ApiWitness.v ===== *)
(** * The external API, at concrete inputs

    A key is issued and authenticated, two calls share a quota, a server is built and
    a request fits its limit, a migration is interrupted, a process starts and stops. *)
From Stdlib Require Import QArith.
From stdpp Require Import prelude gmap strings pretty.
From S2P Require Import Prelude.
From S2P Require Import GoText.
From S2P Require Import Manifest.
From S2P Require Import Store.
From S2P Require Import StoreExample.
From S2P Require Import BundleWitness.
From S2P Require Import JobRepository.
From S2P Require Import Submission.
From S2P Require Import Credentials.
From S2P Require Import ApiQuota.
From S2P Require Import HttpServer.
From S2P Require Import HttpJobs.
From S2P Require Import HttpStore.
From S2P Require Import Migrations.
From S2P Require Import AppRuntime.
From S2P Require Import Shutdown.
Import Example.

Open Scope Z_scope.

(** ** A decoder of lists of plain names *)
Definition inner (s : string) : string := stake (String.length s - 2) (sdrop 1 s).

Definition name_list (s : string) : option (list string) :=
  let names := inner s in
  if bool_decide (names = "") then Some [] else Some (inner <$> split_on 44 names).

Lemma inner_between a b s : String.length a = 1%nat → String.length b = 1%nat → inner (a +:+ s +:+ b) = s.
Proof.
  intros Ha Hb. unfold inner. rewrite sdrop_append by done. rewrite !string_length_append, Ha, Hb.
  replace (1 + (String.length s + 1) - 2)%nat with (String.length s) by lia. by rewrite stake_append.
Qed.

Definition name_ok (name : string) : Prop :=
  json_string name = quote +:+ name +:+ quote ∧ string_forallb (λ a, negb (byte_of a =? 44)) (json_string name) = true.

Lemma names_split names :
  names ≠ [] → Forall name_ok names → split_on 44 (json_strings names) = json_string <$> names.
Proof.
  intros Hne Hv. induction Hv as [|name names [Hq Hcomma] Hv IH]; [done|]. destruct names as [|name' names].
  - cbn [json_strings fmap list_fmap]. by rewrite split_on_one.
  - change (json_strings (name :: name' :: names)) with (json_string name +:+ String (ascii_of_byte 44) (json_strings (name' :: names))).
    rewrite split_on_two by done. rewrite IH by done. done.
Qed.

Lemma scope_names_ok scopes : Forall (.∈ validScopes) scopes → Forall name_ok (scope_string <$> scopes).
Proof.
  intros Hv. induction Hv as [|s scopes Hs _ IH]; [constructor|]. apply Forall_cons_2; [|exact IH]. unfold validScopes in Hs.
  rewrite !elem_of_cons, elem_of_nil in Hs. unfold name_ok. destruct_or? Hs; subst; try done; split; vm_compute; reflexivity.
Qed.

Lemma name_list_scopes scopes : Forall (.∈ validScopes) scopes → name_list (scopes_json scopes) = Some (scope_string <$> scopes).
Proof.
  intros Hv%scope_names_ok. unfold name_list, scopes_json. rewrite inner_between by done.
  destruct (scope_string <$> scopes) as [|name names] eqn:E; [done|]. rewrite bool_decide_eq_false_2.
  - rewrite names_split by done. f_equal. clear E. induction Hv as [|n l [Hq _] _ IH]; [done|].
    cbn [fmap list_fmap]. f_equal; [rewrite Hq; by apply inner_between|exact IH].
  - apply Forall_cons_1 in Hv as [[Hq _] _]. destruct names; cbn [json_strings]; by rewrite Hq.
Qed.

(** ** One API key *)
Definition key_bytes : string := ones 41.
Definition key_pepper : string := ones 32.
Definition key_scopes : list Scope := [ScopeJobSubmit; ScopeJobRead].
Definition tenants_only : credential_db := mkCredentialDb {[ 1 := mkTenantRow tenantID "ACTIVE" "policy" None ]} ∅ ∅.
Definition keyed_digest (key message : string) : string := digest message.

Lemma issued_key_opens_its_tenant_witness :
  ∃ material d', CreateAPIKey keyed_digest name_list id tenantID key_scopes (Some hour) key_pepper 0 (Some key_bytes) 1 tenants_only = Ok (material, d') ∧
    Authenticate keyed_digest name_list key_pepper ("Bearer " +:+ km_Plaintext material) minute d' = Ok (mkPrincipal tenantID key_scopes).
Proof.
  assert (Hc : ∃ material d', CreateAPIKey keyed_digest name_list id tenantID key_scopes (Some hour) key_pepper 0 (Some key_bytes) 1 tenants_only = Ok (material, d'))
    by (do 2 eexists; vm_compute; reflexivity).
  destruct Hc as (material & d' & Hc). exists material, d'. split; [exact Hc|].
  destruct (issued_key_opens_its_tenant keyed_digest name_list id tenantID key_scopes (Some hour) key_pepper 0 key_bytes 1 tenants_only material d')
    as [Hopen _].
  - exact name_list_scopes.
  - repeat apply Forall_cons_2; try apply Forall_nil_2; apply list_elem_of_In; cbn; tauto.
  - intros key message. apply digest_length.
  - reflexivity.
  - exact Hc.
  - apply Hopen. vm_compute. reflexivity.
Defined.

(** ** One quota *)
Definition a_limit : QuotaLimit := mkQuotaLimit 10 second.
Definition a_request : QuotaRequest := mkQuotaRequest tenantID QuotaJudgeSubmit 6 a_limit.
Definition two_calls : list quota_call := [mkQuotaCall a_request 0 None; mkQuotaCall a_request 500 None].
Definition a_key : string := quota_key id "croj" tenantID QuotaJudgeSubmit.

Lemma exact_rounding : rounding (λ q, q) 0.
Proof. split; [done|done|intros q _; rewrite Qplus_0_r; apply Qle_refl|split; discriminate]. Qed.

Lemma quota_rate_bounded_witness :
  granted id (λ _, None) (λ q, q) "croj" a_key two_calls ∅ = 12 ∧
  (inject_Z 12 <= inject_Z 10 + inject_Z (500 * 10) / inject_Z 1000 + 2 * 0 * inject_Z 2)%Q.
Proof.
  assert (Hg : granted id (λ _, None) (λ q, q) "croj" a_key two_calls ∅ = 12) by (vm_compute; reflexivity).
  split; [exact Hg|].
  destruct (quota_rate_bounded id (λ _, None) (λ q, q) 0 exact_rounding "croj" a_key a_limit two_calls ∅ 0 500) as [H _].
  - vm_compute. reflexivity.
  - rewrite lookup_empty; intros b E; discriminate E.
  - vm_compute. split_and!; discriminate.
  - repeat apply Forall_cons_2; try apply Forall_nil_2; intros _; reflexivity.
  - rewrite Hg in H. exact H.
Defined.

(** ** One server and one request *)
Definition the_capabilities : Capabilities :=
  mkCapabilities "v1" [mkLanguageCapability "go" "Go" "go"] ["ACM"] ["exact"] (mkCapabilityLimits 65536 1048576 65536 10 1000 256).

Definition the_command : SubmitJobCommand := mkSubmitCommand (id26 "b") "go" "package main" true "" "ref".

Definition a_server : Server := default (mkServer the_capabilities false None false None None 0 0 0 0) (NewServer the_capabilities []).

Lemma job_requests_fit_witness :
  NewServer the_capabilities [] = Some a_server ∧
  len (encode_command the_command) ≤ maximumJobRequestBytes (cl_MaxSourceBytes (cap_Limits (sv_Capabilities a_server))).
Proof.
  split; [vm_compute; reflexivity|].
  destruct (job_requests_fit digest the_capabilities [] a_server the_command (mkLanguage "go" "go" "Go" "go")
              (digest (canonical_request digest (mkJobRequest (id26 "b") "go" "package main" true "" "ref")))) as (_ & H & _).
  - vm_compute. reflexivity.
  - vm_compute. reflexivity.
  - vm_compute. reflexivity.
  - exact H.
Defined.

(** ** Two migrations and two processes *)
Definition migration_files : list (string * option string) :=
  [("002_add_column.sql", Some "-- migrate:replay-errors 1060
ALTER TABLE t ADD COLUMN c INT;
-- migrate:split
UPDATE t SET c = 0;");
   ("001_create_table.sql", Some "CREATE TABLE IF NOT EXISTS t (id INT);")].

Definition the_migrations : list Migration :=
  match Migrations digest migration_files with Ok all => all | Err _ => [] end.

(** The schema is the statements that had an effect; a column is not added twice. *)
Definition the_exec (s : string) (p : unit * list string) : result sql_error (unit * list string) :=
  if bool_decide (s ∈ p.2) then Err (MySQLError 1060) else Ok (tt, p.2 ++ [s]).

(** A process makes a call, after it started if it did not. *)
Notation migration_system := (gmap nat (migrator unit) * migration_db (list string))%type.

Definition call_of (st : migration_system) (event : nat * call_outcome) : migration_system :=
  let ps := match st.1 !! event.1 with Some _ => st.1 | None => <[event.1 := AtLock]> st.1 end in
  let p := default AtLock (ps !! event.1) in
  let r := migrator_step the_exec tt (λ _ _, true) (embedded the_migrations (λ _, 2%nat) event.1) event.1 event.2 p st.2 in
  (<[event.1 := r.1]> ps, r.2).

Lemma call_of_rtc st event :
  rtc (migrators_step the_exec tt (λ _ _, true) the_migrations (λ _, 2%nat)) st (call_of st event).
Proof.
  destruct st as [ps db], event as [c o]. unfold call_of. cbn.
  assert (∀ ps' p, ps' !! c = Some p →
    rtc (migrators_step the_exec tt (λ _ _, true) the_migrations (λ _, 2%nat)) (ps', db)
      (let r := migrator_step the_exec tt (λ _ _, true) (embedded the_migrations (λ _, 2%nat) c) c o p db in (<[c := r.1]> ps', r.2))) as Hcall.
  { intros ps' p Hp. apply rtc_once. eapply migrator_calls; [exact Hp|]. apply surjective_pairing. }
  destruct (ps !! c) as [p|] eqn:Hc.
  - rewrite Hc. cbn. by apply Hcall.
  - rewrite lookup_insert_eq. cbn. eapply rtc_l; [by apply migrator_starts|]. apply (Hcall _ AtLock), lookup_insert_eq.
Qed.

Lemma calls_rtc events st :
  rtc (migrators_step the_exec tt (λ _ _, true) the_migrations (λ _, 2%nat)) st (foldl call_of st events).
Proof.
  revert st. induction events as [|event events IH]; intros st; [done|]. etrans; [apply call_of_rtc|apply IH].
Qed.

(** The first process dies after it added the column; the second starts meanwhile, does
    not get the lock, and a third finishes the work. *)
Definition interrupted_run : migration_system :=
  foldl call_of (∅, mkMigrationDB [] None None)
    ([(0, Fine); (1, Fine)] ++ replicate 6 (0, Fine) ++ [(0, Crash)] ++ replicate 10 (2, Fine))%nat.

Definition outcomes : list (option (migrator unit)) := (λ c, interrupted_run.1 !! c) <$> [0; 1; 2]%nat.

Lemma migrations_crash_safe_witness :
  outcomes = [Some (Returned (Some ApplyCrashed)); Some (Returned (Some ApplyLock)); Some (Returned None)] ∧
  ∃ n, (2 ≤ n)%nat ∧ history_holds the_migrations n (md_History interrupted_run.2).
Proof.
  split; [vm_compute; reflexivity|].
  destruct (migrations_crash_safe the_exec tt (λ _ _, true) digest migration_files the_migrations (λ _, 2%nat) []
              interrupted_run.1 interrupted_run.2) as (n & Hh & _ & _ & Hdone & _).
  - vm_compute. reflexivity.
  - rewrite <- surjective_pairing. apply calls_rtc.
  - exists n. split; [|exact Hh]. specialize (Hdone 2%nat). change (length (embedded the_migrations (λ _, 2%nat) 2%nat)) with 2%nat in Hdone.
    apply Hdone. vm_compute. reflexivity.
Defined.

Lemma undisturbed_run_applies_witness :
  ∃ calls, (Nat.iter calls (undisturbed_step the_exec tt (λ _ _, true) the_migrations 0%nat) (AtLock, mkMigrationDB [] None None)).1
    = Returned None.
Proof.
  destruct (undisturbed_run_applies the_exec tt (λ _ _, true) digest migration_files the_migrations 0%nat 0%nat
              (mkMigrationDB [] None None) tt
              (default (tt, []) (carry_out the_exec (λ _ _, true) the_migrations (tt, []))).2) as (calls & H & _).
  - vm_compute. reflexivity.
  - reflexivity.
  - reflexivity.
  - vm_compute. reflexivity.
  - exists calls. rewrite H. reflexivity.
Defined.

(** ** A process from start to stop *)
Definition a_config : RuntimeConfig :=
  mkRuntimeConfig true ":8080" second (30 * second) (512 * 2 ^ 20) (2 ^ 20) (5 * second) (15 * minute) (25 * minute) (60 * second).

Definition quota_of (capacity : Z) : QuotaLimit := mkQuotaLimit capacity minute.

Definition started : option (Server * RuntimeConfig) :=
  newExternalRuntime a_config the_capabilities (quota_of 100) (quota_of (2 ^ 31)) (2 * minute) (3 * minute) (20 * minute) 4 64
    [true; true] (λ _, true).

Lemma startup_timeouts_sound_witness :
  ∃ server c, started = Some (server, c) ∧ sv_BundleOperationTimeout server + responseWriteAllowance ≤ rc_WriteTimeout c ∧
    512 * 2 ^ 20 * second ≤ rc_MinimumBundleUploadBytesPerSecond c * (rc_ReadTimeout c - requestFramingAllowance).
Proof.
  destruct started as [[server c]|] eqn:Hs; [|vm_compute in Hs; discriminate Hs].
  exists server, c. split; [reflexivity|].
  destruct (startup_timeouts_sound a_config the_capabilities (quota_of 100) (quota_of (2 ^ 31)) (2 * minute) (3 * minute)
              (20 * minute) 4 64 [true; true] (λ _, true) server c) as (H & _ & Hsize & _).
  - vm_compute. discriminate.
  - exact Hs.
  - split; [exact H|]. apply Hsize.
    assert (rc_MaximumBundleBytes c = 512 * 2 ^ 20) as ->; [|vm_compute; split; [reflexivity|discriminate]].
    vm_compute in Hs. injection Hs as <- <-. reflexivity.
Defined.

(** The worker ends when it is told to. *)
Definition ended_run : run_state := mkRun (RunReturned None) [WorkerEnded false] [] None 0 true true false.

Definition ended_process : process_state :=
  mkProcess MainExited true (Some ended_run) true (Some (mkLegacy (LegacyReturned false) []))
    [MainCloseSandbox; MainCloseExternal; MainCloseLegacy].

Ltac process_does := eapply rtc_l; [apply process_itself|cbn].
Ltac run_does step := process_does; [eapply external_runs; [reflexivity|eapply step; reflexivity]|].

Lemma process_ends : rtc lifetime_step (process_start (Some 1%nat) true) ended_process.
Proof.
  run_does run_listens.
  process_does; [by apply main_signal|]. cbn.
  run_does run_context_done. run_does run_shutting_down. run_does run_stop_workers.
  eapply rtc_l; [eapply process_surroundings; [reflexivity|apply (worker_returns _ 0 false); reflexivity]|]. cbn.
  run_does run_workers_done. run_does run_server_done.
  process_does; [by eapply external_returns|].
  process_does; [by apply main_external|].
  process_does; [eapply legacy_runs; [reflexivity|by apply legacy_cancelled]|].
  process_does; [by apply main_legacy|].
  process_does; [by apply main_close_legacy|].
  process_does; [by apply main_close_external|].
  process_does; [by apply main_close_sandbox|].
  apply rtc_refl.
Qed.

Lemma process_closes_last_witness :
  ru_Phase ended_run = RunReturned None ∧ all_ended (ru_Workers ended_run) = true ∧ ru_Requests ended_run = 0%nat.
Proof.
  split; [reflexivity|].
  destruct (process_closes_last (Some 1%nat) true ended_process process_ends) as (H & _ & _).
  destruct H as (_ & Hext & _); [discriminate|].
  destruct (Hext ended_run eq_refl) as (err & Hphase & Hnone & _). apply Hnone. injection Hphase as <-. reflexivity.
Defined.

Lemma process_can_stop_witness : ∃ p, rtc process_goes (process_start (Some 3%nat) true) p ∧ pr_Main p = MainExited.
Proof. apply (process_can_stop (Some 3%nat) true). apply rtc_refl. Defined.
