(* ===== verification/WebhookWitness.v ===== *)
(** * A worked history of the webhook outbox

    One event of the example store is delivered: it is enqueued, leased and
    settled. The theorems about the outbox, the worker, the callback transport
    and the ciphers are instantiated there and at a toy cipher. *)
From stdpp Require Import prelude gmap strings pretty sorting.
From S2P Require Import Prelude.
From S2P Require Import GoText.
From S2P Require Import JobState.
From S2P Require Import Store.
From S2P Require Import JobWorker.
From S2P Require Import JobRepository.
From S2P Require Import StoreExample.
From S2P Require Import Webhook.
From S2P Require Import WebhookSafety.
From S2P Require Import CallbackTransport.
From S2P Require Import WebhookDelivery.
From S2P Require Import WebhookWorker.
From S2P Require Import WebhookWorkerSafety.
From S2P Require Import WebhookRepository.
From S2P Require Import Ciphers.

Open Scope Z_scope.

Module WebhookExample.
Import StoreExample.Example.

(** ** The history of one event *)
Definition datetime3 (t : Z) : Z := t.
Definition maximumAttempts : Z := 3.

Definition secret : EncryptedCallbackSecret := mkEncryptedSecret (token "x") nonce 1.

Definition callback : webhook_callback :=
  {| wb_ExternalID := callbackID; wb_Tenant := 1; wb_DestinationURL := "https://example.com/hook";
     wb_AllowedHost := "example.com"; wb_AllowedPort := 443; wb_Secret := secret; wb_DisabledAt := None |}.

Definition empty_outbox : webhook_db :=
  mkWebhookDB {[ 1 := (tenantID, "ACTIVE") ]} {[ 3 := callback ]} ∅ 1.

(** The cancellation of the running job of the example. *)
Definition cancelled_job : ExternalJobRecord :=
  {| ej_InternalID := 5; ej_TenantInternalID := 1; ej_ExternalID := jobID; ej_TenantExternalID := tenantID;
     ej_BundleExternalID := bundleID; ej_Source := mkSourceMetadata 0 "" "" "" 0 0 ""; ej_CallbackID := callbackID;
     ej_Status := JobStatusCancelled; ej_Language := "go"; ej_StopOnFailure := true; ej_ClientReference := "ref-1";
     ej_AttemptNo := 1; ej_WorkerID := ""; ej_LeaseUntil := None; ej_CancelRequested := None; ej_Result := None;
     ej_FailureCode := ""; ej_CreatedAt := now0; ej_StartedAt := None; ej_CompletedAt := Some done_time |}.

Definition event : outbox_row :=
  match insertTerminalWebhookEvent json_payload window done_time [eventID] cancelled_job claimed with
  | Ok (_, d) => default (mkOutboxRow "" 0 0 "" "" "" 0 0 0 0) (outbox d !! 5)
  | Err _ => mkOutboxRow "" 0 0 "" "" "" 0 0 0 0
  end.

Lemma event_is_created : event_created json_payload window event.
Proof.
  unfold event_created. eexists done_time, [eventID], cancelled_job, eventID, claimed, _.
  split; [vm_compute; reflexivity|]. split; vm_compute; reflexivity.
Qed.

Definition enqueued : webhook_db :=
  mkWebhookDB (wd_Tenants empty_outbox) (wd_Callbacks empty_outbox) {[ 1 := enqueued_webhook event ]} 2.

Definition claim_env : webhook_env := mkWebhookEnv (done_time + second) (done_time + second) ∅ (Some (token "w")) None.

Definition claimed_tx := claimWebhook datetime3 maximumAttempts "worker-1" minute claim_env.
Definition leased_outbox : webhook_db :=
  match claimed_tx enqueued with Ok (_, d) => d | Err _ => enqueued end.
Definition no_claim : WebhookClaim := mkWebhookClaim 0 "" "" "" "" "" "" 0 "" 0 "" "" 0 0 secret.
Definition the_claim : WebhookClaim :=
  match claimed_tx enqueued with Ok (WebhookClaimed c, _) => c | _ => no_claim end.

Definition delivered : WebhookSettlement := mkSettlement WebhookDelivered 200 "" zero_time 0.
Definition settle_time : Z := done_time + 2 * second.
Definition settle_tx := SettleWebhook datetime3 maximumAttempts settle_time the_claim delivered.
Definition settled_outbox : webhook_db :=
  match settle_tx leased_outbox with Ok (_, d) => d | Err _ => leased_outbox end.

Lemma lease_committed : claimed_tx enqueued = Ok (WebhookClaimed the_claim, leased_outbox).
Proof. vm_compute. reflexivity. Qed.

Lemma settlement_committed : settle_tx leased_outbox = Ok (tt, settled_outbox).
Proof. vm_compute. reflexivity. Qed.

Abbreviation step := (webhook_step datetime3 json_payload window maximumAttempts).
Abbreviation run := (webhook_run datetime3 json_payload window maximumAttempts).

Lemma enqueue_step : step empty_outbox (LEnqueue 1) enqueued.
Proof.
  assert (is_Some (webhook_join empty_outbox (enqueued_webhook event))) as Hj by (vm_compute; eauto).
  exact (step_enqueue _ _ _ _ empty_outbox event event_is_created Hj).
Qed.

Lemma claim_step : step enqueued (LClaim the_claim) leased_outbox.
Proof. exact (step_claim _ _ _ _ _ _ _ _ _ _ lease_committed). Qed.

Lemma settle_step : step leased_outbox (LSettle the_claim) settled_outbox.
Proof. exact (step_settle _ _ _ _ _ _ _ _ _ settlement_committed). Qed.

Lemma history : run empty_outbox [LEnqueue 1; LClaim the_claim; LSettle the_claim] settled_outbox.
Proof.
  eapply run_cons; [exact enqueue_step|]. eapply run_cons; [exact claim_step|].
  eapply run_cons; [exact settle_step|]. constructor.
Qed.

Lemma empty_outbox_initial : initial_webhooks empty_outbox.
Proof. by split. Qed.

Lemma empty_outbox_ok : webhooks_ok maximumAttempts empty_outbox.
Proof. by apply initial_webhooks_ok, empty_outbox_initial. Qed.

Lemma enqueued_outbox_ok : webhooks_ok maximumAttempts enqueued.
Proof. eapply webhook_step_ok; [..|exact enqueue_step]; [done|exact empty_outbox_ok]. Qed.
End WebhookExample.
Import WebhookExample.

(** ** Witnesses *)

Lemma webhook_settlement_exclusive_witness :
  claimWebhook datetime3 maximumAttempts "worker-1" minute claim_env enqueued = Ok (WebhookClaimed the_claim, leased_outbox) ∧
  wd_Outbox leased_outbox !! wk_OutboxID the_claim = wd_Outbox leased_outbox !! wk_OutboxID the_claim ∧
  ∀ ls' d4 now' settlement' d5, run settled_outbox ls' d4 →
    SettleWebhook datetime3 maximumAttempts now' the_claim settlement' d4 ≠ Ok (tt, d5).
Proof.
  split; [exact lease_committed|].
  apply (webhook_settlement_exclusive datetime3 Example.json_payload Example.window maximumAttempts "worker-1" minute
    claim_env the_claim enqueued leased_outbox [] leased_outbox settle_time delivered settled_outbox).
  - unfold maximumAttempts. lia.
  - exact enqueued_outbox_ok.
  - exact lease_committed.
  - constructor.
  - exact settlement_committed.
Defined.

Lemma webhook_attempts_bounded_witness :
  wd_Outbox empty_outbox !! 1 = None ∧ claims_of 1 [LEnqueue 1; LClaim the_claim; LSettle the_claim] ≤ maximumAttempts.
Proof.
  split; [reflexivity|].
  apply (webhook_attempts_bounded datetime3 Example.json_payload Example.window maximumAttempts empty_outbox
    [LEnqueue 1; LClaim the_claim; LSettle the_claim] settled_outbox 1).
  - unfold maximumAttempts. lia.
  - exact empty_outbox_ok.
  - reflexivity.
  - exact history.
Defined.

Lemma webhook_delivery_terminates_witness :
  sumZ works [LEnqueue 1; LClaim the_claim; LSettle the_claim] = 2 ∧
  sumZ works [LEnqueue 1; LClaim the_claim; LSettle the_claim] ≤
    remaining_work maximumAttempts empty_outbox +
    (2 * maximumAttempts + 1) * sumZ enqueues [LEnqueue 1; LClaim the_claim; LSettle the_claim].
Proof.
  split; [reflexivity|].
  apply (webhook_delivery_terminates datetime3 Example.json_payload Example.window maximumAttempts empty_outbox
    [LEnqueue 1; LClaim the_claim; LSettle the_claim] settled_outbox).
  - unfold maximumAttempts. lia.
  - exact empty_outbox_ok.
  - exact history.
Defined.

Lemma webhook_outbox_well_formed_witness :
  initial_webhooks empty_outbox ∧ webhooks_ok maximumAttempts settled_outbox.
Proof.
  split; [exact empty_outbox_initial|].
  apply (webhook_outbox_well_formed datetime3 Example.json_payload Example.window maximumAttempts empty_outbox
    [LEnqueue 1; LClaim the_claim; LSettle the_claim] settled_outbox).
  - unfold maximumAttempts. lia.
  - exact empty_outbox_initial.
  - exact history.
Defined.

Lemma webhook_claims_in_due_order_witness :
  ∃ r, claimable_row enqueued (we_Now claim_env) (1, r) ∧ wo_AttemptCount r < maximumAttempts.
Proof.
  pose proof (webhook_claims_in_due_order datetime3 maximumAttempts "worker-1" minute claim_env enqueued enqueued_outbox_ok) as H.
  assert (E : claimWebhook datetime3 maximumAttempts "worker-1" minute claim_env enqueued =
              Ok (WebhookClaimed the_claim, leased_outbox)) by exact lease_committed.
  rewrite E in H. destruct H as (r & Hc & _ & Ha & _). exists r. split; [exact Hc|exact Ha].
Defined.

(** A callback host with one public address that accepts the connection. *)
Lemma callback_dials_public_addresses_witness :
  let LookupNetIP (_ : string) := Some [AddrV4 (v4 93 184 216 34)] in
  let dial (_ : Addr) (_ : Z) := Some tt in
  DialContext ascii_lower LookupNetIP dial "example.com" 443 = Ok (AddrV4 (v4 93 184 216 34), tt) ∧
  public_address (AddrV4 (v4 93 184 216 34)).
Proof.
  cbv zeta. split; [reflexivity|].
  apply (callback_dials_public_addresses ascii_lower (λ _ _, eq_refl) (λ _, Some [AddrV4 (v4 93 184 216 34)]) (λ _ _, Some tt)
    "example.com" 443 (AddrV4 (v4 93 184 216 34)) tt).
  - intros host addresses [= <-]. repeat constructor; vm_compute; intuition discriminate.
  - vm_compute. reflexivity.
Defined.

Lemma webhook_signature_unambiguous_witness :
  let message := signed_message "event" (pretty (unix_seconds (5 * second))) "body" in
  message = message ∧ "event" = "event" ∧ unix_seconds (5 * second) = unix_seconds (5 * second) ∧ "body" = "body".
Proof.
  cbv zeta. split; [reflexivity|].
  apply (webhook_signature_unambiguous "event" "event" (5 * second) (5 * second) "body" "body").
  reflexivity.
Defined.

Lemma webhook_transports_closed_once_witness :
  let '(cache, opened, closed) :=
    run_requests [("a:443", Some (1, 1)); ("b:443", Some (2, 2)); ("a:443", Some (3, 3))] (newWebhookAuthorityCache 1) in
  (length (live_closers cache) ≤ 1)%nat ∧ opened ≡ₚ closed ++ live_closers cache.
Proof.
  pose proof (webhook_transports_closed_once 1
    [("a:443", Some (1, 1)); ("b:443", Some (2, 2)); ("a:443", Some (3, 3))] ltac:(lia)) as H.
  destruct (run_requests _ _) as [[cache opened] closed]. destruct (cache_Close cache) as [cache' closed'].
  destruct H as (Hl & Hp & _). split; [exact Hl|exact Hp].
Defined.

Lemma webhook_cache_refines_lru_witness :
  let cache := newWebhookAuthorityCache (D := Z) (C := Z) 1 in
  ac_closed cache = false ∧
  let '(d, cache', opened, closed) := cachedDeliverer_key "a:443" (Some (1, 1)) cache in
  (d, cached cache', opened, closed) = lru_deliverer (ac_limit cache) "a:443" (Some (1, 1)) (cached cache).
Proof.
  cbv zeta. split; [reflexivity|].
  pose proof (webhook_cache_refines_lru (newWebhookAuthorityCache (D := Z) (C := Z) 1) "a:443" (Some (1, 1))
    (new_cache_ok 1 ltac:(lia)) eq_refl) as H.
  destruct (cachedDeliverer_key _ _ _) as [[[d c] opened] closed]. apply H.
Defined.

(** A delay of two seconds at most doubles to sixteen on the fourth attempt. *)
Lemma webhookBackoff_exact_witness :
  webhookBackoff (2 * second) minute 4 0 (Some 0) = Some (8 * second) ∧
  nominal_delay (2 * second) minute 4 / 2 ≤ 8 * second ≤ minute.
Proof.
  split; [vm_compute; reflexivity|].
  assert (Hr : random_ok (Some 0)) by (intros r [= <-]; lia).
  pose proof (webhookBackoff_exact (2 * second) minute 4 0 (Some 0) ltac:(lia) Hr) as H.
  assert (E : webhookBackoff (2 * second) minute 4 0 (Some 0) = Some (8 * second)) by (vm_compute; reflexivity).
  rewrite E in H. destruct H as (r & _ & _ & _ & _ & _ & H). exact H.
Defined.

(** ** The worker on the MySQL outbox *)
Module WorkerExample.
Definition url_Parse (_ : string) : option URL :=
  Some {| u_Scheme := "https"; u_Host := "example.com"; u_HasUser := false; u_Fragment := ""; u_Opaque := "";
          u_Hostname := "example.com"; u_Port := ""; u_EscapedPath := "/hook"; u_RawQuery := "" |}.
Definition json_members (_ : string) : option (list (string * option string)) := Some [("eventId", Some Example.eventID)].
Definition Decrypt (_ _ _ : string) (_ : EncryptedCallbackSecret) : option string := Some (Example.token "k").

Definition config : WebhookWorkerConfig := mkWebhookConfig "worker-1" 0 0 0 0 0 0 0 0 0.
Definition worker : WebhookWorkerConfig := default config (newWebhookWorker config).

(** The receiver answers 503: the event is retried. *)
Definition environment : process_env :=
  {| pe_Cancelled := false; pe_ClaimElapsed := 0; pe_BeforeDelivery := 0; pe_RequestTime := Example.done_time;
     pe_Transport := λ _ _, RoundTripResponse 503 "" Example.done_time; pe_CancelledAfter := false;
     pe_AfterDelivery := second; pe_Random := Some 0 |}.

Definition moment : mysql_moment :=
  {| mm_Others := λ d, d; mm_Rounds := λ _, claim_env; mm_RoundOthers := λ _ d, d; mm_Now := settle_time;
     mm_Locked := ∅; mm_Failure := None |}.
Definition outbox : mysql_outbox := mkOutbox enqueued (λ _, moment).

#[export] Instance repository : WebhookOutboxRepository mysql_outbox := mysql_webhook_repository datetime3 maximumAttempts.
#[export] Instance laws : WebhookOutboxLaws mysql_outbox (outbox_good maximumAttempts).
Proof. apply mysql_outbox_laws. unfold maximumAttempts. lia. Qed.

Lemma outbox_is_good : outbox_good maximumAttempts outbox.
Proof.
  split; [exact enqueued_outbox_ok|]. intros i. split; [by intros d Hd|by intros j d Hd|].
  intros j token [= <-]. reflexivity.
Qed.

Definition turn :=
  processNext ascii_lower url_Parse (λ _, false) (λ _, "https://example.com/hook") json_members (λ _ _, "mac")
    (λ _, None) Decrypt worker environment (newWebhookAuthorityCache 1) outbox.
End WorkerExample.
#[local] Existing Instance WorkerExample.repository.
#[local] Existing Instance WorkerExample.laws.

Lemma webhook_worker_settlements_accepted_witness :
  let '(e, _, s') := WorkerExample.turn in
  e = None ∧ (wo_Status <$> wd_Outbox (mo_DB s') !! 1) = Some WebhookRowPending ∧
  outbox_good maximumAttempts s' ∧ e ≠ Some (WorkerRepository ErrWebhookSettlementInvalid).
Proof.
  assert (Hw : newWebhookWorker WorkerExample.config = Some WorkerExample.worker) by reflexivity.
  assert (Hb : 2 ≤ wf_BaseRetryDelay WorkerExample.worker) by (vm_compute; done).
  assert (Hr : random_ok (pe_Random WorkerExample.environment)) by (intros r [= <-]; lia).
  pose proof (webhook_worker_settlements_accepted ascii_lower WorkerExample.url_Parse (λ _, false)
    (λ _, "https://example.com/hook") WorkerExample.json_members (λ _ _, "mac") (λ _, None) WorkerExample.Decrypt
    WorkerExample.config WorkerExample.worker WorkerExample.environment (newWebhookAuthorityCache 1)
    WorkerExample.outbox Hw Hb Hr WorkerExample.outbox_is_good) as H.
  fold WorkerExample.turn in H.
  assert (E : WorkerExample.turn.1.1 = None) by (vm_compute; reflexivity).
  assert (Es : (wo_Status <$> wd_Outbox (mo_DB WorkerExample.turn.2) !! 1) = Some WebhookRowPending)
    by (vm_compute; reflexivity).
  destruct WorkerExample.turn as [[e c] s']. split; [exact E|]. split; [exact Es|exact H].
Defined.

(** ** The ciphers, with a toy cipher and digest *)
Module CipherExample.
Definition tag : string := "0123456789abcdef".

(** [open] drops a tag of 16 bytes that it finds at the end. *)
Fixpoint drop_tag (s : string) : option string :=
  if bool_decide (s = tag) then Some ""
  else match s with
       | "" => None
       | String a s => String a <$> drop_tag s
       end.

#[export] Instance toy_aead : AEAD := {|
  seal _ _ plaintext _ := plaintext +:+ tag;
  open _ _ ciphertext _ := drop_tag ciphertext
|}.

Lemma drop_tag_app p : drop_tag (p +:+ tag) = Some p.
Proof.
  induction p as [|a p IH]; [by vm_compute|]. cbn [String.append drop_tag].
  rewrite bool_decide_eq_false_2.
  - by rewrite IH.
  - intros E. apply (f_equal len) in E. change (String a (p +:+ tag)) with (String a p +:+ tag) in E. rewrite len_append in E.
    change (len tag) with 16 in E. pose proof (len_nonneg (String a p)) as Hp. pose proof (proj1 (len_zero (String a p))). destruct (Z.eq_dec (len (String a p)) 0); [naive_solver|lia].
Qed.

Lemma drop_tag_Some c p : drop_tag c = Some p → c = p +:+ tag.
Proof.
  revert p. induction c as [|a c IH]; intros p; cbn [drop_tag]; case_bool_decide as E; try done.
  - by intros [= <-].
  - rewrite fmap_Some. intros (p' & Hp & ->). cbn [String.append]. f_equal. by apply IH.
Qed.

#[export] Instance toy_laws : AEADLaws.
Proof.
  split.
  - intros key nonce p aad _ _. apply drop_tag_app.
  - intros key nonce p aad. cbn [seal toy_aead]. by rewrite len_append.
  - intros key nonce c aad p. apply drop_tag_Some.
Qed.

Definition sha256 (_ : string) : string := Example.token "h".
Definition ring : KeyRing := mkKeyRing 1 {[ 1 := Example.token "k" ]}.
Definition later : KeyRing := mkKeyRing 2 {[ 1 := Example.token "k"; 2 := Example.token "l" ]}.

Lemma ring_is_ok : ring_ok ring.
Proof. by apply (NewSourceCipher_ok 1 {[ 1 := Example.token "k" ]} ring). Qed.

Lemma later_is_ok : ring_ok later.
Proof. by apply (NewSourceCipher_ok 2 {[ 1 := Example.token "k"; 2 := Example.token "l" ]} later). Qed.

Lemma ring_rotates : rotates_to ring later.
Proof. intros i. destruct (decide (i = 1)) as [->|Hi]; [done|]. cbn [kr_keys ring]. rewrite lookup_singleton_ne by done. by destruct (_ !! i). Qed.

Definition url_print (host path rawPath query : string) : string := "https://" +:+ host +:+ path.
Definition canonical :=
  CanonicalCallbackDestination ascii_lower WorkerExample.url_Parse (λ _, false) (λ p, p) Some (λ _, Some ∅) (λ _, "") url_print.
End CipherExample.
#[local] Existing Instance CipherExample.toy_aead.
#[local] Existing Instance CipherExample.toy_laws.

Lemma source_cipher_roundtrip_witness :
  ∃ encrypted,
    source_Encrypt CipherExample.sha256 CipherExample.ring (Some Example.nonce) "tenant" "object" "package main" = Some encrypted ∧
    source_Decrypt CipherExample.sha256 CipherExample.later "tenant" "object" encrypted = Some "package main".
Proof.
  apply (source_cipher_roundtrip CipherExample.sha256 (λ _, eq_refl) CipherExample.ring CipherExample.later Example.nonce
    "tenant" "object" "package main").
  - exact CipherExample.ring_is_ok.
  - exact CipherExample.later_is_ok.
  - exact CipherExample.ring_rotates.
  - reflexivity.
  - discriminate.
  - discriminate.
  - vm_compute. split; [reflexivity|discriminate].
Defined.

Definition example_source : EncryptedSource :=
  mkEncryptedSource ("package main" +:+ CipherExample.tag) Example.nonce 1 (Example.token "h") 12.

Lemma source_cipher_bound_witness :
  source_Decrypt CipherExample.sha256 CipherExample.ring "tenant" "object" example_source = Some "package main" ∧
  len "package main" = es_SizeBytes example_source.
Proof.
  split; [vm_compute; reflexivity|].
  apply (source_cipher_bound CipherExample.sha256 CipherExample.ring "tenant" "tenant" "object" "object" example_source
    "package main" "package main").
  - vm_compute. reflexivity.
  - vm_compute. reflexivity.
  - vm_compute. reflexivity.
  - vm_compute. reflexivity.
  - vm_compute. split; [discriminate|reflexivity].
  - vm_compute. reflexivity.
  - vm_compute. reflexivity.
Defined.

Definition example_destination : CallbackDestination :=
  default (mkDestination "" "" 0) (CipherExample.canonical "https://example.com/hook").

(** The secret survives a rotation to [later], under another spelling of the
    destination. *)
Lemma callback_cipher_roundtrip_witness :
  ∃ encrypted,
    callback_Encrypt ascii_lower WorkerExample.url_Parse (λ _, false) (λ p, p) Some (λ _, Some ∅) (λ _, "")
      CipherExample.url_print CipherExample.ring (Some Example.nonce) Example.tenantID Example.callbackID
      "https://example.com/hook" (Example.token "s") = Some encrypted ∧
    callback_Decrypt ascii_lower WorkerExample.url_Parse (λ _, false) (λ p, p) Some (λ _, Some ∅) (λ _, "")
      CipherExample.url_print CipherExample.later Example.tenantID Example.callbackID
      "HTTPS://EXAMPLE.COM/hook" encrypted = Some (Example.token "s").
Proof.
  apply (callback_cipher_roundtrip ascii_lower WorkerExample.url_Parse (λ _, false) (λ p, p) Some (λ _, Some ∅) (λ _, "")
    CipherExample.url_print CipherExample.ring CipherExample.later Example.nonce Example.tenantID Example.callbackID
    "https://example.com/hook" "HTTPS://EXAMPLE.COM/hook" example_destination example_destination (Example.token "s")).
  - exact CipherExample.ring_is_ok.
  - exact CipherExample.later_is_ok.
  - exact CipherExample.ring_rotates.
  - reflexivity.
  - vm_compute. reflexivity.
  - vm_compute. reflexivity.
  - vm_compute. split; discriminate.
  - vm_compute. reflexivity.
  - vm_compute. reflexivity.
  - reflexivity.
Defined.
