(* ===== verification/ListingWitness.v ===== *)
(** * Request hashes, cursors and listings at concrete inputs

    A small decoder of cursor payloads, and a store with two jobs listed one per
    page. *)
From stdpp Require Import prelude gmap strings pretty sorting.
From S2P Require Import Prelude.
From S2P Require Import GoText.
From S2P Require Import Encodings.
From S2P Require Import JobState.
From S2P Require Import Manifest.
From S2P Require Import BatchPipeline.
From S2P Require Import Store.
From S2P Require Import JobRepository.
From S2P Require Import Submission.
From S2P Require Import RequestIdentity.
From S2P Require Import JobListing.
From S2P Require Import StoreExample.
From S2P Require Import CallbackTransport.

Open Scope Z_scope.

Module CursorExample.

(** ** A decoder of cursor payloads *)
Fixpoint leading (p : Ascii.ascii → bool) (s : string) : string :=
  match s with
  | "" => ""
  | String a s => if p a then String a (leading p s) else ""
  end.

Definition integer (s : string) : option Z :=
  match s with
  | "" => None
  | String a digits => if byte_of a =? 45 then Z.opp <$> parse_digits 0 digits else parse_digits 0 s
  end.

(** The integer in a segment such as [:123,]. *)
Definition number (segment : string) : option Z :=
  match segment with
  | "" => None
  | String _ s => integer (leading decimal_byte s)
  end.

Definition json_cursor (s : string) : option jobCursorPayload :=
  match split_on 34 s with
  | [_; _; v; _; _; t; _; _; c; _; i] =>
      v ← number v; c ← number c; i ← number i; Some (mkCursorPayload v t "" c i)
  | [_; _; v; _; _; t; _; _; _; s; _; _; c; _; i] =>
      v ← number v; c ← number c; i ← number i; Some (mkCursorPayload v t s c i)
  | _ => None
  end.

Lemma leading_app p x c r : string_forallb p x = true → p c = false → leading p (x +:+ String c r) = x.
Proof.
  intros Hx Hc. induction x as [|a x IH]; cbn [String.append leading].
  - by rewrite Hc.
  - cbn [string_forallb] in Hx. apply andb_true_iff in Hx as [-> Hx]. by rewrite IH.
Qed.

Lemma parse_pretty_go n s : parse_digits 0 (pretty_N_go n s) = parse_digits (Z.of_N n) s.
Proof.
  revert s. induction (N.lt_wf_0 n) as [n _ IH]; intros s. destruct (decide (n = 0)%N) as [->|Hn]; [by rewrite pretty_N_go_0|].
  rewrite pretty_N_go_step by lia. rewrite IH by (apply N.div_lt; lia). cbn [parse_digits].
  assert (Hd : ∀ m, (m < 10)%N → digit (pretty_N_char m) = true ∧ byte_of (pretty_N_char m) - 48 = Z.of_N m).
  { intros m Hm. assert (m = 0 ∨ m = 1 ∨ m = 2 ∨ m = 3 ∨ m = 4 ∨ m = 5 ∨ m = 6 ∨ m = 7 ∨ m = 8 ∨ m = 9)%N as Hc by lia.
    repeat destruct Hc as [->|Hc]; try done; by subst. }
  destruct (Hd (n `mod` 10)%N) as [-> ->]; [apply N.mod_lt; lia|]. f_equal.
  rewrite N2Z.inj_div, N2Z.inj_mod. pose proof (Z.div_mod (Z.of_N n) 10). lia.
Qed.

Lemma parse_pretty_N n : parse_digits 0 (pretty n) = Some (Z.of_N n).
Proof. unfold pretty, pretty_N. case_decide; [by subst|]. by rewrite parse_pretty_go. Qed.

Lemma integer_pretty (z : Z) : integer (pretty z) = Some z.
Proof.
  destruct z as [|p|p]; [done| |].
  - change (pretty (Z.pos p)) with (pretty (N.pos p)). unfold integer. pose proof (parse_pretty_N (N.pos p)) as H.
    pose proof (pretty_Z_bytes (Z.pos p)) as Hb. change (pretty (Z.pos p)) with (pretty (N.pos p)) in Hb.
    destruct (pretty (N.pos p)) as [|a s] eqn:E; [done|]. destruct (byte_of a =? 45) eqn:Ea; [|done].
    exfalso. bool_to_prop. cbn [parse_digits] in H. unfold digit, in_range in H. rewrite Ea in H. done.
  - change (pretty (Z.neg p)) with (String (ascii_of_byte 45) (pretty (N.pos p))). unfold integer.
    change (byte_of (ascii_of_byte 45) =? 45) with true. cbn match. by rewrite parse_pretty_N.
Qed.

Lemma number_pretty a (z : Z) c r : decimal_byte c = false → number (String a (pretty z +:+ String c r)) = Some z.
Proof. intros Hc. unfold number. rewrite leading_app by (apply pretty_Z_bytes || done). apply integer_pretty. Qed.

Definition unquoted (s : string) : bool := string_forallb (λ a, negb (byte_of a =? 34)) s.

Lemma split_segments segments :
  segments ≠ [] → Forall (λ s, unquoted s = true) segments → split_on 34 (String.concat quote segments) = segments.
Proof.
  intros Hne H. induction H as [|x l Hx Hl IH]; [done|]. destruct l as [|y l].
  - by apply split_on_one.
  - change (String.concat quote (x :: y :: l)) with (x +:+ String (ascii_of_byte 34) (String.concat quote (y :: l))).
    rewrite split_on_two by done. f_equal. by apply IH.
Qed.

Lemma unquoted_app x y : unquoted (x +:+ y) = unquoted x && unquoted y.
Proof. unfold unquoted. induction x as [|a x IH]; [done|]. cbn [String.append string_forallb]. by rewrite IH, andb_assoc. Qed.

Lemma unquoted_pretty (z : Z) : unquoted (pretty z) = true.
Proof.
  eapply string_forallb_impl; [|apply pretty_Z_bytes]. intros a. unfold decimal_byte, in_range. lia.
Qed.

Lemma unquoted_plain s : string_forallb json_plain s = true → unquoted s = true.
Proof. apply string_forallb_impl. intros a. unfold json_plain. lia. Qed.

Definition segment (before : string) (z : Z) (after : string) : string := before +:+ pretty z +:+ after.

Lemma number_segment (z : Z) c : decimal_byte c = false → number (segment ":" z (String c "")) = Some z.
Proof. intros Hc. unfold segment. by apply (number_pretty (ascii_of_byte 58)). Qed.

Lemma json_cursor_text p :
  string_forallb json_plain (cp_TenantID p) = true → string_forallb json_plain (cp_Status p) = true →
  0 ≤ cp_Version p ≤ max_int64 →
  min_int64 ≤ cp_CreatedMS p ≤ max_int64 → 0 ≤ cp_InternalID p ≤ max_uint64 → json_cursor (cursor_text p) = Some p.
Proof.
  intros Ht Hs _ _ _. destruct p as [v t s c i]. cbn [cp_TenantID cp_Status] in *.
  set (tail := ["c"; segment ":" c ","; "i"; segment ":" i "}"]).
  set (segments := if bool_decide (s = "") then ["{"; "v"; segment ":" v ","; "t"; ":"; t; ","] ++ tail
                   else ["{"; "v"; segment ":" v ","; "t"; ":"; t; ","; "s"; ":"; s; ","] ++ tail).
  assert (E : cursor_text (mkCursorPayload v t s c i) = String.concat quote segments).
  { unfold cursor_text, optional_member, segments, tail, json_member, json_key, segment. cbn [cp_TenantID cp_Status cp_Version cp_CreatedMS cp_InternalID].
    rewrite json_string_plain by done. case_bool_decide; [|rewrite json_string_plain by done];
      cbn [app String.concat]; rewrite ?string_append_assoc; done. }
  rewrite E. unfold json_cursor. rewrite split_segments.
  - unfold segments, tail. case_bool_decide; cbn [app]; rewrite !number_segment by done; cbn [mbind option_bind]; [by subst|done].
  - unfold segments. by case_bool_decide.
  - assert (Htail : Forall (λ s, unquoted s = true) tail).
    { unfold tail, segment. repeat constructor; rewrite ?unquoted_app, ?unquoted_pretty; done. }
    unfold segments. case_bool_decide; apply Forall_app; (split; [|done]);
      repeat constructor; unfold segment; rewrite ?unquoted_app, ?unquoted_pretty; try done; by apply unquoted_plain.
Qed.
End CursorExample.

(** ** Witnesses *)
Definition example_hmac (key message : string) : string := Example.token "m".
Definition example_key : string := Example.token "k".

Lemma request_hash_identifies_request_witness :
  let sha256 (s : string) := s in
  CanonicalJobRequestHash sha256 Example.request 64 = Some (canonical_request sha256 Example.request) ∧
  (Example.request = Example.request ∨
   (canonical_request sha256 Example.request ≠ canonical_request sha256 Example.request ∧
    sha256 (canonical_request sha256 Example.request) = sha256 (canonical_request sha256 Example.request)) ∨
   (rq_SourceCode Example.request ≠ rq_SourceCode Example.request ∧
    sha256 (rq_SourceCode Example.request) = sha256 (rq_SourceCode Example.request))).
Proof.
  cbv zeta. assert (H : CanonicalJobRequestHash (λ s, s) Example.request 64 = Some (canonical_request (λ s, s) Example.request))
    by (vm_compute; reflexivity).
  split; [exact H|]. exact (request_hash_identifies_request (λ s, s) Example.request Example.request 64 64 _ H H).
Defined.

Definition example_cursor : JobCursor := mkCursor Example.tenantID JobStatusQueued Example.now0 5.

Lemma job_cursor_roundtrip_witness :
  ∃ encoded, cursor_Encode example_hmac example_key example_cursor = Some encoded ∧ len encoded ≤ 512 ∧
    cursor_Decode example_hmac CursorExample.json_cursor example_key encoded Example.tenantID JobStatusQueued
      = Some example_cursor.
Proof.
  assert (H : ∃ encoded, cursor_Encode example_hmac example_key example_cursor = Some encoded)
    by (eexists; vm_compute; reflexivity).
  destruct H as [encoded H]. exists encoded. split; [exact H|].
  destruct (job_cursor_roundtrip example_hmac CursorExample.json_cursor (λ _ _, eq_refl) CursorExample.json_cursor_text
    example_key example_cursor encoded Example.tenantID JobStatusQueued) as [Hlen Hdec].
  - vm_compute. intuition discriminate.
  - exact H.
  - split; [exact Hlen|]. rewrite Hdec. reflexivity.
Defined.

(** The example store with a second, earlier job. *)
Definition two_jobs : db :=
  set_jobs (λ m, match m !! 5 with
                 | Some r => <[6 := queued_job (jb_Tenant r) (jb_Bundle r) (jb_Source r) None
                                      (mkSubmission Example.tenantID "" "" Example.request (Example.id26 "g") "" 
                                         (su_Encrypted Example.submit) (su_Coordination Example.submit) (su_Source Example.submit))
                                      (Example.now0 - minute)]> m
                 | None => m
                 end) Example.submitted.

Lemma two_jobs_rows id r : jobs two_jobs !! id = Some r → id = 5 ∨ id = 6.
Proof.
  assert (H : forallb (λ p, (p.1 =? 5) || (p.1 =? 6)) (map_to_list (jobs two_jobs)) = true) by (vm_compute; reflexivity).
  intros Hr. rewrite forallb_forall in H. specialize (H (id, r)). cbn [fst] in H.
  assert (Hin : In (id, r) (map_to_list (jobs two_jobs))) by (by apply list_elem_of_In, elem_of_map_to_list).
  specialize (H Hin). lia.
Qed.

Lemma listing_enumerates_jobs_witness :
  ∃ pages, list_pages example_hmac CursorExample.json_cursor 3 example_key Example.tenantID 1 (JobStatusUnknown "") ""
             two_jobs = Ok pages ∧
    length pages = 2%nat ∧ StronglySorted newest_first (job_key <$> concat pages) ∧
    NoDup (ej_InternalID <$> concat pages).
Proof.
  assert (Hkey : 32 ≤ len example_key) by (vm_compute; discriminate).
  assert (Htenant : externalIDPattern Example.tenantID = true) by (vm_compute; reflexivity).
  assert (Hcolumns : ∀ id r, jobs two_jobs !! id = Some r → cursor_columns (jb_CreatedAt r) id).
  { intros id r H. destruct (two_jobs_rows _ _ H) as [-> | ->]; vm_compute in H; injection H as <-; vm_compute;
      intuition discriminate. }
  assert (Hread : ∀ id, scanExternalJob two_jobs id ≠ Err ErrScan).
  { intros id. destruct (jobs two_jobs !! id) as [r|] eqn:E; [|unfold scanExternalJob; rewrite E; discriminate].
    destruct (two_jobs_rows _ _ E) as [-> | ->]; vm_compute; discriminate. }
  assert (Hfuel : (length (job_keys two_jobs Example.tenantID (JobStatusUnknown "")) < 3)%nat)
    by (vm_compute; repeat constructor).
  destruct (listing_enumerates_jobs two_jobs Example.tenantID (JobStatusUnknown "") example_hmac CursorExample.json_cursor
    (λ _ _, eq_refl) CursorExample.json_cursor_text Hcolumns Hread example_key 1 Hkey Htenant eq_refl ltac:(lia) 3 Hfuel)
    as (pages & Hp & _ & Hs & Hn & _).
  exists pages. split; [exact Hp|]. split; [|split; [exact Hs|exact Hn]].
  assert (Hl : match list_pages example_hmac CursorExample.json_cursor 3 example_key Example.tenantID 1 (JobStatusUnknown "") ""
                       two_jobs with Ok pages => length pages | Err _ => 0%nat end = 2%nat) by (vm_compute; reflexivity).
  rewrite Hp in Hl. exact Hl.
Defined.
